(* ===== verification/_CoqProject ===== *)
-Q . S2P
Prelude.v
Irq.v
IrqDispatch.v
Addr.v
Platform.v
Pmm.v
ObjHeap.v
Cap.v
Task.v
Sched.v
DeadlineQueue.v
WorkQueue.v
Slab.v
Ipc.v
Thread.v
KHeap.v
Dtb.v
DtbFormat.v
Mmu.v
MmuTables.v
Loader.v
LoaderSpec.v
LoaderBoot.v
CoreApi.v
CoreMem.v
CoreCalls.v
Virtio.v
VirtioQueue.v
VirtioXfer.v
BootBlock.v
BootDisk.v
HeapPages.v
BlkDriver.v
BlkSpec.v
BlkSetup.v
BlkDisk.v
Mem.v
CoreBlock.v
CoreBlockSpec.v
CoreBlockCalls.v
Timer.v
Kmain.v
Seed.v
