(* ===== verification/Prelude.v ===== *)
(** * CapazOS kernel: a verification library

    A shallow embedding of the C kernel under src/Kern and the theorems that
    make its core correct.  This file is the root and the prelude; the other
    files model one component each.

    ** How code is modelled

    A routine is a function in the monad [M] of this file: it takes the CPU
    state (the DAIF mask register and the interrupt depth of irq.c) and the
    state of its component, and returns, panics with the message the kernel
    prints, or faults (an access outside an object or through an invalid
    pointer: undefined behaviour in C).  [wp] asks that it returns, [wpe] also
    describes its panics, [safe] only excludes faults.  A component that calls
    another holds its state and runs its routines through a [lens] ([zoom]).
    Unsigned integers are [Z] with the reductions of C written out ([u8] to
    [u64]); pointers are addresses in [Z] with 0 for NULL; the objects behind
    them are finite maps, so that two pointers may alias.  Arrays are lists
    read with [load], which faults out of range.

    ** Parts of the program and where they are

    - Irq.v: irq.c, contracts.h: masking and restoring interrupts, the
      interrupt depth, the context assertions of the allocators.
    - IrqDispatch.v: irq.c, HAL/gicv2.c, HAL/hal_irq.c: the handler table,
      [irq_dispatch] and the interrupt controller's registers.
    - Addr.v: the address map (arch_config.h, board_config.h,
      platform_config.h), page rounding, the direct map of pmm.c.
    - Platform.v: platform.c: the usable memory ranges from the device tree's
      RAM and reservations and the boot record.
    - Pmm.v: mm/pmm.c: the bitmap page manager.
    - ObjHeap.v: the interface ([ObjHeap]) that clients of the slab caches are
      proved against; Slab.v (alloc/slab_cache.c) implements it.
    - KHeap.v: kheap.c: [kmalloc] and [kfree].
    - Cap.v: cap/*: capability tables, rights, duplication, transfer,
      revocation.
    - Task.v: task/task.c: resource windows and ceilings.
    - Sched.v: sched/sched.c, sched/preempt.c: ready queues as circular lists,
      the weighted pick pattern, yield, blocking, ticks and preemption.
    - Thread.v: sched/thread.c: creation and destruction of threads over
      slab caches, page manager and scheduler.
    - DeadlineQueue.v, WorkQueue.v: sched/deadline_queue.c, work/work_queue.c.
    - Ipc.v: ipc/endpoint.c, ipc/ipc_message.c: messages between threads over
      capabilities, slab caches and scheduler.
    - Dtb.v: platform/dtb.c: the device-tree parser; DtbFormat.v: the format
      as a printer of trees and the theorem that the parser reads it back.
    - Mmu.v: mm/mmu.c: the static page tables; MmuTables.v: the walk of the
      hardware over them and the translation they give.
    - Loader.v: Loader/loader.c: partition table, FAT16 volume, ELF images;
      LoaderSpec.v: what a volume and its files are; LoaderBoot.v: the whole
      boot against a class [BlockDev] of block devices.
    - Virtio.v: the transport both block drivers share: memory as bytes, the
      registers of a device (class [VirtioBus]) and what a block device
      documents (class [VirtioBlk]); VirtioQueue.v, VirtioXfer.v: a request on
      the queue and its completion.
    - BootBlock.v: Loader/boot_block_virtio.c; BootDisk.v: it implements the
      [BlockDev] of the loader.
    - HeapPages.v: pages through the heap, as the driver takes them;
      BlkDriver.v: dev/virtio_blk.c, HAL/hal_block.c; BlkSpec.v, BlkSetup.v,
      BlkDisk.v: its requests, its set-up, its theorems.
    - Timer.v: HAL/timer_generic.c, HAL/hal_timer.c.
    - Mem.v: mm/mem.c: the byte loops.
    - CoreApi.v: api/core_kernel_api.c: the services the core calls; CoreMem.v,
      CoreCalls.v: their memory and their other calls; CoreBlock.v: the block
      calls; CoreBlockSpec.v, CoreBlockCalls.v: transfers and whole calls.
    - Kmain.v: kmain.c: the driver loop of the serial port over IPC; Seed.v: the
      capabilities [core_thread_entry] sets up.

    ** What the theorems show

    - Memory: initialization frees exactly the usable pages; no sequence of
      calls hands out a page, slab object or heap buffer that is already held,
      nor one of the allocators' own; freed memory is available again.
    - Capabilities: rights are never amplified, a dropped handle stays dead,
      each operation on every branch.
    - Scheduling: the linked queues refine lists and every routine an abstract
      decision on them; every ready thread is served within a bound that
      depends on its place and the weight of its class.
    - Tasks, deferred work, deadlines: ceilings, first-in first-out order,
      deadline order.
    - IPC: messages are neither lost, duplicated, reordered nor altered;
      a blocked receiver is woken by the next send.
    - Device tree: every blob printed from a tree is read back as the memory
      and reservation ranges the tree describes.
    - Page tables: the walk of the hardware gives exactly the intended map,
      and no page is both writable and executable.
    - Loader: a disk that holds the two images is booted into exactly their
      segments; a file read returns the bytes of the file's cluster chain.
    - Block drivers: for every device that behaves as documented (it serves a
      request of a queue of at least three entries once it is notified, and may
      refuse a driver that accepts no feature), set-up leaves driver and device
      in agreement or fails for a reason that holds, what is written is read
      back, and the loader's driver is the device the loader is proved against;
      for every device at all, how the kernel's requests end.
    - Services: blocks handed to the core never overlap and the task is charged
      what the heap was asked for on their behalf; a transfer moves exactly the sectors asked for
      through pages that are free again afterwards, or reports a reason that
      holds, within the ceiling of the task; console text and contracts.
    - Kernel thread: it starts the core with exactly the handles and rights the
      code names, and serves the serial port's commands in order without ever
      handing out a right the kernel does not have.
    - Timer: ticks come at the rate asked for, within the latency of the
      interrupts.  Memory routines: overlapping moves.
    - Defects are theorems, or examples that compute a run that shows them.

    ** Bounds and fuel

    Loops over arrays and page numbers recurse on a [nat] obtained from their
    range, so the fuel is the exact number of iterations.  Loops over linked
    lists and searches carry fuel; running out is a fault, and since the
    specifications exclude faults they show the fuel is enough: a list of
    threads has at most as many nodes as there are threads, a page at most
    4096 blocks, a chain of clusters without a cycle at most 65536 (the model
    of the loader gives its chain loops that much; a cycle makes the code
    loop forever and the model fault).  The kernel's driver polls at most
    2000001 times, as the code does; the loader's polls without a bound, so its
    model takes one and the theorems ask that the device answers within it.
    The device may work before every look of a driver at memory it writes.  A
    transfer loop has one more turn of fuel than sectors.  The 64 tables of the
    L3 pool of mmu.c are assumed to suffice for the image.  Statements about
    counters that wrap (generations, window sums, sizes) carry the bound under
    which they do not.

    ** Not modelled

    Assembly (entry, vectors, [ctx_switch]): a switch is an outcome that names
    the two threads, and interleavings are sequences of steps.  The registers
    of the serial port and the printing routines: what the services send there
    is a list of bytes.  Cache maintenance and barriers: memory is coherent
    with the device.  What other threads do while a background transfer yields
    is a parameter of the block calls, and their theorems are about the other
    intents.  The order of initialization and the self tests of kmain.c, which
    call what is modelled here and print.  The statistics of the allocators and
    the formatting of sizes, which are printed.  The Swift core, which is another
    language. *)

From stdpp Require Export base gmap sets list strings.
From Stdlib Require Export ZArith Lia.

#[global] Open Scope Z_scope.
#[export] Set Warnings "-clear-no-such-hyp".

Create HintDb capaz.

(** ** Fixed-width unsigned integers

    C's [uintN_t] values are kept as [Z] in the range [0, 2^N); the functions
    below are the conversions the compiler inserts (reduction modulo [2^N]). *)

Definition u8 (x : Z) : Z := x mod 2 ^ 8.
Definition u16 (x : Z) : Z := x mod 2 ^ 16.
Definition u32 (x : Z) : Z := x mod 2 ^ 32.
Definition u64 (x : Z) : Z := x mod 2 ^ 64.

#[global] Arguments u8 x : simpl never.
#[global] Arguments u16 x : simpl never.
#[global] Arguments u32 x : simpl never.
#[global] Arguments u64 x : simpl never.
#[global] Arguments Z.pow : simpl never.
#[global] Arguments Z.land : simpl never.
#[global] Arguments Z.lor : simpl never.
#[global] Arguments Z.shiftl : simpl never.
#[global] Arguments Z.shiftr : simpl never.

(** [~x] on a [uint64_t]. *)
Definition u64_not (x : Z) : Z := u64 (Z.lnot x).

Definition UINT64_MAX : Z := 2 ^ 64 - 1.

(** ** Outcomes

    A kernel routine returns, panics with the message it prints before it
    parks the CPU, or performs an access C leaves undefined ([Fault]: a load
    or store outside the object, an invalid pointer). *)
Inductive outcome (A : Type) : Type :=
| Ret (a : A)
| Panic (msg : string)
| Fault.
Arguments Ret {A} a.
Arguments Panic {A} msg.
Arguments Fault {A}.

(** The part of the CPU state the C code reads and writes: the DAIF mask
    register and the software interrupt depth of irq.c. *)
Record cpu_state := mkCpu { daif : Z; irq_depth : Z }.

(** ** The kernel monad: CPU and component state, panics, undefined behaviour *)
Definition M (S A : Type) : Type := cpu_state → S → outcome (A * cpu_state * S).

Definition ret {S A} (a : A) : M S A := λ c s, Ret (a, c, s).
Definition bind {S A B} (m : M S A) (k : A → M S B) : M S B := λ c s,
  match m c s with
  | Ret (a, c', s') => k a c' s'
  | Panic msg => Panic msg
  | Fault => Fault
  end.

Declare Scope kernel_scope.
Delimit Scope kernel_scope with kernel.
Notation "x <- m ;; k" := (bind m (λ x, k))
  (at level 100, m at next level, right associativity) : kernel_scope.
Notation "m ;;; k" := (bind m (λ _, k))
  (at level 100, right associativity) : kernel_scope.
#[global] Open Scope kernel_scope.

Definition get_st {S} : M S S := λ c s, Ret (s, c, s).
Definition put_st {S} (s : S) : M S unit := λ c _, Ret (tt, c, s).
Definition modify {S} (f : S → S) : M S unit := λ c s, Ret (tt, c, f s).
Definition gets {S A} (f : S → A) : M S A := λ c s, Ret (f s, c, s).
Definition get_cpu {S} : M S cpu_state := λ c s, Ret (c, c, s).
Definition put_cpu {S} (c : cpu_state) : M S unit := λ _ s, Ret (tt, c, s).
Definition panic {S A} (msg : string) : M S A := λ _ _, Panic msg.
Definition fault {S A} : M S A := λ _ _, Fault.

(** A load: [None] is an access outside the object. *)
Definition load {S A} (o : option A) : M S A :=
  match o with Some a => ret a | None => fault end.

(** [if (!cond) panic(msg);] *)
Definition assert_that {S} (b : bool) (msg : string) : M S unit :=
  if b then ret tt else panic msg.

(** A statement executed under a condition, [if (b) m;] *)
Definition when {S} (b : bool) (m : M S unit) : M S unit :=
  if b then m else ret tt.

(** ** Components inside a larger state *)
Record lens (S T : Type) := mkLens {
  lget : S → T;
  lset : T → S → S;
}.
Arguments mkLens {S T}.
Arguments lget {S T}.
Arguments lset {S T}.

Definition zoom {S T A} (l : lens S T) (m : M T A) : M S A := λ c s,
  match m c (lget l s) with
  | Ret (a, c', t) => Ret (a, c', lset l t s)
  | Panic msg => Panic msg
  | Fault => Fault
  end.

(** ** Weakest preconditions

    [wp m Q c s]: run from CPU [c] and state [s], [m] returns (no panic, no
    fault) with a result, CPU and state that satisfy [Q]. *)
Definition wp {S A} (m : M S A) (Q : A → cpu_state → S → Prop)
    (c : cpu_state) (s : S) : Prop :=
  match m c s with
  | Ret (a, c', s') => Q a c' s'
  | _ => False
  end.

(** [safe m Q c s]: [m] may panic but never faults, and [Q] holds if it returns. *)
Definition safe {S A} (m : M S A) (Q : A → cpu_state → S → Prop)
    (c : cpu_state) (s : S) : Prop :=
  match m c s with
  | Ret (a, c', s') => Q a c' s'
  | Panic _ => True
  | Fault => False
  end.

(** [wpe m Q E c s]: [m] never faults; [Q] holds if it returns and [E] of the
    message if it panics. *)
Definition wpe {S A} (m : M S A) (Q : A → cpu_state → S → Prop) (E : string → Prop)
    (c : cpu_state) (s : S) : Prop :=
  match m c s with
  | Ret (a, c', s') => Q a c' s'
  | Panic msg => E msg
  | Fault => False
  end.

Section wp_rules.
Context {S : Type}.
Implicit Types (c : cpu_state) (s : S).

Lemma wp_ret {A} (a : A) Q c s : Q a c s → wp (ret a : M S A) Q c s.
Proof. done. Qed.

Lemma wp_bind {A B} (m : M S A) (k : A → M S B) Q c s :
  wp m (λ a c' s', wp (k a) Q c' s') c s → wp (bind m k) Q c s.
Proof.
  unfold wp, bind. by destruct (m c s) as [[[a c'] s']| |].
Qed.

Lemma wp_bind_assoc {A B C} (m : M S A) (k : A → M S B) (l : B → M S C) Q c s :
  wp (bind (bind m k) l) Q c s → wp (bind m (λ a, bind (k a) l)) Q c s.
Proof.
  unfold wp, bind. by destruct (m c s) as [[[a c'] s']| |].
Qed.

Lemma wp_bind_inv {A B} (m : M S A) (k : A → M S B) Q c s :
  wp (bind m k) Q c s → wp m (λ a c' s', wp (k a) Q c' s') c s.
Proof.
  unfold wp, bind. by destruct (m c s) as [[[a c'] s']| |].
Qed.

Lemma wp_mono {A} (m : M S A) (P Q : A → cpu_state → S → Prop) c s :
  wp m P c s → (∀ a c' s', P a c' s' → Q a c' s') → wp m Q c s.
Proof. unfold wp. destruct (m c s) as [[[a c'] s']| |]; eauto. Qed.

Lemma wp_elim {A} (m : M S A) Q c s :
  wp m Q c s → ∃ a c' s', m c s = Ret (a, c', s') ∧ Q a c' s'.
Proof. unfold wp. destruct (m c s) as [[[a c'] s']| |]; naive_solver. Qed.

Lemma wp_intro {A} (m : M S A) (Q : A → cpu_state → S → Prop) c s a c' s' :
  m c s = Ret (a, c', s') → Q a c' s' → wp m Q c s.
Proof. unfold wp. by intros ->. Qed.

Lemma wp_get Q c s : Q s c s → wp (get_st : M S S) Q c s.
Proof. done. Qed.
Lemma wp_put (s' : S) Q c s : Q tt c s' → wp (put_st s') Q c s.
Proof. done. Qed.
Lemma wp_modify (f : S → S) Q c s : Q tt c (f s) → wp (modify f) Q c s.
Proof. done. Qed.
Lemma wp_gets {A} (f : S → A) Q c s : Q (f s) c s → wp (gets f) Q c s.
Proof. done. Qed.
Lemma wp_get_cpu Q c s : Q c c s → wp (get_cpu : M S _) Q c s.
Proof. done. Qed.
Lemma wp_put_cpu c' Q c s : Q tt c' s → wp (put_cpu c' : M S _) Q c s.
Proof. done. Qed.
Lemma wp_load {A} (o : option A) a Q c s :
  o = Some a → Q a c s → wp (load o : M S A) Q c s.
Proof. by intros ->. Qed.
Lemma wp_assert b msg Q c s :
  b = true → Q tt c s → wp (assert_that b msg : M S _) Q c s.
Proof. by intros ->. Qed.
Lemma wp_when (b : bool) (m : M S unit) Q c s :
  (if b then wp m Q c s else Q tt c s) → wp (when b m) Q c s.
Proof. by destruct b. Qed.
Lemma wp_if {A} (b : bool) (m1 m2 : M S A) Q c s :
  (b = true → wp m1 Q c s) → (b = false → wp m2 Q c s) →
  wp (if b then m1 else m2) Q c s.
Proof. destruct b; auto. Qed.

Lemma wp_conj {A} (m : M S A) P Q c s :
  wp m P c s → wp m Q c s → wp m (λ a c' s', P a c' s' ∧ Q a c' s') c s.
Proof. unfold wp. destruct (m c s) as [[[a c'] s']| |]; naive_solver. Qed.

Lemma wpe_wp {A} (m : M S A) Q E c s : wp m Q c s → wpe m Q E c s.
Proof. unfold wp, wpe. by destruct (m c s) as [[[a c'] s']| |]. Qed.

Lemma wpe_bind {A B} (m : M S A) (k : A → M S B) Q E c s :
  wpe m (λ a c' s', wpe (k a) Q E c' s') E c s → wpe (bind m k) Q E c s.
Proof. unfold wpe, bind. by destruct (m c s) as [[[a c'] s']| |]. Qed.

Lemma wpe_mono {A} (m : M S A) (P Q : A → cpu_state → S → Prop) (E : string → Prop) c s :
  wpe m P E c s → (∀ a c' s', P a c' s' → Q a c' s') → wpe m Q E c s.
Proof. unfold wpe. destruct (m c s) as [[[a c'] s']| |]; eauto. Qed.

Lemma wpe_panic {A} msg Q (E : string → Prop) c s : E msg → wpe (panic msg : M S A) Q E c s.
Proof. done. Qed.

Lemma wp_safe {A} (m : M S A) Q c s : wp m Q c s → safe m Q c s.
Proof. unfold wp, safe. by destruct (m c s) as [[[a c'] s']| |]. Qed.
End wp_rules.

Lemma wp_zoom {S T A} (l : lens S T) (m : M T A) Q c s :
  wp m (λ a c' t, Q a c' (lset l t s)) c (lget l s) → wp (zoom l m) Q c s.
Proof. unfold wp, zoom. by destruct (m c (lget l s)) as [[[a c'] t]| |]. Qed.

Lemma wpe_zoom {S T A} (l : lens S T) (m : M T A) Q E c s :
  wpe m (λ a c' t, Q a c' (lset l t s)) E c (lget l s) → wpe (zoom l m) Q E c s.
Proof. unfold wpe, zoom. by destruct (m c (lget l s)) as [[[a c'] t]| |]. Qed.

(** Symbolic execution of a routine written in the monad: one structural rule
    per step; calls to other routines are left for their specifications. *)
Ltac wp_step :=
  lazymatch goal with
  | |- wp (bind _ _) _ _ _ => apply wp_bind
  | |- wp (ret _) _ _ _ => apply wp_ret
  | |- wp get_st _ _ _ => apply wp_get
  | |- wp (put_st _) _ _ _ => apply wp_put
  | |- wp (modify _) _ _ _ => apply wp_modify
  | |- wp (gets _) _ _ _ => apply wp_gets
  | |- wp get_cpu _ _ _ => apply wp_get_cpu
  | |- wp (put_cpu _) _ _ _ => apply wp_put_cpu
  | |- wp (assert_that _ _) _ _ _ => apply wp_assert
  | |- wp (when _ _) _ _ _ => apply wp_when
  | |- wp (zoom _ _) _ _ _ => apply wp_zoom
  | |- wp (load (Some _)) _ _ _ => apply wp_ret
  end.
Ltac wp_steps := repeat (wp_step; cbn beta).
Ltac wp_call H := eapply wp_mono; [eapply H|cbn beta; intros].

(** One step of a routine that may panic, when that step does not. *)
Ltac wpe_step := apply wpe_bind; apply wpe_wp.

(** Replaces the tested condition of the goal's first [if] by its value. *)
Ltac case_if :=
  match goal with
  | |- context [if ?b then _ else _] =>
    lazymatch b with context [if _ then _ else _] => fail | _ => destruct b eqn:? end
  end.

(** Reflects the boolean comparisons of the source. *)
Ltac bool_simpl :=
  repeat match goal with
  | H : (_ =? _) = true |- _ => apply Z.eqb_eq in H
  | H : (_ =? _) = false |- _ => apply Z.eqb_neq in H
  | H : (_ <? _) = true |- _ => apply Z.ltb_lt in H
  | H : (_ <? _) = false |- _ => apply Z.ltb_ge in H
  | H : (_ <=? _) = true |- _ => apply Z.leb_le in H
  | H : (_ <=? _) = false |- _ => apply Z.leb_gt in H
  | H : andb _ _ = true |- _ => apply andb_true_iff in H as [? ?]
  | H : orb _ _ = false |- _ => apply orb_false_iff in H as [? ?]
  | H : andb _ _ = false |- _ => apply andb_false_iff in H
  | H : orb _ _ = true |- _ => apply orb_true_iff in H
  | H : negb _ = true |- _ => apply negb_true_iff in H
  | H : negb _ = false |- _ => apply negb_false_iff in H
  | H : bool_decide _ = true |- _ => apply bool_decide_eq_true in H
  | H : bool_decide _ = false |- _ => apply bool_decide_eq_false in H
  end.

(** ** Width lemmas *)

Lemma u8_small x : 0 ≤ x < 2 ^ 8 → u8 x = x.
Proof. apply Z.mod_small. Qed.
Lemma u16_small x : 0 ≤ x < 2 ^ 16 → u16 x = x.
Proof. apply Z.mod_small. Qed.
Lemma u32_small x : 0 ≤ x < 2 ^ 32 → u32 x = x.
Proof. apply Z.mod_small. Qed.
Lemma u64_small x : 0 ≤ x < 2 ^ 64 → u64 x = x.
Proof. apply Z.mod_small. Qed.
Lemma u32_range x : 0 ≤ u32 x < 2 ^ 32.
Proof. apply Z.mod_pos_bound. lia. Qed.
Lemma u64_range x : 0 ≤ u64 x < 2 ^ 64.
Proof. apply Z.mod_pos_bound. lia. Qed.
#[export] Hint Resolve u32_range u64_range : capaz.

(** ** Alignment masks

    [x & ~(2^k - 1)] clears the low [k] bits. *)
Lemma land_not_ones x k : 0 ≤ k → Z.land x (Z.lnot (2 ^ k - 1)) = x - x mod 2 ^ k.
Proof.
  intros Hk. pose proof (Z.land_ones x k Hk) as Hm.
  rewrite Z.ones_equiv in Hm. rewrite <- Z.sub_1_r in Hm.
  rewrite <- Hm. rewrite <- Z.ldiff_land.
  pose proof (Z.add_nocarry_lxor (Z.ldiff x (2 ^ k - 1)) (Z.land x (2 ^ k - 1))) as Ha.
  assert (Hz : Z.land (Z.ldiff x (2 ^ k - 1)) (Z.land x (2 ^ k - 1)) = 0).
  { apply Z.bits_inj'. intros n Hn.
    rewrite !Z.land_spec, Z.ldiff_spec, Z.bits_0.
    by destruct (Z.testbit x n), (Z.testbit (2 ^ k - 1) n). }
  specialize (Ha Hz).
  assert (Hx : Z.lxor (Z.ldiff x (2 ^ k - 1)) (Z.land x (2 ^ k - 1)) = x).
  { apply Z.bits_inj'. intros n Hn.
    rewrite Z.lxor_spec, Z.land_spec, Z.ldiff_spec.
    by destruct (Z.testbit x n), (Z.testbit (2 ^ k - 1) n). }
  lia.
Qed.

Lemma u64_land_not x k : 0 ≤ k ≤ 64 → 0 ≤ x < 2 ^ 64 →
  Z.land x (u64_not (2 ^ k - 1)) = x - x mod 2 ^ k.
Proof.
  intros Hk Hx. rewrite <- land_not_ones by lia.
  unfold u64_not, u64. rewrite <- Z.land_ones by lia.
  rewrite (Z.land_comm (Z.lnot _)), Z.land_assoc. f_equal.
  rewrite Z.land_ones by lia. by apply Z.mod_small.
Qed.

(** ** List lemmas shared by the array-based components *)

Lemma lookup_lt_is_Some_Z {A} (l : list A) (i : Z) :
  0 ≤ i < Z.of_nat (length l) → ∃ x, l !! Z.to_nat i = Some x.
Proof. intros Hi. apply lookup_lt_is_Some_2. lia. Qed.

Lemma replicate_lookup_Some {A} (n i : nat) (x y : A) :
  replicate n x !! i = Some y → y = x ∧ (i < n)%nat.
Proof. intros H%lookup_replicate. naive_solver. Qed.

Lemma filter_none {A} (P : A → Prop) `{!∀ x, Decision (P x)} (l : list A) :
  (∀ x, x ∈ l → ¬ P x) → filter P l = [].
Proof.
  induction l as [|x l IH]; intros Hn; [done|]. rewrite filter_cons_False by (apply Hn; left).
  apply IH. intros y Hy. apply Hn. by right.
Qed.

Lemma length_filter_fmap {A B} (P : B → Prop) `{!∀ x, Decision (P x)} (f : A → B) (l : list A) :
  length (filter P (f <$> l)) = length (filter (λ x, P (f x)) l).
Proof.
  induction l as [|x l IH]; [done|]. rewrite fmap_cons, !filter_cons.
  case_decide; simpl; lia.
Qed.

(** ** Cardinality of finite sets, in [Z] as the counters of the source *)
Definition card `{Countable A} (X : gset A) : Z := Z.of_nat (size X).

Section card.
Context `{Countable A}.
Implicit Types (X Y : gset A) (x : A).

Lemma card_nonneg X : 0 ≤ card X.
Proof. unfold card. lia. Qed.
Lemma card_empty : card (∅ : gset A) = 0.
Proof. unfold card. by rewrite size_empty. Qed.
Lemma card_singleton x : card {[x]} = 1.
Proof. unfold card. by rewrite size_singleton. Qed.
Lemma card_mono X Y : X ⊆ Y → card X ≤ card Y.
Proof. intros Hs. by apply inj_le, subseteq_size. Qed.
Lemma card_add x X : x ∉ X → card ({[x]} ∪ X) = 1 + card X.
Proof. intros Hx. unfold card. rewrite size_union by set_solver. rewrite size_singleton. lia. Qed.
Lemma card_union X Y : X ## Y → card (X ∪ Y) = card X + card Y.
Proof. intros Hx. unfold card. rewrite size_union by done. lia. Qed.
Lemma card_difference X Y : Y ⊆ X → card (X ∖ Y) = card X - card Y.
Proof. intros Hs. unfold card. rewrite size_difference by done. apply subseteq_size in Hs. lia. Qed.
Lemma card_seqZ (i n : Z) : 0 ≤ n → card (list_to_set (seqZ i n) : gset Z) = n.
Proof.
  intros Hn. unfold card. rewrite size_list_to_set by apply NoDup_seqZ.
  rewrite length_seqZ. lia.
Qed.
Lemma card_pos X x : x ∈ X → 0 < card X.
Proof.
  intros Hx. enough (card {[x]} ≤ card X) by (rewrite card_singleton in *; lia).
  apply card_mono. set_solver.
Qed.
Lemma card_pos_inv X : 0 < card X → ∃ x, x ∈ X.
Proof. intros Hc. apply size_pos_elem_of. unfold card in Hc. lia. Qed.
End card.
#[export] Hint Resolve card_nonneg : capaz.

(** ** Packing two fields in a word *)
Lemma lor_shiftl_low a b k : 0 ≤ k → 0 ≤ b < 2 ^ k → Z.lor (Z.shiftl a k) b = a * 2 ^ k + b.
Proof.
  intros Hk Hb. rewrite <- (Z.shiftl_mul_pow2 a k Hk), <- Z.add_lor_land.
  enough (Z.land (Z.shiftl a k) b = 0) by lia.
  apply Z.bits_inj'. intros n Hn. rewrite Z.land_spec, Z.bits_0, Z.shiftl_spec by done.
  destruct (Z.lt_ge_cases n k); [by rewrite Z.testbit_neg_r by lia|].
  rewrite <- (Z.mod_small b (2 ^ k)) by done.
  by rewrite Z.mod_pow2_bits_high, andb_false_r by lia.
Qed.

(** ** Linked lists

    [links n q f]: following [n] from the first element of [q] visits [q] in
    order and then reaches [f]. *)
Fixpoint links (n : Z → option Z) (q : list Z) (f : Z) : Prop :=
  match q with
  | [] => True
  | x :: q' => n x = Some (hd f q') ∧ links n q' f
  end.

Lemma links_app n q1 q2 f : links n (q1 ++ q2) f ↔ links n q1 (hd f q2) ∧ links n q2 f.
Proof.
  induction q1 as [|x q1 IH]; simpl; [tauto|]. rewrite IH.
  replace (hd f (q1 ++ q2)) with (hd (hd f q2) q1) by (by destruct q1). tauto.
Qed.

Lemma links_ext n n' q f : (∀ x, x ∈ q → n' x = n x) → links n q f → links n' q f.
Proof.
  induction q as [|x q IH]; simpl; [done|]. intros Hn [Hx Hq].
  split; [rewrite Hn; [done|left]|]. apply IH; [|done]. intros y Hy. apply Hn. by right.
Qed.

Lemma links_snoc n q x f : links n (q ++ [x]) f ↔ links n q x ∧ n x = Some f.
Proof. rewrite links_app. simpl. tauto. Qed.

Lemma last_snoc {A} (q : list A) x d : List.last (q ++ [x]) d = x.
Proof. induction q as [|y q IH]; [done|]. simpl. rewrite IH. by destruct (q ++ [x]) eqn:E; [destruct q|]. Qed.


(** ** Poisoning

    Freed memory is filled with the byte 0xA5: [poison p n m] is the store of
    64-bit words [m] after [memset(p, 0xA5, 8 * n)]. *)
Definition poison_word : Z := 0xA5A5A5A5A5A5A5A5.
Fixpoint poison (p : Z) (n : nat) (m : gmap Z Z) : gmap Z Z :=
  match n with
  | O => m
  | S n => poison (p + 8) n (<[p := poison_word]> m)
  end.

Lemma poison_other p n m y : ¬ (p ≤ y < p + 8 * Z.of_nat n) → poison p n m !! y = m !! y.
Proof.
  revert p m. induction n as [|n IH]; intros p m Hy; cbn [poison]; [done|].
  rewrite IH by lia. apply lookup_insert_ne. lia.
Qed.


(** ** Sums over finite maps *)
Definition map_sum (m : gmap Z Z) : Z := map_fold (λ _ n a, n + a) 0 m.

Lemma map_sum_empty : map_sum ∅ = 0.
Proof. apply map_fold_empty. Qed.
Lemma map_sum_insert m i n : m !! i = None → map_sum (<[i := n]> m) = n + map_sum m.
Proof. intros Hi. apply map_fold_insert_L; [|done]. intros. lia. Qed.
Lemma map_sum_delete m i n : m !! i = Some n → map_sum m = n + map_sum (delete i m).
Proof. intros Hi. rewrite <- (insert_delete_id m i n Hi) at 1. apply map_sum_insert, lookup_delete_eq. Qed.
Lemma map_sum_nonneg m : map_Forall (λ _ n, 0 ≤ n) m → 0 ≤ map_sum m.
Proof.
  intros Hm. induction m as [|i n m Hi IH] using map_ind; [by rewrite map_sum_empty|].
  apply map_Forall_insert in Hm as [Hn Hm]; [|done]. rewrite map_sum_insert by done. specialize (IH Hm). lia.
Qed.

(** The lengths of disjoint intervals inside another add up to at most its
    length. *)
Lemma map_sum_spans m lo hi : lo ≤ hi →
  (∀ x n, m !! x = Some n → 0 ≤ n ∧ lo ≤ x ∧ x + n ≤ hi) →
  (∀ x y n k, m !! x = Some n → m !! y = Some k → x ≠ y → x + n ≤ y ∨ y + k ≤ x) →
  map_sum m ≤ hi - lo.
Proof.
  intros Hlh Hin Hap.
  enough (∃ X : gset Z, card X = map_sum m ∧ ∀ a, a ∈ X ↔ ∃ x n, m !! x = Some n ∧ x ≤ a < x + n) as (X & HX & Ha).
  { rewrite <- HX, <- (card_seqZ lo (hi - lo)) by lia. apply card_mono. intros a (x & n & Hx & Hr)%Ha.
    destruct (Hin x n Hx). apply elem_of_list_to_set, elem_of_seqZ. lia. }
  induction m as [|x n m Hx IH] using map_ind.
  { exists ∅. split; [by rewrite card_empty, map_sum_empty|]. intros a. split; [by intros ?%not_elem_of_empty|].
    intros (x & n & Hx & _). by rewrite lookup_empty in Hx. }
  destruct IH as (X & HX & Ha).
  { intros y k Hy. apply Hin. rewrite lookup_insert_ne; [done|congruence]. }
  { intros y z k l Hy Hz. apply Hap; rewrite lookup_insert_ne; congruence. }
  destruct (Hin x n (lookup_insert_eq _ _ _)) as (Hn & _).
  exists (list_to_set (seqZ x n) ∪ X). split.
  - rewrite map_sum_insert by done. rewrite card_union, card_seqZ; [lia|done|].
    intros a [Hr]%elem_of_list_to_set%elem_of_seqZ (y & k & Hy & Hr')%Ha.
    destruct (Hap x y n k (lookup_insert_eq _ _ _)); [rewrite lookup_insert_ne; congruence|congruence|lia..].
  - intros a. rewrite elem_of_union, elem_of_list_to_set, elem_of_seqZ, Ha. split.
    + intros [Hr|(y & k & Hy & Hr)]; [exists x, n; rewrite lookup_insert_eq; by split; [|lia]|].
      exists y, k. rewrite lookup_insert_ne by congruence. done.
    + intros (y & k & [[<- <-]|[Hne Hy]]%lookup_insert_Some & Hr); [left; lia|right; by exists y, k].
Qed.
