(* ===== verification/Irq.v ===== *)
(** * Interrupt masking and context (Kern/Kernel/irg/irq.c, contracts.h)

    The DAIF register and the software interrupt depth are the [cpu_state] of
    the monad.  [irq_save]/[irq_restore] bracket the critical sections of the
    scheduler, the IPC endpoints and the work queue. *)

From S2P Require Import Prelude.

(** [DAIF_I_BIT]: the interrupt mask bit of DAIF. *)
Definition DAIF_I_BIT : Z := Z.shiftl 1 7.

Section ops.
Context {S : Type}.

Definition in_irq : M S bool := c <- get_cpu ;; ret (negb (irq_depth c =? 0)).

Definition irq_enter : M S unit :=
  c <- get_cpu ;; put_cpu (mkCpu (daif c) (u32 (irq_depth c + 1))).

Definition irq_exit : M S unit :=
  c <- get_cpu ;;
  (if irq_depth c =? 0 then panic "irq: depth underflow" else ret tt) ;;;
  put_cpu (mkCpu (daif c) (u32 (irq_depth c - 1))).

(** [msr daifset, #2] and [msr daifclr, #2]. *)
Definition irq_global_disable : M S unit :=
  c <- get_cpu ;; put_cpu (mkCpu (Z.lor (daif c) DAIF_I_BIT) (irq_depth c)).
Definition irq_global_enable : M S unit :=
  c <- get_cpu ;; put_cpu (mkCpu (Z.land (daif c) (u64_not DAIF_I_BIT)) (irq_depth c)).

Definition irq_save : M S Z :=
  c <- get_cpu ;; irq_global_disable ;;; ret (daif c).

Definition irq_restore (prev_daif : Z) : M S unit :=
  if negb (Z.land prev_daif DAIF_I_BIT =? 0)
  then irq_global_disable else irq_global_enable.

Definition irq_irqs_disabled : M S bool :=
  c <- get_cpu ;; ret (negb (Z.land (daif c) DAIF_I_BIT =? 0)).

Definition ASSERT_THREAD_CONTEXT : M S unit :=
  b <- in_irq ;; if b then panic "ASSERT_THREAD_CONTEXT" else ret tt.

Definition ASSERT_IRQ_CONTEXT : M S unit :=
  b <- in_irq ;; if negb b then panic "ASSERT_IRQ_CONTEXT" else ret tt.
End ops.

(** The mask bit of a CPU, as a boolean. *)
Definition irqs_masked (c : cpu_state) : bool := Z.testbit (daif c) 7.

(** The CPU inside a critical section entered from [c]. *)
Definition masked_cpu (c : cpu_state) : cpu_state :=
  mkCpu (Z.lor (daif c) DAIF_I_BIT) (irq_depth c).

(** DAIF is a 64-bit register. *)
Definition cpu_wf (c : cpu_state) : Prop := 0 ≤ daif c < 2 ^ 64.

Lemma land_I_bit x : Z.land x DAIF_I_BIT = if Z.testbit x 7 then DAIF_I_BIT else 0.
Proof.
  unfold DAIF_I_BIT. apply Z.bits_inj'. intros n Hn.
  rewrite Z.land_spec, Z.shiftl_spec by lia.
  destruct (Z.eq_dec n 7) as [->|Hne].
  - change (Z.testbit 1 (7 - 7)) with true.
    by destruct (Z.testbit x 7); rewrite andb_true_r.
  - assert (Hb : Z.testbit 1 (n - 7) = false).
    { destruct (Z.ltb_spec (n - 7) 0); [by apply Z.testbit_neg_r|].
      apply Z.bits_above_log2; [lia|]. change (Z.log2 1) with 0. lia. }
    rewrite Hb, andb_false_r.
    destruct (Z.testbit x 7); [|by rewrite Z.bits_0].
    rewrite Z.shiftl_spec by lia. by rewrite Hb.
Qed.

Lemma masked_cpu_masked c : irqs_masked (masked_cpu c) = true.
Proof.
  unfold irqs_masked, masked_cpu; cbn [daif irq_depth]. rewrite Z.lor_spec.
  by rewrite orb_true_r.
Qed.

Lemma masked_cpu_depth c : irq_depth (masked_cpu c) = irq_depth c.
Proof. done. Qed.

Lemma masked_cpu_wf c : cpu_wf c → cpu_wf (masked_cpu c).
Proof.
  unfold cpu_wf, masked_cpu, DAIF_I_BIT. cbn [daif]. intros Hd.
  enough (Z.lor (daif c) (Z.shiftl 1 7) = Z.lor (daif c) (Z.shiftl 1 7) mod 2 ^ 64) as ->
    by (apply Z.mod_pos_bound; lia).
  rewrite <- Z.land_ones by lia. rewrite Z.land_lor_distr_l, !Z.land_ones by lia.
  by rewrite Z.mod_small.
Qed.

Lemma masked_cpu_idem c : masked_cpu (masked_cpu c) = masked_cpu c.
Proof.
  unfold masked_cpu; cbn [daif irq_depth]. by rewrite <- Z.lor_assoc, Z.lor_diag.
Qed.

Lemma masked_cpu_id c : irqs_masked c = true → masked_cpu c = c.
Proof.
  destruct c as [d n]; unfold irqs_masked, masked_cpu; cbn [daif irq_depth]; intros H. f_equal.
  apply Z.bits_inj'. intros k Hk. rewrite Z.lor_spec.
  destruct (Z.eq_dec k 7) as [->|Hne]; [by rewrite H|].
  enough (Z.testbit DAIF_I_BIT k = false) as -> by apply orb_false_r.
  unfold DAIF_I_BIT. rewrite Z.shiftl_spec by lia.
  destruct (Z.ltb_spec (k - 7) 0); [by apply Z.testbit_neg_r|].
  apply Z.bits_above_log2; [lia|]. change (Z.log2 1) with 0. lia.
Qed.

Lemma lor_land_not d : 0 ≤ d < 2 ^ 64 → Z.testbit d 7 = false →
  Z.land (Z.lor d DAIF_I_BIT) (u64_not DAIF_I_BIT) = d.
Proof.
  intros Hd H7. unfold u64_not, u64. rewrite <- Z.land_ones by lia.
  apply Z.bits_inj'. intros k Hk.
  rewrite !Z.land_spec, Z.lor_spec, Z.lnot_spec by lia.
  destruct (Z.ltb_spec k 64) as [Hlt|Hge].
  - rewrite Z.ones_spec_low by lia. rewrite andb_true_r.
    destruct (Z.testbit DAIF_I_BIT k) eqn:E; [|by rewrite orb_false_r, andb_true_r].
    assert (k = 7) as ->.
    { unfold DAIF_I_BIT in E. rewrite Z.shiftl_spec in E by lia.
      destruct (Z.eq_dec k 7); [done|].
      destruct (Z.ltb_spec (k - 7) 0) as [|Hp];
        [by rewrite Z.testbit_neg_r in E|].
      rewrite Z.bits_above_log2 in E; [done|lia|]. change (Z.log2 1) with 0. lia. }
    by rewrite H7.
  - rewrite Z.ones_spec_high by lia. rewrite !andb_false_r.
    destruct (Z.eq_dec d 0) as [->|]; [by rewrite Z.bits_0|].
    symmetry. apply Z.bits_above_log2; [lia|].
    apply Z.log2_lt_pow2; [lia|].
    apply Z.lt_le_trans with (2 ^ 64); [lia|]. apply Z.pow_le_mono_r; lia.
Qed.

Section wp_irq.
Context {S : Type}.
Implicit Types (s : S) (c : cpu_state).

Lemma wp_in_irq Q c s : Q (negb (irq_depth c =? 0)) c s → wp (in_irq : M S _) Q c s.
Proof. intros H. unfold in_irq. wp_steps. done. Qed.

Lemma wp_assert_thread Q c s :
  irq_depth c = 0 → Q tt c s → wp (ASSERT_THREAD_CONTEXT : M S _) Q c s.
Proof.
  intros Hd H. unfold ASSERT_THREAD_CONTEXT. wp_steps. apply wp_in_irq.
  rewrite Hd. simpl. by wp_steps.
Qed.

Lemma wp_assert_irq Q c s :
  irq_depth c ≠ 0 → Q tt c s → wp (ASSERT_IRQ_CONTEXT : M S _) Q c s.
Proof.
  intros Hd H. unfold ASSERT_IRQ_CONTEXT. wp_steps. apply wp_in_irq.
  apply Z.eqb_neq in Hd. rewrite Hd. simpl. by wp_steps.
Qed.

Lemma wp_irq_save Q c s : Q (daif c) (masked_cpu c) s → wp (irq_save : M S _) Q c s.
Proof. intros H. unfold irq_save, irq_global_disable. wp_steps. done. Qed.

(** Leaving the critical section entered from [c] gives back [c]. *)
Lemma wp_irq_restore Q c s :
  cpu_wf c → Q tt c s → wp (irq_restore (daif c) : M S _) Q (masked_cpu c) s.
Proof.
  intros Hwf H. unfold irq_restore. rewrite land_I_bit.
  destruct (Z.testbit (daif c) 7) eqn:E.
  - change (negb (DAIF_I_BIT =? 0)) with true. cbv iota.
    unfold irq_global_disable. wp_steps.
    change (mkCpu _ _) with (masked_cpu (masked_cpu c)).
    rewrite masked_cpu_idem, masked_cpu_id; done.
  - change (negb (0 =? 0)) with false. cbv iota.
    unfold irq_global_enable. wp_steps. simpl.
    rewrite lor_land_not by done. by destruct c.
Qed.

(** In an already masked CPU the restore is the identity, whatever was saved
    there, as long as the saved value was masked. *)
Lemma wp_irq_irqs_disabled Q c s :
  Q (irqs_masked c) c s → wp (irq_irqs_disabled : M S _) Q c s.
Proof.
  intros H. unfold irq_irqs_disabled. wp_steps. rewrite land_I_bit.
  unfold irqs_masked in H. destruct (Z.testbit (daif c) 7); done.
Qed.

(** A nested save/restore pair, with any body that leaves the CPU alone and
    does not fail, restores the mask it found: critical sections nest. *)
Lemma wp_critical {A} (m : M S A) Q c s :
  cpu_wf c →
  wp m (λ a c' s', c' = masked_cpu c ∧ Q a c s') (masked_cpu c) s →
  wp (flags <- irq_save ;; a <- m ;; irq_restore flags ;;; ret a) Q c s.
Proof.
  intros Hwf Hm. wp_step. apply wp_irq_save. wp_step.
  eapply wp_mono; [exact Hm|]. intros a c' s' [-> HQ].
  wp_step. apply wp_irq_restore; [done|]. by wp_steps.
Qed.
End wp_irq.

(** The handlers' depth counter: [irq_enter] then [irq_exit] returns to the
    context the CPU was in, below the wrap of the 32-bit counter. *)
Lemma irq_enter_exit {S} (c : cpu_state) (s : S) :
  0 ≤ irq_depth c < 2 ^ 32 - 1 →
  (irq_enter ;;; irq_exit) c s = Ret (tt, c, s).
Proof.
  intros Hd. unfold irq_enter, irq_exit, bind, get_cpu, put_cpu, ret.
  simpl. rewrite u32_small by lia.
  destruct (Z.eqb_spec (irq_depth c + 1) 0); [lia|].
  rewrite u32_small by lia.
  replace (irq_depth c + 1 - 1) with (irq_depth c) by lia.
  by destruct c.
Qed.
