(* ===== verification/IrqDispatch.v ===== *)
(** * Interrupt dispatch and the interrupt controller
      (Kern/Kernel/irg/irq.c, Kern/HAL/hal_irq.c, Kern/HAL/gicv2.c)

    The handler table of the kernel and the registers of the GICv2 distributor
    and CPU interface.  Device registers are a store of 32-bit words by offset;
    the value an interrupt acknowledge returns is the device's choice and is
    part of the state, and the end-of-interrupt writes are logged. *)

From S2P Require Import Prelude Irq.

Definition IRQ_MAX : Z := 1024.

(** Register offsets. *)
Definition GICD_CTLR : Z := 0x000.
Definition GICD_IGROUPR (n : Z) : Z := 0x080 + u32 (4 * n).
Definition GICD_ISENABLER (n : Z) : Z := 0x100 + u32 (4 * n).
Definition GICD_ICENABLER (n : Z) : Z := 0x180 + u32 (4 * n).
Definition GICD_IPRIORITYR (n : Z) : Z := 0x400 + u32 (4 * n).
Definition GICD_ICFGR (n : Z) : Z := 0xC00 + u32 (4 * n).
Definition GICC_CTLR : Z := 0x000.
Definition GICC_PMR : Z := 0x004.
Definition GICC_BPR : Z := 0x008.

(** Distributor and CPU-interface registers, the value the next read of
    [GICC_IAR] returns, and the values written to [GICC_EOIR], last first. *)
Record gic := mkGic { gicd : gmap Z Z; gicc : gmap Z Z; gicc_iar : Z; eoir_log : list Z }.

(** [s_handlers], [s_ctx], the controller, and the rest of the kernel. *)
Record irq_state (S : Type) := mkIrqState {
  s_handlers : list Z; s_ctx : list Z; dev : gic; rest : S;
}.
Arguments mkIrqState {S}.
Arguments s_handlers {S}.
Arguments s_ctx {S}.
Arguments dev {S}.
Arguments rest {S}.

(** An undocumented register reads as 0. *)
Definition rd (m : gmap Z Z) (off : Z) : Z := default 0 (m !! off).

Section ops.
Context {S : Type}.
Abbreviation IM := (M (irq_state S)).

Definition upd_dev (f : gic → gic) : IM unit :=
  modify (λ s, mkIrqState (s_handlers s) (s_ctx s) (f (dev s)) (rest s)).
Definition gicd_write (off v : Z) : IM unit :=
  upd_dev (λ g, mkGic (<[off := v]> (gicd g)) (gicc g) (gicc_iar g) (eoir_log g)).
Definition gicd_read (off : Z) : IM Z := gets (λ s, rd (gicd (dev s)) off).
Definition gicc_write (off v : Z) : IM unit :=
  upd_dev (λ g, mkGic (gicd g) (<[off := v]> (gicc g)) (gicc_iar g) (eoir_log g)).

(** ** gicv2.c *)

Definition gicv2_init : IM unit :=
  gicd_write GICD_CTLR 0 ;;;
  gicc_write GICC_CTLR 0 ;;;
  ig0 <- gicd_read (GICD_IGROUPR 0) ;;
  gicd_write (GICD_IGROUPR 0) (Z.land ig0 (u32 (Z.lnot 0xFFFF0000))) ;;;
  gicc_write GICC_PMR 0xFF ;;;
  gicc_write GICC_BPR 0 ;;;
  gicd_write GICD_CTLR (Z.shiftl 1 0) ;;;
  gicc_write GICC_CTLR (Z.shiftl 1 0).

Definition set_priority (irq pri : Z) : IM unit :=
  let reg := irq / 4 in
  let shift := (irq mod 4) * 8 in
  let off := GICD_IPRIORITYR reg in
  v <- gicd_read off ;;
  gicd_write off (Z.lor (Z.land v (u32 (Z.lnot (u32 (Z.shiftl 0xFF shift))))) (u32 (Z.shiftl pri shift))).

Definition gicv2_config_irq (irq : Z) (edge : bool) : IM unit :=
  let reg := irq / 16 in
  let shift := (irq mod 16) * 2 in
  let off := GICD_ICFGR reg in
  v <- gicd_read off ;;
  gicd_write off (Z.lor (Z.land v (u32 (Z.lnot (u32 (Z.shiftl 3 shift))))) (u32 (Z.shiftl (if edge then 2 else 0) shift))).

Definition gicv2_enable_irq (irq : Z) : IM unit :=
  set_priority irq 0x80 ;;;
  gicd_write (GICD_ISENABLER (irq / 32)) (u32 (Z.shiftl 1 (irq mod 32))).

Definition gicv2_disable_irq (irq : Z) : IM unit :=
  gicd_write (GICD_ICENABLER (irq / 32)) (u32 (Z.shiftl 1 (irq mod 32))).

Definition gicv2_acknowledge : IM Z := gets (λ s, gicc_iar (dev s)).
Definition gicv2_end_interrupt (iar : Z) : IM unit :=
  upd_dev (λ g, mkGic (gicd g) (gicc g) (gicc_iar g) (iar :: eoir_log g)).

(** ** hal_irq.c *)

Definition hal_irq_init : IM unit := gicv2_init.
Definition hal_irq_enable (irq : Z) : IM unit := gicv2_enable_irq irq.
Definition hal_irq_disable (irq : Z) : IM unit := gicv2_disable_irq irq.
Definition hal_irq_config (irq : Z) (edge : bool) : IM unit := gicv2_config_irq irq edge.
Definition hal_irq_acknowledge : IM Z := gicv2_acknowledge.
Definition hal_irq_end (iar : Z) : IM unit := gicv2_end_interrupt iar.

(** ** irq.c *)

Definition irq_register (irq handler ctx : Z) : IM bool :=
  if IRQ_MAX <=? irq then ret false
  else
    modify (λ s, mkIrqState (<[Z.to_nat irq := handler]> (s_handlers s)) (<[Z.to_nat irq := ctx]> (s_ctx s)) (dev s) (rest s)) ;;;
    ret true.

Definition gic_irqid (iar : Z) : Z := Z.land iar 0x3FF.

(** [call h id ctx tf] runs the handler at address [h]. *)
Definition irq_dispatch (call : Z → Z → Z → Z → IM unit) (tf : Z) : IM unit :=
  irq_enter ;;;
  iar <- hal_irq_acknowledge ;;
  let id := gic_irqid iar in
  (if 1020 <=? id then hal_irq_end iar
   else if IRQ_MAX <=? id then hal_irq_end iar
   else
     s <- get_st ;;
     h <- load (s_handlers s !! Z.to_nat id) ;;
     x <- load (s_ctx s !! Z.to_nat id) ;;
     (if negb (h =? 0) then call h id x tf else ret tt) ;;;
     hal_irq_end iar) ;;;
  irq_exit.
End ops.

(** ** Dispatch *)

Section spec.
Context {S : Type} (call : Z → Z → Z → Z → M (irq_state S) unit).
Implicit Types s : irq_state S.

Definition tables_wf s : Prop :=
  length (s_handlers s) = Z.to_nat IRQ_MAX ∧ length (s_ctx s) = Z.to_nat IRQ_MAX.

(** The handler [irq_register] installed for [id], 0 when there is none. *)
Definition handler_of s (id : Z) : Z := default 0 (s_handlers s !! Z.to_nat id).
Definition ctx_of s (id : Z) : Z := default 0 (s_ctx s !! Z.to_nat id).
Definition with_eoi (iar : Z) s : irq_state S :=
  mkIrqState (s_handlers s) (s_ctx s)
    (mkGic (gicd (dev s)) (gicc (dev s)) (gicc_iar (dev s)) (iar :: eoir_log (dev s))) (rest s).

Lemma lookup_table (l : list Z) id : length l = Z.to_nat IRQ_MAX → 0 ≤ id < IRQ_MAX →
  l !! Z.to_nat id = Some (default 0 (l !! Z.to_nat id)).
Proof.
  intros Hl Hi. destruct (l !! Z.to_nat id) eqn:E; [done|]. apply lookup_ge_None_1 in E. lia.
Qed.

Lemma irqid_range iar : 0 ≤ gic_irqid iar < 1024.
Proof.
  unfold gic_irqid. change 0x3FF with (Z.ones 10). rewrite Z.land_ones by lia. apply Z.mod_pos_bound. lia.
Qed.

(** C17: irq_dispatch acknowledges an interrupt, runs the handler registered
    for its number (and only that one, inside a raised interrupt depth) when
    there is one and the number is not a special one, writes the acknowledged
    value to the end-of-interrupt register on every path, and leaves the
    interrupt depth as it was. *)
Theorem irq_dispatch_spec tf c s Post :
  tables_wf s → 0 ≤ irq_depth c < 2 ^ 32 - 1 →
  let iar := gicc_iar (dev s) in
  let id := gic_irqid iar in
  let inside := mkCpu (daif c) (irq_depth c + 1) in
  (id < 1020 → handler_of s id ≠ 0 →
     wp (call (handler_of s id) id (ctx_of s id) tf) (λ _ c' s', c' = inside ∧ Post s') inside s) →
  wp (irq_dispatch call tf) (λ _ c' s', c' = c ∧ ∃ s1, s' = with_eoi iar s1 ∧
    if decide (id < 1020 ∧ handler_of s id ≠ 0) then Post s1 else s1 = s) c s.
Proof.
  intros [Hh Hx] Hd iar id inside Hcall. pose proof (irqid_range iar) as Hid. fold id in Hid.
  assert (∀ Q s1, Q tt c (with_eoi iar s1) →
    wp (hal_irq_end iar) (λ _ c' s', wp irq_exit Q c' s') inside s1) as Hend.
  { intros Q s1 HQ. unfold hal_irq_end, gicv2_end_interrupt, upd_dev, irq_exit. wp_steps. cbn [irq_depth inside daif].
    destruct (Z.eqb_spec (irq_depth c + 1) 0); [lia|]. wp_steps. cbn [irq_depth inside daif]. rewrite u32_small by lia.
    replace (mkCpu (daif c) (irq_depth c + 1 - 1)) with c; [done|]. destruct c; cbn. f_equal. lia. }
  unfold irq_dispatch. wp_step. unfold irq_enter. wp_steps. rewrite u32_small by lia. fold inside.
  unfold hal_irq_acknowledge, gicv2_acknowledge. wp_steps. fold iar. fold id.
  destruct (Z.leb_spec 1020 id) as [Hbig|Hsmall].
  { apply Hend. split; [done|]. exists s. rewrite decide_False by lia. done. }
  unfold IRQ_MAX in *. destruct (Z.leb_spec 1024 id); [lia|]. wp_steps.
  rewrite (lookup_table (s_handlers s)), (lookup_table (s_ctx s)) by (done || unfold IRQ_MAX; lia). wp_steps.
  fold (handler_of s id) (ctx_of s id). destruct (Z.eqb_spec (handler_of s id) 0) as [H0|H0]; cbn [negb].
  - wp_steps. apply Hend. split; [done|]. exists s. rewrite decide_False by naive_solver. done.
  - eapply wp_mono; [by apply Hcall|]. cbv beta. intros _ c' s' [-> HP].
    apply Hend. split; [done|]. exists s'. rewrite decide_True by done. done.
Qed.

Lemma irq_register_correct irq h x c s : tables_wf s → 0 ≤ irq →
  wp (irq_register irq h x) (λ r c' s', c' = c ∧ tables_wf s' ∧ r = bool_decide (irq < IRQ_MAX) ∧
    ∀ id, 0 ≤ id < IRQ_MAX → handler_of s' id = (if decide (id = irq) then h else handler_of s id) ∧
      ctx_of s' id = (if decide (id = irq) then x else ctx_of s id)) c s.
Proof.
  intros [Hh Hx] Hi. unfold irq_register. destruct (Z.leb_spec IRQ_MAX irq) as [Hb|Hb]; wp_steps.
  - split_and!; try done; [by rewrite bool_decide_false by lia|]. intros id Hid. by rewrite !decide_False by lia.
  - split_and!; try done; [by split; cbn; rewrite length_insert|by rewrite bool_decide_true by lia|].
    intros id Hid. unfold handler_of, ctx_of. cbn. destruct (decide (id = irq)) as [->|Hne].
    + rewrite !list_lookup_insert_eq by (unfold IRQ_MAX in *; lia). done.
    + rewrite !list_lookup_insert_ne by lia. done.
Qed.
End spec.

(** ** Register fields

    Priorities are bytes and trigger modes bit pairs of 32-bit registers; an
    update reads the register, clears the field and sets it. *)

Definition field (v sh w : Z) : Z := Z.land (Z.shiftr v sh) (Z.ones w).
Definition set_field (v sh w x : Z) : Z :=
  Z.lor (Z.land v (u32 (Z.lnot (u32 (Z.shiftl (Z.ones w) sh))))) (u32 (Z.shiftl x sh)).

Lemma u32_testbit x n : 0 ≤ n → Z.testbit (u32 x) n = (n <? 32) && Z.testbit x n.
Proof.
  intros Hn. unfold u32. destruct (Z.ltb_spec n 32).
  - by rewrite Z.mod_pow2_bits_low by lia.
  - by rewrite Z.mod_pow2_bits_high by lia.
Qed.

Lemma ones_testbit w n : 0 ≤ w → 0 ≤ n → Z.testbit (Z.ones w) n = (n <? w).
Proof. intros. destruct (Z.ltb_spec n w); [by rewrite Z.ones_spec_low by lia|by rewrite Z.ones_spec_high by lia]. Qed.

(** A field at [sh'] after the field at [sh] was set: the new value at the same
    place, the old one elsewhere. *)
Lemma field_set v sh sh' w x : 0 ≤ w → 0 ≤ sh → sh + w ≤ 32 → 0 ≤ sh' → sh' + w ≤ 32 → 0 ≤ x < 2 ^ w →
  sh' = sh ∨ sh' + w ≤ sh ∨ sh + w ≤ sh' →
  field (set_field v sh w x) sh' w = if decide (sh' = sh) then x else field v sh' w.
Proof.
  intros Hw Hs Hsw Hs' Hsw' Hx Hd. apply Z.bits_inj'. intros n Hn.
  assert (∀ m, w ≤ m → Z.testbit x m = false) as Hxh.
  { intros m Hm. rewrite <- (Z.mod_small x (2 ^ w)) by done. apply Z.mod_pow2_bits_high. lia. }
  unfold field at 1, set_field. rewrite Z.land_spec, ones_testbit, Z.shiftr_spec by lia.
  rewrite Z.lor_spec, Z.land_spec, !u32_testbit, Z.lnot_spec, u32_testbit, !Z.shiftl_spec by lia.
  destruct (Z.ltb_spec (n + sh') 32) as [Hlt|Hge]; cbn [andb].
  - destruct (Z.ltb_spec n w) as [Hnw|Hnw]; cbn [andb]; rewrite ?andb_true_r, ?andb_false_r; last first.
    { case_decide; [by rewrite Hxh|]. unfold field. by rewrite Z.land_spec, ones_testbit, (proj2 (Z.ltb_ge n w)), andb_false_r by lia. }
    destruct (decide (sh' = sh)) as [->|Hne].
    + replace (n + sh - sh) with n by lia. rewrite ones_testbit, (proj2 (Z.ltb_lt n w)) by lia. cbn.
      by rewrite andb_false_r.
    + unfold field. rewrite Z.land_spec, (ones_testbit w n), Z.shiftr_spec, (proj2 (Z.ltb_lt n w)), andb_true_r by lia.
      assert (Z.testbit (Z.ones w) (n + sh' - sh) = false ∧ Z.testbit x (n + sh' - sh) = false) as [-> ->].
      { destruct Hd as [?|[Hd|Hd]]; [done| |].
        - rewrite !Z.testbit_neg_r by lia. done.
        - rewrite Z.ones_spec_high by lia. split; [done|]. apply Hxh. lia. }
      cbn. by rewrite andb_true_r, orb_false_r.
  - destruct (Z.ltb_spec n w); [lia|]. rewrite andb_false_r. case_decide; [by rewrite Hxh|].
    unfold field. by rewrite Z.land_spec, ones_testbit, (proj2 (Z.ltb_ge n w)), andb_false_r by lia.
Qed.

Definition priority_of (g : gic) (irq : Z) : Z := field (rd (gicd g) (GICD_IPRIORITYR (irq / 4))) ((irq mod 4) * 8) 8.
(** 2 is edge-triggered, 0 level-sensitive. *)
Definition trigger_of (g : gic) (irq : Z) : Z := field (rd (gicd g) (GICD_ICFGR (irq / 16))) ((irq mod 16) * 2) 2.

Lemma rd_insert m off off' v : rd (<[off := v]> m) off' = if decide (off' = off) then v else rd m off'.
Proof. unfold rd. case_decide; subst; [by rewrite lookup_insert_eq|by rewrite lookup_insert_ne]. Qed.

(** Packed fields of [per] per register, [w] bits each. *)
Lemma packed_set per w irq j v x : 0 < per → 0 < w → per * w = 32 → 0 ≤ x < 2 ^ w → 0 ≤ irq → 0 ≤ j → j / per = irq / per →
  field (set_field v ((irq mod per) * w) w x) ((j mod per) * w) w =
    if decide (j = irq) then x else field v ((j mod per) * w) w.
Proof.
  intros Hp Hw Hpw Hx Hi Hj E. pose proof (Z.mod_pos_bound irq per Hp). pose proof (Z.mod_pos_bound j per Hp).
  assert (j mod per = irq mod per ↔ j = irq) as Hiff.
  { rewrite (Z.div_mod j per), (Z.div_mod irq per) at 2 by lia. rewrite E. lia. }
  rewrite field_set by nia. destruct (decide (j = irq)) as [->|Hne]; [by rewrite decide_True|].
  rewrite decide_False; [done|]. intros E'. apply Hne, Hiff. nia.
Qed.

Section gic_spec.
Context {S : Type}.
Implicit Types s : irq_state S.

Lemma enable_correct irq c s : 0 ≤ irq < 1020 →
  wp (gicv2_enable_irq irq) (λ _ c' s', c' = c ∧ s_handlers s' = s_handlers s ∧ s_ctx s' = s_ctx s ∧
    rd (gicd (dev s')) (GICD_ISENABLER (irq / 32)) = 2 ^ (irq mod 32) ∧
    ∀ j, 0 ≤ j < 1020 → priority_of (dev s') j = (if decide (j = irq) then 0x80 else priority_of (dev s) j) ∧
      trigger_of (dev s') j = trigger_of (dev s) j) c s.
Proof.
  intros Hi. unfold gicv2_enable_irq, set_priority, gicd_read, gicd_write, upd_dev. wp_steps. cbn.
  unfold GICD_ISENABLER, GICD_IPRIORITYR, GICD_ICFGR, priority_of, trigger_of, GICD_ISENABLER, GICD_IPRIORITYR, GICD_ICFGR.
  assert (∀ j k, 0 ≤ j < 1020 → 0 < k → 4 ≤ k → u32 (4 * (j / k)) = 4 * (j / k) ∧ 0 ≤ j / k < 255) as Hu.
  { intros j k Hj Hk Hk4. assert (0 ≤ j / k < 255) as Hb.
    { split; [apply Z.div_pos; lia|]. apply Z.div_lt_upper_bound; nia. }
    split; [apply u32_small; lia|lia]. }
  assert (∀ j, 0 ≤ j < 1020 → 0 ≤ j / 32 < 32) as H32.
  { intros j Hj. split; [apply Z.div_pos; lia|]. apply Z.div_lt_upper_bound; lia. }
  destruct (Hu irq 4 Hi ltac:(lia) ltac:(lia)) as [-> Hi4]. destruct (Hu irq 32 Hi ltac:(lia) ltac:(lia)) as [-> _]. pose proof (H32 irq Hi).
  split_and!; try done.
  - rewrite rd_insert, decide_True by done. rewrite Z.shiftl_1_l. apply u32_small.
    pose proof (Z.mod_pos_bound irq 32). split; [apply Z.pow_nonneg; lia|]. apply Z.pow_lt_mono_r; lia.
  - intros j Hj. destruct (Hu j 4 Hj ltac:(lia) ltac:(lia)) as [-> Hj4]. destruct (Hu j 16 Hj ltac:(lia) ltac:(lia)) as [-> Hj16]. cbn [gicd].
    rewrite !rd_insert. rewrite !(decide_False (P := _ = 256 + _)) by lia. rewrite (decide_False (P := 3072 + _ = _)) by lia.
    split; [|done]. destruct (decide (1024 + 4 * (j / 4) = 1024 + 4 * (irq / 4))) as [E|E].
    + replace (1024 + 4 * (irq / 4)) with (1024 + 4 * (j / 4)) by lia.
      change (Z.lor _ _) with (set_field (rd (gicd (dev s)) (1024 + 4 * (j / 4))) (irq mod 4 * 8) 8 0x80).
      apply (packed_set 4 8); lia.
    + rewrite decide_False; [done|]. intros ->. done.
Qed.

Lemma config_correct irq edge c s : 0 ≤ irq < 1020 →
  wp (gicv2_config_irq irq edge) (λ _ c' s', c' = c ∧ s_handlers s' = s_handlers s ∧ s_ctx s' = s_ctx s ∧
    ∀ j, 0 ≤ j < 1020 → priority_of (dev s') j = priority_of (dev s) j ∧
      trigger_of (dev s') j = (if decide (j = irq) then (if edge then 2 else 0) else trigger_of (dev s) j)) c s.
Proof.
  intros Hi. unfold gicv2_config_irq, gicd_read, gicd_write, upd_dev. wp_steps. split_and!; try done.
  unfold priority_of, trigger_of, GICD_IPRIORITYR, GICD_ICFGR. cbn [dev gicd]. intros j Hj.
  assert (∀ j k, 0 ≤ j < 1020 → 4 ≤ k → u32 (4 * (j / k)) = 4 * (j / k) ∧ 0 ≤ j / k < 255) as Hu.
  { intros j' k Hj' Hk4. assert (0 ≤ j' / k < 255) as Hb.
    { split; [apply Z.div_pos; lia|]. apply Z.div_lt_upper_bound; nia. }
    split; [apply u32_small; lia|lia]. }
  destruct (Hu irq 16 Hi ltac:(lia)) as [-> Hi16]. destruct (Hu j 16 Hj ltac:(lia)) as [-> Hj16].
  destruct (Hu j 4 Hj ltac:(lia)) as [-> Hj4]. rewrite !rd_insert. rewrite (decide_False (P := 1024 + _ = _)) by lia. split; [done|].
  destruct (decide (3072 + 4 * (j / 16) = 3072 + 4 * (irq / 16))) as [E|E].
  - replace (3072 + 4 * (irq / 16)) with (3072 + 4 * (j / 16)) by lia.
    change (Z.lor _ _) with (set_field (rd (gicd (dev s)) (3072 + 4 * (j / 16))) (irq mod 16 * 2) 2 (if edge then 2 else 0)).
    apply (packed_set 16 2); try lia. destruct edge; lia.
  - rewrite decide_False; [done|]. by intros ->.
Qed.

(** Configuring and enabling an interrupt sets its priority byte and its
    trigger bits, writes exactly its enable bit, and leaves the priority and
    the trigger of every other interrupt as they were. *)
Theorem gicv2_setup_spec irq edge c s : 0 ≤ irq < 1020 →
  wp (hal_irq_config irq edge ;;; hal_irq_enable irq) (λ _ c' s', c' = c ∧ s_handlers s' = s_handlers s ∧
    rd (gicd (dev s')) (GICD_ISENABLER (irq / 32)) = 2 ^ (irq mod 32) ∧
    ∀ j, 0 ≤ j < 1020 → priority_of (dev s') j = (if decide (j = irq) then 0x80 else priority_of (dev s) j) ∧
      trigger_of (dev s') j = (if decide (j = irq) then (if edge then 2 else 0) else trigger_of (dev s) j)) c s.
Proof.
  intros Hi. unfold hal_irq_config, hal_irq_enable. wp_step. eapply wp_mono; [by apply config_correct|]. cbv beta.
  intros _ c1 s1 (-> & Hh & _ & Hc). eapply wp_mono; [by apply enable_correct|]. cbv beta.
  intros _ c2 s2 (-> & Hh2 & _ & Hb & He). split_and!; [done|congruence|done|]. intros j Hj.
  destruct (Hc j Hj) as [<- <-], (He j Hj) as [-> ->]. done.
Qed.
End gic_spec.

(** *** Examples: the timer interrupt 30 with a handler that counts *)

Definition sample_irq : irq_state Z :=
  mkIrqState (<[30%nat := 0x40230000]> (replicate (Z.to_nat IRQ_MAX) 0)) (replicate (Z.to_nat IRQ_MAX) 0) (mkGic ∅ ∅ 30 []) 5.
Definition count_handler (h id ctx tf : Z) : M (irq_state Z) unit :=
  modify (λ s, mkIrqState (s_handlers s) (s_ctx s) (dev s) (rest s + 1)).

Lemma irq_dispatch_witness :
  wp (irq_dispatch count_handler 0x9000) (λ _ c' s', c' = mkCpu 0 0 ∧ rest s' = 6 ∧ eoir_log (dev s') = [30]) (mkCpu 0 0) sample_irq.
Proof.
  eapply wp_mono; [apply (irq_dispatch_spec count_handler 0x9000 (mkCpu 0 0) sample_irq
    (λ s, rest s = 6 ∧ eoir_log (dev s) = [])); [by split|done|]|].
  - intros _ _. by wp_steps.
  - cbv beta. intros _ c' s' (-> & s1 & -> & Hp). rewrite decide_True in Hp by done. cbn. destruct Hp as [-> ->]. done.
Defined.

Lemma gicv2_setup_witness :
  wp (hal_irq_config 30 true ;;; hal_irq_enable 30) (λ _ c' s', c' = mkCpu 0 0 ∧ priority_of (dev s') 30 = 0x80 ∧
    trigger_of (dev s') 30 = 2 ∧ trigger_of (dev s') 31 = 0) (mkCpu 0 0) sample_irq.
Proof.
  eapply wp_mono; [apply (gicv2_setup_spec 30 true (mkCpu 0 0) sample_irq); lia|]. cbv beta.
  intros _ c' s' (-> & _ & _ & Hj). destruct (Hj 30 ltac:(lia)) as [-> ->], (Hj 31 ltac:(lia)) as [_ ->]. done.
Defined.
