(* ===== verification/Addr.v ===== *)
(** * Addresses: board memory map, page alignment, the high-half direct map

    Kern/Arch/aarch64/arch_config.h, Kern/Board/virt/board_config.h,
    Kern/Platform/platform_config.h and the alignment and translation helpers
    that pmm.c, platform.c, kheap.c and pmm.h each define for themselves. *)

From S2P Require Import Prelude.

(** QEMU virt board wiring, the primary validated target. *)
Definition CAPAZ_HH_BASE : Z := 0xFFFF800000000000.
Definition CAPAZ_RAM_BASE : Z := 0x40000000.
Definition CAPAZ_RAM_DIRECTMAP_SIZE : Z := 0x40000000.
Definition CAPAZ_HH_RAM_BASE : Z := u64 (CAPAZ_HH_BASE + CAPAZ_RAM_BASE).
Definition PAGE_SIZE : Z := 0x1000.

(** End of the direct-mapped RAM window, [win_end] of pmm.c and platform.c. *)
Definition WIN_END : Z := u64 (CAPAZ_RAM_BASE + CAPAZ_RAM_DIRECTMAP_SIZE).

Definition align_down_4k (x : Z) : Z := Z.land x (u64_not (PAGE_SIZE - 1)).
Definition align_up_4k (x : Z) : Z :=
  Z.land (u64 (x + (PAGE_SIZE - 1))) (u64_not (PAGE_SIZE - 1)).

(** [pmm_virt_to_phys], and the [hh_virt_to_phys] of pmm.c and platform.c. *)
Definition hh_virt_to_phys (va : Z) : Z :=
  if CAPAZ_HH_RAM_BASE <=? va
  then u64 (u64 (va - CAPAZ_HH_RAM_BASE) + CAPAZ_RAM_BASE)
  else va.

(** [pmm_phys_to_virt], and the [phys_to_hh_virt] of pmm.c. *)
Definition phys_to_hh_virt (pa : Z) : Z :=
  u64 (CAPAZ_HH_RAM_BASE + u64 (pa - CAPAZ_RAM_BASE)).

Definition page_aligned (x : Z) : Prop := x mod PAGE_SIZE = 0.

(** ** Alignment *)

Lemma align_down_4k_eq x : 0 ≤ x < 2 ^ 64 → align_down_4k x = PAGE_SIZE * (x / PAGE_SIZE).
Proof.
  intros Hx. unfold align_down_4k, PAGE_SIZE.
  change (4096 - 1) with (2 ^ 12 - 1). rewrite (u64_land_not x 12) by lia.
  pose proof (Z.div_mod x (2 ^ 12)). change (2 ^ 12) with 4096 in *. lia.
Qed.

Lemma align_up_4k_eq x : 0 ≤ x ≤ 2 ^ 64 - PAGE_SIZE →
  align_up_4k x = PAGE_SIZE * ((x + (PAGE_SIZE - 1)) / PAGE_SIZE).
Proof.
  intros Hx. assert (0 ≤ x + (PAGE_SIZE - 1) < 2 ^ 64) as Hs by (unfold PAGE_SIZE in *; lia).
  unfold align_up_4k. rewrite (u64_small _ Hs). by apply align_down_4k_eq.
Qed.

Ltac page_arith :=
  unfold page_aligned, PAGE_SIZE in *;
  repeat match goal with
  | H : context [?a mod 4096] |- _ =>
    lazymatch goal with
    | _ : a = 4096 * (a / 4096) + a mod 4096 |- _ => fail
    | _ => pose proof (Z.div_mod a 4096 ltac:(lia)); pose proof (Z.mod_pos_bound a 4096 ltac:(lia))
    end
  end;
  Z.div_mod_to_equations; lia.

(** Both roundings give page boundaries, whatever their argument. *)
Lemma land_page_mask_aligned x : page_aligned (Z.land x (u64_not (PAGE_SIZE - 1))).
Proof.
  unfold page_aligned. change PAGE_SIZE with (2 ^ 12) at 2.
  rewrite <- Z.land_ones by lia. rewrite <- Z.land_assoc.
  change (Z.land (u64_not (PAGE_SIZE - 1)) (Z.ones 12)) with 0. apply Z.land_0_r.
Qed.

Lemma align_down_4k_aligned x : page_aligned (align_down_4k x).
Proof. apply land_page_mask_aligned. Qed.
Lemma align_up_4k_aligned x : page_aligned (align_up_4k x).
Proof. apply land_page_mask_aligned. Qed.
#[export] Hint Resolve align_down_4k_aligned align_up_4k_aligned : capaz.

Lemma align_down_4k_spec x : 0 ≤ x < 2 ^ 64 →
  page_aligned (align_down_4k x) ∧ align_down_4k x ≤ x < align_down_4k x + PAGE_SIZE.
Proof. intros Hx. rewrite align_down_4k_eq by done. split; page_arith. Qed.

Lemma align_up_4k_spec x : 0 ≤ x ≤ 2 ^ 64 - PAGE_SIZE →
  page_aligned (align_up_4k x) ∧ x ≤ align_up_4k x < x + PAGE_SIZE.
Proof. intros Hx. rewrite align_up_4k_eq by done. split; page_arith. Qed.

Lemma align_down_4k_id x : 0 ≤ x < 2 ^ 64 → page_aligned x → align_down_4k x = x.
Proof. intros Hx Ha. rewrite align_down_4k_eq by done. page_arith. Qed.

Lemma align_up_4k_id x : 0 ≤ x ≤ 2 ^ 64 - PAGE_SIZE → page_aligned x → align_up_4k x = x.
Proof. intros Hx Ha. rewrite align_up_4k_eq by done. page_arith. Qed.

Lemma align_down_4k_idem x : align_down_4k (align_down_4k x) = align_down_4k x.
Proof. unfold align_down_4k. by rewrite <- Z.land_assoc, Z.land_diag. Qed.

Lemma align_up_4k_idem x : 0 ≤ x ≤ 2 ^ 64 - PAGE_SIZE →
  align_up_4k (align_up_4k x) = align_up_4k x.
Proof.
  intros Hx. apply align_up_4k_id; [|auto with capaz]. rewrite align_up_4k_eq by done. page_arith.
Qed.

(** The last page of the address space is where rounding up wraps to zero. *)
Lemma align_up_4k_wraps : align_up_4k (2 ^ 64 - 1) = 0.
Proof. reflexivity. Qed.

Lemma WIN_END_eq : WIN_END = 0x80000000.
Proof. reflexivity. Qed.

Lemma win_aligned : page_aligned CAPAZ_RAM_BASE ∧ page_aligned WIN_END.
Proof. split; reflexivity. Qed.

(** ** Direct map: the two translations are inverse on the RAM window. *)
Lemma phys_virt_roundtrip pa :
  CAPAZ_RAM_BASE ≤ pa < WIN_END → hh_virt_to_phys (phys_to_hh_virt pa) = pa.
Proof.
  intros H. rewrite WIN_END_eq in H.
  unfold hh_virt_to_phys, phys_to_hh_virt, CAPAZ_HH_RAM_BASE, CAPAZ_HH_BASE,
    CAPAZ_RAM_BASE in *.
  rewrite !(u64_small (_ + 0x40000000)) by lia.
  rewrite (u64_small (pa - _)) by lia.
  rewrite (u64_small (_ + (pa - _))) by lia.
  destruct (Z.leb_spec (0xFFFF800000000000 + 0x40000000)
    (0xFFFF800000000000 + 0x40000000 + (pa - 0x40000000))); [|lia].
  rewrite (u64_small (_ - _)) by lia. rewrite u64_small by lia. lia.
Qed.

Lemma phys_to_hh_virt_eq pa : CAPAZ_RAM_BASE ≤ pa < WIN_END →
  phys_to_hh_virt pa = CAPAZ_HH_BASE + pa.
Proof.
  intros H. rewrite WIN_END_eq in H.
  unfold phys_to_hh_virt, CAPAZ_HH_RAM_BASE, CAPAZ_HH_BASE, CAPAZ_RAM_BASE in *.
  rewrite !(u64_small (_ + 0x40000000)) by lia.
  rewrite (u64_small (pa - _)) by lia.
  rewrite u64_small by lia. lia.
Qed.

Lemma phys_to_hh_virt_aligned pa : CAPAZ_RAM_BASE ≤ pa < WIN_END →
  page_aligned pa → page_aligned (phys_to_hh_virt pa).
Proof.
  intros H Ha. rewrite phys_to_hh_virt_eq by done.
  unfold CAPAZ_HH_BASE. page_arith.
Qed.
