(* ===== verification/Platform.v ===== *)
(** * Usable physical memory (Kern/Kernel/platform/platform.c, dtb.h, boot_info.h)

    The platform layer turns the device tree's memory and reservation ranges
    into the page ranges the physical memory manager may hand out: RAM clipped
    to the direct-map window, minus the boot region, the kernel image, the PMM
    metadata and the device tree blob. *)

From Stdlib Require Import Sorting.Sorted.
From S2P Require Import Prelude Addr.

(** ** Data *)

(** [dtb_range_t] *)
Record dtb_range := mkRange { base : Z; size : Z }.

#[global] Instance dtb_range_inhabited : Inhabited dtb_range := populate (mkRange 0 0).

(** [boot_info_t] *)
Record boot_info := mkBootInfo {
  kernel_phys_base : Z;
  kernel_size : Z;
  kernel_entry_offset : Z;
  dtb_ptr : Z;
  dtb_size : Z;
}.

(** The results dtb.c caches for its getters once [ensure_parsed] has run:
    [g_mem_ranges[0..g_mem_count)], [g_rsv_ranges[0..g_rsv_count)] and
    [g_fdt_totalsize]. *)
Record dtb_results := mkDtb {
  g_mem_ranges : list dtb_range;
  g_rsv_ranges : list dtb_range;
  g_fdt_totalsize : Z;
}.

Definition DTB_MAX_MEMORY_RANGES : nat := 16.
Definition DTB_MAX_RESERVED_RANGES : nat := 64.
Definition PLATFORM_MAX_RANGES : nat := 64.
Definition PMM_METADATA_PAGES : Z := 16.

Definition dtb_get_memory_ranges (d : dtb_results) (cap : nat) : bool * list dtb_range :=
  let n := length (g_mem_ranges d) in
  let n := if decide (cap < n)%nat then cap else n in
  (negb (Nat.eqb (length (g_mem_ranges d)) 0), take n (g_mem_ranges d)).

Definition dtb_get_reserved_ranges (d : dtb_results) (cap : nat) : bool * list dtb_range :=
  let n := length (g_rsv_ranges d) in
  let n := if decide (cap < n)%nat then cap else n in
  (true, take n (g_rsv_ranges d)).

Definition dtb_get_totalsize (d : dtb_results) : Z := g_fdt_totalsize d.

(** ** Range arithmetic *)

Definition range_end (r : dtb_range) : Z := u64 (base r + size r).

(** The inner loop of the selection sort: the first position of the least
    base among [j .. j + fuel). *)
Fixpoint min_index (r : list dtb_range) (min j fuel : nat) : nat :=
  match fuel with
  | O => min
  | S fuel =>
    min_index r (if base (r !!! j) <? base (r !!! min) then j else min) (S j) fuel
  end.

Definition sort_pass (r : list dtb_range) (n i : nat) : list dtb_range :=
  let min := min_index r i (S i) (n - S i) in
  if Nat.eqb min i then r
  else let tmp := r !!! i in <[min := tmp]> (<[i := r !!! min]> r).

Definition sort_ranges (r : list dtb_range) : list dtb_range :=
  foldl (λ r i, sort_pass r (length r) i) r (seq 0 (length r)).

(** [normalize_merge]: [w] is the written prefix, last element first. *)
Fixpoint merge_loop (w r : list dtb_range) : list dtb_range :=
  match r with
  | [] => rev w
  | x :: xs =>
    if size x =? 0 then merge_loop w xs
    else match w with
    | [] => merge_loop [x] xs
    | prev :: w' =>
      let prev_end := range_end prev in
      let cur_end := range_end x in
      if base x <=? prev_end then
        if prev_end <? cur_end
        then merge_loop (mkRange (base prev) (u64 (cur_end - base prev)) :: w') xs
        else merge_loop w xs
      else merge_loop (x :: w) xs
    end
  end.

Definition normalize_merge (r : list dtb_range) : list dtb_range := merge_loop [] r.

(** [out[out_n++] = ...] with its capacity check. *)
Definition push_out (cap : nat) (out : list dtb_range) (r : dtb_range) : option (list dtb_range) :=
  if decide (cap ≤ length out)%nat then None else Some (out ++ [r]).

(** [while (j < rsv_n && range_end(rsv[j]) <= m_start) j++;] *)
Fixpoint advance (m_start : Z) (rsv : list dtb_range) : list dtb_range :=
  match rsv with
  | [] => []
  | r :: rs => if range_end r <=? m_start then advance m_start rs else rsv
  end.

(** The [k] loop over the reserved ranges that may overlap one memory range. *)
Fixpoint subtract_one (cap : nat) (m_end cur : Z) (rsv out : list dtb_range)
    : option (Z * list dtb_range) :=
  match rsv with
  | [] => Some (cur, out)
  | r :: rs =>
    if base r <? m_end then
      let r_start := base r in
      let r_end := range_end r in
      out ← (if cur <? r_start then
               let seg_end := if r_start <? m_end then r_start else m_end in
               if cur <? seg_end
               then push_out cap out (mkRange cur (u64 (seg_end - cur)))
               else Some out
             else Some out);
      let cur := if cur <? r_end then r_end else cur in
      if m_end <=? cur then Some (cur, out) else subtract_one cap m_end cur rs out
    else Some (cur, out)
  end.

Fixpoint subtract_loop (cap : nat) (mem rsv out : list dtb_range) : option (list dtb_range) :=
  match mem with
  | [] => Some out
  | m :: ms =>
    if size m =? 0 then subtract_loop cap ms rsv out
    else
      let m_start := base m in
      let m_end := range_end m in
      let rsv := advance m_start rsv in
      co ← subtract_one cap m_end m_start rsv out;
      out ← (if co.1 <? m_end
             then push_out cap co.2 (mkRange co.1 (u64 (m_end - co.1)))
             else Some co.2);
      subtract_loop cap ms rsv out
  end.

Definition subtract_reserved (cap : nat) (mem rsv : list dtb_range) : option (list dtb_range) :=
  subtract_loop cap mem rsv [].

(** ** The usable ranges *)

(** Clips [start, end) to the direct-mapped window; [None] when nothing is left. *)
Definition clamp_window (start fin : Z) : option dtb_range :=
  let start := if start <? CAPAZ_RAM_BASE then CAPAZ_RAM_BASE else start in
  let fin := if WIN_END <? fin then WIN_END else fin in
  if fin <=? start then None else Some (mkRange start (u64 (fin - start))).

(** Whole pages inside a range (memory and output), whole pages around it
    (reservations). *)
Definition inner_pages (r : dtb_range) : option dtb_range :=
  clamp_window (align_up_4k (base r)) (align_down_4k (u64 (base r + size r))).
Definition outer_pages (r : dtb_range) : option dtb_range :=
  if size r =? 0 then None
  else clamp_window (align_down_4k (base r)) (align_up_4k (u64 (base r + size r))).

(** [all_rsv[all_rsv_n++] = ...], guarded by the array's capacity. *)
Definition push_rsv (acc : list dtb_range) (r : option dtb_range) : list dtb_range :=
  match r with
  | Some r => if decide (length acc < 2 * PLATFORM_MAX_RANGES)%nat then acc ++ [r] else acc
  | None => acc
  end.

Definition rsv_boot (mem_min_base : Z) (bi : boot_info) : option dtb_range :=
  if negb (mem_min_base =? UINT64_MAX) && (mem_min_base <? kernel_phys_base bi)
  then clamp_window (align_down_4k mem_min_base) (align_up_4k (kernel_phys_base bi))
  else None.

Definition rsv_kernel (runtime_end_va : Z) (bi : boot_info) : option dtb_range :=
  clamp_window (align_down_4k (kernel_phys_base bi))
               (align_up_4k (hh_virt_to_phys runtime_end_va)).

(** The metadata block clips only its end to the window. *)
Definition rsv_metadata (runtime_end_va : Z) : option dtb_range :=
  let start := align_up_4k (hh_virt_to_phys runtime_end_va) in
  let fin := u64 (start + u64 (PMM_METADATA_PAGES * PAGE_SIZE)) in
  if start <? WIN_END then
    let fin := if WIN_END <? fin then WIN_END else fin in
    if start <? fin then Some (mkRange start (u64 (fin - start))) else None
  else None.

(** The blob's size: the header's, else the boot loader's, never above it. *)
Definition dtb_blob_size (d : dtb_results) (bi : boot_info) : Z :=
  let dtb_sz := dtb_get_totalsize d in
  let dtb_sz := if dtb_sz =? 0 then dtb_size bi else dtb_sz in
  if negb (dtb_size bi =? 0) && (dtb_size bi <? dtb_sz) then dtb_size bi else dtb_sz.

Definition rsv_dtb (d : dtb_results) (bi : boot_info) : option dtb_range :=
  if dtb_ptr bi =? 0 then None
  else
    let dtb_phys := hh_virt_to_phys (dtb_ptr bi) in
    clamp_window (align_down_4k dtb_phys)
                 (align_up_4k (u64 (dtb_phys + dtb_blob_size d bi))).

Definition mem_min_base (mem : list dtb_range) : Z :=
  match mem with [] => CAPAZ_RAM_BASE | m :: _ => base m end.

(** DTB-provided then implicit reservations, before sorting. *)
Definition all_reserved (d : dtb_results) (runtime_end_va : Z) (bi : option boot_info)
    (mem rsv : list dtb_range) : list dtb_range :=
  let acc := foldl (λ acc r, push_rsv acc (outer_pages r)) [] rsv in
  match bi with
  | None => acc
  | Some bi =>
    let acc := push_rsv acc (rsv_boot (mem_min_base mem) bi) in
    let acc := push_rsv acc (rsv_kernel runtime_end_va bi) in
    let acc := push_rsv acc (rsv_metadata runtime_end_va) in
    push_rsv acc (rsv_dtb d bi)
  end.

(** [platform_get_usable_ranges]: [None] is the C [false]; [cap] is the
    capacity the caller passes in [*inout_count]. *)
Definition platform_get_usable_ranges (d : dtb_results) (runtime_end_va : Z)
    (bi : option boot_info) (cap : nat) : option (list dtb_range) :=
  let '(have_mem, mem) := dtb_get_memory_ranges d PLATFORM_MAX_RANGES in
  if negb have_mem then None
  else
    let '(_, rsv) := dtb_get_reserved_ranges d PLATFORM_MAX_RANGES in
    let mem := normalize_merge (sort_ranges (omap inner_pages mem)) in
    let all_rsv := normalize_merge (sort_ranges (all_reserved d runtime_end_va bi mem rsv)) in
    out ← subtract_reserved cap mem all_rsv;
    Some (normalize_merge (sort_ranges (omap inner_pages out))).

(** ** Sets of addresses denoted by ranges *)

Definition covers (r : dtb_range) (x : Z) : Prop := base r ≤ x < base r + size r.
Definition covered (l : list dtb_range) (x : Z) : Prop := Exists (λ r, covers r x) l.

(** A range whose end does not wrap. *)
Definition range_ok (r : dtb_range) : Prop :=
  0 ≤ base r ∧ 0 ≤ size r ∧ base r + size r < 2 ^ 64.

Definition base_le (a b : dtb_range) : Prop := base a ≤ base b.

Lemma range_end_ok r : range_ok r → range_end r = base r + size r.
Proof. intros (? & ? & ?). unfold range_end. apply u64_small. lia. Qed.

#[global] Instance covered_perm :
  Proper ((≡ₚ) ==> eq ==> iff) covered.
Proof. intros l1 l2 Hl x ? <-. unfold covered. by rewrite Hl. Qed.

Lemma covered_nil x : covered [] x ↔ False.
Proof. apply Exists_nil. Qed.
Lemma covered_cons r l x : covered (r :: l) x ↔ covers r x ∨ covered l x.
Proof. apply Exists_cons. Qed.
Lemma covered_app l1 l2 x : covered (l1 ++ l2) x ↔ covered l1 x ∨ covered l2 x.
Proof. apply Exists_app. Qed.
Lemma covered_singleton r x : covered [r] x ↔ covers r x.
Proof. rewrite covered_cons, covered_nil. tauto. Qed.
Lemma covered_rev l x : covered (rev l) x ↔ covered l x.
Proof. by rewrite <- Permutation_rev. Qed.

Lemma covered_base_gt l x :
  Forall (λ r, x < base r) l → ¬ covered l x.
Proof. unfold covered, covers. rewrite Exists_exists, Forall_forall. intros H (r & Hr & ?). specialize (H r Hr). lia. Qed.

(** ** Selection sort *)

Lemma min_index_spec r i j fuel min :
  (i ≤ min < j)%nat →
  (∀ k, (i ≤ k < j)%nat → base (r !!! min) ≤ base (r !!! k)) →
  let m := min_index r min j fuel in
  (i ≤ m < j + fuel)%nat ∧
  ∀ k, (i ≤ k < j + fuel)%nat → base (r !!! m) ≤ base (r !!! k).
Proof.
  revert min j. induction fuel as [|fuel IH]; intros min j Hm Hmin; simpl.
  - replace (j + 0)%nat with j by lia. done.
  - replace (j + S fuel)%nat with (S j + fuel)%nat by lia.
    destruct (Z.ltb_spec (base (r !!! j)) (base (r !!! min))) as [Hlt|Hge].
    + apply IH; [lia|]. intros k Hk.
      destruct (decide (k = j)) as [->|]; [lia|].
      specialize (Hmin k ltac:(lia)). lia.
    + apply IH; [lia|]. intros k Hk.
      destruct (decide (k = j)) as [->|]; [lia|]. apply Hmin. lia.
Qed.

Lemma swap_perm (r : list dtb_range) i m :
  (i < length r)%nat → (m < length r)%nat →
  <[m := r !!! i]> (<[i := r !!! m]> r) ≡ₚ r.
Proof.
  intros Hi Hm. apply Permutation_inj. split; [by rewrite !length_insert|].
  exists (λ k, if decide (k = m) then i else if decide (k = i) then m else k).
  split.
  - intros a b. repeat case_decide; congruence.
  - intros k. case_decide as E1; [|case_decide as E2].
    + subst k. rewrite list_lookup_insert_eq by (by rewrite length_insert).
      by rewrite list_lookup_lookup_total_lt.
    + subst k. rewrite list_lookup_insert_ne by done.
      rewrite list_lookup_insert_eq by done.
      by rewrite list_lookup_lookup_total_lt.
    + by rewrite !list_lookup_insert_ne by done.
Qed.

Lemma sort_pass_perm r i : (i < length r)%nat → sort_pass r (length r) i ≡ₚ r.
Proof.
  intros Hi. unfold sort_pass. case_match; [done|].
  destruct (min_index_spec r i (S i) (length r - S i) i) as [Hb _]; [lia| |].
  { intros k Hk. replace k with i by lia. lia. }
  apply swap_perm; lia.
Qed.

(** [r] is sorted up to position [i], and no later element is smaller. *)
Definition sorted_upto (i : nat) (r : list dtb_range) : Prop :=
  ∀ a b, (a < i)%nat → (a < b < length r)%nat → base (r !!! a) ≤ base (r !!! b).

Lemma sort_pass_sorted r i :
  (i < length r)%nat → sorted_upto i r → sorted_upto (S i) (sort_pass r (length r) i).
Proof.
  intros Hi Hs a b Ha Hab. unfold sort_pass in *.
  destruct (min_index_spec r i (S i) (length r - S i) i) as [Hb Hmin]; [lia| |].
  { intros k Hk. replace k with i by lia. lia. }
  set (m := min_index r i (S i) (length r - S i)) in *.
  replace (S i + (length r - S i))%nat with (length r) in * by lia.
  destruct (Nat.eqb_spec m i) as [Em|Em].
  - destruct (decide (a = i)) as [->|]; [rewrite <- Em; apply Hmin; lia|apply Hs; lia].
  - rewrite !length_insert in Hab.
    assert (Hval : ∀ k, (k < length r)%nat →
      <[m:=r !!! i]> (<[i:=r !!! m]> r) !!! k =
      if decide (k = m) then r !!! i else if decide (k = i) then r !!! m else r !!! k).
    { intros k Hk. repeat case_decide; subst.
      - rewrite list_lookup_total_insert_eq; [done|by rewrite length_insert].
      - rewrite list_lookup_total_insert_ne by done.
        by rewrite list_lookup_total_insert_eq.
      - by rewrite !list_lookup_total_insert_ne by done. }
    rewrite !Hval by lia.
    destruct (decide (a = m)) as [->|]; [lia|].
    destruct (decide (a = i)) as [->|].
    + repeat case_decide; apply Hmin; lia.
    + repeat case_decide; subst; apply Hs; lia.
Qed.

Lemma sort_loop_spec k i r :
  (i + k = length r)%nat → sorted_upto i r →
  let r' := foldl (λ r i, sort_pass r (length r) i) r (seq i k) in
  r' ≡ₚ r ∧ sorted_upto (length r) r'.
Proof.
  revert i r. induction k as [|k IH]; intros i r Hk Hs; simpl.
  - split; [done|]. by replace (length r) with i by lia.
  - pose proof (sort_pass_perm r i ltac:(lia)) as Hp.
    pose proof (Permutation_length Hp) as Hl.
    destruct (IH (S i) (sort_pass r (length r) i)) as [IHp IHs].
    { lia. }
    { apply sort_pass_sorted; [lia|done]. }
    rewrite Hl in IHs. split; [by rewrite IHp|done].
Qed.

Lemma sort_ranges_perm r : sort_ranges r ≡ₚ r.
Proof. unfold sort_ranges. apply sort_loop_spec; [lia|]. intros a b Ha. lia. Qed.

Lemma sort_ranges_sorted r : StronglySorted base_le (sort_ranges r).
Proof.
  assert (sorted_upto (length (sort_ranges r)) (sort_ranges r)) as Hs.
  { rewrite (Permutation_length (sort_ranges_perm r)).
    destruct (sort_loop_spec (length r) 0 r) as [_ Hs]; [lia| |exact Hs].
    intros a b Ha. lia. }
  revert Hs. generalize (sort_ranges r) as l. clear r.
  induction l as [|x l IH]; intros Hs; constructor.
  - apply IH. intros a b Ha Hb. apply (Hs (S a) (S b)); simpl in *; lia.
  - apply Forall_forall. intros y [k Hk]%list_elem_of_lookup.
    pose proof (lookup_lt_Some _ _ _ Hk).
    specialize (Hs 0%nat (S k) ltac:(simpl; lia) ltac:(simpl; lia)).
    simpl in Hs. unfold base_le. by rewrite (list_lookup_total_correct _ _ _ Hk) in Hs.
Qed.

(** ** Merging *)

(** Strictly separated ranges, as [normalize_merge] leaves them: every range
    ends before the next one starts. *)
Definition separated (a b : dtb_range) : Prop := base a + size a < base b.
Definition range_norm (r : dtb_range) : Prop := range_ok r ∧ 0 < size r.

(** The written prefix (last first): normalized, separated, and below every
    base still to come. *)
Definition merge_inv (w r : list dtb_range) : Prop :=
  Forall range_norm w ∧
  StronglySorted (λ a b, separated b a) w ∧
  match w with [] => True | prev :: _ => Forall (λ x, base prev ≤ base x) r end.

Lemma StronglySorted_rev {A} (R : A → A → Prop) l :
  StronglySorted (λ a b, R b a) l → StronglySorted R (rev l).
Proof.
  induction 1 as [|x l Hl IH Hx]; simpl; [constructor|].
  assert (Forall (λ y, R y x) (rev l)) as Hr by (by rewrite <- Permutation_rev).
  clear Hl Hx. induction IH as [|y l' Hl' IH' Hy]; simpl; [repeat constructor|].
  inversion_clear Hr as [|? ? Hyx Hr']. constructor; [auto|].
  apply Forall_app. split; [done|]. by repeat constructor.
Qed.

Lemma merge_inv_extend prev w' x xs :
  merge_inv (prev :: w') (x :: xs) → range_norm x →
  StronglySorted base_le (x :: xs) →
  base x ≤ base prev + size prev → base prev + size prev < base x + size x →
  merge_inv (mkRange (base prev) (base x + size x - base prev) :: w') xs.
Proof.
  intros (Hw & Hs & Hb) [(? & ? & ?) ?] Hxs Hle Hlt.
  apply Forall_cons_1 in Hw as [[(?&?&?) ?] Hw].
  apply Forall_cons_1 in Hb as [Hb1 Hb2].
  apply StronglySorted_inv in Hs as [Hs Hsep].
  split_and!; [| |simpl; done].
  - constructor; [|done]. split; [split_and!|]; simpl; lia.
  - constructor; [done|]. by eapply Forall_impl; [exact Hsep|].
Qed.

Lemma merge_loop_spec w r :
  Forall range_ok r → StronglySorted base_le r → merge_inv w r →
  let out := merge_loop w r in
  (∀ x, covered out x ↔ covered w x ∨ covered r x) ∧
  Forall range_norm out ∧ StronglySorted separated out.
Proof.
  revert w. induction r as [|x xs IH]; intros w Hok Hs Hinv; simpl.
  { destruct Hinv as (Hw & Hsw & _). split_and!.
    - intros y. rewrite covered_rev, covered_nil. tauto.
    - by rewrite <- Permutation_rev.
    - by apply StronglySorted_rev. }
  apply Forall_cons_1 in Hok as [Hx Hok].
  pose proof Hs as [Hs' Hbx]%StronglySorted_inv.
  destruct (Z.eqb_spec (size x) 0) as [Hz|Hz].
  { destruct (IH w Hok Hs') as (Hc & ? & ?).
    { destruct Hinv as (? & ? & Hb). split_and!; [done..|].
      destruct w; [done|]. by apply Forall_cons_1 in Hb as [_ ?]. }
    split_and!; [|done..]. intros y. rewrite Hc, covered_cons.
    assert (¬ covers x y) by (unfold covers; lia). tauto. }
  assert (range_norm x) as Hxn by (destruct Hx as (?&?&?); split; [split_and!|]; lia).
  destruct w as [|prev w'].
  { destruct (IH [x] Hok Hs') as (Hc & ? & ?).
    { split_and!; [by constructor|by repeat constructor|done]. }
    split_and!; [|done..]. intros y.
    rewrite Hc, covered_singleton, covered_cons, covered_nil. tauto. }
  assert (range_ok prev) as Hp by (destruct Hinv as ([[? ?] ?]%Forall_cons_1 & _); done).
  rewrite !range_end_ok by done.
  destruct (Z.leb_spec (base x) (base prev + size prev)) as [Hle|Hgt].
  - destruct (Z.ltb_spec (base prev + size prev) (base x + size x)) as [Hlt|Hge].
    + assert (base prev ≤ base x) as Hpx.
      { destruct Hinv as (_ & _ & Hb). by apply Forall_cons_1 in Hb as [? _]. }
      destruct Hx as (?&?&?), Hp as (?&?&?).
      rewrite u64_small by lia.
      destruct (IH (mkRange (base prev) (base x + size x - base prev) :: w')) as (Hc & ? & ?);
        [done|done|by apply merge_inv_extend|].
      split_and!; [|done..]. intros y. rewrite Hc, !covered_cons. unfold covers; simpl.
      assert (base prev ≤ y < base prev + (base x + size x - base prev) ↔
        base prev ≤ y < base prev + size prev ∨ base x ≤ y < base x + size x) by lia.
      tauto.
    + assert (base prev ≤ base x) as Hpx.
      { destruct Hinv as (_ & _ & Hb). by apply Forall_cons_1 in Hb as [? _]. }
      destruct (IH (prev :: w')) as (Hc & ? & ?); [done|done| |].
      { destruct Hinv as (? & ? & Hb). split_and!; [done..|].
        by apply Forall_cons_1 in Hb as [_ ?]. }
      split_and!; [|done..]. intros y. rewrite Hc, !covered_cons. unfold covers.
      assert (base x ≤ y < base x + size x → base prev ≤ y < base prev + size prev) by lia.
      tauto.
  - destruct (IH (x :: prev :: w')) as (Hc & ? & ?); [done|done| |].
    { destruct Hinv as (Hw & Hsw & Hb). split_and!; [by constructor| |done].
      constructor; [done|]. constructor; [done|].
      apply StronglySorted_inv in Hsw as [_ Hsep].
      eapply Forall_impl; [exact Hsep|]. intros z Hz'. unfold separated in *.
      destruct Hp as (?&?&?). lia. }
    split_and!; [|done..]. intros y. rewrite Hc, !covered_cons. tauto.
Qed.

Lemma normalize_merge_spec r :
  Forall range_ok r → StronglySorted base_le r →
  (∀ x, covered (normalize_merge r) x ↔ covered r x) ∧
  Forall range_norm (normalize_merge r) ∧ StronglySorted separated (normalize_merge r).
Proof.
  intros Hok Hs. destruct (merge_loop_spec [] r Hok Hs) as (Hc & ? & ?).
  { split_and!; [constructor|constructor|done]. }
  split_and!; [|done..]. intros x. unfold normalize_merge. rewrite Hc, covered_nil. tauto.
Qed.

(** Sort and merge together: the normal form of a list of ranges. *)
Lemma normalize_sort_spec r :
  Forall range_ok r →
  (∀ x, covered (normalize_merge (sort_ranges r)) x ↔ covered r x) ∧
  Forall range_norm (normalize_merge (sort_ranges r)) ∧
  StronglySorted separated (normalize_merge (sort_ranges r)).
Proof.
  intros Hok. destruct (normalize_merge_spec (sort_ranges r)) as (Hc & ? & ?).
  - by rewrite sort_ranges_perm.
  - apply sort_ranges_sorted.
  - split_and!; [|done..]. intros x. by rewrite Hc, sort_ranges_perm.
Qed.

Lemma separated_base_le l :
  Forall range_norm l → StronglySorted separated l → StronglySorted base_le l.
Proof.
  induction l as [|x l IH]; intros Hn Hs; [constructor|].
  apply Forall_cons_1 in Hn as [[(?&?&?) ?] Hn].
  apply StronglySorted_inv in Hs as [Hs Hx].
  constructor; [auto|]. eapply Forall_impl; [exact Hx|].
  intros y Hy. unfold base_le, separated in *. lia.
Qed.

(** ** Subtraction *)

Lemma subtract_one_spec cap m_end cur rsv out cur' out' :
  0 ≤ cur → m_end < 2 ^ 64 →
  Forall range_ok rsv → StronglySorted base_le rsv → Forall range_ok out →
  subtract_one cap m_end cur rsv out = Some (cur', out') →
  cur ≤ cur' ∧ Forall range_ok out' ∧
  ∀ x, (covered out' x ∨ cur' ≤ x < m_end) ↔
       (covered out x ∨ (cur ≤ x < m_end ∧ ¬ covered rsv x)).
Proof.
  intros Hc0 Hm. revert cur out Hc0.
  induction rsv as [|r rs IH]; intros cur out Hc0 Hok Hs Hout Heq; simpl in Heq.
  { simplify_eq. split_and!; [lia|done|]. intros x. rewrite covered_nil. tauto. }
  apply Forall_cons_1 in Hok as [Hr Hok].
  apply StronglySorted_inv in Hs as [Hs Hb].
  rewrite range_end_ok in Heq by done.
  pose proof Hr as (? & ? & ?).
  destruct (Z.ltb_spec (base r) m_end) as [Hlt|Hge]; last first.
  { simplify_eq. split_and!; [lia|done|]. intros x.
    assert (cur' ≤ x < m_end → ¬ covered (r :: rs) x).
    { intros Hx. apply covered_base_gt. constructor; [lia|].
      eapply Forall_impl; [exact Hb|]. unfold base_le. intros; lia. }
    tauto. }
  set (cur1 := if cur <? base r + size r then base r + size r else cur) in *.
  assert (cur ≤ cur1 ∧ (cur1 = base r + size r ∨ cur1 = cur) ∧
          base r + size r ≤ cur1) as (Hc1 & Hc2 & Hc3).
  { unfold cur1. destruct (Z.ltb_spec cur (base r + size r)); lia. }
  clearbody cur1.
  (* the gap in front of [r] *)
  assert (∃ out1, Forall range_ok out1 ∧
    (∀ x, covered out1 x ↔ covered out x ∨ (cur ≤ x < base r)) ∧
    (if m_end <=? cur1 then Some (cur1, out1) else subtract_one cap m_end cur1 rs out1)
      = Some (cur', out')) as (out1 & Ho1 & Hcov1 & Heq1).
  { destruct (Z.ltb_spec cur (base r)) as [Hg|Hg].
    - destruct (Z.ltb_spec (base r) m_end) as [_|]; [|lia].
      destruct (Z.ltb_spec cur (base r)) as [_|]; [|lia].
      unfold push_out in Heq. case_decide; simplify_eq/=.
      rewrite u64_small in Heq by lia.
      eexists; split_and!; [| |exact Heq].
      + apply Forall_app. split; [done|]. repeat constructor; simpl; lia.
      + intros x. rewrite covered_app, covered_singleton. unfold covers; simpl.
        assert (cur ≤ x < cur + (base r - cur) ↔ cur ≤ x < base r) by lia. tauto.
    - simplify_eq/=. exists out. split_and!; [done| |done].
      intros x. assert (¬ cur ≤ x < base r) by lia. tauto. }
  assert (∀ x, cur ≤ x < m_end → covered (r :: rs) x → base r ≤ x) as Hbase.
  { intros x Hx [Hcv|Hcv]%covered_cons; [unfold covers in Hcv; lia|].
    apply Z.nlt_ge. intros Hxr. revert Hcv. apply covered_base_gt.
    eapply Forall_impl; [exact Hb|]. unfold base_le. intros; lia. }
  assert (∀ x, base r + size r ≤ x → (covered (r :: rs) x ↔ covered rs x)) as Hdrop.
  { intros x Hx. rewrite covered_cons. assert (¬ covers r x) by (unfold covers; lia). tauto. }
  assert (∀ x, base r ≤ x < base r + size r → covered (r :: rs) x) as Hin.
  { intros x Hx. rewrite covered_cons. left. done. }
  destruct (Z.leb_spec m_end cur1) as [Hend|Hcont].
  - simplify_eq. split_and!; [done|done|]. intros x. rewrite Hcov1.
    assert (cur ≤ x < base r → x < m_end) by lia.
    specialize (Hbase x). specialize (Hdrop x). specialize (Hin x).
    assert (¬ cur' ≤ x < m_end) by lia.
    assert ((cur ≤ x < base r) ↔ (cur ≤ x < m_end ∧ ¬ covered (r :: rs) x)); [|tauto].
    split.
    + intros Hx. split; [lia|]. intros Hcv. specialize (Hbase ltac:(lia) Hcv). lia.
    + intros [Hx Hn]. split; [lia|]. apply Z.nle_gt. intros Hbx.
      apply Hn, Hin. lia.
  - destruct (IH cur1 out1) as (Hcc & Hok' & Hcov'); [lia|done..|].
    split_and!; [lia|done|]. intros x. rewrite Hcov', Hcov1.
    specialize (Hbase x). specialize (Hdrop x). specialize (Hin x).
    assert ((cur ≤ x < base r) ∨ (cur1 ≤ x < m_end ∧ ¬ covered rs x) ↔
            (cur ≤ x < m_end ∧ ¬ covered (r :: rs) x)); [|tauto].
    split.
    + intros [Hx|[Hx Hn]].
      * split; [lia|]. intros Hcv. specialize (Hbase ltac:(lia) Hcv). lia.
      * split; [lia|]. rewrite Hdrop by lia. done.
    + intros [Hx Hn]. destruct (Z.lt_ge_cases x (base r)); [by left; lia|right].
      assert (base r + size r ≤ x).
      { apply Z.nlt_ge. intros ?. apply Hn, Hin. lia. }
      rewrite Hdrop in Hn by done. split; [lia|done].
Qed.

Lemma advance_spec m_start rsv :
  Forall range_ok rsv → StronglySorted base_le rsv →
  Forall range_ok (advance m_start rsv) ∧ StronglySorted base_le (advance m_start rsv) ∧
  ∀ x, m_start ≤ x → (covered (advance m_start rsv) x ↔ covered rsv x).
Proof.
  induction rsv as [|r rs IH]; intros Hok Hs; simpl; [done|].
  pose proof Hok as [Hr Hrs]%Forall_cons_1. pose proof Hs as [Hs' _]%StronglySorted_inv.
  rewrite range_end_ok by done.
  destruct (Z.leb_spec (base r + size r) m_start); [|done].
  destruct (IH Hrs Hs') as (? & ? & Hc). split_and!; [done..|].
  intros x Hx. rewrite Hc, covered_cons by done.
  assert (¬ covers r x) by (unfold covers; lia). tauto.
Qed.

Lemma subtract_loop_spec cap mem rsv out out' :
  Forall range_norm mem → StronglySorted separated mem →
  Forall range_ok rsv → StronglySorted base_le rsv → Forall range_ok out →
  subtract_loop cap mem rsv out = Some out' →
  Forall range_ok out' ∧
  ∀ x, covered out' x ↔ covered out x ∨ (covered mem x ∧ ¬ covered rsv x).
Proof.
  revert rsv out. induction mem as [|m ms IH]; intros rsv out Hm Hsm Hok Hs Hout Heq.
  { simplify_eq/=. split; [done|]. intros x. rewrite covered_nil. tauto. }
  simpl in Heq. apply Forall_cons_1 in Hm as [[Hmok Hpos] Hm].
  apply StronglySorted_inv in Hsm as [Hsm Hsep].
  destruct (Z.eqb_spec (size m) 0); [lia|].
  rewrite range_end_ok in Heq by done. destruct Hmok as (? & ? & ?).
  destruct (advance_spec (base m) rsv) as (Ha1 & Ha2 & Ha3); [done..|].
  destruct (subtract_one _ _ _ _ _) as [[cur' out1]|] eqn:E1; simplify_eq/=.
  apply subtract_one_spec in E1 as (Hcur & Ho1 & Hc1); [|done..].
  set (seg := if cur' <? base m + size m then _ else _) in Heq.
  assert (∃ out2, seg = Some out2 ∧ Forall range_ok out2 ∧
    (∀ x, covered out2 x ↔ covered out1 x ∨ cur' ≤ x < base m + size m) ∧
    subtract_loop cap ms (advance (base m) rsv) out2 = Some out')
    as (out2 & _ & Ho2 & Hc2 & Heq2).
  { subst seg. destruct (Z.ltb_spec cur' (base m + size m)).
    - unfold push_out in *. case_decide; simplify_eq/=.
      rewrite u64_small in Heq by lia.
      eexists; split_and!; [by rewrite u64_small by lia| | |exact Heq].
      + apply Forall_app. split; [done|]. repeat constructor; simpl; lia.
      + intros x. rewrite covered_app, covered_singleton. unfold covers; simpl.
        assert (cur' ≤ x < cur' + (base m + size m - cur') ↔ cur' ≤ x < base m + size m) by lia.
        tauto.
    - eexists; split_and!; [done|done| |exact Heq].
      intros x. assert (¬ cur' ≤ x < base m + size m) by lia. tauto. }
  apply IH in Heq2 as [Hok' Hc']; [|done..].
  split; [done|]. intros x. rewrite Hc', Hc2, Hc1, covered_cons.
  assert (covered ms x → base m ≤ x).
  { intros Hcv. apply Z.nlt_ge. intros Hx. revert Hcv. apply covered_base_gt.
    eapply Forall_impl; [exact Hsep|]. unfold separated. intros; lia. }
  assert (covers m x ↔ base m ≤ x < base m + size m) by done.
  specialize (Ha3 x).
  assert (covered ms x → (covered (advance (base m) rsv) x ↔ covered rsv x)) by tauto.
  assert (covers m x → (covered (advance (base m) rsv) x ↔ covered rsv x)).
  { intros Hcv. apply Ha3. unfold covers in Hcv. lia. }
  tauto.
Qed.

(** The number of outputs: one per memory range, and one more for each
    reservation that starts strictly inside it. *)
Definition gaps (lo hi : Z) (rsv : list dtb_range) : nat :=
  length (filter (λ r, lo < base r < hi) rsv).

Lemma gaps_cons lo hi r rs :
  gaps lo hi (r :: rs) =
  ((if decide (lo < base r < hi)%Z then 1 else 0) + gaps lo hi rs)%nat.
Proof. unfold gaps. rewrite filter_cons. by case_decide. Qed.

Lemma gaps_mono lo lo' hi hi' rsv :
  lo ≤ lo' → hi' ≤ hi → (gaps lo' hi' rsv ≤ gaps lo hi rsv)%nat.
Proof.
  intros ??. induction rsv as [|r rs IH]; [done|].
  rewrite !gaps_cons. repeat case_decide; lia.
Qed.

Lemma gaps_split lo mid hi rsv :
  lo ≤ mid → mid ≤ hi → (gaps lo mid rsv + gaps mid hi rsv ≤ gaps lo hi rsv)%nat.
Proof.
  intros ??. induction rsv as [|r rs IH]; [done|].
  rewrite !gaps_cons. repeat case_decide; lia.
Qed.

Lemma gaps_length lo hi rsv : (gaps lo hi rsv ≤ length rsv)%nat.
Proof. induction rsv as [|r rs IH]; [done|]. rewrite gaps_cons. simpl. case_decide; lia. Qed.

Lemma gaps_advance m_start lo hi rsv :
  (gaps lo hi (advance m_start rsv) ≤ gaps lo hi rsv)%nat.
Proof.
  induction rsv as [|r rs IH]; simpl; [done|].
  case_match; [|done]. rewrite gaps_cons. lia.
Qed.

Lemma subtract_one_total cap m_end cur rsv out :
  (length out + gaps cur m_end rsv ≤ cap)%nat →
  ∃ cur' out', subtract_one cap m_end cur rsv out = Some (cur', out') ∧
    (length out' ≤ length out + gaps cur m_end rsv)%nat.
Proof.
  revert cur out. induction rsv as [|r rs IH]; intros cur out Hcap; simpl; [by eauto with lia|].
  rewrite gaps_cons in *.
  destruct (Z.ltb_spec (base r) m_end) as [Hlt|]; [|eexists _, _; split; [done|lia]].
  set (cur1 := if cur <? range_end r then _ else _).
  assert (cur ≤ cur1) as Hc by (unfold cur1; case_if; bool_simpl; lia).
  pose proof (gaps_mono cur cur1 m_end m_end rs Hc ltac:(lia)) as Hg.
  destruct (Z.ltb_spec cur (base r)) as [Hgt|Hle].
  - destruct (Z.ltb_spec (base r) m_end); [|lia].
    destruct (Z.ltb_spec cur (base r)); [|lia].
    rewrite decide_True in * by lia.
    unfold push_out. rewrite decide_False by lia. simpl. case_if.
    + eexists _, _; split; [done|]. rewrite length_app. simpl. lia.
    + destruct (IH cur1 (out ++ [mkRange cur (u64 (base r - cur))])) as (c & o & -> & Hl);
        rewrite length_app in *; simpl in *; [lia|].
      eexists _, _; split; [done|]. lia.
  - simpl. case_if; [eexists _, _; split; [done|]; case_decide; lia|].
    destruct (IH cur1 out) as (c & o & -> & Hl); [case_decide; lia|].
    eexists _, _; split; [done|]. case_decide; lia.
Qed.

Lemma subtract_loop_total cap mem rsv out lo :
  Forall range_norm mem → StronglySorted separated mem →
  Forall (λ m, lo ≤ base m) mem →
  (length out + length mem + gaps lo (2 ^ 64) rsv ≤ cap)%nat →
  ∃ out', subtract_loop cap mem rsv out = Some out'.
Proof.
  revert rsv out lo. induction mem as [|m ms IH]; intros rsv out lo Hm Hs Hlo Hcap; simpl in *; [eauto|].
  apply Forall_cons_1 in Hm as [[Hmok Hpos] Hm]. apply StronglySorted_inv in Hs as [Hs Hsep].
  apply Forall_cons_1 in Hlo as [Hlo Hlo'].
  destruct (Z.eqb_spec (size m) 0); [lia|].
  rewrite range_end_ok by done. destruct Hmok as (?&?&?).
  set (rsv' := advance (base m) rsv).
  pose proof (gaps_advance (base m) lo (2 ^ 64) rsv : (gaps lo (2 ^ 64) rsv' ≤ _)%nat).
  pose proof (gaps_split lo (base m + size m) (2 ^ 64) rsv' ltac:(lia) ltac:(lia)).
  pose proof (gaps_mono lo (base m) (base m + size m) (base m + size m) rsv' Hlo ltac:(lia)).
  destruct (subtract_one_total cap (base m + size m) (base m) rsv' out) as (c & o & -> & Hl); [lia|].
  simpl.
  assert (∃ o2, (if c <? base m + size m
     then push_out cap o (mkRange c (u64 (base m + size m - c))) else Some o) = Some o2 ∧
     (length o2 ≤ length o + 1)%nat) as (o2 & -> & Ho2).
  { case_if; [|eexists; split; [done|lia]]. unfold push_out. rewrite decide_False by lia.
    eexists; split; [done|]. rewrite length_app. simpl. lia. }
  simpl. apply (IH rsv' o2 (base m + size m)); [done..| |].
  - eapply Forall_impl; [exact Hsep|]. unfold separated. intros; lia.
  - lia.
Qed.

(** ** Specification of the usable set, by pages *)

Definition page_start (x : Z) : Z := PAGE_SIZE * (x / PAGE_SIZE).

(** The 4 KiB page of address [x] lies inside [r]; it meets [r]. *)
Definition page_inside (r : dtb_range) (x : Z) : Prop :=
  base r ≤ page_start x ∧ page_start x + PAGE_SIZE ≤ base r + size r.
Definition page_touches (r : dtb_range) (x : Z) : Prop :=
  page_start x < base r + size r ∧ base r < page_start x + PAGE_SIZE.

Definition in_window (x : Z) : Prop := CAPAZ_RAM_BASE ≤ x < WIN_END.

(** Address [x] is in a page the kernel may hand out: RAM in the direct-map
    window, not reserved by the device tree, above the boot region and the
    kernel, outside the PMM metadata and the device tree blob. *)
Definition usable_spec (d : dtb_results) (runtime_end_va : Z) (bi : boot_info) (x : Z) : Prop :=
  let runtime_end_pa := hh_virt_to_phys runtime_end_va in
  in_window x ∧
  (∃ r, r ∈ g_mem_ranges d ∧ page_inside r x) ∧
  (∀ r, r ∈ g_rsv_ranges d → size r ≠ 0 → ¬ page_touches r x) ∧
  ¬ page_touches (mkRange 0 (kernel_phys_base bi)) x ∧
  ¬ page_touches (mkRange (kernel_phys_base bi) (runtime_end_pa - kernel_phys_base bi)) x ∧
  ¬ page_touches (mkRange (align_up_4k runtime_end_pa) (PMM_METADATA_PAGES * PAGE_SIZE)) x ∧
  (dtb_ptr bi ≠ 0 →
   ¬ page_touches (mkRange (hh_virt_to_phys (dtb_ptr bi)) (dtb_blob_size d bi)) x).

(** No range of the inputs reaches the last page of the address space. *)
Definition range_in (r : dtb_range) : Prop :=
  0 ≤ base r ∧ 0 ≤ size r ∧ base r + size r ≤ 2 ^ 64 - PAGE_SIZE.

Definition dtb_wf (d : dtb_results) : Prop :=
  Forall range_in (g_mem_ranges d) ∧ Forall range_in (g_rsv_ranges d) ∧
  (length (g_mem_ranges d) ≤ DTB_MAX_MEMORY_RANGES)%nat ∧
  (length (g_rsv_ranges d) ≤ DTB_MAX_RESERVED_RANGES)%nat ∧
  g_mem_ranges d ≠ [].

Definition boot_wf (d : dtb_results) (runtime_end_va : Z) (bi : boot_info) : Prop :=
  let runtime_end_pa := hh_virt_to_phys runtime_end_va in
  0 ≤ kernel_phys_base bi ≤ runtime_end_pa ∧ runtime_end_pa ≤ 2 ^ 63 ∧
  (dtb_ptr bi ≠ 0 →
   range_in (mkRange (hh_virt_to_phys (dtb_ptr bi)) (dtb_blob_size d bi))).

Definition ocovers (o : option dtb_range) (x : Z) : Prop :=
  match o with Some r => covers r x | None => False end.

Lemma page_start_spec x : page_aligned (page_start x) ∧ page_start x ≤ x < page_start x + PAGE_SIZE.
Proof. unfold page_start. split; page_arith. Qed.

Lemma aligned_le_page a x : page_aligned a → (a ≤ page_start x ↔ a ≤ x).
Proof. unfold page_start. intros. split; page_arith. Qed.
Lemma aligned_gt_page a x : page_aligned a → (page_start x < a ↔ x < a).
Proof. unfold page_start. intros. split; page_arith. Qed.
Lemma aligned_page_add a x : page_aligned a → (page_start x + PAGE_SIZE ≤ a ↔ x < a).
Proof. unfold page_start. intros. split; page_arith. Qed.

Lemma align_up_le_page b x : 0 ≤ b ≤ 2 ^ 64 - PAGE_SIZE →
  (align_up_4k b ≤ x ↔ b ≤ page_start x).
Proof.
  intros Hb. rewrite align_up_4k_eq by done. unfold page_start. split; page_arith.
Qed.
Lemma align_down_gt_page e x : 0 ≤ e < 2 ^ 64 →
  (x < align_down_4k e ↔ page_start x + PAGE_SIZE ≤ e).
Proof.
  intros Hb. rewrite align_down_4k_eq by done. unfold page_start. split; page_arith.
Qed.
Lemma align_down_le_page b x : 0 ≤ b < 2 ^ 64 →
  (align_down_4k b ≤ x ↔ b < page_start x + PAGE_SIZE).
Proof.
  intros Hb. rewrite align_down_4k_eq by done. unfold page_start. split; page_arith.
Qed.
Lemma align_up_gt_page e x : 0 ≤ e ≤ 2 ^ 64 - PAGE_SIZE →
  (x < align_up_4k e ↔ page_start x < e).
Proof.
  intros Hb. rewrite align_up_4k_eq by done. unfold page_start. split; page_arith.
Qed.

Lemma clamp_window_covers s e x :
  ocovers (clamp_window s e) x ↔ in_window x ∧ s ≤ x < e.
Proof.
  unfold clamp_window, in_window, ocovers, covers. pose proof WIN_END_eq as HW.
  unfold CAPAZ_RAM_BASE in *.
  destruct (Z.ltb_spec s 0x40000000), (Z.ltb_spec WIN_END e); case_if; bool_simpl; simpl;
    rewrite ?u64_small by lia; lia.
Qed.

Lemma clamp_window_norm s e r :
  page_aligned s → page_aligned e → clamp_window s e = Some r →
  range_norm r ∧ page_aligned (base r) ∧ page_aligned (base r + size r) ∧
  CAPAZ_RAM_BASE ≤ base r ∧ base r + size r ≤ WIN_END.
Proof.
  pose proof win_aligned as [Ha Hb]. unfold clamp_window. intros Hs He.
  pose proof WIN_END_eq as HW. unfold CAPAZ_RAM_BASE in *.
  destruct (Z.ltb_spec s 0x40000000), (Z.ltb_spec WIN_END e); case_if; bool_simpl;
    intros [= <-]; rewrite u64_small by lia; unfold range_norm, range_ok; simpl;
    split_and!; try lia; try done; by rewrite Zplus_minus.
Qed.

Lemma inner_pages_covers r x : range_in r →
  ocovers (inner_pages r) x ↔ in_window x ∧ page_inside r x.
Proof.
  intros (?&?&?). unfold inner_pages. rewrite clamp_window_covers.
  unfold PAGE_SIZE in H1. rewrite u64_small by lia.
  rewrite align_up_le_page, align_down_gt_page by (unfold PAGE_SIZE; lia). done.
Qed.

Lemma outer_covers b len x : range_in (mkRange b len) →
  ocovers (clamp_window (align_down_4k b) (align_up_4k (u64 (b + len)))) x ↔
  in_window x ∧ page_touches (mkRange b len) x.
Proof.
  intros (?&?&?); simpl in *. rewrite clamp_window_covers.
  unfold PAGE_SIZE in *. rewrite u64_small by lia.
  rewrite align_down_le_page, align_up_gt_page by (unfold PAGE_SIZE; lia).
  unfold page_touches; simpl. tauto.
Qed.

Lemma inner_pages_norm r r' : range_in r → inner_pages r = Some r' →
  range_norm r' ∧ page_aligned (base r') ∧ page_aligned (base r' + size r') ∧
  CAPAZ_RAM_BASE ≤ base r' ∧ base r' + size r' ≤ WIN_END.
Proof.
  intros (?&?&?). unfold PAGE_SIZE in *. apply clamp_window_norm.
  - apply align_up_4k_spec. unfold PAGE_SIZE. lia.
  - rewrite u64_small by lia. apply align_down_4k_spec. lia.
Qed.

Lemma covered_omap (f : dtb_range → option dtb_range) l x :
  covered (omap f l) x ↔ ∃ r, r ∈ l ∧ ocovers (f r) x.
Proof.
  unfold covered. rewrite Exists_exists. split.
  - intros (r' & (r & ? & Hf)%list_elem_of_omap & ?). exists r. by rewrite Hf.
  - intros (r & ? & Hc). destruct (f r) as [r'|] eqn:E; [|done].
    exists r'. split; [|done]. apply list_elem_of_omap. eauto.
Qed.

Lemma push_rsv_covered acc o x : (length acc < 128)%nat →
  covered (push_rsv acc o) x ↔ covered acc x ∨ ocovers o x.
Proof.
  intros Hl. unfold push_rsv, PLATFORM_MAX_RANGES. destruct o as [r|]; simpl; [|tauto].
  rewrite decide_True by lia. by rewrite covered_app, covered_singleton.
Qed.

Lemma push_rsv_length acc o : (length (push_rsv acc o) ≤ length acc + 1)%nat.
Proof.
  unfold push_rsv. destruct o; [|lia]. case_decide; [|lia]. rewrite length_app. simpl. lia.
Qed.

Lemma push_rsv_ok acc o : Forall range_ok acc → (∀ r, o = Some r → range_ok r) →
  Forall range_ok (push_rsv acc o).
Proof.
  intros Ha Ho. unfold push_rsv. destruct o as [r|]; [|done]. case_decide; [|done].
  apply Forall_app. split; [done|]. constructor; [by apply Ho|constructor].
Qed.

Lemma clamp_window_ok s e r : clamp_window s e = Some r → range_ok r.
Proof.
  unfold clamp_window. pose proof WIN_END_eq as HW. unfold CAPAZ_RAM_BASE in *.
  destruct (Z.ltb_spec s 0x40000000), (Z.ltb_spec WIN_END e); case_if; bool_simpl;
    intros [= <-]; rewrite u64_small by lia; unfold range_ok; simpl; lia.
Qed.

Lemma rsv_metadata_spec rte : 0 ≤ hh_virt_to_phys rte ≤ 2 ^ 63 →
  (∀ r, rsv_metadata rte = Some r → range_ok r) ∧
  ∀ x, in_window x → (ocovers (rsv_metadata rte) x ↔
    page_touches (mkRange (align_up_4k (hh_virt_to_phys rte)) (PMM_METADATA_PAGES * PAGE_SIZE)) x).
Proof.
  intros Hr. destruct (align_up_4k_spec (hh_virt_to_phys rte)) as [Ha Hb]; [unfold PAGE_SIZE; lia|].
  unfold rsv_metadata. set (st := align_up_4k (hh_virt_to_phys rte)) in *.
  assert (0 ≤ st < 2 ^ 63 + 4096) by (unfold PAGE_SIZE in *; lia).
  change (u64 (PMM_METADATA_PAGES * PAGE_SIZE)) with 65536.
  change (PMM_METADATA_PAGES * PAGE_SIZE) with 65536.
  rewrite (u64_small (st + 65536)) by lia. pose proof WIN_END_eq. cbv zeta.
  split.
  - intros r. repeat case_if; bool_simpl; try done; intros [= <-];
      rewrite u64_small by lia; unfold range_ok; simpl; lia.
  - intros x Hx. unfold page_touches; simpl.
    assert (page_aligned (st + 65536)) by page_arith.
    rewrite aligned_gt_page by done.
    assert (st < page_start x + PAGE_SIZE ↔ st ≤ x) as ->.
    { pose proof (aligned_page_add st x Ha). lia. }
    unfold in_window, CAPAZ_RAM_BASE in Hx.
    repeat case_if; bool_simpl; unfold ocovers, covers; simpl; rewrite ?u64_small by lia; lia.
Qed.

(** The DTB reservations, all inside the array. *)
Lemma fold_outer_spec rsv acc :
  Forall range_in rsv → Forall range_ok acc → (length acc + length rsv ≤ 100)%nat →
  let l := foldl (λ acc r, push_rsv acc (outer_pages r)) acc rsv in
  Forall range_ok l ∧ (length l ≤ length acc + length rsv)%nat ∧
  ∀ x, covered l x ↔ covered acc x ∨
    (in_window x ∧ ∃ r, r ∈ rsv ∧ size r ≠ 0 ∧ page_touches r x).
Proof.
  revert acc. induction rsv as [|r rs IH]; intros acc Hin Hok Hl; simpl in *.
  { split_and!; [done|lia|]. intros x. split; [tauto|].
    intros [?|(_ & r & Hr & _)]; [done|]. by apply elem_of_nil in Hr. }
  apply Forall_cons_1 in Hin as [Hr Hin].
  pose proof (push_rsv_length acc (outer_pages r)).
  destruct (IH (push_rsv acc (outer_pages r))) as (? & ? & Hc); [done| |lia|].
  { apply push_rsv_ok; [done|]. intros r'. unfold outer_pages. case_if; [done|].
    apply clamp_window_ok. }
  split_and!; [done|lia|]. intros x. rewrite Hc, push_rsv_covered by lia.
  assert (ocovers (outer_pages r) x ↔ in_window x ∧ size r ≠ 0 ∧ page_touches r x) as ->.
  { unfold outer_pages. case_if; bool_simpl; [simpl; tauto|].
    destruct r as [b len]; simpl in *. rewrite outer_covers by done. tauto. }
  assert ((∃ r0, r0 ∈ r :: rs ∧ size r0 ≠ 0 ∧ page_touches r0 x) ↔
    (size r ≠ 0 ∧ page_touches r x) ∨ (∃ r0, r0 ∈ rs ∧ size r0 ≠ 0 ∧ page_touches r0 x)); [|tauto].
  split.
  - intros (r0 & [->|?]%elem_of_cons & ?); eauto.
  - intros [?|(r0 & ? & ?)]; eexists; (split; [|done]); [left|by right].
Qed.

Lemma all_reserved_spec d rte bi mem :
  dtb_wf d → boot_wf d rte bi →
  let l := all_reserved d rte (Some bi) mem (g_rsv_ranges d) in
  Forall range_ok l ∧ (length l ≤ length (g_rsv_ranges d) + 4)%nat ∧
  ∀ x, in_window x → (covered l x ↔
    (∃ r, r ∈ g_rsv_ranges d ∧ size r ≠ 0 ∧ page_touches r x) ∨
    ocovers (rsv_boot (mem_min_base mem) bi) x ∨
    page_touches (mkRange (kernel_phys_base bi) (hh_virt_to_phys rte - kernel_phys_base bi)) x ∨
    page_touches (mkRange (align_up_4k (hh_virt_to_phys rte)) (PMM_METADATA_PAGES * PAGE_SIZE)) x ∨
    (dtb_ptr bi ≠ 0 ∧
     page_touches (mkRange (hh_virt_to_phys (dtb_ptr bi)) (dtb_blob_size d bi)) x)).
Proof.
  intros (_ & Hrsv & _ & Hlen & _) (Hk & Hr & Hd). unfold DTB_MAX_RESERVED_RANGES in Hlen.
  destruct (fold_outer_spec (g_rsv_ranges d) []) as (Ho0 & Hl0 & Hc0); [done|constructor|simpl; lia|].
  unfold all_reserved. set (a0 := foldl _ _ _) in *. simpl in Hl0.
  destruct (rsv_metadata_spec rte) as [Hmok Hmc]; [lia|].
  pose proof (push_rsv_length a0 (rsv_boot (mem_min_base mem) bi)) as Hl1.
  set (a1 := push_rsv a0 (rsv_boot _ _)) in *.
  pose proof (push_rsv_length a1 (rsv_kernel rte bi)) as Hl2.
  set (a2 := push_rsv a1 _) in *.
  pose proof (push_rsv_length a2 (rsv_metadata rte)) as Hl3.
  set (a3 := push_rsv a2 _) in *.
  pose proof (push_rsv_length a3 (rsv_dtb d bi)) as Hl4.
  split_and!; [|lia|].
  - repeat apply push_rsv_ok; [done| | |done|].
    + intros r. unfold rsv_boot. case_if; [|done]. apply clamp_window_ok.
    + intros r. apply clamp_window_ok.
    + intros r. unfold rsv_dtb. case_if; [done|]. apply clamp_window_ok.
  - intros x Hx.
    rewrite push_rsv_covered by lia. unfold a3 at 1. rewrite push_rsv_covered by lia.
    unfold a2 at 1. rewrite push_rsv_covered by lia.
    unfold a1 at 1. rewrite push_rsv_covered by lia.
    rewrite Hc0, covered_nil, Hmc by done.
    assert (ocovers (rsv_kernel rte bi) x ↔
      page_touches (mkRange (kernel_phys_base bi) (hh_virt_to_phys rte - kernel_phys_base bi)) x) as ->.
    { pose proof (outer_covers (kernel_phys_base bi) (hh_virt_to_phys rte - kernel_phys_base bi) x) as Hoc.
      replace (kernel_phys_base bi + (hh_virt_to_phys rte - kernel_phys_base bi))
        with (hh_virt_to_phys rte) in Hoc by lia.
      rewrite (u64_small (hh_virt_to_phys rte)) in Hoc by lia.
      unfold rsv_kernel. rewrite Hoc; [tauto|]. unfold range_in, PAGE_SIZE; simpl. lia. }
    assert (ocovers (rsv_dtb d bi) x ↔ dtb_ptr bi ≠ 0 ∧
      page_touches (mkRange (hh_virt_to_phys (dtb_ptr bi)) (dtb_blob_size d bi)) x) as ->.
    { unfold rsv_dtb. destruct (Z.eqb_spec (dtb_ptr bi) 0); [simpl; tauto|].
      rewrite outer_covers by auto. tauto. }
    tauto.
Qed.

(** ** Page alignment is kept by every pass *)

Definition range_aligned (r : dtb_range) : Prop :=
  range_ok r ∧ page_aligned (base r) ∧ page_aligned (base r + size r).

Lemma merge_loop_aligned w r :
  Forall range_aligned w → Forall range_aligned r → Forall range_aligned (merge_loop w r).
Proof.
  revert w. induction r as [|x xs IH]; intros w Hw Hr; simpl.
  { by rewrite <- Permutation_rev. }
  apply Forall_cons_1 in Hr as [Hx Hr]. case_if; [by auto|].
  destruct w as [|prev w']; [by auto|].
  pose proof Hw as [Hp Hw']%Forall_cons_1.
  rewrite !range_end_ok by (apply Hp || apply Hx).
  repeat case_if; bool_simpl; auto.
  apply IH; [|done]. constructor; [|done].
  destruct Hp as [(?&?&?) [? ?]], Hx as [(?&?&?) [? ?]].
  rewrite u64_small by lia. unfold range_aligned, range_ok; simpl.
  split_and!; try lia; [done|]. by rewrite Zplus_minus.
Qed.

Lemma normalize_sort_aligned r :
  Forall range_aligned r → Forall range_aligned (normalize_merge (sort_ranges r)).
Proof.
  intros Hr. apply merge_loop_aligned; [constructor|]. by rewrite sort_ranges_perm.
Qed.

Lemma push_out_aligned cap out s e out' :
  Forall range_aligned out → 0 ≤ s < e → e < 2 ^ 64 → page_aligned s → page_aligned e →
  push_out cap out (mkRange s (u64 (e - s))) = Some out' → Forall range_aligned out'.
Proof.
  intros Ho Hse He Hs He'. unfold push_out. case_decide; [done|]. intros [= <-].
  rewrite u64_small by lia. apply Forall_app. split; [done|].
  constructor; [|constructor]. unfold range_aligned, range_ok; simpl.
  split_and!; try lia; [done|]. by rewrite Zplus_minus.
Qed.

Lemma subtract_one_aligned cap m_end cur rsv out cur' out' :
  0 ≤ cur → m_end < 2 ^ 64 → page_aligned cur → page_aligned m_end →
  Forall range_aligned rsv → Forall range_aligned out →
  subtract_one cap m_end cur rsv out = Some (cur', out') →
  page_aligned cur' ∧ 0 ≤ cur' ∧ Forall range_aligned out'.
Proof.
  intros Hc Hm Hac Ham Hr. revert cur out Hc Hac.
  induction rsv as [|r rs IH]; intros cur out Hc Hac Ho Heq; simpl in Heq; [by simplify_eq|].
  apply Forall_cons_1 in Hr as [[Hrok [Hr1 Hr2]] Hr].
  rewrite range_end_ok in Heq by done. pose proof Hrok as (?&?&?).
  destruct (Z.ltb_spec (base r) m_end); [|by simplify_eq].
  destruct (if cur <? base r then _ else Some out) as [out1|] eqn:E1; [|done]. simpl in Heq.
  assert (Forall range_aligned out1) as Ho1.
  { destruct (Z.ltb_spec cur (base r)); [|by simplify_eq].
    destruct (Z.ltb_spec cur (base r)); [|lia].
    eapply push_out_aligned; [| | | | |exact E1]; done || lia. }
  clear E1. set (cur1 := if cur <? base r + size r then _ else _) in *.
  assert (page_aligned cur1 ∧ 0 ≤ cur1) as [? ?].
  { unfold cur1. case_if; bool_simpl; split; done || lia. }
  destruct (m_end <=? cur1); [by simplify_eq|]. by apply IH in Heq.
Qed.

Lemma advance_aligned m rsv : Forall range_aligned rsv → Forall range_aligned (advance m rsv).
Proof.
  induction rsv as [|r rs IH]; intros H; simpl; [done|].
  case_if; [|done]. apply IH. by apply Forall_cons_1 in H as [_ ?].
Qed.

Lemma subtract_loop_aligned cap mem rsv out out' :
  Forall range_aligned mem → Forall range_aligned rsv → Forall range_aligned out →
  subtract_loop cap mem rsv out = Some out' → Forall range_aligned out'.
Proof.
  revert rsv out. induction mem as [|m ms IH]; intros rsv out Hm Hr Ho Heq; simpl in Heq; [by simplify_eq|].
  apply Forall_cons_1 in Hm as [[Hmok [Hm1 Hm2]] Hm].
  destruct (size m =? 0); [by eauto|].
  rewrite range_end_ok in Heq by done. pose proof Hmok as (?&?&?).
  pose proof (advance_aligned (base m) rsv Hr) as Ha.
  destruct (subtract_one _ _ _ _ _) as [[c o]|] eqn:E1; [|done]. simpl in Heq.
  apply subtract_one_aligned in E1 as (Hc & Hc0 & Ho1); [|done..].
  destruct (if c <? base m + size m then _ else Some o) as [o2|] eqn:E2; [|done]. simpl in Heq.
  apply IH in Heq; [done..|].
  destruct (Z.ltb_spec c (base m + size m)); [|by simplify_eq].
  eapply push_out_aligned; [| | | | |exact E2]; done || lia.
Qed.

(** The boot reservation covers exactly the RAM pages below the kernel. *)
Lemma rsv_boot_spec mem bi x :
  Forall range_norm mem → Forall range_aligned mem → StronglySorted separated mem →
  covered mem x → in_window x → 0 ≤ kernel_phys_base bi ≤ 2 ^ 63 →
  (ocovers (rsv_boot (mem_min_base mem) bi) x ↔
   page_touches (mkRange 0 (kernel_phys_base bi)) x).
Proof.
  intros Hn Hal Hs Hc Hw Hk.
  assert (mem_min_base mem ≤ x ∧ 0 ≤ mem_min_base mem < 2 ^ 64 ∧
          page_aligned (mem_min_base mem)) as (Hmin & Hm0 & Hma).
  { destruct mem as [|m ms]; [by apply covered_nil in Hc|]. simpl.
    apply Forall_cons_1 in Hn as [[(?&?&?) ?] Hn].
    apply Forall_cons_1 in Hal as [[? [? ?]] _]. split_and!; [|lia|lia|done].
    apply covered_cons in Hc as [Hc|Hc]; [unfold covers in Hc; lia|].
    apply Z.nlt_ge. intros Hx. revert Hc. apply covered_base_gt.
    apply StronglySorted_inv in Hs as [_ Hs].
    eapply Forall_impl; [exact Hs|]. unfold separated. intros; lia. }
  unfold rsv_boot, page_touches; simpl. pose proof (page_start_spec x) as [_ Hps].
  apply aligned_le_page with (x := x) in Hma as Hle.
  unfold in_window in Hw. rewrite WIN_END_eq in Hw. unfold CAPAZ_RAM_BASE in Hw.
  destruct (Z.eqb_spec (mem_min_base mem) UINT64_MAX) as [E|E]; simpl.
  { exfalso. unfold UINT64_MAX in E. lia. }
  destruct (Z.ltb_spec (mem_min_base mem) (kernel_phys_base bi)); simpl; [|lia].
  rewrite clamp_window_covers, align_up_gt_page by (unfold PAGE_SIZE; lia).
  rewrite align_down_le_page by done.
  unfold in_window. rewrite WIN_END_eq. unfold CAPAZ_RAM_BASE. lia.
Qed.

(** Every page of an aligned range is inside it. *)
Lemma aligned_page_inside r x : range_aligned r → (page_inside r x ↔ covers r x).
Proof.
  intros [_ [Ha Hb]]. unfold page_inside, covers.
  rewrite aligned_le_page, aligned_page_add by done. lia.
Qed.

Lemma omap_inner_spec l :
  Forall range_in l →
  Forall range_aligned (omap inner_pages l) ∧ Forall range_norm (omap inner_pages l) ∧
  (length (omap inner_pages l) ≤ length l)%nat ∧
  ∀ x, covered (omap inner_pages l) x ↔ in_window x ∧ ∃ r, r ∈ l ∧ page_inside r x.
Proof.
  intros Hl. rewrite Forall_forall in Hl.
  assert (∀ r', r' ∈ omap inner_pages l → range_norm r' ∧ range_aligned r') as Hin.
  { intros r' (r & Hr & E)%list_elem_of_omap.
    destruct (inner_pages_norm r r' (Hl r Hr) E) as (? & ? & ? & _).
    split; [done|]. split; [apply H|done]. }
  split_and!.
  - apply Forall_forall. intros. by apply Hin.
  - apply Forall_forall. intros. by apply Hin.
  - clear. induction l as [|r l IH]; csimpl; [lia|]. destruct (inner_pages r); csimpl; lia.
  - intros x. rewrite covered_omap. split.
    + intros (r & Hr & Hc). rewrite inner_pages_covers in Hc by auto. naive_solver.
    + intros (Hw & r & Hr & Hc). exists r. rewrite inner_pages_covers by auto. naive_solver.
Qed.

Lemma dtb_getters_all d : dtb_wf d →
  dtb_get_memory_ranges d PLATFORM_MAX_RANGES = (true, g_mem_ranges d) ∧
  dtb_get_reserved_ranges d PLATFORM_MAX_RANGES = (true, g_rsv_ranges d).
Proof.
  intros (_ & _ & Hm & Hr & Hne).
  unfold dtb_get_memory_ranges, dtb_get_reserved_ranges, DTB_MAX_MEMORY_RANGES,
    DTB_MAX_RESERVED_RANGES, PLATFORM_MAX_RANGES in *.
  rewrite !decide_False by lia. rewrite !take_ge by lia.
  split; [|done]. by destruct (g_mem_ranges d).
Qed.

Lemma merge_loop_length w r : (length (merge_loop w r) ≤ length w + length r)%nat.
Proof.
  revert w. induction r as [|x xs IH]; intros w; simpl.
  { rewrite length_rev. lia. }
  case_if; [specialize (IH w); lia|].
  destruct w as [|p w']; [specialize (IH [x]); simpl in *; lia|].
  repeat case_if; match goal with |- context [merge_loop ?a xs] => specialize (IH a) end;
    simpl in *; lia.
Qed.

Lemma normalize_sort_length r : (length (normalize_merge (sort_ranges r)) ≤ length r)%nat.
Proof.
  pose proof (merge_loop_length [] (sort_ranges r)) as H.
  rewrite (Permutation_length (sort_ranges_perm r)) in H. exact H.
Qed.

(** The output ranges of the subtraction stay inside the window, so the final
    normalization pass leaves the set of addresses as it is. *)
Lemma renormalize_spec out :
  Forall range_aligned out → (∀ x, covered out x → in_window x) →
  ∀ x, covered (normalize_merge (sort_ranges (omap inner_pages out))) x ↔ covered out x.
Proof.
  intros Ha Hw.
  assert (Forall (λ r, size r = 0 ∨ range_in r) out) as Hin.
  { rewrite Forall_forall in *. intros r Hr. destruct (Ha r Hr) as [(?&?&?) _].
    destruct (decide (size r = 0)) as [|Hs]; [by left|right].
    assert (in_window (base r + size r - 1)) as Hi.
    { apply Hw, Exists_exists. exists r. split; [done|]. unfold covers. lia. }
    unfold in_window in Hi. rewrite WIN_END_eq in Hi. unfold range_in, PAGE_SIZE. lia. }
  assert (∀ r x, r ∈ out → (ocovers (inner_pages r) x ↔ covers r x)) as Heq.
  { rewrite Forall_forall in *. intros r x Hr. destruct (Ha r Hr) as [Hok Hal].
    destruct (Hin r Hr) as [Hz|Hri].
    - unfold inner_pages. rewrite clamp_window_covers. unfold covers. rewrite Hz, Z.add_0_r.
      destruct Hok as (?&?&?), Hal as [Hb _].
      rewrite u64_small by lia. rewrite align_down_4k_id by (done || lia).
      split; [|lia]. intros (_ & Hu & Hd).
      assert (base r ≤ 2 ^ 64 - PAGE_SIZE) by page_arith.
      rewrite align_up_4k_id in Hu by (done || lia). lia.
    - rewrite inner_pages_covers, aligned_page_inside by (done || by apply Ha).
      split; [tauto|]. intros Hc. split; [|done]. apply Hw, Exists_exists. eauto. }
  intros x.
  assert (Forall range_ok (omap inner_pages out)) as Hok.
  { apply Forall_forall. intros r' (r & Hr & E)%list_elem_of_omap. by eapply clamp_window_ok. }
  destruct (normalize_sort_spec _ Hok) as (Hc & _ & _).
  rewrite Hc, covered_omap. unfold covered. rewrite Exists_exists. split.
  - intros (r & Hr & Hx). exists r. exact (conj Hr (proj1 (Heq r x Hr) Hx)).
  - intros (r & Hr & Hx). exists r. exact (conj Hr (proj2 (Heq r x Hr) Hx)).
Qed.

Lemma inner_pages_out_ok out :
  Forall range_aligned out →
  Forall range_ok (omap inner_pages out) ∧
  (∀ r, r ∈ omap inner_pages out → base r + size r ≤ WIN_END ∧ CAPAZ_RAM_BASE ≤ base r).
Proof.
  intros Ha. split.
  - apply Forall_forall. intros r' (r & Hr & E)%list_elem_of_omap. by eapply clamp_window_ok.
  - intros r' (r & Hr & E)%list_elem_of_omap. unfold inner_pages, clamp_window in E.
    pose proof WIN_END_eq. unfold CAPAZ_RAM_BASE in *.
    repeat case_match; bool_simpl; simplify_eq; simpl; rewrite u64_small by lia; lia.
Qed.

Lemma clamp_window_aligned s e r :
  page_aligned s → page_aligned e → clamp_window s e = Some r → range_aligned r.
Proof.
  intros Hs He Hc. destruct (clamp_window_norm s e r Hs He Hc) as ([Hok _] & ? & ? & _).
  by split.
Qed.

Lemma rsv_metadata_aligned rte r :
  0 ≤ hh_virt_to_phys rte ≤ 2 ^ 63 → rsv_metadata rte = Some r → range_aligned r.
Proof.
  intros Hr Hm. destruct (rsv_metadata_spec rte Hr) as [Hok _]. split; [by apply Hok|].
  revert Hm. clear Hok. unfold rsv_metadata.
  destruct (align_up_4k_spec (hh_virt_to_phys rte)) as [Ha Hb]; [unfold PAGE_SIZE; lia|].
  set (st := align_up_4k (hh_virt_to_phys rte)) in *.
  change (u64 (PMM_METADATA_PAGES * PAGE_SIZE)) with 65536.
  assert (0 ≤ st < 2 ^ 63 + 4096) by (unfold PAGE_SIZE in *; lia).
  rewrite (u64_small (st + 65536)) by lia. pose proof WIN_END_eq. cbv zeta.
  assert (page_aligned (st + 65536)) by page_arith. pose proof win_aligned as [_ ?].
  repeat case_if; bool_simpl; try done; intros [= <-]; simpl;
    rewrite u64_small by lia; (split; [done|]); by rewrite Zplus_minus.
Qed.

Lemma push_rsv_aligned acc o : Forall range_aligned acc → (∀ r, o = Some r → range_aligned r) →
  Forall range_aligned (push_rsv acc o).
Proof.
  intros Ha Ho. unfold push_rsv. destruct o as [r|]; [|done]. case_decide; [|done].
  apply Forall_app. split; [done|]. constructor; [by apply Ho|constructor].
Qed.

Lemma all_reserved_aligned d rte bi mem rsv :
  0 ≤ hh_virt_to_phys rte ≤ 2 ^ 63 →
  Forall range_aligned (all_reserved d rte (Some bi) mem rsv).
Proof.
  intros Hr. unfold all_reserved.
  assert (∀ b e r, clamp_window (align_down_4k b) (align_up_4k e) = Some r → range_aligned r)
    as Hcw by (intros b e r; apply clamp_window_aligned; auto with capaz).
  repeat apply push_rsv_aligned.
  - assert (Forall range_aligned []) as H0 by constructor. revert H0.
    generalize (@nil dtb_range) as acc.
    induction rsv as [|r rs IH]; intros acc Hacc; simpl; [done|]. apply IH.
    apply push_rsv_aligned; [done|]. intros r'. unfold outer_pages. case_if; [done|]. apply Hcw.
  - intros r. unfold rsv_boot. case_if; [|done]. apply Hcw.
  - intros r. apply Hcw.
  - intros r. by apply rsv_metadata_aligned.
  - intros r. unfold rsv_dtb. case_if; [done|]. apply Hcw.
Qed.

(** The subtraction step of [platform_get_usable_ranges], on normalized inputs. *)
Lemma subtract_reserved_spec cap mem rsv0 :
  Forall range_norm mem → StronglySorted separated mem → Forall range_aligned mem →
  Forall range_ok rsv0 → Forall range_aligned rsv0 →
  (length mem + length rsv0 ≤ cap)%nat →
  ∃ out, subtract_reserved cap mem (normalize_merge (sort_ranges rsv0)) = Some out ∧
    Forall range_aligned out ∧
    ∀ x, covered out x ↔ covered mem x ∧ ¬ covered rsv0 x.
Proof.
  intros Hmn Hms Hma Hro Hra Hcap.
  destruct (normalize_sort_spec rsv0 Hro) as (Hc & Hn & Hs).
  pose proof (normalize_sort_length rsv0) as Hl.
  pose proof (normalize_sort_aligned _ Hra) as Ha.
  set (rsv := normalize_merge (sort_ranges rsv0)) in *.
  destruct (subtract_loop_total cap mem rsv [] 0) as [out Hout]; [done|done| | |].
  { eapply Forall_impl; [exact Hmn|]. intros r [(?&?&?) _]. lia. }
  { pose proof (gaps_length 0 (2 ^ 64) rsv). simpl. lia. }
  exists out. unfold subtract_reserved. split; [done|].
  pose proof Hout as Hal%subtract_loop_aligned; [|done..|constructor].
  split; [done|]. apply subtract_loop_spec in Hout as [_ Hcov]; [|done|done| | |constructor].
  - intros x. rewrite Hcov, covered_nil, Hc. tauto.
  - eapply Forall_impl; [exact Hn|]. by intros r [? _].
  - by apply separated_base_le.
Qed.

(** The whole pipeline against the page-level specification. *)
Lemma usable_ranges_correct d rte bi cap :
  dtb_wf d → boot_wf d rte bi →
  (length (g_mem_ranges d) + length (g_rsv_ranges d) + 4 ≤ cap)%nat →
  ∃ out, platform_get_usable_ranges d rte (Some bi) cap = Some out ∧
    (∀ x, covered out x ↔ usable_spec d rte bi x) ∧
    Forall range_norm out ∧ Forall range_aligned out ∧ StronglySorted separated out.
Proof.
  intros Hd Hb Hcap. unfold platform_get_usable_ranges.
  destruct (dtb_getters_all d Hd) as [-> ->]. simpl negb. cbv iota.
  pose proof Hd as (Hmem & _). pose proof Hb as (Hk & Hr & _).
  destruct (omap_inner_spec _ Hmem) as (Hma & Hmn & Hml & Hmc).
  set (mem0 := omap inner_pages (g_mem_ranges d)) in *.
  destruct (normalize_sort_spec mem0) as (Hc1 & Hn1 & Hs1).
  { eapply Forall_impl; [exact Hmn|by intros ? []]. }
  pose proof (normalize_sort_aligned _ Hma) as Ha1.
  pose proof (normalize_sort_length mem0) as Hl1.
  set (mem := normalize_merge (sort_ranges mem0)) in *.
  destruct (all_reserved_spec d rte bi mem Hd Hb) as (Hro & Hrl & Hrc).
  destruct (subtract_reserved_spec cap mem
    (all_reserved d rte (Some bi) mem (g_rsv_ranges d))) as (out & Hout & Hoa & Hoc);
    [done|done|done|done|apply all_reserved_aligned; lia|lia|].
  rewrite Hout. simpl. eexists; split; [done|].
  assert (∀ x, covered mem x → in_window x) as Hmw.
  { intros x. rewrite Hc1, Hmc. tauto. }
  destruct (inner_pages_out_ok out Hoa) as [Hok2 _].
  destruct (normalize_sort_spec _ Hok2) as (_ & Hn2 & Hs2).
  split_and!; [|done| |done].
  - intros x. rewrite renormalize_spec by (try done; intros y; rewrite Hoc; intros [? _]; auto).
    rewrite Hoc. unfold usable_spec. rewrite Hc1, Hmc.
    assert ((∀ r, r ∈ g_rsv_ranges d → size r ≠ 0 → ¬ page_touches r x) ↔
      ¬ ∃ r, r ∈ g_rsv_ranges d ∧ size r ≠ 0 ∧ page_touches r x) as ->.
    { split; [intros Hn (r & ? & ? & ?); by eapply Hn|]. intros Hn r ???. apply Hn. eauto. }
    split.
    + intros [[Hw Hin] Hnr]. rewrite Hrc in Hnr by done.
      rewrite rsv_boot_spec in Hnr; [|done..|by rewrite Hc1, Hmc|done|lia]. tauto.
    + intros (Hw & Hin & Hn). split; [done|]. rewrite Hrc by done.
      rewrite rsv_boot_spec; [|done..|by rewrite Hc1, Hmc|done|lia].
      destruct Hn as (?&?&?&?&?). tauto.
  - apply normalize_sort_aligned, Forall_forall. intros r' (r & _ & E)%list_elem_of_omap.
    eapply clamp_window_aligned; [| |exact E]; auto with capaz.
Qed.

(** C4: The sort, merge and subtract passes of platform_get_usable_ranges
    compute, for a well-formed device tree and boot record, exactly the window
    pages lying wholly inside RAM and touching no reservation, as sorted,
    disjoint, page-aligned, non-empty ranges. *)
Theorem platform_usable_ranges_spec d rte bi cap :
  dtb_wf d → boot_wf d rte bi →
  (length (g_mem_ranges d) + length (g_rsv_ranges d) + 4 ≤ cap)%nat →
  ∃ out, platform_get_usable_ranges d rte (Some bi) cap = Some out ∧
    (∀ x, covered out x ↔ usable_spec d rte bi x) ∧
    Forall range_norm out ∧ Forall range_aligned out ∧ StronglySorted separated out.
Proof. apply usable_ranges_correct. Qed.

(** A board with 1 GiB of RAM at 0x40000000 and one firmware reservation. *)
Definition sample_dtb : dtb_results :=
  mkDtb [mkRange 0x40000000 0x40000000] [mkRange 0x48000000 0x1000] 0x10000.
Definition sample_boot : boot_info :=
  mkBootInfo 0x40200000 0x100000 0 0xFFFF800044000000 0.
Definition sample_runtime_end : Z := 0xFFFF800040400000.

Lemma sample_dtb_wf : dtb_wf sample_dtb.
Proof.
  split_and!; [| |simpl; unfold DTB_MAX_MEMORY_RANGES; lia
    |simpl; unfold DTB_MAX_RESERVED_RANGES; lia|done];
    repeat constructor; unfold PAGE_SIZE; simpl; lia.
Qed.

Lemma sample_boot_wf : boot_wf sample_dtb sample_runtime_end sample_boot.
Proof.
  unfold boot_wf. vm_compute (hh_virt_to_phys _). split_and!; simpl; try lia.
  intros _. vm_compute. repeat split; discriminate.
Qed.

Lemma platform_usable_ranges_witness :
  platform_get_usable_ranges sample_dtb sample_runtime_end (Some sample_boot) 64 =
    Some [mkRange 0x40410000 0x3BF0000; mkRange 0x44010000 0x3FF0000; mkRange 0x48001000 0x37FFF000] ∧
  ∃ out, platform_get_usable_ranges sample_dtb sample_runtime_end (Some sample_boot) 64 = Some out ∧
    (∀ x, covered out x ↔ usable_spec sample_dtb sample_runtime_end sample_boot x) ∧
    Forall range_norm out ∧ Forall range_aligned out ∧ StronglySorted separated out.
Proof.
  split; [vm_compute; reflexivity|].
  apply (platform_usable_ranges_spec sample_dtb sample_runtime_end sample_boot 64);
    [apply sample_dtb_wf|apply sample_boot_wf|simpl; lia].
Defined.
