(* ===== verification/Pmm.v ===== *)
(** * Physical memory manager (Kern/Kernel/mm/pmm.c, pmm.h)

    A bitmap allocator of 4 KiB pages over the direct-map window.  The C
    bitmap (bit set = reserved) is kept byte for byte; the abstract state is
    the finite set of free page indices [free_set], and every operation is
    specified by what it does to that set. *)

From S2P Require Import Prelude Irq Addr Platform.

(** ** State *)

(** [pmm_state_t]; [bitmap] is the byte array at [bitmap_va]. *)
Record pmm_state := mkPmm {
  base_pa : Z;
  limit_pa : Z;
  total_pages : Z;
  free_pages : Z;
  bitmap_va : Z;
  bitmap : list Z;
  bitmap_bytes : Z;
  next_hint : Z;
  meta_base_pa : Z;
  meta_pages : Z;
}.

(** The statics of pmm.c. *)
Record pmm_globals := mkPmmGlobals {
  g_pmm : option pmm_state;
  g_pmm_alloc_calls : Z;
  g_pmm_free_calls : Z;
  g_pmm_alloc_pages_calls : Z;
  g_pmm_alloc_contig_calls : Z;
  g_pmm_peak_used_pages : Z;
  g_pmm_low_free_pages : Z;
}.

Definition pmm_boot : pmm_globals := mkPmmGlobals None 0 0 0 0 0 UINT64_MAX.

Definition with_bits (st : pmm_state) (bm : list Z) (free : Z) : pmm_state :=
  mkPmm (base_pa st) (limit_pa st) (total_pages st) free (bitmap_va st) bm
    (bitmap_bytes st) (next_hint st) (meta_base_pa st) (meta_pages st).
Definition with_hint (st : pmm_state) (h : Z) : pmm_state :=
  mkPmm (base_pa st) (limit_pa st) (total_pages st) (free_pages st) (bitmap_va st)
    (bitmap st) (bitmap_bytes st) h (meta_base_pa st) (meta_pages st).

Definition with_state (g : pmm_globals) (st : pmm_state) : pmm_globals :=
  mkPmmGlobals (Some st) (g_pmm_alloc_calls g) (g_pmm_free_calls g)
    (g_pmm_alloc_pages_calls g) (g_pmm_alloc_contig_calls g)
    (g_pmm_peak_used_pages g) (g_pmm_low_free_pages g).

(** The call counters at the head of the entry points. *)
Definition count_alloc_va (g : pmm_globals) : pmm_globals :=
  mkPmmGlobals (g_pmm g) (u64 (g_pmm_alloc_calls g + 1)) (g_pmm_free_calls g)
    (g_pmm_alloc_pages_calls g) (g_pmm_alloc_contig_calls g)
    (g_pmm_peak_used_pages g) (g_pmm_low_free_pages g).
Definition count_free (g : pmm_globals) : pmm_globals :=
  mkPmmGlobals (g_pmm g) (g_pmm_alloc_calls g) (u64 (g_pmm_free_calls g + 1))
    (g_pmm_alloc_pages_calls g) (g_pmm_alloc_contig_calls g)
    (g_pmm_peak_used_pages g) (g_pmm_low_free_pages g).
Definition count_alloc (count : Z) (g : pmm_globals) : pmm_globals :=
  mkPmmGlobals (g_pmm g) (g_pmm_alloc_calls g) (g_pmm_free_calls g)
    (u64 (g_pmm_alloc_pages_calls g + 1))
    (if 1 <? count then u64 (g_pmm_alloc_contig_calls g + 1) else g_pmm_alloc_contig_calls g)
    (g_pmm_peak_used_pages g) (g_pmm_low_free_pages g).

(** [pmm_update_pressure]: the two watermarks. *)
Definition pmm_update_pressure (st : pmm_state) (g : pmm_globals) : pmm_globals :=
  let used := u64 (total_pages st - free_pages st) in
  mkPmmGlobals (g_pmm g) (g_pmm_alloc_calls g) (g_pmm_free_calls g)
    (g_pmm_alloc_pages_calls g) (g_pmm_alloc_contig_calls g)
    (if g_pmm_peak_used_pages g <? used then used else g_pmm_peak_used_pages g)
    (if free_pages st <? g_pmm_low_free_pages g then free_pages st else g_pmm_low_free_pages g).

(** ** Bitmap primitives; [None] is an access outside the array *)

Definition bit_set (bm : list Z) (idx : Z) : option (list Z) :=
  let k := Z.to_nat (Z.shiftr idx 3) in
  b ← bm !! k; Some (<[k := u8 (Z.lor b (u8 (Z.shiftl 1 (Z.land idx 7))))]> bm).

Definition bit_clear (bm : list Z) (idx : Z) : option (list Z) :=
  let k := Z.to_nat (Z.shiftr idx 3) in
  b ← bm !! k;
  Some (<[k := u8 (Z.land b (u8 (Z.lnot (Z.shiftl 1 (Z.land idx 7)))))]> bm).

Definition bit_test (bm : list Z) (idx : Z) : option bool :=
  b ← bm !! Z.to_nat (Z.shiftr idx 3);
  Some (negb (Z.land (Z.shiftr b (Z.land idx 7)) 1 =? 0)).

Definition bitmap_mark_all_reserved (st : pmm_state) : pmm_state :=
  if bitmap_va st =? 0 then st
  else with_bits st (replicate (Z.to_nat (bitmap_bytes st)) 0xFF) 0.

(** The page indices [first, last) of a range clipped to the managed window. *)
Definition clip_pages (st : pmm_state) (s e : Z) : option (Z * Z) :=
  if e <=? s then None
  else
    let s := if s <? base_pa st then base_pa st else s in
    let e := if limit_pa st <? e then limit_pa st else e in
    if e <=? s then None
    else Some (u64 (s - base_pa st) / PAGE_SIZE, u64 (e - base_pa st) / PAGE_SIZE).

Fixpoint free_loop (bm : list Z) (free i : Z) (fuel : nat) : option (list Z * Z) :=
  match fuel with
  | O => Some (bm, free)
  | S fuel =>
    b ← bit_test bm i;
    if (b : bool) then
      bm ← bit_clear bm i; free_loop bm (u64 (free + 1)) (i + 1) fuel
    else free_loop bm free (i + 1) fuel
  end.

Fixpoint reserve_loop (bm : list Z) (free i : Z) (fuel : nat) : option (list Z * Z) :=
  match fuel with
  | O => Some (bm, free)
  | S fuel =>
    b ← bit_test bm i;
    if negb b then
      bm ← bit_set bm i;
      reserve_loop bm (if free =? 0 then free else free - 1) (i + 1) fuel
    else reserve_loop bm free (i + 1) fuel
  end.

Definition bitmap_mark_range_free (st : pmm_state) (start_pa end_pa : Z) : option pmm_state :=
  if bitmap_va st =? 0 then Some st
  else match clip_pages st (align_up_4k start_pa) (align_down_4k end_pa) with
  | None => Some st
  | Some (first, last) =>
    r ← free_loop (bitmap st) (free_pages st) first (Z.to_nat (last - first));
    Some (with_bits st r.1 r.2)
  end.

Definition bitmap_mark_range_reserved (st : pmm_state) (start_pa end_pa : Z) : option pmm_state :=
  if bitmap_va st =? 0 then Some st
  else match clip_pages st (align_down_4k start_pa) (align_up_4k end_pa) with
  | None => Some st
  | Some (first, last) =>
    r ← reserve_loop (bitmap st) (free_pages st) first (Z.to_nat (last - first));
    Some (with_bits st r.1 r.2)
  end.

(** ** Initialization *)

Definition pmm_panic {A} (msg : string) : M pmm_globals A := panic ("PMM PANIC: " +:+ msg).

(** The loop over the usable ranges: least start and greatest end. *)
Definition window_step (w : Z * Z) (r : dtb_range) : Z * Z :=
  let start := align_up_4k (base r) in
  let fin := align_down_4k (u64 (base r + size r)) in
  if fin <=? start then w
  else (if (w.1 =? 0) || (start <? w.1) then start else w.1,
        if w.2 <? fin then fin else w.2).

(** The lowest RAM page of the device tree, in the window. *)
Definition lowest_step (lowest : Z) (r : dtb_range) : Z :=
  let start := base r in
  let fin := u64 (base r + size r) in
  if fin <=? CAPAZ_RAM_BASE then lowest
  else
    let start := if start <? CAPAZ_RAM_BASE then CAPAZ_RAM_BASE else start in
    if WIN_END <=? start then lowest
    else
      let fin := if WIN_END <? fin then WIN_END else fin in
      let start := align_up_4k start in
      let fin := align_down_4k fin in
      if fin <=? start then lowest
      else if start <? lowest then start else lowest.

Definition lowest_ram (d : dtb_results) : Z :=
  let '(have, mem) := dtb_get_memory_ranges d 64 in
  let lowest := if have && negb (Nat.eqb (length mem) 0)
                then foldl lowest_step WIN_END mem else WIN_END in
  if lowest =? WIN_END then CAPAZ_RAM_BASE else lowest.

(** The four defensive reservations, in order. *)
Definition reserve_implicit (d : dtb_results) (runtime_end_pa meta_base meta_end : Z)
    (bi : boot_info) (st : pmm_state) : option pmm_state :=
  st ← bitmap_mark_range_reserved st (lowest_ram d) (kernel_phys_base bi);
  st ← bitmap_mark_range_reserved st (kernel_phys_base bi) (align_up_4k runtime_end_pa);
  st ← (if dtb_ptr bi =? 0 then Some st
        else
          let dtb_phys := hh_virt_to_phys (dtb_ptr bi) in
          let dtb_sz := dtb_blob_size d bi in
          if dtb_sz =? 0 then Some st
          else bitmap_mark_range_reserved st (align_down_4k dtb_phys)
                 (align_up_4k (u64 (dtb_phys + dtb_sz))));
  bitmap_mark_range_reserved st meta_base meta_end.

(** [sizeof(pmm_state_t)]: nine 8-byte fields. *)
Definition sizeof_pmm_state : Z := 72.

(** The state placed at the head of the metadata region, before its bitmap is
    initialized (the bytes of the bitmap are those found in memory). *)
Definition pmm_fresh_state (base limit meta_base : Z) (garbage : list Z) : pmm_state :=
  let total := u64 (limit - base) / PAGE_SIZE in
  let bytes := u64 (total + 7) / 8 in
  let off := Z.land (u64 (sizeof_pmm_state + 7)) (u64_not 7) in
  mkPmm base limit total 0 (u64 (phys_to_hh_virt meta_base + off)) garbage bytes 0
    meta_base PMM_METADATA_PAGES.

Fixpoint mark_usable (st : pmm_state) (l : list dtb_range) : option pmm_state :=
  match l with
  | [] => Some st
  | r :: l =>
    st ← bitmap_mark_range_free st (base r) (u64 (base r + size r)); mark_usable st l
  end.

(** [pmm_init]: [d] is the parsed device tree, [runtime_end_va] the address of
    the linker symbol [__kernel_runtime_end]. *)
Definition pmm_init (d : dtb_results) (runtime_end_va : Z) (boot_info : option boot_info)
    : M pmm_globals unit :=
  match boot_info with
  | None => pmm_panic "boot_info is NULL"
  | Some bi =>
    match platform_get_usable_ranges d runtime_end_va (Some bi) 64 with
    | None | Some [] => pmm_panic "platform_get_usable_ranges failed or returned empty"
    | Some usable =>
      let '(base_pa, limit_pa) := foldl window_step (0, 0) usable in
      if (base_pa =? 0) || (limit_pa <=? base_pa)
      then pmm_panic "invalid PMM window from usable ranges"
      else
        let base_pa := if base_pa <? CAPAZ_RAM_BASE then CAPAZ_RAM_BASE else base_pa in
        let limit_pa := if WIN_END <? limit_pa then WIN_END else limit_pa in
        let base_pa := align_up_4k base_pa in
        let limit_pa := align_down_4k limit_pa in
        if limit_pa <=? base_pa then pmm_panic "PMM window empty after clamp"
        else
          let runtime_end_pa := hh_virt_to_phys runtime_end_va in
          let meta_base_pa := align_up_4k runtime_end_pa in
          let meta_bytes := u64 (PMM_METADATA_PAGES * PAGE_SIZE) in
          let meta_end_pa := u64 (meta_base_pa + meta_bytes) in
          if (meta_base_pa <? CAPAZ_RAM_BASE) || (WIN_END <? meta_end_pa)
          then pmm_panic "metadata region outside mapped RAM window"
          else
            let st := pmm_fresh_state base_pa limit_pa meta_base_pa [] in
            let off := Z.land (u64 (sizeof_pmm_state + 7)) (u64_not 7) in
            if meta_bytes <? u64 (off + bitmap_bytes st)
            then pmm_panic "metadata pages insufficient for bitmap"
            else
              let st := bitmap_mark_all_reserved st in
              st <- load (mark_usable st usable) ;;
              st <- load (reserve_implicit d runtime_end_pa meta_base_pa meta_end_pa bi st) ;;
              modify (λ g, with_state g st) ;;;
              modify (pmm_update_pressure st)
    end
  end.

(** ** Allocation *)

(** Are the [fuel] pages from [i + j] free? *)
Fixpoint check_run (bm : list Z) (i j : Z) (fuel : nat) : option bool :=
  match fuel with
  | O => Some true
  | S fuel =>
    b ← bit_test bm (u64 (i + j));
    if (b : bool) then Some false else check_run bm i (j + 1) fuel
  end.

Fixpoint commit_run (bm : list Z) (i j : Z) (fuel : nat) : option (list Z) :=
  match fuel with
  | O => Some bm
  | S fuel => bm ← bit_set bm (u64 (i + j)); commit_run bm i (j + 1) fuel
  end.

(** One pass: the first [i] in [i, i1 - count] whose run is free. *)
Fixpoint scan (bm : list Z) (count i i1 : Z) (fuel : nat) : option (option Z) :=
  match fuel with
  | O => Some None
  | S fuel =>
    if u64 (i + count) <=? i1 then
      ok ← check_run bm i 0 (Z.to_nat count);
      if (ok : bool) then Some (Some i) else scan bm count (i + 1) i1 fuel
    else Some None
  end.

Definition scan_pass (bm : list Z) (count i0 i1 : Z) : option (option Z) :=
  if i1 <? count then Some None else scan bm count i0 i1 (Z.to_nat (i1 - i0)).

(** Both passes: from the hint to the end, then from 0 to the hint. *)
Definition find_run (bm : list Z) (count n start : Z) : option (option Z) :=
  r ← scan_pass bm count start n;
  match r with
  | Some i => Some (Some i)
  | None => scan_pass bm count 0 start
  end.

(** [pmm_alloc_pages]: [Some pa] is [true] with [*out_pa = pa]; [out_pa] says
    whether the caller's pointer is not NULL. *)
Definition pmm_alloc_pages (count : Z) (out_pa : bool) : M pmm_globals (option Z) :=
  ASSERT_THREAD_CONTEXT ;;;
  modify (count_alloc count) ;;;
  g <- get_st ;;
  match g_pmm g with
  | None => ret None
  | Some st =>
    if negb out_pa || (count =? 0) then ret None
    else if free_pages st <? count then ret None
    else
      let n := total_pages st in
      if n <? count then ret None
      else
        let start := if n <=? next_hint st then 0 else next_hint st in
        r <- load (find_run (bitmap st) count n start) ;;
        match r with
        | None => ret None
        | Some i =>
          bm <- load (commit_run (bitmap st) i 0 (Z.to_nat count)) ;;
          let st := with_bits st bm (u64 (free_pages st - count)) in
          modify (pmm_update_pressure st) ;;;
          let st := with_hint st (u64 (i + count)) in
          modify (λ g, with_state g st) ;;;
          ret (Some (u64 (base_pa st + u64 (i * PAGE_SIZE))))
        end
  end.

Definition pmm_alloc_page (out_pa : bool) : M pmm_globals (option Z) :=
  pmm_alloc_pages 1 out_pa.

(** [pmm_alloc_page_va]: the page's direct-map address and its physical
    address; [None] is NULL. *)
Definition pmm_alloc_page_va : M pmm_globals (option (Z * Z)) :=
  ASSERT_THREAD_CONTEXT ;;;
  modify count_alloc_va ;;;
  r <- pmm_alloc_page true ;;
  ret (match r with Some pa => Some (phys_to_hh_virt pa, pa) | None => None end).

Definition pmm_free_page (pa : Z) : M pmm_globals unit :=
  ASSERT_THREAD_CONTEXT ;;;
  modify count_free ;;;
  g <- get_st ;;
  match g_pmm g with
  | None => ret tt
  | Some st =>
    if (pa <? base_pa st) || (limit_pa st <=? pa) then ret tt
    else if negb (Z.land pa (PAGE_SIZE - 1) =? 0) then ret tt
    else
      let idx := u64 (pa - base_pa st) / PAGE_SIZE in
      if total_pages st <=? idx then ret tt
      else if (meta_base_pa st <=? pa) &&
              (pa <? u64 (meta_base_pa st + u64 (meta_pages st * PAGE_SIZE))) then ret tt
      else
        b <- load (bit_test (bitmap st) idx) ;;
        if (b : bool) then
          bm <- load (bit_clear (bitmap st) idx) ;;
          let st := with_bits st bm (u64 (free_pages st + 1)) in
          modify (pmm_update_pressure st) ;;;
          let st := if idx <? next_hint st then with_hint st idx else st in
          modify (λ g, with_state g st)
        else ret tt
  end.

Definition pmm_get_stats (g : pmm_globals) : option (Z * Z) :=
  st ← g_pmm g; Some (free_pages st, total_pages st).

(** [pmm_stats_ex_t] *)
Record pmm_stats_ex := mkStatsEx {
  sx_free_pages : Z; sx_total_pages : Z; sx_low_free_pages_seen : Z;
  sx_peak_used_pages_seen : Z; sx_alloc_pages_calls : Z; sx_alloc_contig_calls : Z;
  sx_free_page_calls : Z;
}.

Definition pmm_get_stats_ex (g : pmm_globals) (out : bool) : option pmm_stats_ex :=
  st ← g_pmm g;
  if negb out then None
  else Some (mkStatsEx (free_pages st) (total_pages st)
    (if g_pmm_low_free_pages g =? UINT64_MAX then free_pages st else g_pmm_low_free_pages g)
    (g_pmm_peak_used_pages g) (g_pmm_alloc_pages_calls g)
    (g_pmm_alloc_contig_calls g) (g_pmm_free_calls g)).

(** ** Bits *)

Definition bytes_ok (bm : list Z) : Prop := Forall (λ b, 0 ≤ b < 2 ^ 8) bm.

Lemma idx_split i : 0 ≤ i →
  Z.shiftr i 3 = i / 8 ∧ Z.land i 7 = i mod 8 ∧ 0 ≤ i / 8 ∧ 0 ≤ i mod 8 < 8.
Proof.
  intros Hi. rewrite Z.shiftr_div_pow2 by lia.
  change 7 with (Z.ones 3). rewrite Z.land_ones by lia.
  change (2 ^ 3) with 8. repeat split; Z.div_mod_to_equations; lia.
Qed.

Lemma test_byte b k : negb (Z.land (Z.shiftr b k) 1 =? 0) = Z.testbit b k.
Proof.
  rewrite Z.testbit_odd. change 1 with (Z.ones 1). rewrite Z.land_ones by lia.
  change (2 ^ 1) with 2. rewrite Zmod_odd. by destruct (Z.odd _).
Qed.

Lemma pow2_byte k : 0 ≤ k < 8 → u8 (Z.shiftl 1 k) = 2 ^ k.
Proof.
  intros Hk. rewrite Z.shiftl_1_l. apply u8_small. split; [lia|].
  apply Z.pow_lt_mono_r; lia.
Qed.

Lemma set_byte b k m : 0 ≤ k < 8 → 0 ≤ m < 8 →
  Z.testbit (u8 (Z.lor b (u8 (Z.shiftl 1 k)))) m = bool_decide (m = k) || Z.testbit b m.
Proof.
  intros Hk Hm. rewrite pow2_byte by done. unfold u8.
  rewrite Z.mod_pow2_bits_low by lia. rewrite Z.lor_spec, Z.pow2_bits_eqb by lia.
  rewrite orb_comm. f_equal. case_bool_decide; [|by apply Z.eqb_neq].
  subst. apply Z.eqb_refl.
Qed.

Lemma clear_byte b k m : 0 ≤ k < 8 → 0 ≤ m < 8 →
  Z.testbit (u8 (Z.land b (u8 (Z.lnot (Z.shiftl 1 k))))) m =
  negb (bool_decide (m = k)) && Z.testbit b m.
Proof.
  intros Hk Hm. rewrite Z.shiftl_1_l. unfold u8.
  rewrite Z.mod_pow2_bits_low, Z.land_spec, Z.mod_pow2_bits_low by lia.
  rewrite Z.lnot_spec, Z.pow2_bits_eqb by lia. rewrite andb_comm. f_equal. f_equal.
  case_bool_decide; [|by apply Z.eqb_neq]. subst. apply Z.eqb_refl.
Qed.

Lemma bit_test_eq bm i : 0 ≤ i →
  bit_test bm i = b ← bm !! Z.to_nat (i / 8); Some (Z.testbit b (i mod 8)).
Proof.
  intros Hi. unfold bit_test.
  destruct (idx_split i Hi) as (-> & -> & _).
  destruct (bm !! _); simpl; [|done]. by rewrite test_byte.
Qed.

Lemma bit_test_total bm i : 0 ≤ i < 8 * Z.of_nat (length bm) → ∃ b, bit_test bm i = Some b.
Proof.
  intros Hi. rewrite bit_test_eq by lia.
  destruct (lookup_lt_is_Some_Z bm (i / 8)) as [b ->]; [Z.div_mod_to_equations; lia|].
  by eexists.
Qed.

(** Storing in the byte of bit [i] a value that agrees with the old one except
    at that bit changes that bit only. *)
Lemma bit_update bm i b b' v :
  0 ≤ i → bm !! Z.to_nat (i / 8) = Some b →
  (∀ m, 0 ≤ m < 8 → Z.testbit b' m = if bool_decide (m = i mod 8) then v else Z.testbit b m) →
  ∀ j, 0 ≤ j →
    bit_test (<[Z.to_nat (i / 8) := b']> bm) j =
    if decide (j = i) then Some v else bit_test bm j.
Proof.
  intros Hi Hb Hbits j Hj. rewrite !bit_test_eq by done.
  destruct (decide (j / 8 = i / 8)) as [E|E].
  - rewrite E, list_lookup_insert_eq by (by eapply lookup_lt_Some). rewrite Hb. simpl.
    rewrite Hbits by (Z.div_mod_to_equations; lia).
    case_bool_decide as E2; case_decide as E3; [done| | |done].
    + exfalso. apply E3. Z.div_mod_to_equations. lia.
    + by subst.
  - rewrite list_lookup_insert_ne by (Z.div_mod_to_equations; lia).
    rewrite decide_False; [done|]. by intros ->.
Qed.

Lemma bytes_ok_insert bm k b : bytes_ok bm → bytes_ok (<[k := u8 b]> bm).
Proof. intros H. apply Forall_insert; [done|]. apply Z.mod_pos_bound. lia. Qed.

Definition bits_become (bm bm' : list Z) (i : Z) (v : bool) : Prop :=
  length bm' = length bm ∧ (bytes_ok bm → bytes_ok bm') ∧
  ∀ j, 0 ≤ j → bit_test bm' j = if decide (j = i) then Some v else bit_test bm j.

Lemma bit_set_spec bm i : 0 ≤ i < 8 * Z.of_nat (length bm) →
  ∃ bm', bit_set bm i = Some bm' ∧ bits_become bm bm' i true.
Proof.
  intros Hi. unfold bit_set. destruct (idx_split i) as (-> & -> & ? & ?); [lia|].
  destruct (lookup_lt_is_Some_Z bm (i / 8)) as [b Hb]; [Z.div_mod_to_equations; lia|].
  rewrite Hb. simpl. eexists; split; [done|]. split_and!.
  - apply length_insert.
  - by apply bytes_ok_insert.
  - apply bit_update with b; [lia|done|]. intros m Hm. rewrite set_byte by lia.
    by case_bool_decide.
Qed.

Lemma bit_clear_spec bm i : 0 ≤ i < 8 * Z.of_nat (length bm) →
  ∃ bm', bit_clear bm i = Some bm' ∧ bits_become bm bm' i false.
Proof.
  intros Hi. unfold bit_clear. destruct (idx_split i) as (-> & -> & ? & ?); [lia|].
  destruct (lookup_lt_is_Some_Z bm (i / 8)) as [b Hb]; [Z.div_mod_to_equations; lia|].
  rewrite Hb. simpl. eexists; split; [done|]. split_and!.
  - apply length_insert.
  - by apply bytes_ok_insert.
  - apply bit_update with b; [lia|done|]. intros m Hm. rewrite clear_byte by lia.
    by case_bool_decide.
Qed.

(** ** The free set *)

(** The page indices below [n] whose bit is clear. *)
Definition free_bits (bm : list Z) (n : Z) : gset Z :=
  filter (λ i, bit_test bm i = Some false) (list_to_set (seqZ 0 n)).
Definition free_set (st : pmm_state) : gset Z := free_bits (bitmap st) (total_pages st).

Lemma elem_of_free_bits bm n i :
  i ∈ free_bits bm n ↔ 0 ≤ i < n ∧ bit_test bm i = Some false.
Proof.
  unfold free_bits. rewrite elem_of_filter, elem_of_list_to_set, elem_of_seqZ.
  rewrite Z.add_0_l. tauto.
Qed.

Lemma free_bits_clear bm bm' i n :
  bits_become bm bm' i false → 0 ≤ i < n → free_bits bm' n = {[i]} ∪ free_bits bm n.
Proof.
  intros (_ & _ & Hb) Hi. apply set_eq. intros j.
  rewrite elem_of_union, elem_of_singleton, !elem_of_free_bits. split.
  - intros [Hj Ht]. rewrite Hb in Ht by lia. case_decide; tauto.
  - intros [->|[Hj Ht]]; rewrite Hb by lia; case_decide; try done; split; done || lia.
Qed.

Lemma free_bits_set bm bm' i n :
  bits_become bm bm' i true → free_bits bm' n = free_bits bm n ∖ {[i]}.
Proof.
  intros (_ & _ & Hb). apply set_eq. intros j.
  rewrite elem_of_difference, elem_of_singleton, !elem_of_free_bits. split.
  - intros [Hj Ht]. rewrite Hb in Ht by lia. by case_decide.
  - intros [[Hj Ht] Hne]. rewrite Hb by lia. by rewrite decide_False by done.
Qed.

Lemma card_free_bits_le bm n : 0 ≤ n → card (free_bits bm n) ≤ n.
Proof.
  intros Hn. pose proof (card_seqZ 0 n Hn) as Hc.
  enough (card (free_bits bm n) ≤ card (list_to_set (seqZ 0 n) : gset Z)) by lia.
  apply card_mono. intros x. unfold free_bits. rewrite elem_of_filter. tauto.
Qed.

(** The run of pages [i, i + n). *)
Definition run (i n : Z) : gset Z := list_to_set (seqZ i n).

Lemma elem_of_run i n j : j ∈ run i n ↔ i ≤ j < i + n.
Proof. unfold run. by rewrite elem_of_list_to_set, elem_of_seqZ. Qed.

Lemma card_run i n : 0 ≤ n → card (run i n) = n.
Proof. apply card_seqZ. Qed.

Lemma run_cons i n : 0 ≤ n → run i (1 + n) = {[i]} ∪ run (i + 1) n.
Proof.
  intros Hn. apply set_eq. intros j.
  rewrite elem_of_union, elem_of_singleton, !elem_of_run. lia.
Qed.

(** A bitmap with room for [n] pages. *)
Definition bm_wf (n : Z) (bm : list Z) : Prop :=
  bytes_ok bm ∧ 0 ≤ n ≤ 8 * Z.of_nat (length bm) ∧ n < 2 ^ 64.

Lemma bits_become_wf n bm bm' i v : bits_become bm bm' i v → bm_wf n bm → bm_wf n bm'.
Proof. intros (Hl & Hb & _) (? & ? & ?). split; [by auto|]. by rewrite Hl. Qed.

Lemma free_loop_spec n bm i fuel :
  bm_wf n bm → 0 ≤ i → i + Z.of_nat fuel ≤ n →
  ∃ bm', free_loop bm (card (free_bits bm n)) i fuel = Some (bm', card (free_bits bm' n)) ∧
    bm_wf n bm' ∧ length bm' = length bm ∧
    free_bits bm' n = free_bits bm n ∪ run i (Z.of_nat fuel).
Proof.
  revert bm i. induction fuel as [|fuel IH]; intros bm i Hwf Hi Hn; simpl.
  { exists bm. split_and!; [done..|]. apply set_eq. intros j. rewrite elem_of_union, elem_of_run.
    split; [by left|]. intros [?|?]; [done|lia]. }
  pose proof Hwf as (_ & Hlen & Hmax).
  destruct (bit_test_total bm i) as [b Hb]; [lia|]. rewrite Hb. simpl.
  replace (Z.of_nat (S fuel)) with (1 + Z.of_nat fuel) by lia.
  rewrite run_cons by lia.
  destruct b.
  - destruct (bit_clear_spec bm i) as (bm1 & -> & Hbc); [lia|]. simpl.
    pose proof (free_bits_clear _ _ _ n Hbc ltac:(lia)) as Hf.
    assert (i ∉ free_bits bm n) as Hni by (rewrite elem_of_free_bits, Hb; naive_solver).
    assert (u64 (card (free_bits bm n) + 1) = card (free_bits bm1 n)) as ->.
    { pose proof (card_nonneg (free_bits bm n)). pose proof (card_free_bits_le bm1 n ltac:(lia)).
      rewrite Hf, card_add in * by done. rewrite u64_small by lia. lia. }
    destruct (IH bm1 (i + 1)) as (bm' & -> & ? & Hl & Hf'); [by eapply bits_become_wf|lia|lia|].
    exists bm'. split_and!; [done..| |].
    + rewrite Hl. apply Hbc.
    + rewrite Hf', Hf. set_solver.
  - destruct (IH bm (i + 1)) as (bm' & -> & ? & Hl & Hf'); [done|lia|lia|].
    exists bm'. split_and!; [done..|]. rewrite Hf'.
    assert (i ∈ free_bits bm n) by (apply elem_of_free_bits; split; [lia|done]). set_solver.
Qed.

Lemma reserve_loop_spec n bm i fuel :
  bm_wf n bm → 0 ≤ i → i + Z.of_nat fuel ≤ n →
  ∃ bm', reserve_loop bm (card (free_bits bm n)) i fuel = Some (bm', card (free_bits bm' n)) ∧
    bm_wf n bm' ∧ length bm' = length bm ∧
    free_bits bm' n = free_bits bm n ∖ run i (Z.of_nat fuel).
Proof.
  revert bm i. induction fuel as [|fuel IH]; intros bm i Hwf Hi Hn; simpl.
  { exists bm. split_and!; [done..|]. apply set_eq. intros j. rewrite elem_of_difference, elem_of_run.
    split; [|tauto]. intros; split; [done|lia]. }
  pose proof Hwf as (_ & Hlen & Hmax).
  destruct (bit_test_total bm i) as [b Hb]; [lia|]. rewrite Hb. simpl.
  replace (Z.of_nat (S fuel)) with (1 + Z.of_nat fuel) by lia.
  rewrite run_cons by lia.
  destruct b; simpl.
  - destruct (IH bm (i + 1)) as (bm' & -> & ? & Hl & Hf'); [done|lia|lia|].
    exists bm'. split_and!; [done..|]. rewrite Hf'.
    assert (i ∉ free_bits bm n) by (rewrite elem_of_free_bits, Hb; naive_solver). set_solver.
  - destruct (bit_set_spec bm i) as (bm1 & -> & Hbs); [lia|]. simpl.
    pose proof (free_bits_set _ _ _ n Hbs) as Hf.
    assert (i ∈ free_bits bm n) as Hin by (apply elem_of_free_bits; split; [lia|done]).
    assert ((if card (free_bits bm n) =? 0 then card (free_bits bm n)
             else card (free_bits bm n) - 1) = card (free_bits bm1 n)) as ->.
    { pose proof (card_pos _ _ Hin). destruct (Z.eqb_spec (card (free_bits bm n)) 0); [lia|].
      rewrite Hf, card_difference, card_singleton by set_solver. lia. }
    destruct (IH bm1 (i + 1)) as (bm' & -> & ? & Hl & Hf'); [by eapply bits_become_wf|lia|lia|].
    exists bm'. split_and!; [done..| |].
    + rewrite Hl. apply Hbs.
    + rewrite Hf', Hf. set_solver.
Qed.

(** ** Well-formed manager states *)

(** The physical address of page [i]. *)
Definition page_pa (st : pmm_state) (i : Z) : Z := base_pa st + i * PAGE_SIZE.

Definition in_metadata (st : pmm_state) (pa : Z) : Prop :=
  meta_base_pa st ≤ pa < meta_base_pa st + meta_pages st * PAGE_SIZE.

(** The shape of the state: the window is page aligned and inside the direct
    map, and the bitmap has a bit for each of its pages. *)
Record pmm_shape (st : pmm_state) : Prop := {
  sh_base : page_aligned (base_pa st);
  sh_limit : page_aligned (limit_pa st);
  sh_window : CAPAZ_RAM_BASE ≤ base_pa st ∧ base_pa st < limit_pa st ∧ limit_pa st ≤ WIN_END;
  sh_total : total_pages st * PAGE_SIZE = limit_pa st - base_pa st;
  sh_va : bitmap_va st ≠ 0;
  sh_bm : bm_wf (total_pages st) (bitmap st);
  sh_free : free_pages st = card (free_set st);
  sh_hint : 0 ≤ next_hint st ≤ total_pages st;
  sh_meta : page_aligned (meta_base_pa st) ∧ CAPAZ_RAM_BASE ≤ meta_base_pa st ∧
            meta_pages st = PMM_METADATA_PAGES ∧
            meta_base_pa st + meta_pages st * PAGE_SIZE ≤ WIN_END;
}.

(** The invariant of the initialized manager: its own metadata is never free. *)
Definition pmm_wf (st : pmm_state) : Prop :=
  pmm_shape st ∧ ∀ i, i ∈ free_set st → ¬ in_metadata st (page_pa st i).

(** Two states that differ in the bitmap, the counter and the hint only. *)
Definition same_window (st st' : pmm_state) : Prop :=
  base_pa st' = base_pa st ∧ limit_pa st' = limit_pa st ∧
  total_pages st' = total_pages st ∧ meta_base_pa st' = meta_base_pa st ∧
  meta_pages st' = meta_pages st.

#[global] Instance same_window_preorder : PreOrder same_window.
Proof. split; [done|]. intros x y z (?&?&?&?&?) (?&?&?&?&?). repeat split; congruence. Qed.

Lemma same_window_pa st st' i : same_window st st' → page_pa st' i = page_pa st i.
Proof. intros (Hb & _). unfold page_pa. by rewrite Hb. Qed.

Lemma shape_bounds st : pmm_shape st →
  0x40000000 ≤ base_pa st < 0x80000000 ∧ 0x40000000 < limit_pa st ≤ 0x80000000 ∧
  0 < total_pages st ≤ 262144 ∧ limit_pa st = base_pa st + total_pages st * 4096.
Proof.
  intros []. rewrite WIN_END_eq in *. unfold CAPAZ_RAM_BASE, PAGE_SIZE in *. lia.
Qed.

Lemma shape_with_bits st bm : pmm_shape st → bm_wf (total_pages st) bm →
  length bm = length (bitmap st) →
  pmm_shape (with_bits st bm (card (free_bits bm (total_pages st)))).
Proof. intros [] Hbm Hl. by split. Qed.

Lemma shape_with_hint st h : pmm_shape st → 0 ≤ h ≤ total_pages st → pmm_shape (with_hint st h).
Proof. intros [] Hh. by split. Qed.

Lemma wf_shrink st st' : pmm_wf st → pmm_shape st' → same_window st st' →
  free_set st' ⊆ free_set st → pmm_wf st'.
Proof.
  intros [_ Hm] Hs Hw Hsub. split; [done|]. intros i Hi.
  rewrite (same_window_pa st st') by done. destruct Hw as (_&_&_&Hb&Hp).
  unfold in_metadata. rewrite Hb, Hp. by apply Hm, Hsub.
Qed.

Lemma clip_pages_spec st s e : pmm_shape st → page_aligned s → page_aligned e →
  match clip_pages st s e with
  | None => ∀ i, 0 ≤ i < total_pages st → ¬ (s ≤ page_pa st i < e)
  | Some (f, l) => 0 ≤ f ≤ l ∧ l ≤ total_pages st ∧
      ∀ i, 0 ≤ i < total_pages st → (f ≤ i < l ↔ s ≤ page_pa st i < e)
  end.
Proof.
  intros Hsh Hs He. destruct (shape_bounds st Hsh) as (Hb & Hl & Ht & Heq).
  pose proof (sh_base st Hsh) as Hba. pose proof (sh_limit st Hsh) as Hla.
  unfold clip_pages, page_pa.
  destruct (Z.leb_spec e s); [intros; lia|].
  set (s1 := if s <? base_pa st then base_pa st else s).
  set (e1 := if limit_pa st <? e then limit_pa st else e).
  assert (page_aligned s1 ∧ s1 = Z.max s (base_pa st)) as [Hs1 Es1].
  { unfold s1. case_if; bool_simpl; split; try done; lia. }
  assert (page_aligned e1 ∧ e1 = Z.min e (limit_pa st)) as [He1 Ee1].
  { unfold e1. case_if; bool_simpl; split; try done; lia. }
  clearbody s1 e1. unfold PAGE_SIZE.
  destruct (Z.leb_spec e1 s1); [intros; lia|].
  rewrite !u64_small by lia.
  unfold page_aligned, PAGE_SIZE in *.
  assert (s1 - base_pa st = 4096 * ((s1 - base_pa st) / 4096)) as Ds by (Z.div_mod_to_equations; lia).
  assert (e1 - base_pa st = 4096 * ((e1 - base_pa st) / 4096)) as De by (Z.div_mod_to_equations; lia).
  set (f := (s1 - base_pa st) / 4096) in *. set (l := (e1 - base_pa st) / 4096) in *.
  clearbody f l. split_and!; try lia.
Qed.

Lemma mark_range_free_spec st s e : pmm_shape st →
  ∃ st', bitmap_mark_range_free st s e = Some st' ∧ pmm_shape st' ∧ same_window st st' ∧
    ∀ i, i ∈ free_set st' ↔ i ∈ free_set st ∨
      (0 ≤ i < total_pages st ∧ align_up_4k s ≤ page_pa st i < align_down_4k e).
Proof.
  intros Hsh. unfold bitmap_mark_range_free.
  destruct (Z.eqb_spec (bitmap_va st) 0) as [E|_]; [by apply sh_va in E|].
  pose proof (clip_pages_spec st (align_up_4k s) (align_down_4k e) Hsh
    ltac:(auto with capaz) ltac:(auto with capaz)) as Hc.
  destruct (clip_pages _ _ _) as [[f l]|].
  - destruct Hc as (Hf & Hl & Hc).
    rewrite (sh_free st Hsh). unfold free_set.
    destruct (free_loop_spec (total_pages st) (bitmap st) f (Z.to_nat (l - f)))
      as (bm' & -> & Hwf & Hlen & Hfree); [by apply sh_bm|lia|lia|].
    simpl. eexists; split_and!; [done|by apply shape_with_bits|done|].
    intros i. simpl. rewrite Hfree, elem_of_union, elem_of_run.
    destruct (decide (0 ≤ i < total_pages st)) as [Hi|Hi].
    + rewrite <- Hc by done. rewrite Z2Nat.id by lia. replace (f + (l - f)) with l by lia. tauto.
    + split; [|tauto]. intros [?|?]; [by left|lia].
  - exists st. split_and!; [done..|]. intros i. split; [tauto|].
    intros [?|[Hi ?]]; [done|]. by destruct (Hc i Hi).
Qed.

Lemma mark_range_reserved_spec st s e : pmm_shape st →
  ∃ st', bitmap_mark_range_reserved st s e = Some st' ∧ pmm_shape st' ∧ same_window st st' ∧
    ∀ i, i ∈ free_set st' ↔ i ∈ free_set st ∧ ¬ (align_down_4k s ≤ page_pa st i < align_up_4k e).
Proof.
  intros Hsh. unfold bitmap_mark_range_reserved.
  destruct (Z.eqb_spec (bitmap_va st) 0) as [E|_]; [by apply sh_va in E|].
  pose proof (clip_pages_spec st (align_down_4k s) (align_up_4k e) Hsh
    ltac:(auto with capaz) ltac:(auto with capaz)) as Hc.
  destruct (clip_pages _ _ _) as [[f l]|].
  - destruct Hc as (Hf & Hl & Hc).
    rewrite (sh_free st Hsh). unfold free_set.
    destruct (reserve_loop_spec (total_pages st) (bitmap st) f (Z.to_nat (l - f)))
      as (bm' & -> & Hwf & Hlen & Hfree); [by apply sh_bm|lia|lia|].
    simpl. eexists; split_and!; [done|by apply shape_with_bits|done|].
    intros i. simpl. rewrite Hfree, elem_of_difference, elem_of_run.
    rewrite Z2Nat.id by lia. replace (f + (l - f)) with l by lia.
    split; intros [Hi Hn]; (split; [done|]); apply elem_of_free_bits in Hi as [Hi _].
    + by rewrite <- Hc.
    + by rewrite Hc.
  - exists st. split_and!; [done..|]. intros i. split; [|tauto].
    intros Hi. split; [done|]. apply Hc. by apply elem_of_free_bits in Hi as [Hi _].
Qed.

Lemma mark_usable_spec l st : pmm_shape st → Forall range_aligned l →
  ∃ st', mark_usable st l = Some st' ∧ pmm_shape st' ∧ same_window st st' ∧
    ∀ i, i ∈ free_set st' ↔ i ∈ free_set st ∨
      (0 ≤ i < total_pages st ∧ covered l (page_pa st i)).
Proof.
  revert st. induction l as [|r l IH]; intros st Hsh Hl; simpl.
  { exists st. split_and!; [done..|]. intros i. rewrite covered_nil. tauto. }
  apply Forall_cons_1 in Hl as [[(?&?&?) [Ha Hb]] Hl].
  destruct (mark_range_free_spec st (base r) (u64 (base r + size r)) Hsh)
    as (st1 & -> & Hsh1 & Hw1 & Hf1). simpl.
  destruct (IH st1 Hsh1 Hl) as (st' & -> & Hsh' & Hw' & Hf').
  exists st'. split_and!; [done..|by etrans|]. intros i.
  rewrite Hf', Hf1, covered_cons, (same_window_pa st st1) by done.
  pose proof Hw1 as (_&_&->&_).
  rewrite u64_small by lia. rewrite align_down_4k_id by (done || lia).
  assert (base r ≤ 2 ^ 64 - PAGE_SIZE) by page_arith.
  rewrite align_up_4k_id by (done || lia). unfold covers. tauto.
Qed.

(** ** Initialization establishes the invariant *)

Definition win_range (r : dtb_range) : Prop :=
  range_norm r ∧ range_aligned r ∧ CAPAZ_RAM_BASE ≤ base r ∧ base r + size r ≤ WIN_END.
Definition good_window (w : Z * Z) : Prop :=
  page_aligned w.1 ∧ page_aligned w.2 ∧ CAPAZ_RAM_BASE ≤ w.1 ∧ w.1 < w.2 ∧ w.2 ≤ WIN_END.

Lemma window_step_spec w r : win_range r → w = (0, 0) ∨ good_window w →
  good_window (window_step w r) ∧
  (window_step w r).1 ≤ base r ∧ base r + size r ≤ (window_step w r).2 ∧
  (good_window w → (window_step w r).1 ≤ w.1 ∧ w.2 ≤ (window_step w r).2).
Proof.
  intros ([(?&?&?) ?] & [_ [Ha Hb]] & Hlo & Hhi) Hw. rewrite WIN_END_eq in Hhi.
  unfold window_step, good_window, CAPAZ_RAM_BASE in *. rewrite WIN_END_eq in *.
  rewrite align_up_4k_id by (done || unfold PAGE_SIZE; lia).
  rewrite u64_small by lia. rewrite align_down_4k_id by (done || lia).
  destruct (Z.leb_spec (base r + size r) (base r)); [lia|].
  destruct w as [wb we]. simpl in *.
  destruct Hw as [[= -> ->]|(?&?&?&?&?)].
  - simpl. destruct (Z.ltb_spec 0 (base r + size r)); [|lia]. split_and!; try done; lia.
  - destruct (Z.eqb_spec wb 0); [lia|]. simpl.
    destruct (Z.ltb_spec (base r) wb), (Z.ltb_spec we (base r + size r)); split_and!; try done; lia.
Qed.

Lemma window_fold_spec l w : Forall win_range l → (w = (0, 0) ∧ l ≠ []) ∨ good_window w →
  let w' := foldl window_step w l in
  good_window w' ∧ (∀ r, r ∈ l → w'.1 ≤ base r ∧ base r + size r ≤ w'.2) ∧
  (good_window w → w'.1 ≤ w.1 ∧ w.2 ≤ w'.2).
Proof.
  revert w. induction l as [|r l IH]; intros w Hl Hw; simpl.
  { destruct Hw as [[_ ?]|Hw]; [done|]. split_and!; [done| |lia]. by intros r ?%elem_of_nil. }
  apply Forall_cons_1 in Hl as [Hr Hl].
  destruct (window_step_spec w r Hr) as (Hg & H1 & H2 & Hmono); [tauto|].
  destruct (IH (window_step w r) Hl) as (Hg' & Hin & Hm'); [by right|].
  specialize (Hm' Hg). split_and!; [done| |].
  - intros r' [->|?]%elem_of_cons; [lia|by apply Hin].
  - intros Hgw. specialize (Hmono Hgw). lia.
Qed.

Lemma usable_win_range d rte bi out :
  (∀ x, covered out x ↔ usable_spec d rte bi x) →
  Forall range_norm out → Forall range_aligned out → Forall win_range out.
Proof.
  intros Hc Hn Ha. rewrite !Forall_forall in *. intros r Hr.
  destruct (Hn r Hr) as [(?&?&?) Hs]. split_and!; [by auto..| |].
  - assert (usable_spec d rte bi (base r)) as [[? _] _]; [|done].
    apply Hc, Exists_exists. exists r. split; [done|]. unfold covers. lia.
  - assert (usable_spec d rte bi (base r + size r - 1)) as [[_ ?] _]; [|lia].
    apply Hc, Exists_exists. exists r. split; [done|]. unfold covers. lia.
Qed.

Lemma bit_test_replicate n i : 0 ≤ i < 8 * Z.of_nat n → bit_test (replicate n 0xFF) i = Some true.
Proof.
  intros Hi. rewrite bit_test_eq by lia.
  rewrite lookup_replicate_2 by (Z.div_mod_to_equations; lia). simpl. f_equal.
  assert (0 ≤ i mod 8 < 8) as Hm by (Z.div_mod_to_equations; lia).
  change 255 with (Z.ones 8). rewrite Z.ones_spec_low; [done|lia].
Qed.

Lemma fresh_state_spec b l mb :
  good_window (b, l) → page_aligned mb → CAPAZ_RAM_BASE ≤ mb →
  mb + PMM_METADATA_PAGES * PAGE_SIZE ≤ WIN_END →
  let st := bitmap_mark_all_reserved (pmm_fresh_state b l mb []) in
  pmm_shape st ∧ base_pa st = b ∧ limit_pa st = l ∧ meta_base_pa st = mb ∧
  bitmap_bytes (pmm_fresh_state b l mb []) ≤ 32768 ∧ free_set st = ∅.
Proof.
  intros (Hb & Hl & H1 & H2 & H3) Hmb Hm1 Hm2. simpl in *.
  assert (∃ v, bitmap_va (pmm_fresh_state b l mb []) = v ∧ v ≠ 0) as (v & Ev & Hv).
  { eexists; split; [done|]. simpl. rewrite WIN_END_eq in *.
    rewrite phys_to_hh_virt_eq by (rewrite WIN_END_eq; unfold PMM_METADATA_PAGES, PAGE_SIZE in *; lia).
    change (Z.land _ _) with 72. unfold CAPAZ_HH_BASE, CAPAZ_RAM_BASE, PMM_METADATA_PAGES, PAGE_SIZE in *.
    rewrite u64_small by lia. lia. }
  unfold bitmap_mark_all_reserved. rewrite Ev. destruct (Z.eqb_spec v 0) as [|_]; [done|].
  unfold with_bits, pmm_fresh_state in *; simpl in *. clear Ev.
  rewrite WIN_END_eq in *. unfold CAPAZ_RAM_BASE in *.
  rewrite (u64_small (l - b)) by lia.
  assert ((l - b) / PAGE_SIZE * PAGE_SIZE = l - b) as Ht by page_arith.
  set (n := (l - b) / PAGE_SIZE) in *.
  assert (0 < n ≤ 262144) by (unfold PAGE_SIZE in Ht; lia).
  rewrite (u64_small (n + 7)) by lia.
  set (k := (n + 7) / 8) in *.
  assert (n ≤ 8 * k ∧ 0 ≤ k ≤ 32768) as [Hk Hk2] by (unfold k; Z.div_mod_to_equations; lia).
  clearbody k. assert (free_bits (replicate (Z.to_nat k) 255) n = ∅) as Hfe.
  { apply set_eq. intros i. rewrite elem_of_free_bits. split; [|set_solver].
    intros [Hi Ht']. rewrite bit_test_replicate in Ht' by lia. done. }
  split_and!; [|done|done|done|lia|done].
  split; simpl; rewrite ?WIN_END_eq; unfold CAPAZ_RAM_BASE in *; try done; try lia.
  - change (Z.land _ _) with 72.
    rewrite phys_to_hh_virt_eq by (rewrite WIN_END_eq; unfold CAPAZ_RAM_BASE, PMM_METADATA_PAGES, PAGE_SIZE in *; lia).
    unfold CAPAZ_HH_BASE, PMM_METADATA_PAGES, PAGE_SIZE in *. rewrite u64_small by lia. lia.
  - split; [apply Forall_replicate; lia|]. rewrite length_replicate. lia.
  - unfold free_set; simpl. rewrite Hfe. done.
Qed.

Lemma reserve_noop st s e : pmm_shape st →
  (∀ i, i ∈ free_set st → align_down_4k s ≤ page_pa st i → align_up_4k e ≤ page_pa st i) →
  ∃ st', bitmap_mark_range_reserved st s e = Some st' ∧ pmm_shape st' ∧ same_window st st' ∧
    free_set st' = free_set st.
Proof.
  intros Hsh Hn. destruct (mark_range_reserved_spec st s e Hsh) as (st' & -> & ? & ? & Hf).
  exists st'. split_and!; [done..|]. apply set_eq. intros i. rewrite Hf. split; [tauto|].
  intros Hi. split; [done|]. specialize (Hn i Hi). lia.
Qed.

Lemma page_start_aligned x : page_aligned x → page_start x = x.
Proof. unfold page_start. intros. page_arith. Qed.

Lemma page_pa_aligned st i : pmm_shape st → page_aligned (page_pa st i).
Proof. intros []. unfold page_pa. page_arith. Qed.

(** What an aligned usable page is above and outside of. *)
Lemma usable_page_bounds d rte bi x :
  boot_wf d rte bi → usable_spec d rte bi x → page_aligned x →
  align_up_4k (kernel_phys_base bi) ≤ x ∧ align_up_4k (hh_virt_to_phys rte) ≤ x ∧
  align_up_4k (hh_virt_to_phys rte) + PMM_METADATA_PAGES * PAGE_SIZE ≤ x ∧
  (dtb_ptr bi ≠ 0 → align_down_4k (hh_virt_to_phys (dtb_ptr bi)) ≤ x →
   align_up_4k (u64 (hh_virt_to_phys (dtb_ptr bi) + dtb_blob_size d bi)) ≤ x).
Proof.
  intros (Hk & Hr & Hd) ((Hw & Hw2) & _ & _ & Hb & Hkr & Hm & Hdt) Hx.
  pose proof (page_start_aligned x Hx) as Hps.
  unfold page_touches in *; simpl in *. rewrite Hps in *.
  unfold CAPAZ_RAM_BASE, PAGE_SIZE in *.
  assert (kernel_phys_base bi ≤ x) by lia. assert (hh_virt_to_phys rte ≤ x) by lia.
  assert (align_up_4k (hh_virt_to_phys rte) ≤ x) as Hup.
  { apply align_up_le_page; [unfold PAGE_SIZE; lia|]. by rewrite Hps. }
  split_and!; [|done|lia|].
  - apply align_up_le_page; [unfold PAGE_SIZE; lia|]. by rewrite Hps.
  - intros Hp Hlo. specialize (Hd Hp) as (?&?&?); simpl in *. unfold PAGE_SIZE in *.
    specialize (Hdt Hp). rewrite u64_small by lia.
    apply align_up_le_page; [unfold PAGE_SIZE; lia|]. rewrite Hps.
    apply align_down_le_page in Hlo; [|lia]. rewrite Hps in Hlo. unfold PAGE_SIZE in Hlo. lia.
Qed.

Lemma reserve_implicit_spec d rte bi st :
  let mb := align_up_4k (hh_virt_to_phys rte) in
  pmm_shape st → boot_wf d rte bi →
  mb + PMM_METADATA_PAGES * PAGE_SIZE ≤ WIN_END →
  (∀ i, i ∈ free_set st → usable_spec d rte bi (page_pa st i)) →
  ∃ st', reserve_implicit d (hh_virt_to_phys rte) mb
           (mb + PMM_METADATA_PAGES * PAGE_SIZE) bi st = Some st' ∧
    pmm_shape st' ∧ same_window st st' ∧ free_set st' = free_set st.
Proof.
  intros mb Hsh Hb Hme Hu. unfold reserve_implicit.
  assert (∀ st' s e, pmm_shape st' → same_window st st' → free_set st' = free_set st →
    (∀ x, usable_spec d rte bi x → page_aligned x → align_down_4k s ≤ x → align_up_4k e ≤ x) →
    ∃ st'', bitmap_mark_range_reserved st' s e = Some st'' ∧
      pmm_shape st'' ∧ same_window st st'' ∧ free_set st'' = free_set st) as step.
  { intros st' s e Hs' Hw' Hf' Hx. destruct (reserve_noop st' s e Hs') as (st'' & -> & ? & ? & ?).
    - intros i Hi. rewrite (same_window_pa st st') by done. apply Hx; [|by apply page_pa_aligned].
      apply Hu. by rewrite <- Hf'.
    - exists st''. split_and!; [done..|by etrans|congruence]. }
  pose proof (usable_page_bounds d rte bi) as HB.
  assert (0 ≤ mb ≤ 2 ^ 64 - PAGE_SIZE) as Hmb.
  { destruct Hb as (? & ? & _). destruct (align_up_4k_spec (hh_virt_to_phys rte)) as [_ ?];
      unfold PAGE_SIZE in *; unfold mb; lia. }
  destruct (step st (lowest_ram d) (kernel_phys_base bi)) as (st1 & -> & Hs1 & Hw1 & Hf1); [done..| |].
  { intros x Hx Ha _. by apply HB. }
  simpl. destruct (step st1 (kernel_phys_base bi) (align_up_4k (hh_virt_to_phys rte)))
    as (st2 & -> & Hs2 & Hw2 & Hf2); [done..| |].
  { intros x Hx Ha _. rewrite align_up_4k_id by auto with capaz. by apply HB. }
  simpl.
  assert (∃ st3, (if dtb_ptr bi =? 0 then Some st2
    else if dtb_blob_size d bi =? 0 then Some st2
    else bitmap_mark_range_reserved st2 (align_down_4k (hh_virt_to_phys (dtb_ptr bi)))
      (align_up_4k (u64 (hh_virt_to_phys (dtb_ptr bi) + dtb_blob_size d bi)))) = Some st3 ∧
    pmm_shape st3 ∧ same_window st st3 ∧ free_set st3 = free_set st) as (st3 & -> & Hs3 & Hw3 & Hf3).
  { destruct (Z.eqb_spec (dtb_ptr bi) 0) as [|Hp]; [by eauto|]. case_if; [by eauto|].
    apply step; [done..|]. intros x Hx Ha. pose proof Hb as (_ & _ & Hd).
    destruct (Hd Hp) as (?&?&?); simpl in *. unfold PAGE_SIZE in *.
    rewrite align_down_4k_idem, align_up_4k_idem by (rewrite u64_small; unfold PAGE_SIZE; lia).
    intros Hlo. by apply HB. }
  simpl. apply step; [done..|]. intros x Hx Ha _.
  rewrite align_up_4k_id; [by apply HB| |].
  - rewrite WIN_END_eq in Hme. unfold PMM_METADATA_PAGES, PAGE_SIZE in *. lia.
  - pose proof (align_up_4k_aligned (hh_virt_to_phys rte)). unfold PMM_METADATA_PAGES.
    fold mb in H. page_arith.
Qed.

(** The watermarks bound every state seen so far. *)
Definition pressure_ok (st : pmm_state) (g : pmm_globals) : Prop :=
  total_pages st - free_pages st ≤ g_pmm_peak_used_pages g ∧
  g_pmm_low_free_pages g ≤ free_pages st.

Lemma pressure_update st g : pmm_shape st → pressure_ok st (pmm_update_pressure st g).
Proof.
  intros Hsh. destruct (shape_bounds st Hsh) as (_ & _ & Ht & _).
  pose proof (sh_free st Hsh) as Hf.
  pose proof (card_nonneg (free_set st)). pose proof (card_free_bits_le (bitmap st) (total_pages st) ltac:(lia)).
  unfold pressure_ok, pmm_update_pressure; simpl. unfold free_set in *. rewrite u64_small by lia.
  split; case_if; bool_simpl; lia.
Qed.

(** What a successful initialization leaves in the globals: the manager, with
    the usable pages free, and the watermarks of [pmm_update_pressure]. *)
Definition pmm_init_post (d : dtb_results) (rte : Z) (bi : boot_info) (g : pmm_globals) : Prop :=
  ∃ st, g_pmm g = Some st ∧ pmm_wf st ∧ pressure_ok st g ∧
    (∀ i, 0 ≤ i < total_pages st →
      (i ∈ free_set st ↔ usable_spec d rte bi (page_pa st i))) ∧
    ∀ x, usable_spec d rte bi x → base_pa st ≤ x < limit_pa st.

(** The bitmap phase of [pmm_init], from the window to the final state. *)
Lemma init_bitmap_spec d rte bi usable b l :
  let mb := align_up_4k (hh_virt_to_phys rte) in
  boot_wf d rte bi → CAPAZ_RAM_BASE ≤ mb → mb + PMM_METADATA_PAGES * PAGE_SIZE ≤ WIN_END →
  good_window (b, l) → Forall range_aligned usable →
  (∀ x, covered usable x ↔ usable_spec d rte bi x) →
  ∃ st st', mark_usable (bitmap_mark_all_reserved (pmm_fresh_state b l mb [])) usable = Some st ∧
    reserve_implicit d (hh_virt_to_phys rte) mb (mb + PMM_METADATA_PAGES * PAGE_SIZE) bi st
      = Some st' ∧
    pmm_wf st' ∧ base_pa st' = b ∧ limit_pa st' = l ∧
    ∀ i, 0 ≤ i < total_pages st' → (i ∈ free_set st' ↔ usable_spec d rte bi (page_pa st' i)).
Proof.
  intros mb Hb Hm1 Hm2 Hgw Ha Hc.
  destruct (fresh_state_spec b l mb) as (Hs0 & Hb0 & Hl0 & Hmb0 & _ & Hf0);
    [done|unfold mb; auto with capaz|done|done|].
  set (st0 := bitmap_mark_all_reserved _) in *.
  destruct (mark_usable_spec usable st0 Hs0 Ha) as (st & -> & Hs & Hw & Hf).
  assert (∀ i, i ∈ free_set st ↔ 0 ≤ i < total_pages st ∧ usable_spec d rte bi (page_pa st i)) as Hf'.
  { intros i. rewrite Hf, Hf0, Hc, (same_window_pa st0 st) by done.
    pose proof Hw as (_&_&->&_). split; [|by right].
    intros [?%elem_of_empty|?]; [done|done]. }
  destruct (reserve_implicit_spec d rte bi st Hs Hb Hm2) as (st' & Hr & Hs' & Hw' & Hfe).
  { intros i Hi. by apply Hf'. }
  exists st, st'. pose proof Hw as (Eb&El&Et&Em&Ep). pose proof Hw' as (Eb'&El'&Et'&Em'&Ep').
  split_and!; [done|done| |congruence|congruence|].
  - split; [done|]. intros i Hi. rewrite Hfe in Hi. apply Hf' in Hi as [Hi Hu].
    rewrite (same_window_pa st st') by done. unfold in_metadata.
    pose proof (sh_meta st' Hs') as (_ & _ & -> & _).
    apply usable_page_bounds in Hu; [|done|by apply page_pa_aligned].
    rewrite Em', Em, Hmb0. fold mb in Hu. lia.
  - intros i Hi. rewrite Hfe, Hf', (same_window_pa st st') by done. rewrite Et' in Hi. tauto.
Qed.

Lemma pmm_init_correct d rte bi c g :
  let mb := align_up_4k (hh_virt_to_phys rte) in
  dtb_wf d → boot_wf d rte bi →
  (length (g_mem_ranges d) + length (g_rsv_ranges d) + 4 ≤ 64)%nat →
  (∃ x, usable_spec d rte bi x) →
  CAPAZ_RAM_BASE ≤ mb → mb + PMM_METADATA_PAGES * PAGE_SIZE ≤ WIN_END →
  wp (pmm_init d rte (Some bi)) (λ _ c' g', c' = c ∧ pmm_init_post d rte bi g') c g.
Proof.
  intros mb Hd Hb Hcap [x0 Hx0] Hm1 Hm2. unfold pmm_init.
  destruct (usable_ranges_correct d rte bi 64 Hd Hb Hcap) as (usable & -> & Hc & Hn & Ha & _).
  destruct usable as [|u us]; [by apply Hc, covered_nil in Hx0|].
  pose proof (usable_win_range _ _ _ _ Hc Hn Ha) as Hwr.
  set (usable := u :: us) in *.
  destruct (window_fold_spec usable (0, 0) Hwr) as (Hg & Hin & _); [by left|].
  destruct (foldl window_step (0, 0) usable) as [b l]. destruct Hg as (Hba & Hla & Hb1 & Hbl & Hl1).
  cbn [fst snd] in *. rewrite WIN_END_eq in *. unfold CAPAZ_RAM_BASE in Hb1.
  destruct (Z.eqb_spec b 0); [lia|]. destruct (Z.leb_spec l b); [lia|]. cbn [orb].
  destruct (Z.ltb_spec b CAPAZ_RAM_BASE); [unfold CAPAZ_RAM_BASE in *; lia|].
  destruct (Z.ltb_spec 0x80000000 l); [lia|].
  rewrite align_up_4k_id by (done || unfold PAGE_SIZE; lia).
  rewrite align_down_4k_id by (done || lia).
  destruct (Z.leb_spec l b); [lia|].
  fold mb. change (u64 (PMM_METADATA_PAGES * PAGE_SIZE)) with (PMM_METADATA_PAGES * PAGE_SIZE).
  rewrite (u64_small (mb + _)) by (unfold CAPAZ_RAM_BASE, PMM_METADATA_PAGES, PAGE_SIZE in *; lia).
  destruct (Z.ltb_spec mb CAPAZ_RAM_BASE); [lia|].
  destruct (Z.ltb_spec 0x80000000 (mb + PMM_METADATA_PAGES * PAGE_SIZE)); [lia|]. cbn [orb].
  assert (good_window (b, l)) as Hgw.
  { split_and!; cbn [fst snd]; rewrite ?WIN_END_eq; done. }
  destruct (fresh_state_spec b l mb) as (_ & _ & _ & _ & Hbb & _);
    [done|unfold mb; auto with capaz|done|by rewrite WIN_END_eq|].
  rewrite (proj2 (Z.ltb_ge _ _)); last first.
  { pose proof (u64_range (u64 (l - b) / PAGE_SIZE + 7)) as Hr.
    change (Z.land _ _) with 72. unfold pmm_fresh_state in *; cbn [bitmap_bytes] in *.
    rewrite u64_small by (Z.div_mod_to_equations; lia). unfold PMM_METADATA_PAGES, PAGE_SIZE in *. lia. }
  destruct (init_bitmap_spec d rte bi usable b l) as (st & st' & Hu & Hr & Hwf & Eb & El & Hf);
    [done|done|by rewrite WIN_END_eq|done|done|done|].
  fold mb in Hu, Hr. rewrite Hu. wp_steps. rewrite Hr. wp_steps. split; [done|]. exists st'.
  split_and!; [done|done|apply pressure_update, Hwf|done|]. rewrite Eb, El. intros x Hx. apply Hc in Hx.
  unfold covered in Hx. apply Exists_exists in Hx as (r & Hr' & Hx). apply Hin in Hr'.
  unfold covers in Hx. lia.
Qed.

(** ** Searching and committing a run *)

Lemma run_succ_subseteq i n (X : gset Z) : 0 ≤ n →
  run i (1 + n) ⊆ X ↔ i ∈ X ∧ run (i + 1) n ⊆ X.
Proof. intros Hn. rewrite run_cons by done. set_solver. Qed.

Lemma run_zero_subseteq i (X : gset Z) : run i 0 ⊆ X.
Proof. intros j. rewrite elem_of_run. lia. Qed.

Lemma check_run_spec n bm i j fuel :
  bm_wf n bm → 0 ≤ i → 0 ≤ j → i + j + Z.of_nat fuel ≤ n →
  ∃ b : bool, check_run bm i j fuel = Some b ∧
    (b ↔ run (i + j) (Z.of_nat fuel) ⊆ free_bits bm n).
Proof.
  intros Hwf Hi. revert j. induction fuel as [|fuel IH]; intros j Hj Hn; simpl check_run.
  { exists true. split; [done|]. split; [intros _; apply run_zero_subseteq|done]. }
  pose proof Hwf as (_ & ? & ?). rewrite u64_small by lia.
  destruct (bit_test_total bm (i + j)) as [b Hb]; [lia|]. rewrite Hb. simpl.
  replace (Z.of_nat (S fuel)) with (1 + Z.of_nat fuel) by lia.
  pose proof (run_succ_subseteq (i + j) (Z.of_nat fuel) (free_bits bm n) ltac:(lia)) as Hrun.
  rewrite elem_of_free_bits, Hb in Hrun.
  destruct b.
  - exists false. split; [done|]. rewrite Hrun. split; [done|]. intros [[_ ?] _]. congruence.
  - destruct (IH (j + 1)) as (b & -> & Hiff); [lia|lia|]. exists b. split; [done|].
    rewrite Hiff, Hrun, Z.add_assoc. split; [|tauto]. intros; split; [|done]. split; [lia|done].
Qed.

Lemma commit_run_spec n bm i j fuel :
  bm_wf n bm → 0 ≤ i → 0 ≤ j → i + j + Z.of_nat fuel ≤ n →
  ∃ bm', commit_run bm i j fuel = Some bm' ∧ bm_wf n bm' ∧ length bm' = length bm ∧
    free_bits bm' n = free_bits bm n ∖ run (i + j) (Z.of_nat fuel).
Proof.
  intros Hwf Hi. revert bm j Hwf. induction fuel as [|fuel IH]; intros bm j Hwf Hj Hn; simpl commit_run.
  { exists bm. split_and!; [done..|]. apply set_eq. intros k.
    rewrite elem_of_difference, elem_of_run. split; [|tauto]. intros; split; [done|lia]. }
  pose proof Hwf as (_ & ? & ?). rewrite u64_small by lia.
  destruct (bit_set_spec bm (i + j)) as (bm1 & -> & Hbs); [lia|]. simpl.
  destruct (IH bm1 (j + 1)) as (bm' & -> & ? & Hl & Hf); [by eapply bits_become_wf|lia|lia|].
  exists bm'. split_and!; [done..| |].
  - rewrite Hl. apply Hbs.
  - replace (Z.of_nat (S fuel)) with (1 + Z.of_nat fuel) by lia.
    rewrite run_cons, Hf, (free_bits_set _ _ _ n Hbs), Z.add_assoc by lia. set_solver.
Qed.

Lemma scan_spec n bm count i i1 fuel :
  bm_wf n bm → 0 ≤ i → i1 ≤ n → 1 ≤ count ≤ n → n ≤ 2 ^ 62 → i ≤ n → i1 - i ≤ Z.of_nat fuel →
  ∃ r, scan bm count i i1 fuel = Some r ∧
    match r with
    | Some k => i ≤ k ∧ k + count ≤ i1 ∧ run k count ⊆ free_bits bm n
    | None => ∀ k, i ≤ k → k + count ≤ i1 → ¬ run k count ⊆ free_bits bm n
    end.
Proof.
  intros Hwf Hi Hi1 Hc Hn. revert i Hi. induction fuel as [|fuel IH]; intros i Hi Hin Hf; simpl.
  { exists None. split; [done|]. lia. }
  rewrite u64_small by lia.
  destruct (Z.leb_spec (i + count) i1) as [Hle|Hgt]; [|exists None; split; [done|lia]].
  destruct (check_run_spec n bm i 0 (Z.to_nat count)) as (b & -> & Hb); [done|lia|lia|lia|].
  simpl. rewrite Z.add_0_r, Z2Nat.id in Hb by lia. destruct b.
  - exists (Some i). split; [done|]. split_and!; [lia|lia|]. by apply Hb.
  - destruct (IH (i + 1)) as (r & -> & Hr); [lia|lia|lia|]. exists r. split; [done|].
    destruct r as [k|]; [destruct Hr as (?&?&?); split_and!; [lia|lia|done]|]. intros k Hk Hk1.
    destruct (decide (k = i)) as [->|]; [intros ?%Hb; done|apply Hr; lia].
Qed.

(** The two passes find a run unless every free run straddles the hint. *)
Lemma find_run_spec n bm count start :
  bm_wf n bm → 0 ≤ start < n → 1 ≤ count ≤ n → n ≤ 2 ^ 62 →
  ∃ r, find_run bm count n start = Some r ∧
    match r with
    | Some k => 0 ≤ k ∧ k + count ≤ n ∧ run k count ⊆ free_bits bm n
    | None => ∀ k, 0 ≤ k → k + count ≤ n → run k count ⊆ free_bits bm n →
        k < start < k + count
    end.
Proof.
  intros Hwf Hs Hc Hn. unfold find_run, scan_pass.
  destruct (Z.ltb_spec n count); [lia|].
  destruct (scan_spec n bm count start n (Z.to_nat (n - start))) as (r & -> & Hr); [done|lia..|].
  simpl. destruct r as [k|]; [exists (Some k); split; [done|]; destruct Hr as (?&?&?); split_and!; [lia|lia|done]|].
  destruct (Z.ltb_spec start count) as [Hlt|Hge].
  { exists None. split; [done|]. intros k Hk Hkn Hf.
    destruct (Z.le_gt_cases start k); [by destruct (Hr k)|]. lia. }
  destruct (scan_spec n bm count 0 start (Z.to_nat (start - 0))) as (r & -> & Hr2); [done|lia..|].
  exists r. split; [done|]. destruct r as [k|]; [destruct Hr2 as (?&?&?); split_and!; [lia|lia|done]|].
  intros k Hk Hkn Hf. destruct (Z.le_gt_cases start k); [by destruct (Hr k)|].
  destruct (Z.le_gt_cases (k + count) start); [by destruct (Hr2 k)|]. lia.
Qed.

(** ** The operations against the free set *)

(** The initialized manager with its statics. *)
Definition pmm_inv (g : pmm_globals) : Prop :=
  ∃ st, g_pmm g = Some st ∧ pmm_wf st ∧ pressure_ok st g.

(** What [pmm_alloc_pages count] promises from state [st]. *)
Definition alloc_post (st : pmm_state) (count : Z) (r : option Z) (st' : pmm_state) : Prop :=
  match r with
  | Some pa => ∃ i, pa = page_pa st i ∧ 0 ≤ i ∧ i + count ≤ total_pages st ∧
      run i count ⊆ free_set st ∧ free_set st' = free_set st ∖ run i count
  | None => st' = st ∧
      ∀ k, 0 ≤ k → k + count ≤ total_pages st → run k count ⊆ free_set st →
        k < next_hint st < k + count
  end.

(** Committing a free run, and clearing one bit. *)
Lemma commit_wf st i count :
  pmm_wf st → 0 ≤ i → 0 ≤ count → i + count ≤ total_pages st → run i count ⊆ free_set st →
  ∃ bm', commit_run (bitmap st) i 0 (Z.to_nat count) = Some bm' ∧
    let st' := with_bits st bm' (u64 (free_pages st - count)) in
    pmm_wf st' ∧ free_set st' = free_set st ∖ run i count.
Proof.
  intros Hwf Hi Hc Hn Hrun. pose proof Hwf as [Hsh _]. pose proof (sh_bm st Hsh) as Hbm.
  destruct (shape_bounds st Hsh) as (_ & _ & Ht & _). pose proof (sh_free st Hsh) as Hfree.
  destruct (commit_run_spec (total_pages st) (bitmap st) i 0 (Z.to_nat count))
    as (bm' & -> & Hbm' & Hlen & Hf'); [done|lia..|].
  rewrite Z.add_0_r, Z2Nat.id in Hf' by lia. exists bm'. split; [done|]. cbv zeta.
  assert (u64 (free_pages st - count) = card (free_bits bm' (total_pages st))) as ->.
  { rewrite Hf', card_difference, card_run by (done || lia). unfold free_set in *.
    pose proof (card_free_bits_le (bitmap st) (total_pages st) ltac:(lia)).
    apply card_mono in Hrun. rewrite card_run in Hrun by lia. rewrite u64_small; lia. }
  split; [|done]. apply wf_shrink with st; [done|by apply shape_with_bits|done|].
  unfold free_set; simpl. rewrite Hf'. set_solver.
Qed.

Lemma release_wf st idx :
  pmm_wf st → 0 ≤ idx < total_pages st → ¬ in_metadata st (page_pa st idx) →
  bit_test (bitmap st) idx = Some true →
  ∃ bm', bit_clear (bitmap st) idx = Some bm' ∧
    let st' := with_bits st bm' (u64 (free_pages st + 1)) in
    pmm_wf st' ∧ free_set st' = {[idx]} ∪ free_set st.
Proof.
  intros Hwf Hidx Hnm Hbt. pose proof Hwf as [Hsh Hmeta]. pose proof (sh_bm st Hsh) as Hbm.
  destruct (shape_bounds st Hsh) as (_ & _ & Ht & _). pose proof (sh_free st Hsh) as Hfree.
  destruct (bit_clear_spec (bitmap st) idx) as (bm' & -> & Hbc); [destruct Hbm as (_&?&_); lia|].
  pose proof (free_bits_clear _ _ _ (total_pages st) Hbc Hidx) as Hf'.
  assert (idx ∉ free_set st) as Hni by (unfold free_set; rewrite elem_of_free_bits, Hbt; naive_solver).
  exists bm'. split; [done|]. cbv zeta.
  assert (u64 (free_pages st + 1) = card (free_bits bm' (total_pages st))) as ->.
  { rewrite Hf', card_add by done. unfold free_set in Hfree.
    pose proof (card_free_bits_le (bitmap st) (total_pages st) ltac:(lia)).
    pose proof (card_nonneg (free_bits (bitmap st) (total_pages st))). rewrite u64_small; lia. }
  split; [|done].
  split; [apply shape_with_bits; [done|by eapply bits_become_wf|apply Hbc]|].
  intros i Hi. change (¬ in_metadata st (page_pa st i)).
  unfold free_set in Hi; simpl in Hi. rewrite Hf' in Hi.
  apply elem_of_union in Hi as [->%elem_of_singleton|Hi]; [done|by apply Hmeta].
Qed.

Lemma alloc_pages_correct count c g st :
  irq_depth c = 0 → g_pmm g = Some st → pmm_wf st → pressure_ok st g → 1 ≤ count < 2 ^ 32 →
  wp (pmm_alloc_pages count true) (λ r c' g', c' = c ∧ ∃ st', g_pmm g' = Some st' ∧
    pmm_wf st' ∧ pressure_ok st' g' ∧ same_window st st' ∧ alloc_post st count r st') c g.
Proof.
  intros Hc Hg Hwf Hp Hcount. pose proof Hwf as [Hsh _].
  destruct (shape_bounds st Hsh) as (Hb & Hl & Ht & Heq). pose proof (sh_bm st Hsh) as Hbm.
  pose proof (sh_hint st Hsh) as Hh. pose proof (sh_free st Hsh) as Hfree.
  unfold pmm_alloc_pages. wp_step. apply wp_assert_thread; [done|]. wp_steps.
  cbn [g_pmm count_alloc]. rewrite Hg. cbn [negb orb].
  destruct (Z.eqb_spec count 0); [lia|].
  destruct (Z.ltb_spec (free_pages st) count) as [Hfc|Hfc].
  { wp_steps. split; [done|]. exists st. split_and!; [done..|]. split; [done|].
    intros k Hk Hkn Hr. apply card_mono in Hr. rewrite card_run in Hr by lia. lia. }
  destruct (Z.ltb_spec (total_pages st) count) as [Hnc|Hnc].
  { wp_steps. split; [done|]. exists st. split_and!; [done..|]. split; [done|]. lia. }
  set (start := if total_pages st <=? next_hint st then 0 else next_hint st).
  assert (0 ≤ start < total_pages st ∧ (start = 0 ∨ start = next_hint st)) as [Hst Hst2].
  { unfold start. case_if; bool_simpl; lia. }
  destruct (find_run_spec (total_pages st) (bitmap st) count start) as (r & -> & Hr); [done|lia..|].
  wp_steps. destruct r as [i|]; last first.
  { wp_steps. split; [done|]. exists st. split_and!; [done..|]. split; [done|].
    intros k Hk Hkn Hrun. specialize (Hr k Hk Hkn Hrun). lia. }
  destruct Hr as (Hi & Hin & Hrun).
  destruct (commit_wf st i count) as (bm' & -> & Hwf' & Hf'); [done|lia..|done|].
  wp_steps. set (st1 := with_bits st bm' _) in *. pose proof Hwf' as [Hsh' Hm'].
  rewrite (u64_small (i + count)) by lia. split; [done|].
  exists (with_hint st1 (i + count)). split_and!; [done| |by apply (pressure_update st1)|done|].
  - split; [|done]. apply shape_with_hint; [done|]. simpl. lia.
  - exists i. split_and!; [|lia|lia|done|done]. unfold page_pa, PAGE_SIZE; simpl.
    rewrite (u64_small (i * 4096)) by lia. rewrite u64_small by lia. done.
Qed.

(** The direct-map address of a managed page. *)
Lemma page_va_facts st i : pmm_shape st → 0 ≤ i < total_pages st →
  let sp := phys_to_hh_virt (page_pa st i) in
  page_aligned sp ∧ 0 < sp ≤ 2 ^ 64 - 2 * PAGE_SIZE ∧ sp = CAPAZ_HH_BASE + page_pa st i.
Proof.
  intros Hsh Hi. destruct (shape_bounds st Hsh) as (Hb & Hl & Ht & Eq).
  assert (CAPAZ_RAM_BASE ≤ page_pa st i < WIN_END) as Hw.
  { rewrite WIN_END_eq. unfold CAPAZ_RAM_BASE, page_pa, PAGE_SIZE. lia. }
  cbv zeta. rewrite phys_to_hh_virt_eq by done. split_and!; [|..|done].
  - pose proof (sh_base st Hsh). unfold page_pa, CAPAZ_HH_BASE. page_arith.
  - unfold CAPAZ_HH_BASE, CAPAZ_RAM_BASE in *. lia.
  - rewrite WIN_END_eq in Hw. unfold CAPAZ_HH_BASE, PAGE_SIZE. lia.
Qed.

(** What [pmm_free_page pa] promises: a page of the window that is not
    metadata becomes free, every other address is ignored. *)
Definition free_post (st : pmm_state) (pa : Z) (st' : pmm_state) : Prop :=
  (∀ i, 0 ≤ i < total_pages st → pa = page_pa st i → ¬ in_metadata st pa →
     free_set st' = {[i]} ∪ free_set st) ∧
  ((∀ i, 0 ≤ i < total_pages st → pa = page_pa st i → in_metadata st pa) → st' = st).

Lemma page_pa_inj st i j : page_pa st i = page_pa st j → i = j.
Proof. unfold page_pa, PAGE_SIZE. lia. Qed.

Lemma virt_page_inj st i j : pmm_shape st → 0 ≤ i < total_pages st → 0 ≤ j < total_pages st →
  phys_to_hh_virt (page_pa st i) = phys_to_hh_virt (page_pa st j) → i = j.
Proof.
  intros Hsh Hi Hj E. destruct (page_va_facts st i Hsh Hi) as (_ & _ & Ei). destruct (page_va_facts st j Hsh Hj) as (_ & _ & Ej).
  cbv zeta in Ei, Ej. rewrite Ei, Ej in E. apply (page_pa_inj st). lia.
Qed.

(** The guards of [pmm_free_page] accept exactly the pages of the window
    outside the metadata. *)
Definition freeable (st : pmm_state) (pa : Z) : bool :=
  negb ((pa <? base_pa st) || (limit_pa st <=? pa)) &&
  (Z.land pa (PAGE_SIZE - 1) =? 0) &&
  negb (total_pages st <=? u64 (pa - base_pa st) / PAGE_SIZE) &&
  negb ((meta_base_pa st <=? pa) &&
        (pa <? u64 (meta_base_pa st + u64 (meta_pages st * PAGE_SIZE)))).

Lemma freeable_spec st pa : pmm_shape st →
  if freeable st pa then
    let idx := u64 (pa - base_pa st) / PAGE_SIZE in
    0 ≤ idx < total_pages st ∧ pa = page_pa st idx ∧ ¬ in_metadata st pa
  else ∀ i, 0 ≤ i < total_pages st → pa = page_pa st i → in_metadata st pa.
Proof.
  intros Hsh. destruct (shape_bounds st Hsh) as (Hb & Hl & Ht & Heq).
  pose proof (sh_base st Hsh) as Hba. unfold freeable, in_metadata.
  change (PAGE_SIZE - 1) with (Z.ones 12). rewrite Z.land_ones by lia. change (2 ^ 12) with PAGE_SIZE.
  pose proof (sh_meta st Hsh) as (_ & Hm1 & Hm2 & Hm3). rewrite WIN_END_eq in Hm3.
  unfold CAPAZ_RAM_BASE, PMM_METADATA_PAGES in *. rewrite Hm2 in *. unfold page_aligned, PAGE_SIZE in *.
  rewrite (u64_small (16 * 4096)), (u64_small (meta_base_pa st + _)) by lia.
  destruct (_ && _ && _ && _) eqn:E.
  - bool_simpl. rewrite u64_small in * by lia. unfold page_pa, PAGE_SIZE.
    split; [Z.div_mod_to_equations; lia|]. split; [Z.div_mod_to_equations; lia|].
    match goal with H : _ ∨ _ |- _ => destruct H end; bool_simpl; lia.
  - intros i Hi ->. unfold page_pa, PAGE_SIZE in *.
    replace (base_pa st + i * 4096 - base_pa st) with (i * 4096) in E by lia.
    rewrite u64_small, Z.div_mul, Z_mod_plus_full, Hba in E by lia.
    bool_simpl. repeat (destruct E as [E|E]; bool_simpl); lia.
Qed.

Lemma free_page_correct pa c g st :
  irq_depth c = 0 → g_pmm g = Some st → pmm_wf st → pressure_ok st g →
  wp (pmm_free_page pa) (λ _ c' g', c' = c ∧ ∃ st', g_pmm g' = Some st' ∧
    pmm_wf st' ∧ pressure_ok st' g' ∧ same_window st st' ∧ free_post st pa st') c g.
Proof.
  intros Hc Hg Hwf Hp. pose proof Hwf as [Hsh _]. pose proof (sh_hint st Hsh) as Hh.
  pose proof (freeable_spec st pa Hsh) as Hfr. unfold freeable in Hfr.
  unfold pmm_free_page. wp_step. apply wp_assert_thread; [done|]. wp_steps.
  cbn [g_pmm count_free]. rewrite Hg.
  assert ((∀ i, 0 ≤ i < total_pages st → pa = page_pa st i → in_metadata st pa) →
    wp (ret tt) (λ _ c' g', c' = c ∧ ∃ st', g_pmm g' = Some st' ∧
      pmm_wf st' ∧ pressure_ok st' g' ∧ same_window st st' ∧ free_post st pa st') c (count_free g)) as Hskip.
  { intros Hn. wp_steps. split; [done|]. exists st. split_and!; [done..|]. split; [|done].
    intros i Hi Hpa Hnm. by destruct Hnm, (Hn i). }
  destruct ((pa <? base_pa st) || (limit_pa st <=? pa)); [by apply Hskip|].
  destruct (Z.land pa (PAGE_SIZE - 1) =? 0); [|by apply Hskip].
  destruct (total_pages st <=? u64 (pa - base_pa st) / PAGE_SIZE); [by apply Hskip|].
  destruct ((meta_base_pa st <=? pa) && _); [by apply Hskip|]. cbn [negb andb] in *.
  set (idx := u64 (pa - base_pa st) / PAGE_SIZE) in *. destruct Hfr as (Hidx & Hpa & Hnm).
  destruct (bit_test_total (bitmap st) idx) as [b Hbt]; [destruct (sh_bm st Hsh) as (_&?&_); lia|].
  rewrite Hbt. wp_steps.
  assert (∀ st', free_set st' = {[idx]} ∪ free_set st → free_post st pa st') as Hok.
  { intros st' Hf. split.
    - intros i Hi E _. replace i with idx; [done|]. apply (page_pa_inj st). congruence.
    - intros Hm. by destruct Hnm, (Hm idx). }
  destruct b; last first.
  { wp_steps. split; [done|]. exists st. split_and!; [done..|]. apply Hok.
    assert (idx ∈ free_set st) by (by apply elem_of_free_bits). set_solver. }
  destruct (release_wf st idx) as (bm' & -> & Hwf1 & Hf'); [done|done|by rewrite <- Hpa|done|].
  wp_steps. set (st1 := with_bits st bm' _) in *. pose proof Hwf1 as [Hsh1 Hm1]. split; [done|].
  case_if; eexists; (split_and!; [done| |by apply (pressure_update st1)|done|by apply Hok]); [|done].
  split; [|done]. apply shape_with_hint; [done|]. simpl. lia.
Qed.

(** ** Sequences of calls *)

Inductive pmm_op := OpAlloc (count : Z) | OpFree (pa : Z).

Definition pmm_step (op : pmm_op) : M pmm_globals (option Z) :=
  match op with
  | OpAlloc count => pmm_alloc_pages count true
  | OpFree pa => pmm_free_page pa ;;; ret None
  end.

(** The addresses of the [count] pages at [pa]. *)
Definition pages_at (pa count : Z) : gset Z := set_map (λ k, pa + k * PAGE_SIZE) (run 0 count).

(** A client that remembers the pages it holds and stops if it is ever given a
    page it already has. *)
Fixpoint run_client (ops : list pmm_op) (held : gset Z) : M pmm_globals (gset Z) :=
  match ops with
  | [] => ret held
  | op :: ops =>
    r <- pmm_step op ;;
    match op, r with
    | OpAlloc count, Some pa =>
      assert_that (bool_decide (pages_at pa count ## held)) "page allocated twice" ;;;
      run_client ops (held ∪ pages_at pa count)
    | OpAlloc _, None => run_client ops held
    | OpFree pa, _ => run_client ops (held ∖ {[pa]})
    end
  end.

Definition op_ok (op : pmm_op) : Prop :=
  match op with OpAlloc count => 1 ≤ count < 2 ^ 32 | OpFree _ => True end.

(** No free page is held by the client. *)
Definition held_ok (st : pmm_state) (held : gset Z) : Prop :=
  ∀ i, i ∈ free_set st → page_pa st i ∉ held.

Lemma elem_of_pages_at st i count x :
  x ∈ pages_at (page_pa st i) count ↔ ∃ k, k ∈ run i count ∧ x = page_pa st k.
Proof.
  unfold pages_at. rewrite elem_of_map. unfold page_pa. split.
  - intros (k & -> & Hk). exists (i + k). rewrite elem_of_run in *. split; [lia|]. ring.
  - intros (k & Hk & ->). exists (k - i). rewrite elem_of_run in *. split; [ring|lia].
Qed.

Lemma held_alloc st st' i count held :
  same_window st st' → run i count ⊆ free_set st → free_set st' = free_set st ∖ run i count →
  held_ok st held →
  pages_at (page_pa st i) count ## held ∧ held_ok st' (held ∪ pages_at (page_pa st i) count).
Proof.
  intros Hw Hrun Hf Hh. split.
  - intros x (k & Hk & ->)%elem_of_pages_at. apply Hh. by apply Hrun.
  - intros j Hj. rewrite Hf in Hj. apply elem_of_difference in Hj as [Hj Hn].
    rewrite (same_window_pa st st') by done. rewrite elem_of_union, elem_of_pages_at.
    intros [?|(k & Hk & E%page_pa_inj)]; [by apply (Hh j)|]. by subst.
Qed.

Lemma held_free st st' pa held :
  pmm_shape st → same_window st st' → free_post st pa st' → held_ok st held →
  held_ok st' (held ∖ {[pa]}).
Proof.
  intros Hsh Hw [Hf Hs] Hh j Hj. rewrite (same_window_pa st st') by done.
  rewrite elem_of_difference, elem_of_singleton. intros [Hheld Hne].
  pose proof (freeable_spec st pa Hsh) as Hd. destruct (freeable st pa).
  - destruct Hd as (Hidx & Hpa & Hm). rewrite (Hf _ Hidx Hpa Hm) in Hj.
    apply elem_of_union in Hj as [->%elem_of_singleton|Hj]; [by rewrite <- Hpa in Hne|].
    by apply (Hh j).
  - rewrite Hs in Hj by done. by apply (Hh j).
Qed.

Lemma run_client_safe ops held c g st :
  Forall op_ok ops → irq_depth c = 0 →
  g_pmm g = Some st → pmm_wf st → pressure_ok st g → held_ok st held →
  wp (run_client ops held) (λ held' c' g', c' = c ∧ ∃ st', g_pmm g' = Some st' ∧
    pmm_wf st' ∧ pressure_ok st' g' ∧ held_ok st' held') c g.
Proof.
  intros Hops Hc. revert held g st. induction Hops as [|op ops Hop Hops IH];
    intros held g st Hg Hwf Hp Hh; simpl; wp_steps.
  { split; [done|]. by exists st. }
  destruct op as [count|pa]; simpl pmm_step; simpl in Hop.
  - eapply wp_mono; [by eapply alloc_pages_correct|]. cbv beta.
    intros r c' g' (-> & st' & Hg' & Hwf' & Hp' & Hw & Hpost).
    destruct r as [pa|]; simpl in Hpost.
    + destruct Hpost as (i & -> & _ & _ & Hrun & Hf).
      destruct (held_alloc st st' i count held Hw Hrun Hf Hh) as [Hd Hh'].
      wp_step. apply wp_assert; [by apply bool_decide_eq_true|]. by eapply IH.
    + destruct Hpost as [-> _]. by eapply IH.
  - wp_step. eapply wp_mono; [by eapply free_page_correct|]. cbv beta.
    intros r c' g' (-> & st' & Hg' & Hwf' & Hp' & Hw & Hpost). wp_steps.
    eapply IH; [done..|]. eapply held_free; [apply Hwf|done..].
Qed.

(** ** Theorems *)

(** A five-page manager with every page free. *)
Definition five_pages : pmm_state :=
  mkPmm 0x40500000 0x40505000 5 5 0xFFFF800040400048 [0xE0] 1 0 0x40400000 16.
Definition five_globals : pmm_globals :=
  pmm_update_pressure five_pages (with_state pmm_boot five_pages).
Definition thread_cpu : cpu_state := mkCpu 0 0.

Lemma five_pages_wf : pmm_wf five_pages.
Proof.
  split.
  - split; try done.
    + split; [repeat constructor; lia|]. simpl. lia.
  - intros i [Hi _]%elem_of_free_bits. unfold in_metadata, page_pa, PAGE_SIZE; simpl. lia.
Qed.

Lemma five_pressure : pressure_ok five_pages five_globals.
Proof. apply pressure_update, five_pages_wf. Qed.

Lemma sample_usable : usable_spec sample_dtb sample_runtime_end sample_boot 0x40500000.
Proof.
  assert (page_start 0x40500000 = 0x40500000) as Hp by reflexivity.
  assert (hh_virt_to_phys sample_runtime_end = 0x40400000) as Hr by reflexivity.
  assert (hh_virt_to_phys (dtb_ptr sample_boot) = 0x44000000) as Hd by reflexivity.
  assert (dtb_blob_size sample_dtb sample_boot = 0x10000) as Hs by reflexivity.
  assert (align_up_4k 0x40400000 = 0x40400000) as Ha by reflexivity.
  unfold usable_spec, page_touches, page_inside. cbv zeta. rewrite Hp, Hr, Hd, Hs, Ha. simpl base; simpl size.
  unfold PAGE_SIZE, PMM_METADATA_PAGES, in_window, CAPAZ_RAM_BASE. rewrite WIN_END_eq.
  change (kernel_phys_base sample_boot) with 0x40200000.
  split; [lia|]. split; [|split; [|lia]].
  - exists (mkRange 0x40000000 0x40000000). split; [left|simpl; lia].
  - intros r [->|?%elem_of_nil]%elem_of_cons _; [simpl; lia|done].
Qed.

(** C5: When the memory and reservation entries of the device tree number at
    most 60, some page is usable and the metadata pages lie in the RAM window,
    pmm_init returns without panicking and marks free exactly the usable pages
    of the platform layer; the bitmap and the free count agree, no page of the
    metadata is free, and the pressure counters bound the state: the peak of
    used pages is at least the pages now used, the low mark of free pages at
    most the pages now free. *)
Theorem pmm_init_establishes_usable d rte bi c g :
  dtb_wf d → boot_wf d rte bi →
  (length (g_mem_ranges d) + length (g_rsv_ranges d) + 4 ≤ 64)%nat →
  (∃ x, usable_spec d rte bi x) →
  CAPAZ_RAM_BASE ≤ align_up_4k (hh_virt_to_phys rte) →
  align_up_4k (hh_virt_to_phys rte) + PMM_METADATA_PAGES * PAGE_SIZE ≤ WIN_END →
  wp (pmm_init d rte (Some bi)) (λ _ c' g', c' = c ∧ pmm_init_post d rte bi g') c g.
Proof. apply pmm_init_correct. Qed.

Lemma pmm_init_witness :
  wp (pmm_init sample_dtb sample_runtime_end (Some sample_boot))
    (λ _ c' g', c' = thread_cpu ∧ pmm_init_post sample_dtb sample_runtime_end sample_boot g')
    thread_cpu pmm_boot.
Proof.
  apply (pmm_init_establishes_usable sample_dtb sample_runtime_end sample_boot thread_cpu pmm_boot).
  - apply sample_dtb_wf.
  - apply sample_boot_wf.
  - simpl. lia.
  - exists 0x40500000. apply sample_usable.
  - vm_compute. discriminate.
  - vm_compute. discriminate.
Defined.

(** pmm_alloc_pages returns either nothing, with the free set unchanged,
    or a run of count pages that were all free, lies inside the managed window
    and is removed from the free set; the invariant is kept. *)
Theorem pmm_alloc_pages_spec count c g st :
  irq_depth c = 0 → g_pmm g = Some st → pmm_wf st → pressure_ok st g → 1 ≤ count < 2 ^ 32 →
  wp (pmm_alloc_pages count true) (λ r c' g', c' = c ∧ ∃ st', g_pmm g' = Some st' ∧
    pmm_wf st' ∧ pressure_ok st' g' ∧ same_window st st' ∧ alloc_post st count r st') c g.
Proof. apply alloc_pages_correct. Qed.

Lemma pmm_alloc_pages_witness :
  wp (pmm_alloc_pages 2 true) (λ r c' g', c' = thread_cpu ∧ ∃ st', g_pmm g' = Some st' ∧
    pmm_wf st' ∧ pressure_ok st' g' ∧ same_window five_pages st' ∧
    alloc_post five_pages 2 r st') thread_cpu five_globals.
Proof.
  apply (pmm_alloc_pages_spec 2 thread_cpu five_globals five_pages);
    [done|done|apply five_pages_wf|apply five_pressure|lia].
Defined.

(** C6: While a page is free, pmm_alloc_page succeeds with a free page, and
    freeing that page restores the free set and the free count. *)
Theorem pmm_alloc_page_complete c g st :
  irq_depth c = 0 → g_pmm g = Some st → pmm_wf st → pressure_ok st g → 0 < free_pages st →
  wp (pmm_alloc_page true) (λ r c' g', ∃ i st', r = Some (page_pa st i) ∧ i ∈ free_set st ∧
    g_pmm g' = Some st' ∧ free_set st' = free_set st ∖ {[i]} ∧
    wp (pmm_free_page (page_pa st i)) (λ _ c'' g'', ∃ st'', g_pmm g'' = Some st'' ∧
      free_set st'' = free_set st ∧ free_pages st'' = free_pages st) c' g') c g.
Proof.
  intros Hc Hg Hwf Hp Hpos. unfold pmm_alloc_page.
  assert (∀ i, run i 1 = {[i]}) as Hr1.
  { intros i. apply set_eq. intros j. rewrite elem_of_run, elem_of_singleton. lia. }
  eapply wp_mono; [eapply alloc_pages_correct; [done..|lia]|]. cbv beta.
  intros r c' g' (-> & st' & Hg' & Hwf' & Hp' & Hw & Hpost). pose proof Hwf as [Hsh Hm].
  destruct r as [pa|]; simpl in Hpost; rewrite ?Hr1 in Hpost.
  - destruct Hpost as (i & -> & Hi & Hin & Hrun & Hf). rewrite Hr1 in *.
    assert (i ∈ free_set st) as Hif by set_solver.
    exists i, st'. split_and!; [done..|].
    eapply wp_mono; [by eapply free_page_correct|]. cbv beta.
    intros [] c'' g'' (-> & st'' & Hg'' & Hwf'' & _ & Hw' & Hpost & _).
    pose proof Hw as (_ & _ & Et & Em & Ep).
    assert (free_set st'' = free_set st) as Hfe.
    { rewrite (Hpost i), Hf, <- union_difference_singleton_L; [done|done|rewrite Et; lia| |].
      - by rewrite (same_window_pa st st').
      - unfold in_metadata. rewrite Em, Ep. by apply Hm. }
    exists st''. split_and!; [done..|]. destruct Hwf'' as [Hsh'' _].
    by rewrite (sh_free _ Hsh''), (sh_free _ Hsh), Hfe.
  - destruct Hpost as [_ Hn]. rewrite (sh_free st Hsh) in Hpos.
    apply card_pos_inv in Hpos as [k Hk]. pose proof Hk as [Hk1 _]%elem_of_free_bits.
    specialize (Hn k ltac:(lia) ltac:(lia)). rewrite Hr1 in Hn. specialize (Hn ltac:(set_solver)). lia.
Qed.

Lemma pmm_alloc_page_witness :
  wp (pmm_alloc_page true) (λ r c' g', ∃ i st', r = Some (page_pa five_pages i) ∧
    i ∈ free_set five_pages ∧
    g_pmm g' = Some st' ∧ free_set st' = free_set five_pages ∖ {[i]} ∧
    wp (pmm_free_page (page_pa five_pages i)) (λ _ c'' g'', ∃ st'', g_pmm g'' = Some st'' ∧
      free_set st'' = free_set five_pages ∧ free_pages st'' = free_pages five_pages) c' g')
    thread_cpu five_globals.
Proof.
  apply (pmm_alloc_page_complete thread_cpu five_globals five_pages);
    [done|done|apply five_pages_wf|apply five_pressure|done].
Defined.

(** C1: Over any sequence of page allocations and frees by a client that only
    frees what it holds, the physical page manager never panics or faults,
    never hands out a page that is already held, and never hands out a page of
    its own metadata. *)
Theorem pmm_never_allocates_twice ops c g st :
  Forall op_ok ops → irq_depth c = 0 →
  g_pmm g = Some st → pmm_wf st → pressure_ok st g →
  wp (run_client ops ∅) (λ held c' g', c' = c ∧ ∃ st', g_pmm g' = Some st' ∧
    pmm_wf st' ∧ pressure_ok st' g' ∧ held_ok st' held) c g.
Proof.
  intros. eapply run_client_safe; [done..|]. intros i _. apply not_elem_of_empty.
Qed.

Lemma pmm_never_allocates_twice_witness :
  wp (run_client [OpAlloc 1; OpAlloc 2; OpFree 0x40500000; OpAlloc 1] ∅)
    (λ held c' g', c' = thread_cpu ∧ ∃ st', g_pmm g' = Some st' ∧
      pmm_wf st' ∧ pressure_ok st' g' ∧ held_ok st' held) thread_cpu five_globals.
Proof.
  apply (pmm_never_allocates_twice _ thread_cpu five_globals five_pages);
    [repeat constructor; simpl; lia|done|done|apply five_pages_wf|apply five_pressure].
Defined.

(** The calls that leave a free run across the hint: five single pages, the
    first of a pair and another pair given back, that pair allocated, the
    second of the first pair given back. *)
Definition straddle_ops : list pmm_op :=
  [OpAlloc 1; OpAlloc 1; OpAlloc 1; OpAlloc 1; OpAlloc 1;
   OpFree 0x40501000; OpFree 0x40503000; OpFree 0x40504000; OpAlloc 2; OpFree 0x40502000].

(** A reachable state in which two adjacent free pages lie on either side
    of next_hint: pmm_alloc_pages fails for two pages although the run is
    free. *)
Theorem pmm_alloc_pages_misses_straddling_run :
  pmm_wf five_pages ∧
  ∃ g st held, run_client straddle_ops ∅ thread_cpu five_globals = Ret (held, thread_cpu, g) ∧
    g_pmm g = Some st ∧ run 1 2 ⊆ free_set st ∧ free_pages st = 2 ∧
    ∃ g', pmm_alloc_pages 2 true thread_cpu g = Ret (None, thread_cpu, g').
Proof.
  split; [apply five_pages_wf|]. eexists _, _, _.
  split; [vm_compute; reflexivity|]. split; [reflexivity|].
  split; [|split; [reflexivity|eexists; vm_compute; reflexivity]].
  intros i. rewrite elem_of_run. intros Hi. apply elem_of_free_bits. simpl.
  assert (i = 1 ∨ i = 2) as [-> | ->] by lia; vm_compute; done.
Qed.
