(* ===== verification/ObjHeap.v ===== *)
(** * The object-allocator interface

    The capability, IPC, thread and work-queue code allocates its objects from
    per-type slab caches (Kern/Kernel/alloc/slab_cache.c).  What those clients
    rely on is stated here once, as a class: their theorems are proved against
    it, and Slab.v proves that the slab allocator over the page allocator is an
    instance. *)

From S2P Require Import Prelude.

(** The caches of the kernel: [g_thread_cache], [g_endpoint_cache],
    [g_ipc_msg_cache], [g_cap_entry_cache], [g_work_item_cache]. *)
Inductive cache_id := CThread | CEndpoint | CIpcMsg | CCapEntry | CWorkItem.

#[global] Instance cache_id_eq_dec : EqDecision cache_id.
Proof. solve_decision. Defined.

(** Live objects per cache, and the update of one cache's set. *)
Definition lives : Type := cache_id → gset Z.
Definition upd (k : cache_id) (X : gset Z) (lv : lives) : lives :=
  λ j, if decide (j = k) then X else lv j.

Lemma upd_eq k X lv : upd k X lv k = X.
Proof. unfold upd. by rewrite decide_True. Qed.
Lemma upd_ne k j X lv : j ≠ k → upd k X lv j = lv j.
Proof. intros. unfold upd. by rewrite decide_False. Qed.

(** [oh_rep h lv]: the heap [h] has exactly the objects [lv k] of each cache
    [k] handed out. *)
Class ObjHeap (H : Type) := {
  oh_alloc : cache_id → M H Z;
  oh_free : cache_id → Z → M H unit;
  oh_rep : H → lives → Prop;
  (** An allocation returns NULL or a new object, and touches no other cache. *)
  oh_alloc_spec k c h lv : oh_rep h lv → irq_depth c = 0 →
    wp (oh_alloc k) (λ p c' h', c' = c ∧
      ((p = 0 ∧ oh_rep h' lv) ∨
       (p ≠ 0 ∧ (p ∉ lv k) ∧ oh_rep h' (upd k ({[p]} ∪ lv k) lv)))) c h;
  (** A live object can be given back. *)
  oh_free_spec k p c h lv : oh_rep h lv → irq_depth c = 0 → p ∈ lv k →
    wp (oh_free k p) (λ _ c' h', c' = c ∧ oh_rep h' (upd k (lv k ∖ {[p]}) lv)) c h;
  (** NULL is never live. *)
  oh_rep_nonnull h lv k : oh_rep h lv → 0 ∉ lv k;
}.

(** ** An ideal heap

    The simplest instance: a counter of addresses and a bound on their number.
    It shows that the laws can be met and is the heap the concrete examples of
    the client files run on. *)
Record ideal_heap := mkIdeal { ih_next : Z; ih_left : Z; ih_live : cache_id → gset Z }.

Definition ideal_alloc (k : cache_id) : M ideal_heap Z :=
  h <- get_st ;;
  if ih_left h <=? 0 then ret 0
  else put_st (mkIdeal (ih_next h + 64) (ih_left h - 1)
                 (upd k ({[ih_next h]} ∪ ih_live h k) (ih_live h))) ;;;
       ret (ih_next h).

Definition ideal_free (k : cache_id) (p : Z) : M ideal_heap unit :=
  modify (λ h, mkIdeal (ih_next h) (ih_left h) (upd k (ih_live h k ∖ {[p]}) (ih_live h))).

Definition ideal_rep (h : ideal_heap) (lv : lives) : Prop :=
  0 < ih_next h ∧ (∀ k, lv k = ih_live h k) ∧ ∀ k p, p ∈ lv k → 0 < p < ih_next h.

#[global] Program Instance ideal_objheap : ObjHeap ideal_heap := {|
  oh_alloc := ideal_alloc;
  oh_free := ideal_free;
  oh_rep := ideal_rep;
|}.
Next Obligation.
  intros k c h lv (Hn & Hl & Hb) _. unfold ideal_alloc. wp_steps.
  case_if; wp_steps; (split; [done|]); [by left|right].
  split_and!; [lia|intros ?%Hb; lia|]. split_and!; simpl; [lia| |].
  - intros j. unfold upd. case_decide; [|done]. subst. by rewrite Hl.
  - intros j p. unfold upd. case_decide; [|by intros ?%Hb; lia].
    rewrite elem_of_union, elem_of_singleton. intros [->|?%Hb]; lia.
Qed.
Next Obligation.
  intros k p c h lv (Hn & Hl & Hb) _ Hp. unfold ideal_free. wp_steps. split; [done|].
  split_and!; simpl; [lia| |].
  - intros j. unfold upd. case_decide; [|done]. subst. by rewrite Hl.
  - intros j q. unfold upd. case_decide; [|by intros ?%Hb; lia].
    rewrite elem_of_difference. intros [?%Hb _]. lia.
Qed.
Next Obligation. intros h lv k (_ & _ & Hb) ?%Hb. lia. Qed.

Definition ideal_empty (n : Z) : ideal_heap := mkIdeal 0x1000 n (λ _, ∅).

Lemma ideal_empty_rep n : ideal_rep (ideal_empty n) (λ _, ∅).
Proof. split_and!; [simpl; lia|done|]. by intros k p ?%elem_of_empty. Qed.
