(* ===== verification/Cap.v ===== *)
(** * Capabilities (Kern/Kernel/cap/)

    Capability tables (cap_table.c), slab-backed entries (cap_entry.c), the
    operations on them (cap_ops.c) and the status translation
    (cap_status_ks.c).  Tables are reached through pointers, so an operation
    given the same table as source and destination acts on one object. *)

From S2P Require Import Prelude Irq ObjHeap.

(** ** Data *)

(** [cap_type_t] *)
Inductive cap_type :=
| CAP_TYPE_INVALID | CAP_TYPE_TASK | CAP_TYPE_THREAD
| CAP_TYPE_VMO | CAP_TYPE_VMAP | CAP_TYPE_ENDPOINT.
#[global] Instance cap_type_eq_dec : EqDecision cap_type.
Proof. solve_decision. Defined.

(** [cap_rights_t] bits *)
Definition CAP_R_READ : Z := Z.shiftl 1 0.
Definition CAP_R_WRITE : Z := Z.shiftl 1 1.
Definition CAP_R_EXEC : Z := Z.shiftl 1 2.
Definition CAP_R_DUP : Z := Z.shiftl 1 3.
Definition CAP_R_TRANSFER : Z := Z.shiftl 1 4.
Definition CAP_R_DROP : Z := Z.shiftl 1 5.
Definition CAP_R_CONTROL : Z := Z.shiftl 1 8.
Definition CAP_R_SEND : Z := Z.shiftl 1 12.
Definition CAP_R_RECV : Z := Z.shiftl 1 13.
Definition CAP_R_ARM : Z := Z.shiftl 1 16.
Definition CAP_R_ACK : Z := Z.shiftl 1 17.

Definition cap_rights_has (rights needed : Z) : bool := Z.land rights needed =? needed.

(** [cap_status_t] *)
Inductive cap_status :=
| CAP_OK | CAP_ERR_INVALID | CAP_ERR_NO_SLOTS | CAP_ERR_DENIED | CAP_ERR_NO_MEM.
#[global] Instance cap_status_eq_dec : EqDecision cap_status.
Proof. solve_decision. Defined.

Definition CAP_ERR_NO_ENTRY : cap_status := CAP_ERR_INVALID.

(** The enumerators' values, and the switch of [cap_status_to_ks_status] on
    them ([KS_CAP_OK], [KS_CAP_ERR_INVALID], ... of ks_types.h). *)
Definition cap_status_code (st : cap_status) : Z :=
  match st with
  | CAP_OK => 0 | CAP_ERR_INVALID => -1 | CAP_ERR_NO_SLOTS => -2
  | CAP_ERR_DENIED => -3 | CAP_ERR_NO_MEM => -4
  end.

(** [cap_entry_t] *)
Record cap_entry := mkEntry {
  type : cap_type; rights : Z; obj : Z; gen : Z; flags : Z;
}.
Definition CAP_ENTRY_FLAG_VALID : Z := Z.shiftl 1 0.

(** [cap_table_t] *)
Record cap_table := mkTable {
  slots : list Z;
  gens : list Z;
  free_stack : list Z;
  free_top : Z;
}.
Definition CONFIG_CAP_TABLE_SLOTS : Z := 256.

(** Handles, packed [gen:32][index:32]. *)
Definition CAP_HANDLE_INVALID : Z := 0.
Definition cap_handle_index (h : Z) : Z := u32 (Z.land h 0xFFFFFFFF).
Definition cap_handle_gen (h : Z) : Z := u32 (Z.shiftr h 32).
Definition cap_handle_make (gen idx : Z) : Z := Z.lor (Z.shiftl gen 32) idx.

#[global] Arguments cap_handle_index : simpl never.
#[global] Arguments cap_handle_gen : simpl never.
#[global] Arguments cap_handle_make : simpl never.

Definition cap_slot_valid_index (idx : Z) : bool := idx <? CONFIG_CAP_TABLE_SLOTS.

Definition cap_bump_gen (g : Z) : Z :=
  let g := u32 (g + 1) in if g =? 0 then 1 else g.

(** [ks_cap_status_t] of ks_types.h and its translation. *)
Definition KS_CAP_OK : Z := 0.
Definition KS_CAP_ERR_INVALID : Z := 1.
Definition KS_CAP_ERR_NO_RIGHTS : Z := 2.
Definition KS_CAP_ERR_NO_SLOTS : Z := 3.
Definition KS_CAP_ERR_OOM : Z := 4.

Definition cap_status_to_ks_status (st : Z) : Z :=
  if st =? cap_status_code CAP_OK then KS_CAP_OK
  else if st =? cap_status_code CAP_ERR_INVALID then KS_CAP_ERR_INVALID
  else if st =? cap_status_code CAP_ERR_DENIED then KS_CAP_ERR_NO_RIGHTS
  else if st =? cap_status_code CAP_ERR_NO_SLOTS then KS_CAP_ERR_NO_SLOTS
  else if st =? cap_status_code CAP_ERR_NO_MEM then KS_CAP_ERR_OOM
  else KS_CAP_ERR_INVALID.

(** ** State and access *)

(** The capability store: tables and entries by address, the object heap, and
    [s_cap_entry_cache_inited]. *)
Record cap_state (H : Type) := mkCapState {
  tables : gmap Z cap_table;
  entries : gmap Z cap_entry;
  heap : H;
  inited : bool;
}.
Arguments mkCapState {H}.
Arguments tables {H}.
Arguments entries {H}.
Arguments heap {H}.
Arguments inited {H}.

Section ops.
Context {H : Type} `{!ObjHeap H}.

Definition heap_lens : lens (cap_state H) H :=
  mkLens heap (λ h s, mkCapState (tables s) (entries s) h (inited s)).

Definition get_table (t : Z) : M (cap_state H) cap_table :=
  s <- get_st ;; load (tables s !! t).
Definition set_table (t : Z) (tbl : cap_table) : M (cap_state H) unit :=
  modify (λ s, mkCapState (<[t := tbl]> (tables s)) (entries s) (heap s) (inited s)).
Definition get_entry (e : Z) : M (cap_state H) cap_entry :=
  s <- get_st ;; load (entries s !! e).
Definition set_entry (e : Z) (v : cap_entry) : M (cap_state H) unit :=
  modify (λ s, mkCapState (tables s) (<[e := v]> (entries s)) (heap s) (inited s)).

(** ** cap_entry.c *)

(** [slab_cache_init] on the entry cache is the allocator's initial state. *)
Definition cap_entry_cache_init : M (cap_state H) unit :=
  modify (λ s, mkCapState (tables s) (entries s) (heap s) true).

Definition cap_entry_alloc : M (cap_state H) Z :=
  ASSERT_THREAD_CONTEXT ;;;
  s <- get_st ;;
  assert_that (inited s) "cap_entry_alloc: cache not initialized" ;;;
  e <- zoom heap_lens (oh_alloc CCapEntry) ;;
  if e =? 0 then ret 0
  else set_entry e (mkEntry CAP_TYPE_INVALID 0 0 0 0) ;;; ret e.

(** The freed object leaves the store: a later access through a stale pointer
    is a fault. *)
Definition cap_entry_free (e : Z) : M (cap_state H) unit :=
  ASSERT_THREAD_CONTEXT ;;;
  if e =? 0 then ret tt
  else
    s <- get_st ;;
    assert_that (inited s) "cap_entry_free: cache not initialized" ;;;
    zoom heap_lens (oh_free CCapEntry e) ;;;
    modify (λ s, mkCapState (tables s) (delete e (entries s)) (heap s) (inited s)).

(** ** cap_table.c *)

(** [cap_table_alloc_slot]: [inr idx] is [CAP_OK] with [*out_idx = idx]. *)
Definition cap_table_alloc_slot (t : Z) : M (cap_state H) (cap_status + Z) :=
  if t =? 0 then ret (inl CAP_ERR_INVALID)
  else
    tbl <- get_table t ;;
    if free_top tbl =? 0 then ret (inl CAP_ERR_NO_SLOTS)
    else
      let top := free_top tbl - 1 in
      idx <- load (free_stack tbl !! Z.to_nat top) ;;
      set_table t (mkTable (slots tbl) (gens tbl) (free_stack tbl) top) ;;;
      if negb (cap_slot_valid_index idx) then ret (inl CAP_ERR_INVALID)
      else ret (inr idx).

Definition cap_table_free_slot (t idx : Z) : M (cap_state H) unit :=
  if (t =? 0) || negb (cap_slot_valid_index idx) then ret tt
  else
    tbl <- get_table t ;;
    when (free_top tbl <? CONFIG_CAP_TABLE_SLOTS)
      (set_table t (mkTable (slots tbl) (gens tbl)
         (<[Z.to_nat (free_top tbl) := idx]> (free_stack tbl)) (free_top tbl + 1))).

(** [cap_lookup_ex]: [inr e] is the entry's address with [CAP_OK]; [inl st]
    is NULL with status [st]. *)
Definition cap_lookup_ex (t h need : Z) : M (cap_state H) (cap_status + Z) :=
  if t =? 0 then ret (inl CAP_ERR_INVALID)
  else
    let idx := cap_handle_index h in
    if negb (cap_slot_valid_index idx) then ret (inl CAP_ERR_INVALID)
    else
      tbl <- get_table t ;;
      e <- load (slots tbl !! Z.to_nat idx) ;;
      if e =? 0 then ret (inl CAP_ERR_NO_ENTRY)
      else
        v <- get_entry e ;;
        if Z.land (flags v) CAP_ENTRY_FLAG_VALID =? 0 then ret (inl CAP_ERR_NO_ENTRY)
        else
          let g := cap_handle_gen h in
          tg <- load (gens tbl !! Z.to_nat idx) ;;
          if (g =? 0) || negb (g =? tg) || negb (g =? gen v)
          then ret (inl CAP_ERR_INVALID)
          else if negb (Z.land (rights v) need =? need) then ret (inl CAP_ERR_DENIED)
          else ret (inr e).

Definition cap_table_init (t : Z) : M (cap_state H) unit :=
  if t =? 0 then ret tt
  else set_table t (mkTable
    (replicate (Z.to_nat CONFIG_CAP_TABLE_SLOTS) 0)
    (replicate (Z.to_nat CONFIG_CAP_TABLE_SLOTS) 1)
    (seqZ 0 CONFIG_CAP_TABLE_SLOTS) CONFIG_CAP_TABLE_SLOTS).

(** Handle results: [*out] is written on [CAP_OK] only.  [out] says whether
    the caller's pointer is not NULL. *)
Definition cap_table_insert (t : Z) (ty : cap_type) (rts ob : Z) (out : bool)
    : M (cap_state H) (cap_status + Z) :=
  if (t =? 0) || negb out then ret (inl CAP_ERR_INVALID)
  else
    r <- cap_table_alloc_slot t ;;
    match r with
    | inl st => ret (inl st)
    | inr idx =>
      e <- cap_entry_alloc ;;
      if e =? 0 then cap_table_free_slot t idx ;;; ret (inl CAP_ERR_NO_MEM)
      else
        tbl <- get_table t ;;
        g <- load (gens tbl !! Z.to_nat idx) ;;
        set_entry e (mkEntry ty rts ob g CAP_ENTRY_FLAG_VALID) ;;;
        set_table t (mkTable (<[Z.to_nat idx := e]> (slots tbl)) (gens tbl)
                       (free_stack tbl) (free_top tbl)) ;;;
        ret (inr (cap_handle_make g idx))
    end.

Definition cap_lookup (t h need : Z) : M (cap_state H) Z :=
  r <- cap_lookup_ex t h need ;;
  ret (match r with inl _ => 0 | inr e => e end).

(** Emptying slot [idx]: the four statements shared by removal and by the
    invalidation scan. *)
Definition clear_slot (t idx e : Z) : M (cap_state H) unit :=
  tbl <- get_table t ;;
  set_table t (mkTable (<[Z.to_nat idx := 0]> (slots tbl)) (gens tbl)
                 (free_stack tbl) (free_top tbl)) ;;;
  cap_entry_free e ;;;
  tbl <- get_table t ;;
  g <- load (gens tbl !! Z.to_nat idx) ;;
  set_table t (mkTable (slots tbl) (<[Z.to_nat idx := cap_bump_gen g]> (gens tbl))
                 (free_stack tbl) (free_top tbl)) ;;;
  cap_table_free_slot t idx.

Definition cap_table_remove (t h : Z) : M (cap_state H) cap_status :=
  if t =? 0 then ret CAP_ERR_INVALID
  else
    r <- cap_lookup_ex t h 0 ;;
    match r with
    | inl st => ret st
    | inr e =>
      let idx := cap_handle_index h in
      if negb (cap_slot_valid_index idx) then ret CAP_ERR_INVALID
      else clear_slot t idx e ;;; ret CAP_OK
    end.

Fixpoint invalidate_loop (t ob i : Z) (fuel : nat) : M (cap_state H) unit :=
  match fuel with
  | O => ret tt
  | S fuel =>
    tbl <- get_table t ;;
    e <- load (slots tbl !! Z.to_nat i) ;;
    (if e =? 0 then ret tt
     else
       v <- get_entry e ;;
       if Z.land (flags v) CAP_ENTRY_FLAG_VALID =? 0 then ret tt
       else if negb (obj v =? ob) then ret tt
       else clear_slot t i e) ;;;
    invalidate_loop t ob (i + 1) fuel
  end.

Definition cap_table_invalidate_object (t ob : Z) : M (cap_state H) unit :=
  if (t =? 0) || (ob =? 0) then ret tt
  else invalidate_loop t ob 0 (Z.to_nat CONFIG_CAP_TABLE_SLOTS).

Definition cap_table_invalidate (t h : Z) : M (cap_state H) cap_status := cap_table_remove t h.

(** ** cap_ops.c *)

Definition cap_create (t : Z) (ty : cap_type) (rts ob : Z) (out : bool)
    : M (cap_state H) (cap_status + Z) :=
  if (t =? 0) || negb out then ret (inl CAP_ERR_INVALID)
  else cap_table_insert t ty rts ob out.

Definition cap_dup (src h dst mask : Z) (out : bool) : M (cap_state H) (cap_status + Z) :=
  if (src =? 0) || (dst =? 0) || negb out then ret (inl CAP_ERR_INVALID)
  else
    e <- cap_lookup src h CAP_R_DUP ;;
    if e =? 0 then ret (inl CAP_ERR_DENIED)
    else
      v <- get_entry e ;;
      cap_table_insert dst (type v) (Z.land (rights v) mask) (obj v) out.

Definition cap_transfer (src h dst mask : Z) (out : bool) : M (cap_state H) (cap_status + Z) :=
  if (src =? 0) || (dst =? 0) || negb out then ret (inl CAP_ERR_INVALID)
  else
    e <- cap_lookup src h CAP_R_TRANSFER ;;
    if e =? 0 then ret (inl CAP_ERR_DENIED)
    else
      v <- get_entry e ;;
      r <- cap_table_insert dst (type v) (Z.land (rights v) mask) (obj v) out ;;
      match r with
      | inl st => ret (inl st)
      | inr new =>
        st <- cap_table_remove src h ;;
        if decide (st = CAP_OK) then ret (inr new)
        else cap_table_remove dst new ;;; ret (inl st)
      end.

Definition cap_drop (t h : Z) : M (cap_state H) cap_status :=
  if t =? 0 then ret CAP_ERR_INVALID else cap_table_remove t h.

Definition cap_invalidate (t h : Z) : M (cap_state H) cap_status :=
  if t =? 0 then ret CAP_ERR_INVALID else cap_table_invalidate t h.

(** The DEBUG body of [cap_ops_selftest]. *)
Definition expect (b : bool) (msg : string) : M (cap_state H) unit :=
  assert_that b ("cap_ops_selftest: " +:+ msg).

Definition cap_ops_selftest (t : Z) : M (cap_state H) unit :=
  assert_that (negb (t =? 0)) "cap_ops_selftest: null table" ;;;
  let rwx := Z.lor (Z.lor CAP_R_READ CAP_R_DUP) CAP_R_TRANSFER in
  r <- cap_create t CAP_TYPE_ENDPOINT rwx 0x1234 true ;;
  h <- (match r with inr h => ret h | inl _ => panic "cap_ops_selftest: cap_create failed" end) ;;
  e <- cap_lookup t h CAP_R_READ ;;
  expect (negb (e =? 0)) "cap_lookup failed" ;;;
  v <- get_entry e ;;
  expect (bool_decide (type v = CAP_TYPE_ENDPOINT)) "type mismatch" ;;;
  expect (obj v =? 0x1234) "obj mismatch" ;;;
  st <- cap_drop t h ;;
  expect (bool_decide (st = CAP_OK)) "cap_drop failed" ;;;
  e <- cap_lookup t h CAP_R_READ ;;
  expect (e =? 0) "stale handle should fail" ;;;
  r <- cap_create t CAP_TYPE_VMO rwx 0xBEEF true ;;
  h1 <- (match r with inr h => ret h | inl _ => panic "cap_ops_selftest: cap_create #2 failed" end) ;;
  r <- cap_dup t h1 t CAP_R_READ true ;;
  hd <- (match r with inr h => ret h | inl _ => panic "cap_ops_selftest: cap_dup failed" end) ;;
  r <- cap_transfer t h1 t CAP_R_READ true ;;
  hx <- (match r with inr h => ret h | inl _ => panic "cap_ops_selftest: cap_transfer failed" end) ;;
  cap_drop t hd ;;;
  cap_drop t hx ;;;
  ret tt.
End ops.

(** ** The invariant of a table *)

Definition free_list (tbl : cap_table) : list Z := take (Z.to_nat (free_top tbl)) (free_stack tbl).

(** Relative to the entries in the store: the free list is exactly the empty
    slots, each once; a filled slot holds a valid entry of the slot's
    generation; generation 0 is never in use. *)
Record table_wf (ents : gmap Z cap_entry) (tbl : cap_table) : Prop := {
  tw_slots : length (slots tbl) = 256%nat;
  tw_gens_len : length (gens tbl) = 256%nat;
  tw_stack : length (free_stack tbl) = 256%nat;
  tw_top : 0 ≤ free_top tbl ≤ 256;
  tw_gens : ∀ i g, gens tbl !! i = Some g → 1 ≤ g < 2 ^ 32;
  tw_nodup : NoDup (free_list tbl);
  tw_free : ∀ x, x ∈ free_list tbl ↔ 0 ≤ x ∧ slots tbl !! Z.to_nat x = Some 0;
  tw_entry : ∀ i e, slots tbl !! i = Some e → e ≠ 0 →
    ∃ v, ents !! e = Some v ∧ gens tbl !! i = Some (gen v) ∧ flags v = CAP_ENTRY_FLAG_VALID;
}.

Lemma table_wf_frame ents ents' tbl :
  table_wf ents tbl →
  (∀ i e, slots tbl !! i = Some e → e ≠ 0 → ents' !! e = ents !! e) →
  table_wf ents' tbl.
Proof.
  intros [] Hf. split; try done. intros i e Hi He. rewrite (Hf i e) by done. eauto.
Qed.

Lemma free_list_bound ents tbl x : table_wf ents tbl → x ∈ free_list tbl → 0 ≤ x < 256.
Proof.
  intros Hwf [H0 Hs]%(tw_free _ _ Hwf). apply lookup_lt_Some in Hs.
  rewrite (tw_slots _ _ Hwf) in Hs. lia.
Qed.

Lemma free_list_length ents tbl : table_wf ents tbl →
  Z.of_nat (length (free_list tbl)) = free_top tbl.
Proof.
  intros Hwf. unfold free_list. rewrite length_take, (tw_stack _ _ Hwf).
  pose proof (tw_top _ _ Hwf). lia.
Qed.

(** Distinct indices of a table are fewer than 256 when one is missing. *)
Lemma missing_index_length (l : list Z) (x : Z) :
  NoDup l → (∀ y, y ∈ l → 0 ≤ y < 256) → 0 ≤ x < 256 → x ∉ l → (length l < 256)%nat.
Proof.
  intros Hnd Hb Hx Hn.
  assert (NoDup (x :: l)) as Hnd' by (by constructor).
  assert ((x :: l) ⊆+ seqZ 0 256) as Hsub.
  { apply NoDup_submseteq; [done|]. intros y [->|Hy]%elem_of_cons; apply elem_of_seqZ; [lia|].
    apply Hb in Hy. lia. }
  apply submseteq_length in Hsub. rewrite length_seqZ in Hsub. simpl in Hsub. lia.
Qed.

(** The table after a successful insertion of [e] at the popped index. *)
Definition filled (tbl : cap_table) (idx e : Z) : cap_table :=
  mkTable (<[Z.to_nat idx := e]> (slots tbl)) (gens tbl) (free_stack tbl) (free_top tbl - 1).

Lemma free_list_pop ents tbl idx : table_wf ents tbl → 0 < free_top tbl →
  free_stack tbl !! Z.to_nat (free_top tbl - 1) = Some idx →
  free_list tbl = take (Z.to_nat (free_top tbl - 1)) (free_stack tbl) ++ [idx] ∧
  0 ≤ idx < 256 ∧ slots tbl !! Z.to_nat idx = Some 0 ∧
  idx ∉ take (Z.to_nat (free_top tbl - 1)) (free_stack tbl).
Proof.
  intros Hwf Hpos Hl. assert (free_list tbl =
    take (Z.to_nat (free_top tbl - 1)) (free_stack tbl) ++ [idx]) as E.
  { unfold free_list.
    replace (Z.to_nat (free_top tbl)) with (S (Z.to_nat (free_top tbl - 1))) by lia.
    by apply take_S_r. }
  assert (idx ∈ free_list tbl) as Hin by (rewrite E; set_solver).
  pose proof (free_list_bound _ _ _ Hwf Hin). apply (tw_free _ _ Hwf) in Hin as [_ Hs].
  pose proof (tw_nodup _ _ Hwf) as Hnd. rewrite E in Hnd.
  apply NoDup_app in Hnd as (_ & Hd & _). split_and!; try done; try lia.
  intros Hc. apply (Hd idx Hc). set_solver.
Qed.

Lemma filled_wf ents tbl idx e v :
  table_wf ents tbl → 0 < free_top tbl →
  free_stack tbl !! Z.to_nat (free_top tbl - 1) = Some idx →
  ents !! e = None → e ≠ 0 → gens tbl !! Z.to_nat idx = Some (gen v) →
  flags v = CAP_ENTRY_FLAG_VALID →
  table_wf (<[e := v]> ents) (filled tbl idx e).
Proof.
  intros Hwf Hpos Hl He Hne Hg Hfl.
  destruct (free_list_pop _ _ _ Hwf Hpos Hl) as (Efl & Hidx & Hs & Hni).
  destruct Hwf as [Hsl Hgl Hst Htop Hgens Hnd Hfree Hent].
  rewrite Efl in Hnd, Hfree. apply NoDup_app in Hnd as (Hnd & Hdis & _).
  split; try done; unfold filled in *; simpl; rewrite ?length_insert; try done; try lia.
  - intros x. change (free_list _) with (take (Z.to_nat (free_top tbl - 1)) (free_stack tbl)).
    assert (x ∈ take (Z.to_nat (free_top tbl - 1)) (free_stack tbl) ↔
      x ∈ take (Z.to_nat (free_top tbl - 1)) (free_stack tbl) ++ [idx] ∧ x ≠ idx) as ->.
    { rewrite elem_of_app, list_elem_of_singleton. split; [|tauto].
      intros Hx. split; [by left|]. by intros ->. }
    rewrite Hfree. split.
    + intros [[H0 Hx] Hne']. split; [done|]. rewrite list_lookup_insert_ne by lia. done.
    + intros [H0 Hx]. destruct (decide (x = idx)) as [->|Hx'].
      * rewrite list_lookup_insert_eq in Hx by lia. congruence.
      * rewrite list_lookup_insert_ne in Hx by lia. done.
  - intros i e' Hi He'. destruct (decide (i = Z.to_nat idx)) as [->|Hi'].
    + rewrite list_lookup_insert_eq in Hi by lia. injection Hi as <-.
      exists v. by rewrite lookup_insert_eq.
    + rewrite list_lookup_insert_ne in Hi by done.
      destruct (Hent i e' Hi He') as (v' & Hv' & ?). exists v'. split; [|done].
      rewrite lookup_insert_ne; [done|]. congruence.
Qed.

(** The table after slot [idx] is emptied. *)
Definition emptied (tbl : cap_table) (idx g : Z) : cap_table :=
  mkTable (<[Z.to_nat idx := 0]> (slots tbl)) (<[Z.to_nat idx := cap_bump_gen g]> (gens tbl))
    (<[Z.to_nat (free_top tbl) := idx]> (free_stack tbl)) (free_top tbl + 1).

Lemma cap_bump_gen_range g : 1 ≤ g < 2 ^ 32 → 1 ≤ cap_bump_gen g < 2 ^ 32.
Proof.
  intros Hg. unfold cap_bump_gen. pose proof (u32_range (g + 1)). case_if; bool_simpl; lia.
Qed.

Lemma filled_slot_room ents tbl idx e : table_wf ents tbl →
  0 ≤ idx < 256 → slots tbl !! Z.to_nat idx = Some e → e ≠ 0 → free_top tbl < 256.
Proof.
  intros Hwf Hidx Hs He. rewrite <- (free_list_length _ _ Hwf).
  assert (idx ∉ free_list tbl) as Hn by (rewrite (tw_free _ _ Hwf), Hs; naive_solver).
  pose proof (missing_index_length (free_list tbl) idx (tw_nodup _ _ Hwf)
    (λ y, free_list_bound _ _ y Hwf) Hidx Hn). lia.
Qed.

Lemma emptied_wf ents tbl idx e g :
  table_wf ents tbl → 0 ≤ idx < 256 → slots tbl !! Z.to_nat idx = Some e → e ≠ 0 →
  gens tbl !! Z.to_nat idx = Some g →
  (∀ i, slots tbl !! i = Some e → i = Z.to_nat idx) →
  table_wf (delete e ents) (emptied tbl idx g).
Proof.
  intros Hwf Hidx Hs He Hg Huniq.
  pose proof (filled_slot_room _ _ _ _ Hwf Hidx Hs He) as Hroom.
  assert (idx ∉ free_list tbl) as Hn by (rewrite (tw_free _ _ Hwf), Hs; naive_solver).
  destruct Hwf as [Hsl Hgl Hst Htop Hgens Hnd Hfree Hent].
  assert (free_list (emptied tbl idx g) = free_list tbl ++ [idx]) as Efl.
  { unfold free_list, emptied; simpl.
    replace (Z.to_nat (free_top tbl + 1)) with (S (Z.to_nat (free_top tbl))) by lia.
    rewrite (take_S_r _ _ idx) by (rewrite list_lookup_insert_eq; [done|lia]).
    by rewrite take_insert_ge by lia. }
  split; try done; unfold emptied in *; simpl; rewrite ?length_insert; try done; try lia.
  - intros i g' Hi. destruct (decide (i = Z.to_nat idx)) as [->|Hi'].
    + rewrite list_lookup_insert_eq in Hi by lia. injection Hi as <-.
      by apply cap_bump_gen_range, (Hgens (Z.to_nat idx)).
    + rewrite list_lookup_insert_ne in Hi by done. by apply (Hgens i).
  - rewrite Efl. apply NoDup_app. split_and!; [done| |apply NoDup_singleton].
    intros x Hx ->%list_elem_of_singleton. done.
  - intros x. rewrite Efl, elem_of_app, list_elem_of_singleton, Hfree.
    destruct (decide (x = idx)) as [->|Hx].
    + rewrite list_lookup_insert_eq by lia. split; [intros _; split; [lia|done]|by right].
    + split.
      * intros [[H0 ?]|?]; [|done]. split; [done|]. by rewrite list_lookup_insert_ne by lia.
      * intros [H0 Hl]. left. rewrite list_lookup_insert_ne in Hl by lia. done.
  - intros i e' Hi He'. destruct (decide (i = Z.to_nat idx)) as [->|Hi'].
    + rewrite list_lookup_insert_eq in Hi by lia. by injection Hi as <-.
    + rewrite list_lookup_insert_ne in Hi by done.
      destruct (Hent i e' Hi He') as (v' & Hv' & Hg' & ?). exists v'. split_and!; [|  |done].
      * rewrite lookup_delete_ne; [done|]. intros ->. apply Hi', Huniq. done.
      * by rewrite list_lookup_insert_ne by done.
Qed.

(** ** The invariant of the store *)

Section spec.
Context {H : Type} `{!ObjHeap H}.
Implicit Types (s : cap_state H) (lv : lives).

(** Slot [i] of the table at [t] holds the pointer [e]. *)
Definition slot_at s (t : Z) (i : nat) (e : Z) : Prop :=
  ∃ tbl, tables s !! t = Some tbl ∧ slots tbl !! i = Some e.

(** Entries are owned: the live objects of the entry cache are the entries of
    the store, each in exactly one slot of one table (no leak, no sharing). *)
Record cap_inv s lv : Prop := {
  ci_heap : oh_rep (heap s) lv;
  ci_dom : dom (entries s) = lv CCapEntry;
  ci_tables : ∀ t tbl, tables s !! t = Some tbl → table_wf (entries s) tbl;
  ci_unique : ∀ t1 i1 t2 i2 e, slot_at s t1 i1 e → slot_at s t2 i2 e → e ≠ 0 →
    t1 = t2 ∧ i1 = i2;
  ci_owned : ∀ e v, entries s !! e = Some v → ∃ t i, slot_at s t i e;
  ci_inited : inited s = true;
  ci_null : tables s !! 0 = None;
}.

Lemma ci_entry_null s lv : cap_inv s lv → entries s !! 0 = None.
Proof.
  intros Hi. apply not_elem_of_dom. rewrite (ci_dom _ _ Hi). eapply oh_rep_nonnull, Hi.
Qed.

Lemma table_nonnull s lv t tbl : cap_inv s lv → tables s !! t = Some tbl → t ≠ 0.
Proof. intros Hi Ht ->. by rewrite (ci_null _ _ Hi) in Ht. Qed.

(** ** The abstract capability space: what a handle of a table denotes *)

Definition entry_of s (t h : Z) : option (Z * cap_entry) :=
  tbl ← tables s !! t;
  e ← slots tbl !! Z.to_nat (cap_handle_index h);
  v ← entries s !! e;
  if cap_handle_gen h =? gen v then Some (e, v) else None.

Definition cap : Type := cap_type * Z * Z.
Definition cap_of (v : cap_entry) : cap := (type v, rights v, obj v).
Definition cap_view s (t h : Z) : option cap := (λ ev, cap_of ev.2) <$> entry_of s t h.

(** The generation of a slot. *)
Definition gen_at s (t : Z) (i : nat) : option Z := tbl ← tables s !! t; gens tbl !! i.

(** *** Handles *)

Lemma handle_index_eq h : cap_handle_index h = h mod 2 ^ 32.
Proof.
  unfold cap_handle_index, u32. change 0xFFFFFFFF with (Z.ones 32).
  rewrite Z.land_ones by lia. rewrite Z.mod_mod; lia.
Qed.
Lemma handle_gen_eq h : 0 ≤ h < 2 ^ 64 → cap_handle_gen h = h / 2 ^ 32.
Proof.
  intros Hh. unfold cap_handle_gen. rewrite Z.shiftr_div_pow2 by lia.
  apply u32_small. Z.div_mod_to_equations. lia.
Qed.
Lemma handle_make_eq g i : 0 ≤ i < 2 ^ 32 → cap_handle_make g i = g * 2 ^ 32 + i.
Proof. intros Hi. apply lor_shiftl_low; lia. Qed.

Lemma handle_make_unpack g i : 0 ≤ g < 2 ^ 32 → 0 ≤ i < 2 ^ 32 →
  0 ≤ cap_handle_make g i < 2 ^ 64 ∧
  cap_handle_index (cap_handle_make g i) = i ∧ cap_handle_gen (cap_handle_make g i) = g.
Proof.
  intros Hg Hi. rewrite handle_make_eq by done.
  assert (0 ≤ g * 2 ^ 32 + i < 2 ^ 64) by lia. split; [done|].
  rewrite handle_index_eq, handle_gen_eq by done. split; Z.div_mod_to_equations; lia.
Qed.

Lemma handle_eq h h' : 0 ≤ h < 2 ^ 64 → 0 ≤ h' < 2 ^ 64 →
  cap_handle_index h = cap_handle_index h' → cap_handle_gen h = cap_handle_gen h' → h = h'.
Proof.
  intros Hh Hh'. rewrite !handle_index_eq, !handle_gen_eq by done.
  intros. Z.div_mod_to_equations. lia.
Qed.

(** *** Lookup *)

Lemma entry_of_slot s lv t h e v : cap_inv s lv → entry_of s t h = Some (e, v) →
  ∃ tbl, tables s !! t = Some tbl ∧ 0 ≤ cap_handle_index h < 256 ∧
    slots tbl !! Z.to_nat (cap_handle_index h) = Some e ∧ e ≠ 0 ∧ entries s !! e = Some v ∧
    cap_handle_gen h = gen v ∧ gens tbl !! Z.to_nat (cap_handle_index h) = Some (gen v) ∧
    flags v = CAP_ENTRY_FLAG_VALID ∧ 1 ≤ gen v < 2 ^ 32.
Proof.
  intros Hi. unfold entry_of. destruct (tables s !! t) as [tbl|] eqn:Et; [|done]. cbn [mbind option_bind].
  destruct (slots tbl !! _) as [e'|] eqn:Es; [|done]. cbn [mbind option_bind].
  destruct (entries s !! e') as [v'|] eqn:Ev; [|done]. cbn [mbind option_bind].
  destruct (Z.eqb_spec (cap_handle_gen h) (gen v')); [|done]. intros [= -> ->].
  pose proof (ci_tables _ _ Hi _ _ Et) as Hwf.
  assert (e ≠ 0) as He by (intros ->; by rewrite (ci_entry_null _ _ Hi) in Ev).
  destruct (tw_entry _ _ Hwf _ _ Es He) as (v'' & Hv & Hg & Hf).
  rewrite Ev in Hv. injection Hv as <-. exists tbl.
  pose proof (lookup_lt_Some _ _ _ Es) as Hlt. rewrite (tw_slots _ _ Hwf) in Hlt.
  pose proof (u32_range (Z.land h 0xFFFFFFFF)) as Hr. unfold cap_handle_index in *.
  pose proof (tw_gens _ _ Hwf _ _ Hg). split_and!; done || lia.
Qed.

Lemma wp_lookup_ex t tbl h need c s lv Q :
  cap_inv s lv → tables s !! t = Some tbl →
  (∀ e v, entry_of s t h = Some (e, v) → cap_rights_has (rights v) need = true → Q (inr e) c s) →
  (∀ e v, entry_of s t h = Some (e, v) → cap_rights_has (rights v) need = false →
     Q (inl CAP_ERR_DENIED) c s) →
  (entry_of s t h = None → Q (inl CAP_ERR_INVALID) c s) →
  wp (cap_lookup_ex t h need) Q c s.
Proof.
  intros Hi Ht Hok Hden Hinv. pose proof (ci_tables _ _ Hi _ _ Ht) as Hwf.
  unfold cap_lookup_ex, get_table, get_entry.
  destruct (Z.eqb_spec t 0); [by eapply table_nonnull in Ht|].
  assert (entry_of s t h = (e ← slots tbl !! Z.to_nat (cap_handle_index h);
    v ← entries s !! e; if cap_handle_gen h =? gen v then Some (e, v) else None)) as E.
  { unfold entry_of. by rewrite Ht. }
  unfold cap_slot_valid_index, CONFIG_CAP_TABLE_SLOTS.
  pose proof (u32_range (Z.land h 0xFFFFFFFF)) as Hr. fold (cap_handle_index h) in Hr.
  destruct (Z.ltb_spec (cap_handle_index h) 256); cbn [negb]; last first.
  { wp_steps. apply Hinv. rewrite E, lookup_ge_None_2; [done|]. rewrite (tw_slots _ _ Hwf). lia. }
  wp_steps. rewrite Ht. wp_steps.
  destruct (slots tbl !! Z.to_nat (cap_handle_index h)) as [e|] eqn:Es; last first.
  { apply lookup_ge_None_1 in Es. rewrite (tw_slots _ _ Hwf) in Es. lia. }
  cbn [mbind option_bind] in E. wp_steps. destruct (Z.eqb_spec e 0) as [->|He].
  { wp_steps. apply Hinv. by rewrite E, (ci_entry_null _ _ Hi). }
  destruct (tw_entry _ _ Hwf _ _ Es He) as (v & Hv & Hg & Hf).
  wp_steps. rewrite Hv. wp_steps. rewrite Hf. change (Z.land _ _ =? 0) with false. cbv iota.
  rewrite Hg. wp_steps. rewrite Hv in E. cbn [mbind option_bind] in E.
  pose proof (tw_gens _ _ Hwf _ _ Hg).
  destruct (Z.eqb_spec (cap_handle_gen h) 0); cbn [orb].
  { wp_steps. apply Hinv. rewrite E. destruct (Z.eqb_spec (cap_handle_gen h) (gen v)); [lia|done]. }
  destruct (cap_handle_gen h =? gen v); cbn [negb orb]; [|wp_steps; by apply Hinv].
  fold (cap_rights_has (rights v) need).
  destruct (cap_rights_has (rights v) need) eqn:Er; cbn [negb]; wp_steps;
    [by apply (Hok e v)|by apply (Hden e v)].
Qed.

(** *** Entry allocation *)

Lemma wp_cap_entry_alloc c s lv Q :
  oh_rep (heap s) lv → inited s = true → irq_depth c = 0 →
  (∀ h', oh_rep h' lv → Q 0 c (mkCapState (tables s) (entries s) h' (inited s))) →
  (∀ e h', e ≠ 0 → e ∉ lv CCapEntry → oh_rep h' (upd CCapEntry ({[e]} ∪ lv CCapEntry) lv) →
     Q e c (mkCapState (tables s) (<[e := mkEntry CAP_TYPE_INVALID 0 0 0 0]> (entries s)) h' (inited s))) →
  wp cap_entry_alloc Q c s.
Proof.
  intros Hrep Hin Hc H0 H1. unfold cap_entry_alloc, set_entry.
  wp_step. apply wp_assert_thread; [done|]. wp_steps; [done|].
  eapply wp_mono; [by apply oh_alloc_spec|]. cbv beta.
  intros e c' h' [-> [[-> Hr]|(He & Hn & Hr)]].
  - rewrite Z.eqb_refl. wp_steps. by apply H0.
  - destruct (Z.eqb_spec e 0); [done|]. wp_steps. by apply H1.
Qed.

Lemma wp_cap_entry_free e c s lv Q :
  oh_rep (heap s) lv → inited s = true → irq_depth c = 0 → e ∈ lv CCapEntry →
  (∀ h', oh_rep h' (upd CCapEntry (lv CCapEntry ∖ {[e]}) lv) →
     Q tt c (mkCapState (tables s) (delete e (entries s)) h' (inited s))) →
  wp (cap_entry_free e) Q c s.
Proof.
  intros Hrep Hin Hc He H1. unfold cap_entry_free.
  wp_step. apply wp_assert_thread; [done|]. cbv beta.
  destruct (Z.eqb_spec e 0) as [->|_]; [by destruct (oh_rep_nonnull _ _ CCapEntry Hrep)|].
  wp_steps; [done|]. eapply wp_mono; [by apply oh_free_spec|]. cbv beta.
  intros [] c' h' [-> Hr]. wp_steps. by apply H1.
Qed.

(** *** Filling and emptying a slot of the store *)

Definition store_fill s (t : Z) (tbl : cap_table) (idx e : Z) (v : cap_entry) (h' : H) : cap_state H :=
  mkCapState (<[t := filled tbl idx e]> (tables s)) (<[e := v]> (entries s)) h' (inited s).
Definition store_empty s (t : Z) (tbl : cap_table) (idx e g : Z) (h' : H) : cap_state H :=
  mkCapState (<[t := emptied tbl idx g]> (tables s)) (delete e (entries s)) h' (inited s).

Lemma slot_at_insert (ts : gmap Z cap_table) es h' b t tbl tbl' idx e t' i x :
  ts !! t = Some tbl → slots tbl' = <[idx := e]> (slots tbl) → (idx < length (slots tbl))%nat →
  slot_at (mkCapState (<[t := tbl']> ts) es h' b) t' i x ↔
  (t' = t ∧ i = idx ∧ x = e) ∨
  ((t' ≠ t ∨ i ≠ idx) ∧ slot_at (mkCapState ts es h' b) t' i x).
Proof.
  intros Ht Hs Hlt. unfold slot_at; simpl. split.
  - intros (tb & Htb & Hx). destruct (decide (t' = t)) as [->|Hne].
    + rewrite lookup_insert_eq in Htb. injection Htb as <-. rewrite Hs in Hx.
      destruct (decide (i = idx)) as [->|Hi].
      * rewrite list_lookup_insert_eq in Hx by done. injection Hx as <-. by left.
      * rewrite list_lookup_insert_ne in Hx by done. right. eauto.
    + rewrite lookup_insert_ne in Htb by done. right. eauto.
  - intros [(-> & -> & ->)|(Hne & tb & Htb & Hx)].
    + exists tbl'. rewrite lookup_insert_eq, Hs. by rewrite list_lookup_insert_eq.
    + destruct (decide (t' = t)) as [->|Hne'].
      * destruct Hne as [?|Hi]; [done|]. exists tbl'. rewrite lookup_insert_eq, Hs.
        rewrite list_lookup_insert_ne by done. rewrite Ht in Htb. by injection Htb as <-.
      * exists tb. by rewrite lookup_insert_ne.
Qed.

(** A filled slot's pointer is in the store; a pointer outside it is in no slot. *)
Lemma slot_entry s lv t i e : cap_inv s lv → slot_at s t i e → e ≠ 0 → is_Some (entries s !! e).
Proof.
  intros Hi (tbl & Ht & Hs) He.
  destruct (tw_entry _ _ (ci_tables _ _ Hi _ _ Ht) _ _ Hs He) as (v & Hv & _). eauto.
Qed.

Lemma store_fill_inv s lv t tbl idx e v h' :
  cap_inv s lv → tables s !! t = Some tbl → 0 < free_top tbl →
  free_stack tbl !! Z.to_nat (free_top tbl - 1) = Some idx →
  e ∉ lv CCapEntry → e ≠ 0 → gens tbl !! Z.to_nat idx = Some (gen v) →
  flags v = CAP_ENTRY_FLAG_VALID →
  oh_rep h' (upd CCapEntry ({[e]} ∪ lv CCapEntry) lv) →
  cap_inv (store_fill s t tbl idx e v h') (upd CCapEntry ({[e]} ∪ lv CCapEntry) lv).
Proof.
  intros Hi Ht Hpos Hst He Hne Hg Hf Hrep.
  assert (entries s !! e = None) as Hnone.
  { apply not_elem_of_dom. by rewrite (ci_dom _ _ Hi). }
  pose proof (ci_tables _ _ Hi _ _ Ht) as Hwf.
  destruct (free_list_pop _ _ _ Hwf Hpos Hst) as (_ & Hidx & Hs0 & _).
  assert (Z.to_nat idx < length (slots tbl))%nat as Hlt by (rewrite (tw_slots _ _ Hwf); lia).
  assert (∀ t' i x, slot_at (store_fill s t tbl idx e v h') t' i x ↔
    (t' = t ∧ i = Z.to_nat idx ∧ x = e) ∨ ((t' ≠ t ∨ i ≠ Z.to_nat idx) ∧ slot_at s t' i x)) as Hsl.
  { intros t' i x. unfold store_fill. rewrite (slot_at_insert _ _ _ _ t tbl _ (Z.to_nat idx) e) by done. done. }
  split; try done.
  - simpl. rewrite dom_insert_L, (ci_dom _ _ Hi), upd_eq. done.
  - intros t' tbl' Ht'. simpl in *. destruct (decide (t' = t)) as [->|Hne'].
    + rewrite lookup_insert_eq in Ht'. injection Ht' as <-. by apply filled_wf.
    + rewrite lookup_insert_ne in Ht' by done. eapply table_wf_frame; [by eapply (ci_tables _ _ Hi)|].
      intros i e' Hs' He'. rewrite lookup_insert_ne; [done|]. intros ->.
      destruct (slot_entry s lv t' i e' Hi) as [? ?]; [by exists tbl'|done|congruence].
  - intros t1 i1 t2 i2 x. rewrite !Hsl. intros [(-> & -> & ->)|[Hn1 H1]] [(-> & -> & E)|[Hn2 H2]] Hx.
    + done.
    + destruct (slot_entry _ _ _ _ _ Hi H2 Hx) as [? ?]. congruence.
    + subst. destruct (slot_entry _ _ _ _ _ Hi H1 Hx) as [? ?]. congruence.
    + by eapply (ci_unique _ _ Hi).
  - simpl. intros e' v'. destruct (decide (e' = e)) as [->|He'].
    + intros _. exists t, (Z.to_nat idx). apply Hsl. by left.
    + rewrite lookup_insert_ne by done. intros Hv'.
      destruct (ci_owned _ _ Hi _ _ Hv') as (t' & i & Hti). exists t', i. apply Hsl. right.
      split; [|done]. destruct (decide (t' = t)) as [->|]; [|by left].
      destruct (decide (i = Z.to_nat idx)) as [->|]; [|by right].
      destruct Hti as (tb & Htb & Hx). rewrite Ht in Htb. injection Htb as <-.
      rewrite Hs0 in Hx. injection Hx as <-. by rewrite (ci_entry_null _ _ Hi) in Hv'.
  - simpl. by apply (ci_inited _ _ Hi).
  - simpl. rewrite lookup_insert_ne; [by apply (ci_null _ _ Hi)|]. by eapply table_nonnull.
Qed.

Lemma store_empty_inv s lv t tbl idx e g h' :
  cap_inv s lv → tables s !! t = Some tbl → 0 ≤ idx < 256 →
  slots tbl !! Z.to_nat idx = Some e → e ≠ 0 → gens tbl !! Z.to_nat idx = Some g →
  oh_rep h' (upd CCapEntry (lv CCapEntry ∖ {[e]}) lv) →
  cap_inv (store_empty s t tbl idx e g h') (upd CCapEntry (lv CCapEntry ∖ {[e]}) lv).
Proof.
  intros Hi Ht Hidx Hs He Hg Hrep. pose proof (ci_tables _ _ Hi _ _ Ht) as Hwf.
  assert (Z.to_nat idx < length (slots tbl))%nat as Hlt by (rewrite (tw_slots _ _ Hwf); lia).
  assert (slot_at s t (Z.to_nat idx) e) as Hse by (by exists tbl).
  assert (∀ t' i x, slot_at (store_empty s t tbl idx e g h') t' i x ↔
    (t' = t ∧ i = Z.to_nat idx ∧ x = 0) ∨ ((t' ≠ t ∨ i ≠ Z.to_nat idx) ∧ slot_at s t' i x)) as Hsl.
  { intros t' i x. unfold store_empty. rewrite (slot_at_insert _ _ _ _ t tbl _ (Z.to_nat idx) 0) by done. done. }
  split; try done.
  - simpl. rewrite dom_delete_L, (ci_dom _ _ Hi), upd_eq. done.
  - intros t' tbl' Ht'. simpl in *. destruct (decide (t' = t)) as [->|Hne'].
    + rewrite lookup_insert_eq in Ht'. injection Ht' as <-. apply (emptied_wf _ _ idx e g); try done.
      intros i Hx. eapply (ci_unique _ _ Hi t i t); [by exists tbl|done|done].
    + rewrite lookup_insert_ne in Ht' by done. eapply table_wf_frame; [by eapply (ci_tables _ _ Hi)|].
      intros i e' Hs' He'. rewrite lookup_delete_ne; [done|]. intros ->.
      destruct (ci_unique _ _ Hi t (Z.to_nat idx) t' i e') as [? _]; [done|by exists tbl'|done|congruence].
  - intros t1 i1 t2 i2 x. rewrite !Hsl. intros [(-> & -> & ->)|[Hn1 H1]] [(-> & -> & E)|[Hn2 H2]] Hx;
      try done. by eapply (ci_unique _ _ Hi).
  - simpl. intros e' v'. destruct (decide (e' = e)) as [->|He']; [by rewrite lookup_delete_eq|].
    rewrite lookup_delete_ne by done. intros Hv'.
    destruct (ci_owned _ _ Hi _ _ Hv') as (t' & i & Hti). exists t', i. apply Hsl. right.
    split; [|done]. destruct (decide (t' = t)) as [->|]; [|by left].
    destruct (decide (i = Z.to_nat idx)) as [->|]; [|by right].
    destruct Hti as (tb & Htb & Hx). rewrite Ht in Htb. injection Htb as <-. congruence.
  - simpl. by apply (ci_inited _ _ Hi).
  - simpl. rewrite lookup_insert_ne; [by apply (ci_null _ _ Hi)|]. by eapply table_nonnull.
Qed.

(** *** Effect on the abstract space *)

Lemma entry_of_iff s t h e v :
  entry_of s t h = Some (e, v) ↔
  slot_at s t (Z.to_nat (cap_handle_index h)) e ∧ entries s !! e = Some v ∧
  cap_handle_gen h = gen v.
Proof.
  unfold entry_of, slot_at. split.
  - destruct (tables s !! t) as [tbl|]; [|done]. cbn [mbind option_bind].
    destruct (slots tbl !! _) as [e'|] eqn:Es; [|done]. cbn [mbind option_bind].
    destruct (entries s !! e') as [v'|] eqn:Ev; [|done]. cbn [mbind option_bind].
    destruct (Z.eqb_spec (cap_handle_gen h) (gen v')); [|done]. intros [= -> ->]. eauto.
  - intros ((tbl & -> & Hs) & Hv & Hg). cbn [mbind option_bind]. rewrite Hs.
    cbn [mbind option_bind]. rewrite Hv. cbn [mbind option_bind]. by rewrite Hg, Z.eqb_refl.
Qed.

Lemma handle_make_neq g idx h : 0 ≤ g < 2 ^ 32 → 0 ≤ idx < 256 → 0 ≤ h < 2 ^ 64 →
  h ≠ cap_handle_make g idx → cap_handle_gen h = g → Z.to_nat (cap_handle_index h) ≠ Z.to_nat idx.
Proof.
  intros Hg Hi Hh Hne Hgen E. apply Hne.
  destruct (handle_make_unpack g idx) as (? & E1 & E2); [done|lia|].
  apply handle_eq; [done|done| |congruence]. rewrite E1.
  pose proof (u32_range (Z.land h 0xFFFFFFFF)) as Hr. fold (cap_handle_index h) in Hr. lia.
Qed.

Lemma store_fill_entry s lv t tbl idx e v h' t' h :
  cap_inv s lv → tables s !! t = Some tbl → 0 ≤ idx < 256 →
  slots tbl !! Z.to_nat idx = Some 0 → e ∉ lv CCapEntry → e ≠ 0 →
  1 ≤ gen v < 2 ^ 32 → 0 ≤ h < 2 ^ 64 →
  entry_of (store_fill s t tbl idx e v h') t' h =
  if decide (t' = t ∧ h = cap_handle_make (gen v) idx) then Some (e, v) else entry_of s t' h.
Proof.
  intros Hi Ht Hidx Hs0 He Hne Hg Hh.
  assert (entries s !! e = None) as Hnone.
  { apply not_elem_of_dom. by rewrite (ci_dom _ _ Hi). }
  pose proof (lookup_lt_Some _ _ _ Hs0) as Hlt.
  assert (∀ t' i x, slot_at (store_fill s t tbl idx e v h') t' i x ↔
    (t' = t ∧ i = Z.to_nat idx ∧ x = e) ∨ ((t' ≠ t ∨ i ≠ Z.to_nat idx) ∧ slot_at s t' i x)) as Hsl.
  { intros t2 i x. unfold store_fill. rewrite (slot_at_insert _ _ _ _ t tbl _ (Z.to_nat idx) e) by done. done. }
  case_decide as E.
  - destruct E as [-> ->]. destruct (handle_make_unpack (gen v) idx) as (_ & E1 & E2); [lia|lia|].
    apply entry_of_iff. rewrite E1, E2, Hsl. simpl. rewrite lookup_insert_eq. split_and!; [by left|done|done].
  - apply option_eq. intros [e' v']. rewrite !entry_of_iff, Hsl. simpl. split.
    + intros ([(-> & Ei & ->)|[Hn Hs]] & Hv & Hgen).
      * rewrite lookup_insert_eq in Hv. injection Hv as <-. exfalso.
        destruct (decide (h = cap_handle_make (gen v) idx)) as [->|Hh']; [by apply E|].
        by apply (handle_make_neq (gen v) idx h) in Ei; try lia.
      * split_and!; [done| |done]. destruct (decide (e' = e)) as [->|]; [|by rewrite lookup_insert_ne in Hv].
        destruct (slot_entry _ _ _ _ _ Hi Hs Hne) as [? ?]. congruence.
    + intros (Hs & Hv & Hgen). assert (e' ≠ e) by congruence.
      rewrite lookup_insert_ne by done. split_and!; [right; split; [|done]|done|done].
      destruct (decide (t' = t)) as [->|]; [right|by left]. intros Ei. rewrite Ei in Hs.
      destruct Hs as (tb & Htb & Hs). rewrite Ht in Htb. injection Htb as <-.
      rewrite Hs0 in Hs. injection Hs as <-. by rewrite (ci_entry_null _ _ Hi) in Hv.
Qed.

Lemma store_empty_entry s lv t tbl idx e v h' t' h :
  cap_inv s lv → tables s !! t = Some tbl → 0 ≤ idx < 256 →
  slots tbl !! Z.to_nat idx = Some e → e ≠ 0 → entries s !! e = Some v →
  0 ≤ h < 2 ^ 64 →
  entry_of (store_empty s t tbl idx e (gen v) h') t' h =
  if decide (t' = t ∧ h = cap_handle_make (gen v) idx) then None else entry_of s t' h.
Proof.
  intros Hi Ht Hidx Hs He Hv Hh.
  assert (1 ≤ gen v < 2 ^ 32) as Hg.
  { pose proof (ci_tables _ _ Hi _ _ Ht) as Hwf.
    destruct (tw_entry _ _ Hwf _ _ Hs He) as (v' & Hv' & Hg' & _).
    rewrite Hv in Hv'. injection Hv' as <-. by apply (tw_gens _ _ Hwf) in Hg'. }
  pose proof (lookup_lt_Some _ _ _ Hs) as Hlt.
  assert (slot_at s t (Z.to_nat idx) e) as Hse by (by exists tbl).
  assert (∀ t' i x, slot_at (store_empty s t tbl idx e (gen v) h') t' i x ↔
    (t' = t ∧ i = Z.to_nat idx ∧ x = 0) ∨ ((t' ≠ t ∨ i ≠ Z.to_nat idx) ∧ slot_at s t' i x)) as Hsl.
  { intros t2 i x. unfold store_empty. rewrite (slot_at_insert _ _ _ _ t tbl _ (Z.to_nat idx) 0) by done. done. }
  apply option_eq. intros [e' v']. rewrite entry_of_iff, Hsl. simpl. split.
  - intros ([(-> & Ei & ->)|[Hn Hs']] & Hv' & Hgen).
    + rewrite lookup_delete_ne in Hv' by done. by rewrite (ci_entry_null _ _ Hi) in Hv'.
    + rewrite lookup_delete_Some in Hv'. destruct Hv' as [Hne Hv'].
      rewrite decide_False; [by apply entry_of_iff|]. intros [-> ->].
      destruct (handle_make_unpack (gen v) idx) as (_ & E1 & E2); [lia|lia|]. rewrite E1 in Hn.
      by destruct Hn.
  - case_decide as E; [done|]. rewrite entry_of_iff. intros (Hs' & Hv' & Hgen).
    assert (t' ≠ t ∨ Z.to_nat (cap_handle_index h) ≠ Z.to_nat idx) as Hn.
    { destruct (decide (t' = t)) as [->|]; [right|by left]. intros Ei. rewrite Ei in Hs'.
      destruct Hs' as (tb & Htb & Hs'). rewrite Ht in Htb. injection Htb as <-.
      rewrite Hs in Hs'. injection Hs' as <-. rewrite Hv in Hv'. injection Hv' as <-.
      destruct (decide (h = cap_handle_make (gen v) idx)) as [->|Hh']; [by apply E|].
      by apply (handle_make_neq (gen v) idx h) in Ei; try lia. }
    split_and!; [by right| |done]. rewrite lookup_delete_ne; [done|]. intros <-.
    destruct (ci_unique _ _ Hi _ _ _ _ _ Hs' Hse He) as [-> Ei]. by destruct Hn.
Qed.

(** *** Steps of the store

    [cap_step P s lv s' lv']: the invariant holds after the step, no other
    cache is touched, no table appears or disappears, and the generations of
    the slots in [P] advance by at most one, all others stay. *)
Definition gens_only (P : Z → nat → Prop) s s' : Prop :=
  ∀ t i, gen_at s' t i = gen_at s t i ∨ (P t i ∧ gen_at s' t i = cap_bump_gen <$> gen_at s t i).

Record cap_step (P : Z → nat → Prop) s lv s' lv' : Prop := {
  cs_inv : cap_inv s' lv';
  cs_lv : ∀ k, k ≠ CCapEntry → lv' k = lv k;
  cs_dom : ∀ t, is_Some (tables s' !! t) ↔ is_Some (tables s !! t);
  cs_gens : gens_only P s s';
}.

Definition no_slot (_ : Z) (_ : nat) : Prop := False.
Definition one_slot (t : Z) (i : nat) (t' : Z) (i' : nat) : Prop := t' = t ∧ i' = i.

Lemma cap_step_refl P s lv : cap_inv s lv → cap_step P s lv s lv.
Proof. intros Hi. split; [done|done|done|]. by left. Qed.

Lemma cap_step_trans P1 P2 (P3 : Z → nat → Prop) s1 lv1 s2 lv2 s3 lv3 :
  cap_step P1 s1 lv1 s2 lv2 → cap_step P2 s2 lv2 s3 lv3 →
  (∀ t i, P1 t i → P2 t i → False) → (∀ t i, P1 t i ∨ P2 t i → P3 t i) →
  cap_step P3 s1 lv1 s3 lv3.
Proof.
  intros [I1 L1 D1 G1] [I2 L2 D2 G2] Hd Hsub. split; [done| | |].
  - intros k Hk. by rewrite L2, L1.
  - intros t. by rewrite D2.
  - intros t i. destruct (G1 t i) as [E1|[HP1 E1]], (G2 t i) as [E2|[HP2 E2]].
    + left. congruence.
    + right. split; [by apply Hsub; right|]. congruence.
    + right. split; [by apply Hsub; left|]. congruence.
    + by destruct (Hd t i).
Qed.

(** The denotation of every handle but [(t, h)] is kept; that one becomes [c]. *)
Definition view_update s s' (t h : Z) (c : option cap) : Prop :=
  ∀ t' h', 0 ≤ h' < 2 ^ 64 →
    cap_view s' t' h' = if decide (t' = t ∧ h' = h) then c else cap_view s t' h'.
Definition view_same s s' : Prop := ∀ t h, 0 ≤ h < 2 ^ 64 → cap_view s' t h = cap_view s t h.

Lemma store_fill_step s lv t tbl idx e v h' :
  cap_inv s lv → tables s !! t = Some tbl → 0 < free_top tbl →
  free_stack tbl !! Z.to_nat (free_top tbl - 1) = Some idx →
  e ∉ lv CCapEntry → e ≠ 0 → gens tbl !! Z.to_nat idx = Some (gen v) →
  flags v = CAP_ENTRY_FLAG_VALID →
  oh_rep h' (upd CCapEntry ({[e]} ∪ lv CCapEntry) lv) →
  let s' := store_fill s t tbl idx e v h' in
  let h := cap_handle_make (gen v) idx in
  cap_step no_slot s lv s' (upd CCapEntry ({[e]} ∪ lv CCapEntry) lv) ∧
  0 < h < 2 ^ 64 ∧ cap_view s t h = None ∧ view_update s s' t h (Some (cap_of v)).
Proof.
  intros Hi Ht Hpos Hst He Hne Hg Hf Hrep s' h. pose proof (ci_tables _ _ Hi _ _ Ht) as Hwf.
  destruct (free_list_pop _ _ _ Hwf Hpos Hst) as (_ & Hidx & Hs0 & _).
  pose proof (tw_gens _ _ Hwf _ _ Hg) as Hgr.
  destruct (handle_make_unpack (gen v) idx) as (Hhr & Eh1 & Eh2); [lia|lia|].
  assert (0 < h) as Hh0 by (unfold h; rewrite handle_make_eq by lia; lia).
  split_and!.
  - split; [by apply store_fill_inv|intros; by apply upd_ne| |].
    + intros t'. simpl. rewrite lookup_insert_is_Some. destruct (decide (t = t')) as [<-|]; [|tauto].
      rewrite Ht. split; [eauto|by left].
    + intros t' i. left. unfold gen_at, s'. simpl.
      destruct (decide (t' = t)) as [->|]; [|by rewrite lookup_insert_ne].
      by rewrite lookup_insert_eq, Ht.
  - done.
  - apply Hhr.
  - unfold cap_view. destruct (entry_of s t h) as [[e' v']|] eqn:E; [|done]. exfalso.
    apply entry_of_iff in E as ((tb & Htb & Hs) & Hv & _). unfold h in Hs. rewrite Eh1 in Hs.
    rewrite Ht in Htb. injection Htb as <-. rewrite Hs0 in Hs. injection Hs as <-.
    by rewrite (ci_entry_null _ _ Hi) in Hv.
  - intros t' h'' Hh''. unfold cap_view, s'.
    rewrite (store_fill_entry s lv) by done. fold h. by case_decide.
Qed.

Lemma store_empty_step s lv t tbl idx e v h' :
  cap_inv s lv → tables s !! t = Some tbl → 0 ≤ idx < 256 →
  slots tbl !! Z.to_nat idx = Some e → e ≠ 0 → entries s !! e = Some v →
  oh_rep h' (upd CCapEntry (lv CCapEntry ∖ {[e]}) lv) →
  let s' := store_empty s t tbl idx e (gen v) h' in
  cap_step (one_slot t (Z.to_nat idx)) s lv s' (upd CCapEntry (lv CCapEntry ∖ {[e]}) lv) ∧
  gen_at s' t (Z.to_nat idx) = Some (cap_bump_gen (gen v)) ∧
  view_update s s' t (cap_handle_make (gen v) idx) None.
Proof.
  intros Hi Ht Hidx Hs He Hv Hrep s'. pose proof (ci_tables _ _ Hi _ _ Ht) as Hwf.
  destruct (tw_entry _ _ Hwf _ _ Hs He) as (v' & Hv' & Hg & Hf).
  rewrite Hv in Hv'. injection Hv' as <-.
  assert (gen_at s' t (Z.to_nat idx) = Some (cap_bump_gen (gen v))) as Hga.
  { unfold gen_at, s'. simpl. rewrite lookup_insert_eq. simpl. rewrite list_lookup_insert_eq; [done|].
    rewrite (tw_gens_len _ _ Hwf). lia. }
  split_and!; [|done|].
  - split; [by apply store_empty_inv|intros; by apply upd_ne| |].
    + intros t'. simpl. rewrite lookup_insert_is_Some. destruct (decide (t = t')) as [<-|]; [|tauto].
      rewrite Ht. split; [eauto|by left].
    + intros t' i. destruct (decide (t' = t)) as [->|].
      * destruct (decide (i = Z.to_nat idx)) as [->|].
        -- right. split; [done|]. rewrite Hga. unfold gen_at. rewrite Ht. simpl. by rewrite Hg.
        -- left. unfold gen_at, s'. simpl. rewrite lookup_insert_eq, Ht. simpl.
           by rewrite list_lookup_insert_ne.
      * left. unfold gen_at, s'. simpl. by rewrite lookup_insert_ne.
  - intros t' h Hh. unfold cap_view, s'. rewrite (store_empty_entry s lv) by done. by case_decide.
Qed.

(** *** The operations *)

(** Insertion: a new handle, never one that already denotes something, or an
    error that leaves the space as it was. *)
Definition insert_post (c0 : cap) s lv t tbl (r : cap_status + Z) s' : Prop :=
  ∃ lv', cap_step no_slot s lv s' lv' ∧
  match r with
  | inr h => 0 < h < 2 ^ 64 ∧ cap_view s t h = None ∧ view_update s s' t h (Some c0)
  | inl st => (st = CAP_ERR_NO_SLOTS ∧ free_top tbl = 0 ∨ st = CAP_ERR_NO_MEM) ∧ view_same s s'
  end.

(** Popping a slot and pushing it back is the identity on a table. *)
Lemma push_popped tbl idx : 0 < free_top tbl →
  free_stack tbl !! Z.to_nat (free_top tbl - 1) = Some idx →
  mkTable (slots tbl) (gens tbl)
    (<[Z.to_nat (free_top tbl - 1) := idx]> (free_stack tbl)) (free_top tbl - 1 + 1) = tbl.
Proof.
  intros Hp Hl. rewrite list_insert_id by done. destruct tbl; simpl. f_equal. lia.
Qed.

Lemma insert_correct t tbl ty rts ob c s lv :
  cap_inv s lv → irq_depth c = 0 → tables s !! t = Some tbl →
  wp (cap_table_insert t ty rts ob true)
    (λ r c' s', c' = c ∧ insert_post (ty, rts, ob) s lv t tbl r s') c s.
Proof.
  intros Hi Hc Ht. pose proof (ci_tables _ _ Hi _ _ Ht) as Hwf.
  unfold cap_table_insert, cap_table_alloc_slot, get_table, set_table, set_entry.
  destruct (Z.eqb_spec t 0) as [->|_]; [by rewrite (ci_null _ _ Hi) in Ht|]. cbn [orb negb].
  wp_steps. rewrite Ht. wp_steps.
  destruct (Z.eqb_spec (free_top tbl) 0) as [E0|E0].
  { wp_steps. split; [done|]. exists lv. split; [by apply cap_step_refl|]. split; [by left|done]. }
  pose proof (tw_top _ _ Hwf) as Htop.
  destruct (lookup_lt_is_Some_Z (free_stack tbl) (free_top tbl - 1)) as [idx Hst];
    [rewrite (tw_stack _ _ Hwf); lia|].
  destruct (free_list_pop _ _ _ Hwf ltac:(lia) Hst) as (_ & Hidx & Hs0 & _).
  rewrite Hst. wp_steps. unfold cap_slot_valid_index, CONFIG_CAP_TABLE_SLOTS.
  destruct (Z.ltb_spec idx 256); [|lia]. cbn [negb]. wp_steps.
  apply (wp_cap_entry_alloc c _ lv); [apply Hi|apply Hi|done| |].
  - intros h' Hrep. rewrite Z.eqb_refl. unfold cap_table_free_slot, get_table, set_table.
    destruct (Z.eqb_spec t 0) as [->|_]; [by rewrite (ci_null _ _ Hi) in Ht|].
    unfold cap_slot_valid_index, CONFIG_CAP_TABLE_SLOTS.
    destruct (Z.ltb_spec idx 256); [|lia]. cbn [orb negb]. wp_steps.
    cbn [tables]. rewrite lookup_insert_eq. wp_steps. cbn [free_top].
    destruct (Z.ltb_spec (free_top tbl - 1) 256); [|lia]. wp_steps.
    cbn [tables entries heap inited slots gens free_stack free_top].
    rewrite insert_insert_eq, push_popped by (done || lia).
    rewrite insert_id by done. split; [done|]. exists lv.
    split; [|split; [by right|done]]. split; [|done|done|by left].
    destruct Hi. by split.
  - intros e h' Hne Hn Hrep. destruct (Z.eqb_spec e 0); [done|]. wp_steps.
    cbn [tables]. rewrite lookup_insert_eq. wp_steps. cbn [gens].
    destruct (lookup_lt_is_Some_Z (gens tbl) idx) as [g Hg]; [rewrite (tw_gens_len _ _ Hwf); lia|].
    rewrite Hg. wp_steps. cbn [tables entries heap inited slots gens free_stack free_top].
    rewrite !insert_insert_eq. split; [done|].
    eexists. apply (store_fill_step s lv t tbl idx e (mkEntry ty rts ob g CAP_ENTRY_FLAG_VALID) h');
      done || lia.
Qed.

(** Emptying the slot of a live entry. *)
Lemma wp_clear_slot t tbl idx e v c s lv Q :
  cap_inv s lv → irq_depth c = 0 → tables s !! t = Some tbl → 0 ≤ idx < 256 →
  slots tbl !! Z.to_nat idx = Some e → e ≠ 0 → entries s !! e = Some v →
  (∀ h', oh_rep h' (upd CCapEntry (lv CCapEntry ∖ {[e]}) lv) →
     Q tt c (store_empty s t tbl idx e (gen v) h')) →
  wp (clear_slot t idx e) Q c s.
Proof.
  intros Hi Hc Ht Hidx Hs He Hv HQ. pose proof (ci_tables _ _ Hi _ _ Ht) as Hwf.
  destruct (tw_entry _ _ Hwf _ _ Hs He) as (v' & Hv' & Hg & Hf).
  rewrite Hv in Hv'. injection Hv' as <-.
  pose proof (filled_slot_room _ _ _ _ Hwf Hidx Hs He) as Hroom.
  unfold clear_slot, get_table, set_table. wp_steps. rewrite Ht. wp_steps.
  apply (wp_cap_entry_free e c _ lv); [apply Hi|apply Hi|done| |].
  { rewrite <- (ci_dom _ _ Hi). by apply elem_of_dom_2 in Hv. }
  intros h' Hrep. wp_steps. cbn [tables]. rewrite lookup_insert_eq. wp_steps. cbn [gens].
  rewrite Hg. wp_steps. unfold cap_table_free_slot, get_table, set_table.
  destruct (Z.eqb_spec t 0) as [->|_]; [by rewrite (ci_null _ _ Hi) in Ht|].
  unfold cap_slot_valid_index, CONFIG_CAP_TABLE_SLOTS.
  destruct (Z.ltb_spec idx 256); [|lia]. cbn [orb negb]. wp_steps.
  cbn [tables]. rewrite lookup_insert_eq. wp_steps. cbn [free_top].
  destruct (Z.ltb_spec (free_top tbl) 256); [|lia]. wp_steps.
  cbn [tables entries heap inited slots gens free_stack free_top].
  rewrite !insert_insert_eq. by apply HQ.
Qed.

(** Removal: the handle's capability is gone and its slot's generation has
    moved on; anything else is an error and no change. *)
Definition remove_post s lv t h (r : cap_status) s' : Prop :=
  ∃ lv', cap_step (one_slot t (Z.to_nat (cap_handle_index h))) s lv s' lv' ∧
  match cap_view s t h with
  | Some _ => r = CAP_OK ∧ view_update s s' t h None ∧
      gen_at s' t (Z.to_nat (cap_handle_index h)) = Some (cap_bump_gen (cap_handle_gen h))
  | None => r = CAP_ERR_INVALID ∧ s' = s
  end.

Lemma remove_correct t tbl h c s lv :
  cap_inv s lv → irq_depth c = 0 → tables s !! t = Some tbl → 0 ≤ h < 2 ^ 64 →
  wp (cap_table_remove t h) (λ r c' s', c' = c ∧ remove_post s lv t h r s') c s.
Proof.
  intros Hi Hc Ht Hh. unfold cap_table_remove.
  destruct (Z.eqb_spec t 0) as [->|_]; [by rewrite (ci_null _ _ Hi) in Ht|].
  wp_step. eapply wp_lookup_ex; [done|done|..].
  - intros e v He _. unfold remove_post, cap_view. rewrite He. simpl.
    destruct (entry_of_slot _ _ _ _ _ _ Hi He)
      as (tb & Htb & Hidx & Hs & Hne & Hv & Hgen & Hg & Hf & Hgr).
    rewrite Ht in Htb. injection Htb as <-.
    unfold cap_slot_valid_index, CONFIG_CAP_TABLE_SLOTS.
    destruct (Z.ltb_spec (cap_handle_index h) 256); [|lia]. cbn [negb]. wp_step.
    eapply wp_clear_slot; [done..|]. intros h' Hrep. wp_steps. split; [done|].
    destruct (store_empty_step s lv t tbl _ e v h' Hi Ht Hidx Hs Hne Hv Hrep) as (Hstep & Hga & Hview).
    eexists; split; [exact Hstep|]. split_and!; [done| |by rewrite Hgen].
    assert (cap_handle_make (gen v) (cap_handle_index h) = h) as Hmk; [|by rewrite Hmk in Hview].
    destruct (handle_make_unpack (gen v) (cap_handle_index h)) as (? & E1 & E2); [lia|lia|].
    apply handle_eq; [done|done|done|congruence].
  - intros e v He Hr. unfold cap_rights_has in Hr. by rewrite Z.land_0_r in Hr.
  - intros He. wp_steps. split; [done|]. exists lv. split; [by apply cap_step_refl|].
    unfold cap_view. by rewrite He.
Qed.

Lemma wp_cap_lookup t tbl h need c s lv Q :
  cap_inv s lv → tables s !! t = Some tbl →
  (∀ e v, entry_of s t h = Some (e, v) → cap_rights_has (rights v) need = true →
     e ≠ 0 → entries s !! e = Some v → Q e c s) →
  ((∀ ty r ob, cap_view s t h = Some (ty, r, ob) → cap_rights_has r need = false) → Q 0 c s) →
  wp (cap_lookup t h need) Q c s.
Proof.
  intros Hi Ht Hok Hno. unfold cap_lookup. wp_step. eapply wp_lookup_ex; [done|done|..].
  - intros e v He Hr. wp_steps. apply (Hok e v); [done|done|..];
      by destruct (entry_of_slot _ _ _ _ _ _ Hi He) as (? & ? & ? & ? & ? & ? & ?).
  - intros e v He Hr. wp_steps. apply Hno. unfold cap_view. rewrite He. by intros ? ? ? [= <- <- <-].
  - intros He. wp_steps. apply Hno. unfold cap_view. by rewrite He.
Qed.

(** Duplication and transfer need the right in the source, and give the new
    capability no right the source does not have. *)
Definition derive_post (need mask : Z) s t h
    (ok : cap → Prop) (r : cap_status + Z) s' : Prop :=
  match cap_view s t h with
  | Some (ty, r0, ob) =>
    if cap_rights_has r0 need then ok (ty, Z.land r0 mask, ob)
    else r = inl CAP_ERR_DENIED ∧ s' = s
  | None => r = inl CAP_ERR_DENIED ∧ s' = s
  end.

Lemma derive_denied need mask s t h ok :
  (∀ ty r ob, cap_view s t h = Some (ty, r, ob) → cap_rights_has r need = false) →
  derive_post need mask s t h ok (inl CAP_ERR_DENIED) s.
Proof.
  intros Hn. unfold derive_post. destruct (cap_view s t h) as [[[ty r] ob]|] eqn:E; [|done].
  by rewrite (Hn ty r ob).
Qed.

Lemma dup_correct src tsrc h dst tdst mask c s lv :
  cap_inv s lv → irq_depth c = 0 → tables s !! src = Some tsrc → tables s !! dst = Some tdst →
  wp (cap_dup src h dst mask true)
    (λ r c' s', c' = c ∧
      derive_post CAP_R_DUP mask s src h (λ c0, insert_post c0 s lv dst tdst r s') r s') c s.
Proof.
  intros Hi Hc Hs Hd. unfold cap_dup.
  destruct (Z.eqb_spec src 0) as [->|_]; [by rewrite (ci_null _ _ Hi) in Hs|].
  destruct (Z.eqb_spec dst 0) as [->|_]; [by rewrite (ci_null _ _ Hi) in Hd|]. cbn [orb negb].
  wp_step. eapply wp_cap_lookup; [done|done|..].
  - intros e v He Hr Hne Hv. destruct (Z.eqb_spec e 0); [done|].
    unfold get_entry. wp_steps. rewrite Hv. wp_steps.
    eapply wp_mono; [by eapply insert_correct|]. cbv beta. intros r c' s' [-> Hp].
    split; [done|]. unfold derive_post, cap_view. rewrite He. simpl. by rewrite Hr.
  - intros Hn. rewrite Z.eqb_refl. wp_steps. split; [done|]. by apply derive_denied.
Qed.

(** A successful transfer moves the capability in one step: the new handle
    denotes it, the old one nothing, every other handle is unchanged. *)
Definition transfer_ok (c0 : cap) s lv src h dst (r : cap_status + Z) s' : Prop :=
  ∃ lv', cap_step (one_slot src (Z.to_nat (cap_handle_index h))) s lv s' lv' ∧
  match r with
  | inr h2 => (dst, h2) ≠ (src, h) ∧ 0 < h2 < 2 ^ 64 ∧ cap_view s dst h2 = None ∧
      cap_view s' dst h2 = Some c0 ∧ cap_view s' src h = None ∧
      ∀ t' h', 0 ≤ h' < 2 ^ 64 → (t', h') ≠ (dst, h2) → (t', h') ≠ (src, h) →
        cap_view s' t' h' = cap_view s t' h'
  | inl st => st ≠ CAP_OK ∧ view_same s s'
  end.

Lemma cap_step_weaken (P1 P2 : Z → nat → Prop) s lv s' lv' :
  cap_step P1 s lv s' lv' → (∀ t i, P1 t i → P2 t i) → cap_step P2 s lv s' lv'.
Proof.
  intros [? ? ? G] Hw. split; try done. intros t i. destruct (G t i) as [?|[? ?]]; [by left|].
  right. auto.
Qed.

Lemma transfer_correct src tsrc h dst tdst mask c s lv :
  cap_inv s lv → irq_depth c = 0 → tables s !! src = Some tsrc → tables s !! dst = Some tdst →
  0 ≤ h < 2 ^ 64 →
  wp (cap_transfer src h dst mask true)
    (λ r c' s', c' = c ∧
      derive_post CAP_R_TRANSFER mask s src h (λ c0, transfer_ok c0 s lv src h dst r s') r s') c s.
Proof.
  intros Hi Hc Hs Hd Hh. unfold cap_transfer.
  destruct (Z.eqb_spec src 0) as [->|_]; [by rewrite (ci_null _ _ Hi) in Hs|].
  destruct (Z.eqb_spec dst 0) as [->|_]; [by rewrite (ci_null _ _ Hi) in Hd|]. cbn [orb negb].
  wp_step. eapply wp_cap_lookup; [done|done|..]; last first.
  { intros Hn. rewrite Z.eqb_refl. wp_steps. split; [done|]. by apply derive_denied. }
  intros e v He Hr Hne Hv. destruct (Z.eqb_spec e 0); [done|].
  unfold get_entry. wp_steps. rewrite Hv. wp_steps.
  unfold derive_post, cap_view at 1. rewrite He. simpl. rewrite Hr.
  assert (cap_view s src h = Some (cap_of v)) as Hsv by (unfold cap_view; by rewrite He).
  eapply wp_mono; [by eapply insert_correct|]. cbv beta.
  intros r c' s1 [-> (lv1 & Hst1 & Hp)]. destruct r as [st|h2].
  - wp_steps. split; [done|]. exists lv1. split; [by eapply cap_step_weaken|].
    destruct Hp as [Hst Hsame]. split; [|done]. destruct Hst as [[-> _]| ->]; done.
  - destruct Hp as (Hh2 & Hnone & Hup).
    assert ((dst, h2) ≠ (src, h)) as Hneq by (intros [= -> ->]; congruence).
    assert (cap_view s1 src h = Some (cap_of v)) as Hsv1.
    { rewrite Hup by done. case_decide as E; [destruct E; congruence|done]. }
    destruct (proj2 (cs_dom _ _ _ _ _ Hst1 src)) as [tsrc1 Hs1]; [by eauto|].
    wp_steps. eapply wp_mono; [eapply (remove_correct src tsrc1 h c s1 lv1); [apply Hst1|done..]|].
    cbv beta. intros r c' s2 [-> (lv2 & Hst2 & Hp2)]. rewrite Hsv1 in Hp2.
    destruct Hp2 as (-> & Hup2 & _). rewrite decide_True by done. wp_steps. split; [done|].
    exists lv2. split; [eapply cap_step_trans; [exact Hst1|exact Hst2|by intros ? ? []|by intros ? ? [[]|?]]|].
    split_and!; [done|apply Hh2|apply Hh2|done| | |].
    + rewrite Hup2 by lia. rewrite decide_False by (intros [-> ->]; done).
      rewrite Hup by lia. by rewrite decide_True.
    + rewrite Hup2 by done. by rewrite decide_True.
    + intros t' h' Hh' Hn1 Hn2. rewrite Hup2, Hup by done.
      rewrite !decide_False by (intros [-> ->]; done). done.
Qed.

(** Invalidating an object empties exactly the table's handles to it. *)
Definition scan_view s (t ob i : Z) s' : Prop :=
  ∀ t' h', 0 ≤ h' < 2 ^ 64 →
    cap_view s' t' h' =
    match cap_view s t' h' with
    | Some (ty, r, ob') =>
      if decide (t' = t ∧ ob' = ob ∧ i ≤ cap_handle_index h') then None else Some (ty, r, ob')
    | None => None
    end.

Lemma view_in_range s lv t h x : cap_inv s lv → cap_view s t h = Some x →
  0 ≤ cap_handle_index h < 256.
Proof.
  intros Hi. unfold cap_view. destruct (entry_of s t h) as [[e v]|] eqn:E; [|done]. intros _.
  by destruct (entry_of_slot _ _ _ _ _ _ Hi E) as (? & ? & ? & _).
Qed.

Lemma view_slot s t tbl h x : tables s !! t = Some tbl → cap_view s t h = Some x →
  ∃ e v, slots tbl !! Z.to_nat (cap_handle_index h) = Some e ∧ entries s !! e = Some v ∧
    x = cap_of v ∧ cap_handle_gen h = gen v.
Proof.
  intros Ht. unfold cap_view. destruct (entry_of s t h) as [[e v]|] eqn:E; [|done].
  simpl. intros [= <-]. apply entry_of_iff in E as ((tb & Htb & Hs) & Hv & Hg).
  rewrite Ht in Htb. injection Htb as <-. by exists e, v.
Qed.

(** Extending a scan from [i + 1] to [i]: slot [i] held no capability to the
    object, or it has just been emptied. *)
Lemma scan_view_skip s t tbl ob i e s' :
  tables s !! t = Some tbl → 0 ≤ i → slots tbl !! Z.to_nat i = Some e →
  (∀ v, entries s !! e = Some v → obj v ≠ ob) →
  scan_view s t ob (i + 1) s' → scan_view s t ob i s'.
Proof.
  intros Ht Hi Hs Hno Hsc t' h' Hh'. rewrite (Hsc t' h' Hh').
  destruct (cap_view s t' h') as [[[ty r] ob']|] eqn:E; [|done].
  destruct (decide (t' = t)) as [->|Hne]; [|by rewrite !decide_False by naive_solver].
  destruct (decide (cap_handle_index h' = i)) as [Hx|Hx].
  - destruct (view_slot _ _ _ _ _ Ht E) as (e' & v & Hs' & Hv & Ex & _).
    rewrite Hx, Hs in Hs'. injection Hs' as <-. injection Ex as -> -> ->.
    specialize (Hno v Hv). rewrite !decide_False by naive_solver. done.
  - pose proof (u32_range (Z.land h' 0xFFFFFFFF)) as Hr. fold (cap_handle_index h') in Hr.
    destruct (decide (t = t ∧ ob' = ob ∧ i + 1 ≤ cap_handle_index h')) as [(_ & -> & ?)|Hn].
    + rewrite decide_True; [done|]. split_and!; [done|done|lia].
    + rewrite decide_False; [done|]. intros (_ & -> & ?). apply Hn. split_and!; [done|done|lia].
Qed.

Lemma scan_view_clear s lv t tbl ob i e v s1 s' :
  cap_inv s lv → tables s !! t = Some tbl → 0 ≤ i < 256 → slots tbl !! Z.to_nat i = Some e →
  entries s !! e = Some v → obj v = ob → 1 ≤ gen v < 2 ^ 32 →
  view_update s s1 t (cap_handle_make (gen v) i) None →
  scan_view s1 t ob (i + 1) s' → scan_view s t ob i s'.
Proof.
  intros Hinv Ht Hi Hs Hv Hob Hg Hup Hsc t' h' Hh'. rewrite (Hsc t' h' Hh'), Hup by done.
  destruct (handle_make_unpack (gen v) i) as (_ & E1 & E2); [lia|lia|].
  destruct (decide (t' = t ∧ h' = cap_handle_make (gen v) i)) as [[-> ->]|Hne].
  - destruct (cap_view s t _) as [[[ty r] ob']|] eqn:E; [|done].
    destruct (view_slot _ _ _ _ _ Ht E) as (e' & v' & Hs' & Hv' & Ex & _).
    rewrite E1, Hs in Hs'. injection Hs' as <-. rewrite Hv in Hv'. injection Hv' as <-.
    injection Ex as -> -> ->. rewrite decide_True; [done|]. split_and!; [done|done|lia].
  - destruct (cap_view s t' h') as [[[ty r] ob']|] eqn:E; [|done].
    destruct (decide (t' = t)) as [->|Hne']; [|by rewrite !decide_False by naive_solver].
    assert (cap_handle_index h' ≠ i) as Hx.
    { intros Hx. destruct (view_slot _ _ _ _ _ Ht E) as (e' & v' & Hs' & Hv' & _ & Hgen).
      rewrite Hx, Hs in Hs'. injection Hs' as <-. rewrite Hv in Hv'. injection Hv' as <-.
      apply Hne. split; [done|]. destruct (handle_make_unpack (gen v) i) as (? & _); [lia|lia|].
      apply handle_eq; [done|done|congruence|congruence]. }
    pose proof (view_in_range _ _ _ _ _ Hinv E).
    destruct (decide (t = t ∧ ob' = ob ∧ i + 1 ≤ cap_handle_index h')) as [(_ & -> & ?)|Hn].
    + rewrite decide_True; [done|]. split_and!; [done|done|lia].
    + rewrite decide_False; [done|]. intros (_ & -> & ?). apply Hn. split_and!; [done|done|lia].
Qed.

Definition slots_from (t i : Z) (t' : Z) (j : nat) : Prop := t' = t ∧ (Z.to_nat i ≤ j)%nat.

Lemma invalidate_loop_correct fuel t ob i c s lv :
  cap_inv s lv → irq_depth c = 0 → is_Some (tables s !! t) → 0 ≤ i → i + Z.of_nat fuel = 256 →
  wp (invalidate_loop t ob i fuel)
    (λ _ c' s', c' = c ∧ ∃ lv', cap_step (slots_from t i) s lv s' lv' ∧ scan_view s t ob i s') c s.
Proof.
  revert i s lv. induction fuel as [|fuel IH]; intros i s lv Hinv Hc [tbl Ht] Hi Hf; simpl.
  { wp_steps. split; [done|]. exists lv. split; [by apply cap_step_refl|].
    intros t' h' Hh'. destruct (cap_view s t' h') as [[[ty r] ob']|] eqn:E; [|done].
    rewrite decide_False; [done|]. pose proof (view_in_range _ _ _ _ _ Hinv E). lia. }
  pose proof (ci_tables _ _ Hinv _ _ Ht) as Hwf.
  destruct (lookup_lt_is_Some_Z (slots tbl) i) as [e Hs]; [rewrite (tw_slots _ _ Hwf); lia|].
  assert (∀ s' lv', cap_step (slots_from t (i + 1)) s lv s' lv' → cap_step (slots_from t i) s lv s' lv')
    as Hweak by (intros s' lv' Hst; eapply cap_step_weaken; [exact Hst|intros ? ? [-> ?]; split; [done|lia]]).
  unfold get_table, get_entry. wp_steps. rewrite Ht. wp_steps. rewrite Hs. wp_steps.
  assert ((∀ v, entries s !! e = Some v → obj v ≠ ob) →
    wp (invalidate_loop t ob (i + 1) fuel)
      (λ _ c' s', c' = c ∧ ∃ lv', cap_step (slots_from t i) s lv s' lv' ∧ scan_view s t ob i s') c s) as Hskip.
  { intros Hno. eapply wp_mono; [eapply (IH (i + 1) s lv); [done|done|by eauto|lia|lia]|].
    cbv beta. intros _ c' s' [-> (lv' & Hst & Hsc)]. split; [done|]. exists lv'.
    split; [by apply Hweak|]. by eapply scan_view_skip. }
  destruct (Z.eqb_spec e 0) as [->|He].
  { wp_steps. apply Hskip. intros v Hv. by rewrite (ci_entry_null _ _ Hinv) in Hv. }
  destruct (tw_entry _ _ Hwf _ _ Hs He) as (v & Hv & Hg & Hfl).
  wp_steps. rewrite Hv. wp_steps. rewrite Hfl. change (Z.land _ _ =? 0) with false. cbv iota.
  destruct (Z.eqb_spec (obj v) ob) as [Hob|Hob]; cbn [negb]; wp_steps.
  2: { apply Hskip. intros v' Hv'. congruence. }
  eapply wp_clear_slot; [done|done|done|lia|done..|]. intros h' Hrep.
  destruct (store_empty_step s lv t tbl i e v h' Hinv Ht ltac:(lia) Hs He Hv Hrep) as (Hst1 & _ & Hup).
  eapply wp_mono; [eapply (IH (i + 1)); [apply Hst1|done| |lia|lia]|].
  { apply (cs_dom _ _ _ _ _ Hst1). by eauto. }
  cbv beta. intros _ c' s' [-> (lv' & Hst & Hsc)]. split; [done|]. exists lv'. split.
  - eapply cap_step_trans; [exact Hst1|exact Hst| |].
    + intros t' j [-> ->] [_ ?]. lia.
    + intros t' j [[-> ->]|[-> ?]]; split; done || lia.
  - eapply scan_view_clear; [done|done|lia|done|done|done| |done|done]. by apply (tw_gens _ _ Hwf) in Hg.
Qed.

(** *** Table initialization *)

Definition init_table : cap_table := mkTable (replicate 256 0) (replicate 256 1) (seqZ 0 256) 256.

Lemma init_table_wf ents : table_wf ents init_table.
Proof.
  assert (free_list init_table = seqZ 0 256) as Ef by reflexivity.
  split; try done.
  - intros i g [-> _]%replicate_lookup_Some. lia.
  - rewrite Ef. apply NoDup_seqZ.
  - intros x. rewrite Ef, elem_of_seqZ. change (slots init_table) with (replicate 256 0).
    rewrite lookup_replicate. lia.
  - intros i e [-> _]%replicate_lookup_Some. done.
Qed.

(** A new table is added to the store: none of its handles denotes anything. *)
Lemma table_init_correct t c s lv :
  cap_inv s lv → tables s !! t = None → t ≠ 0 →
  wp (cap_table_init t) (λ _ c' s', c' = c ∧ cap_inv s' lv ∧
    (∀ h, cap_view s' t h = None) ∧ ∀ t' h, t' ≠ t → cap_view s' t' h = cap_view s t' h) c s.
Proof.
  intros Hi Ht Hne. unfold cap_table_init, set_table. destruct (Z.eqb_spec t 0); [done|].
  wp_steps. change (mkTable _ _ _ _) with init_table. split; [done|].
  set (s' := mkCapState _ _ _ _).
  assert (∀ t' i e, slot_at s' t' i e → (t' = t ∧ e = 0) ∨ (t' ≠ t ∧ slot_at s t' i e)) as Hsl.
  { intros t' i e (tb & Htb & Hs). unfold s' in Htb. cbn [tables] in Htb.
    destruct (decide (t' = t)) as [->|].
    - rewrite lookup_insert_eq in Htb. injection Htb as <-.
      apply replicate_lookup_Some in Hs as [-> _]. by left.
    - rewrite lookup_insert_ne in Htb by done. right. split; [done|]. by exists tb. }
  split_and!.
  - split; try apply Hi.
    + intros t' tbl. unfold s'. cbn [tables]. destruct (decide (t' = t)) as [->|].
      * rewrite lookup_insert_eq. intros [= <-]. apply init_table_wf.
      * rewrite lookup_insert_ne by done. by apply (ci_tables _ _ Hi).
    + intros t1 i1 t2 i2 e [[_ ->]|[_ H1]]%Hsl [[_ E2]|[_ H2]]%Hsl He; try done.
      by eapply (ci_unique _ _ Hi).
    + intros e v Hv. destruct (ci_owned _ _ Hi _ _ Hv) as (t' & i & tb & Htb & Hs).
      exists t', i, tb. split; [|done]. unfold s'. cbn [tables]. rewrite lookup_insert_ne; [done|]. congruence.
    + unfold s'. cbn [tables]. rewrite lookup_insert_ne by done. apply Hi.
  - intros h. unfold cap_view. destruct (entry_of s' t h) as [[e v]|] eqn:E; [|done].
    apply entry_of_iff in E as (Hs & Hv & _). apply Hsl in Hs as [[_ ->]|[? _]]; [|done].
    unfold s' in Hv. cbn [entries] in Hv. by rewrite (ci_entry_null _ _ Hi) in Hv.
  - intros t' h Hne'. unfold cap_view, entry_of, s'. cbn [tables entries]. by rewrite lookup_insert_ne.
Qed.

(** ** Sequences of operations *)

Inductive cap_op :=
| OpCreate (t : Z) (ty : cap_type) (rts ob : Z)
| OpDup (src h dst mask : Z)
| OpTransfer (src h dst mask : Z)
| OpDrop (t h : Z)
| OpInvalidate (t h : Z)
| OpInvalidateObject (t ob : Z).

Definition exec_op (op : cap_op) : M (cap_state H) unit :=
  match op with
  | OpCreate t ty rts ob => cap_create t ty rts ob true ;;; ret tt
  | OpDup src h dst mask => cap_dup src h dst mask true ;;; ret tt
  | OpTransfer src h dst mask => cap_transfer src h dst mask true ;;; ret tt
  | OpDrop t h => cap_drop t h ;;; ret tt
  | OpInvalidate t h => cap_invalidate t h ;;; ret tt
  | OpInvalidateObject t ob => cap_table_invalidate_object t ob
  end.

Fixpoint run_ops (ops : list cap_op) : M (cap_state H) unit :=
  match ops with [] => ret tt | op :: ops => exec_op op ;;; run_ops ops end.

(** The arguments are pointers to tables and 64-bit handles. *)
Definition op_wf s (op : cap_op) : Prop :=
  match op with
  | OpCreate t _ _ _ | OpInvalidateObject t _ => is_Some (tables s !! t)
  | OpDup src h dst _ | OpTransfer src h dst _ =>
    is_Some (tables s !! src) ∧ is_Some (tables s !! dst) ∧ 0 ≤ h < 2 ^ 64
  | OpDrop t h | OpInvalidate t h => is_Some (tables s !! t) ∧ 0 ≤ h < 2 ^ 64
  end.

Definition is_create (op : cap_op) : bool := match op with OpCreate _ _ _ _ => true | _ => false end.

(** Every capability of [s'] comes from one of [s] for the same object, with
    no more rights. *)
Definition rights_le (r r0 : Z) : Prop := Z.land r r0 = r.
Definition derives s s' : Prop :=
  ∀ t h ty r ob, 0 ≤ h < 2 ^ 64 → cap_view s' t h = Some (ty, r, ob) →
    ∃ t0 h0 r0, 0 ≤ h0 < 2 ^ 64 ∧ cap_view s t0 h0 = Some (ty, r0, ob) ∧ rights_le r r0.

Lemma rights_le_refl r : rights_le r r.
Proof. apply Z.land_diag. Qed.
Lemma rights_le_mask r m : rights_le (Z.land r m) r.
Proof.
  unfold rights_le. by rewrite (Z.land_comm r m), <- Z.land_assoc, Z.land_diag.
Qed.
Lemma rights_le_trans r1 r2 r3 : rights_le r1 r2 → rights_le r2 r3 → rights_le r1 r3.
Proof. unfold rights_le. intros H1 H2. by rewrite <- H1, <- Z.land_assoc, H2. Qed.
Lemma rights_le_has r r0 need : rights_le r r0 → cap_rights_has r need = true →
  cap_rights_has r0 need = true.
Proof.
  unfold rights_le, cap_rights_has. rewrite !Z.eqb_eq. intros Hle Hn.
  transitivity (Z.land r0 (Z.land r need)); [by rewrite Hn|].
  by rewrite Z.land_assoc, (Z.land_comm r0), Hle.
Qed.

Lemma derives_same s s' : view_same s s' → derives s s'.
Proof.
  intros Hv t h ty r ob Hh E. rewrite Hv in E by done.
  exists t, h, r. split_and!; [lia|lia|done|apply rights_le_refl].
Qed.
Lemma derives_trans s1 s2 s3 : derives s1 s2 → derives s2 s3 → derives s1 s3.
Proof.
  intros H1 H2 t h ty r ob Hh E. destruct (H2 _ _ _ _ _ Hh E) as (t' & h' & r' & Hh' & E' & L').
  destruct (H1 _ _ _ _ _ Hh' E') as (t0 & h0 & r0 & Hh0 & E0 & L0).
  exists t0, h0, r0. split_and!; [lia|lia|done|by eapply rights_le_trans].
Qed.
Lemma derives_insert s s' src h0 dst h ty r mask ob :
  0 ≤ h0 < 2 ^ 64 → cap_view s src h0 = Some (ty, r, ob) →
  view_update s s' dst h (Some (ty, Z.land r mask, ob)) → derives s s'.
Proof.
  intros Hh0 E0 Hup t h' ty' r' ob' Hh' E. rewrite Hup in E by done. case_decide.
  - injection E as <- <- <-. exists src, h0, r. split_and!; [lia|lia|done|apply rights_le_mask].
  - exists t, h', r'. split_and!; [lia|lia|done|apply rights_le_refl].
Qed.
Lemma derives_remove s s' t0 h0 : view_update s s' t0 h0 None → derives s s'.
Proof.
  intros Hup t h ty r ob Hh E. rewrite Hup in E by done. case_decide; [done|].
  exists t, h, r. split_and!; [lia|lia|done|apply rights_le_refl].
Qed.

Definition any_slot (_ : Z) (_ : nat) : Prop := True.

(** One operation: the invariant, one generation step per slot at most, and
    only derived capabilities unless it creates one. *)
Definition op_post (op : cap_op) s lv s' : Prop :=
  ∃ lv', cap_step any_slot s lv s' lv' ∧ (is_create op = false → derives s s').

Lemma op_post_remove op s lv t h r s' : remove_post s lv t h r s' → op_post op s lv s'.
Proof.
  intros (lv' & Hst & Hp). exists lv'. split; [by eapply cap_step_weaken|]. intros _.
  destruct (cap_view s t h); destruct Hp as [_ Hp].
  - destruct Hp as [Hp _]. by eapply derives_remove.
  - subst. by apply derives_same.
Qed.

Lemma exec_op_correct op c s lv :
  cap_inv s lv → irq_depth c = 0 → op_wf s op →
  wp (exec_op op) (λ _ c' s', c' = c ∧ op_post op s lv s') c s.
Proof.
  intros Hi Hc Hwf. destruct op as [t ty rts ob|src h dst mask|src h dst mask|t h|t h|t ob]; simpl in *.
  - destruct Hwf as [tbl Ht]. wp_step. unfold cap_create.
    destruct (Z.eqb_spec t 0) as [->|_]; [by rewrite (ci_null _ _ Hi) in Ht|]. cbn [orb negb].
    eapply wp_mono; [by eapply insert_correct|]. cbv beta. intros r c' s' [-> (lv' & Hst & _)].
    wp_steps. split; [done|]. exists lv'. split; [by eapply cap_step_weaken|done].
  - destruct Hwf as ([ts Hs] & [td Hd] & Hh). wp_step.
    eapply wp_mono; [by eapply dup_correct|]. cbv beta. intros r c' s' [-> Hp]. wp_steps.
    split; [done|]. unfold derive_post in Hp.
    assert (s' = s → op_post (OpDup src h dst mask) s lv s') as Hsame.
    { intros ->. exists lv. split; [by apply cap_step_refl|]. intros _. by apply derives_same. }
    destruct (cap_view s src h) as [[[ty r0] ob]|] eqn:E; [|by apply Hsame, Hp].
    destruct (cap_rights_has r0 CAP_R_DUP); [|by apply Hsame, Hp].
    destruct Hp as (lv' & Hst & Hp). exists lv'. split; [by eapply cap_step_weaken|]. intros _.
    destruct r as [st|h2]; [by apply derives_same, Hp|].
    destruct Hp as (_ & _ & Hup). by eapply derives_insert.
  - destruct Hwf as ([ts Hs] & [td Hd] & Hh). wp_step.
    eapply wp_mono; [by eapply transfer_correct|]. cbv beta. intros r c' s' [-> Hp]. wp_steps.
    split; [done|]. unfold derive_post in Hp.
    assert (s' = s → op_post (OpTransfer src h dst mask) s lv s') as Hsame.
    { intros ->. exists lv. split; [by apply cap_step_refl|]. intros _. by apply derives_same. }
    destruct (cap_view s src h) as [[[ty r0] ob]|] eqn:E; [|by apply Hsame, Hp].
    destruct (cap_rights_has r0 CAP_R_TRANSFER); [|by apply Hsame, Hp].
    destruct Hp as (lv' & Hst & Hp). exists lv'. split; [by eapply cap_step_weaken|]. intros _.
    destruct r as [st|h2]; [by apply derives_same, Hp|].
    destruct Hp as (_ & Hh2 & _ & Hn & Ho & Hrest). intros t' h' ty' r' ob' Hh' E'.
    destruct (decide ((t', h') = (dst, h2))) as [[= -> ->]|N1].
    { rewrite Hn in E'. injection E' as <- <- <-.
      exists src, h, r0. split_and!; [lia|lia|done|apply rights_le_mask]. }
    destruct (decide ((t', h') = (src, h))) as [[= -> ->]|N2]; [congruence|].
    rewrite Hrest in E' by done. exists t', h', r'. split_and!; [lia|lia|done|apply rights_le_refl].
  - destruct Hwf as [[tbl Ht] Hh]. wp_step. unfold cap_drop.
    destruct (Z.eqb_spec t 0) as [->|_]; [by rewrite (ci_null _ _ Hi) in Ht|].
    eapply wp_mono; [by eapply remove_correct|]. cbv beta. intros r c' s' [-> Hp]. wp_steps.
    split; [done|]. by eapply op_post_remove.
  - destruct Hwf as [[tbl Ht] Hh]. wp_step. unfold cap_invalidate, cap_table_invalidate.
    destruct (Z.eqb_spec t 0) as [->|_]; [by rewrite (ci_null _ _ Hi) in Ht|].
    eapply wp_mono; [by eapply remove_correct|]. cbv beta. intros r c' s' [-> Hp]. wp_steps.
    split; [done|]. by eapply op_post_remove.
  - unfold cap_table_invalidate_object. destruct ((t =? 0) || (ob =? 0)).
    { wp_steps. split; [done|]. exists lv. split; [by apply cap_step_refl|]. intros _. by apply derives_same. }
    eapply wp_mono; [eapply invalidate_loop_correct; [done|done|done|lia|done]|]. cbv beta.
    intros _ c' s' [-> (lv' & Hst & Hsc)]. split; [done|]. exists lv'.
    split; [by eapply cap_step_weaken|]. intros _ t' h' ty r ob' Hh' E. rewrite Hsc in E by done.
    destruct (cap_view s t' h') as [[[ty0 r0] ob0]|] eqn:E0; [|done]. case_decide; [done|].
    injection E as <- <- <-. exists t', h', r0. split_and!; [lia|lia|done|apply rights_le_refl].
Qed.

(** Generations advance by at most one per operation. *)
Definition gens_adv (n : nat) s s' : Prop :=
  ∀ t i, ∃ j, (j ≤ n)%nat ∧ gen_at s' t i = Nat.iter j cap_bump_gen <$> gen_at s t i.

Lemma op_wf_dom op s s' : (∀ t, is_Some (tables s' !! t) ↔ is_Some (tables s !! t)) →
  op_wf s op → op_wf s' op.
Proof. intros Hd. destruct op; simpl; rewrite ?Hd; done. Qed.

Lemma run_ops_correct ops c s lv :
  cap_inv s lv → irq_depth c = 0 → Forall (op_wf s) ops →
  wp (run_ops ops) (λ _ c' s', c' = c ∧ (∃ lv', cap_inv s' lv') ∧ gens_adv (length ops) s s' ∧
    (Forall (λ op, is_create op = false) ops → derives s s')) c s.
Proof.
  intros Hi Hc. revert s lv Hi. induction ops as [|op ops IH]; intros s lv Hi Hops; simpl.
  { wp_steps. split_and!; [done|by eauto| |].
    - intros t i. exists 0%nat. split; [lia|]. simpl. by destruct (gen_at s t i).
    - intros _. by apply derives_same. }
  apply Forall_cons_1 in Hops as [Hop Hops]. wp_step.
  eapply wp_mono; [by eapply exec_op_correct|]. cbv beta. intros _ c' s1 [-> (lv1 & Hst & Hder)].
  eapply wp_mono; [eapply (IH s1 lv1); [apply Hst|]|].
  { eapply Forall_impl; [exact Hops|]. intros op'. apply op_wf_dom, (cs_dom _ _ _ _ _ Hst). }
  cbv beta. intros _ c' s2 (-> & Hinv & Hadv & Hder2). split_and!; [done|done| |].
  - intros t i. destruct (Hadv t i) as (j & Hj & E). destruct (cs_gens _ _ _ _ _ Hst t i) as [E1|[_ E1]].
    + exists j. split; [lia|]. congruence.
    + exists (S j). split; [lia|]. rewrite E, E1. destruct (gen_at s t i) as [g|]; [|done]. simpl.
      f_equal. by rewrite <- Nat.iter_succ_r.
  - intros [Hc1 Hc2]%Forall_cons_1. eapply derives_trans; [by apply Hder|by apply Hder2].
Qed.

Lemma bump_gen_eq g : 1 ≤ g < 2 ^ 32 → cap_bump_gen g = (g - 1 + 1) mod (2 ^ 32 - 1) + 1.
Proof.
  intros Hg. unfold cap_bump_gen. destruct (Z.eq_dec g (2 ^ 32 - 1)) as [->|Hne]; [done|].
  rewrite u32_small by lia. destruct (Z.eqb_spec (g + 1) 0); [lia|].
  rewrite Z.mod_small by lia. lia.
Qed.

Lemma bump_iter_eq j g : 1 ≤ g < 2 ^ 32 →
  Nat.iter j cap_bump_gen g = (g - 1 + Z.of_nat j) mod (2 ^ 32 - 1) + 1.
Proof.
  intros Hg. induction j as [|j IH]; simpl Nat.iter.
  { rewrite Z.add_0_r, Z.mod_small by lia. lia. }
  pose proof (Z.mod_pos_bound (g - 1 + Z.of_nat j) (2 ^ 32 - 1) ltac:(lia)).
  rewrite IH, bump_gen_eq by lia. f_equal. rewrite Z.add_simpl_r, Zplus_mod_idemp_l.
  f_equal. lia.
Qed.

Lemma bump_iter_ne j g : 1 ≤ g < 2 ^ 32 → (0 < Z.of_nat j < 2 ^ 32 - 1) →
  Nat.iter j cap_bump_gen g ≠ g.
Proof. intros Hg Hj. rewrite bump_iter_eq by done. Z.div_mod_to_equations. lia. Qed.

Lemma view_gen s lv t h x : cap_inv s lv → cap_view s t h = Some x →
  gen_at s t (Z.to_nat (cap_handle_index h)) = Some (cap_handle_gen h) ∧
  1 ≤ cap_handle_gen h < 2 ^ 32.
Proof.
  intros Hi. unfold cap_view. destruct (entry_of s t h) as [[e v]|] eqn:E; [|done]. intros _.
  destruct (entry_of_slot _ _ _ _ _ _ Hi E) as (tb & Htb & _ & _ & _ & _ & Hg & Hgs & _ & Hr).
  unfold gen_at. rewrite Htb, Hg. done.
Qed.
End spec.

(** ** Theorems *)

Section theorems.
Context {H : Type} `{!ObjHeap H}.
Implicit Types (s : cap_state H) (lv : lives).

(** C2: Every capability reachable after any sequence of duplications,
    transfers, drops and invalidations (no creation) was derived from a
    capability of the same type and object that existed before and already had
    each of its rights: rights are never amplified. *)
Theorem cap_rights_never_amplified ops c s lv :
  cap_inv s lv → irq_depth c = 0 → Forall (op_wf s) ops →
  Forall (λ op, is_create op = false) ops →
  wp (run_ops ops) (λ _ c' s', c' = c ∧ ∀ t h ty r ob, 0 ≤ h < 2 ^ 64 →
    cap_view s' t h = Some (ty, r, ob) →
    ∃ t0 h0 r0, cap_view s t0 h0 = Some (ty, r0, ob) ∧
      ∀ need, cap_rights_has r need = true → cap_rights_has r0 need = true) c s.
Proof.
  intros Hi Hc Hops Hnc. eapply wp_mono; [by eapply run_ops_correct|]. cbv beta.
  intros _ c' s' (-> & _ & _ & Hd). split; [done|]. intros t h ty r ob Hh E.
  destruct (Hd Hnc _ _ _ _ _ Hh E) as (t0 & h0 & r0 & _ & E0 & L). exists t0, h0, r0.
  split; [done|]. intros need. by apply rights_le_has.
Qed.

(** C3: A handle that has been dropped is never valid again, whatever is
    created, duplicated or transferred afterwards, for fewer than 2^32 - 2
    operations (the span of the generation counter). *)
Theorem cap_dropped_handle_stays_dead ops t h x c s lv :
  cap_inv s lv → irq_depth c = 0 → Forall (op_wf s) ops → 0 ≤ h < 2 ^ 64 →
  cap_view s t h = Some x → Z.of_nat (length ops) < 2 ^ 32 - 2 →
  wp (cap_drop t h) (λ r c' s1, r = CAP_OK ∧
    wp (run_ops ops) (λ _ _ s2, cap_view s2 t h = None) c' s1) c s.
Proof.
  intros Hi Hc Hops Hh Hx Hn. destruct (view_gen _ _ _ _ _ Hi Hx) as [Hg Hgr].
  assert (∃ tbl, tables s !! t = Some tbl) as [tbl Ht].
  { unfold gen_at in Hg. destruct (tables s !! t); [by eauto|done]. }
  unfold cap_drop. destruct (Z.eqb_spec t 0) as [->|_]; [by rewrite (ci_null _ _ Hi) in Ht|].
  eapply wp_mono; [by eapply remove_correct|]. cbv beta.
  intros r c' s1 [-> (lv1 & Hst & Hp)]. rewrite Hx in Hp. destruct Hp as (-> & _ & Hg1).
  split; [done|]. eapply wp_mono; [eapply run_ops_correct; [apply Hst|done|]|].
  { eapply Forall_impl; [exact Hops|]. intros op. apply op_wf_dom, (cs_dom _ _ _ _ _ Hst). }
  cbv beta. intros _ c' s2 (-> & [lv2 Hi2] & Hadv & _).
  destruct (cap_view s2 t h) as [y|] eqn:E; [|done]. exfalso.
  destruct (view_gen _ _ _ _ _ Hi2 E) as [Hg2 _].
  destruct (Hadv t (Z.to_nat (cap_handle_index h))) as (j & Hj & Ej).
  rewrite Hg2, Hg1 in Ej. cbn [fmap option_fmap option_map] in Ej. injection Ej as Ej.
  rewrite <- Nat.iter_succ_r in Ej. symmetry in Ej. revert Ej. apply bump_iter_ne; [done|lia].
Qed.

(** cap_create returns a fresh valid handle that designates exactly the
    given type, rights and object and changes no other handle, or fails with
    no slots or no memory and changes nothing. *)
Theorem cap_create_spec t tbl ty rts ob c s lv :
  cap_inv s lv → irq_depth c = 0 → tables s !! t = Some tbl →
  wp (cap_create t ty rts ob true) (λ r c' s', c' = c ∧ ∃ lv', cap_inv s' lv' ∧
    match r with
    | inr h => h ≠ CAP_HANDLE_INVALID ∧ cap_view s t h = None ∧
        view_update s s' t h (Some (ty, rts, ob))
    | inl st => (st = CAP_ERR_NO_SLOTS ∧ free_top tbl = 0 ∨ st = CAP_ERR_NO_MEM) ∧ view_same s s'
    end) c s.
Proof.
  intros Hi Hc Ht. unfold cap_create.
  destruct (Z.eqb_spec t 0) as [->|_]; [by rewrite (ci_null _ _ Hi) in Ht|]. cbn [orb negb].
  eapply wp_mono; [by eapply insert_correct|]. cbv beta. intros r c' s' [-> (lv' & Hst & Hp)].
  split; [done|]. exists lv'. split; [apply Hst|]. destruct r as [st|h]; [done|].
  destruct Hp as (? & ? & ?). split_and!; [unfold CAP_HANDLE_INVALID; lia|done|done].
Qed.

(** C37: cap_transfer moves a capability with the masked rights to the
    destination under a new handle and removes the source handle, no other
    handle changing; it needs the transfer right, and on every failure each
    handle of every table means what it meant. *)
Theorem cap_transfer_spec src tsrc h dst tdst mask c s lv :
  cap_inv s lv → irq_depth c = 0 → tables s !! src = Some tsrc → tables s !! dst = Some tdst →
  0 ≤ h < 2 ^ 64 →
  wp (cap_transfer src h dst mask true)
    (λ r c' s', c' = c ∧
      derive_post CAP_R_TRANSFER mask s src h (λ c0, transfer_ok c0 s lv src h dst r s') r s') c s.
Proof. apply transfer_correct. Qed.

(** cap_lookup returns the entry of a handle exactly when the handle is
    live (index, generation and flags agree) and has every needed right, and
    NULL otherwise. *)
Theorem cap_lookup_spec t tbl h need c s lv :
  cap_inv s lv → tables s !! t = Some tbl →
  wp (cap_lookup t h need) (λ e c' s', c' = c ∧ s' = s ∧
    match cap_view s t h with
    | Some (ty, r, ob) =>
      if cap_rights_has r need then ∃ v, entries s !! e = Some v ∧ cap_of v = (ty, r, ob)
      else e = 0
    | None => e = 0
    end) c s.
Proof.
  intros Hi Ht. eapply wp_cap_lookup; [done|done|..].
  - intros e v He Hr Hne Hv. split_and!; [done..|]. unfold cap_view. rewrite He.
    cbn [fmap option_fmap option_map]. unfold cap_of; simpl. rewrite Hr. by exists v.
  - intros Hn. split_and!; [done..|]. destruct (cap_view s t h) as [[[ty r] ob]|] eqn:E; [|done].
    by rewrite (Hn ty r ob).
Qed.

(** cap_table_invalidate_object removes exactly the handles of the table
    that designate the object. *)
Theorem cap_table_invalidate_object_spec t ob c s lv :
  cap_inv s lv → irq_depth c = 0 → is_Some (tables s !! t) → ob ≠ 0 →
  wp (cap_table_invalidate_object t ob) (λ _ c' s', c' = c ∧ (∃ lv', cap_inv s' lv') ∧
    ∀ t' h', 0 ≤ h' < 2 ^ 64 → cap_view s' t' h' =
      match cap_view s t' h' with
      | Some (ty, r, ob') => if decide (t' = t ∧ ob' = ob) then None else Some (ty, r, ob')
      | None => None
      end) c s.
Proof.
  intros Hi Hc Ht Hob. unfold cap_table_invalidate_object.
  destruct (Z.eqb_spec t 0) as [->|_]; [rewrite (ci_null _ _ Hi) in Ht; by destruct Ht|].
  destruct (Z.eqb_spec ob 0); [done|]. cbn [orb].
  eapply wp_mono; [eapply invalidate_loop_correct; [done|done|done|lia|done]|]. cbv beta.
  intros _ c' s' [-> (lv' & Hst & Hsc)]. split_and!; [done|exists lv'; apply Hst|].
  intros t' h' Hh'. rewrite Hsc by done. destruct (cap_view s t' h') as [[[ty r] ob']|]; [|done].
  pose proof (u32_range (Z.land h' 0xFFFFFFFF)) as Hr. fold (cap_handle_index h') in Hr.
  repeat case_decide; naive_solver.
Qed.

(** cap_drop succeeds on a handle without the drop right: CAP_R_DROP is
    never checked. *)
Theorem cap_drop_needs_no_right t h ty ob c s lv :
  cap_inv s lv → irq_depth c = 0 → 0 ≤ h < 2 ^ 64 → cap_view s t h = Some (ty, 0, ob) →
  cap_rights_has 0 CAP_R_DROP = false ∧
  wp (cap_drop t h) (λ r _ s', r = CAP_OK ∧ cap_view s' t h = None) c s.
Proof.
  intros Hi Hc Hh Hx. split; [done|]. destruct (view_gen _ _ _ _ _ Hi Hx) as [Hg Hgr].
  assert (∃ tbl, tables s !! t = Some tbl) as [tbl Ht].
  { unfold gen_at in Hg. destruct (tables s !! t); [by eauto|done]. }
  unfold cap_drop. destruct (Z.eqb_spec t 0) as [->|_]; [by rewrite (ci_null _ _ Hi) in Ht|].
  eapply wp_mono; [by eapply remove_correct|]. cbv beta.
  intros r c' s1 [-> (lv1 & Hst & Hp)]. rewrite Hx in Hp. destruct Hp as (-> & Hup & _).
  split; [done|]. rewrite Hup by done. by rewrite decide_True.
Qed.
End theorems.

(** *** Examples: one table holding one endpoint capability with rights [r]. *)

Definition sample_entry (r : Z) : cap_entry := mkEntry CAP_TYPE_ENDPOINT r 0x5000 1 CAP_ENTRY_FLAG_VALID.
Definition sample_empty : cap_state ideal_heap :=
  mkCapState {[0x10 := init_table]} ∅ (ideal_empty 8) true.
Definition sample_lives : lives := upd CCapEntry ({[0x1000]} ∪ ∅) (λ _, ∅).
Definition sample_store (r : Z) : cap_state ideal_heap :=
  store_fill sample_empty 0x10 init_table 255 0x1000 (sample_entry r)
    (mkIdeal 0x1040 7 sample_lives).
Definition sample_handle : Z := cap_handle_make 1 255.
Definition sample_cpu : cpu_state := mkCpu 0 0.

Lemma sample_empty_inv : cap_inv sample_empty (λ _, ∅).
Proof.
  split.
  - exact (ideal_empty_rep 8).
  - reflexivity.
  - intros t tbl. unfold sample_empty. cbn [tables]. rewrite lookup_singleton_Some.
    intros [<- <-]. apply init_table_wf.
  - intros t1 i1 t2 i2 e (tbl & Ht & Hs) _ He. unfold sample_empty in Ht. cbn [tables] in Ht.
    apply lookup_singleton_Some in Ht as [<- <-].
    change (slots init_table) with (replicate 256 0) in Hs.
    by apply replicate_lookup_Some in Hs as [-> _].
  - done.
  - done.
  - done.
Qed.

Lemma sample_step r :
  cap_step no_slot sample_empty (λ _, ∅) (sample_store r) sample_lives ∧
  0 < sample_handle < 2 ^ 64 ∧ cap_view sample_empty 0x10 sample_handle = None ∧
  view_update sample_empty (sample_store r) 0x10 sample_handle (Some (CAP_TYPE_ENDPOINT, r, 0x5000)).
Proof.
  apply (store_fill_step sample_empty (λ _, ∅) 0x10 init_table 255 0x1000 (sample_entry r));
    try done; [apply sample_empty_inv|].
  split_and!; simpl; [lia|done|]. intros k p. unfold upd. case_decide; set_solver by lia.
Qed.

Lemma sample_inv r : cap_inv (sample_store r) sample_lives.
Proof. apply (cs_inv _ _ _ _ _ (proj1 (sample_step r))). Qed.

Lemma sample_view r : cap_view (sample_store r) 0x10 sample_handle = Some (CAP_TYPE_ENDPOINT, r, 0x5000).
Proof. destruct (sample_step r) as (_ & Hh & _ & Hup). rewrite Hup by lia. by rewrite decide_True. Qed.

Lemma sample_handle_range : 0 ≤ sample_handle < 2 ^ 64.
Proof. destruct (sample_step 0) as (_ & Hh & _). lia. Qed.

Lemma sample_table r : is_Some (tables (sample_store r) !! 0x10).
Proof. apply (cs_dom _ _ _ _ _ (proj1 (sample_step r))). by eexists. Qed.

Lemma cap_rights_never_amplified_witness :
  wp (run_ops [OpDup 0x10 sample_handle 0x10 CAP_R_READ; OpTransfer 0x10 sample_handle 0x10 0xFFFFFFFF])
    (λ _ c' s', c' = sample_cpu ∧ ∀ t h ty r ob, 0 ≤ h < 2 ^ 64 →
      cap_view s' t h = Some (ty, r, ob) →
      ∃ t0 h0 r0, cap_view (sample_store 0x19) t0 h0 = Some (ty, r0, ob) ∧
        ∀ need, cap_rights_has r need = true → cap_rights_has r0 need = true)
    sample_cpu (sample_store 0x19).
Proof.
  apply (cap_rights_never_amplified _ sample_cpu (sample_store 0x19) sample_lives);
    [apply sample_inv|done| |repeat constructor].
  repeat constructor; apply sample_table || apply sample_handle_range.
Defined.

Lemma cap_dropped_handle_stays_dead_witness :
  wp (cap_drop 0x10 sample_handle) (λ r c' s1, r = CAP_OK ∧
    wp (run_ops [OpCreate 0x10 CAP_TYPE_VMO 1 7; OpCreate 0x10 CAP_TYPE_VMO 1 8])
      (λ _ _ s2, cap_view s2 0x10 sample_handle = None) c' s1) sample_cpu (sample_store 1).
Proof.
  apply (cap_dropped_handle_stays_dead _ 0x10 sample_handle
    (CAP_TYPE_ENDPOINT, 1, 0x5000) sample_cpu (sample_store 1) sample_lives);
    [apply sample_inv|done|repeat constructor; apply sample_table|apply sample_handle_range
    |apply sample_view|simpl; lia].
Defined.

Lemma cap_create_witness :
  wp (cap_create 0x10 CAP_TYPE_VMO 3 0x7000 true) (λ r c' s', c' = sample_cpu ∧ ∃ lv', cap_inv s' lv' ∧
    match r with
    | inr h => h ≠ CAP_HANDLE_INVALID ∧ cap_view sample_empty 0x10 h = None ∧
        view_update sample_empty s' 0x10 h (Some (CAP_TYPE_VMO, 3, 0x7000))
    | inl st => (st = CAP_ERR_NO_SLOTS ∧ free_top init_table = 0 ∨ st = CAP_ERR_NO_MEM) ∧
        view_same sample_empty s'
    end) sample_cpu sample_empty.
Proof.
  apply (cap_create_spec 0x10 init_table CAP_TYPE_VMO 3 0x7000 sample_cpu sample_empty (λ _, ∅));
    [apply sample_empty_inv|done|done].
Defined.

Lemma cap_transfer_witness : ∃ tbl,
  wp (cap_transfer 0x10 sample_handle 0x10 1 true)
    (λ r c' s', c' = sample_cpu ∧
      derive_post CAP_R_TRANSFER 1 (sample_store 0x19) 0x10 sample_handle
        (λ c0, transfer_ok c0 (sample_store 0x19) sample_lives 0x10 sample_handle 0x10 r s') r s')
    sample_cpu (sample_store 0x19) ∧ tables (sample_store 0x19) !! 0x10 = Some tbl.
Proof.
  destruct (sample_table 0x19) as [tbl Ht]. exists tbl. split; [|done].
  apply (cap_transfer_spec 0x10 tbl sample_handle 0x10 tbl 1 sample_cpu (sample_store 0x19) sample_lives);
    [apply sample_inv|done|done|done|apply sample_handle_range].
Defined.

Lemma cap_lookup_witness : ∃ tbl, tables (sample_store 1) !! 0x10 = Some tbl ∧
  wp (cap_lookup 0x10 sample_handle CAP_R_READ) (λ e c' s', c' = sample_cpu ∧ s' = sample_store 1 ∧
    match cap_view (sample_store 1) 0x10 sample_handle with
    | Some (ty, r, ob) =>
      if cap_rights_has r CAP_R_READ
      then ∃ v, entries (sample_store 1) !! e = Some v ∧ cap_of v = (ty, r, ob) else e = 0
    | None => e = 0
    end) sample_cpu (sample_store 1).
Proof.
  destruct (sample_table 1) as [tbl Ht]. exists tbl. split; [done|].
  apply (cap_lookup_spec 0x10 tbl sample_handle CAP_R_READ sample_cpu (sample_store 1) sample_lives);
    [apply sample_inv|done].
Defined.

Lemma cap_invalidate_object_witness :
  wp (cap_table_invalidate_object 0x10 0x5000) (λ _ c' s', c' = sample_cpu ∧ (∃ lv', cap_inv s' lv') ∧
    ∀ t' h', 0 ≤ h' < 2 ^ 64 → cap_view s' t' h' =
      match cap_view (sample_store 1) t' h' with
      | Some (ty, r, ob') => if decide (t' = 0x10 ∧ ob' = 0x5000) then None else Some (ty, r, ob')
      | None => None
      end) sample_cpu (sample_store 1).
Proof.
  apply (cap_table_invalidate_object_spec 0x10 0x5000 sample_cpu (sample_store 1) sample_lives);
    [apply sample_inv|done|apply sample_table|done].
Defined.

Lemma cap_drop_needs_no_right_witness :
  cap_rights_has 0 CAP_R_DROP = false ∧
  wp (cap_drop 0x10 sample_handle)
    (λ r _ s', r = CAP_OK ∧ cap_view s' 0x10 sample_handle = None) sample_cpu (sample_store 0).
Proof.
  apply (cap_drop_needs_no_right 0x10 sample_handle CAP_TYPE_ENDPOINT 0x5000 sample_cpu
    (sample_store 0) sample_lives);
    [apply sample_inv|done|apply sample_handle_range|apply sample_view].
Defined.

(** The kernel's own self test passes on a fresh table. *)
Example cap_ops_selftest_passes :
  ∃ s', cap_ops_selftest 0x10 sample_cpu sample_empty = Ret (tt, sample_cpu, s').
Proof. eexists. vm_compute. reflexivity. Qed.
