(* ===== verification/Task.v ===== *)
(** * Tasks and resource ceilings (Kern/Kernel/task/task.c, task.h, sched/intent.h)

    A task's contract limits CPU ticks, I/O bytes and memory; usage is counted
    per window of scheduler ticks.  A NULL task is [None]: the operations
    ignore it, and admission lets it through. *)

From S2P Require Import Prelude Cap.

(** ** Scheduling intents *)

(** [sched_intent_t] *)
Inductive sched_intent := INTERACTIVE | LATENCY | THROUGHPUT | BACKGROUND.
#[global] Instance sched_intent_eq_dec : EqDecision sched_intent.
Proof. solve_decision. Defined.

Definition SCHED_INTENT_COUNT : Z := 4.

Definition intent_code (i : sched_intent) : Z :=
  match i with INTERACTIVE => 0 | LATENCY => 1 | THROUGHPUT => 2 | BACKGROUND => 3 end.

Definition sched_intent_sanitize (raw : Z) : sched_intent :=
  if SCHED_INTENT_COUNT <=? raw then BACKGROUND
  else if raw =? 0 then INTERACTIVE
  else if raw =? 1 then LATENCY
  else if raw =? 2 then THROUGHPUT
  else BACKGROUND.

Lemma sanitize_code i : sched_intent_sanitize (intent_code i) = i.
Proof. by destruct i. Qed.

(** ** State *)

(** The fields of [task_t], grouped as its comments group them. *)
Record task_seed := mkSeed {
  self_cap : Z; console_ep_cap : Z; uart_cmd_ep_cap : Z; uart_evt_ep_cap : Z;
  kernel_log_send_cap : Z; kernel_log_recv_cap : Z;
}.
Record task_limits := mkLimits {
  limit_window_ticks : Z; cpu_ticks_limit : Z; io_read_bytes_limit : Z;
  io_write_bytes_limit : Z; mem_bytes_limit : Z;
}.
Record task_window := mkWindow {
  window_start_tick : Z; cpu_ticks_window : Z; io_read_bytes_window : Z;
  io_write_bytes_window : Z;
}.
Record task_totals := mkTotals {
  cpu_ticks_total : Z; io_read_bytes_total : Z; io_write_bytes_total : Z;
  mem_bytes_current : Z; mem_bytes_peak : Z; io_ops_total : Z; io_ops_background : Z;
  io_ops_latency : Z; io_ops_throughput : Z; io_ops_interactive : Z;
}.
Record task_throttle := mkThrottle {
  cpu_throttle_events : Z; io_throttle_events : Z; mem_throttle_events : Z;
}.
Record task := mkTask {
  id : Z; caps : Z; seed : task_seed; default_intent : sched_intent;
  limits : task_limits; window : task_window; totals : task_totals; throttle : task_throttle;
}.

(** [task_contract_t] *)
Record task_contract := mkContract {
  k_intent : Z; k_flags : Z; k_window_ticks : Z; k_cpu_ticks_limit : Z;
  k_io_read_bytes_limit : Z; k_io_write_bytes_limit : Z; k_mem_bytes_limit : Z;
}.

Definition with_window (t : task) (w : task_window) : task :=
  mkTask (id t) (caps t) (seed t) (default_intent t) (limits t) w (totals t) (throttle t).
Definition with_totals (t : task) (k : task_totals) : task :=
  mkTask (id t) (caps t) (seed t) (default_intent t) (limits t) (window t) k (throttle t).
Definition with_throttle (t : task) (k : task_throttle) : task :=
  mkTask (id t) (caps t) (seed t) (default_intent t) (limits t) (window t) (totals t) k.

(** ** Operations *)

Definition saturating_sub_u64 (a b : Z) : Z := if b <? a then a - b else 0.

Definition task_roll_window (t : task) (now_tick : Z) : task :=
  let window_ticks := if limit_window_ticks (limits t) =? 0 then 1 else limit_window_ticks (limits t) in
  let start := window_start_tick (window t) in
  if now_tick <? start then with_window t (mkWindow now_tick 0 0 0)
  else if u64 (now_tick - start) <? window_ticks then t
  else
    let spans := u64 (now_tick - start) / window_ticks in
    let spans := if spans =? 0 then 1 else spans in
    with_window t (mkWindow (u64 (start + u64 (spans * window_ticks))) 0 0 0).

Definition task_init (caps : Z) : task :=
  mkTask 0 caps
    (mkSeed CAP_HANDLE_INVALID CAP_HANDLE_INVALID CAP_HANDLE_INVALID CAP_HANDLE_INVALID
       CAP_HANDLE_INVALID CAP_HANDLE_INVALID)
    INTERACTIVE (mkLimits 100 0 0 0 0) (mkWindow 0 0 0 0)
    (mkTotals 0 0 0 0 0 0 0 0 0 0) (mkThrottle 0 0 0).

Definition task_set_contract (t : option task) (contract : option task_contract) (now_tick : Z)
    : option task :=
  match t, contract with
  | Some t, Some k =>
    Some (mkTask (id t) (caps t) (seed t) (sched_intent_sanitize (k_intent k))
      (mkLimits (if k_window_ticks k =? 0 then 100 else k_window_ticks k)
         (k_cpu_ticks_limit k) (k_io_read_bytes_limit k) (k_io_write_bytes_limit k)
         (k_mem_bytes_limit k))
      (mkWindow now_tick 0 0 0) (totals t) (throttle t))
  | _, _ => t
  end.

Definition task_get_contract (t : option task) : option task_contract :=
  t ← t;
  Some (mkContract (intent_code (default_intent t)) 0 (limit_window_ticks (limits t))
    (cpu_ticks_limit (limits t)) (io_read_bytes_limit (limits t))
    (io_write_bytes_limit (limits t)) (mem_bytes_limit (limits t))).

(** [task_stats_t]: the tick and window header, then the three groups copied. *)
Record task_stats := mkStats {
  ts_tick_now : Z; ts_window_start_tick : Z; ts_window_ticks : Z;
  ts_window : task_window; ts_totals : task_totals; ts_throttle : task_throttle;
}.
Definition task_get_stats (t : option task) (now_tick : Z) : option task_stats :=
  t ← t;
  Some (mkStats now_tick (window_start_tick (window t)) (limit_window_ticks (limits t))
    (window t) (totals t) (throttle t)).

Definition bump_cpu (t : task) : task :=
  let w := window t in let k := totals t in
  with_totals
    (with_window t (mkWindow (window_start_tick w) (u64 (cpu_ticks_window w + 1))
       (io_read_bytes_window w) (io_write_bytes_window w)))
    (mkTotals (u64 (cpu_ticks_total k + 1)) (io_read_bytes_total k) (io_write_bytes_total k)
       (mem_bytes_current k) (mem_bytes_peak k) (io_ops_total k) (io_ops_background k)
       (io_ops_latency k) (io_ops_throughput k) (io_ops_interactive k)).

Definition task_account_cpu_tick (t : option task) (now_tick : Z) : option task :=
  t ← t; Some (bump_cpu (task_roll_window t now_tick)).

Definition io_throttled (t : task) : task :=
  with_throttle t (mkThrottle (cpu_throttle_events (throttle t))
    (u64 (io_throttle_events (throttle t) + 1)) (mem_throttle_events (throttle t))).

(** The two branches of [task_allow_io], by direction. *)
Definition io_limit (t : task) (is_write : bool) : Z :=
  if is_write then io_write_bytes_limit (limits t) else io_read_bytes_limit (limits t).
Definition io_window (t : task) (is_write : bool) : Z :=
  if is_write then io_write_bytes_window (window t) else io_read_bytes_window (window t).

Definition task_allow_io (t : option task) (bytes : Z) (is_write : bool) (now_tick : Z)
    : bool * option task :=
  match t with
  | None => (true, None)
  | Some t =>
    let t := task_roll_window t now_tick in
    if negb (io_limit t is_write =? 0) && (io_limit t is_write <? u64 (io_window t is_write + bytes))
    then (false, Some (io_throttled t))
    else (true, Some t)
  end.

Definition count_io (t : task) (bytes : Z) (is_write : bool) (intent : sched_intent) : task :=
  let w := window t in let k := totals t in
  let add b x := if (b : bool) then u64 (x + bytes) else x in
  let one i x := if decide (intent = i) then u64 (x + 1) else x in
  with_totals
    (with_window t (mkWindow (window_start_tick w) (cpu_ticks_window w)
       (add (negb is_write) (io_read_bytes_window w)) (add is_write (io_write_bytes_window w))))
    (mkTotals (cpu_ticks_total k)
       (add (negb is_write) (io_read_bytes_total k)) (add is_write (io_write_bytes_total k))
       (mem_bytes_current k) (mem_bytes_peak k) (u64 (io_ops_total k + 1))
       (one BACKGROUND (io_ops_background k)) (one LATENCY (io_ops_latency k))
       (one THROUGHPUT (io_ops_throughput k)) (one INTERACTIVE (io_ops_interactive k))).

Definition task_account_io (t : option task) (bytes : Z) (is_write : bool) (intent now_tick : Z)
    : option task :=
  t ← t;
  Some (count_io (task_roll_window t now_tick) bytes is_write (sched_intent_sanitize intent)).

Definition task_allow_mem_alloc (t : option task) (bytes : Z) : bool * option task :=
  match t with
  | None => (true, None)
  | Some t =>
    if mem_bytes_limit (limits t) =? 0 then (true, Some t)
    else if mem_bytes_limit (limits t) <? u64 (mem_bytes_current (totals t) + bytes)
    then (false, Some (with_throttle t (mkThrottle (cpu_throttle_events (throttle t))
            (io_throttle_events (throttle t)) (u64 (mem_throttle_events (throttle t) + 1)))))
    else (true, Some t)
  end.

Definition set_mem (t : task) (current peak : Z) : task :=
  let k := totals t in
  with_totals t (mkTotals (cpu_ticks_total k) (io_read_bytes_total k) (io_write_bytes_total k)
    current peak (io_ops_total k) (io_ops_background k) (io_ops_latency k)
    (io_ops_throughput k) (io_ops_interactive k)).

Definition task_account_mem_alloc (t : option task) (bytes : Z) : option task :=
  t ← t;
  let current := u64 (mem_bytes_current (totals t) + bytes) in
  Some (set_mem t current
    (if mem_bytes_peak (totals t) <? current then current else mem_bytes_peak (totals t))).

Definition task_account_mem_free (t : option task) (bytes : Z) : option task :=
  t ← t;
  Some (set_mem t (saturating_sub_u64 (mem_bytes_current (totals t)) bytes)
          (mem_bytes_peak (totals t))).

(** ** The window *)

(** The counters hold 64-bit values and the window has started. *)
Record task_wf (t : task) : Prop := {
  tk_window : 0 ≤ limit_window_ticks (limits t) < 2 ^ 64;
  tk_start : 0 ≤ window_start_tick (window t) < 2 ^ 64;
  tk_io : ∀ w, 0 ≤ io_window t w < 2 ^ 64;
  tk_io_limit : ∀ w, 0 ≤ io_limit t w < 2 ^ 64;
  tk_mem : 0 ≤ mem_bytes_current (totals t) ≤ mem_bytes_peak (totals t) ∧
           mem_bytes_peak (totals t) < 2 ^ 64;
  tk_mem_limit : 0 ≤ mem_bytes_limit (limits t) < 2 ^ 64;
}.

Definition window_len (t : task) : Z :=
  if limit_window_ticks (limits t) =? 0 then 1 else limit_window_ticks (limits t).

Lemma window_len_pos t : task_wf t → 0 < window_len t < 2 ^ 64.
Proof. intros []. unfold window_len. case_if; bool_simpl; lia. Qed.

(** After a roll, the tick is in the current window; the counters are those of
    before if the window is the same, and zero otherwise; a window that follows
    starts a whole number of window lengths after the old one. *)
Lemma roll_window_spec t now : task_wf t → 0 ≤ now < 2 ^ 64 →
  let t' := task_roll_window t now in
  window_start_tick (window t') ≤ now < window_start_tick (window t') + window_len t ∧
  (t' = t ∨ ((∀ w, io_window t' w = 0) ∧ cpu_ticks_window (window t') = 0)) ∧
  (window_start_tick (window t) ≤ now →
     ∃ n, 0 ≤ n ∧ window_start_tick (window t') = window_start_tick (window t) + n * window_len t ∧
          (n = 0 → t' = t)) ∧
  limits t' = limits t ∧ totals t' = totals t ∧ throttle t' = throttle t.
Proof.
  intros Hwf Hnow. pose proof (window_len_pos t Hwf) as Hl. destruct Hwf as [_ Hs _ _ _ _].
  unfold task_roll_window. fold (window_len t).
  destruct (Z.ltb_spec now (window_start_tick (window t))) as [Hlt|Hge].
  { simpl. split_and!; try done; try lia. right. split; [by intros []|done]. }
  rewrite u64_small by lia.
  destruct (Z.ltb_spec (now - window_start_tick (window t)) (window_len t)) as [Hin|Hout].
  { split_and!; try done; try lia; [by left|]. intros _. exists 0. split_and!; done || lia. }
  set (q := (now - window_start_tick (window t)) / window_len t).
  assert (1 ≤ q ∧ window_len t * q ≤ now - window_start_tick (window t) < window_len t * q + window_len t)
    as [Hq Hb].
  { subst q. pose proof (Z.div_mod (now - window_start_tick (window t)) (window_len t) ltac:(lia)).
    pose proof (Z.mod_pos_bound (now - window_start_tick (window t)) (window_len t) ltac:(lia)).
    split; [|lia]. apply Z.div_le_lower_bound; lia. }
  clearbody q. destruct (Z.eqb_spec q 0); [lia|].
  rewrite (u64_small (q * window_len t)) by lia. rewrite u64_small by lia. simpl.
  split_and!; try done; try lia.
  - right. split; [by intros []|done].
  - intros _. exists q. split_and!; lia.
Qed.

Lemma roll_window_wf t now : task_wf t → 0 ≤ now < 2 ^ 64 → task_wf (task_roll_window t now).
Proof.
  intros Hwf Hnow. destruct (roll_window_spec t now Hwf Hnow) as (Hs & Hc & Hst & El & Et & Eth).
  pose proof (window_len_pos t Hwf). destruct Hwf as [H1 H2 H3 H4 H5 H6].
  assert (0 ≤ window_start_tick (window (task_roll_window t now)) < 2 ^ 64) as H2'.
  { unfold task_roll_window. repeat case_if; simpl; auto using u64_range. }
  split; rewrite ?El, ?Et; try done.
  - intros w. destruct Hc as [->|[Hz _]]; [done|]. rewrite Hz. lia.
  - intros w. unfold io_limit. rewrite El. apply H4.
Qed.

(** ** Ceilings *)

(** One I/O request as the block services make it: admission at [now], the
    transfer, accounting at [later]. *)
Record io_request := mkReq {
  rq_bytes : Z; rq_write : bool; rq_intent : Z; rq_now : Z; rq_later : Z;
}.
Definition do_io (t : task) (r : io_request) : bool * task :=
  match task_allow_io (Some t) (rq_bytes r) (rq_write r) (rq_now r) with
  | (true, Some t') =>
    match task_account_io (Some t') (rq_bytes r) (rq_write r) (rq_intent r) (rq_later r) with
    | Some t'' => (true, t'')
    | None => (true, t')
    end
  | (b, Some t') => (b, t')
  | (b, None) => (b, t)
  end.

(** The window's bytes are within the limit, in both directions. *)
Definition io_within (t : task) : Prop :=
  ∀ w, io_limit t w ≠ 0 → io_window t w ≤ io_limit t w.

(** A request whose size cannot wrap the 64-bit sum. *)
Definition req_ok (t : task) (r : io_request) : Prop :=
  0 ≤ rq_bytes r ∧ (∀ w, io_limit t w ≠ 0 → io_limit t w + rq_bytes r < 2 ^ 64) ∧
  0 ≤ rq_now r < 2 ^ 64 ∧ 0 ≤ rq_later r < 2 ^ 64.

Lemma roll_within t now : task_wf t → 0 ≤ now < 2 ^ 64 → io_within t →
  io_within (task_roll_window t now) ∧ ∀ w, io_window (task_roll_window t now) w ≤ io_window t w.
Proof.
  intros Hwf Hn Hin. destruct (roll_window_spec t now Hwf Hn) as (_ & Hc & _ & El & _ & _).
  destruct Hc as [->|[Hz _]]; [done|]. split.
  - intros w Hl. rewrite Hz. unfold io_limit in *. rewrite El in *. apply (tk_io_limit t Hwf w).
  - intros w. rewrite Hz. apply (tk_io t Hwf w).
Qed.

Lemma limit_roll t now w : io_limit (task_roll_window t now) w = io_limit t w.
Proof. unfold io_limit, task_roll_window. repeat case_if; done. Qed.

Lemma count_io_window t b w i w' :
  io_window (count_io t b w i) w' = if eqb w w' then u64 (io_window t w' + b) else io_window t w'.
Proof. by destruct w, w'. Qed.

Lemma count_io_wf t b w i : task_wf t → task_wf (count_io t b w i).
Proof.
  intros [H1 H2 H3 H4 H5 H6]. split; try done. intros w'. rewrite count_io_window.
  case_if; auto using u64_range.
Qed.

#[local] Abbreviation start t := (window_start_tick (window t)).

(** What of the counters of [t] is still there in [t']. *)
Definition carried (t t' : task) (w : bool) : Z := if start t' =? start t then io_window t w else 0.

Lemma roll_carries t now : task_wf t → start t ≤ now < 2 ^ 64 → let t' := task_roll_window t now in
  (∃ n, 0 ≤ n ∧ start t' = start t + n * window_len t) ∧ start t' ≤ now < start t' + window_len t ∧ ∀ w, io_window t' w = carried t t' w.
Proof.
  intros Hwf Hn t'. pose proof (window_len_pos t Hwf) as Hl. pose proof (tk_start t Hwf). destruct (roll_window_spec t now Hwf ltac:(lia)) as (Hin & Hc & Hm & _).
  fold t' in Hin, Hc, Hm. destruct (Hm ltac:(lia)) as (n & Hn0 & Hs & Hsame). split; [by exists n|]. split; [done|]. intros w. unfold carried.
  destruct (Z.eqb_spec (start t') (start t)) as [E|E]; [rewrite Hsame; [done|nia]|]. destruct Hc as [->|[Hz _]]; [done|apply Hz].
Qed.

(** One request: what the counters hold after it, within the limits. *)
Lemma do_io_step t r : task_wf t → io_within t → req_ok t r → start t ≤ rq_now r ≤ rq_later r →
  let '(ok, t') := do_io t r in
  task_wf t' ∧ limits t' = limits t ∧ (∃ n, 0 ≤ n ∧ start t' = start t + n * window_len t) ∧ start t' ≤ rq_later r ∧
  (ok = true → rq_later r < start t' + window_len t) ∧
  ∀ w, io_limit t w ≠ 0 → io_window t' w = carried t t' w + (if ok && eqb (rq_write r) w then rq_bytes r else 0) ∧ io_window t' w ≤ io_limit t w.
Proof.
  intros Hwf Hin (Hb & Hsum & Hn & Hl) Ho. pose proof (roll_window_wf t (rq_now r) Hwf Hn) as Hwf1. pose proof (window_len_pos t Hwf) as Hlen.
  destruct (roll_within t (rq_now r) Hwf Hn Hin) as [Hin1 _]. destruct (roll_window_spec t (rq_now r) Hwf Hn) as (_ & _ & _ & El1 & _).
  destruct (roll_carries t (rq_now r) Hwf ltac:(lia)) as ((n1 & Hn1 & Hs1) & Ht1 & Hc1).
  unfold do_io, task_allow_io. set (t1 := task_roll_window t (rq_now r)) in *.
  assert (∀ w, io_limit t1 w = io_limit t w) as Hlim1 by (intros w; apply limit_roll). destruct (negb _ && _) eqn:E.
  - split; [destruct Hwf1; by split|]. split; [done|]. split; [by exists n1|]. cbn [window io_throttled with_throttle].
    split; [lia|]. split; [done|]. intros w Hw. cbn [andb]. rewrite Z.add_0_r. split; [apply Hc1|]. rewrite <- Hlim1. apply Hin1. by rewrite Hlim1.
  - assert (window_len t1 = window_len t) as Elen by (unfold window_len; by rewrite El1).
    destruct (roll_carries t1 (rq_later r) Hwf1 ltac:(lia)) as ((n2 & Hn2 & Hs2) & Ht2 & Hc2). rewrite Elen in Hs2, Ht2.
    pose proof (roll_window_wf t1 (rq_later r) Hwf1 Hl) as Hwf2. destruct (roll_window_spec t1 (rq_later r) Hwf1 Hl) as (_ & _ & _ & El2 & _).
    cbn [task_account_io mbind option_bind]. set (t2 := task_roll_window t1 (rq_later r)) in *.
    split; [by apply count_io_wf|]. split; [simpl; congruence|]. change (start (count_io t2 _ _ _)) with (start t2).
    split; [exists (n1 + n2); split; lia|]. split; [lia|]. split; [intros _; lia|]. intros w Hw. rewrite count_io_window.
    assert (carried t (count_io t2 (rq_bytes r) (rq_write r) (sched_intent_sanitize (rq_intent r))) w = io_window t2 w) as ->.
    { rewrite Hc2. unfold carried. change (start (count_io t2 _ _ _)) with (start t2). rewrite Hc1. unfold carried.
      destruct (Z.eqb_spec (start t2) (start t)), (Z.eqb_spec (start t2) (start t1)), (Z.eqb_spec (start t1) (start t)); try done; nia. }
    assert (io_window t2 w ≤ io_window t1 w) as Hle by (rewrite Hc2; unfold carried; case_match; [lia|apply (tk_io t1 Hwf1)]).
    pose proof (tk_io t2 Hwf2 w) as H2. specialize (Hin1 w). specialize (Hsum w Hw). rewrite Hlim1 in Hin1. specialize (Hin1 Hw). cbn [andb].
    destruct (eqb (rq_write r) w) eqn:Ew; [|lia]. apply eqb_prop in Ew. rewrite Ew in E. rewrite u64_small in E |- * by (try (pose proof (tk_io t1 Hwf1 w)); lia).
    rewrite Hlim1 in E. apply andb_false_iff in E as [E|E]; bool_simpl; [done|]. lia.
Qed.

(** Requests one after the other: the task, and the requests that were
    transferred. *)
Fixpoint do_ios (t : task) (rs : list io_request) : task * list io_request :=
  match rs with
  | [] => (t, [])
  | r :: rs => let '(ok, t1) := do_io t r in let '(t2, l) := do_ios t1 rs in (t2, if ok : bool then r :: l else l)
  end.

(** The bytes moved in direction [w] at ticks from [a] to [b]. *)
Fixpoint moved (w : bool) (a b : Z) (l : list io_request) : Z :=
  match l with
  | [] => 0
  | r :: l => (if eqb (rq_write r) w && (a <=? rq_later r) && (rq_later r <? b) then rq_bytes r else 0) + moved w a b l
  end.

(** Time does not run backwards. *)
Fixpoint ticks_from (now : Z) (rs : list io_request) : Prop :=
  match rs with [] => True | r :: rs => now ≤ rq_now r ≤ rq_later r ∧ ticks_from (rq_later r) rs end.

Lemma ticks_from_le a b rs : a ≤ b → ticks_from b rs → ticks_from a rs.
Proof. destruct rs as [|r rs]; cbn; [done|]. intros Hab [? ?]. split; [lia|done]. Qed.

(** Nothing is moved before the requests start. *)
Lemma moved_before w a b rs : ∀ t now, ticks_from now rs → b ≤ now → moved w a b (do_ios t rs).2 = 0.
Proof.
  induction rs as [|r rs IH]; intros t now; cbn [do_ios ticks_from]; [done|]. intros [Hr Hrs] Hb. destruct (do_io t r) as [ok t1].
  specialize (IH t1 (rq_later r) Hrs ltac:(lia)). destruct (do_ios t1 rs) as [t2 l]. cbn [snd] in *. destruct ok; cbn [moved]; [|done].
  rewrite IH. destruct (Z.ltb_spec (rq_later r) b); [lia|]. by rewrite andb_false_r.
Qed.

Definition ledger_ok (t t' : task) (l : list io_request) : Prop :=
  ∀ w, io_limit t w ≠ 0 →
    io_window t' w = carried t t' w + moved w (start t') (start t' + window_len t) l ∧
    ∀ n, 0 ≤ n → let a := start t + n * window_len t in
      (if n =? 0 then io_window t w else 0) + moved w a (a + window_len t) l ≤ io_limit t w.

Lemma do_ios_correct rs : ∀ t, task_wf t → io_within t → Forall (req_ok t) rs → ticks_from (start t) rs →
  let '(t', l) := do_ios t rs in
  task_wf t' ∧ io_within t' ∧ (∃ n, 0 ≤ n ∧ start t' = start t + n * window_len t) ∧ ledger_ok t t' l.
Proof.
  induction rs as [|r rs IH]; intros t Hwf Hin Hrs Ht; cbn [do_ios].
  - split; [done|]. split; [done|]. split; [exists 0; lia|]. intros w Hw. cbn [moved]. unfold carried. rewrite Z.eqb_refl. split; [lia|]. intros n Hn. rewrite Z.add_0_r.
    destruct (n =? 0); [by apply Hin|apply (tk_io_limit t Hwf)].
  - apply Forall_cons_1 in Hrs as [Hr Hrs]. destruct Ht as [Ho Hts]. pose proof (do_io_step t r Hwf Hin Hr Ho) as Hd. destruct (do_io t r) as [ok t1].
    destruct Hd as (Hwf1 & El & (m & Hm & Hs1) & Hle & Hok & Hw1). assert (∀ w, io_limit t1 w = io_limit t w) as Elim by (intros w; unfold io_limit; by rewrite El).
    assert (window_len t1 = window_len t) as Elen by (unfold window_len; by rewrite El). pose proof (window_len_pos t Hwf) as Hlen.
    pose proof (ticks_from_le _ _ _ Hle Hts) as Hts1.
    pose proof (λ w a b, moved_before w a b rs t1 (start t1) Hts1) as Hbefore. specialize (IH t1 Hwf1). destruct (do_ios t1 rs) as [t' l]. cbn [snd] in Hbefore.
    destruct IH as (Hwf' & Hin' & (m' & Hm' & Hs') & Hled); [intros w; rewrite Elim; intros Hw; by apply Hw1| |done|].
    { eapply Forall_impl; [exact Hrs|]. intros r' (? & Hs & ? & ?). split_and!; try lia. intros w. rewrite Elim. apply Hs. }
    rewrite Elen in Hs'. split; [done|]. split; [done|]. split; [exists (m + m'); split; lia|]. intros w Hw.
    destruct (Hled w ltac:(by rewrite Elim)) as [Hfin Hall]. rewrite Elen, Elim in *. destruct (Hw1 w Hw) as [E1 _].
    set (mine := if ok && eqb (rq_write r) w then rq_bytes r else 0) in E1.
    assert (∀ k, 0 ≤ k → moved w (start t + k * window_len t) (start t + k * window_len t + window_len t) (if ok then r :: l else l) =
      (if k =? m then mine else 0) + moved w (start t + k * window_len t) (start t + k * window_len t + window_len t) l) as Hmv.
    { intros k Hk. unfold mine. destruct ok; cbn [moved andb]; [|by destruct (k =? m)]. specialize (Hok eq_refl). f_equal. destruct (eqb (rq_write r) w); [|by destruct (k =? m)]. cbn [andb].
      destruct (Z.eqb_spec k m) as [->|Hkm]; [by rewrite (proj2 (Z.leb_le _ _)), (proj2 (Z.ltb_lt _ _)) by lia|].
      destruct (Z.leb_spec (start t + k * window_len t) (rq_later r)), (Z.ltb_spec (rq_later r) (start t + k * window_len t + window_len t)); cbn [andb]; try done; nia. }
    split.
    + assert (start t' = start t + (m + m') * window_len t) as -> by lia. rewrite Hmv by lia. rewrite Hfin. unfold carried. rewrite Hs', Hs1.
      replace (start t + m * window_len t + m' * window_len t) with (start t + (m + m') * window_len t) by lia.
      destruct (Z.eqb_spec (m + m') m) as [E|E].
      * destruct (Z.eqb_spec (start t + (m + m') * window_len t) (start t + m * window_len t)); [|nia]. rewrite E1. unfold carried. rewrite Hs1. rewrite E. lia.
      * destruct (Z.eqb_spec (start t + (m + m') * window_len t) (start t + m * window_len t)); [nia|].
        destruct (Z.eqb_spec (start t + (m + m') * window_len t) (start t)); [nia|]. lia.
    + intros n Hn a. unfold a. rewrite Hmv by done. destruct (Z.lt_ge_cases n m) as [Hnm|Hnm].
      * rewrite Hbefore by nia. destruct (Z.eqb_spec n m); [lia|]. destruct (n =? 0); [specialize (Hin w Hw)|pose proof (tk_io_limit t Hwf w)]; lia.
      * specialize (Hall (n - m) ltac:(lia)). cbv zeta in Hall. rewrite Hs1 in Hall.
        replace (start t + m * window_len t + (n - m) * window_len t) with (start t + n * window_len t) in Hall by lia.
        destruct (Z.eqb_spec n m) as [->|Hne].
        -- rewrite Z.sub_diag in Hall. cbn [Z.eqb] in Hall. rewrite E1 in Hall. unfold carried in Hall. rewrite Hs1 in Hall.
           destruct (Z.eqb_spec m 0) as [->|]; [rewrite Z.mul_0_l, Z.add_0_r in Hall |- *; rewrite Z.eqb_refl in Hall; lia|]. destruct (Z.eqb_spec (start t + m * window_len t) (start t)); [nia|]. lia.
        -- destruct (Z.eqb_spec (n - m) 0); [lia|]. destruct (Z.eqb_spec n 0); [lia|]. lia.
Qed.

(** C11: Over any sequence of I/O requests made one after the other in the
    order of time (each admitted or refused by task_allow_io, transferred, and
    charged by task_account_io, possibly in a later window), the bytes of the
    requests that were transferred in any one window of the task, with what
    its counter held at the start, never exceed its limit, for reads and for
    writes; at the end the counter of the current window is exactly the bytes
    transferred in it. Limits and requests are such that limit plus bytes
    stays below 2^64. *)
Theorem task_io_ceiling_respected t rs :
  task_wf t → io_within t → Forall (req_ok t) rs → ticks_from (window_start_tick (window t)) rs →
  let '(t', l) := do_ios t rs in
  task_wf t' ∧ io_within t' ∧
  ∀ w, io_limit t w ≠ 0 →
    io_window t' w = carried t t' w + moved w (window_start_tick (window t')) (window_start_tick (window t') + window_len t) l ∧
    ∀ n, 0 ≤ n → let a := window_start_tick (window t) + n * window_len t in
      (if n =? 0 then io_window t w else 0) + moved w a (a + window_len t) l ≤ io_limit t w.
Proof.
  intros Hwf Hin Hrs Ht. pose proof (do_ios_correct rs t Hwf Hin Hrs Ht) as Hd. destruct (do_ios t rs) as [t' l]. destruct Hd as (? & ? & _ & Hl). by split_and!.
Qed.

Definition limited_task : task :=
  match task_set_contract (Some (task_init 0)) (Some (mkContract 0 0 50 0 1000 500 4096)) 7 with
  | Some t => t | None => task_init 0
  end.

Lemma limited_task_wf : task_wf limited_task.
Proof.
  split; simpl; try lia.
  - intros []; simpl; lia.
  - intros []; simpl; lia.
Qed.

(** The second write is refused, the read falls in the next window. *)
Lemma task_io_ceiling_witness :
  let '(t', l) := do_ios limited_task [mkReq 400 true 0 8 9; mkReq 200 true 1 10 11; mkReq 900 false 2 60 61; mkReq 500 true 2 61 62] in
  l = [mkReq 400 true 0 8 9; mkReq 900 false 2 60 61; mkReq 500 true 2 61 62] ∧ io_within t' ∧ moved true 7 57 l ≤ 500 ∧ moved true 57 107 l ≤ 500.
Proof.
  pose proof (task_io_ceiling_respected limited_task [mkReq 400 true 0 8 9; mkReq 200 true 1 10 11; mkReq 900 false 2 60 61; mkReq 500 true 2 61 62]) as Ht.
  destruct (do_ios _ _) as [t' l] eqn:E. destruct Ht as (_ & Hin & Hw).
  - apply limited_task_wf.
  - intros []; simpl; lia.
  - repeat constructor; simpl; try lia; intros []; simpl; lia.
  - simpl. lia.
  - destruct (Hw true ltac:(done)) as [_ Hn]. split; [vm_compute in E; by injection E as _ <-|]. split; [done|].
    split; [exact (Hn 0 ltac:(lia))|exact (Hn 1 ltac:(lia))].
Defined.

(** task_roll_window leaves the current time inside the window, moves the
    start by a whole number of windows, and clears the window counters exactly
    when it moves. *)
Theorem task_roll_window_spec t now : task_wf t → 0 ≤ now < 2 ^ 64 →
  let t' := task_roll_window t now in
  window_start_tick (window t') ≤ now < window_start_tick (window t') + window_len t ∧
  (t' = t ∨ ((∀ w, io_window t' w = 0) ∧ cpu_ticks_window (window t') = 0)) ∧
  (window_start_tick (window t) ≤ now →
     ∃ n, 0 ≤ n ∧ window_start_tick (window t') = window_start_tick (window t) + n * window_len t ∧
          (n = 0 → t' = t)) ∧
  limits t' = limits t ∧ totals t' = totals t ∧ throttle t' = throttle t.
Proof. apply roll_window_spec. Qed.

Lemma task_roll_window_witness :
  let t' := task_roll_window limited_task 123 in
  window_start_tick (window t') ≤ 123 < window_start_tick (window t') + window_len limited_task ∧
  (t' = limited_task ∨ ((∀ w, io_window t' w = 0) ∧ cpu_ticks_window (window t') = 0)) ∧
  (window_start_tick (window limited_task) ≤ 123 →
     ∃ n, 0 ≤ n ∧ window_start_tick (window t') =
            window_start_tick (window limited_task) + n * window_len limited_task ∧
          (n = 0 → t' = limited_task)) ∧
  limits t' = limits limited_task ∧ totals t' = totals limited_task ∧
  throttle t' = throttle limited_task.
Proof. apply (task_roll_window_spec limited_task 123); [apply limited_task_wf|lia]. Defined.

(** While limit and request do not overflow 64 bits, an admitted
    allocation keeps the task within its memory limit, a refused one is over
    it, and freeing undoes the accounting. *)
Theorem task_mem_ceiling_respected t bytes :
  task_wf t → 0 ≤ bytes → mem_bytes_limit (limits t) ≠ 0 →
  mem_bytes_current (totals t) ≤ mem_bytes_limit (limits t) →
  mem_bytes_limit (limits t) + bytes < 2 ^ 64 →
  match task_allow_mem_alloc (Some t) bytes with
  | (true, Some t1) =>
    ∃ t2, task_account_mem_alloc (Some t1) bytes = Some t2 ∧ task_wf t2 ∧
      mem_bytes_current (totals t2) ≤ mem_bytes_limit (limits t2) ∧
      ∃ t3, task_account_mem_free (Some t2) bytes = Some t3 ∧
        mem_bytes_current (totals t3) = mem_bytes_current (totals t)
  | (false, Some t1) =>
    mem_bytes_limit (limits t) < mem_bytes_current (totals t) + bytes ∧
    totals t1 = totals t ∧ limits t1 = limits t
  | (_, None) => False
  end.
Proof.
  intros Hwf Hb Hl Hc Hs. pose proof Hwf as [H1 H2 H3 H4 [H5 H6] H7].
  unfold task_allow_mem_alloc. destruct (Z.eqb_spec (mem_bytes_limit (limits t)) 0); [done|].
  rewrite u64_small by lia.
  destruct (Z.ltb_spec (mem_bytes_limit (limits t)) (mem_bytes_current (totals t) + bytes)) as [Hlt|Hge].
  { simpl. done. }
  simpl. rewrite u64_small by lia. eexists; split; [done|].
  assert (∀ c p, 0 ≤ c ≤ p → p < 2 ^ 64 → task_wf (set_mem t c p)) as Hset by (intros; by split).
  split_and!.
  - apply Hset; case_if; bool_simpl; lia.
  - simpl. lia.
  - eexists; split; [done|]. simpl. unfold saturating_sub_u64. case_if; bool_simpl; lia.
Qed.

Lemma task_mem_ceiling_witness :
  match task_allow_mem_alloc (Some limited_task) 1024 with
  | (true, Some t1) =>
    ∃ t2, task_account_mem_alloc (Some t1) 1024 = Some t2 ∧ task_wf t2 ∧
      mem_bytes_current (totals t2) ≤ mem_bytes_limit (limits t2) ∧
      ∃ t3, task_account_mem_free (Some t2) 1024 = Some t3 ∧
        mem_bytes_current (totals t3) = mem_bytes_current (totals limited_task)
  | (false, Some t1) =>
    mem_bytes_limit (limits limited_task) < mem_bytes_current (totals limited_task) + 1024 ∧
    totals t1 = totals limited_task ∧ limits t1 = limits limited_task
  | (_, None) => False
  end.
Proof.
  apply (task_mem_ceiling_respected limited_task 1024); [apply limited_task_wf|..]; simpl; lia.
Defined.

(** task_allow_mem_alloc admits a request that takes the task over its
    limit when current + bytes wraps around 64 bits. *)
Theorem task_mem_ceiling_wraps :
  ∃ t t1 bytes, task_wf t ∧ 0 ≤ bytes < 2 ^ 64 ∧ mem_bytes_limit (limits t) = 4096 ∧
    task_allow_mem_alloc (Some t) bytes = (true, Some t1) ∧
    4096 < mem_bytes_current (totals t1) + bytes.
Proof.
  exists (set_mem limited_task 4000 4000), (set_mem limited_task 4000 4000), (2 ^ 64 - 1000).
  split_and!; [|lia|lia|done|vm_compute; done|simpl; lia].
  destruct limited_task_wf. split; try done; simpl; lia.
Qed.
