(* ===== verification/Sched.v ===== *)
(** * Scheduler (Kern/Kernel/sched/sched.c, preempt.c, thread.h)

    A single-CPU scheduler with one circular ready queue per intent, linked
    through the threads' [rq_next] fields and reached by tail pointers.
    Threads are objects in a store; a NULL pointer is 0.  [ctx_switch]
    (assembly) ends the running thread's part of [yield] and
    [sched_block_current]: the C statements after it run when that thread is
    switched to again. *)

From S2P Require Import Prelude Irq Task.

(** ** State *)

(** [thread_state_t] *)
Inductive thread_state := READY | RUNNING | BLOCKED | DEAD.
#[global] Instance thread_state_eq_dec : EqDecision thread_state.
Proof. solve_decision. Defined.

(** [thread_t]; of [ctx_t] the stack pointer is kept, the one field the C code
    reads. *)
Record thread := mkThread {
  tid : Z;
  ctx_sp : Z;
  th_task : Z;
  kstack_base : Z;
  kstack_size : Z;
  kstack_top : Z;
  rq_next : Z;
  last_trap : Z;
  irq_sp : Z;
  saved_daif : Z;
  th_intent : Z;
  slice_ticks_budget : Z;
  slice_ticks_used : Z;
  runtime_ticks_total : Z;
  preemptions : Z;
  state : thread_state;
}.

(** [sched_stats_t] *)
Record sched_stats := mkSchedStats {
  tick_now : Z; context_switches : Z; yield_calls : Z; preempt_switches : Z;
  intent_runs : sched_intent → Z;
}.

(** The statics of sched.c and preempt.c, the stores of threads and tasks, and
    the address of [bootstrap_thread]. *)
Record sched_state := mkSched {
  threads : gmap Z thread;
  tasks : gmap Z task;
  bootstrap : Z;
  s_current : Z;
  s_ready_tail : sched_intent → Z;
  s_sched_ticks : Z;
  s_stats : sched_stats;
  s_pick_cursor : Z;
  need_resched : Z;
  preempt_count : Z;
}.

Definition with_next (n : Z) (t : thread) : thread :=
  mkThread (tid t) (ctx_sp t) (th_task t) (kstack_base t) (kstack_size t) (kstack_top t) n
    (last_trap t) (irq_sp t) (saved_daif t) (th_intent t) (slice_ticks_budget t)
    (slice_ticks_used t) (runtime_ticks_total t) (preemptions t) (state t).
Definition with_state (st : thread_state) (t : thread) : thread :=
  mkThread (tid t) (ctx_sp t) (th_task t) (kstack_base t) (kstack_size t) (kstack_top t) (rq_next t)
    (last_trap t) (irq_sp t) (saved_daif t) (th_intent t) (slice_ticks_budget t)
    (slice_ticks_used t) (runtime_ticks_total t) (preemptions t) st.
Definition with_intent (i : Z) (t : thread) : thread :=
  mkThread (tid t) (ctx_sp t) (th_task t) (kstack_base t) (kstack_size t) (kstack_top t) (rq_next t)
    (last_trap t) (irq_sp t) (saved_daif t) i (slice_ticks_budget t)
    (slice_ticks_used t) (runtime_ticks_total t) (preemptions t) (state t).
Definition with_slice (budget used : Z) (t : thread) : thread :=
  mkThread (tid t) (ctx_sp t) (th_task t) (kstack_base t) (kstack_size t) (kstack_top t) (rq_next t)
    (last_trap t) (irq_sp t) (saved_daif t) (th_intent t) budget
    used (runtime_ticks_total t) (preemptions t) (state t).
Definition with_ctx_sp (sp : Z) (t : thread) : thread :=
  mkThread (tid t) sp (th_task t) (kstack_base t) (kstack_size t) (kstack_top t) (rq_next t)
    (last_trap t) (irq_sp t) (saved_daif t) (th_intent t) (slice_ticks_budget t)
    (slice_ticks_used t) (runtime_ticks_total t) (preemptions t) (state t).
Definition with_trap (tf sp : Z) (t : thread) : thread :=
  mkThread (tid t) (ctx_sp t) (th_task t) (kstack_base t) (kstack_size t) (kstack_top t) (rq_next t)
    tf sp (saved_daif t) (th_intent t) (slice_ticks_budget t)
    (slice_ticks_used t) (runtime_ticks_total t) (preemptions t) (state t).
Definition with_counts (runtime pre : Z) (t : thread) : thread :=
  mkThread (tid t) (ctx_sp t) (th_task t) (kstack_base t) (kstack_size t) (kstack_top t) (rq_next t)
    (last_trap t) (irq_sp t) (saved_daif t) (th_intent t) (slice_ticks_budget t)
    (slice_ticks_used t) runtime pre (state t).

Definition set_threads (ts : gmap Z thread) (s : sched_state) : sched_state :=
  mkSched ts (tasks s) (bootstrap s) (s_current s) (s_ready_tail s) (s_sched_ticks s) (s_stats s)
    (s_pick_cursor s) (need_resched s) (preempt_count s).
Definition set_tasks (ts : gmap Z task) (s : sched_state) : sched_state :=
  mkSched (threads s) ts (bootstrap s) (s_current s) (s_ready_tail s) (s_sched_ticks s) (s_stats s)
    (s_pick_cursor s) (need_resched s) (preempt_count s).
Definition set_current (p : Z) (s : sched_state) : sched_state :=
  mkSched (threads s) (tasks s) (bootstrap s) p (s_ready_tail s) (s_sched_ticks s) (s_stats s)
    (s_pick_cursor s) (need_resched s) (preempt_count s).
Definition set_tail (i : sched_intent) (p : Z) (s : sched_state) : sched_state :=
  mkSched (threads s) (tasks s) (bootstrap s) (s_current s)
    (λ j, if decide (j = i) then p else s_ready_tail s j) (s_sched_ticks s) (s_stats s)
    (s_pick_cursor s) (need_resched s) (preempt_count s).
Definition set_ticks (n : Z) (s : sched_state) : sched_state :=
  mkSched (threads s) (tasks s) (bootstrap s) (s_current s) (s_ready_tail s) n (s_stats s)
    (s_pick_cursor s) (need_resched s) (preempt_count s).
Definition set_stats (st : sched_stats) (s : sched_state) : sched_state :=
  mkSched (threads s) (tasks s) (bootstrap s) (s_current s) (s_ready_tail s) (s_sched_ticks s) st
    (s_pick_cursor s) (need_resched s) (preempt_count s).
Definition set_cursor (n : Z) (s : sched_state) : sched_state :=
  mkSched (threads s) (tasks s) (bootstrap s) (s_current s) (s_ready_tail s) (s_sched_ticks s)
    (s_stats s) n (need_resched s) (preempt_count s).
Definition set_need (n : Z) (s : sched_state) : sched_state :=
  mkSched (threads s) (tasks s) (bootstrap s) (s_current s) (s_ready_tail s) (s_sched_ticks s)
    (s_stats s) (s_pick_cursor s) n (preempt_count s).
Definition set_preempt_count (n : Z) (s : sched_state) : sched_state :=
  mkSched (threads s) (tasks s) (bootstrap s) (s_current s) (s_ready_tail s) (s_sched_ticks s)
    (s_stats s) (s_pick_cursor s) (need_resched s) n.

Definition get_thread (p : Z) : M sched_state thread := s <- get_st ;; load (threads s !! p).
(** An assignment to fields of [*p]. *)
Definition upd_thread (p : Z) (f : thread → thread) : M sched_state unit :=
  t <- get_thread p ;; modify (λ s, set_threads (<[p := f t]> (threads s)) s).

(** ** preempt.c *)

Definition preempt_disable : M sched_state unit := modify (λ s, set_preempt_count (u32 (preempt_count s + 1)) s).
Definition preempt_enable : M sched_state unit :=
  n <- gets preempt_count ;;
  (if n =? 0 then panic "preempt: enable with preempt_count == 0" else ret tt) ;;;
  modify (set_preempt_count (u32 (n - 1))).
Definition preemptible : M sched_state bool := n <- gets preempt_count ;; ret (n =? 0).
Definition preempt_set_need_resched : M sched_state unit := modify (set_need 1).
Definition preempt_clear_need_resched : M sched_state unit := modify (set_need 0).
Definition preempt_need_resched : M sched_state bool := n <- gets need_resched ;; ret (negb (n =? 0)).

(** ** Run queues *)

Definition SCHED_ASSERT (b : bool) (msg : string) : M sched_state unit := assert_that b msg.

Definition k_pick_pattern : list sched_intent :=
  [INTERACTIVE; INTERACTIVE; INTERACTIVE; INTERACTIVE; INTERACTIVE; INTERACTIVE;
   LATENCY; LATENCY; LATENCY; LATENCY; THROUGHPUT; THROUGHPUT; BACKGROUND].

Definition sched_slice_for_intent (i : sched_intent) : Z :=
  match i with INTERACTIVE => 2 | LATENCY => 3 | THROUGHPUT => 5 | BACKGROUND => 8 end.

(** [sizeof(trap_frame_t)]: 38 eight-byte words. *)
Definition sizeof_trap_frame : Z := 304.

Definition sched_validate_irq_sp (p : Z) : M sched_state unit :=
  if p =? 0 then ret tt
  else
    s <- get_st ;;
    if p =? bootstrap s then ret tt
    else
      t <- get_thread p ;;
      SCHED_ASSERT (negb (kstack_base t =? 0)) "sched: thread kstack_base is NULL" ;;;
      SCHED_ASSERT (negb (kstack_top t =? 0)) "sched: thread kstack_top is NULL" ;;;
      SCHED_ASSERT (negb (kstack_size t =? 0)) "sched: thread kstack_size is 0" ;;;
      SCHED_ASSERT (negb (irq_sp t =? 0)) "sched: thread irq_sp is NULL" ;;;
      SCHED_ASSERT (Z.land (irq_sp t) 0xF =? 0) "sched: thread irq_sp not 16-byte aligned" ;;;
      SCHED_ASSERT (kstack_base t <=? irq_sp t) "sched: thread irq_sp below stack base" ;;;
      SCHED_ASSERT (u64 (irq_sp t + sizeof_trap_frame) <=? kstack_top t)
        "sched: thread irq_sp beyond stack top".

Definition rq_empty_intent (i : sched_intent) (s : sched_state) : bool := s_ready_tail s i =? 0.

Definition rq_insert_tail_locked (p : Z) : M sched_state unit :=
  if p =? 0 then ret tt
  else
    t <- get_thread p ;;
    assert_that (rq_next t =? 0) "sched: enqueue of already-queued thread" ;;;
    SCHED_ASSERT (bool_decide (state t = READY)) "sched: enqueue requires THREAD_READY" ;;;
    sched_validate_irq_sp p ;;;
    when (negb (ctx_sp t =? 0))
      (SCHED_ASSERT (Z.land (ctx_sp t) 0xF =? 0) "sched: thread ctx.sp not 16-byte aligned") ;;;
    let i := sched_intent_sanitize (th_intent t) in
    s <- get_st ;;
    let tail := s_ready_tail s i in
    if tail =? 0 then
      upd_thread p (with_next p) ;;; modify (set_tail i p)
    else
      tl <- get_thread tail ;;
      upd_thread p (with_next (rq_next tl)) ;;;
      upd_thread tail (with_next p) ;;;
      modify (set_tail i p).

(** The [do ... while (prev != tail)] walk of one queue. *)
Fixpoint remove_walk (i : sched_intent) (tail p prev cur : Z) (fuel : nat) : M sched_state bool :=
  match fuel with
  | O => fault
  | S fuel =>
    if cur =? p then
      (if cur =? prev then modify (set_tail i 0)
       else
         c <- get_thread cur ;;
         upd_thread prev (with_next (rq_next c)) ;;;
         s <- get_st ;;
         when (s_ready_tail s i =? cur) (modify (set_tail i prev))) ;;;
      upd_thread cur (with_next 0) ;;;
      ret true
    else
      c <- get_thread cur ;;
      if negb (cur =? tail) then remove_walk i tail p cur (rq_next c) fuel else ret false
  end.

Fixpoint remove_from (l : list sched_intent) (p : Z) : M sched_state bool :=
  match l with
  | [] => ret false
  | i :: l =>
    s <- get_st ;;
    let tail := s_ready_tail s i in
    if tail =? 0 then remove_from l p
    else
      tl <- get_thread tail ;;
      b <- remove_walk i tail p tail (rq_next tl) (Datatypes.S (size (threads s))) ;;
      if (b : bool) then ret true else remove_from l p
  end.

Definition all_intents : list sched_intent := [INTERACTIVE; LATENCY; THROUGHPUT; BACKGROUND].

Definition rq_remove_locked (p : Z) : M sched_state bool :=
  if p =? 0 then ret false else remove_from all_intents p.

Definition rq_pop_head_intent_locked (i : sched_intent) : M sched_state Z :=
  s <- get_st ;;
  let tail := s_ready_tail s i in
  if tail =? 0 then ret 0
  else
    tl <- get_thread tail ;;
    let head := rq_next tl in
    (if head =? tail then modify (set_tail i 0)
     else h <- get_thread head ;; upd_thread tail (with_next (rq_next h))) ;;;
    upd_thread head (with_next 0) ;;;
    ret head.

(** The pattern scan: the first non-empty class from the cursor on, and the
    position after it. *)
Fixpoint pick_scan (nonempty : sched_intent → bool) (cursor i : Z) (fuel : nat)
    : option (sched_intent * Z) :=
  match fuel with
  | O => None
  | S fuel =>
    let idx := u32 (cursor + i) mod Z.of_nat (length k_pick_pattern) in
    intent ← k_pick_pattern !! Z.to_nat idx;
    if nonempty intent then Some (intent, (idx + 1) mod Z.of_nat (length k_pick_pattern))
    else pick_scan nonempty cursor (i + 1) fuel
  end.

Definition sched_pick_intent_locked : M sched_state sched_intent :=
  s <- get_st ;;
  let nonempty i := negb (rq_empty_intent i s) in
  match pick_scan nonempty (s_pick_cursor s) 0 (length k_pick_pattern) with
  | Some (i, cursor) => modify (set_cursor cursor) ;;; ret i
  | None => ret (default BACKGROUND (head (filter (λ i, nonempty i = true) all_intents)))
  end.

Definition rq_pop_best_locked : M sched_state Z :=
  i <- sched_pick_intent_locked ;; rq_pop_head_intent_locked i.

Definition note_run (i : sched_intent) (st : sched_stats) : sched_stats :=
  mkSchedStats (tick_now st) (context_switches st) (yield_calls st) (preempt_switches st)
    (λ j, if decide (j = i) then u64 (intent_runs st j + 1) else intent_runs st j).
Definition note_switch (st : sched_stats) : sched_stats :=
  mkSchedStats (tick_now st) (u64 (context_switches st + 1)) (yield_calls st) (preempt_switches st)
    (intent_runs st).
Definition note_yield (st : sched_stats) : sched_stats :=
  mkSchedStats (tick_now st) (context_switches st) (u64 (yield_calls st + 1)) (preempt_switches st)
    (intent_runs st).
Definition note_preempt (st : sched_stats) : sched_stats :=
  mkSchedStats (tick_now st) (context_switches st) (yield_calls st) (u64 (preempt_switches st + 1))
    (intent_runs st).

Definition sched_note_run_intent (i : sched_intent) : M sched_state unit :=
  modify (λ s, set_stats (note_run i (s_stats s)) s).

Definition sched_prepare_running_locked (p : Z) : M sched_state unit :=
  if p =? 0 then ret tt
  else
    t <- get_thread p ;;
    let i := sched_intent_sanitize (th_intent t) in
    upd_thread p (λ t, with_slice (sched_slice_for_intent i) 0 (with_state RUNNING t)) ;;;
    sched_note_run_intent i.

(** ** Entry points *)

Definition sched_current : M sched_state Z := gets s_current.
Definition sched_ticks_now : M sched_state Z := gets s_sched_ticks.
Definition sched_get_stats (s : sched_state) : sched_stats :=
  mkSchedStats (s_sched_ticks s) (context_switches (s_stats s)) (yield_calls (s_stats s))
    (preempt_switches (s_stats s)) (intent_runs (s_stats s)).

Definition sched_init_bootstrap : M sched_state unit :=
  s <- get_st ;;
  put_st (mkSched
    (<[bootstrap s := mkThread 0 0 0 0 0 0 0 0 0 0 (intent_code INTERACTIVE) 0 0 0 0 RUNNING]> (threads s))
    (tasks s) (bootstrap s) (bootstrap s) (λ _, 0) 0
    (mkSchedStats 0 0 0 0 (λ _, 0)) 0 (need_resched s) (preempt_count s)).

Definition sched_set_thread_intent (p intent_raw : Z) : M sched_state unit :=
  if p =? 0 then ret tt
  else
    flags <- irq_save ;;
    let next_intent := sched_intent_sanitize intent_raw in
    t <- get_thread p ;;
    if th_intent t =? intent_code next_intent then irq_restore flags
    else
      let was_ready := bool_decide (state t = READY) && negb (rq_next t =? 0) in
      (if was_ready then rq_remove_locked p ;;; ret tt else ret tt) ;;;
      upd_thread p (with_intent (intent_code next_intent)) ;;;
      when was_ready (rq_insert_tail_locked p) ;;;
      irq_restore flags.

Definition sched_enqueue (p : Z) : M sched_state unit :=
  if p =? 0 then ret tt
  else
    flags <- irq_save ;;
    t <- get_thread p ;;
    if decide (state t = DEAD) then irq_restore flags
    else
      upd_thread p (with_state READY) ;;;
      rq_insert_tail_locked p ;;;
      irq_restore flags.

Definition sched_pick_next_locked : M sched_state Z :=
  next <- rq_pop_best_locked ;;
  if next =? 0 then gets s_current else ret next.

(** How a scheduling point ends: in the same thread, or by [ctx_switch] from
    [prev] to [next], where [flags] is the local that [prev] will pass to
    [irq_restore] when it runs again. *)
Inductive resume := Stay | CtxSwitch (prev next flags : Z).

(** [ctx_switch(&prev->ctx, &next->ctx)] saves the stack pointer [sp] of the
    running thread in [prev->ctx]. *)
Definition do_switch (prev next flags sp : Z) : M sched_state resume :=
  sched_prepare_running_locked next ;;;
  modify (set_current next) ;;;
  modify (λ s, set_stats (note_switch (s_stats s)) s) ;;;
  upd_thread prev (with_ctx_sp sp) ;;;
  ret (CtxSwitch prev next flags).

Definition yield (sp : Z) : M sched_state resume :=
  ASSERT_THREAD_CONTEXT ;;;
  flags <- irq_save ;;
  modify (λ s, set_stats (note_yield (s_stats s)) s) ;;;
  prev <- gets s_current ;;
  SCHED_ASSERT (negb (prev =? 0)) "sched: current is NULL" ;;;
  t <- get_thread prev ;;
  SCHED_ASSERT (rq_next t =? 0) "sched: current unexpectedly enqueued" ;;;
  preempt_clear_need_resched ;;;
  boot <- gets bootstrap ;;
  when (negb (prev =? boot) && bool_decide (state t = RUNNING))
    (upd_thread prev (with_state READY) ;;; rq_insert_tail_locked prev) ;;;
  next <- sched_pick_next_locked ;;
  if next =? 0 then irq_restore flags ;;; ret Stay
  else if next =? prev then
    sched_prepare_running_locked prev ;;; irq_restore flags ;;; ret Stay
  else do_switch prev next flags sp.

Definition sched_block_current (sp : Z) : M sched_state resume :=
  ASSERT_THREAD_CONTEXT ;;;
  flags <- irq_save ;;
  prev <- gets s_current ;;
  SCHED_ASSERT (negb (prev =? 0)) "sched: current is NULL" ;;;
  t <- get_thread prev ;;
  SCHED_ASSERT (rq_next t =? 0) "sched: current unexpectedly enqueued" ;;;
  boot <- gets bootstrap ;;
  SCHED_ASSERT (negb (prev =? boot)) "sched: bootstrap thread must not block" ;;;
  upd_thread prev (with_state BLOCKED) ;;;
  next <- sched_pick_next_locked ;;
  if (next =? 0) || (next =? prev) then
    upd_thread prev (with_state RUNNING) ;;; irq_restore flags ;;; ret Stay
  else do_switch prev next flags sp.

Definition sched_wake (p : Z) : M sched_state unit :=
  ASSERT_THREAD_CONTEXT ;;;
  if p =? 0 then ret tt
  else
    flags <- irq_save ;;
    t <- get_thread p ;;
    when (bool_decide (state t = BLOCKED))
      (upd_thread p (with_state READY) ;;; rq_insert_tail_locked p) ;;;
    irq_restore flags.

(** The CPU-limit check of [sched_on_timer_tick]. *)
Definition throttle_cpu (k : task) : task :=
  if cpu_ticks_window (window k) =? u64 (cpu_ticks_limit (limits k) + 1)
  then with_throttle k (mkThrottle (u64 (cpu_throttle_events (throttle k) + 1))
         (io_throttle_events (throttle k)) (mem_throttle_events (throttle k)))
  else k.

Definition account_tick (cur : Z) (t : thread) : M sched_state unit :=
  upd_thread cur (with_counts (u64 (runtime_ticks_total t + 1)) (preemptions t)) ;;;
  when (negb (th_task t =? 0))
    (now <- gets s_sched_ticks ;;
     s <- get_st ;;
     k <- load (tasks s !! th_task t) ;;
     let k := bump_cpu (task_roll_window k now) in
     modify (λ s, set_tasks (<[th_task t := k]> (tasks s)) s) ;;;
     when (negb (cpu_ticks_limit (limits k) =? 0) &&
           (cpu_ticks_limit (limits k) <? cpu_ticks_window (window k)))
       (modify (λ s, set_tasks (<[th_task t := throttle_cpu k]> (tasks s)) s) ;;;
        upd_thread cur (with_intent (intent_code BACKGROUND)) ;;;
        preempt_set_need_resched)).

Definition sched_on_timer_tick : M sched_state unit :=
  modify (λ s, set_ticks (u64 (s_sched_ticks s + 1)) s) ;;;
  cur <- gets s_current ;;
  if cur =? 0 then preempt_set_need_resched
  else
    boot <- gets bootstrap ;;
    t <- get_thread cur ;;
    when (negb (cur =? boot)) (account_tick cur t) ;;;
    t <- get_thread cur ;;
    let used := u64 (slice_ticks_used t + 1) in
    upd_thread cur (with_slice (slice_ticks_budget t) used) ;;;
    when ((slice_ticks_budget t =? 0) || (slice_ticks_budget t <=? used))
      preempt_set_need_resched.

(** [sched_irq_exit]: the frame the IRQ path will restore. *)
Definition sched_irq_exit (tf : Z) : M sched_state Z :=
  masked <- irq_irqs_disabled ;;
  SCHED_ASSERT masked "sched: IRQs must be masked in sched_irq_exit" ;;;
  SCHED_ASSERT (negb (tf =? 0)) "sched: NULL trap frame" ;;;
  cur <- gets s_current ;;
  if cur =? 0 then ret tf
  else
    t <- get_thread cur ;;
    SCHED_ASSERT (rq_next t =? 0) "sched: current unexpectedly enqueued in irq exit" ;;;
    upd_thread cur (with_trap tf (irq_sp t)) ;;;
    nr <- preempt_need_resched ;;
    if negb nr then ret tf
    else
      ok <- preemptible ;;
      if negb ok then ret tf
      else
        preempt_clear_need_resched ;;;
        boot <- gets bootstrap ;;
        when (negb (cur =? boot) && bool_decide (state t = RUNNING))
          (upd_thread cur (λ t, with_state READY (with_trap (last_trap t) tf t)) ;;;
           rq_insert_tail_locked cur) ;;;
        next <- sched_pick_next_locked ;;
        if (next =? 0) || (next =? cur) then
          upd_thread cur (with_state RUNNING) ;;;
          sched_prepare_running_locked cur ;;;
          ret tf
        else
          n <- get_thread next ;;
          SCHED_ASSERT (negb (irq_sp n =? 0)) "sched: next thread irq_sp is NULL" ;;;
          sched_prepare_running_locked next ;;;
          modify (set_current next) ;;;
          when (negb (cur =? boot))
            (c <- get_thread cur ;;
             upd_thread cur (with_counts (runtime_ticks_total c) (u64 (preemptions c + 1)))) ;;;
          modify (λ s, set_stats (note_preempt (s_stats s)) s) ;;;
          modify (λ s, set_stats (note_switch (s_stats s)) s) ;;;
          n <- get_thread next ;;
          ret (irq_sp n).

(** ** Circular queues

    A queue is a ring: its last element leads back to its first. *)

Definition nxt (ts : gmap Z thread) (p : Z) : option Z := rq_next <$> ts !! p.
Definition ring (ts : gmap Z thread) (q : list Z) : Prop := links (nxt ts) q (hd 0 q).

Lemma ring_ext ts ts' q : (∀ x, x ∈ q → nxt ts' x = nxt ts x) → ring ts q → ring ts' q.
Proof. apply links_ext. Qed.

Lemma ring_last ts q tl : ring ts (q ++ [tl]) → nxt ts tl = Some (hd 0 (q ++ [tl])).
Proof. unfold ring. rewrite links_app. simpl. tauto. Qed.

Lemma ring_insert ts ts' q tl p :
  ring ts (q ++ [tl]) → nxt ts' p = Some (hd 0 (q ++ [tl])) → nxt ts' tl = Some p →
  (∀ x, x ∈ q → nxt ts' x = nxt ts x) → ring ts' ((q ++ [tl]) ++ [p]).
Proof.
  unfold ring. rewrite !links_app. simpl. intros [Hq _] Hp Htl Hx. split_and!; try done.
  - by eapply links_ext.
  - rewrite Hp. destruct q; done.
Qed.

(** Taking [p] out of [q1 ++ p :: q2], the element before it now leading to
    the one after it. *)
Lemma ring_remove_mid ts ts' q1 pv p q2 :
  ring ts (q1 ++ pv :: p :: q2) → nxt ts' pv = nxt ts p →
  (∀ x, x ∈ q1 ++ q2 → nxt ts' x = nxt ts x) → ring ts' (q1 ++ pv :: q2).
Proof.
  unfold ring. intros H Hpv Hx.
  replace (hd 0 (q1 ++ pv :: q2)) with (hd 0 (q1 ++ pv :: p :: q2)) by (by destruct q1).
  set (f := hd 0 (q1 ++ pv :: p :: q2)) in *. clearbody f.
  rewrite links_app in H. rewrite links_app. simpl in *. destruct H as (H1 & _ & Hp & H2).
  split_and!; [|by rewrite Hpv|].
  - eapply links_ext; [|done]. intros x ?. apply Hx. set_solver.
  - eapply links_ext; [|done]. intros x ?. apply Hx. set_solver.
Qed.

Lemma ring_remove_head ts ts' p q tl :
  ring ts (p :: q ++ [tl]) → nxt ts' tl = nxt ts p →
  (∀ x, x ∈ q → nxt ts' x = nxt ts x) → ring ts' (q ++ [tl]).
Proof.
  unfold ring. intros H Htl Hx. simpl in H. destruct H as [Hp H]. rewrite links_app in *.
  simpl in *. destruct H as (H1 & _). split_and!; [by eapply links_ext| |done].
  rewrite Htl, Hp. by destruct q.
Qed.

(** Stepping through a store by one assignment to a [rq_next] field. *)
Lemma nxt_insert_eq ts p t n : nxt (<[p := with_next n t]> ts) p = Some n.
Proof. unfold nxt. by rewrite lookup_insert_eq. Qed.
Lemma nxt_insert_ne ts p q t : q ≠ p → nxt (<[p := t]> ts) q = nxt ts q.
Proof. intros. unfold nxt. by rewrite lookup_insert_ne. Qed.

(** ** The invariant of the run queues *)

(** What the enqueue assertions need of a thread's stacks. *)
Definition thread_ok (boot p : Z) (t : thread) : Prop :=
  (p ≠ boot → kstack_base t ≠ 0 ∧ kstack_top t ≠ 0 ∧ kstack_size t ≠ 0 ∧ irq_sp t ≠ 0 ∧
     Z.land (irq_sp t) 0xF = 0 ∧ kstack_base t ≤ irq_sp t ∧
     u64 (irq_sp t + sizeof_trap_frame) ≤ kstack_top t) ∧
  (ctx_sp t ≠ 0 → Z.land (ctx_sp t) 0xF = 0).

Definition queues : Type := sched_intent → list Z.

(** The queues [qs] are what the tail pointers and links represent: each holds
    ready threads of its intent, once; a thread in no queue has no link. *)
Record rq_inv (s : sched_state) (qs : queues) : Prop := {
  ri_ring : ∀ i, ring (threads s) (qs i);
  ri_tail : ∀ i, s_ready_tail s i = List.last (qs i) 0;
  ri_nodup : ∀ i, NoDup (qs i);
  ri_ready : ∀ i p, p ∈ qs i → ∃ t, threads s !! p = Some t ∧ state t = READY ∧
    sched_intent_sanitize (th_intent t) = i;
  ri_idle : ∀ p t, threads s !! p = Some t → (∀ i, p ∉ qs i) → rq_next t = 0;
  ri_null : threads s !! 0 = None;
  ri_ok : ∀ p t, threads s !! p = Some t → thread_ok (bootstrap s) p t;
}.

Definition qset (i : sched_intent) (q : list Z) (qs : queues) : queues :=
  λ j, if decide (j = i) then q else qs j.

Lemma qset_eq i q qs : qset i q qs i = q.
Proof. unfold qset. by rewrite decide_True. Qed.
Lemma qset_ne i j q qs : j ≠ i → qset i q qs j = qs j.
Proof. intros. unfold qset. by rewrite decide_False. Qed.

(** The store with all queue links erased: what queue operations keep. *)
Definition erase (ts : gmap Z thread) : gmap Z thread := with_next 0 <$> ts.

Definition same_rest (s s' : sched_state) : Prop :=
  erase (threads s') = erase (threads s) ∧ tasks s' = tasks s ∧ bootstrap s' = bootstrap s ∧
  s_current s' = s_current s ∧ s_sched_ticks s' = s_sched_ticks s ∧ s_stats s' = s_stats s ∧
  need_resched s' = need_resched s ∧ preempt_count s' = preempt_count s.

#[global] Instance same_rest_preorder : PreOrder same_rest.
Proof.
  split; [done|]. intros x y z (?&?&?&?&?&?&?&?) (?&?&?&?&?&?&?&?). repeat split; congruence.
Qed.

Lemma erase_insert ts p t n : ts !! p = Some t → erase (<[p := with_next n t]> ts) = erase ts.
Proof.
  intros Hp. apply map_eq. intros q. unfold erase. rewrite !lookup_fmap.
  destruct (decide (q = p)) as [->|]; [rewrite lookup_insert_eq, Hp; done|].
  by rewrite lookup_insert_ne.
Qed.

Lemma erase_lookup ts ts' p t : erase ts' = erase ts → ts !! p = Some t →
  ∃ n, ts' !! p = Some (with_next n t).
Proof.
  intros He Hp. assert (erase ts' !! p = Some (with_next 0 t)) as H.
  { rewrite He. unfold erase. by rewrite lookup_fmap, Hp. }
  unfold erase in H. rewrite lookup_fmap in H. destruct (ts' !! p) as [t'|]; [|done].
  injection H as H. exists (rq_next t'). f_equal. destruct t, t'; unfold with_next in *; simpl in *. by simplify_eq.
Qed.

Lemma with_next_same t : with_next (rq_next t) t = t.
Proof. by destruct t. Qed.

Lemma queued_unique s qs i j p : rq_inv s qs → p ∈ qs i → p ∈ qs j → i = j.
Proof.
  intros Hi H1 H2. destruct (ri_ready _ _ Hi _ _ H1) as (t1 & E1 & _ & <-).
  destruct (ri_ready _ _ Hi _ _ H2) as (t2 & E2 & _ & <-). congruence.
Qed.

Lemma queued_nonnull s qs i p : rq_inv s qs → p ∈ qs i → p ≠ 0.
Proof.
  intros Hi Hp ->. destruct (ri_ready _ _ Hi _ _ Hp) as (t & Ht & _).
  by rewrite (ri_null _ _ Hi) in Ht.
Qed.

(** An empty tail pointer is an empty queue; otherwise the queue ends at it. *)
Lemma tail_cases s qs i : rq_inv s qs →
  (s_ready_tail s i = 0 ∧ qs i = []) ∨
  ∃ q tl, qs i = q ++ [tl] ∧ s_ready_tail s i = tl ∧ tl ≠ 0.
Proof.
  intros Hi. rewrite (ri_tail _ _ Hi i). destruct (qs i) as [|tl q _] eqn:E using rev_ind; [by left|].
  right. exists q, tl. rewrite last_snoc. split_and!; [done|done|].
  apply (queued_nonnull s qs i); [done|]. rewrite E. set_solver.
Qed.

Lemma wp_get_thread p t Q c s : threads s !! p = Some t → Q t c s → wp (get_thread p) Q c s.
Proof. intros Hp HQ. unfold get_thread. wp_steps. rewrite Hp. by wp_steps. Qed.

Lemma wp_upd_thread p t f Q c s : threads s !! p = Some t →
  Q tt c (set_threads (<[p := f t]> (threads s)) s) → wp (upd_thread p f) Q c s.
Proof. intros Hp HQ. unfold upd_thread. wp_step. eapply wp_get_thread; [done|]. by wp_steps. Qed.

Lemma erase_lookup_inv ts ts' p t' : erase ts' = erase ts → ts' !! p = Some t' →
  ∃ t, ts !! p = Some t ∧ t' = with_next (rq_next t') t.
Proof.
  intros He Hp. destruct (erase_lookup ts' ts p t') as [n Hn]; [done|done|].
  exists (with_next n t'). split; [done|]. by destruct t'.
Qed.

(** A queue operation keeps the threads up to their links; what is left of the
    invariant is about the links. *)
Lemma mk_rq_inv s s' qs qs' :
  rq_inv s qs → same_rest s s' →
  (∀ i, ring (threads s') (qs' i)) → (∀ i, s_ready_tail s' i = List.last (qs' i) 0) →
  (∀ i, NoDup (qs' i)) →
  (∀ i p, p ∈ qs' i → ∃ t, threads s !! p = Some t ∧ state t = READY ∧
     sched_intent_sanitize (th_intent t) = i) →
  (∀ p t, threads s' !! p = Some t → (∀ i, p ∉ qs' i) → rq_next t = 0) →
  rq_inv s' qs'.
Proof.
  intros Hi (He & _ & Hb & _) Hr Ht Hn Hrd Hid. split; try done.
  - intros i p Hp. destruct (Hrd i p Hp) as (t & Htt & Hs & Hin).
    destruct (erase_lookup _ _ _ _ He Htt) as [n Hn']. by eexists.
  - destruct (threads s' !! 0) as [t'|] eqn:E; [|done].
    destruct (erase_lookup_inv _ _ _ _ He E) as (t & Htt & _). by rewrite (ri_null _ _ Hi) in Htt.
  - intros p t' Hp. destruct (erase_lookup_inv _ _ _ _ He Hp) as (t & Htt & ->).
    rewrite Hb. by apply (ri_ok _ _ Hi) in Htt.
Qed.

Lemma wp_validate p t Q c s : threads s !! p = Some t → thread_ok (bootstrap s) p t →
  Q tt c s → wp (sched_validate_irq_sp p) Q c s.
Proof.
  intros Hp [Hok _] HQ. unfold sched_validate_irq_sp.
  destruct (Z.eqb_spec p 0); [by wp_steps|]. wp_steps.
  destruct (Z.eqb_spec p (bootstrap s)) as [|Hb]; [by wp_steps|].
  destruct (Hok Hb) as (H1 & H2 & H3 & H4 & H5 & H6 & H7).
  wp_step. eapply wp_get_thread; [done|]. cbv beta. unfold SCHED_ASSERT.
  wp_steps; try (by apply negb_true_iff, Z.eqb_neq); [by apply Z.eqb_eq|by apply Z.leb_le|by apply Z.leb_le|done].
Qed.

Lemma wp_ctx_check p t Q c s : thread_ok (bootstrap s) p t → Q tt c s →
  wp (when (negb (ctx_sp t =? 0))
    (SCHED_ASSERT (Z.land (ctx_sp t) 0xF =? 0) "sched: thread ctx.sp not 16-byte aligned")) Q c s.
Proof.
  intros [_ Hok] HQ. apply wp_when. destruct (Z.eqb_spec (ctx_sp t) 0); [done|]. simpl.
  apply wp_assert; [|done]. by apply Z.eqb_eq, Hok.
Qed.

(** *** Appending a thread *)

Section enqueue.
Context (s : sched_state) (qs : queues) (p : Z) (t : thread) (i : sched_intent).
Context (Hi : rq_inv s qs) (Hp : threads s !! p = Some t) (Hst : state t = READY).
Context (Hint : sched_intent_sanitize (th_intent t) = i) (Hnq : ∀ j, p ∉ qs j).

Lemma enqueue_ready j x : x ∈ qset i (qs i ++ [p]) qs j →
  ∃ t, threads s !! x = Some t ∧ state t = READY ∧ sched_intent_sanitize (th_intent t) = j.
Proof using All.
  unfold qset. case_decide; [subst j|by apply (ri_ready _ _ Hi)].
  rewrite elem_of_app, list_elem_of_singleton. intros [?| ->]; [by apply (ri_ready _ _ Hi)|].
  by exists t.
Qed.

Lemma enqueue_nodup j : NoDup (qset i (qs i ++ [p]) qs j).
Proof using All.
  unfold qset. case_decide; [|apply Hi]. apply NoDup_app. split_and!; [apply Hi| |apply NoDup_singleton].
  intros x Hx ->%list_elem_of_singleton. by apply (Hnq i).
Qed.

Lemma enqueue_idle x : (∀ j, x ∉ qset i (qs i ++ [p]) qs j) → x ≠ p ∧ ∀ j, x ∉ qs j.
Proof using All.
  intros Hn. split; [intros ->; apply (Hn i); rewrite qset_eq; set_solver|].
  intros j Hj. apply (Hn j). unfold qset. case_decide; [subst j; set_solver|done].
Qed.

Lemma enqueue_empty : qs i = [] →
  let s' := set_tail i p (set_threads (<[p := with_next p t]> (threads s)) s) in
  same_rest s s' ∧ rq_inv s' (qset i (qs i ++ [p]) qs).
Proof using All.
  intros Eq s'. assert (same_rest s s') as Hsame.
  { split_and!; try done. by apply erase_insert. }
  split; [done|].
  apply (mk_rq_inv s _ qs); [done|done| | |apply enqueue_nodup|apply enqueue_ready|].
  - intros j. unfold qset. case_decide as E; [subst j; rewrite Eq; simpl|].
    + unfold ring. simpl. by rewrite nxt_insert_eq.
    + eapply ring_ext; [|apply Hi]. intros x Hx. apply nxt_insert_ne. intros ->. by apply (Hnq j).
  - intros j. simpl. unfold qset. case_decide; [by rewrite Eq|apply Hi].
  - intros x t' Hx [Hxp Hn]%enqueue_idle. simpl in Hx.
    rewrite lookup_insert_ne in Hx by done. by apply (ri_idle _ _ Hi x).
Qed.

Lemma enqueue_tail q tl ttl : qs i = q ++ [tl] → threads s !! tl = Some ttl →
  let s' := set_tail i p (set_threads (<[tl := with_next p ttl]>
              (<[p := with_next (rq_next ttl) t]> (threads s))) s) in
  same_rest s s' ∧ rq_inv s' (qset i (qs i ++ [p]) qs).
Proof using All.
  intros Eq Htl s'. assert (tl ∈ qs i) as Htlq by (rewrite Eq; set_solver).
  assert (tl ≠ p) as Hne by (intros ->; by apply (Hnq i)).
  pose proof (ri_ring _ _ Hi i) as Hring. rewrite Eq in Hring.
  pose proof (ring_last _ _ _ Hring) as Hlast. unfold nxt in Hlast. rewrite Htl in Hlast.
  injection Hlast as Hlast.
  assert (∀ x, x ≠ p → x ≠ tl → nxt (threads s') x = nxt (threads s) x) as Hother.
  { intros x ??. unfold s'. simpl. by rewrite !nxt_insert_ne. }
  assert (same_rest s s') as Hsame.
  { split_and!; try done. unfold s'. simpl. rewrite erase_insert by (by rewrite lookup_insert_ne).
    by apply erase_insert. }
  split; [done|].
  apply (mk_rq_inv s _ qs); [done|done| | |apply enqueue_nodup|apply enqueue_ready|].
  - intros j. unfold qset. case_decide as E; [subst j; rewrite Eq|].
    + eapply ring_insert; [exact Hring| | |].
      * unfold s'. simpl. rewrite nxt_insert_ne, nxt_insert_eq by done. by rewrite Hlast.
      * unfold s'. simpl. by rewrite nxt_insert_eq.
      * intros x Hx. pose proof (ri_nodup _ _ Hi i) as Hq. rewrite Eq in Hq.
        apply NoDup_app in Hq as (_ & Hd & _).
        apply Hother; [intros ->; apply (Hnq i); rewrite Eq; set_solver|].
        intros ->. apply (Hd tl Hx). set_solver.
    + eapply ring_ext; [|apply Hi]. intros x Hx. apply Hother; [intros ->; by apply (Hnq j)|].
      intros ->. apply E. by eapply queued_unique.
  - intros j. simpl. unfold qset. case_decide; [by rewrite last_snoc|apply Hi].
  - intros x t' Hx [Hxp Hn]%enqueue_idle.
    assert (x ≠ tl) as Hxt by (intros ->; by apply (Hn i)).
    unfold s' in Hx. simpl in Hx. rewrite !lookup_insert_ne in Hx by done.
    by apply (ri_idle _ _ Hi x).
Qed.
End enqueue.

Lemma wp_insert_tail p t Q c s qs :
  let i := sched_intent_sanitize (th_intent t) in
  rq_inv s qs → threads s !! p = Some t → state t = READY → (∀ j, p ∉ qs j) →
  (∀ s', same_rest s s' → s_pick_cursor s' = s_pick_cursor s →
     rq_inv s' (qset i (qs i ++ [p]) qs) → Q tt c s') →
  wp (rq_insert_tail_locked p) Q c s.
Proof.
  intros i Hi Hp Hst Hnq HQ. unfold rq_insert_tail_locked.
  destruct (Z.eqb_spec p 0) as [->|Hp0]; [by rewrite (ri_null _ _ Hi) in Hp|].
  pose proof (ri_ok _ _ Hi _ _ Hp) as Hok.
  wp_step. eapply wp_get_thread; [done|]. wp_step. apply wp_assert; [by apply Z.eqb_eq, (ri_idle _ _ Hi p)|].
  wp_step. apply wp_assert; [by apply bool_decide_eq_true|].
  wp_step. eapply wp_validate; [done|done|]. wp_step. eapply wp_ctx_check; [done|]. fold i. wp_steps.
  destruct (tail_cases s qs i Hi) as [[-> Eq]|(q & tl & Eq & -> & Htl)].
  - rewrite Z.eqb_refl. wp_step. eapply wp_upd_thread; [done|]. wp_steps.
    destruct (enqueue_empty s qs p t i) as [? ?]; try done. by apply HQ.
  - destruct (Z.eqb_spec tl 0); [done|].
    destruct (ri_ready _ _ Hi i tl) as (ttl & Htt & _); [rewrite Eq; set_solver|].
    assert (tl ≠ p) as Hne by (intros ->; apply (Hnq i); rewrite Eq; set_solver).
    wp_step. eapply wp_get_thread; [done|]. wp_step. eapply wp_upd_thread; [done|].
    wp_step. eapply wp_upd_thread; [simpl; by rewrite lookup_insert_ne|]. wp_steps.
    destruct (enqueue_tail s qs p t i Hi Hp Hst eq_refl Hnq q tl ttl) as [? ?]; try done. by apply HQ.
Qed.

(** *** Taking a thread out *)

Lemma dequeue_inv s qs i p q' s' :
  rq_inv s qs → p ∈ qs i → NoDup q' → (∀ x, x ∈ q' ↔ x ∈ qs i ∧ x ≠ p) →
  same_rest s s' → ring (threads s') q' → nxt (threads s') p = Some 0 →
  (∀ x, x ∉ qs i → nxt (threads s') x = nxt (threads s) x) →
  (∀ j, s_ready_tail s' j = if decide (j = i) then List.last q' 0 else s_ready_tail s j) →
  rq_inv s' (qset i q' qs).
Proof.
  intros Hi Hp Hnd Hq' Hsame Hring Hp0 Hother Htail.
  apply (mk_rq_inv s _ qs); [done|done|..].
  - intros j. unfold qset. case_decide as E; [done|]. eapply ring_ext; [|apply Hi].
    intros x Hx. apply Hother. intros Hxi. apply E. by eapply queued_unique.
  - intros j. rewrite Htail. unfold qset. case_decide; [done|apply Hi].
  - intros j. unfold qset. case_decide; [done|apply Hi].
  - intros j x. unfold qset. case_decide; [|by apply (ri_ready _ _ Hi)].
    subst j. rewrite Hq'. intros [? _]. by apply (ri_ready _ _ Hi).
  - intros x t Hx Hn. destruct (decide (x = p)) as [->|Hxp].
    { unfold nxt in Hp0. rewrite Hx in Hp0. by injection Hp0. }
    assert (∀ j, x ∉ qs j) as Hnq.
    { intros j Hj. apply (Hn j). unfold qset. case_decide; [|done]. subst j. by apply Hq'. }
    specialize (Hother x (Hnq i)). unfold nxt in Hother. rewrite Hx in Hother.
    destruct (threads s !! x) as [t0|] eqn:E; [|done]. injection Hother as ->.
    by apply (ri_idle _ _ Hi x).
Qed.

Lemma wp_pop_head i Q c s qs :
  rq_inv s qs →
  (qs i = [] → Q 0 c s) →
  (∀ p q s', qs i = p :: q → p ≠ 0 → same_rest s s' → s_pick_cursor s' = s_pick_cursor s →
     rq_inv s' (qset i q qs) → Q p c s') →
  wp (rq_pop_head_intent_locked i) Q c s.
Proof.
  intros Hi H0 H1. unfold rq_pop_head_intent_locked. wp_steps.
  destruct (tail_cases s qs i Hi) as [[-> Eq]|(q0 & tl & Eq & -> & Htl)].
  { rewrite Z.eqb_refl. wp_steps. by apply H0. }
  destruct (Z.eqb_spec tl 0); [done|].
  destruct (ri_ready _ _ Hi i tl) as (ttl & Htt & _); [rewrite Eq; set_solver|].
  pose proof (ri_ring _ _ Hi i) as Hring. pose proof (ri_nodup _ _ Hi i) as Hnd. rewrite Eq in Hring, Hnd.
  pose proof (ring_last _ _ _ Hring) as Hlast. unfold nxt in Hlast. rewrite Htt in Hlast.
  injection Hlast as Hlast. wp_step. eapply wp_get_thread; [done|]. rewrite Hlast.
  destruct q0 as [|h q0]; simpl hd.
  - (* one element *)
    rewrite Z.eqb_refl. wp_steps. eapply wp_upd_thread; [done|]. wp_steps.
    apply (H1 tl []); [done|done|by split_and!; [apply erase_insert|..]|done|].
    apply (dequeue_inv s qs i tl); [done|rewrite Eq; set_solver|constructor| | |done| | |].
    + intros x. rewrite Eq. set_solver.
    + by split_and!; [apply erase_insert|..].
    + simpl. by rewrite nxt_insert_eq.
    + intros x Hx. simpl. apply nxt_insert_ne. intros ->. apply Hx. rewrite Eq. set_solver.
    + intros j. simpl. done.
  - assert (h ≠ tl ∧ h ∉ q0 ++ [tl]) as [Hht Hhq].
    { simpl in Hnd. apply NoDup_cons in Hnd as [Hn _]. split; [intros ->|done]. apply Hn. set_solver. }
    assert (tl ∉ q0) as Htq.
    { simpl in Hnd. apply NoDup_cons in Hnd as [_ Hn]. apply NoDup_app in Hn as (_ & Hd & _).
      intros Hx. apply (Hd tl Hx). set_solver. }
    destruct (Z.eqb_spec h tl); [done|].
    destruct (ri_ready _ _ Hi i h) as (th & Hth & _); [rewrite Eq; set_solver|].
    wp_steps. eapply wp_get_thread; [done|]. eapply wp_upd_thread; [done|]. wp_steps.
    eapply wp_upd_thread; [simpl; by rewrite lookup_insert_ne|]. wp_steps.
    set (s' := set_threads _ _).
    assert (same_rest s s') as Hsame.
    { split_and!; try done. unfold s'. simpl. rewrite erase_insert by (by rewrite lookup_insert_ne).
      by apply erase_insert. }
    apply (H1 h (q0 ++ [tl])); [done|by eapply (queued_nonnull s qs i); [|rewrite Eq; set_solver]|done|done|].
    apply (dequeue_inv s qs i h); [done|rewrite Eq; set_solver|by apply NoDup_cons in Hnd as [_ ?]| |done| | | |].
    + intros x. rewrite Eq. simpl. rewrite elem_of_cons. split; [|naive_solver].
      intros Hx. split; [by right|]. by intros ->.
    + eapply (ring_remove_head (threads s) _ h); [exact Hring| |].
      * unfold s'. simpl. rewrite nxt_insert_ne, nxt_insert_eq by done. unfold nxt. by rewrite Hth.
      * intros x Hx. unfold s'. simpl. rewrite !nxt_insert_ne; [done|by intros ->|].
        intros ->. apply Hhq. set_solver.
    + unfold s'. simpl. by rewrite nxt_insert_eq.
    + intros x Hx. unfold s'. simpl. rewrite Eq in Hx. rewrite !nxt_insert_ne; [done| |]; intros ->; set_solver.
    + intros j. unfold s'. simpl. case_decide; [|done]. subst j.
      rewrite last_snoc, (ri_tail _ _ Hi i), Eq. simpl app. by rewrite app_comm_cons, last_snoc.
Qed.

(** ** The pick pattern *)

(** The pattern repeated: its entry at absolute position [k]. *)
Definition pat (k : Z) : sched_intent := nth (Z.to_nat (k mod 13)) k_pick_pattern BACKGROUND.

Lemma pattern_lookup k : 0 ≤ k → k_pick_pattern !! Z.to_nat (k mod 13) = Some (pat k).
Proof.
  intros Hk. assert (0 ≤ k mod 13 < 13) as Hm by (apply Z.mod_pos_bound; lia).
  unfold pat. set (m := k mod 13) in *. clearbody m.
  destruct (lookup_lt_is_Some_Z k_pick_pattern m) as [x Hx]; [simpl; lia|].
  rewrite Hx. f_equal. symmetry. by apply nth_lookup_Some with (d := BACKGROUND) in Hx.
Qed.

Lemma pick_scan_spec ne cursor i fuel : 0 ≤ cursor < 13 → 0 ≤ i → i + Z.of_nat fuel ≤ 13 →
  match pick_scan ne cursor i fuel with
  | Some (x, cursor') => ∃ d, i ≤ d < i + Z.of_nat fuel ∧ x = pat (cursor + d) ∧ ne x = true ∧
      cursor' = (cursor + d + 1) mod 13 ∧ ∀ d', i ≤ d' < d → ne (pat (cursor + d')) = false
  | None => ∀ d, i ≤ d < i + Z.of_nat fuel → ne (pat (cursor + d)) = false
  end.
Proof.
  intros Hc. revert i. induction fuel as [|fuel IH]; intros i Hi Hf; cbn [pick_scan]; [lia|].
  change (Z.of_nat (length k_pick_pattern)) with 13. rewrite u32_small by lia.
  rewrite pattern_lookup by lia. cbn [mbind option_bind].
  destruct (ne (pat (cursor + i))) eqn:E.
  - exists i. split_and!; try done; try lia. by rewrite Zplus_mod_idemp_l.
  - specialize (IH (i + 1) ltac:(lia) ltac:(lia)).
    destruct (pick_scan ne cursor (i + 1) fuel) as [[x c']|].
    + destruct IH as (d & Hd & Hx & Hne & Hc' & Hsk). exists d. split_and!; try done; try lia.
      intros d' Hd'. destruct (decide (d' = i)) as [->|]; [done|]. apply Hsk. lia.
    + intros d Hd. destruct (decide (d = i)) as [->|]; [done|]. apply IH. lia.
Qed.

(** Every class has an entry within one turn of the pattern. *)
Lemma pat_covers cursor x : 0 ≤ cursor < 13 → ∃ d, 0 ≤ d < 13 ∧ pat (cursor + d) = x.
Proof.
  intros Hc.
  assert (∃ k, 0 ≤ k < 13 ∧ pat k = x) as (k & Hk & <-).
  { destruct x; [exists 0|exists 6|exists 10|exists 12]; (split; [lia|done]). }
  exists ((k - cursor) mod 13). split; [apply Z.mod_pos_bound; lia|].
  unfold pat. rewrite Zplus_mod_idemp_r. by replace (cursor + (k - cursor)) with k by lia.
Qed.

(** The scheduling decision on the queues: the class and the new cursor, or
    nothing when every queue is empty. *)
Definition a_pick (qs : queues) (cursor : Z) : option (sched_intent * Z) :=
  pick_scan (λ i, negb (bool_decide (qs i = []))) cursor 0 13.

Lemma a_pick_spec qs cursor : 0 ≤ cursor < 13 →
  match a_pick qs cursor with
  | Some (i, cursor') => qs i ≠ [] ∧ 0 ≤ cursor' < 13
  | None => ∀ i, qs i = []
  end.
Proof.
  intros Hc. pose proof (pick_scan_spec (λ i, negb (bool_decide (qs i = []))) cursor 0 13 Hc
    ltac:(lia) ltac:(lia)) as H. fold (a_pick qs cursor) in H.
  destruct (a_pick qs cursor) as [[i c']|].
  - destruct H as (d & _ & _ & Hne & -> & _). bool_simpl. split; [done|]. apply Z.mod_pos_bound. lia.
  - intros i. destruct (pat_covers cursor i Hc) as (d & Hd & <-). specialize (H d ltac:(lia)).
    by bool_simpl.
Qed.

Lemma pick_scan_ext ne ne' cursor i fuel : (∀ x, ne x = ne' x) →
  pick_scan ne cursor i fuel = pick_scan ne' cursor i fuel.
Proof.
  intros He. revert i. induction fuel as [|fuel IH]; intros i; cbn [pick_scan]; [done|].
  destruct (k_pick_pattern !! _) as [x|]; [|done]. cbn [mbind option_bind]. rewrite He, IH. done.
Qed.

Lemma empty_tail s qs i : rq_inv s qs → negb (rq_empty_intent i s) = negb (bool_decide (qs i = [])).
Proof.
  intros Hi. unfold rq_empty_intent. f_equal.
  destruct (tail_cases s qs i Hi) as [[-> ->]|(q & tl & -> & -> & Htl)]; [done|].
  rewrite bool_decide_eq_false_2 by (by destruct q). by apply Z.eqb_neq.
Qed.

(** Picking the next thread: the head of the chosen class, or the current one. *)
Lemma wp_pop_best Q c s qs :
  rq_inv s qs → 0 ≤ s_pick_cursor s < 13 →
  (a_pick qs (s_pick_cursor s) = None → Q 0 c s) →
  (∀ i cursor' p q s', a_pick qs (s_pick_cursor s) = Some (i, cursor') → qs i = p :: q → p ≠ 0 →
     same_rest s s' → s_pick_cursor s' = cursor' → rq_inv s' (qset i q qs) → Q p c s') →
  wp rq_pop_best_locked Q c s.
Proof.
  intros Hi Hc H0 H1. unfold rq_pop_best_locked, sched_pick_intent_locked. wp_steps.
  rewrite (pick_scan_ext _ (λ i, negb (bool_decide (qs i = [])))) by (intros; by apply empty_tail).
  change (length k_pick_pattern) with 13%nat. fold (a_pick qs (s_pick_cursor s)).
  pose proof (a_pick_spec qs (s_pick_cursor s) Hc) as Hp.
  destruct (a_pick qs (s_pick_cursor s)) as [[i c']|].
  - wp_steps. set (s1 := set_cursor c' s).
    assert (rq_inv s1 qs) as Hi1 by (destruct Hi; by split).
    apply (wp_pop_head i _ _ _ qs); [done|by intros E; destruct Hp|].
    intros p q s' Eq Hp0 Hsame Hcur Hinv. by apply (H1 i c' p q).
  - wp_steps. apply (wp_pop_head _ _ _ _ qs); [done|by intros _; apply H0|].
    intros p q s' Eq. by rewrite Hp in Eq.
Qed.

(** *** Weighted fairness *)

(** The classes chosen over a sequence of decisions, each with its own set of
    non-empty classes. *)
Fixpoint picks (nes : list (sched_intent → bool)) (cursor : Z) : list sched_intent :=
  match nes with
  | [] => []
  | ne :: nes =>
    match pick_scan ne cursor 0 13 with
    | Some (i, cursor') => i :: picks nes cursor'
    | None => picks nes cursor
    end
  end.

Definition weight (i : sched_intent) : nat :=
  match i with INTERACTIVE => 6 | LATENCY => 4 | THROUGHPUT => 2 | BACKGROUND => 1 end.

Definition count (x : sched_intent) (l : list sched_intent) : nat := length (filter (λ y, y = x) l).

(** Entries of class [x] at positions [P, P + n) of the repeated pattern. *)
Definition occ (x : sched_intent) (P n : Z) : nat := length (filter (λ k, pat k = x) (seqZ P n)).

Lemma pat_mod k : pat (k mod 13) = pat k.
Proof. unfold pat. by rewrite Z.mod_mod by lia. Qed.

Lemma occ_split x P a b : 0 ≤ a → 0 ≤ b → occ x P (a + b) = (occ x P a + occ x (P + a) b)%nat.
Proof. intros. unfold occ. by rewrite seqZ_app, filter_app, length_app by done. Qed.

Lemma occ_none x P n : (∀ k, P ≤ k < P + n → pat k ≠ x) → occ x P n = 0%nat.
Proof.
  intros Hn. unfold occ. rewrite filter_none; [done|].
  intros k Hk%elem_of_seqZ. by apply Hn.
Qed.

Lemma occ_one x P : occ x P 1 = if decide (pat P = x) then 1%nat else 0%nat.
Proof.
  unfold occ. replace (seqZ P 1) with [P] by (cbv; by rewrite Z.add_0_l || done).
  rewrite filter_cons, filter_nil. by case_decide.
Qed.

Lemma occ_shift x P n : occ x (P mod 13) n = occ x P n.
Proof.
  unfold occ. assert (∀ m Q, seqZ (Q + m) n = (λ k, k + m) <$> seqZ Q n) as Hs.
  { intros m Q. apply list_eq. intros i. rewrite list_lookup_fmap.
    destruct (decide (Z.of_nat i < n)) as [Hi|Hi].
    - rewrite !lookup_seqZ_lt by lia. simpl. f_equal. lia.
    - rewrite !lookup_seqZ_ge by lia. done. }
  pose proof (Z.div_mod P 13 ltac:(lia)) as E.
  replace P with (P mod 13 + 13 * (P / 13)) at 2 by lia. rewrite Hs.
  rewrite length_filter_fmap. f_equal. apply list_filter_iff. intros k. simpl.
  unfold pat. by rewrite (Z.mul_comm 13), Z_mod_plus_full.
Qed.

Lemma occ_turn x P : occ x P 13 = weight x.
Proof.
  rewrite <- occ_shift. pose proof (Z.mod_pos_bound P 13 ltac:(lia)) as Hm.
  set (m := P mod 13) in *. clearbody m.
  assert (m = 0 ∨ m = 1 ∨ m = 2 ∨ m = 3 ∨ m = 4 ∨ m = 5 ∨ m = 6 ∨ m = 7 ∨ m = 8 ∨ m = 9 ∨
    m = 10 ∨ m = 11 ∨ m = 12) as Hc by lia.
  destruct x; destruct_or! Hc; subst m; vm_compute; reflexivity.
Qed.

(** A class that stays non-empty gets every entry of its own that the cursor
    passes. *)
Lemma picks_count x nes P : 0 ≤ P → Forall (λ ne, ne x = true) nes →
  (occ x P (Z.of_nat (length nes)) ≤ count x (picks nes (P mod 13)))%nat.
Proof.
  intros HP Hne. revert P HP. induction Hne as [|ne nes Hx Hne IH]; intros P HP.
  { unfold occ. simpl. lia. }
  cbn [picks]. pose proof (Z.mod_pos_bound P 13 ltac:(lia)) as Hm.
  pose proof (pick_scan_spec ne (P mod 13) 0 13 Hm ltac:(lia) ltac:(lia)) as Hs.
  destruct (pick_scan ne (P mod 13) 0 13) as [[i c']|].
  - destruct Hs as (d & Hd & Hi & Hni & -> & Hsk).
    assert (∀ k, pat (P mod 13 + k) = pat (P + k)) as Hpat.
    { intros k. unfold pat. by rewrite Zplus_mod_idemp_l. }
    rewrite Hpat in Hi.
    replace ((P mod 13 + d + 1) mod 13) with ((P + d + 1) mod 13)
      by (rewrite <- !Z.add_assoc, Zplus_mod_idemp_l; done).
    specialize (IH (P + d + 1) ltac:(lia)).
    assert (occ x P d = 0%nat) as Hz.
    { apply occ_none. intros k Hk E. specialize (Hsk (k - P) ltac:(lia)). rewrite Hpat in Hsk.
      replace (P + (k - P)) with k in Hsk by lia. congruence. }
    assert (occ x P (Z.of_nat (length (ne :: nes))) ≤ occ x P (d + (1 + Z.of_nat (length nes))))%nat as Hle.
    { replace (d + (1 + Z.of_nat (length nes))) with (Z.of_nat (length (ne :: nes)) + d) by (simpl; lia).
      rewrite (occ_split x P (Z.of_nat (length (ne :: nes))) d) by lia. lia. }
    rewrite (occ_split x P d), (occ_split x (P + d) 1), occ_one in Hle by lia.
    unfold count in *. rewrite filter_cons, Hi.
    destruct (decide (pat (P + d) = x)); cbn [length] in *; lia.
  - destruct (pat_covers (P mod 13) x Hm) as (d & Hd & E). specialize (Hs d ltac:(lia)). congruence.
Qed.

(** ** Removing a queued thread *)

Lemma ring_next ts q1 x q2 : ring ts (q1 ++ x :: q2) → nxt ts x = Some (hd (hd 0 (q1 ++ [x])) q2).
Proof.
  unfold ring. rewrite links_app. simpl. intros (_ & -> & _).
  f_equal. by destruct q1.
Qed.

Lemma queue_length s qs i : rq_inv s qs → (length (qs i) ≤ size (threads s))%nat.
Proof.
  intros Hi. rewrite <- (size_list_to_set (C:=gset Z)) by apply Hi. rewrite <- size_dom.
  apply subseteq_size. intros x. rewrite elem_of_list_to_set. intros Hx.
  destruct (ri_ready _ _ Hi _ _ Hx) as (t & Ht & _). by eapply elem_of_dom_2.
Qed.

(** Splicing [cur] out of [q1 ++ cur :: q3]: the element before it in the ring
    is [prev], the last of [q1] or else the queue's tail. *)
Section splice.
Context (q1 q3 : list Z) (cur prev tail : Z).
Context (Hnd : NoDup (q1 ++ cur :: q3)) (Htail : List.last (q1 ++ cur :: q3) 0 = tail).
Context (Hprev : prev = List.last q1 tail).

Lemma splice_mem x : x ∈ q1 ++ q3 ↔ x ∈ q1 ++ cur :: q3 ∧ x ≠ cur.
Proof using Hnd.
  apply NoDup_app in Hnd as (_ & Hd & [Hc3 _]%NoDup_cons). split; [|set_solver].
  intros Hx. split; [set_solver|]. intros ->. apply elem_of_app in Hx as [Hx|Hx]; [|done].
  apply (Hd cur Hx). set_solver.
Qed.

Lemma splice_nodup : NoDup (q1 ++ q3).
Proof using Hnd.
  apply NoDup_app in Hnd as (Hn1 & Hd & [_ Hn3]%NoDup_cons).
  apply NoDup_app. split_and!; [done| |done]. intros x Hx Hx3. apply (Hd x Hx). set_solver.
Qed.

Lemma splice_prev : q1 ++ q3 ≠ [] → prev ≠ cur ∧ prev ∈ q1 ++ cur :: q3.
Proof using Hnd Htail Hprev.
  intros Hne. destruct q1 as [|y q _] using rev_ind.
  - destruct q3 as [|z q _] using rev_ind; [done|]. simpl in Hprev.
    rewrite app_nil_l, app_comm_cons, last_snoc in Htail. subst. split; [|set_solver].
    intros ->. apply NoDup_cons in Hnd as [Hn _]. set_solver.
  - rewrite last_snoc in Hprev. subst y. split; [|set_solver]. intros ->.
    apply NoDup_app in Hnd as (_ & Hd & _). apply (Hd cur); set_solver.
Qed.

Lemma splice_last : q1 ++ q3 ≠ [] →
  List.last (q1 ++ q3) 0 = if tail =? cur then prev else tail.
Proof using Hnd Htail Hprev.
  intros Hne. destruct q3 as [|z q _] using rev_ind.
  - rewrite last_snoc in Htail. subst. rewrite Z.eqb_refl, app_nil_r in *.
    destruct q1 as [|y q _] using rev_ind; [done|]. by rewrite !last_snoc.
  - rewrite app_comm_cons, app_assoc, last_snoc in Htail. subst z.
    rewrite app_assoc, last_snoc. destruct (Z.eqb_spec tail cur) as [->|]; [|done].
    apply NoDup_app in Hnd as (_ & _ & [Hn _]%NoDup_cons). set_solver.
Qed.

Lemma splice_ring ts ts' : q1 ++ q3 ≠ [] → ring ts (q1 ++ cur :: q3) →
  nxt ts' prev = nxt ts cur → (∀ x, x ≠ prev → x ≠ cur → nxt ts' x = nxt ts x) →
  ring ts' (q1 ++ q3).
Proof using Hnd Htail Hprev.
  intros Hne Hring Hp Hx. pose proof splice_mem as Hmem. pose proof splice_nodup as Hnd'.
  destruct q1 as [|y q _] using rev_ind.
  - destruct q3 as [|z q _] using rev_ind; [done|]. simpl in Hprev.
    rewrite app_nil_l, app_comm_cons, last_snoc in Htail. subst.
    eapply (ring_remove_head ts _ cur); [exact Hring|done|]. intros x Hq. apply Hx.
    + intros ->. rewrite app_nil_l in Hnd'. apply NoDup_app in Hnd' as (_ & Hd & _).
      apply (Hd tail Hq). set_solver.
    + apply (Hmem x). simpl. set_solver.
  - rewrite last_snoc in Hprev. subst y. rewrite <- !app_assoc in *. simpl in *.
    eapply (ring_remove_mid ts _ q prev cur q3); [exact Hring|done|]. intros x Hq. apply Hx.
    + intros ->. apply NoDup_app in Hnd' as (_ & Hd & [Hn3 _]%NoDup_cons).
      apply elem_of_app in Hq as [Hq|Hq]; [|done]. apply (Hd prev Hq). set_solver.
    + apply (Hmem x). rewrite !elem_of_app, elem_of_cons in *. tauto.
Qed.
End splice.

Lemma wp_splice i tail prev cur q1 q3 Q c s qs :
  rq_inv s qs → qs i = q1 ++ cur :: q3 → s_ready_tail s i = tail → prev = List.last q1 tail →
  (∀ s', same_rest s s' → s_pick_cursor s' = s_pick_cursor s → rq_inv s' (qset i (q1 ++ q3) qs) →
     Q true c s') →
  wp ((if cur =? prev then modify (set_tail i 0)
       else
         t <- get_thread cur ;;
         upd_thread prev (with_next (rq_next t)) ;;;
         s <- get_st ;;
         when (s_ready_tail s i =? cur) (modify (set_tail i prev))) ;;;
      upd_thread cur (with_next 0) ;;; ret true) Q c s.
Proof.
  intros Hi Eq Htail Hprev HQ.
  pose proof (ri_ring _ _ Hi i) as Hring. pose proof (ri_nodup _ _ Hi i) as Hnd. rewrite Eq in Hring, Hnd.
  assert (cur ∈ qs i) as Hcq by (rewrite Eq; set_solver).
  destruct (ri_ready _ _ Hi i cur Hcq) as (tc & Htc & _).
  assert (∀ x, x ∈ q1 ++ q3 ↔ x ∈ qs i ∧ x ≠ cur) as Hmem by (rewrite Eq; by apply splice_mem).
  pose proof (splice_nodup _ _ _ Hnd) as Hnd'.
  rewrite (ri_tail _ _ Hi i), Eq in Htail.
  destruct (decide (q1 ++ q3 = [])) as [[-> ->]%app_eq_nil|Hne].
  { cbn [List.last app] in Htail, Hprev. assert (prev = cur) as -> by congruence.
    rewrite Z.eqb_refl. wp_steps. eapply wp_upd_thread; [done|]. wp_steps.
    assert (same_rest s (set_threads (<[cur:=with_next 0 tc]> (threads s)) (set_tail i 0 s)))
      as Hs by (split_and!; try done; by apply erase_insert).
    apply HQ; [done|done|]. apply (dequeue_inv s qs i cur); try done.
    - simpl. by rewrite nxt_insert_eq.
    - intros x Hx. simpl. apply nxt_insert_ne. intros ->. by apply Hx. }
  destruct (splice_prev q1 q3 cur prev tail) as [Hpc Hpq]; [done..|]. rewrite <- Eq in Hpq.
  pose proof (splice_last q1 q3 cur prev tail Hnd Htail Hprev Hne) as Hlast.
  destruct (ri_ready _ _ Hi i prev Hpq) as (tp & Htp & _).
  destruct (Z.eqb_spec cur prev); [done|].
  wp_steps. eapply wp_get_thread; [done|]. wp_steps. eapply wp_upd_thread; [done|]. wp_steps.
  simpl s_ready_tail. rewrite (ri_tail _ _ Hi i), Eq, Htail.
  assert (∀ s1, threads s1 = <[prev := with_next (rq_next tc) tp]> (threads s) → same_rest s s1 →
    s_pick_cursor s1 = s_pick_cursor s →
    (∀ j, s_ready_tail s1 j = if decide (j = i) then List.last (q1 ++ q3) 0 else s_ready_tail s j) →
    wp (upd_thread cur (with_next 0)) (λ _ c' s', wp (ret true) Q c' s') c s1) as Hfin.
  { intros s1 E1 Hs1 Hc1 Ht1. eapply wp_upd_thread; [rewrite E1, lookup_insert_ne; done|]. wp_steps.
    assert (same_rest s1 (set_threads (<[cur := with_next 0 tc]> (threads s1)) s1)) as Hs2.
    { split_and!; try done. simpl. apply erase_insert. by rewrite E1, lookup_insert_ne. }
    apply HQ; [by etrans|done|].
    apply (dequeue_inv s qs i cur); [done|done|done|done|by etrans| | | |done]; simpl; rewrite E1.
    - apply (splice_ring q1 q3 cur prev tail Hnd Htail Hprev (threads s)); [done|done| |].
      + rewrite nxt_insert_ne, nxt_insert_eq by done. unfold nxt. by rewrite Htc.
      + intros x ??. by rewrite !nxt_insert_ne.
    - by rewrite nxt_insert_eq.
    - intros x Hx. rewrite !nxt_insert_ne; [done| |]; intros ->; done. }
  rewrite Hlast in Hfin.
  destruct (tail =? cur) eqn:E; wp_steps;
    (apply Hfin; [done|split_and!; try done; by apply erase_insert|done|]);
    intros j; simpl; case_decide; try done. subst j. by rewrite (ri_tail _ _ Hi i), Eq.
Qed.

Lemma wp_remove_walk fuel i tail p prev cur q1 q3 Q c s qs :
  rq_inv s qs → qs i = q1 ++ cur :: q3 → s_ready_tail s i = tail → prev = List.last q1 tail →
  p ∉ q1 → (length (cur :: q3) ≤ fuel)%nat →
  (p ∉ qs i → Q false c s) →
  (∀ q q' s', qs i = q ++ p :: q' → same_rest s s' → s_pick_cursor s' = s_pick_cursor s →
     rq_inv s' (qset i (q ++ q') qs) → Q true c s') →
  wp (remove_walk i tail p prev cur fuel) Q c s.
Proof.
  intros Hi Eq Htail Hprev Hp1 Hf Hno Hyes. revert q1 cur q3 prev Eq Hprev Hp1 Hf.
  induction fuel as [|fuel IH]; intros q1 cur q3 prev Eq Hprev Hp1 Hf; simpl in Hf; [lia|].
  cbn [remove_walk]. destruct (Z.eqb_spec cur p) as [->|Hcp].
  { eapply wp_splice; [done|done|done|done|]. intros s' Hs Hc Hinv. by eapply Hyes. }
  destruct (ri_ready _ _ Hi i cur) as (tc & Htc & _); [rewrite Eq; set_solver|].
  wp_step. eapply wp_get_thread; [done|].
  pose proof (ri_tail _ _ Hi i) as Ht. rewrite Eq, Htail in Ht.
  destruct q3 as [|z q3].
  - rewrite last_snoc in Ht. subst cur. rewrite Z.eqb_refl. simpl. wp_steps. apply Hno.
    rewrite Eq. set_solver.
  - assert (cur ≠ tail) as Hct.
    { destruct (z :: q3) as [|w q _] eqn:E using rev_ind; [done|].
      rewrite app_comm_cons, app_assoc, last_snoc in Ht. subst w. intros ->.
      pose proof (ri_nodup _ _ Hi i) as Hnd. rewrite Eq in Hnd.
      apply NoDup_app in Hnd as (_ & _ & [Hn _]%NoDup_cons). set_solver. }
    destruct (Z.eqb_spec cur tail); [done|]. simpl.
    pose proof (ri_ring _ _ Hi i) as Hring. rewrite Eq in Hring. apply ring_next in Hring.
    unfold nxt in Hring. rewrite Htc in Hring. injection Hring as ->. simpl.
    apply (IH (q1 ++ [cur]) z q3); [by rewrite <- app_assoc|by rewrite last_snoc|set_solver|simpl in *; lia].
Qed.

Lemma wp_rq_remove p i q q' Q c s qs :
  rq_inv s qs → qs i = q ++ p :: q' →
  (∀ s', same_rest s s' → s_pick_cursor s' = s_pick_cursor s →
     rq_inv s' (qset i (q ++ q') qs) → Q true c s') →
  wp (rq_remove_locked p) Q c s.
Proof.
  intros Hi Eq HQ. assert (p ∈ qs i) as Hp by (rewrite Eq; set_solver).
  unfold rq_remove_locked. destruct (Z.eqb_spec p 0); [by eapply queued_nonnull in Hp|].
  assert (∀ l, i ∈ l → wp (remove_from l p) Q c s) as Hl; [|apply Hl; destruct i; set_solver].
  induction l as [|j l IH]; [by intros ?%elem_of_nil|]. intros Hin. cbn [remove_from]. wp_steps.
  assert (j ≠ i → i ∈ l) as Hil by set_solver.
  destruct (tail_cases s qs j Hi) as [[-> Eqj]|(q0 & tl & Eqj & -> & Htl)].
  { rewrite Z.eqb_refl. apply IH, Hil. intros ->. by rewrite Eqj in Hp; apply elem_of_nil in Hp. }
  destruct (Z.eqb_spec tl 0); [done|].
  destruct (ri_ready _ _ Hi j tl) as (ttl & Htt & _); [rewrite Eqj; set_solver|].
  wp_steps. eapply wp_get_thread; [done|].
  pose proof (ri_ring _ _ Hi j) as Hring. rewrite Eqj in Hring. apply ring_last in Hring.
  unfold nxt in Hring. rewrite Htt in Hring. injection Hring as ->.
  assert (∃ h r, q0 ++ [tl] = h :: r) as (h & r & Eh) by (destruct q0; simpl; eauto).
  rewrite Eh. simpl hd. rewrite Eh in Eqj.
  wp_step. eapply (wp_remove_walk _ j _ _ _ _ [] r); [done|done| |done|set_solver| | |].
  - rewrite (ri_tail _ _ Hi j), Eqj, <- Eh, last_snoc. done.
  - pose proof (queue_length s qs j Hi) as Hlen. rewrite Eqj in Hlen. lia.
  - intros Hn. wp_steps. apply IH, Hil. by intros ->.
  - intros a b s' Ea Hs Hc Hinv. wp_steps.
    assert (j = i) as -> by (apply (queued_unique s qs j i p); [done|rewrite Ea; set_solver|done]).
    assert (a ++ b = q ++ q') as E; [|rewrite E in Hinv; by apply HQ].
    pose proof (ri_nodup _ _ Hi i) as Hnd. rewrite Eq in Ea, Hnd.
    apply NoDup_app in Hnd as (_ & Hd & [Hn _]%NoDup_cons).
    assert (p ∉ q) as Hpq by (intros Hx; apply (Hd p Hx); set_solver). clear - Ea Hpq Hn.
    revert a Ea. induction q as [|x q IH]; intros [|y a] Ea; simpl in *; simplify_eq/=; try done.
    + exfalso. apply Hn. set_solver.
    + exfalso. apply Hpq. set_solver.
    + f_equal. apply IH; [set_solver|done].
Qed.

(** ** The invariant of the scheduler *)

(** The running thread is in the store and in no queue, no thread but the
    bootstrap pseudo-thread is marked running beside it, and the bootstrap
    thread is never queued. *)
Record sched_inv (s : sched_state) (qs : queues) : Prop := {
  sv_rq : rq_inv s qs;
  sv_cursor : 0 ≤ s_pick_cursor s < 13;
  sv_current : is_Some (threads s !! s_current s) ∧ ∀ i, s_current s ∉ qs i;
  sv_running : ∀ p t, threads s !! p = Some t → p ≠ bootstrap s → state t = RUNNING →
    p = s_current s;
  sv_boot : ∀ i, bootstrap s ∉ qs i;
}.

(** Up to links, only the threads in [X] differ. *)
Definition only_changes (X : list Z) (s s' : sched_state) : Prop :=
  bootstrap s' = bootstrap s ∧ ∀ x, x ∉ X → erase (threads s') !! x = erase (threads s) !! x.

Lemma only_refl X s : only_changes X s s.
Proof. done. Qed.
Lemma only_trans X s1 s2 s3 : only_changes X s1 s2 → only_changes X s2 s3 → only_changes X s1 s3.
Proof. intros [B1 H1] [B2 H2]. split; [congruence|]. intros x Hx. by rewrite H2, H1. Qed.
Lemma only_mono X Y s s' : (∀ x, x ∈ X → x ∈ Y) → only_changes X s s' → only_changes Y s s'.
Proof. intros Hs [B Hc]. split; [done|]. intros x Hx. apply Hc. auto. Qed.
Lemma only_same_rest X s s' : same_rest s s' → only_changes X s s'.
Proof. intros (He & _ & Hb & _). split; [done|]. intros. by rewrite He. Qed.
Lemma only_upd p t s : only_changes [p] s (set_threads (<[p := t]> (threads s)) s).
Proof.
  split; [done|]. intros x Hx. unfold erase. simpl. rewrite !lookup_fmap.
  rewrite lookup_insert_ne; [done|]. intros ->. apply Hx. left.
Qed.

(** The invariant of the queues only reads threads, tails and the bootstrap
    address, and allows any change to a thread in no queue that keeps it linked
    to nothing and its stacks valid. *)
Lemma rq_inv_ext s s' qs : rq_inv s qs → threads s' = threads s →
  (∀ i, s_ready_tail s' i = s_ready_tail s i) → bootstrap s' = bootstrap s → rq_inv s' qs.
Proof.
  intros [] Ht Htl Hb. split; rewrite ?Ht, ?Hb; try done. intros i. by rewrite Htl.
Qed.

Lemma rq_inv_upd s qs p t t' :
  rq_inv s qs → threads s !! p = Some t → (∀ i, p ∉ qs i) → rq_next t' = 0 →
  thread_ok (bootstrap s) p t' → rq_inv (set_threads (<[p := t']> (threads s)) s) qs.
Proof.
  intros Hi Hp Hnq Hn Hok. split; try apply Hi.
  - intros i. eapply ring_ext; [|apply Hi]. intros x Hx. simpl. apply nxt_insert_ne.
    intros ->. by apply (Hnq i).
  - intros i x Hx. simpl. rewrite lookup_insert_ne; [by apply (ri_ready _ _ Hi)|].
    intros ->. by apply (Hnq i).
  - intros x u. simpl. destruct (decide (x = p)) as [->|]; [rewrite lookup_insert_eq; by intros [= <-]|].
    rewrite lookup_insert_ne by done. apply Hi.
  - simpl. destruct (decide (0 = p)) as [<-|]; [by rewrite (ri_null _ _ Hi) in Hp|].
    rewrite lookup_insert_ne by done. apply Hi.
  - intros x u. simpl. destruct (decide (x = p)) as [->|]; [rewrite lookup_insert_eq; by intros [= <-]|].
    rewrite lookup_insert_ne by done. apply Hi.
Qed.

Lemma wp_pick_next Q c s qs :
  rq_inv s qs → 0 ≤ s_pick_cursor s < 13 →
  (a_pick qs (s_pick_cursor s) = None → Q (s_current s) c s) →
  (∀ i cursor' p q s', a_pick qs (s_pick_cursor s) = Some (i, cursor') → qs i = p :: q → p ≠ 0 →
     same_rest s s' → s_pick_cursor s' = cursor' → rq_inv s' (qset i q qs) → Q p c s') →
  wp sched_pick_next_locked Q c s.
Proof.
  intros Hi Hc H0 H1. unfold sched_pick_next_locked. wp_step. apply (wp_pop_best _ _ _ qs); [done|done| |].
  - intros E. rewrite Z.eqb_refl. wp_steps. by apply H0.
  - intros i c' p q s' E Eq Hp Hs Hcu Hinv. destruct (Z.eqb_spec p 0); [done|]. wp_steps.
    by apply (H1 i c' p q).
Qed.

(** The thread chosen to run: marked running with a full slice. *)
Definition started (t : thread) : thread :=
  with_slice (sched_slice_for_intent (sched_intent_sanitize (th_intent t))) 0 (with_state RUNNING t).

Lemma wp_prepare p t Q c s : threads s !! p = Some t → p ≠ 0 →
  (∀ st, Q tt c (set_stats st (set_threads (<[p := started t]> (threads s)) s))) →
  wp (sched_prepare_running_locked p) Q c s.
Proof.
  intros Hp H0 HQ. unfold sched_prepare_running_locked, sched_note_run_intent.
  destruct (Z.eqb_spec p 0); [done|]. wp_step. eapply wp_get_thread; [done|]. wp_step.
  eapply wp_upd_thread; [done|]. wp_steps. apply HQ.
Qed.

(** The queues after the running thread gives up the CPU: it goes to the tail
    of its class unless it is the bootstrap thread or not marked running. *)
Definition requeued (boot p : Z) (t : thread) (qs : queues) : queues :=
  let i := sched_intent_sanitize (th_intent t) in
  if negb (p =? boot) && bool_decide (state t = RUNNING) then qset i (qs i ++ [p]) qs else qs.

Lemma wp_requeue p t f Q c s qs :
  rq_inv s qs → threads s !! p = Some t → (∀ i, p ∉ qs i) →
  rq_next (f t) = 0 → th_intent (f t) = th_intent t → state (f t) = READY →
  thread_ok (bootstrap s) p (f t) →
  (∀ s', rq_inv s' (requeued (bootstrap s) p t qs) → s_pick_cursor s' = s_pick_cursor s →
     s_current s' = s_current s → need_resched s' = need_resched s → only_changes [p] s s' →
     (∃ n, threads s' !! p = Some (with_next n
        (if negb (p =? bootstrap s) && bool_decide (state t = RUNNING) then f t else t))) → Q tt c s') →
  wp (when (negb (p =? bootstrap s) && bool_decide (state t = RUNNING))
       (upd_thread p f ;;; rq_insert_tail_locked p)) Q c s.
Proof.
  intros Hi Hp Hnq Hn Hint Hst Hok HQ. apply wp_when. unfold requeued in HQ.
  destruct (negb (p =? bootstrap s) && bool_decide (state t = RUNNING)).
  - wp_step. eapply wp_upd_thread; [done|]. cbv beta.
    pose proof (rq_inv_upd s qs p t (f t) Hi Hp Hnq Hn Hok) as Hi1.
    eapply (wp_insert_tail p (f t)); [exact Hi1|cbn [threads set_threads]; by rewrite lookup_insert_eq|done|done|].
    intros s' Hs Hcu Hinv. rewrite Hint in Hinv. pose proof Hs as (He & _ & _ & Hcur & _ & _ & Hnr & _).
    apply HQ; [done|done|done|done|eapply only_trans; [apply only_upd|by apply only_same_rest]|].
    eapply erase_lookup; [exact He|]. simpl. by rewrite lookup_insert_eq.
  - apply HQ; [done|done|done|done|apply only_refl|]. exists (rq_next t). by rewrite with_next_same.
Qed.

(** ** Dispatching *)

(** No thread is marked running but, possibly, the bootstrap one: the state of
    the store between the end of one thread's turn and the next dispatch. *)
Definition quiesced (s : sched_state) : Prop :=
  ∀ x t, threads s !! x = Some t → x ≠ bootstrap s → state t ≠ RUNNING.

Lemma quiesced_same_rest s s' : same_rest s s' → quiesced s → quiesced s'.
Proof.
  intros (He & _ & Hb & _) Hq x t' Hx. destruct (erase_lookup_inv _ _ _ _ He Hx) as (t & Ht & ->).
  rewrite Hb. intros ?. by apply (Hq x t).
Qed.

Lemma only_lookup X s s' x t' : only_changes X s s' → x ∉ X → threads s' !! x = Some t' →
  ∃ t, threads s !! x = Some t ∧ t' = with_next (rq_next t') t.
Proof.
  intros [_ H] Hx Ht. specialize (H x Hx). unfold erase in H. rewrite !lookup_fmap, Ht in H.
  destruct (threads s !! x) as [t|]; [|done]. injection H as H. exists t. split; [done|].
  destruct t, t'; unfold with_next in *; simpl in *. by simplify_eq.
Qed.

(** The running thread has been marked as something else. *)
Lemma quiesced_only s qs s' : sched_inv s qs → only_changes [s_current s] s s' →
  (∀ t', threads s' !! s_current s = Some t' → s_current s ≠ bootstrap s → state t' ≠ RUNNING) →
  quiesced s'.
Proof.
  intros Hv Ho Hc x t' Hx Hb. destruct (decide (x = s_current s)) as [->|Hne].
  { apply Hc; [done|]. by destruct Ho as [<- _]. }
  assert (x ∉ [s_current s]) as Hnx by set_solver.
  destruct (only_lookup _ _ _ _ _ Ho Hnx Hx) as (t & Ht & ->). simpl. intros Hr.
  apply Hne, (sv_running _ _ Hv x t); [done| |done]. by destruct Ho as [<- _].
Qed.

(** Starting a thread that is in no queue. *)
Lemma settle s qs p t t' s' :
  rq_inv s qs → quiesced s → 0 ≤ s_pick_cursor s < 13 → threads s !! p = Some t →
  (∀ i, p ∉ qs i) → rq_next t' = 0 → thread_ok (bootstrap s) p t' →
  threads s' = <[p := t']> (threads s) → (∀ i, s_ready_tail s' i = s_ready_tail s i) →
  bootstrap s' = bootstrap s → s_pick_cursor s' = s_pick_cursor s → s_current s' = p →
  (∀ i, bootstrap s ∉ qs i) → sched_inv s' qs.
Proof.
  intros Hi Hq Hc Hp Hnq Hn Hok Et Etl Eb Ec Ecur Hboot. split.
  - eapply (rq_inv_ext (set_threads (<[p := t']> (threads s)) s)); [|done..]. by eapply rq_inv_upd.
  - by rewrite Ec.
  - rewrite Et, Ecur. split; [|done]. rewrite lookup_insert_eq. by eexists.
  - intros x u. rewrite Et, Eb, Ecur. destruct (decide (x = p)) as [->|]; [done|].
    rewrite lookup_insert_ne by done. intros Hx Hb Hr. by destruct (Hq x u Hx Hb).
  - by rewrite Eb.
Qed.

(** A change to fields the queues do not depend on. *)
Lemma rq_inv_frame s qs p t t' :
  rq_inv s qs → threads s !! p = Some t → rq_next t' = rq_next t → state t' = state t →
  th_intent t' = th_intent t → thread_ok (bootstrap s) p t' →
  rq_inv (set_threads (<[p := t']> (threads s)) s) qs.
Proof.
  intros Hi Hp Hn Hs Hint Hok.
  assert (∀ x, nxt (<[p := t']> (threads s)) x = nxt (threads s) x) as Hnx.
  { intros x. destruct (decide (x = p)) as [->|]; [|by apply nxt_insert_ne].
    unfold nxt. by rewrite lookup_insert_eq, Hp; simpl; rewrite Hn. }
  split; cbn [threads set_threads s_ready_tail bootstrap]; try apply Hi.
  - intros i. eapply ring_ext; [|apply Hi]. done.
  - intros i x Hx. destruct (ri_ready _ _ Hi _ _ Hx) as (u & Hu & ? & ?).
    destruct (decide (x = p)) as [->|]; [|by rewrite lookup_insert_ne by done; exists u].
    rewrite Hp in Hu. injection Hu as ->. exists t'. rewrite lookup_insert_eq. split_and!; congruence.
  - intros x u. destruct (decide (x = p)) as [->|]; [|rewrite lookup_insert_ne by done; apply Hi].
    rewrite lookup_insert_eq. intros [= <-] Hnq. rewrite Hn. by eapply (ri_idle _ _ Hi).
  - rewrite lookup_insert_ne; [apply Hi|]. intros ->. by rewrite (ri_null _ _ Hi) in Hp.
  - intros x u. destruct (decide (x = p)) as [->|]; [|rewrite lookup_insert_ne by done; apply Hi].
    rewrite lookup_insert_eq. by intros [= <-].
Qed.

Lemma popped_fresh s qs i p q j : rq_inv s qs → qs i = p :: q → p ∉ qset i q qs j.
Proof.
  intros Hi Eq. unfold qset. case_decide as E.
  - pose proof (ri_nodup _ _ Hi i) as Hn. rewrite Eq in Hn. by apply NoDup_cons in Hn as [? _].
  - intros Hj. apply E. eapply (queued_unique s qs); [done|exact Hj|]. rewrite Eq. left.
Qed.

(** The decision at a scheduling point: the thread to run, the queues and the
    cursor afterwards; the current thread when nothing is ready. *)
Definition decision (qs : queues) (cursor cur : Z) : Z * queues * Z :=
  match a_pick qs cursor with
  | Some (i, cursor') =>
    match qs i with p :: q => (p, qset i q qs, cursor') | [] => (cur, qs, cursor) end
  | None => (cur, qs, cursor)
  end.

Lemma decision_subset qs cursor cur next qs' cursor' x i :
  decision qs cursor cur = (next, qs', cursor') → x ∈ qs' i → x ∈ qs i.
Proof.
  unfold decision. destruct (a_pick qs cursor) as [[j c']|]; [|by intros [= _ <- _]].
  destruct (qs j) as [|p q] eqn:E; [by intros [= _ <- _]|]. intros [= _ <- _]. unfold qset.
  case_decide; [|done]. subst. rewrite E. by right.
Qed.

Lemma wp_decision Q c s qs next qs' cursor' :
  rq_inv s qs → 0 ≤ s_pick_cursor s < 13 → quiesced s →
  is_Some (threads s !! s_current s) → (a_pick qs (s_pick_cursor s) = None → ∀ i, s_current s ∉ qs i) →
  (∀ i, bootstrap s ∉ qs i) →
  decision qs (s_pick_cursor s) (s_current s) = (next, qs', cursor') →
  (∀ s', same_rest s s' → rq_inv s' qs' → s_pick_cursor s' = cursor' → 0 ≤ cursor' < 13 →
     quiesced s' → (∀ i, next ∉ qs' i) → next ≠ 0 → (∀ i, bootstrap s' ∉ qs' i) →
     (∃ t, threads s' !! next = Some t ∧ rq_next t = 0 ∧ (next = s_current s ∨ next ≠ bootstrap s')) →
     Q next c s') →
  wp sched_pick_next_locked Q c s.
Proof.
  intros Hi Hc Hq [tc Htc] Hnone Hboot Hd HQ. pose proof (a_pick_spec qs _ Hc) as Hs.
  assert (∀ i, bootstrap s ∉ qs' i) as Hboot'.
  { intros i Hb. apply (Hboot i). by eapply decision_subset. }
  unfold decision in Hd. apply (wp_pick_next _ _ _ qs); [done|done| |].
  - intros E. rewrite E in Hd. simplify_eq. apply HQ; try done; [by apply Hnone| |].
    + intros E0. rewrite E0, (ri_null _ _ Hi) in Htc. done.
    + exists tc. split_and!; [done| |by left]. by apply (ri_idle _ _ Hi _ _ Htc), Hnone.
  - intros i c' p q s' E Eq Hp0 Hsame Hcur Hinv. rewrite E in Hd, Hs. rewrite Eq in Hd. simplify_eq.
    destruct (ri_ready _ _ Hi i next) as (t & Ht & _); [rewrite Eq; left|].
    destruct (erase_lookup _ (threads s') _ _ (proj1 Hsame) Ht) as [n Hn].
    assert (∀ j, next ∉ qset i q qs j) as Hfr by (intros; by eapply popped_fresh).
    assert (bootstrap s' = bootstrap s) as Eb by apply Hsame.
    apply HQ; try done; [by destruct Hs|by eapply quiesced_same_rest|by rewrite Eb|].
    eexists. split_and!; [done|by eapply (ri_idle _ _ Hinv)|]. right. rewrite Eb.
    intros ->. apply (Hboot i). rewrite Eq. left.
Qed.

(** The state after a switch from [prev] to [next]. *)
Lemma switch_settled s qs prev tp tp' next tn s' :
  rq_inv s qs → quiesced s → 0 ≤ s_pick_cursor s < 13 → prev ≠ next →
  threads s !! prev = Some tp → threads s !! next = Some tn → rq_next tn = 0 →
  (∀ i, next ∉ qs i) → (∀ i, bootstrap s ∉ qs i) →
  rq_next tp' = rq_next tp → state tp' = state tp → th_intent tp' = th_intent tp →
  thread_ok (bootstrap s) prev tp' →
  threads s' = <[prev := tp']> (<[next := started tn]> (threads s)) →
  (∀ i, s_ready_tail s' i = s_ready_tail s i) →
  bootstrap s' = bootstrap s → s_pick_cursor s' = s_pick_cursor s → s_current s' = next →
  sched_inv s' qs ∧ only_changes [prev; next] s s'.
Proof.
  intros Hi Hq Hc Hne Hp Hn Hl Hnq Hboot E1 E2 E3 Hok Et Etl Eb Ec Ecur. split.
  - pose proof (rq_inv_frame s qs prev tp tp' Hi Hp E1 E2 E3 Hok) as Hi1.
    eapply (settle _ qs next tn (started tn));
      [exact Hi1| |done| |done|done|exact (ri_ok _ _ Hi _ _ Hn)| |done..].
    + intros x u. cbn. destruct (decide (x = prev)) as [->|].
      * rewrite lookup_insert_eq. intros [= <-]. rewrite E2. by apply (Hq prev tp).
      * rewrite lookup_insert_ne by done. apply Hq.
    + cbn. by rewrite lookup_insert_ne.
    + rewrite Et. cbn. by rewrite insert_insert_ne.
  - split; [done|]. intros x Hx. rewrite Et. unfold erase. rewrite !lookup_fmap.
    rewrite !lookup_insert_ne; [done|set_solver..].
Qed.

Lemma wp_do_switch prev next flags sp tp tn Q c s qs :
  rq_inv s qs → quiesced s → 0 ≤ s_pick_cursor s < 13 → prev ≠ next → next ≠ 0 →
  threads s !! prev = Some tp → threads s !! next = Some tn → rq_next tn = 0 →
  (∀ i, next ∉ qs i) → (∀ i, bootstrap s ∉ qs i) → Z.land sp 0xF = 0 →
  (∀ s', sched_inv s' qs → s_current s' = next → s_pick_cursor s' = s_pick_cursor s →
     need_resched s' = need_resched s → only_changes [prev; next] s s' →
     threads s' !! next = Some (started tn) → threads s' !! prev = Some (with_ctx_sp sp tp) →
     Q (CtxSwitch prev next flags) c s') →
  wp (do_switch prev next flags sp) Q c s.
Proof.
  intros Hi Hq Hc Hne H0 Hp Hn Hl Hnq Hboot Hsp HQ. unfold do_switch. wp_step.
  eapply wp_prepare; [done|done|]. intros st. wp_steps.
  eapply wp_upd_thread; [cbn; by rewrite lookup_insert_ne|]. cbv beta. wp_steps.
  set (s' := set_threads _ _).
  assert (sched_inv s' qs ∧ only_changes [prev; next] s s') as [Hv Ho].
  { eapply (switch_settled s qs prev tp (with_ctx_sp sp tp) next tn); try done.
    destruct (ri_ok _ _ Hi _ _ Hp) as [H1 _]. by split. }
  apply HQ; try done; cbn.
  - by rewrite lookup_insert_ne, lookup_insert_eq.
  - by rewrite lookup_insert_eq.
Qed.

(** ** Scheduling points *)

Lemma sched_nonnull s qs p t : sched_inv s qs → threads s !! p = Some t → p ≠ 0.
Proof. intros Hv Hp ->. by rewrite (ri_null _ _ (sv_rq _ _ Hv)) in Hp. Qed.

Lemma requeued_boot boot p t qs i : (∀ j, boot ∉ qs j) → boot ∉ requeued boot p t qs i.
Proof.
  intros Hb. unfold requeued. destruct (Z.eqb_spec p boot); [done|].
  destruct (bool_decide _); [|done]. cbn [negb andb]. unfold qset. case_decide; [|done]. subst.
  specialize (Hb (sched_intent_sanitize (th_intent t))). set_solver.
Qed.

(** When every class is empty after the requeue, nothing was requeued. *)
Lemma requeued_none boot p t qs cursor : 0 ≤ cursor < 13 → (∀ i, p ∉ qs i) →
  a_pick (requeued boot p t qs) cursor = None → ∀ i, p ∉ requeued boot p t qs i.
Proof.
  intros Hc Hp E i. pose proof (a_pick_spec (requeued boot p t qs) cursor Hc) as H.
  rewrite E in H. rewrite H. apply not_elem_of_nil.
Qed.

(** How the thread record of the one that ran looks when it is switched out. *)
Definition parked (boot p sp : Z) (t : thread) : thread :=
  with_ctx_sp sp (if negb (p =? boot) && bool_decide (state t = RUNNING) then with_state READY t else t).

Lemma parked_quiet boot p t t' : p ≠ boot → state t' = READY →
  state (if negb (p =? boot) && bool_decide (state t = RUNNING) then t' else t) ≠ RUNNING.
Proof.
  intros Hb Hr. destruct (Z.eqb_spec p boot); [done|]. cbn [negb andb].
  destruct (bool_decide_reflect (state t = RUNNING)); congruence.
Qed.

(** What a scheduling point leaves: [next] is current, the queues are [qs], and
    only the two threads involved changed. *)
Record dispatched (s : sched_state) (prev next : Z) (qs : queues) (cursor : Z) (s' : sched_state) : Prop := {
  ds_inv : sched_inv s' qs;
  ds_current : s_current s' = next;
  ds_cursor : s_pick_cursor s' = cursor;
  ds_only : only_changes [prev; next] s s';
}.

Lemma only_next X s s' x t' : only_changes X s s' → x ∉ X → threads s' !! x = Some t' → rq_next t' = 0 →
  ∃ t, threads s !! x = Some t ∧ t' = with_next 0 t.
Proof.
  intros Ho Hx Ht Hn. destruct (only_lookup _ _ _ _ _ Ho Hx Ht) as (t & ? & E).
  rewrite Hn in E. by exists t.
Qed.

(** Switching away from the requeued current thread. *)
Lemma wp_switch_out s s1 s2 prev t tp next flags sp Q c qs :
  only_changes [prev] s s1 → same_rest s1 s2 → (∃ n, threads s1 !! prev = Some (with_next n tp)) →
  rq_inv s2 qs → quiesced s2 → 0 ≤ s_pick_cursor s2 < 13 → prev ≠ next → next ≠ 0 →
  threads s2 !! next = Some t → rq_next t = 0 → (∀ i, next ∉ qs i) →
  (∀ i, bootstrap s2 ∉ qs i) → Z.land sp 0xF = 0 →
  (∀ s', dispatched s prev next qs (s_pick_cursor s2) s' → need_resched s' = need_resched s1 →
     (∃ tn, threads s !! next = Some tn ∧ threads s' !! next = Some (started (with_next 0 tn))) →
     (∃ n, threads s' !! prev = Some (with_next n (with_ctx_sp sp tp))) →
     Q (CtxSwitch prev next flags) c s') →
  wp (do_switch prev next flags sp) Q c s2.
Proof.
  intros Ho Hs [n Hp] Hi Hq Hc Hne H0 Hn Hl Hnq Hboot Hsp HQ.
  destruct (erase_lookup _ (threads s2) _ _ (proj1 Hs) Hp) as [m Hm].
  assert (only_changes [prev] s s2) as Ho2 by (eapply only_trans; [done|by apply only_same_rest]).
  eapply wp_do_switch; [done|done|done|done|done|exact Hm|exact Hn|done|done|done|done|].
  intros s' Hv Hcur Hcu Hnr Ho' Hn' Hp'. apply HQ.
  - split; try done. eapply only_trans; [|done]. eapply only_mono; [|done]. set_solver.
  - destruct Hs as (_ & _ & _ & _ & _ & _ & E & _). congruence.
  - assert (next ∉ [prev]) as Hnp by set_solver.
    destruct (only_next _ _ _ _ _ Ho2 Hnp Hn Hl) as (t0 & ? & ->). by exists t0.
  - by exists m.
Qed.

(** Going on with the requeued current thread. *)
Lemma stay_dispatched s s1 s2 p t0 tp tn qs st f :
  only_changes [p] s s1 → same_rest s1 s2 → (∃ n, threads s1 !! p = Some (with_next n tp)) →
  rq_inv s2 qs → quiesced s2 → 0 ≤ s_pick_cursor s2 < 13 → threads s2 !! p = Some tn →
  rq_next tn = 0 → (∀ i, p ∉ qs i) → (∀ i, bootstrap s2 ∉ qs i) → s_current s1 = p →
  t0 = f tn → rq_next t0 = 0 → thread_ok (bootstrap s2) p t0 →
  let s' := set_stats st (set_threads (<[p := t0]> (threads s2)) s2) in
  dispatched s p p qs (s_pick_cursor s2) s' ∧ need_resched s' = need_resched s1 ∧
  threads s' !! p = Some (f (with_next 0 tp)).
Proof.
  intros Ho Hs [n Hp] Hi Hq Hc Hn Hl Hfr Hboot Hcur -> Hf0 Hok s'.
  destruct (erase_lookup _ (threads s2) _ _ (proj1 Hs) Hp) as [m Hm].
  assert (tn = with_next 0 tp) as -> by (rewrite Hn in Hm; injection Hm as ->; simpl in Hl; by rewrite Hl).
  pose proof Hs as (_ & _ & _ & E & _ & _ & En & _). split_and!.
  - split; try done.
    + by eapply (settle s2 qs p _ (f (with_next 0 tp))); try done; cbn; rewrite E, Hcur.
    + cbn. by rewrite E, Hcur.
    + apply (only_mono [p]); [set_solver|]. eapply only_trans; [exact Ho|].
      eapply only_trans; [by apply only_same_rest|]. apply (only_upd p).
  - done.
  - cbn. by rewrite lookup_insert_eq.
Qed.

(** C7: yield refines the abstract decision on the ready queues: a running
    thread goes to the tail of its class, the head of the class chosen by the
    pick pattern is dispatched with a full slice, the circular lists represent
    the new queues, and the call either stays with the interrupt mask restored
    or switches context with it masked. *)
Theorem yield_spec sp c s qs t next qs' cursor' :
  sched_inv s qs → cpu_wf c → irq_depth c = 0 → threads s !! s_current s = Some t →
  Z.land sp 0xF = 0 →
  decision (requeued (bootstrap s) (s_current s) t qs) (s_pick_cursor s) (s_current s)
    = (next, qs', cursor') →
  wp (yield sp) (λ r c' s',
    dispatched s (s_current s) next qs' cursor' s' ∧ need_resched s' = 0 ∧
    (∃ tn, threads s !! next = Some tn ∧ threads s' !! next = Some (started (with_next 0 tn))) ∧
    if decide (next = s_current s) then r = Stay ∧ c' = c
    else r = CtxSwitch (s_current s) next (daif c) ∧ c' = masked_cpu c ∧
      ∃ n, threads s' !! s_current s = Some (with_next n (parked (bootstrap s) (s_current s) sp t))) c s.
Proof.
  intros Hv Hwf Hd Ht Hsp Hdec. set (p := s_current s) in *.
  destruct (sv_current _ _ Hv) as [_ Hnq]. fold p in Hnq.
  pose proof (ri_ok _ _ (sv_rq _ _ Hv) _ _ Ht) as Hok.
  pose proof (ri_idle _ _ (sv_rq _ _ Hv) _ _ Ht Hnq) as Hidle.
  pose proof (sched_nonnull _ _ _ _ Hv Ht) as Hp0.
  unfold yield, SCHED_ASSERT. wp_step. apply wp_assert_thread; [done|]. wp_step. apply wp_irq_save.
  do 2 wp_step. cbv beta. do 2 wp_step. cbn [s_current set_stats]. fold p.
  do 2 wp_step; [by apply negb_true_iff, Z.eqb_neq|]. wp_step.
  eapply wp_get_thread; [exact Ht|]. do 2 wp_step; [by apply Z.eqb_eq|].
  unfold preempt_clear_need_resched. do 4 wp_step. cbn [bootstrap set_need set_stats]. wp_step.
  set (s0 := set_need 0 _).
  assert (rq_inv s0 qs) as Hi0 by (eapply rq_inv_ext; [apply Hv|done..]).
  change (bootstrap s) with (bootstrap s0).
  eapply (wp_requeue p t (with_state READY)); [exact Hi0|exact Ht|exact Hnq|exact Hidle|reflexivity|reflexivity|exact Hok|].
  intros s1 Hi1 Hc1 Hcur1 Hnr1 Ho1 Hp1. cbv beta. wp_step.
  assert (only_changes [p] s s1) as Ho by (eapply only_trans; [|exact Ho1]; done).
  assert (quiesced s1) as Hq.
  { apply (quiesced_only s qs); [done|done|]. fold p. destruct Hp1 as [n ->]. intros ? [= <-] Hb.
    by apply (parked_quiet (bootstrap s) p). }
  change (s_current s0) with p in Hcur1.
  change (s_pick_cursor s) with (s_pick_cursor s0) in Hdec. rewrite <- Hc1 in Hdec.
  replace p with (s_current s1) in Hdec at 2 by done.
  eapply (wp_decision _ _ s1); [exact Hi1|rewrite Hc1; apply Hv|done| | | |exact Hdec|].
  { rewrite Hcur1. destruct Hp1 as [n ->]. by eexists. }
  { rewrite Hcur1. apply requeued_none; [rewrite Hc1; apply Hv|done]. }
  { rewrite (proj1 Ho). intros i. apply requeued_boot. apply Hv. }
  intros s2 Hs2 Hi2 Hc2 Hcb Hq2 Hfr Hn0 Hbt (tn & Hn & Hl & _).
  destruct (Z.eqb_spec next 0); [done|]. destruct (Z.eqb_spec next p) as [->|Hne].
  - wp_step. eapply wp_prepare; [done|done|]. intros st. wp_step.
    apply wp_irq_restore; [done|]. wp_steps. rewrite decide_True by done.
    rewrite <- Hc2 in Hcb |- *.
    pose proof (stay_dispatched s s1 s2 p (started tn) _ tn qs' st started Ho Hs2 Hp1 Hi2 Hq2 Hcb Hn Hl
      Hfr Hbt Hcur1 eq_refl Hl (ri_ok _ _ Hi2 _ _ Hn)) as Hst. split_and!; try done.
    + by apply Hst.
    + change 0 with (need_resched s0). rewrite <- Hnr1. by apply Hst.
    + exists t. split; [done|]. rewrite (proj2 (proj2 Hst)). by destruct (_ && _).
  - eapply (wp_switch_out s s1 s2 p); [done|done|exact Hp1|done|done|by rewrite Hc2|done|done|done|done|done|done|done|].
    intros s' Hdis Hnr Hnx Hpp. rewrite Hc2 in Hdis. rewrite decide_False by done.
    split_and!; try done. by rewrite Hnr, Hnr1.
Qed.

Lemma decision_stays qs cursor cur qs' cursor' : 0 ≤ cursor < 13 → (∀ i, cur ∉ qs i) →
  decision qs cursor cur = (cur, qs', cursor') → ∀ i, qs i = [].
Proof.
  intros Hc Hn. pose proof (a_pick_spec qs cursor Hc) as Hs. unfold decision.
  destruct (a_pick qs cursor) as [[j c']|]; [|done]. destruct (qs j) as [|p q] eqn:E; [by destruct Hs|].
  intros [= -> _ _]. destruct (Hn j). rewrite E. left.
Qed.

Lemma block_correct sp c s qs t next qs' cursor' :
  sched_inv s qs → cpu_wf c → irq_depth c = 0 → threads s !! s_current s = Some t →
  s_current s ≠ bootstrap s → Z.land sp 0xF = 0 →
  decision qs (s_pick_cursor s) (s_current s) = (next, qs', cursor') →
  wp (sched_block_current sp) (λ r c' s',
    dispatched s (s_current s) next qs' cursor' s' ∧
    if decide (next = s_current s)
    then r = Stay ∧ c' = c ∧ (∀ i, qs i = []) ∧ threads s' !! next = Some (with_state RUNNING t)
    else r = CtxSwitch (s_current s) next (daif c) ∧ c' = masked_cpu c ∧
      (∃ tn, threads s !! next = Some tn ∧ threads s' !! next = Some (started (with_next 0 tn))) ∧
      threads s' !! s_current s = Some (with_ctx_sp sp (with_state BLOCKED t))) c s.
Proof.
  intros Hv Hwf Hd Ht Hb Hsp Hdec. set (p := s_current s) in *.
  destruct (sv_current _ _ Hv) as [_ Hnq]. fold p in Hnq.
  pose proof (ri_ok _ _ (sv_rq _ _ Hv) _ _ Ht) as Hok.
  pose proof (ri_idle _ _ (sv_rq _ _ Hv) _ _ Ht Hnq) as Hidle.
  pose proof (sched_nonnull _ _ _ _ Hv Ht) as Hp0.
  unfold sched_block_current, SCHED_ASSERT. wp_step. apply wp_assert_thread; [done|]. wp_step.
  apply wp_irq_save. do 2 wp_step. fold p. do 2 wp_step; [by apply negb_true_iff, Z.eqb_neq|]. wp_step.
  eapply wp_get_thread; [exact Ht|]. do 2 wp_step; [by apply Z.eqb_eq|]. do 2 wp_step.
  do 2 wp_step; [by apply negb_true_iff, Z.eqb_neq|]. wp_step.
  eapply wp_upd_thread; [exact Ht|]. cbv beta. set (s1 := set_threads _ s).
  pose proof (rq_inv_upd s qs p t (with_state BLOCKED t) (sv_rq _ _ Hv) Ht Hnq Hidle Hok) as Hi1. fold s1 in Hi1.
  assert (threads s1 !! p = Some (with_state BLOCKED t)) as Hp1 by (cbn; by rewrite lookup_insert_eq).
  assert (only_changes [p] s s1) as Ho by apply only_upd.
  assert (quiesced s1) as Hq.
  { apply (quiesced_only s qs); [done|done|]. fold p. rewrite Hp1. by intros ? [= <-]. }
  wp_step. eapply (wp_decision _ _ s1 qs); [done|apply Hv|done|by exists (with_state BLOCKED t)|done|
    intros i; apply Hv|exact Hdec|].
  intros s2 Hs2 Hi2 Hc2 Hcb Hq2 Hfr Hn0 Hbt (tn & Hn & Hl & _).
  assert (∃ n, threads s1 !! p = Some (with_next n (with_state BLOCKED t))) as Hp1'.
  { exists 0. rewrite Hp1. f_equal. destruct t; simpl in *; by subst. }
  destruct (Z.eqb_spec next 0); [done|]. cbn [orb]. destruct (Z.eqb_spec next p) as [->|Hne].
  - wp_step. eapply wp_upd_thread; [exact Hn|]. cbv beta. wp_step. apply wp_irq_restore; [done|]. wp_steps.
    rewrite decide_True by done. rewrite <- Hc2 in Hcb |- *.
    pose proof (stay_dispatched s s1 s2 p (with_state RUNNING tn) _ tn qs' (s_stats s2) (with_state RUNNING)
      Ho Hs2 Hp1' Hi2 Hq2 Hcb Hn Hl Hfr Hbt eq_refl eq_refl Hl (ri_ok _ _ Hi2 _ _ Hn)) as (Hds & _ & Hst).
    split_and!; try done.
    + by eapply (decision_stays qs _ p); [apply Hv|exact Hnq|exact Hdec].
    + etrans; [exact Hst|]. f_equal. destruct t; simpl in *; by subst.
  - eapply (wp_switch_out s s1 s2 p); [done|done|exact Hp1'|done|done|by rewrite Hc2|done|done|done|done|done|done|done|].
    intros s' Hdis Hnr Hnx [n0 Hpp]. rewrite Hc2 in Hdis. rewrite decide_False by done.
    split_and!; try done. rewrite Hpp. f_equal.
    apply (ri_idle _ _ (sv_rq _ _ (ds_inv _ _ _ _ _ _ Hdis))) in Hpp as E.
    { simpl in E. subst n0. destruct t; simpl in *; by subst. }
    intros i Hx. apply (Hnq i). by eapply decision_subset.
Qed.

(** sched_block_current marks the running thread blocked and switches to
    the picked thread, the blocked thread being in no queue; when nothing is
    ready it goes on running instead. *)
Theorem sched_block_current_spec sp c s qs t next qs' cursor' :
  sched_inv s qs → cpu_wf c → irq_depth c = 0 → threads s !! s_current s = Some t →
  s_current s ≠ bootstrap s → Z.land sp 0xF = 0 →
  decision qs (s_pick_cursor s) (s_current s) = (next, qs', cursor') →
  wp (sched_block_current sp) (λ r c' s',
    dispatched s (s_current s) next qs' cursor' s' ∧
    if decide (next = s_current s)
    then r = Stay ∧ c' = c ∧ (∀ i, qs i = []) ∧ threads s' !! next = Some (with_state RUNNING t)
    else r = CtxSwitch (s_current s) next (daif c) ∧ c' = masked_cpu c ∧
      (∃ tn, threads s !! next = Some tn ∧ threads s' !! next = Some (started (with_next 0 tn))) ∧
      threads s' !! s_current s = Some (with_ctx_sp sp (with_state BLOCKED t))) c s.
Proof. apply block_correct. Qed.

(** Making a thread ready: [f] marks it so, and it goes to the tail of its
    class. *)
Lemma wp_make_ready p t f Q c s qs :
  sched_inv s qs → threads s !! p = Some t → (∀ i, p ∉ qs i) → p ≠ s_current s → p ≠ bootstrap s →
  rq_next (f t) = 0 → state (f t) = READY → thread_ok (bootstrap s) p (f t) →
  (let i := sched_intent_sanitize (th_intent (f t)) in
   ∀ s', sched_inv s' (qset i (qs i ++ [p]) qs) → s_current s' = s_current s →
     s_pick_cursor s' = s_pick_cursor s → only_changes [p] s s' →
     (∃ n, threads s' !! p = Some (with_next n (f t))) → Q tt c s') →
  wp (upd_thread p f ;;; rq_insert_tail_locked p) Q c s.
Proof.
  intros Hv Hp Hnq Hnc Hnb Hn Hst Hok HQ. wp_step. eapply wp_upd_thread; [done|]. cbv beta.
  pose proof (rq_inv_upd s qs p t (f t) (sv_rq _ _ Hv) Hp Hnq Hn Hok) as Hi1.
  eapply (wp_insert_tail p (f t)); [exact Hi1|cbn [threads set_threads]; by rewrite lookup_insert_eq|done|done|].
  intros s' Hs Hcu Hinv. pose proof Hs as (He & _ & Hb & Hcur & _).
  assert (only_changes [p] s s') as Ho by (eapply only_trans; [apply only_upd|by apply only_same_rest]).
  assert (∃ n, threads s' !! p = Some (with_next n (f t))) as [n Hpn].
  { eapply erase_lookup; [exact He|]. cbn [threads set_threads]. by rewrite lookup_insert_eq. }
  apply HQ; [|done|done|done|by exists n]. split; [done|by rewrite Hcu; apply Hv| | |].
  - rewrite Hcur. cbn [s_current set_threads]. destruct (sv_current _ _ Hv) as [[tc Htc] Hcq]. split.
    + destruct (erase_lookup _ (threads s') (s_current s) tc He) as [m Hm]; [|by eexists].
      cbn [threads set_threads]. by rewrite lookup_insert_ne.
    + intros i. unfold qset. case_decide; [|done]. subst. specialize (Hcq (sched_intent_sanitize (th_intent (f t)))).
      set_solver.
  - intros x u Hx Hxb Hr. rewrite Hcur. destruct (decide (x = p)) as [->|Hxp].
    { rewrite Hpn in Hx. injection Hx as <-. simpl in Hr. congruence. }
    assert (x ∉ [p]) as Hxp' by set_solver.
    destruct (only_lookup _ _ _ _ _ Ho Hxp' Hx) as (u0 & Hu0 & E). rewrite E in Hr. simpl in Hr.
    apply (sv_running _ _ Hv x u0); [done|by rewrite <- (proj1 Ho)|done].
  - rewrite Hb. cbn [bootstrap set_threads]. intros i. pose proof (sv_boot _ _ Hv) as Hbt. unfold qset.
    case_decide; [|done]. subst. specialize (Hbt (sched_intent_sanitize (th_intent (f t)))). set_solver.
Qed.

(** A thread that is not ready is in no queue. *)
Lemma not_ready_idle s qs p t : rq_inv s qs → threads s !! p = Some t → state t ≠ READY → ∀ i, p ∉ qs i.
Proof. intros Hi Hp Hst i Hq. destruct (ri_ready _ _ Hi _ _ Hq) as (t' & ? & ? & _). congruence. Qed.

Lemma wake_correct p t c s qs :
  sched_inv s qs → cpu_wf c → irq_depth c = 0 → threads s !! p = Some t →
  p ≠ s_current s → p ≠ bootstrap s →
  wp (sched_wake p) (λ _ c' s', c' = c ∧ s_current s' = s_current s ∧ only_changes [p] s s' ∧
    if decide (state t = BLOCKED)
    then (let i := sched_intent_sanitize (th_intent t) in sched_inv s' (qset i (qs i ++ [p]) qs)) ∧
         ∃ n, threads s' !! p = Some (with_next n (with_state READY t))
    else s' = s) c s.
Proof.
  intros Hv Hwf Hd Hp Hnc Hnb. pose proof (sched_nonnull _ _ _ _ Hv Hp) as Hp0.
  unfold sched_wake. wp_step. apply wp_assert_thread; [done|]. destruct (Z.eqb_spec p 0); [done|].
  wp_step. apply wp_irq_save. wp_step. eapply wp_get_thread; [done|]. do 2 wp_step.
  destruct (bool_decide_reflect (state t = BLOCKED)) as [Hb|Hb].
  - assert (∀ i, p ∉ qs i) as Hnq by (eapply not_ready_idle; [apply Hv|exact Hp|congruence]).
    eapply (wp_make_ready p t); [done|done|done|done|done|exact (ri_idle _ _ (sv_rq _ _ Hv) _ _ Hp Hnq)|done|
      exact (ri_ok _ _ (sv_rq _ _ Hv) _ _ Hp)|].
    intros i s' Hv' Hcur Hcu Ho Hn. apply wp_irq_restore; [done|]. rewrite decide_True by done. done.
  - apply wp_irq_restore; [done|]. rewrite decide_False by done. done.
Qed.

(** sched_wake appends a blocked thread, marked ready, to the tail of its
    class and leaves any other thread and the whole state alone when the
    thread is not blocked. *)
Theorem sched_wake_spec p t c s qs :
  sched_inv s qs → cpu_wf c → irq_depth c = 0 → threads s !! p = Some t →
  p ≠ s_current s → p ≠ bootstrap s →
  wp (sched_wake p) (λ _ c' s', c' = c ∧ s_current s' = s_current s ∧ only_changes [p] s s' ∧
    if decide (state t = BLOCKED)
    then (let i := sched_intent_sanitize (th_intent t) in sched_inv s' (qset i (qs i ++ [p]) qs)) ∧
         ∃ n, threads s' !! p = Some (with_next n (with_state READY t))
    else s' = s) c s.
Proof. apply wake_correct. Qed.

Lemma enqueue_correct p t c s qs :
  sched_inv s qs → cpu_wf c → threads s !! p = Some t → (∀ i, p ∉ qs i) →
  p ≠ s_current s → p ≠ bootstrap s →
  wp (sched_enqueue p) (λ _ c' s', c' = c ∧ s_current s' = s_current s ∧ only_changes [p] s s' ∧
    if decide (state t = DEAD) then s' = s
    else (let i := sched_intent_sanitize (th_intent t) in sched_inv s' (qset i (qs i ++ [p]) qs)) ∧
         ∃ n, threads s' !! p = Some (with_next n (with_state READY t))) c s.
Proof.
  intros Hv Hwf Hp Hnq Hnc Hnb. pose proof (sched_nonnull _ _ _ _ Hv Hp) as Hp0.
  unfold sched_enqueue. destruct (Z.eqb_spec p 0); [done|].
  wp_step. apply wp_irq_save. wp_step. eapply wp_get_thread; [done|].
  destruct (decide (state t = DEAD)) as [Hs|Hs].
  - apply wp_irq_restore; [done|]. done.
  - apply wp_bind_assoc. wp_step.
    eapply (wp_make_ready p t); [done|done|done|done|done|exact (ri_idle _ _ (sv_rq _ _ Hv) _ _ Hp Hnq)|done|
      exact (ri_ok _ _ (sv_rq _ _ Hv) _ _ Hp)|].
    intros i s' Hv' Hcur Hcu Ho Hn. apply wp_irq_restore; [done|]. done.
Qed.

(** A new thread object that is in no queue. *)
Lemma sched_inv_add s qs p t : sched_inv s qs → threads s !! p = None → p ≠ 0 → state t = READY → rq_next t = 0 →
  thread_ok (bootstrap s) p t → sched_inv (set_threads (<[p := t]> (threads s)) s) qs.
Proof.
  intros Hv Hp Hp0 Hst Hn Hok. pose proof (sv_rq _ _ Hv) as Hi.
  assert (∀ i x, x ∈ qs i → x ≠ p) as Hq.
  { intros i x Hx ->. destruct (ri_ready _ _ Hi _ _ Hx) as (? & ? & _). congruence. }
  split; [split|apply Hv|..]; cbn [threads set_threads s_ready_tail bootstrap s_current].
  - intros i. eapply ring_ext; [|apply Hi]. intros x Hx. apply nxt_insert_ne. by eapply Hq.
  - apply Hi.
  - apply Hi.
  - intros i x Hx. rewrite lookup_insert_ne by (intros <-; by eapply Hq). by apply Hi.
  - intros x u [[<- <-]|[_ Hx]]%lookup_insert_Some ?; [done|by apply (ri_idle _ _ Hi x u)].
  - rewrite lookup_insert_ne by done. apply Hi.
  - intros x u [[<- <-]|[_ Hx]]%lookup_insert_Some; [done|by apply (ri_ok _ _ Hi)].
  - destruct (sv_current _ _ Hv) as [Hc Hcq]. split; [|done]. apply lookup_insert_is_Some'. by right.
  - intros x u [[<- <-]|[_ Hx]]%lookup_insert_Some ? Hr; [congruence|by eapply (sv_running _ _ Hv)].
  - apply Hv.
Qed.

(** sched_enqueue appends a thread that is not queued to the tail of its
    class, ignores dead threads, and keeps the scheduler invariant. *)
Theorem sched_enqueue_spec p t c s qs :
  sched_inv s qs → cpu_wf c → threads s !! p = Some t → (∀ i, p ∉ qs i) →
  p ≠ s_current s → p ≠ bootstrap s →
  wp (sched_enqueue p) (λ _ c' s', c' = c ∧ s_current s' = s_current s ∧ only_changes [p] s s' ∧
    if decide (state t = DEAD) then s' = s
    else (let i := sched_intent_sanitize (th_intent t) in sched_inv s' (qset i (qs i ++ [p]) qs)) ∧
         ∃ n, threads s' !! p = Some (with_next n (with_state READY t))) c s.
Proof. apply enqueue_correct. Qed.

(** Changing class: a queued thread moves to the tail of the new class. *)
Definition moved (p : Z) (old new : sched_intent) (qs : queues) : queues :=
  if decide (p ∈ qs old) then
    let qs1 := qset old (filter (λ x, x ≠ p) (qs old)) qs in qset new (qs1 new ++ [p]) qs1
  else qs.

Lemma filter_ne_id p (q : list Z) : p ∉ q → filter (λ x, x ≠ p) q = q.
Proof.
  induction q as [|x q IH]; [done|]. intros Hp. rewrite filter_cons_True by set_solver.
  f_equal. apply IH. set_solver.
Qed.

Lemma filter_split p (q q' : list Z) : NoDup (q ++ p :: q') →
  filter (λ x, x ≠ p) (q ++ p :: q') = q ++ q'.
Proof.
  intros (_ & Hd & [Hn _]%NoDup_cons)%NoDup_app. rewrite filter_app, filter_cons_False by tauto.
  rewrite !filter_ne_id; [done|done|]. intros Hx. apply (Hd p Hx). left.
Qed.

Lemma queued_linked s qs i p t : rq_inv s qs → p ∈ qs i → threads s !! p = Some t → rq_next t ≠ 0.
Proof.
  intros Hi Hp Ht. apply list_elem_of_split in Hp as (q & q' & Eq).
  pose proof (ri_ring _ _ Hi i) as Hr. rewrite Eq in Hr. apply ring_next in Hr.
  unfold nxt in Hr. rewrite Ht in Hr. injection Hr as ->.
  apply (queued_nonnull s qs i); [done|]. rewrite Eq. destruct q'; [destruct q|]; simpl; set_solver.
Qed.

(** An update of a thread in no queue, away from the current and bootstrap ones'
    running marks. *)
Lemma sched_inv_upd s qs p t t' :
  sched_inv s qs → threads s !! p = Some t → (∀ i, p ∉ qs i) → rq_next t' = 0 →
  state t' = state t → thread_ok (bootstrap s) p t' →
  sched_inv (set_threads (<[p := t']> (threads s)) s) qs.
Proof.
  intros Hv Hp Hnq Hn Hst Hok. split; [by eapply rq_inv_upd; [apply Hv|..]|apply Hv| | |apply Hv];
    cbn [threads set_threads s_current bootstrap].
  - destruct (sv_current _ _ Hv) as [Hs Hc]. split; [|done].
    destruct (decide (s_current s = p)) as [->|]; [rewrite lookup_insert_eq; by eexists|].
    by rewrite lookup_insert_ne.
  - intros x u. destruct (decide (x = p)) as [->|]; [|rewrite lookup_insert_ne by done; apply Hv].
    rewrite lookup_insert_eq. intros [= <-]. rewrite Hst. by apply (sv_running _ _ Hv p t).
Qed.

(** Taking a thread out of its queue. *)
Lemma sched_inv_removed s s' qs p i q q' :
  sched_inv s qs → qs i = q ++ p :: q' → same_rest s s' → s_pick_cursor s' = s_pick_cursor s →
  rq_inv s' (qset i (q ++ q') qs) → sched_inv s' (qset i (q ++ q') qs).
Proof.
  intros Hv Eq Hs Hc Hi. pose proof Hs as (He & _ & Hb & Hcur & _).
  assert (∀ x j, x ∈ qset i (q ++ q') qs j → x ∈ qs j) as Hsub.
  { intros x j. unfold qset. case_decide; [|done]. subst. rewrite Eq. set_solver. }
  split; [done|rewrite Hc; apply Hv| | |].
  - rewrite Hcur. destruct (sv_current _ _ Hv) as [[t Ht] Hn]. split; [|by intros j ?%Hsub; apply (Hn j)].
    destruct (erase_lookup _ (threads s') _ _ He Ht) as [n Hn']. by eexists.
  - intros x u Hx. destruct (erase_lookup_inv _ _ _ _ He Hx) as (t & Ht & ->). rewrite Hb, Hcur.
    exact (sv_running _ _ Hv _ _ Ht).
  - rewrite Hb. intros j ?%Hsub. by apply (sv_boot _ _ Hv j).
Qed.

(** sched_set_thread_intent changes the class of a thread, moving it from
    its old ready queue to the tail of the new one exactly when it is queued,
    and keeps the scheduler invariant. *)
Theorem sched_set_thread_intent_spec p raw t c s qs :
  sched_inv s qs → cpu_wf c → threads s !! p = Some t →
  wp (sched_set_thread_intent p raw) (λ _ c' s',
    c' = c ∧ s_current s' = s_current s ∧ s_pick_cursor s' = s_pick_cursor s ∧
    only_changes [p] s s' ∧
    (∃ n, threads s' !! p = Some (with_next n (with_intent (intent_code (sched_intent_sanitize raw)) t))) ∧
    sched_inv s' (if decide (th_intent t = intent_code (sched_intent_sanitize raw)) then qs
      else moved p (sched_intent_sanitize (th_intent t)) (sched_intent_sanitize raw) qs)) c s.
Proof.
  intros Hv Hwf Hp. pose proof (sched_nonnull _ _ _ _ Hv Hp) as Hp0.
  pose proof (ri_ok _ _ (sv_rq _ _ Hv) _ _ Hp) as Hok.
  unfold sched_set_thread_intent. destruct (Z.eqb_spec p 0); [done|].
  wp_step. apply wp_irq_save. wp_step. eapply wp_get_thread; [done|].
  set (j := sched_intent_sanitize raw). set (i := sched_intent_sanitize (th_intent t)).
  destruct (Z.eqb_spec (th_intent t) (intent_code j)) as [E|E].
  { apply wp_irq_restore; [done|]. rewrite decide_True by done. split_and!; try done.
    exists (rq_next t). rewrite <- E. rewrite Hp. f_equal. by destruct t. }
  unfold moved. destruct (decide (p ∈ qs i)) as [Hin|Hnin].
  - pose proof (ri_ready _ _ (sv_rq _ _ Hv) _ _ Hin) as (t' & Ht' & Hrd & _).
    rewrite Hp in Ht'. injection Ht' as <-.
    rewrite bool_decide_true by done.
    destruct (Z.eqb_spec (rq_next t) 0) as [Hz|_]; [by eapply queued_linked in Hz; [|apply Hv|..]|].
    cbn [andb negb]. apply list_elem_of_split in Hin as (q & q' & Eq).
    do 2 wp_step. eapply wp_rq_remove; [apply Hv|exact Eq|]. intros s1 Hs1 Hc1 Hi1. wp_step.
    pose proof (sched_inv_removed s s1 qs p i q q' Hv Eq Hs1 Hc1 Hi1) as Hv1.
    destruct (erase_lookup _ (threads s1) _ _ (proj1 Hs1) Hp) as [m Hm].
    apply wp_bind_assoc. wp_step.
    assert (NoDup (qs i)) as Hnd by apply (sv_rq _ _ Hv). rewrite Eq in Hnd.
    assert (∀ k, p ∉ qset i (q ++ q') qs k) as Hnq.
    { intros k. unfold qset. case_decide as Ek.
      - apply NoDup_app in Hnd as (_ & Hd & [Hn _]%NoDup_cons). rewrite elem_of_app.
        intros [Hx|?]; [|done]. apply (Hd p Hx). left.
      - intros Hk. apply Ek. eapply queued_unique; [apply (sv_rq _ _ Hv)|exact Hk|]. rewrite Eq. set_solver. }
    assert (p ≠ s_current s1 ∧ p ≠ bootstrap s1) as [Hnc Hnb].
    { destruct Hs1 as (_ & _ & -> & -> & _). split; intros Hx; [destruct (sv_current _ _ Hv) as [_ Hc]; apply (Hc i)
        |apply (sv_boot _ _ Hv i)]; rewrite <- Hx, Eq; set_solver. }
    cbn [when].
    eapply (wp_make_ready p _ (with_intent (intent_code j)));
      [exact Hv1|exact Hm|exact Hnq|done|done|exact (ri_idle _ _ Hi1 _ _ Hm Hnq)|done|exact (ri_ok _ _ Hi1 _ _ Hm)|].
    cbn [th_intent with_intent]. rewrite sanitize_code. intros s2 Hv2 Hcur2 Hcu2 Ho2 [n2 Hn2].
    apply wp_irq_restore; [done|]. rewrite decide_False by done. rewrite Eq, filter_split by done.
    pose proof Hs1 as (_ & _ & _ & Hcur1 & _).
    split_and!; [done|congruence|congruence| |by exists n2|done].
    eapply only_trans; [by apply only_same_rest|done].
  - assert (∀ k, p ∉ qs k) as Hnq.
    { intros k Hk. apply Hnin. destruct (ri_ready _ _ (sv_rq _ _ Hv) _ _ Hk) as (t' & Ht' & _ & Ek).
      rewrite Hp in Ht'. injection Ht' as <-. by subst k. }
    pose proof (ri_idle _ _ (sv_rq _ _ Hv) _ _ Hp Hnq) as Hidle.
    rewrite Hidle, Z.eqb_refl, andb_false_r. wp_steps. eapply wp_upd_thread; [exact Hp|]. wp_steps. cbn [when].
    apply wp_irq_restore; [done|]. rewrite decide_False by done. split_and!; try done.
    + apply only_upd.
    + exists 0. cbn. rewrite lookup_insert_eq. f_equal. destruct t; simpl in *; by subst.
    + eapply sched_inv_upd; [done|exact Hp|done..].
Qed.

(** ** Timer ticks *)

Lemma sched_inv_ext s s' qs : sched_inv s qs → threads s' = threads s →
  (∀ i, s_ready_tail s' i = s_ready_tail s i) → bootstrap s' = bootstrap s →
  s_pick_cursor s' = s_pick_cursor s → s_current s' = s_current s → sched_inv s' qs.
Proof.
  intros [] Ht Htl Hb Hc Hcur. split; rewrite ?Ht, ?Hb, ?Hc, ?Hcur; try done. by eapply rq_inv_ext.
Qed.

(** The task the tick is charged to, and whether it is over its CPU limit after
    being charged. *)
Definition charged_task (s : sched_state) (t : thread) : option task :=
  if (s_current s =? bootstrap s) || (th_task t =? 0) then None else tasks s !! th_task t.

Definition over_cpu_limit (now : Z) (k : task) : bool :=
  let k := bump_cpu (task_roll_window k now) in
  negb (cpu_ticks_limit (limits k) =? 0) && (cpu_ticks_limit (limits k) <? cpu_ticks_window (window k)).

Definition ticked (now : Z) (o : option task) (boot : bool) (t : thread) : thread :=
  let over := match o with Some k => over_cpu_limit now k | None => false end in
  let t := if boot then t else with_counts (u64 (runtime_ticks_total t + 1)) (preemptions t) t in
  let t := if over then with_intent (intent_code BACKGROUND) t else t in
  with_slice (slice_ticks_budget t) (u64 (slice_ticks_used t + 1)) t.

(** The accounting half of a tick. *)
Lemma wp_account_tick cur t Q c s :
  threads s !! cur = Some t → (th_task t ≠ 0 → is_Some (tasks s !! th_task t)) →
  (∀ tasks' over,
     over = match (if th_task t =? 0 then None else tasks s !! th_task t) with
            | Some k => over_cpu_limit (s_sched_ticks s) k | None => false end →
     Q tt c (set_need (if over then 1 else need_resched s) (set_tasks tasks'
       (set_threads (<[cur := (let t1 := with_counts (u64 (runtime_ticks_total t + 1)) (preemptions t) t in
          if over then with_intent (intent_code BACKGROUND) t1 else t1)]> (threads s)) s)))) →
  wp (account_tick cur t) Q c s.
Proof.
  intros Hp Hk HQ. unfold account_tick. wp_step. eapply wp_upd_thread; [done|]. cbv beta.
  wp_step. destruct (Z.eqb_spec (th_task t) 0) as [E|E]; cbn [negb].
  { apply (HQ (tasks s) false). done. }
  destruct (Hk E) as [k Hkk]. do 5 wp_step. cbn [set_threads tasks s_sched_ticks]. rewrite Hkk. wp_step.
  do 2 wp_step. wp_step. fold (over_cpu_limit (s_sched_ticks s) k). rewrite Hkk in HQ.
  destruct (over_cpu_limit (s_sched_ticks s) k) eqn:Eo.
  - do 3 wp_step. eapply wp_upd_thread; [cbn; by rewrite lookup_insert_eq|]. cbv beta.
    unfold preempt_set_need_resched. wp_steps.
    pose proof (HQ (<[th_task t := throttle_cpu (bump_cpu (task_roll_window k (s_sched_ticks s)))]>
      (<[th_task t := bump_cpu (task_roll_window k (s_sched_ticks s))]> (tasks s))) true eq_refl) as H.
    unfold set_need, set_tasks, set_threads in *. cbn in *. by rewrite insert_insert_eq.
  - pose proof (HQ (<[th_task t := bump_cpu (task_roll_window k (s_sched_ticks s))]> (tasks s))
      false eq_refl) as H. unfold set_need, set_tasks, set_threads in *. by cbn in *.
Qed.


(** ** Preemption on interrupt exit *)

(** [tf] is a trap frame on the interrupted thread's kernel stack. *)
Definition frame_ok (boot p tf : Z) (t : thread) : Prop :=
  p ≠ boot → Z.land tf 0xF = 0 ∧ kstack_base t ≤ tf ∧ u64 (tf + sizeof_trap_frame) ≤ kstack_top t.

Lemma frame_thread_ok boot p tf t : tf ≠ 0 → thread_ok boot p t → frame_ok boot p tf t →
  thread_ok boot p (with_state READY (with_trap (last_trap t) tf t)).
Proof. intros H0 [H1 H2] Hf. split; [|done]. cbn. intros Hb. destruct (H1 Hb), (Hf Hb). tauto. Qed.

(** The thread as it is put away by the interrupt path. *)
Definition preempted (boot p tf : Z) (t : thread) : thread :=
  let t := with_trap tf (irq_sp t) t in
  if negb (p =? boot) && bool_decide (state t = RUNNING)
  then with_state READY (with_trap (last_trap t) tf t) else t.

(** The switching tail of [sched_irq_exit]. *)
Lemma wp_irq_switch s s1 s2 p tp next tn Q c qs :
  only_changes [p] s s1 → same_rest s1 s2 → (∃ n, threads s1 !! p = Some (with_next n tp)) →
  rq_inv s2 qs → quiesced s2 → 0 ≤ s_pick_cursor s2 < 13 → p ≠ next → next ≠ 0 →
  threads s2 !! next = Some tn → rq_next tn = 0 → (∀ i, next ∉ qs i) → (∀ i, bootstrap s2 ∉ qs i) →
  next ≠ bootstrap s2 →
  (∀ s', dispatched s p next qs (s_pick_cursor s2) s' → need_resched s' = need_resched s1 →
     (∃ t0, threads s !! next = Some t0 ∧ irq_sp t0 = irq_sp tn ∧
        threads s' !! next = Some (started (with_next 0 t0))) →
     (∃ n, threads s' !! p = Some (with_next n (if p =? bootstrap s then tp
        else with_counts (runtime_ticks_total tp) (u64 (preemptions tp + 1)) tp))) →
     Q (irq_sp tn) c s') →
  wp (n <- get_thread next ;;
      SCHED_ASSERT (negb (irq_sp n =? 0)) "sched: next thread irq_sp is NULL" ;;;
      sched_prepare_running_locked next ;;;
      modify (set_current next) ;;;
      when (negb (p =? bootstrap s))
        (c <- get_thread p ;;
         upd_thread p (with_counts (runtime_ticks_total c) (u64 (preemptions c + 1)))) ;;;
      modify (λ s, set_stats (note_preempt (s_stats s)) s) ;;;
      modify (λ s, set_stats (note_switch (s_stats s)) s) ;;;
      n <- get_thread next ;;
      ret (irq_sp n)) Q c s2.
Proof.
  intros Ho Hs [n Hp] Hi Hq Hc Hne H0 Hn Hl Hnq Hboot Hnb HQ.
  destruct (erase_lookup _ (threads s2) _ _ (proj1 Hs) Hp) as [m Hm]. cbn in Hm.
  change (with_next m (with_next n tp)) with (with_next m tp) in Hm.
  assert (only_changes [p] s s2) as Ho2 by (eapply only_trans; [done|by apply only_same_rest]).
  pose proof (ri_ok _ _ Hi _ _ Hm) as Hok.
  unfold SCHED_ASSERT. wp_step. eapply wp_get_thread; [exact Hn|]. do 2 wp_step.
  { apply negb_true_iff, Z.eqb_neq. destruct (ri_ok _ _ Hi _ _ Hn) as [H _]. by apply H. }
  wp_step. eapply wp_prepare; [exact Hn|done|]. intros st. do 2 wp_step.
  set (tp' := if p =? bootstrap s then with_next m tp
    else with_counts (runtime_ticks_total tp) (u64 (preemptions tp + 1)) (with_next m tp)).
  wp_step.
  assert (∀ s3, threads s3 = <[p := tp']> (<[next := started tn]> (threads s2)) →
    s_ready_tail s3 = s_ready_tail s2 → bootstrap s3 = bootstrap s2 → s_pick_cursor s3 = s_pick_cursor s2 →
    s_current s3 = next → need_resched s3 = need_resched s2 →
    wp (modify (λ s, set_stats (note_preempt (s_stats s)) s) ;;;
      modify (λ s, set_stats (note_switch (s_stats s)) s) ;;;
      n <- get_thread next ;; ret (irq_sp n)) Q c s3) as Hend.
  { intros s3 Et Etl Eb Ec Ecur Enr. do 5 wp_step.
    eapply wp_get_thread; [cbn; rewrite Et, lookup_insert_ne by done; by rewrite lookup_insert_eq|].
    wp_step. set (s' := set_stats _ _). cbn [started with_slice with_state irq_sp].
    assert (sched_inv s' qs ∧ only_changes [p; next] s2 s') as [Hv' Ho'].
    { eapply (switch_settled s2 qs p (with_next m tp) tp' next tn); try done;
        try (unfold tp'; destruct (p =? bootstrap s); exact Hok || done).
      intros i. cbn. by rewrite Etl. }
    apply HQ.
    - split; try done. eapply only_trans; [|exact Ho']. eapply only_mono; [|exact Ho2]. set_solver.
    - cbn. rewrite Enr. destruct Hs as (_ & _ & _ & _ & _ & _ & E & _). done.
    - assert (next ∉ [p]) as Hnp by set_solver.
      destruct (only_next _ _ _ _ _ Ho2 Hnp Hn Hl) as (t0 & Ht0 & ->). exists t0. split_and!; [done|done|].
      cbn. rewrite Et, lookup_insert_ne by done. by rewrite lookup_insert_eq.
    - exists m. cbn. rewrite Et, lookup_insert_eq. unfold tp'. by destruct (p =? bootstrap s). }
  wp_step. unfold tp' in Hend. destruct (p =? bootstrap s); cbn [negb].
  - apply Hend; try done. cbn. symmetry. apply insert_id. by rewrite lookup_insert_ne.
  - wp_step. eapply wp_get_thread; [cbn; by rewrite lookup_insert_ne|].
    eapply wp_upd_thread; [cbn; by rewrite lookup_insert_ne|]. by apply Hend.
Qed.

(** C8: sched_irq_exit returns to the interrupted frame unless a reschedule is
    due and preemption is enabled; then it saves the frame, requeues the
    running thread and returns the saved frame of the thread the abstract
    decision picks, keeping the scheduler invariant. *)
Theorem sched_irq_exit_spec tf c s qs t next qs' cursor' :
  sched_inv s qs → irqs_masked c = true → tf ≠ 0 → threads s !! s_current s = Some t →
  frame_ok (bootstrap s) (s_current s) tf t →
  decision (requeued (bootstrap s) (s_current s) t qs) (s_pick_cursor s) (s_current s)
    = (next, qs', cursor') →
  wp (sched_irq_exit tf) (λ r c' s', c' = c ∧
    if (need_resched s =? 0) || negb (preempt_count s =? 0)
    then r = tf ∧ sched_inv s' qs ∧ s' = set_threads (<[s_current s := with_trap tf (irq_sp t) t]> (threads s)) s
    else
      dispatched s (s_current s) next qs' cursor' s' ∧ need_resched s' = 0 ∧
      let t' := preempted (bootstrap s) (s_current s) tf t in
      if decide (next = s_current s) then r = tf ∧ threads s' !! next = Some (started (with_next 0 t'))
      else ∃ tn n, threads s !! next = Some tn ∧ r = irq_sp tn ∧
        threads s' !! next = Some (started (with_next 0 tn)) ∧
        threads s' !! s_current s = Some (with_next n (if s_current s =? bootstrap s then t'
          else with_counts (runtime_ticks_total t') (u64 (preemptions t' + 1)) t'))) c s.
Proof.
  intros Hv Hm Htf Ht Hf Hdec. set (p := s_current s) in *.
  destruct (sv_current _ _ Hv) as [_ Hnq]. fold p in Hnq.
  pose proof (ri_ok _ _ (sv_rq _ _ Hv) _ _ Ht) as Hok.
  pose proof (ri_idle _ _ (sv_rq _ _ Hv) _ _ Ht Hnq) as Hidle.
  pose proof (sched_nonnull _ _ _ _ Hv Ht) as Hp0.
  unfold sched_irq_exit, SCHED_ASSERT. wp_step. apply wp_irq_irqs_disabled. do 2 wp_step; [done|].
  do 2 wp_step; [by apply negb_true_iff, Z.eqb_neq|]. do 2 wp_step. fold p.
  destruct (Z.eqb_spec p 0); [done|]. wp_step. eapply wp_get_thread; [exact Ht|].
  do 2 wp_step; [by apply Z.eqb_eq|]. wp_step. eapply wp_upd_thread; [exact Ht|]. cbv beta.
  set (ta := with_trap tf (irq_sp t) t). set (sa := set_threads _ s).
  assert (sched_inv sa qs) as Hva by (eapply sched_inv_upd; [done|exact Ht|done|done|done|exact Hok]).
  unfold preempt_need_resched, preemptible. do 4 wp_step. cbn [need_resched sa set_threads].
  rewrite negb_involutive. destruct (Z.eqb_spec (need_resched s) 0) as [E|E]; [cbv iota; by wp_step|].
  cbv iota. do 4 wp_step. cbn [preempt_count sa set_threads].
  destruct (Z.eqb_spec (preempt_count s) 0) as [E'|E']; [|cbn [negb]; by wp_step]. cbn [negb orb].
  unfold preempt_clear_need_resched. do 4 wp_step. cbn [bootstrap set_need sa set_threads]. wp_step.
  set (s0 := set_need 0 _).
  assert (threads s0 !! p = Some ta) as Ht0 by (cbn; by rewrite lookup_insert_eq).
  assert (rq_inv s0 qs) as Hi0 by (eapply rq_inv_ext; [apply Hva|done..]).
  change (bootstrap s) with (bootstrap s0). change (state t) with (state ta).
  eapply (wp_requeue p ta (λ t, with_state READY (with_trap (last_trap t) tf t)));
    [exact Hi0|exact Ht0|exact Hnq|exact Hidle|reflexivity|reflexivity|by apply frame_thread_ok|].
  intros s1 Hi1 Hc1 Hcur1 Hnr1 Ho1 Hp1. cbv beta. wp_step.
  assert (only_changes [p] s s1) as Ho.
  { eapply only_trans; [|exact Ho1]. eapply only_trans; [apply (only_upd p ta)|done]. }
  assert (quiesced s1) as Hq.
  { apply (quiesced_only s qs); [done|done|]. fold p. destruct Hp1 as [k ->]. intros ? [= <-] Hb.
    by apply (parked_quiet (bootstrap s) p ta). }
  change (s_current s0) with p in Hcur1.
  change (requeued (bootstrap s) p t qs) with (requeued (bootstrap s0) p ta qs) in Hdec.
  change (s_pick_cursor s) with (s_pick_cursor s0) in Hdec. rewrite <- Hc1 in Hdec.
  replace p with (s_current s1) in Hdec at 2 by done.
  eapply (wp_decision _ _ s1); [exact Hi1|rewrite Hc1; apply Hv|done| | | |exact Hdec|].
  { rewrite Hcur1. destruct Hp1 as [k ->]. by eexists. }
  { rewrite Hcur1. apply requeued_none; [rewrite Hc1; apply Hv|done]. }
  { rewrite (proj1 Ho). intros i. apply requeued_boot. apply Hv. }
  intros s2 Hs2 Hi2 Hc2 Hcb Hq2 Hfr Hn0 Hbt (tn & Hn & Hl & Hnb).
  destruct (Z.eqb_spec next 0); [done|]. cbn [orb]. destruct (Z.eqb_spec next p) as [->|Hne].
  - wp_step. eapply wp_upd_thread; [exact Hn|]. cbv beta. wp_step.
    eapply wp_prepare; [cbn; by rewrite lookup_insert_eq|done|]. intros st. wp_step. split; [done|].
    rewrite decide_True by done. rewrite <- Hc2 in Hcb |- *.
    pose proof (stay_dispatched s s1 s2 p (started tn) _ tn qs' st started Ho Hs2 Hp1 Hi2 Hq2 Hcb Hn Hl
      Hfr Hbt Hcur1 eq_refl Hl (ri_ok _ _ Hi2 _ _ Hn)) as Hst.
    cbn [threads set_threads]. rewrite insert_insert_eq. 
    split_and!; [apply Hst| |done|apply Hst].
    change 0 with (need_resched s0). rewrite <- Hnr1. apply Hst.
  - change (bootstrap s0) with (bootstrap s).
    eapply (wp_irq_switch s s1 s2 p); [done|done|exact Hp1|done|done|by rewrite Hc2|done|done|exact Hn|done|done|done| |].
    { destruct Hnb as [Hx|Hx]; [by rewrite Hcur1 in Hx|done]. }
    intros s' Hdis Hnr (t0 & Ht0' & Hsp & Hnx) [k Hpp]. rewrite Hc2 in Hdis. rewrite decide_False by done.
    split_and!; [done|done|by rewrite Hnr, Hnr1|]. by exists t0, k.
Qed.

(** ** Fairness and progress of the decisions *)

(** sched_init_bootstrap establishes the scheduler invariant with empty
    queues and the bootstrap thread running. *)
Theorem sched_init_bootstrap_spec c s :
  bootstrap s ≠ 0 → threads s !! 0 = None →
  (∀ p t, threads s !! p = Some t → p ≠ bootstrap s →
     rq_next t = 0 ∧ state t ≠ RUNNING ∧ thread_ok (bootstrap s) p t) →
  wp sched_init_bootstrap (λ _ c' s', c' = c ∧ sched_inv s' (λ _, []) ∧
    s_current s' = bootstrap s ∧ s_sched_ticks s' = 0) c s.
Proof.
  intros Hb H0 Hts. unfold sched_init_bootstrap. wp_steps. split_and!; try done.
  assert (∀ p t, threads s !! p = Some t → p ≠ bootstrap s → rq_next t = 0) as Hnx by (intros; by eapply Hts).
  split; [split|..]; cbn [threads bootstrap s_current s_pick_cursor s_ready_tail]; try done.
  - intros i. constructor.
  - intros i p Hp. by apply elem_of_nil in Hp.
  - intros p t [[<- <-]|[Hne Hp]]%lookup_insert_Some _; [done|]. eapply Hnx; [exact Hp|done].
  - by rewrite lookup_insert_ne.
  - intros p t [[<- <-]|[Hne Hp]]%lookup_insert_Some; [by split|]. apply (Hts p t); done.
  - split; [rewrite lookup_insert_eq; by eexists|]. intros i. apply not_elem_of_nil.
  - intros p t [[<- <-]|[Hne Hp]]%lookup_insert_Some; [done|]. intros Hpb Hr. by destruct (Hts p t Hp Hpb) as (_ & ? & _).
  - intros i. apply not_elem_of_nil.
Qed.

(** A sequence of decisions, the queues changing arbitrarily in between: each
    element gives the tail pointers found by one call. *)
Fixpoint pick_run (envs : list (sched_intent → Z)) : M sched_state (list sched_intent) :=
  match envs with
  | [] => ret []
  | e :: envs =>
    modify (λ s, fold_right (λ i, set_tail i (e i)) s all_intents) ;;;
    i <- sched_pick_intent_locked ;; l <- pick_run envs ;; ret (i :: l)
  end.

Lemma set_tails_eq e s i :
  s_ready_tail (fold_right (λ i, set_tail i (e i)) s all_intents) i = e i.
Proof. by destruct i. Qed.

Lemma wp_pick_run envs Q c s : 0 ≤ s_pick_cursor s < 13 →
  Forall (λ e : sched_intent → Z, ∃ i, e i ≠ 0) envs →
  (∀ s', Q (picks ((λ e i, negb (e i =? 0)) <$> envs) (s_pick_cursor s)) c s') →
  wp (pick_run envs) Q c s.
Proof.
  intros Hc He. revert Q s Hc. induction He as [|e envs [i0 Hi0] _ IH]; intros Q s Hc HQ; cbn [pick_run].
  { wp_steps. apply HQ. }
  wp_step. wp_step. set (s1 := fold_right _ _ _). wp_step. unfold sched_pick_intent_locked. wp_step. wp_step.
  assert (s_pick_cursor s1 = s_pick_cursor s) as -> by done.
  rewrite (pick_scan_ext _ (λ i, negb (e i =? 0)))
    by (intros x; unfold rq_empty_intent, s1; by rewrite set_tails_eq).
  change (length k_pick_pattern) with 13%nat.
  pose proof (pick_scan_spec (λ i, negb (e i =? 0)) (s_pick_cursor s) 0 13 Hc ltac:(lia) ltac:(lia)) as Hs.
  cbn [fmap list_fmap picks] in HQ.
  destruct (pick_scan (λ i, negb (e i =? 0)) (s_pick_cursor s) 0 13) as [[x c']|].
  - do 3 wp_step. wp_step. apply IH; [|intros s'; wp_step; apply HQ].
    destruct Hs as (d & _ & _ & _ & -> & _). cbn. apply Z.mod_pos_bound. lia.
  - exfalso. destruct (pat_covers (s_pick_cursor s) i0 Hc) as (d & Hd & E). specialize (Hs d ltac:(lia)).
    rewrite E in Hs. apply negb_false_iff, Z.eqb_eq in Hs. done.
Qed.

(** C10: In any 13 consecutive calls of sched_pick_intent_locked, with the
    queues changing arbitrarily in between, a class that is never empty is
    chosen at least its weight (6, 4, 2, 1) times. *)
Theorem sched_pick_weighted_fairness x envs c s :
  0 ≤ s_pick_cursor s < 13 → length envs = 13%nat → Forall (λ e : sched_intent → Z, e x ≠ 0) envs →
  wp (pick_run envs) (λ l _ _, (weight x ≤ count x l)%nat) c s.
Proof.
  intros Hc Hl He. apply wp_pick_run; [done|eapply Forall_impl; [exact He|]; intros e ?; by exists x|].
  intros _. rewrite <- (Z.mod_small (s_pick_cursor s) 13) by done. rewrite <- (occ_turn x (s_pick_cursor s)).
  etrans; [|apply (picks_count x); [lia|]].
  - rewrite length_fmap, Hl. done.
  - apply Forall_fmap. eapply Forall_impl; [exact He|]. intros e Hex. cbn.
    by apply negb_true_iff, Z.eqb_neq.
Qed.

(** Decisions over the queues themselves, threads arriving at the tails between
    two of them: the class and the thread of each. *)
Fixpoint serve (envs : list queues) (qs : queues) (cursor : Z) : list (sched_intent * Z) :=
  match envs with
  | [] => []
  | e :: envs =>
    let qs1 : queues := λ i, qs i ++ e i in
    match a_pick qs1 cursor with
    | None => []
    | Some (i, _) =>
      let '(p, qs2, cursor') := decision qs1 cursor 0 in (i, p) :: serve envs qs2 cursor'
    end
  end.

(** As long as a waiting thread is not served, its class is not empty and every
    service of the class moves it one place ahead. *)
Lemma serve_waiting x p envs qs cursor k :
  0 ≤ cursor < 13 → qs x !! k = Some p → p ∉ (serve envs qs cursor).*2 →
  ∃ nes, length nes = length envs ∧ Forall (λ ne : sched_intent → bool, ne x = true) nes ∧
    (serve envs qs cursor).*1 = picks nes cursor ∧ (count x (serve envs qs cursor).*1 ≤ k)%nat.
Proof.
  revert qs cursor k. induction envs as [|e envs IH]; intros qs cursor k Hc Hk Hp.
  { exists []. split_and!; [done|constructor|done|]. unfold count. simpl. lia. }
  cbn [serve] in *. set (qs1 := λ i, qs i ++ e i) in *.
  assert (qs1 x !! k = Some p) as Hk1 by (by apply lookup_app_l_Some).
  pose proof (a_pick_spec qs1 cursor Hc) as Hs. unfold decision in *.
  destruct (a_pick qs1 cursor) as [[i c']|] eqn:E; [|by rewrite Hs in Hk1].
  destruct Hs as [Hne Hc']. destruct (qs1 i) as [|h q] eqn:Eq; [done|].
  cbn [fmap list_fmap fst snd] in *. apply not_elem_of_cons in Hp as [Hph Hp].
  assert (∃ k', qset i q qs1 x !! k' = Some p ∧ (k' + (if decide (i = x) then 1 else 0) = k)%nat) as (k' & Hk' & Ek).
  { unfold qset. destruct (decide (x = i)) as [->|Hx].
    - rewrite Eq in Hk1. destruct k as [|k]; [simpl in Hk1; congruence|]. exists k.
      rewrite decide_True by done. split; [done|lia].
    - exists k. rewrite decide_False by done. split; [done|lia]. }
  destruct (IH _ _ _ Hc' Hk' Hp) as (nes & Hl & Hnes & Hpk & Hcnt).
  exists ((λ i, negb (bool_decide (qs1 i = []))) :: nes). split_and!.
  - simpl. by rewrite Hl.
  - constructor; [|done]. apply negb_true_iff, bool_decide_eq_false. intros Ex. by rewrite Ex in Hk1.
  - cbn [picks]. unfold a_pick in E. rewrite E. by rewrite Hpk.
  - unfold count in *. destruct (decide (i = x));
      [rewrite filter_cons_True by done|rewrite filter_cons_False by done]; cbn [length]; lia.
Qed.

Lemma occ_turns x P m : occ x P (13 * Z.of_nat m) = (m * weight x)%nat.
Proof.
  revert P. induction m as [|m IH]; intros P; [done|].
  replace (13 * Z.of_nat (S m)) with (13 + 13 * Z.of_nat m) by lia.
  rewrite occ_split, occ_turn, IH by lia. simpl. lia.
Qed.

(** C9: A thread at position k of its ready queue is dispatched within m turns
    of the 13-entry pick pattern as soon as k < m * weight of its class,
    whatever threads arrive at the queues in the meantime: no class starves.
    *)
Theorem sched_ready_thread_served x p k m envs qs cursor :
  0 ≤ cursor < 13 → qs x !! k = Some p → (k < m * weight x)%nat → (length envs = 13 * m)%nat →
  p ∈ (serve envs qs cursor).*2.
Proof.
  intros Hc Hk Hm Hl. destruct (decide (p ∈ (serve envs qs cursor).*2)) as [|Hp]; [done|exfalso].
  destruct (serve_waiting x p envs qs cursor k Hc Hk Hp) as (nes & Hln & Hnes & Hpk & Hcnt).
  pose proof (picks_count x nes cursor ltac:(lia) Hnes) as H. rewrite Z.mod_small in H by done.
  rewrite Hln, Hl, Nat2Z.inj_mul, occ_turns in H. rewrite Hpk in Hcnt. lia.
Qed.

(** ** Concrete runs *)

(** A thread as [thread_create] leaves it, with a 16 KiB stack at [base]. *)
Definition sample_thread (base : Z) (st : thread_state) : thread :=
  mkThread 1 (base + 16384 - 304 - 0x100) 0 base 16384 (base + 16384) 0
    (base + 16384 - 304) (base + 16384 - 304) 0 (intent_code INTERACTIVE) 0 0 0 0 st.
Definition boot_thread : thread := mkThread 0 0 0 0 0 0 0 0 0 0 (intent_code INTERACTIVE) 0 0 0 0 RUNNING.
Definition thread_cpu : cpu_state := mkCpu 0 0.

(** Two threads besides the bootstrap one, before [sched_init_bootstrap]. *)
Definition sample_cold : sched_state :=
  mkSched (<[0x1000 := sample_thread 0x100000 READY]> (<[0x2000 := sample_thread 0x200000 READY]> ∅)) ∅
    0x800 0 (λ _, 0) 0 (mkSchedStats 0 0 0 0 (λ _, 0)) 0 0 0.

(** [0x1000] runs, [0x2000] is ready. *)
Definition sample_run : sched_state :=
  mkSched (<[0x1000 := sample_thread 0x100000 RUNNING]>
      (<[0x2000 := with_next 0x2000 (sample_thread 0x200000 READY)]> (<[0x800 := boot_thread]> ∅))) ∅
    0x800 0x1000 (λ i, match i with INTERACTIVE => 0x2000 | _ => 0 end) 0
    (mkSchedStats 0 0 0 0 (λ _, 0)) 0 1 0.
Definition sample_qs : queues := λ i, match i with INTERACTIVE => [0x2000] | _ => [] end.

Ltac split_store H :=
  repeat (apply lookup_insert_Some in H as [[<- <-]|[? H]]); try (by rewrite lookup_empty in H).

Lemma sample_run_inv : sched_inv sample_run sample_qs.
Proof.
  split; [split|..].
  - intros []; cbv; done.
  - intros []; done.
  - intros []; cbn; [apply NoDup_singleton|apply NoDup_nil_2..].
  - intros [] p Hp; cbn in Hp; try (by apply elem_of_nil in Hp). apply list_elem_of_singleton in Hp as ->.
    by exists (with_next 0x2000 (sample_thread 0x200000 READY)).
  - intros p t Hp Hn. cbn [threads sample_run] in Hp. split_store Hp; try done. destruct (Hn INTERACTIVE). left.
  - done.
  - intros p t Hp. cbn [threads sample_run] in Hp. split_store Hp; (split; [|done]; intros Hb; try done); vm_compute; split_and!; done.
  - done.
  - split; [by eexists|]. intros []; cbn; set_solver.
  - intros p t Hp. cbn [threads sample_run] in Hp. split_store Hp; done.
  - intros []; cbn; set_solver.
Qed.

Lemma sched_init_witness :
  wp sched_init_bootstrap (λ _ c' s', c' = thread_cpu ∧ sched_inv s' (λ _, []) ∧
    s_current s' = 0x800 ∧ s_sched_ticks s' = 0) thread_cpu sample_cold.
Proof.
  apply (sched_init_bootstrap_spec thread_cpu sample_cold); [done|done|].
  intros p t Hp _. cbn [threads sample_cold] in Hp.
  split_store Hp; (split_and!; [done|done|]); (split; [|done]; intros _); vm_compute; split_and!; done.
Defined.

Definition sp_sample : Z := 0x102000.

Lemma yield_witness :
  wp (yield sp_sample) (λ r c' s', r = CtxSwitch 0x1000 0x2000 0 ∧ c' = masked_cpu thread_cpu ∧
    s_current s' = 0x2000 ∧ s_pick_cursor s' = 1 ∧ need_resched s' = 0) thread_cpu sample_run.
Proof.
  eapply wp_mono; [eapply (yield_spec sp_sample thread_cpu sample_run sample_qs
    (sample_thread 0x100000 RUNNING) 0x2000 _ 1); [apply sample_run_inv|done|done|done|done|done]|].
  cbv beta. intros r c' s' (Hd & Hn & _ & Hr). rewrite decide_False in Hr by done.
  destruct Hr as (-> & -> & _), Hd. done.
Defined.

Lemma sched_block_current_witness :
  wp (sched_block_current sp_sample) (λ r c' s', r = CtxSwitch 0x1000 0x2000 0 ∧
    s_current s' = 0x2000) thread_cpu sample_run.
Proof.
  eapply wp_mono; [eapply (sched_block_current_spec sp_sample thread_cpu sample_run sample_qs
    (sample_thread 0x100000 RUNNING) 0x2000 _ 1); [apply sample_run_inv|done|done|done|done|done|done]|].
  cbv beta. intros r c' s' (Hd & Hr). rewrite decide_False in Hr by done.
  destruct Hr as (-> & _), Hd. done.
Defined.

(** [0x3000] is blocked. *)
Definition sample_blocked : sched_state :=
  set_threads (<[0x3000 := sample_thread 0x300000 BLOCKED]> (threads sample_run)) sample_run.

Lemma sample_blocked_inv : sched_inv sample_blocked sample_qs.
Proof.
  pose proof sample_run_inv as Hv. split; [split; try apply Hv|apply Hv| | |apply Hv];
    cbn [threads sample_blocked set_threads s_current bootstrap].
  - intros []; cbv; done.
  - intros [] p Hp; cbn in Hp; try (by apply elem_of_nil in Hp). apply list_elem_of_singleton in Hp as ->.
    by exists (with_next 0x2000 (sample_thread 0x200000 READY)).
  - intros p t [[<- <-]|[_ Hp]]%lookup_insert_Some; [done|]. by apply (ri_idle _ _ (sv_rq _ _ Hv)).
  - intros p t [[<- <-]|[_ Hp]]%lookup_insert_Some; [|by apply (ri_ok _ _ (sv_rq _ _ Hv))].
    split; [|done]. intros _. vm_compute; split_and!; done.
  - split; [by eexists|apply Hv].
  - intros p t [[<- <-]|[_ Hp]]%lookup_insert_Some; [done|]. by apply (sv_running _ _ Hv).
Qed.

Lemma sched_wake_witness :
  wp (sched_wake 0x3000) (λ _ c' s', c' = thread_cpu ∧
    sched_inv s' (qset INTERACTIVE [0x2000; 0x3000] sample_qs)) thread_cpu sample_blocked.
Proof.
  eapply wp_mono; [eapply (sched_wake_spec 0x3000 (sample_thread 0x300000 BLOCKED));
    [apply sample_blocked_inv|done|done|done|done|done]|].
  cbv beta. intros _ c' s' (-> & _ & _ & H). rewrite decide_True in H by done. by destruct H.
Defined.

Lemma sched_enqueue_witness :
  wp (sched_enqueue 0x3000) (λ _ c' s', c' = thread_cpu ∧
    sched_inv s' (qset INTERACTIVE [0x2000; 0x3000] sample_qs)) thread_cpu sample_blocked.
Proof.
  eapply wp_mono; [eapply (sched_enqueue_spec 0x3000 (sample_thread 0x300000 BLOCKED));
    [apply sample_blocked_inv|done|done| |done|done]|].
  - intros []; cbn; set_solver.
  - cbv beta. intros _ c' s' (-> & _ & _ & H). rewrite decide_False in H by done. by destruct H.
Defined.

Lemma sched_set_thread_intent_witness :
  wp (sched_set_thread_intent 0x2000 (intent_code BACKGROUND)) (λ _ c' s', c' = thread_cpu ∧
    sched_inv s' (moved 0x2000 INTERACTIVE BACKGROUND sample_qs)) thread_cpu sample_run.
Proof.
  eapply wp_mono; [eapply (sched_set_thread_intent_spec 0x2000 (intent_code BACKGROUND)
    (with_next 0x2000 (sample_thread 0x200000 READY))); [apply sample_run_inv|done|done]|].
  cbv beta. intros _ c' s' (-> & _ & _ & _ & _ & H). rewrite decide_False in H by done. done.
Defined.


Lemma sched_irq_exit_witness :
  wp (sched_irq_exit 0x102000) (λ r c' s', r = irq_sp (sample_thread 0x200000 READY) ∧
    s_current s' = 0x2000) (masked_cpu thread_cpu) sample_run.
Proof.
  eapply wp_mono; [eapply (sched_irq_exit_spec 0x102000 (masked_cpu thread_cpu) sample_run sample_qs
    (sample_thread 0x100000 RUNNING) 0x2000 _ 1); [apply sample_run_inv|done|done|done| |done]|].
  - intros _. vm_compute. split_and!; done.
  - cbv beta. intros r c' s' (-> & H). cbn [need_resched preempt_count sample_run Z.eqb orb negb] in H.
    destruct H as (Hd & _ & H). rewrite decide_False in H by done.
    destruct H as (tn & n & Ht & -> & _), Hd. injection Ht as <-. done.
Defined.

Definition always_ready : sched_intent → Z := λ i, match i with LATENCY => 0x1000 | _ => 0x2000 end.

Lemma sched_pick_fairness_witness :
  wp (pick_run (replicate 13 always_ready)) (λ l _ _, (4 ≤ count LATENCY l)%nat) thread_cpu sample_run.
Proof.
  apply (sched_pick_weighted_fairness LATENCY); [done|done|]. repeat (constructor; [done|]). constructor.
Defined.

Lemma sched_ready_thread_served_witness :
  0x4000 ∈ (serve (replicate 13 (λ i, match i with INTERACTIVE => [0x1000; 0x2000] | _ => [] end))
    (λ i, match i with BACKGROUND => [0x4000] | _ => [] end) 0).*2.
Proof. apply (sched_ready_thread_served BACKGROUND 0x4000 0 1); [done|done|simpl; lia|done]. Defined.

(** *** Two ways of putting a thread aside

    A thread that gives up the CPU in [yield] is suspended in [ctx_switch]: its
    point of return is the saved [ctx].  [sched_irq_exit] resumes the thread it
    picks through [irq_sp], which is only updated when the thread is preempted. *)

(** After a thread has given up the CPU in yield, a timer preemption of
    another thread resumes it at the synthetic frame of its creation (its
    irq_sp) although its point of return is in the context that yield saved.
    *)
Theorem yielded_thread_resumed_at_stale_frame :
  wp (sched_init_bootstrap ;;; sched_enqueue 0x1000 ;;; sched_enqueue 0x2000 ;;;
      yield 0x700000 ;;;
      irq_restore 0 ;;; yield sp_sample ;;;
      preempt_set_need_resched ;;; sched_irq_exit 0x202000)
    (λ r _ s, r = irq_sp (sample_thread 0x100000 READY) ∧ s_current s = 0x1000 ∧
      ctx_sp <$> threads s !! 0x1000 = Some sp_sample ∧ r ≠ sp_sample) thread_cpu sample_cold.
Proof. vm_compute. done. Qed.

(** [thread_exit] up to its first [yield]. *)
Definition thread_exit_once (sp : Z) : M sched_state resume :=
  cur <- sched_current ;;
  when (negb (cur =? 0)) (upd_thread cur (with_state DEAD)) ;;;
  yield sp.

(** A thread that exits while no other thread is ready is marked running
    again by the yield of thread_exit. *)
Theorem exited_thread_runs_again :
  wp (thread_exit_once sp_sample) (λ r _ s, r = Stay ∧ s_current s = 0x1000 ∧
      state <$> threads s !! 0x1000 = Some RUNNING) thread_cpu
    (set_threads (delete 0x2000 (threads sample_run)) (set_tail INTERACTIVE 0 sample_run)).
Proof. vm_compute. done. Qed.
