(* ===== verification/DeadlineQueue.v ===== *)
(** * Deadline queue (Kern/Kernel/sched/deadline_queue.c, deadline_queue.h)

    A fixed array of 64 timed items, searched linearly for the least deadline;
    removal moves the last item into the hole.  A queue pointer is an option
    ([None] is NULL), [out] says whether the output pointer is not NULL, and
    [None] as the result of an operation is an access outside the array. *)

From S2P Require Import Prelude.
From Stdlib Require Import Sorted.

Definition DLQ_MAX_ITEMS : Z := 64.

(** [dlq_item_t] *)
Record dlq_item := mkItem { deadline : Z; cookie : Z }.
(** [deadline_queue_t] *)
Record deadline_queue := mkDlq { items : list dlq_item; count : Z }.

Definition item_at (q : deadline_queue) (i : Z) : option dlq_item := items q !! Z.to_nat i.

(** The scan of [dlq_find_min_index] from index [i]. *)
Fixpoint find_min (q : deadline_queue) (best best_deadline i : Z) (fuel : nat) : option Z :=
  match fuel with
  | O => Some best
  | S fuel =>
    if i <? count q then
      it ← item_at q i;
      if deadline it <? best_deadline then find_min q i (deadline it) (i + 1) fuel
      else find_min q best best_deadline (i + 1) fuel
    else Some best
  end.

Definition dlq_find_min_index (q : option deadline_queue) : option Z :=
  match q with
  | None => Some (-1)
  | Some q =>
    if count q =? 0 then Some (-1)
    else it ← item_at q 0; find_min q 0 (deadline it) 1 (Z.to_nat (count q))
  end.

Definition dlq_init (q : option deadline_queue) : option deadline_queue :=
  (λ q, mkDlq (items q) 0) <$> q.

(** [items[i] = it], [None] outside the array. *)
Definition set_item (l : list dlq_item) (i : Z) (it : dlq_item) : option (list dlq_item) :=
  _ ← l !! Z.to_nat i; Some (<[Z.to_nat i := it]> l).

Definition dlq_push (q : option deadline_queue) (dl ck : Z) : option (bool * option deadline_queue) :=
  match q with
  | None => Some (false, None)
  | Some q =>
    if DLQ_MAX_ITEMS <=? count q then Some (false, Some q)
    else
      l ← set_item (items q) (count q) (mkItem dl ck);
      Some (true, Some (mkDlq l (u32 (count q + 1))))
  end.

Definition dlq_peek_next (q : option deadline_queue) (out : bool) : option (option dlq_item) :=
  match q with
  | None => Some None
  | Some q' =>
    if negb out then Some None
    else
      idx ← dlq_find_min_index q;
      if idx <? 0 then Some None else it ← item_at q' idx; Some (Some it)
  end.

Definition dlq_pop_next (q : option deadline_queue) (out : bool)
    : option (option dlq_item * option deadline_queue) :=
  match q with
  | None => Some (None, None)
  | Some q' =>
    if negb out then Some (None, q)
    else
      idx ← dlq_find_min_index q;
      if idx <? 0 then Some (None, q)
      else
        it ← item_at q' idx;
        let count' := u32 (count q' - 1) in
        if idx =? count' then Some (Some it, Some (mkDlq (items q') count'))
        else
          last ← item_at q' count';
          l ← set_item (items q') idx last;
          Some (Some it, Some (mkDlq l count'))
  end.

(** ** Meaning *)

Record dlq_wf (q : deadline_queue) : Prop := {
  wf_array : length (items q) = Z.to_nat DLQ_MAX_ITEMS;
  wf_count : 0 ≤ count q ≤ DLQ_MAX_ITEMS;
}.

(** The items the queue holds. *)
Definition contents (q : deadline_queue) : list dlq_item := take (Z.to_nat (count q)) (items q).

Definition due_before (a b : dlq_item) : Prop := deadline a ≤ deadline b.

Lemma wf_lookup q i : dlq_wf q → 0 ≤ i < DLQ_MAX_ITEMS → is_Some (item_at q i).
Proof. intros [Hl _] Hi. apply lookup_lt_is_Some. unfold DLQ_MAX_ITEMS in *. lia. Qed.

Lemma contents_lookup q i : 0 ≤ i < count q → contents q !! Z.to_nat i = item_at q i.
Proof. intros Hi. apply lookup_take_lt. lia. Qed.

(** The scan returns the first index of the least deadline. *)
Lemma find_min_spec q best b i fuel : dlq_wf q → 0 ≤ best < i → i ≤ count q →
  count q - i ≤ Z.of_nat fuel → deadline <$> item_at q best = Some b →
  (∀ j it, 0 ≤ j < i → item_at q j = Some it → b ≤ deadline it ∧ (j < best → b < deadline it)) →
  ∃ r, find_min q best b i fuel = Some r ∧ 0 ≤ r < count q ∧
    ∃ m, item_at q r = Some m ∧
      ∀ j it, 0 ≤ j < count q → item_at q j = Some it →
        deadline m ≤ deadline it ∧ (j < r → deadline m < deadline it).
Proof.
  intros Hwf. revert best b i. induction fuel as [|fuel IH]; intros best b i Hb Hi Hf Hd Hmin; cbn [find_min].
  - assert (i = count q) as -> by lia. exists best. split_and!; [done|lia|lia|].
    destruct (item_at q best) as [m|]; [|done]. injection Hd as <-. by exists m.
  - destruct (Z.ltb_spec i (count q)) as [Hlt|Hge]; last first.
    { assert (i = count q) as -> by lia. exists best. split_and!; [done|lia|lia|].
      destruct (item_at q best) as [m|]; [|done]. injection Hd as <-. by exists m. }
    destruct (wf_lookup q i Hwf) as [it Hit]; [destruct (wf_count _ Hwf); lia|].
    rewrite Hit. cbn [mbind option_bind].
    destruct (Z.ltb_spec (deadline it) b); apply IH; try lia; try done.
    + by rewrite Hit.
    + intros j x Hj Hx. destruct (decide (j = i)) as [->|]; [rewrite Hit in Hx; injection Hx as ->; lia|].
      destruct (Hmin j x) as [? ?]; [lia|done|]. lia.
    + intros j x Hj Hx. destruct (decide (j = i)) as [->|]; [rewrite Hit in Hx; injection Hx as ->; lia|].
      apply Hmin; [lia|done].
Qed.

Lemma find_min_index_spec q : dlq_wf q →
  if decide (count q = 0) then dlq_find_min_index (Some q) = Some (-1)
  else ∃ r m, dlq_find_min_index (Some q) = Some r ∧ 0 ≤ r < count q ∧ item_at q r = Some m ∧
    ∀ j it, 0 ≤ j < count q → item_at q j = Some it →
      deadline m ≤ deadline it ∧ (j < r → deadline m < deadline it).
Proof.
  intros Hwf. destruct (wf_count _ Hwf) as [Hc _]. case_decide as E; cbn [dlq_find_min_index].
  { by rewrite E. }
  destruct (Z.eqb_spec (count q) 0); [done|].
  destruct (wf_lookup q 0 Hwf) as [it Hit]; [unfold DLQ_MAX_ITEMS; lia|]. rewrite Hit. cbn [mbind option_bind].
  destruct (find_min_spec q 0 (deadline it) 1 (Z.to_nat (count q))) as (r & Hr & Hb & m & Hm & Hmin);
    [done|lia|lia|lia|by rewrite Hit| |by exists r, m].
  intros j x Hj Hx. assert (j = 0) as -> by lia. rewrite Hit in Hx. injection Hx as ->. lia.
Qed.

Lemma dlq_push_correct q dl ck : dlq_wf q →
  if decide (count q = DLQ_MAX_ITEMS) then dlq_push (Some q) dl ck = Some (false, Some q)
  else ∃ q', dlq_push (Some q) dl ck = Some (true, Some q') ∧ dlq_wf q' ∧ count q' = count q + 1 ∧
    contents q' = contents q ++ [mkItem dl ck].
Proof.
  intros Hwf. destruct (wf_count _ Hwf) as [Hc Hm]. unfold dlq_push. case_decide as E.
  { destruct (Z.leb_spec DLQ_MAX_ITEMS (count q)); [done|lia]. }
  destruct (Z.leb_spec DLQ_MAX_ITEMS (count q)); [lia|]. unfold set_item.
  destruct (wf_lookup q (count q) Hwf) as [x Hx]; [lia|]. unfold item_at in Hx. rewrite Hx. cbn [mbind option_bind].
  eexists. split; [done|]. unfold DLQ_MAX_ITEMS in *. rewrite u32_small by lia. split_and!; [|done|].
  - split; simpl; [rewrite length_insert; apply Hwf|unfold DLQ_MAX_ITEMS; lia].
  - unfold contents. simpl. rewrite Z2Nat.inj_add by lia. change (Z.to_nat 1) with 1%nat.
    rewrite Nat.add_1_r. rewrite (take_S_r _ _ (mkItem dl ck)); [|apply list_lookup_insert_eq, (lookup_lt_Some _ _ _ Hx)].
    by rewrite take_insert_ge by lia.
Qed.

Lemma swap_out (l : list dlq_item) i m x : l !! i = Some m → l ++ [x] ≡ₚ m :: <[i := x]> l.
Proof.
  intros Hi. pose proof (lookup_lt_Some _ _ _ Hi). rewrite insert_take_drop by done.
  rewrite <- (take_drop_middle l i m Hi) at 1. rewrite <- app_assoc. simpl. solve_Permutation.
Qed.

Lemma dlq_pop_correct q : dlq_wf q →
  if decide (count q = 0) then dlq_pop_next (Some q) true = Some (None, Some q)
  else ∃ it q', dlq_pop_next (Some q) true = Some (Some it, Some q') ∧ dlq_wf q' ∧
    count q' = count q - 1 ∧ contents q ≡ₚ it :: contents q' ∧
    (∀ x, x ∈ contents q → due_before it x) ∧ dlq_peek_next (Some q) true = Some (Some it).
Proof.
  intros Hwf. destruct (wf_count _ Hwf) as [Hc Hm]. pose proof (find_min_index_spec q Hwf) as Hf.
  unfold dlq_pop_next, dlq_peek_next. cbn [negb]. case_decide as E; [by rewrite Hf|].
  destruct Hf as (r & m & -> & Hr & Hit & Hmin). cbn [mbind option_bind]. destruct (Z.ltb_spec r 0); [lia|].
  rewrite Hit. cbn [mbind option_bind]. unfold DLQ_MAX_ITEMS in *. rewrite u32_small by lia.
  set (n := Z.to_nat (count q - 1)).
  assert (Z.to_nat (count q) = S n) as En by (unfold n; lia).
  assert (∀ x, x ∈ contents q → due_before m x) as Hleast.
  { intros x [j Hj]%list_elem_of_lookup. pose proof (lookup_lt_Some _ _ _ Hj) as Hlt.
    unfold contents in Hlt. rewrite length_take in Hlt.
    rewrite <- (Nat2Z.id j), contents_lookup in Hj by lia. by eapply (Hmin (Z.of_nat j)); [lia|]. }
  destruct (wf_lookup q (count q - 1) Hwf) as [last Hlast]; [unfold DLQ_MAX_ITEMS; lia|].
  assert (contents q = take n (items q) ++ [last]) as Ec.
  { unfold contents. rewrite En. by apply take_S_r. }
  destruct (Z.eqb_spec r (count q - 1)) as [->|Hne].
  - eexists m, _. split_and!; [done|split; simpl; [apply Hwf|unfold DLQ_MAX_ITEMS; lia]|done| |done|done].
    rewrite Hit in Hlast. injection Hlast as <-. rewrite Ec. unfold contents. simpl. fold n.
    by rewrite Permutation_app_comm.
  - rewrite Hlast. cbn [mbind option_bind]. unfold set_item, item_at in *. rewrite Hit. cbn [mbind option_bind].
    eexists m, _. split_and!; [done|split; simpl; [rewrite length_insert; apply Hwf|unfold DLQ_MAX_ITEMS; lia]|done| |done|done].
    rewrite Ec. unfold contents. simpl. fold n. rewrite take_insert_lt by lia.
    assert (take n (items q) !! Z.to_nat r = Some m) as Hr' by (rewrite lookup_take_lt by lia; done).
    by apply swap_out.
Qed.

(** ** Whole runs *)

(** Pushing a list of items, and popping [n] times. *)
Fixpoint push_all (q : deadline_queue) (l : list dlq_item) : option deadline_queue :=
  match l with
  | [] => Some q
  | it :: l =>
    r ← dlq_push (Some q) (deadline it) (cookie it);
    match r with (true, Some q') => push_all q' l | _ => None end
  end.

Fixpoint drain (q : deadline_queue) (n : nat) : option (list dlq_item) :=
  match n with
  | O => Some []
  | S n =>
    r ← dlq_pop_next (Some q) true;
    match r with (Some it, Some q') => l ← drain q' n; Some (it :: l) | _ => Some [] end
  end.

Lemma push_all_correct q l : dlq_wf q → count q + Z.of_nat (length l) ≤ DLQ_MAX_ITEMS →
  ∃ q', push_all q l = Some q' ∧ dlq_wf q' ∧ contents q' = contents q ++ l ∧
    count q' = count q + Z.of_nat (length l).
Proof.
  revert q. induction l as [|it l IH]; intros q Hwf Hl; cbn [push_all length] in *.
  { exists q. rewrite app_nil_r. split_and!; try done. lia. }
  pose proof (dlq_push_correct q (deadline it) (cookie it) Hwf) as Hp. rewrite decide_False in Hp by lia.
  destruct Hp as (q1 & -> & Hwf1 & Hc1 & E1). cbn [mbind option_bind].
  destruct (IH q1) as (q' & -> & Hwf' & E' & Hc'); [done|lia|]. exists q'. split_and!; [done|done| |lia].
  rewrite E', E1, <- app_assoc. by destruct it.
Qed.

Lemma drain_correct q n : dlq_wf q → Z.of_nat n = count q →
  ∃ l, drain q n = Some l ∧ l ≡ₚ contents q ∧ StronglySorted due_before l.
Proof.
  revert q. induction n as [|n IH]; intros q Hwf Hn; cbn [drain].
  { exists []. split_and!; [done| |constructor]. unfold contents. by rewrite <- Hn. }
  pose proof (dlq_pop_correct q Hwf) as Hp. rewrite decide_False in Hp by lia.
  destruct Hp as (it & q' & -> & Hwf' & Hc' & Hperm & Hleast & _). cbn [mbind option_bind].
  destruct (IH q') as (l & -> & Hl & Hs); [done|lia|]. exists (it :: l). split_and!; [done| |].
  - by rewrite Hl, Hperm.
  - constructor; [done|]. apply Forall_forall. intros x Hx. apply Hleast. rewrite Hperm, <- Hl. by right.
Qed.

(** C39: Items pushed within the capacity of the deadline queue are popped in
    non-decreasing deadline order, and what is popped is a permutation of what
    was pushed. *)
Theorem dlq_pops_in_deadline_order q l :
  length (items q) = Z.to_nat DLQ_MAX_ITEMS → (length l ≤ Z.to_nat DLQ_MAX_ITEMS)%nat →
  ∃ q1 q2 out, dlq_init (Some q) = Some q1 ∧ push_all q1 l = Some q2 ∧
    drain q2 (length l) = Some out ∧ out ≡ₚ l ∧ StronglySorted due_before out.
Proof.
  intros Ha Hl. exists (mkDlq (items q) 0).
  assert (dlq_wf (mkDlq (items q) 0)) as Hwf by (split; simpl; [done|unfold DLQ_MAX_ITEMS; lia]).
  destruct (push_all_correct _ l Hwf) as (q2 & Hq2 & Hwf2 & E2 & Hc2); [unfold DLQ_MAX_ITEMS in *; simpl; lia|].
  destruct (drain_correct q2 (length l)) as (out & Ho & Hp & Hs); [done|simpl in Hc2; lia|].
  exists q2, out. split_and!; try done. by rewrite Hp, E2.
Qed.

Lemma dlq_pops_in_deadline_order_witness :
  ∃ q1 q2 out, dlq_init (Some (mkDlq (replicate 64 (mkItem 0 0)) 7)) = Some q1 ∧
    push_all q1 [mkItem 30 1; mkItem 10 2; mkItem 20 3] = Some q2 ∧
    drain q2 3 = Some out ∧ out ≡ₚ [mkItem 30 1; mkItem 10 2; mkItem 20 3] ∧ StronglySorted due_before out.
Proof.
  apply (dlq_pops_in_deadline_order (mkDlq (replicate 64 (mkItem 0 0)) 7)
    [mkItem 30 1; mkItem 10 2; mkItem 20 3]); [done|]. unfold DLQ_MAX_ITEMS. simpl. lia.
Defined.

(** A full queue refuses, an empty one returns nothing. *)
Example dlq_boundaries :
  dlq_push (Some (mkDlq (replicate 64 (mkItem 0 0)) 64)) 5 0
    = Some (false, Some (mkDlq (replicate 64 (mkItem 0 0)) 64)) ∧
  dlq_pop_next (Some (mkDlq (replicate 64 (mkItem 0 0)) 0)) true
    = Some (None, Some (mkDlq (replicate 64 (mkItem 0 0)) 0)).
Proof. by split. Qed.
