(* ===== verification/WorkQueue.v ===== *)
(** * Deferred work queue (Kern/Kernel/work/work_queue.c, work_queue.h)

    A FIFO of work items linked through their [next] fields: interrupt handlers
    append, threads take from the front.  Items come from a slab cache, used
    through the interface of ObjHeap. *)

From S2P Require Import Prelude Irq ObjHeap.

(** [work_item_t]; [fn] is the address of the callback. *)
Record work_item := mkWork { fn : Z; arg : Z; next : Z }.
(** [workq_t] *)
Record workq := mkWorkq { head : Z; tail : Z }.

(** The item cache, its flag [g_cache_inited], the items and the queues. *)
Record wq_state (H : Type) := mkWq {
  wq_heap : H;
  g_cache_inited : bool;
  work_items : gmap Z work_item;
  queues : gmap Z workq;
}.
Arguments mkWq {H}.
Arguments wq_heap {H}.
Arguments g_cache_inited {H}.
Arguments work_items {H}.
Arguments queues {H}.

Section ops.
Context {H : Type} {OH : ObjHeap H}.
Implicit Types s : wq_state H.

Definition wq_lens : lens (wq_state H) H :=
  mkLens wq_heap (λ h s, mkWq h (g_cache_inited s) (work_items s) (queues s)).
Definition get_item (p : Z) : M (wq_state H) work_item := s <- get_st ;; load (work_items s !! p).
Definition set_item (p : Z) (it : work_item) : M (wq_state H) unit :=
  modify (λ s, mkWq (wq_heap s) (g_cache_inited s) (<[p := it]> (work_items s)) (queues s)).
Definition get_queue (q : Z) : M (wq_state H) workq := s <- get_st ;; load (queues s !! q).
Definition set_queue (q : Z) (w : workq) : M (wq_state H) unit :=
  modify (λ s, mkWq (wq_heap s) (g_cache_inited s) (work_items s) (<[q := w]> (queues s))).

(** [slab_cache_init] on the static cache is the initial state of the heap
    interface: what is left is the flag. *)
Definition work_item_cache_init : M (wq_state H) unit :=
  ASSERT_THREAD_CONTEXT ;;;
  b <- gets g_cache_inited ;;
  if (b : bool) then ret tt
  else modify (λ s, mkWq (wq_heap s) true (work_items s) (queues s)).

Definition work_item_alloc (f a : Z) : M (wq_state H) Z :=
  ASSERT_THREAD_CONTEXT ;;;
  b <- gets g_cache_inited ;;
  (if negb b then work_item_cache_init else ret tt) ;;;
  it <- zoom wq_lens (oh_alloc CWorkItem) ;;
  if it =? 0 then ret 0
  else set_item it (mkWork f a 0) ;;; ret it.

(** A freed object is gone from the store of items. *)
Definition work_item_free (p : Z) : M (wq_state H) unit :=
  if p =? 0 then ret tt
  else
    ASSERT_THREAD_CONTEXT ;;;
    zoom wq_lens (oh_free CWorkItem p) ;;;
    modify (λ s, mkWq (wq_heap s) (g_cache_inited s) (delete p (work_items s)) (queues s)).

Definition workq_init (q : Z) : M (wq_state H) unit :=
  if q =? 0 then ret tt else set_queue q (mkWorkq 0 0).

Definition workq_enqueue_from_irq (q item : Z) : M (wq_state H) bool :=
  ASSERT_IRQ_CONTEXT ;;;
  if (q =? 0) || (item =? 0) then ret false
  else
    it <- get_item item ;;
    if fn it =? 0 then ret false
    else
      set_item item (mkWork (fn it) (arg it) 0) ;;;
      flags <- irq_save ;;
      w <- get_queue q ;;
      (if negb (tail w =? 0) then
         tl <- get_item (tail w) ;;
         set_item (tail w) (mkWork (fn tl) (arg tl) item) ;;;
         set_queue q (mkWorkq (head w) item)
       else set_queue q (mkWorkq item item)) ;;;
      irq_restore flags ;;;
      ret true.

Definition workq_dequeue (q : Z) : M (wq_state H) Z :=
  ASSERT_THREAD_CONTEXT ;;;
  if q =? 0 then ret 0
  else
    flags <- irq_save ;;
    w <- get_queue q ;;
    let it := head w in
    (if negb (it =? 0) then
       v <- get_item it ;;
       let hd' := next v in
       set_queue q (mkWorkq hd' (if hd' =? 0 then 0 else tail w)) ;;;
       set_item it (mkWork (fn v) (arg v) 0)
     else ret tt) ;;;
    irq_restore flags ;;;
    ret it.

(** ** What the pointers represent *)

Definition wnext (ts : gmap Z work_item) (p : Z) : option Z := next <$> ts !! p.

(** Queue [q] holds the items [l], first to last. *)
Record wq_rep s (q : Z) (l : list Z) : Prop := {
  wr_queue : queues s !! q = Some (mkWorkq (hd 0 l) (List.last l 0));
  wr_links : links (wnext (work_items s)) l 0;
  wr_nodup : NoDup l;
  wr_null : 0 ∉ l;
}.

Lemma wp_get_item p v Q c s : work_items s !! p = Some v → Q v c s → wp (get_item p) Q c s.
Proof. intros Hp HQ. unfold get_item. wp_steps. rewrite Hp. by wp_steps. Qed.
Lemma wp_get_queue q v Q c s : queues s !! q = Some v → Q v c s → wp (get_queue q) Q c s.
Proof. intros Hp HQ. unfold get_queue. wp_steps. rewrite Hp. by wp_steps. Qed.

Lemma wnext_insert_eq ts p v : wnext (<[p := v]> ts) p = Some (next v).
Proof. unfold wnext. by rewrite lookup_insert_eq. Qed.
Lemma wnext_insert_ne ts p x v : x ≠ p → wnext (<[p := v]> ts) x = wnext ts x.
Proof. intros. unfold wnext. by rewrite lookup_insert_ne. Qed.

Lemma rep_item s q l x : wq_rep s q l → x ∈ l → is_Some (work_items s !! x).
Proof.
  intros Hr [q1 [q2 ->]]%list_elem_of_split. pose proof (wr_links _ _ _ Hr) as Hl.
  rewrite links_app in Hl. destruct Hl as [_ [Hx _]]. unfold wnext in Hx.
  destruct (work_items s !! x); [by eexists|done].
Qed.

(** A queue none of whose items changed. *)
Lemma rep_frame s s' q l : wq_rep s q l → queues s' !! q = queues s !! q →
  (∀ x, x ∈ l → work_items s' !! x = work_items s !! x) → wq_rep s' q l.
Proof.
  intros [Hq Hl Hn H0] Eq Ei. split; [by rewrite Eq| |done|done].
  eapply links_ext; [|exact Hl]. intros x Hx. unfold wnext. by rewrite Ei.
Qed.

Lemma wq_enqueue_correct q item v l c s :
  wq_rep s q l → cpu_wf c → irq_depth c ≠ 0 → q ≠ 0 → item ≠ 0 →
  work_items s !! item = Some v → fn v ≠ 0 → item ∉ l →
  wp (workq_enqueue_from_irq q item) (λ r c' s', r = true ∧ c' = c ∧ wq_rep s' q (l ++ [item]) ∧
    (∀ p w, work_items s !! p = Some w → ∃ w', work_items s' !! p = Some w' ∧ fn w' = fn w ∧ arg w' = arg w)) c s.
Proof.
  intros Hr Hwf Hd Hq Hi0 Hv Hfn Hni. pose proof Hr as [Hqq Hl Hn H0].
  unfold workq_enqueue_from_irq. wp_step. apply wp_assert_irq; [done|].
  destruct (Z.eqb_spec q 0); [done|]. destruct (Z.eqb_spec item 0); [done|]. cbn [orb].
  wp_step. eapply wp_get_item; [done|]. destruct (Z.eqb_spec (fn v) 0); [done|].
  unfold set_item at 1. do 2 wp_step. wp_step. apply wp_irq_save. wp_step. eapply wp_get_queue; [exact Hqq|].
  wp_step. cbn [tail head]. destruct l as [|tl l0 _] eqn:El using rev_ind.
  - change (negb (List.last [] 0 =? 0)) with false. cbv iota. unfold set_queue. wp_step. wp_step. apply wp_irq_restore; [done|]. wp_step.
    split_and!; try done.
    + split; cbn; [by rewrite lookup_insert_eq|by rewrite wnext_insert_eq|apply NoDup_singleton|set_solver].
    + intros p w Hp. cbn. destruct (decide (p = item)) as [->|]; [|rewrite lookup_insert_ne by done; eauto].
      rewrite lookup_insert_eq. eexists. split; [done|]. cbn. by simplify_eq.
  - rewrite last_snoc. destruct (Z.eqb_spec tl 0) as [->|Htl]; [set_solver|]. cbn [negb].
    destruct (rep_item s q (l0 ++ [tl]) tl Hr) as [vt Hvt]; [set_solver|].
    assert (tl ≠ item) as Hne by set_solver.
    wp_step. eapply wp_get_item; [cbn; by rewrite lookup_insert_ne by done|].
    unfold set_item, set_queue. do 3 wp_step. wp_step. apply wp_irq_restore; [done|]. wp_step.
    split_and!; try done.
    + apply NoDup_app in Hn as (Hn0 & Hd0 & _).
      split; cbn.
      * rewrite lookup_insert_eq, last_snoc. f_equal. f_equal. by destruct l0.
      * rewrite links_app in Hl. destruct Hl as [Hl1 _]. cbn in Hl1. rewrite <- app_assoc, links_app. cbn.
        split; [|rewrite wnext_insert_eq; split; [done|]; rewrite wnext_insert_ne, wnext_insert_eq by done; done].
        eapply links_ext; [|exact Hl1]. intros x Hx. rewrite !wnext_insert_ne; [done| |].
        -- intros ->. set_solver.
        -- intros ->. apply (Hd0 tl Hx). set_solver.
      * rewrite <- El. rewrite El. apply NoDup_app. split_and!; [by apply wr_nodup in Hr| |apply NoDup_singleton].
        intros x Hx ->%list_elem_of_singleton. done.
      * set_solver.
    + intros p w Hp. cbn. destruct (decide (p = tl)) as [->|].
      { rewrite lookup_insert_eq. eexists. split; [done|]. cbn. by simplify_eq. }
      rewrite lookup_insert_ne by done. destruct (decide (p = item)) as [->|].
      { rewrite lookup_insert_eq. eexists. split; [done|]. cbn. by simplify_eq. }
      rewrite lookup_insert_ne by done. eauto.
Qed.

Lemma wq_dequeue_correct q l c s :
  wq_rep s q l → cpu_wf c → irq_depth c = 0 → q ≠ 0 →
  wp (workq_dequeue q) (λ r c' s', r = hd 0 l ∧ c' = c ∧ wq_rep s' q (List.tl l) ∧
    (∀ p w, work_items s !! p = Some w → ∃ w', work_items s' !! p = Some w' ∧ fn w' = fn w ∧ arg w' = arg w)) c s.
Proof.
  intros Hr Hwf Hd Hq. pose proof Hr as [Hqq Hl Hn H0].
  unfold workq_dequeue. wp_step. apply wp_assert_thread; [done|]. destruct (Z.eqb_spec q 0); [done|].
  wp_step. apply wp_irq_save. wp_step. eapply wp_get_queue; [exact Hqq|]. wp_step. cbn [tail head].
  destruct l as [|x l].
  { change (negb (hd 0 [] =? 0)) with false. cbv iota. wp_step. wp_step. apply wp_irq_restore; [done|]. wp_step.
    split_and!; try done. eauto. }
  cbn [hd]. destruct (Z.eqb_spec x 0) as [->|Hx0]; [destruct H0; left|]. cbn [negb].
  destruct (rep_item s q (x :: l) x Hr) as [v Hv]; [left|].
  destruct Hl as [Hx Hl]. unfold wnext in Hx. rewrite Hv in Hx. injection Hx as Hx.
  apply NoDup_cons in Hn as [Hxl Hn].
  unfold set_item, set_queue. wp_step. eapply wp_get_item; [exact Hv|]. do 3 wp_step. wp_step.
  apply wp_irq_restore; [done|]. wp_step. split_and!; try done; cbn.
  - split; cbn; [|..|done|set_solver].
    + rewrite lookup_insert_eq, Hx. f_equal. destruct l as [|y l]; [done|]. cbn [hd].
      destruct (Z.eqb_spec y 0) as [->|]; [set_solver|done].
    + eapply links_ext; [|exact Hl]. intros y Hy. apply wnext_insert_ne. by intros ->.
  - intros p w Hp. destruct (decide (p = x)) as [->|]; [|rewrite lookup_insert_ne by done; eauto].
    rewrite lookup_insert_eq. eexists. split; [done|]. cbn. by simplify_eq.
Qed.

(** A new item is in no queue when every queued item is live. *)
Lemma alloc_fresh f a q l lv c s :
  wq_rep s q l → oh_rep (wq_heap s) lv → (∀ x, x ∈ l → x ∈ lv CWorkItem) → irq_depth c = 0 →
  wp (work_item_alloc f a) (λ p c' s', c' = c ∧ wq_rep s' q l ∧
    ((p = 0 ∧ oh_rep (wq_heap s') lv) ∨
     (p ≠ 0 ∧ (p ∉ l) ∧ work_items s' !! p = Some (mkWork f a 0) ∧
        oh_rep (wq_heap s') (upd CWorkItem ({[p]} ∪ lv CWorkItem) lv)))) c s.
Proof.
  intros Hr Hh Hlive Hd. unfold work_item_alloc. wp_step. apply wp_assert_thread; [done|]. do 3 wp_step.
  assert (∀ s1, wq_heap s1 = wq_heap s → wq_rep s1 q l →
    wp (it <- zoom wq_lens (oh_alloc CWorkItem);; (if it =? 0 then ret 0 else set_item it (mkWork f a 0);;; ret it))
      (λ p c' s', c' = c ∧ wq_rep s' q l ∧ ((p = 0 ∧ oh_rep (wq_heap s') lv) ∨
     (p ≠ 0 ∧ (p ∉ l) ∧ work_items s' !! p = Some (mkWork f a 0) ∧
        oh_rep (wq_heap s') (upd CWorkItem ({[p]} ∪ lv CWorkItem) lv)))) c s1) as Hgo.
  { intros s1 E1 Hr1. do 2 wp_step. cbn [lget wq_lens]. rewrite E1.
    eapply wp_mono; [by apply oh_alloc_spec|]. cbv beta. intros p c' h' [-> [[-> Hh']|(Hp & Hnew & Hh')]].
    - rewrite Z.eqb_refl. wp_step. split_and!; [done| |by left]. by eapply rep_frame.
    - destruct (Z.eqb_spec p 0); [done|]. unfold set_item. do 3 wp_step.
      assert (p ∉ l) as Hpl by (intros ?%Hlive; done). split_and!; [done| |right].
      + eapply rep_frame; [exact Hr1|done|]. intros x Hx. cbn. rewrite lookup_insert_ne; [done|]. by intros ->.
      + cbn. rewrite lookup_insert_eq. done. }
  destruct (g_cache_inited s) eqn:Ei; cbn [negb].
  - wp_step. by apply Hgo.
  - unfold work_item_cache_init. wp_step. apply wp_assert_thread; [done|]. do 2 wp_step. rewrite Ei. wp_step.
    apply Hgo; [done|]. by eapply rep_frame.
Qed.

(** ** FIFO order

    Interrupts append and threads take: the queue behaves as a list. *)
Inductive wq_op := Post (item : Z) | Take.

(** An interrupt handler runs between [irq_enter] and [irq_exit]. *)
Fixpoint wq_run (q : Z) (ops : list wq_op) : M (wq_state H) (list Z) :=
  match ops with
  | [] => ret []
  | Post item :: ops => irq_enter ;;; workq_enqueue_from_irq q item ;;; irq_exit ;;; wq_run q ops
  | Take :: ops => x <- workq_dequeue q ;; xs <- wq_run q ops ;; ret (x :: xs)
  end.

Fixpoint fifo (ops : list wq_op) (l : list Z) : list Z * list Z :=
  match ops with
  | [] => ([], l)
  | Post item :: ops => fifo ops (l ++ [item])
  | Take :: ops => let '(xs, l') := fifo ops (List.tl l) in (hd 0 l :: xs, l')
  end.

(** Each posted item is an object with a callback and is not queued then. *)
Fixpoint posts_ok (ts : gmap Z work_item) (ops : list wq_op) (l : list Z) : Prop :=
  match ops with
  | [] => True
  | Post item :: ops => item ≠ 0 ∧ (item ∉ l) ∧ (∃ v, ts !! item = Some v ∧ fn v ≠ 0) ∧
      posts_ok ts ops (l ++ [item])
  | Take :: ops => posts_ok ts ops (List.tl l)
  end.

Lemma posts_ok_mono ts ts' ops l :
  (∀ p w, ts !! p = Some w → ∃ w', ts' !! p = Some w' ∧ fn w' = fn w ∧ arg w' = arg w) →
  posts_ok ts ops l → posts_ok ts' ops l.
Proof.
  intros Hm. revert l. induction ops as [|[item|] ops IH]; intros l; cbn [posts_ok]; [done| |apply IH].
  intros (? & ? & (v & Hv & Hf) & Hr). split_and!; try done; [|by apply IH].
  destruct (Hm _ _ Hv) as (v' & Hv' & Ef & _). exists v'. split; congruence.
Qed.

(** C13: Items posted by interrupt handlers are taken by threads in the order
    they were posted, whatever the interleaving of the two: the linked queue
    refines a list, and every call restores the interrupt state. *)
Theorem workq_fifo q ops l c s :
  wq_rep s q l → cpu_wf c → irq_depth c = 0 → q ≠ 0 → posts_ok (work_items s) ops l →
  wp (wq_run q ops) (λ xs c' s', c' = c ∧ xs = (fifo ops l).1 ∧ wq_rep s' q (fifo ops l).2) c s.
Proof.
  revert l s. induction ops as [|[item|] ops IH]; intros l s Hr Hwf Hd Hq Hok; cbn [wq_run fifo].
  - by wp_step.
  - cbn [posts_ok] in Hok. destruct Hok as (Hi0 & Hil & (v & Hv & Hf) & Hok). unfold irq_enter. wp_steps.
    rewrite Hd, u32_small by lia. set (c1 := mkCpu (daif c) (0 + 1)).
    eapply wp_mono; [by apply (wq_enqueue_correct q item v l c1)|]. cbv beta. intros _ c2 s2 (_ & -> & Hr2 & Hm).
    unfold irq_exit. wp_steps. change (irq_depth c1 =? 0) with false. cbv iota. wp_steps.
    cbn [daif irq_depth c1]. rewrite u32_small by lia.
    replace (mkCpu (daif c) (0 + 1 - 1)) with c by (destruct c; cbn in *; by subst).
    apply IH; try done. by eapply posts_ok_mono.
  - cbn [posts_ok] in Hok. wp_step. eapply wp_mono; [by apply (wq_dequeue_correct q l)|]. cbv beta.
    intros x c2 s2 (-> & -> & Hr2 & Hm). wp_step.
    eapply wp_mono; [apply (IH (List.tl l)); try done; by eapply posts_ok_mono|]. cbv beta.
    intros xs c3 s3 (-> & -> & Hr3). destruct (fifo ops (List.tl l)) as [ys l'] eqn:E. wp_step. done.
Qed.
End ops.

(** Two items, one posted before the other is taken. *)
Definition sample_wq : wq_state ideal_heap :=
  mkWq (ideal_empty 4) true (<[0x1000 := mkWork 0x70 1 0]> (<[0x1040 := mkWork 0x70 2 0]> ∅))
    (<[0x50 := mkWorkq 0 0]> ∅).

Lemma workq_fifo_witness :
  wp (wq_run 0x50 [Post 0x1000; Post 0x1040; Take; Take; Take])
    (λ xs c' s', c' = mkCpu 0 0 ∧ xs = [0x1000; 0x1040; 0] ∧ wq_rep s' 0x50 []) (mkCpu 0 0) sample_wq.
Proof.
  apply (workq_fifo 0x50 [Post 0x1000; Post 0x1040; Take; Take; Take] []); [|done..|].
  - split; [done|done|constructor|set_solver].
  - cbn. split_and!; try done; try set_solver; eexists; (split; [done|]; done).
Defined.
