(* ===== verification/Slab.v ===== *)
(** * Slab caches (Kern/Kernel/alloc/slab_cache.c, slab_cache.h)

    Fixed-size objects carved out of pages of the page manager.  A page starts
    with a header; its free objects are linked through their first words.  The
    store keeps page headers and object words apart: an object never overlaps
    a header ([objs_page]).  The main result is that the allocator is an
    instance of the interface its clients are verified against. *)

From S2P Require Import Prelude Irq Addr Platform Pmm ObjHeap.

Definition SLAB_PAGE_SIZE : Z := 4096.

(** [slab_page_t] *)
Record slab_page := mkPage { sp_next : Z; sp_freelist : Z; obj_count : Z; inuse : Z }.
(** [sizeof(slab_page_t)]: two pointers and two 16-bit counters, padded. *)
Definition sizeof_slab_page : Z := 24.

(** [slab_cache_t], without its name. *)
Record slab_cache := mkCache {
  obj_size : Z; obj_align : Z; pages : Z;
  alloc_calls : Z; free_calls : Z; inuse_objects : Z; peak_inuse_objects : Z;
  slab_pages_allocated : Z; alloc_failures : Z;
}.

(** The static caches, the page headers and the words of the objects. *)
Record slab_state := mkSlab {
  sl_pmm : pmm_globals;
  sl_caches : cache_id → slab_cache;
  sl_pages : gmap Z slab_page;
  sl_words : gmap Z Z;
}.

Definition pmm_lens : lens slab_state pmm_globals :=
  mkLens sl_pmm (λ g s, mkSlab g (sl_caches s) (sl_pages s) (sl_words s)).
Definition get_cache (k : cache_id) : M slab_state slab_cache := gets (λ s, sl_caches s k).
Definition set_cache (k : cache_id) (c : slab_cache) : M slab_state unit :=
  modify (λ s, mkSlab (sl_pmm s) (λ j, if decide (j = k) then c else sl_caches s j) (sl_pages s) (sl_words s)).
Definition get_page (sp : Z) : M slab_state slab_page := s <- get_st ;; load (sl_pages s !! sp).
Definition set_page (sp : Z) (h : slab_page) : M slab_state unit :=
  modify (λ s, mkSlab (sl_pmm s) (sl_caches s) (<[sp := h]> (sl_pages s)) (sl_words s)).
Definition get_word (p : Z) : M slab_state Z := s <- get_st ;; load (sl_words s !! p).
Definition set_words (f : gmap Z Z → gmap Z Z) : M slab_state unit :=
  modify (λ s, mkSlab (sl_pmm s) (sl_caches s) (sl_pages s) (f (sl_words s))).

Definition count_alloc_call (c : slab_cache) : slab_cache :=
  mkCache (obj_size c) (obj_align c) (pages c) (u64 (alloc_calls c + 1)) (free_calls c)
    (inuse_objects c) (peak_inuse_objects c) (slab_pages_allocated c) (alloc_failures c).
Definition count_free_call (c : slab_cache) : slab_cache :=
  mkCache (obj_size c) (obj_align c) (pages c) (alloc_calls c) (u64 (free_calls c + 1))
    (inuse_objects c) (peak_inuse_objects c) (slab_pages_allocated c) (alloc_failures c).
Definition count_failure (c : slab_cache) : slab_cache :=
  mkCache (obj_size c) (obj_align c) (pages c) (alloc_calls c) (free_calls c)
    (inuse_objects c) (peak_inuse_objects c) (slab_pages_allocated c) (u64 (alloc_failures c + 1)).
Definition push_page (sp : Z) (c : slab_cache) : slab_cache :=
  mkCache (obj_size c) (obj_align c) sp (alloc_calls c) (free_calls c)
    (inuse_objects c) (peak_inuse_objects c) (u64 (slab_pages_allocated c + 1)) (alloc_failures c).
Definition count_object (c : slab_cache) : slab_cache :=
  let n := u64 (inuse_objects c + 1) in
  mkCache (obj_size c) (obj_align c) (pages c) (alloc_calls c) (free_calls c)
    n (if peak_inuse_objects c <? n then n else peak_inuse_objects c)
    (slab_pages_allocated c) (alloc_failures c).
Definition uncount_object (c : slab_cache) : slab_cache :=
  mkCache (obj_size c) (obj_align c) (pages c) (alloc_calls c) (free_calls c)
    (u64 (inuse_objects c - 1)) (peak_inuse_objects c) (slab_pages_allocated c) (alloc_failures c).

(** ** Operations *)

Definition u32_max (a b : Z) : Z := if b <? a then a else b.

Definition align_up (v a : Z) : Z :=
  if a =? 0 then v else Z.land (u64 (v + u64 (a - 1))) (u64_not (u64 (a - 1))).

(** The loop of [slab_page_build_freelist]: the head of the list and the count. *)
Fixpoint build_loop (cursor size fin head count : Z) (fuel : nat) : M slab_state (Z * Z) :=
  match fuel with
  | O => fault
  | S fuel =>
    if u64 (cursor + size) <=? fin then
      set_words <[cursor := head]> ;;;
      build_loop (u64 (cursor + size)) size fin cursor (u16 (count + 1)) fuel
    else ret (head, count)
  end.

Definition slab_page_build_freelist (sp size al : Z) : M slab_state unit :=
  let cursor := align_up (u64 (sp + sizeof_slab_page)) al in
  let fin := u64 (sp + SLAB_PAGE_SIZE) in
  r <- build_loop cursor size fin 0 0 (Z.to_nat SLAB_PAGE_SIZE) ;;
  h <- get_page sp ;;
  set_page sp (mkPage (sp_next h) r.1 r.2 0) ;;;
  (if r.2 =? 0 then panic "slab: zero capacity" else ret tt).

Definition slab_page_alloc (size al : Z) : M slab_state Z :=
  r <- zoom pmm_lens (pmm_alloc_pages 1 true) ;;
  match r with
  | None => ret 0
  | Some pa =>
    let sp := phys_to_hh_virt pa in
    set_page sp (mkPage 0 0 0 0) ;;;
    slab_page_build_freelist sp size al ;;;
    ret sp
  end.

(** [slab_cache_init]; [None] is a NULL cache pointer. *)
Definition slab_cache_init (k : option cache_id) (size al : Z) : M slab_state unit :=
  match k with
  | None => panic "slab_cache_init: null"
  | Some k =>
    if size =? 0 then panic "slab_cache_init: obj_size=0"
    else
      let want_align := u32_max (u32 al) 8 in
      if negb (Z.land want_align (u32 (want_align - 1)) =? 0) then panic "slab_cache_init: bad align"
      else
        let sz := u32 (align_up (u32 size) want_align) in
        let sz := if sz <? 8 then 8 else sz in
        let first := align_up sizeof_slab_page want_align in
        if SLAB_PAGE_SIZE <? u64 (first + sz) then panic "slab_cache_init: obj too large"
        else set_cache k (mkCache sz want_align 0 0 0 0 0 0 0)
  end.

(** The first page of the list with a free object, 0 when there is none. *)
Fixpoint find_page (sp : Z) (fuel : nat) : M slab_state Z :=
  match fuel with
  | O => fault
  | S fuel =>
    if sp =? 0 then ret 0
    else
      h <- get_page sp ;;
      if negb (sp_freelist h =? 0) then ret sp else find_page (sp_next h) fuel
  end.

(** Taking the first free object of a page. *)
Definition take_object (k : cache_id) (sp : Z) : M slab_state Z :=
  h <- get_page sp ;;
  let obj := sp_freelist h in
  w <- get_word obj ;;
  set_page sp (mkPage (sp_next h) w (obj_count h) (u16 (inuse h + 1))) ;;;
  c <- get_cache k ;;
  set_cache k (count_object c) ;;;
  ret obj.

Definition slab_alloc (k : option cache_id) : M slab_state Z :=
  ASSERT_THREAD_CONTEXT ;;;
  match k with
  | None => panic "slab_alloc: null cache"
  | Some k =>
    c <- get_cache k ;;
    set_cache k (count_alloc_call c) ;;;
    s <- get_st ;;
    sp <- find_page (pages c) (Datatypes.S (stdpp.base.size (sl_pages s))) ;;
    if negb (sp =? 0) then take_object k sp
    else
      sp <- slab_page_alloc (obj_size c) (obj_align c) ;;
      if sp =? 0 then
        c <- get_cache k ;; set_cache k (count_failure c) ;;; ret 0
      else
        c <- get_cache k ;;
        h <- get_page sp ;;
        set_page sp (mkPage (pages c) (sp_freelist h) (obj_count h) (inuse h)) ;;;
        set_cache k (push_page sp c) ;;;
        take_object k sp
  end.

(** Is [target] in the page list? *)
Fixpoint page_listed (sp target : Z) (fuel : nat) : M slab_state bool :=
  match fuel with
  | O => fault
  | S fuel =>
    if sp =? 0 then ret false
    else if sp =? target then ret true
    else h <- get_page sp ;; page_listed (sp_next h) target fuel
  end.

Definition slab_free (k : option cache_id) (p : Z) : M slab_state unit :=
  ASSERT_THREAD_CONTEXT ;;;
  match k with
  | None => ret tt
  | Some k =>
    if p =? 0 then ret tt
    else
      c <- get_cache k ;;
      set_cache k (count_free_call c) ;;;
      let sp := Z.land p (u64_not (SLAB_PAGE_SIZE - 1)) in
      s <- get_st ;;
      found <- page_listed (pages c) sp (Datatypes.S (stdpp.base.size (sl_pages s))) ;;
      (if negb found then panic "slab_free: foreign ptr" else ret tt) ;;;
      h <- get_page sp ;;
      (if inuse h =? 0 then panic "slab_free: underflow" else ret tt) ;;;
      set_words (poison p (Z.to_nat (obj_size c / 8))) ;;;
      set_words <[p := sp_freelist h]> ;;;
      set_page sp (mkPage (sp_next h) p (obj_count h) (u16 (inuse h - 1))) ;;;
      c <- get_cache k ;;
      (if inuse_objects c =? 0 then panic "slab_free: cache underflow" else ret tt) ;;;
      set_cache k (uncount_object c)
  end.

(** [slab_cache_stats_t] *)
Record slab_cache_stats := mkSlabStats {
  st_alloc_calls : Z; st_free_calls : Z; st_inuse_objects : Z; st_peak_inuse_objects : Z;
  st_slab_pages_allocated : Z; st_alloc_failures : Z;
}.
Definition slab_cache_get_stats (k : option cache_id) (out : bool) (s : slab_state) : option slab_cache_stats :=
  match k with
  | None => None
  | Some k =>
    if negb out then None
    else
      let c := sl_caches s k in
      Some (mkSlabStats (alloc_calls c) (free_calls c) (inuse_objects c) (peak_inuse_objects c)
        (slab_pages_allocated c) (alloc_failures c))
  end.

(** ** Geometry of a page *)

(** What [slab_cache_init] leaves: word-sized objects, an alignment that is a
    power of two, and room for one object after the header. *)
Definition obj_off (c : slab_cache) : Z := align_up sizeof_slab_page (obj_align c).
Definition capacity (c : slab_cache) : Z := (SLAB_PAGE_SIZE - obj_off c) / obj_size c.
Record geometry_ok (c : slab_cache) : Prop := {
  ge_align : ∃ e, 3 ≤ e ≤ 12 ∧ obj_align c = 2 ^ e;
  ge_size : 8 ≤ obj_size c ∧ obj_size c mod 8 = 0;
  ge_room : obj_off c + obj_size c ≤ SLAB_PAGE_SIZE;
}.

(** The object addresses of the page at [sp], lowest first. *)
Definition objs (c : slab_cache) (sp : Z) : list Z :=
  (λ i, sp + obj_off c + i * obj_size c) <$> seqZ 0 (capacity c).

Lemma align_up_pow2 v e : 0 ≤ e < 64 → 0 ≤ v → v + 2 ^ e ≤ 2 ^ 64 →
  align_up v (2 ^ e) = 2 ^ e * ((v + 2 ^ e - 1) / 2 ^ e).
Proof.
  intros He Hv Hs. assert (0 < 2 ^ e) as Hp by (apply Z.pow_pos_nonneg; lia).
  unfold align_up. destruct (Z.eqb_spec (2 ^ e) 0); [lia|].
  rewrite (u64_small (2 ^ e - 1)) by lia. rewrite u64_small by lia.
  rewrite u64_land_not by lia. replace (v + (2 ^ e - 1)) with (v + 2 ^ e - 1) by lia.
  pose proof (Z.div_mod (v + 2 ^ e - 1) (2 ^ e)). lia.
Qed.

Lemma obj_off_bounds c : geometry_ok c → sizeof_slab_page ≤ obj_off c ∧ obj_off c mod 8 = 0.
Proof.
  intros [(e & He & Ea) _ _]. unfold obj_off, sizeof_slab_page. rewrite Ea.
  assert (2 ^ 3 ≤ 2 ^ e ≤ 2 ^ 12) as Hp by (split; apply Z.pow_le_mono_r; lia).
  rewrite align_up_pow2 by lia. split.
  - pose proof (Z.div_mod (24 + 2 ^ e - 1) (2 ^ e)). pose proof (Z.mod_pos_bound (24 + 2 ^ e - 1) (2 ^ e)). lia.
  - replace e with (3 + (e - 3)) at 1 by lia. rewrite Z.pow_add_r by lia. change (2 ^ 3) with 8.
    rewrite <- Z.mul_assoc, Z.mul_comm. apply Z.mod_mul. lia.
Qed.

(** On a page-aligned address the first object is at the fixed offset. *)
Lemma align_up_page c sp : geometry_ok c → page_aligned sp → 0 ≤ sp ≤ 2 ^ 64 - 2 * SLAB_PAGE_SIZE →
  align_up (u64 (sp + sizeof_slab_page)) (obj_align c) = sp + obj_off c.
Proof.
  intros [(e & He & Ea) _ _] Hsp Hr. unfold obj_off, sizeof_slab_page, SLAB_PAGE_SIZE in *. rewrite Ea.
  assert (2 ^ 3 ≤ 2 ^ e ≤ 2 ^ 12) as Hp by (split; apply Z.pow_le_mono_r; lia). change (2 ^ 12) with 4096 in Hp.
  rewrite u64_small by lia. rewrite !align_up_pow2 by lia.
  assert (∃ k, sp = k * 2 ^ e) as [k ->].
  { exists (sp / 2 ^ 12 * 2 ^ (12 - e)). rewrite <- Z.mul_assoc, <- Z.pow_add_r by lia.
    replace (12 - e + e) with 12 by lia. unfold page_aligned, PAGE_SIZE in Hsp. change (2 ^ 12) with 4096.
    pose proof (Z.div_mod sp 4096). lia. }
  replace (k * 2 ^ e + 24 + 2 ^ e - 1) with (24 + 2 ^ e - 1 + k * 2 ^ e) by lia.
  rewrite Z.div_add by lia. lia.
Qed.

Lemma capacity_bounds c : geometry_ok c → 1 ≤ capacity c ≤ 512 ∧
  obj_off c + capacity c * obj_size c ≤ SLAB_PAGE_SIZE < obj_off c + (capacity c + 1) * obj_size c.
Proof.
  intros Hg. destruct (obj_off_bounds c Hg) as [Ho _]. pose proof (ge_size _ Hg) as [Hs _].
  pose proof (ge_room _ Hg) as Hr. unfold capacity, SLAB_PAGE_SIZE, sizeof_slab_page in *.
  pose proof (Z.div_mod (4096 - obj_off c) (obj_size c)). pose proof (Z.mod_pos_bound (4096 - obj_off c) (obj_size c)).
  nia.
Qed.

Lemma elem_of_objs c sp x : x ∈ objs c sp ↔ ∃ i, 0 ≤ i < capacity c ∧ x = sp + obj_off c + i * obj_size c.
Proof.
  unfold objs. rewrite list_elem_of_fmap. setoid_rewrite elem_of_seqZ. naive_solver lia.
Qed.

Lemma NoDup_objs c sp : geometry_ok c → NoDup (objs c sp).
Proof.
  intros Hg. apply NoDup_fmap_2_strong; [|apply NoDup_seqZ]. intros i j _ _. pose proof (ge_size _ Hg). nia.
Qed.

Lemma length_objs c sp : length (objs c sp) = Z.to_nat (capacity c).
Proof. unfold objs. by rewrite length_fmap, length_seqZ. Qed.

(** Every word of an object lies in its page, after the header. *)
Lemma objs_page c sp x d : geometry_ok c → x ∈ objs c sp → 0 ≤ d < obj_size c →
  sp + sizeof_slab_page ≤ x + d < sp + SLAB_PAGE_SIZE.
Proof.
  intros Hg (i & Hi & ->)%elem_of_objs Hd. destruct (obj_off_bounds c Hg). destruct (capacity_bounds c Hg) as [_ [? _]].
  pose proof (ge_size _ Hg). nia.
Qed.

Lemma same_page a b x : page_aligned a → page_aligned b →
  a ≤ x < a + SLAB_PAGE_SIZE → b ≤ x < b + SLAB_PAGE_SIZE → a = b.
Proof. unfold SLAB_PAGE_SIZE. intros. page_arith. Qed.

Lemma page_base p sp : page_aligned sp → 0 ≤ sp → sp ≤ p < sp + SLAB_PAGE_SIZE → p < 2 ^ 64 →
  Z.land p (u64_not (SLAB_PAGE_SIZE - 1)) = sp.
Proof.
  unfold SLAB_PAGE_SIZE. intros Ha H0 Hp H64. change (4096 - 1) with (2 ^ 12 - 1).
  rewrite u64_land_not by lia. change (2 ^ 12) with 4096. page_arith.
Qed.

(** A power of two has no bit in common with its predecessor, and only those. *)
Lemma land_pred_pow2 e : 0 ≤ e → Z.land (2 ^ e) (2 ^ e - 1) = 0.
Proof.
  intros He. replace (2 ^ e - 1) with (Z.ones e) by (rewrite Z.ones_equiv; lia).
  rewrite Z.land_ones by done. apply Z.mod_same. apply Z.pow_nonzero; lia.
Qed.

Lemma land_pred_zero x : 0 < x → Z.land x (x - 1) = 0 → x = 2 ^ Z.log2 x.
Proof.
  intros Hx Hl. pose proof (Z.log2_spec x Hx) as [H1 H2]. pose proof (Z.log2_nonneg x).
  destruct (decide (x = 2 ^ Z.log2 x)) as [|Hne]; [done|exfalso].
  assert (Z.testbit (Z.land x (x - 1)) (Z.log2 x) = true) as Hb; [|by rewrite Hl, Z.bits_0 in Hb].
  rewrite Z.land_spec, Z.bit_log2 by done.
  replace (Z.log2 x) with (Z.log2 (x - 1)) at 1; [apply Z.bit_log2; lia|].
  apply Z.log2_unique; lia.
Qed.

(** slab_cache_init accepts an object size and alignment exactly when the
    alignment is usable as a power of two and one object fits in a page after
    the header, and then the objects are large enough and aligned. *)
Theorem slab_cache_init_geometry k size al c s :
  0 < size → 0 ≤ al → size + u32_max al 8 ≤ 2 ^ 32 →
  match slab_cache_init (Some k) size al c s with
  | Ret (_, c', s') => c' = c ∧ geometry_ok (sl_caches s' k) ∧ size ≤ obj_size (sl_caches s' k) ∧
      al ≤ obj_align (sl_caches s' k) ∧ obj_size (sl_caches s' k) mod obj_align (sl_caches s' k) = 0
  | Panic _ => (8 < al ∧ ∀ e, 0 ≤ e → al ≠ 2 ^ e) ∨
      SLAB_PAGE_SIZE < align_up sizeof_slab_page (u32_max al 8) + align_up size (u32_max al 8)
  | Fault => False
  end.
Proof.
  intros Hs Ha Hsum.
  assert (8 ≤ u32_max al 8 ∧ al ≤ u32_max al 8 ∧ (u32_max al 8 = al ∨ u32_max al 8 = 8)) as Hm
    by (unfold u32_max; destruct (Z.ltb_spec 8 al); lia).
  unfold slab_cache_init. destruct (Z.eqb_spec size 0); [lia|].
  rewrite (u32_small al), (u32_small size) by lia. set (a := u32_max al 8) in *. clearbody a.
  rewrite (u32_small (a - 1)) by lia.
  destruct (Z.eqb_spec (Z.land a (a - 1)) 0) as [Hp|Hp]; cbn [negb]; last first.
  { left. destruct Hm as (Hm8 & _ & [->| ->]); [|done]. split; [|intros e He ->; by apply Hp, land_pred_pow2].
    destruct (decide (al = 8)) as [->|]; [done|lia]. }
  apply land_pred_zero in Hp; [|lia]. set (e := Z.log2 a) in *.
  assert (3 ≤ e) as He by (unfold e; change 3 with (Z.log2 8); apply Z.log2_le_mono; lia).
  assert (0 < 2 ^ e) as Hpos by (apply Z.pow_pos_nonneg; lia).
  assert (e < 64) as He64 by (apply (Z.pow_lt_mono_r_iff 2); lia).
  rewrite Hp. rewrite (align_up_pow2 size e) by lia.
  set (q := (size + 2 ^ e - 1) / 2 ^ e).
  assert (size ≤ 2 ^ e * q < size + 2 ^ e) as Hq.
  { unfold q. pose proof (Z.div_mod (size + 2 ^ e - 1) (2 ^ e)). pose proof (Z.mod_pos_bound (size + 2 ^ e - 1) (2 ^ e)). lia. }
  rewrite (u32_small (2 ^ e * q)) by lia.
  assert (8 ≤ 2 ^ e * q) as H8 by (assert (1 ≤ q) by nia; nia).
  destruct (Z.ltb_spec (2 ^ e * q) 8); [lia|].
  assert (sizeof_slab_page ≤ align_up sizeof_slab_page (2 ^ e) < sizeof_slab_page + 2 ^ e) as Hoff.
  { unfold sizeof_slab_page. rewrite align_up_pow2 by lia.
    pose proof (Z.div_mod (24 + 2 ^ e - 1) (2 ^ e)). pose proof (Z.mod_pos_bound (24 + 2 ^ e - 1) (2 ^ e)). lia. }
  unfold sizeof_slab_page in *. rewrite u64_small by lia.
  destruct (Z.ltb_spec SLAB_PAGE_SIZE (align_up 24 (2 ^ e) + 2 ^ e * q)) as [Hbig|Hfit].
  { right. done. }
  cbn. rewrite decide_True by done. cbn.
  assert (e ≤ 12) as He12.
  { unfold SLAB_PAGE_SIZE in Hfit. change 4096 with (2 ^ 12) in Hfit. apply (Z.pow_le_mono_r_iff 2); [lia|lia|]. assert (1 ≤ q) by nia. nia. }
  split_and!; [done| |lia|lia|rewrite Z.mul_comm; apply Z.mod_mul; lia].
  split; cbn; [by exists e| |done].
  split; [done|]. replace e with (3 + (e - 3)) by lia. rewrite Z.pow_add_r by lia. change (2 ^ 3) with 8.
  rewrite <- Z.mul_assoc, Z.mul_comm. apply Z.mod_mul. lia.
Qed.

Lemma slab_cache_init_witness :
  match slab_cache_init (Some CIpcMsg) 152 8 (mkCpu 0 0) (mkSlab pmm_boot (λ _, mkCache 0 0 0 0 0 0 0 0 0) ∅ ∅) with
  | Ret (_, c', s') => c' = mkCpu 0 0 ∧ geometry_ok (sl_caches s' CIpcMsg) ∧ 152 ≤ obj_size (sl_caches s' CIpcMsg) ∧
      8 ≤ obj_align (sl_caches s' CIpcMsg) ∧ obj_size (sl_caches s' CIpcMsg) mod obj_align (sl_caches s' CIpcMsg) = 0
  | Panic _ => (8 < 8 ∧ ∀ e, 0 ≤ e → 8 ≠ 2 ^ e) ∨
      SLAB_PAGE_SIZE < align_up sizeof_slab_page (u32_max 8 8) + align_up 152 (u32_max 8 8)
  | Fault => False
  end.
Proof.
  apply (slab_cache_init_geometry CIpcMsg 152 8 (mkCpu 0 0)
    (mkSlab pmm_boot (λ _, mkCache 0 0 0 0 0 0 0 0 0) ∅ ∅)); vm_compute; done.
Defined.

(** ** Representation

    [ps k] are the pages of cache [k] in list order and [fl sp] the free objects
    of the page at [sp] in list order. *)

Definition word_at (s : slab_state) (p : Z) : option Z := sl_words s !! p.
Definition page_next (s : slab_state) (sp : Z) : option Z := sp_next <$> sl_pages s !! sp.

Record page_rep (s : slab_state) (c : slab_cache) (sp : Z) (l : list Z) : Prop := {
  pr_head : ∃ h, sl_pages s !! sp = Some h ∧ sp_freelist h = hd 0 l ∧
    inuse h = capacity c - Z.of_nat (length l);
  pr_links : links (word_at s) l 0;
  pr_nodup : NoDup l;
  pr_objs : ∀ x, x ∈ l → x ∈ objs c sp;
}.

Record cache_rep (s : slab_state) (c : slab_cache) (ps : list Z) (fl : Z → list Z) (lv : gset Z) : Prop := {
  cr_geom : geometry_ok c;
  cr_list : pages c = hd 0 ps;
  cr_links : links (page_next s) ps 0;
  cr_nodup : NoDup ps;
  cr_pages : ∀ sp, sp ∈ ps → page_rep s c sp (fl sp);
  cr_live : ∀ p, p ∈ lv ↔ ∃ sp, sp ∈ ps ∧ p ∈ objs c sp ∧ (p ∉ fl sp);
  cr_count : inuse_objects c = card lv;
}.

Record slab_repg (s : slab_state) (st : pmm_state) (ps : cache_id → list Z) (fl : Z → list Z)
    (lv : lives) : Prop := {
  sr_pmm : g_pmm (sl_pmm s) = Some st ∧ pmm_wf st ∧ pressure_ok st (sl_pmm s);
  sr_cache : ∀ k, cache_rep s (sl_caches s k) (ps k) fl (lv k);
  sr_disj : ∀ k j sp, sp ∈ ps k → sp ∈ ps j → k = j;
  sr_own : ∀ k sp, sp ∈ ps k → ∃ i, 0 ≤ i < total_pages st ∧ (i ∉ free_set st) ∧
    sp = phys_to_hh_virt (page_pa st i);
}.

Definition slab_rep (s : slab_state) (lv : lives) : Prop := ∃ st ps fl, slab_repg s st ps fl lv.

(** The virtual address of a managed page. *)
Lemma managed_page st i : pmm_shape st → 0 ≤ i < total_pages st →
  let sp := phys_to_hh_virt (page_pa st i) in
  page_aligned sp ∧ 0 < sp ≤ 2 ^ 64 - 2 * SLAB_PAGE_SIZE ∧ sp = CAPAZ_HH_BASE + page_pa st i.
Proof. apply page_va_facts. Qed.

Section rep.
Context (s : slab_state) (st : pmm_state) (ps : cache_id → list Z) (fl : Z → list Z) (lv : lives).
Context (R : slab_repg s st ps fl lv).

Lemma rep_shape : pmm_shape st.
Proof. apply R. Qed.

Lemma rep_page k sp : sp ∈ ps k → page_aligned sp ∧ 0 < sp ≤ 2 ^ 64 - 2 * SLAB_PAGE_SIZE.
Proof.
  intros Hsp. destruct (sr_own _ _ _ _ _ R k sp Hsp) as (i & Hi & _ & ->).
  destruct (managed_page st i rep_shape Hi) as (? & ? & _). done.
Qed.

Lemma rep_live_obj k p : p ∈ lv k → ∃ sp, sp ∈ ps k ∧ p ∈ objs (sl_caches s k) sp ∧ (p ∉ fl sp) ∧
  sp ≤ p < sp + SLAB_PAGE_SIZE ∧ 0 < p < 2 ^ 64.
Proof.
  intros (sp & Hsp & Ho & Hf)%(cr_live _ _ _ _ _ (sr_cache _ _ _ _ _ R k)).
  destruct (rep_page k sp Hsp) as [_ Hb]. pose proof (cr_geom _ _ _ _ _ (sr_cache _ _ _ _ _ R k)) as Hg.
  pose proof (objs_page _ sp p 0 Hg Ho ltac:(pose proof (ge_size _ Hg); lia)) as Hp.
  unfold sizeof_slab_page, SLAB_PAGE_SIZE in *. exists sp. split_and!; try done; lia.
Qed.

(** The count of live objects never reaches the width of the counter. *)
Lemma rep_count k : card (lv k) < 2 ^ 64 - 1.
Proof.
  assert (lv k ⊆ list_to_set (seqZ 1 (2 ^ 64 - 4097))) as Hs.
  { intros p Hp. apply elem_of_list_to_set, elem_of_seqZ.
    destruct (rep_live_obj k p Hp) as (sp & Hsp & _ & _ & Hr & _).
    destruct (rep_page k sp Hsp) as [_ Hb]. unfold SLAB_PAGE_SIZE in *. lia. }
  apply card_mono in Hs. rewrite card_seqZ in Hs by lia. lia.
Qed.

(** An object belongs to one page. *)
Lemma rep_obj_page k sp sp' x : sp ∈ ps k → sp' ∈ ps k → x ∈ objs (sl_caches s k) sp →
  x ∈ objs (sl_caches s k) sp' → sp = sp'.
Proof.
  intros Hsp Hsp' Hx Hx'. pose proof (cr_geom _ _ _ _ _ (sr_cache _ _ _ _ _ R k)) as Hg.
  pose proof (ge_size _ Hg) as [Hs _]. pose proof (objs_page _ sp x 0 Hg Hx ltac:(lia)).
  pose proof (objs_page _ sp' x 0 Hg Hx' ltac:(lia)). unfold sizeof_slab_page in *.
  eapply (same_page sp sp' x); [by eapply rep_page|by eapply rep_page|lia|lia].
Qed.

(** A word of a free object of another page is outside the page at [sp]. *)
Lemma rep_other k j sp x y : sp ∈ ps k → x ∈ ps j → x ≠ sp → y ∈ fl x →
  ¬ (sp ≤ y < sp + SLAB_PAGE_SIZE).
Proof.
  intros Hsp Hx Hne Hy Hr. apply Hne. pose proof (sr_cache _ _ _ _ _ R j) as Hcj.
  pose proof (cr_geom _ _ _ _ _ Hcj) as Hg.
  pose proof (pr_objs _ _ _ _ (cr_pages _ _ _ _ _ Hcj x Hx) y Hy) as Ho.
  pose proof (objs_page _ x y 0 Hg Ho ltac:(pose proof (ge_size _ Hg); lia)) as Hp.
  unfold sizeof_slab_page in Hp. eapply (same_page x sp y); [by eapply rep_page|by eapply rep_page| |done]. lia.
Qed.
End rep.

Definition fupd (sp : Z) (l : list Z) (fl : Z → list Z) : Z → list Z :=
  λ x, if decide (x = sp) then l else fl x.

Lemma fupd_eq sp l fl : fupd sp l fl sp = l.
Proof. unfold fupd. by rewrite decide_True. Qed.
Lemma fupd_ne sp x l fl : x ≠ sp → fupd sp l fl x = fl x.
Proof. intros. unfold fupd. by rewrite decide_False. Qed.

(** Same sizes and same page list: what object counts do not change. *)
Definition same_layout (c c' : slab_cache) : Prop :=
  obj_size c' = obj_size c ∧ obj_align c' = obj_align c ∧ pages c' = pages c.

Lemma layout_geom c c' : same_layout c c' → geometry_ok c → geometry_ok c'.
Proof. intros (E1 & E2 & _) [? ? ?]. unfold obj_off in *. split; unfold obj_off; by rewrite ?E1, ?E2. Qed.
Lemma layout_objs c c' sp : same_layout c c' → objs c' sp = objs c sp.
Proof. intros (E1 & E2 & _). unfold objs, capacity, obj_off. by rewrite E1, E2. Qed.
Lemma layout_capacity c c' : same_layout c c' → capacity c' = capacity c.
Proof. intros (E1 & E2 & _). unfold capacity, obj_off. by rewrite E1, E2. Qed.

Lemma page_rep_frame s s' c c' sp l : same_layout c c' → page_rep s c sp l →
  sl_pages s' !! sp = sl_pages s !! sp → (∀ y, y ∈ l → sl_words s' !! y = sl_words s !! y) →
  page_rep s' c' sp l.
Proof.
  intros Hl [Hh Hk Hn Ho] Ep Ew. split.
  - rewrite Ep, (layout_capacity c c') by done. exact Hh.
  - eapply links_ext; [|exact Hk]. intros y Hy. by apply Ew.
  - done.
  - intros x Hx. rewrite (layout_objs c c') by done. by apply Ho.
Qed.

(** One page of cache [k] changes its free list and the cache its counts. *)
Lemma slab_update s s' st ps fl lv k sp h h' l' lv' :
  slab_repg s st ps fl lv → sp ∈ ps k → sl_pages s !! sp = Some h →
  sl_pmm s' = sl_pmm s → (∀ j, j ≠ k → sl_caches s' j = sl_caches s j) →
  same_layout (sl_caches s k) (sl_caches s' k) → inuse_objects (sl_caches s' k) = card lv' →
  sl_pages s' = <[sp := h']> (sl_pages s) → sp_next h' = sp_next h →
  (∀ y, ¬ (sp ≤ y < sp + SLAB_PAGE_SIZE) → sl_words s' !! y = sl_words s !! y) →
  page_rep s' (sl_caches s k) sp l' →
  (∀ p, p ∈ lv' ↔ (p ∈ lv k ∧ (p ∉ objs (sl_caches s k) sp)) ∨ (p ∈ objs (sl_caches s k) sp ∧ p ∉ l')) →
  slab_repg s' st ps (fupd sp l' fl) (upd k lv' lv).
Proof.
  intros R Hsp Hh Epm Eother Hlay Ecount Epg Enext Ewords Hpage Hlive.
  assert (∀ j x, x ∈ ps j → x ≠ sp → page_rep s' (sl_caches s j) x (fl x)) as Hpages.
  { intros j x Hx Hne. pose proof (cr_pages _ _ _ _ _ (sr_cache _ _ _ _ _ R j) x Hx) as Hp.
    eapply page_rep_frame; [|exact Hp| |]; [done|rewrite Epg; by rewrite lookup_insert_ne|].
    intros y Hy. apply Ewords. by eapply (rep_other s st ps fl lv R k j). }
  assert (∀ x, page_next s' x = page_next s x) as Hnext.
  { intros x. unfold page_next. rewrite Epg. destruct (decide (x = sp)) as [->|]; [|by rewrite lookup_insert_ne].
    rewrite lookup_insert_eq, Hh. simpl. by rewrite Enext. }
  split; [by rewrite Epm; apply R| |apply R|apply R].
  intros j. pose proof (sr_cache _ _ _ _ _ R j) as Hc. destruct (decide (j = k)) as [->|Hjk].
  - rewrite upd_eq. split.
    + eapply layout_geom; [done|apply Hc].
    + destruct Hlay as (_ & _ & ->). apply Hc.
    + eapply links_ext; [|apply Hc]. done.
    + apply Hc.
    + intros x Hx. destruct (decide (x = sp)) as [->|Hne].
      * rewrite fupd_eq. by eapply page_rep_frame.
      * rewrite fupd_ne by done. eapply page_rep_frame; [done|by apply Hpages|done|done].
    + intros p. rewrite Hlive. rewrite (cr_live _ _ _ _ _ Hc p). setoid_rewrite (layout_objs (sl_caches s k)); [|done].
      split.
      * intros [[(x & Hx & Ho & Hf) Hn]|[Ho Hn]].
        -- exists x. split_and!; [done..|]. rewrite fupd_ne; [done|]. by intros ->.
        -- exists sp. by rewrite fupd_eq.
      * intros (x & Hx & Ho & Hf). destruct (decide (x = sp)) as [->|Hne]; [rewrite fupd_eq in Hf; by right|].
        rewrite fupd_ne in Hf by done. left. split; [by exists x|]. intros Ho'. apply Hne.
        by eapply (rep_obj_page s st ps fl lv R k x sp p).
    + done.
  - rewrite upd_ne by done. rewrite Eother by done. split; try apply Hc.
    + eapply links_ext; [|apply Hc]. done.
    + intros x Hx. assert (x ≠ sp) as Hne by (intros ->; apply Hjk; by eapply (sr_disj _ _ _ _ _ R)).
      rewrite fupd_ne by done. by apply Hpages.
    + intros p. rewrite (cr_live _ _ _ _ _ Hc p). apply exist_proper. intros x.
      split; intros (Hx & Ho & Hf); (split_and!; [done..|]);
        (assert (x ≠ sp) as Hne by (intros ->; apply Hjk; by eapply (sr_disj _ _ _ _ _ R)));
        [by rewrite fupd_ne|by rewrite fupd_ne in Hf].
Qed.

Lemma wp_get_page sp h Q c s : sl_pages s !! sp = Some h → Q h c s → wp (get_page sp) Q c s.
Proof. intros Hp HQ. unfold get_page. wp_steps. rewrite Hp. by wp_steps. Qed.
Lemma wp_get_word p w Q c s : sl_words s !! p = Some w → Q w c s → wp (get_word p) Q c s.
Proof. intros Hp HQ. unfold get_word. wp_steps. rewrite Hp. by wp_steps. Qed.

(** A change of call counters. *)
Lemma slab_recount s st ps fl lv k c' :
  slab_repg s st ps fl lv → same_layout (sl_caches s k) c' → inuse_objects c' = inuse_objects (sl_caches s k) →
  slab_repg (mkSlab (sl_pmm s) (λ j, if decide (j = k) then c' else sl_caches s j) (sl_pages s) (sl_words s))
    st ps fl lv.
Proof.
  intros R Hl Hi. split; try apply R. intros j. cbn [sl_caches]. pose proof (sr_cache _ _ _ _ _ R j) as Hc.
  case_decide as E; [subst j|].
  2: { split; try apply Hc. intros sp Hsp. eapply page_rep_frame; [done|by apply Hc|done|done]. }
  split; try apply Hc.
  - by eapply layout_geom, Hc.
  - destruct Hl as (_ & _ & ->). apply Hc.
  - intros sp Hsp. eapply page_rep_frame; [done|by apply Hc|done|done].
  - intros p. rewrite (cr_live _ _ _ _ _ Hc p). by setoid_rewrite (layout_objs (sl_caches s k)).
  - rewrite Hi. apply Hc.
Qed.

(** The page list has no more pages than there are headers. *)
Lemma pages_length s st ps fl lv k : slab_repg s st ps fl lv →
  (length (ps k) ≤ stdpp.base.size (sl_pages s))%nat.
Proof.
  intros R. rewrite <- size_dom, <- (size_list_to_set (C := gset Z)) by apply (sr_cache _ _ _ _ _ R k).
  apply subseteq_size. intros sp Hsp%elem_of_list_to_set. apply elem_of_dom.
  destruct (pr_head _ _ _ _ (cr_pages _ _ _ _ _ (sr_cache _ _ _ _ _ R k) sp Hsp)) as (h & Hh & _). by eexists.
Qed.

Lemma obj_nonnull s st ps fl lv k sp x : slab_repg s st ps fl lv → sp ∈ ps k →
  x ∈ objs (sl_caches s k) sp → x ≠ 0.
Proof.
  intros R Hsp Hx ->. destruct (rep_page _ _ _ _ _ R k sp Hsp) as [_ Hb].
  pose proof (cr_geom _ _ _ _ _ (sr_cache _ _ _ _ _ R k)) as Hg.
  pose proof (objs_page _ sp 0 0 Hg Hx ltac:(pose proof (ge_size _ Hg); lia)). unfold sizeof_slab_page in *. lia.
Qed.

(** The search stops at the first page whose free list is not empty. *)
Lemma wp_find_page k l1 l2 fuel Q c s st ps fl lv :
  slab_repg s st ps fl lv → ps k = l1 ++ l2 → (length l2 < fuel)%nat →
  ((∀ sp, sp ∈ l2 → fl sp = []) → Q 0 c s) →
  (∀ sp, sp ∈ l2 → fl sp ≠ [] → Q sp c s) →
  wp (find_page (hd 0 l2) fuel) Q c s.
Proof.
  intros R. revert l1 l2. induction fuel as [|fuel IH]; intros l1 l2 Eq Hf H0 H1; [lia|]. cbn [find_page].
  destruct l2 as [|sp l2]; cbn [hd].
  { rewrite Z.eqb_refl. wp_steps. apply H0. by intros ? ?%elem_of_nil. }
  assert (sp ∈ ps k) as Hsp by (rewrite Eq; set_solver).
  destruct (rep_page _ _ _ _ _ R k sp Hsp) as [_ Hb]. destruct (Z.eqb_spec sp 0); [lia|].
  pose proof (sr_cache _ _ _ _ _ R k) as Hc. pose proof (cr_pages _ _ _ _ _ Hc sp Hsp) as Hp.
  destruct (pr_head _ _ _ _ Hp) as (h & Hh & Ef & _). wp_step. eapply wp_get_page; [done|]. rewrite Ef.
  destruct (fl sp) as [|x r] eqn:El; cbn [hd].
  - rewrite Z.eqb_refl. cbn [negb].
    pose proof (cr_links _ _ _ _ _ Hc) as Hl. rewrite Eq, links_app in Hl. destruct Hl as [_ [Hn _]].
    unfold page_next in Hn. rewrite Hh in Hn. injection Hn as ->.
    apply (IH (l1 ++ [sp]) l2); [by rewrite <- app_assoc|simpl in Hf; lia| |].
    + intros Ha. apply H0. intros y [->|Hy]%elem_of_cons; [done|by apply Ha].
    + intros y Hy. apply H1. by right.
  - destruct (Z.eqb_spec x 0) as [->|_].
    { destruct (obj_nonnull s st ps fl lv k sp 0 R Hsp); [|done]. apply (pr_objs _ _ _ _ Hp). left. }
    cbn [negb]. wp_steps. apply H1; [left|]. by rewrite El.
Qed.

(** Popping the free list of a page. *)
Lemma wp_take_object k sp x r Q c s st ps fl lv :
  slab_repg s st ps fl lv → sp ∈ ps k → fl sp = x :: r →
  (∀ s', x ≠ 0 → x ∉ lv k → slab_repg s' st ps (fupd sp r fl) (upd k ({[x]} ∪ lv k) lv) → Q x c s') →
  wp (take_object k sp) Q c s.
Proof.
  intros R Hsp El HQ. pose proof (sr_cache _ _ _ _ _ R k) as Hc.
  pose proof (cr_pages _ _ _ _ _ Hc sp Hsp) as Hp. rewrite El in Hp.
  destruct Hp as [(h & Hh & Ef & Ei) [Hw Hk] Hn Ho]. apply NoDup_cons in Hn as [Hxr Hn].
  assert (x ∈ objs (sl_caches s k) sp) as Hx by (apply Ho; left).
  assert (x ∉ lv k) as Hxl.
  { intros (sp' & Hsp' & Hx' & Hf)%(cr_live _ _ _ _ _ Hc). apply Hf.
    replace sp' with sp; [rewrite El; left|]. by eapply (rep_obj_page s st ps fl lv R k sp sp' x). }
  pose proof (rep_count s st ps fl lv R k) as Hcnt.
  destruct (capacity_bounds (sl_caches s k) (cr_geom _ _ _ _ _ Hc)) as [Hcap _].
  unfold take_object. wp_step. eapply wp_get_page; [done|]. rewrite Ef. cbn [hd]. wp_step.
  eapply wp_get_word; [exact Hw|]. unfold set_page, get_cache, set_cache. wp_steps.
  apply HQ; [by eapply obj_nonnull|done|].
  eapply (slab_update s _ st ps fl lv k sp h); try done; cbn [sl_caches sl_pmm sl_pages sl_words].
  - intros j Hj. by rewrite decide_False.
  - by rewrite decide_True.
  - rewrite decide_True by done. cbn. rewrite (cr_count _ _ _ _ _ Hc), card_add by done.
    pose proof (card_nonneg (lv k)). rewrite u64_small by lia. lia.
  - split; cbn.
    + eexists. rewrite lookup_insert_eq. split_and!; [done|done|]. cbn. rewrite Ei. cbn [length].
      assert (Z.of_nat (S (length r)) ≤ capacity (sl_caches s k)) as Hle.
      { pose proof (length_objs (sl_caches s k) sp) as Hlo.
        assert (length (x :: r) ≤ length (objs (sl_caches s k) sp))%nat as Hll.
        { apply submseteq_length, NoDup_submseteq; [by apply NoDup_cons|done]. }
        rewrite Hlo in Hll. cbn [length] in Hll. lia. }
      rewrite u16_small by lia. lia.
    + exact Hk.
    + done.
    + intros y Hy. apply Ho. by right.
  - intros p. rewrite elem_of_union, elem_of_singleton. split.
    + intros [->|Hpl]; [by right|]. destruct (decide (p ∈ objs (sl_caches s k) sp)) as [Hpo|]; [right|by left].
      split; [done|]. intros Hpr. apply (cr_live _ _ _ _ _ Hc) in Hpl as (sp' & Hsp' & Hpo' & Hf).
      apply Hf. replace sp' with sp; [rewrite El; by right|]. by eapply (rep_obj_page s st ps fl lv R k sp sp' p).
    + intros [[? _]|[Hpo Hpr]]; [by right|]. destruct (decide (p = x)) as [->|Hpx]; [by left|right].
      apply (cr_live _ _ _ _ _ Hc). exists sp. split_and!; [done|done|]. rewrite El. set_solver.
Qed.

(** *** A new page *)

(** The first [i] objects of the page at [sp]. *)
Definition first_objs (c : slab_cache) (sp i : Z) : list Z :=
  (λ j, sp + obj_off c + j * obj_size c) <$> seqZ 0 i.

Lemma first_objs_S c sp i : 0 ≤ i →
  first_objs c sp (i + 1) = first_objs c sp i ++ [sp + obj_off c + i * obj_size c].
Proof.
  intros Hi. unfold first_objs. rewrite seqZ_app by lia. by rewrite fmap_app.
Qed.

Lemma wp_build_loop c0 sp i fuel Q c s :
  geometry_ok c0 → 0 ≤ sp ≤ 2 ^ 64 - 2 * SLAB_PAGE_SIZE → 0 ≤ i ≤ capacity c0 →
  capacity c0 - i < Z.of_nat fuel → links (word_at s) (reverse (first_objs c0 sp i)) 0 →
  (∀ w, (∀ y, ¬ (sp ≤ y < sp + SLAB_PAGE_SIZE) → w !! y = sl_words s !! y) →
     links (λ p, w !! p) (reverse (objs c0 sp)) 0 →
     Q (hd 0 (reverse (objs c0 sp)), capacity c0) c (mkSlab (sl_pmm s) (sl_caches s) (sl_pages s) w)) →
  wp (build_loop (sp + obj_off c0 + i * obj_size c0) (obj_size c0) (sp + SLAB_PAGE_SIZE)
        (hd 0 (reverse (first_objs c0 sp i))) i fuel) Q c s.
Proof.
  intros Hg Hsp. destruct (capacity_bounds c0 Hg) as [Hcap [Hfit Hover]].
  destruct (obj_off_bounds c0 Hg) as [Hoff _]. pose proof (ge_size _ Hg) as [Hs _].
  revert i s. induction fuel as [|fuel IH]; intros i s Hi Hf Hl HQ; [lia|]. cbn [build_loop].
  unfold SLAB_PAGE_SIZE, sizeof_slab_page in *.
  rewrite u64_small by nia.
  destruct (Z.leb_spec (sp + obj_off c0 + i * obj_size c0 + obj_size c0) (sp + 4096)) as [Hle|Hgt].
  - assert (i < capacity c0) as Hic by nia. set (x := sp + obj_off c0 + i * obj_size c0).
    unfold set_words. wp_steps. rewrite u16_small by lia.
    replace (x + obj_size c0) with (sp + obj_off c0 + (i + 1) * obj_size c0) by (unfold x; lia).
    set (s1 := mkSlab _ _ _ _).
    assert (reverse (first_objs c0 sp (i + 1)) = x :: reverse (first_objs c0 sp i)) as Er.
    { rewrite first_objs_S by lia. by rewrite reverse_app. }
    assert (x ∉ reverse (first_objs c0 sp i)) as Hx.
    { rewrite elem_of_reverse. unfold first_objs. rewrite list_elem_of_fmap. intros (j & E & Hj%elem_of_seqZ).
      unfold x in E. nia. }
    change x with (hd 0 (x :: reverse (first_objs c0 sp i))). rewrite <- Er.
    apply IH; [lia|lia| |].
    + rewrite Er. split; [unfold word_at, s1; cbn; by rewrite lookup_insert_eq|].
      eapply links_ext; [|exact Hl]. intros y Hy. unfold word_at, s1. cbn. rewrite lookup_insert_ne; [done|].
      intros ->. done.
    + intros w Hw Hlw. apply HQ; [|done]. intros y Hy. rewrite Hw by done. cbn. rewrite lookup_insert_ne; [done|].
      unfold x. nia.
  - assert (i = capacity c0) as -> by nia. wp_steps. destruct s. apply HQ; done.
Qed.

(** Adding a page whose objects are all free. *)
Lemma slab_add_page s s' st st' ps fl lv k sp i n l :
  slab_repg s st ps fl lv →
  g_pmm (sl_pmm s') = Some st' ∧ pmm_wf st' ∧ pressure_ok st' (sl_pmm s') → same_window st st' →
  0 ≤ i < total_pages st → i ∈ free_set st → free_set st' = free_set st ∖ {[i]} →
  sp = phys_to_hh_virt (page_pa st i) →
  (∀ j, j ≠ k → sl_caches s' j = sl_caches s j) →
  obj_size (sl_caches s' k) = obj_size (sl_caches s k) → obj_align (sl_caches s' k) = obj_align (sl_caches s k) →
  pages (sl_caches s' k) = sp → inuse_objects (sl_caches s' k) = inuse_objects (sl_caches s k) →
  sl_pages s' = <[sp := mkPage (hd 0 (ps k)) (hd 0 l) n 0]> (sl_pages s) →
  (∀ y, ¬ (sp ≤ y < sp + SLAB_PAGE_SIZE) → sl_words s' !! y = sl_words s !! y) →
  l = reverse (objs (sl_caches s k) sp) → links (word_at s') l 0 →
  slab_repg s' st' (λ j, if decide (j = k) then sp :: ps k else ps j) (fupd sp l fl) lv.
Proof.
  intros R Hpm Hwin Hi Hfree Hfree' Esp Eother Esz Eal Epg Ein Epages Ewords El Hlinks.
  pose proof (rep_shape _ _ _ _ _ R) as Hsh.
  destruct (managed_page st i Hsh Hi) as (Ha & Hb & Eva). cbv zeta in *. rewrite <- Esp in *.
  assert (∀ j x, x ∈ ps j → x ≠ sp) as Hnew.
  { intros j x Hx ->. destruct (sr_own _ _ _ _ _ R j sp Hx) as (i' & Hi' & Hn & E').
    destruct (managed_page st i' Hsh Hi') as (_ & _ & Eva'). rewrite <- E', Eva in Eva'.
    replace i' with i in Hn; [done|]. apply (page_pa_inj st). lia. }
  assert (∀ j x, x ∈ (if decide (j = k) then sp :: ps k else ps j) → (x = sp ∧ j = k) ∨ x ∈ ps j) as Hin.
  { intros j x. case_decide as E; [|by right]. subst. intros [->|?]%elem_of_cons; [by left|by right]. }
  assert (∀ x, objs (sl_caches s' k) x = objs (sl_caches s k) x) as Eobjs.
  { intros x. unfold objs, capacity, obj_off. by rewrite Esz, Eal. }
  assert (capacity (sl_caches s' k) = capacity (sl_caches s k)) as Ecap.
  { unfold capacity, obj_off. by rewrite Esz, Eal. }
  assert (∀ j x c', x ∈ ps j → (∀ z, objs c' z = objs (sl_caches s j) z) → capacity c' = capacity (sl_caches s j) →
    page_rep s' c' x (fupd sp l fl x)) as Hpages.
  { intros j x c' Hx Eo Ec. rewrite fupd_ne by (by eapply Hnew).
    destruct (cr_pages _ _ _ _ _ (sr_cache _ _ _ _ _ R j) x Hx) as [Hh Hk Hn Ho]. split.
    - rewrite Epages, lookup_insert_ne by (apply not_eq_sym; by eapply Hnew). by rewrite Ec.
    - eapply links_ext; [|exact Hk]. intros y Hy. apply Ewords. intros Hr. apply (Hnew j x Hx).
      pose proof (cr_geom _ _ _ _ _ (sr_cache _ _ _ _ _ R j)) as Hg. pose proof (ge_size _ Hg) as [? _].
      pose proof (objs_page _ x y 0 Hg (Ho y Hy) ltac:(lia)). unfold sizeof_slab_page in *.
      eapply (same_page x sp y); [by eapply rep_page|done|lia|lia].
    - done.
    - intros y Hy. rewrite Eo. by apply Ho. }
  assert (∀ j, links (page_next s') (ps j) 0) as Hnexts.
  { intros j. eapply links_ext; [|apply (sr_cache _ _ _ _ _ R j)]. intros x Hx. unfold page_next.
    rewrite Epages, lookup_insert_ne; [done|]. apply not_eq_sym. by eapply Hnew. }
  split; [done| | |].
  - intros j. pose proof (sr_cache _ _ _ _ _ R j) as Hc. pose proof (cr_geom _ _ _ _ _ Hc) as Hg.
    case_decide as E; [subst j|].
    + destruct Hg as [Hg1 Hg2 Hg3]. split.
      * split; unfold obj_off in *; by rewrite ?Esz, ?Eal.
      * by rewrite Epg.
      * split; [|apply Hnexts]. unfold page_next. by rewrite Epages, lookup_insert_eq.
      * constructor; [|apply Hc]. intros Hx. by eapply Hnew.
      * intros x [->|Hx]%elem_of_cons; [|by eapply Hpages].
        rewrite fupd_eq, El. split.
        -- eexists. rewrite Epages, lookup_insert_eq. split_and!; [done|by rewrite El|]. cbn.
           rewrite length_reverse, length_objs, Ecap.
           destruct (capacity_bounds (sl_caches s k) (cr_geom _ _ _ _ _ Hc)) as [? _]. lia.
        -- by rewrite <- El.
        -- rewrite reverse_Permutation. apply NoDup_objs, Hc.
        -- intros y. rewrite elem_of_reverse. by rewrite Eobjs.
      * intros p. rewrite (cr_live _ _ _ _ _ Hc p). setoid_rewrite Eobjs. split.
        -- intros (x & Hx & Ho & Hf). exists x. rewrite fupd_ne by (by eapply Hnew). split_and!; [by right|done..].
        -- intros (x & [->|Hx]%elem_of_cons & Ho & Hf).
           ++ rewrite fupd_eq, El, elem_of_reverse in Hf. done.
           ++ rewrite fupd_ne in Hf by (by eapply Hnew). by exists x.
      * rewrite Ein. apply Hc.
    + rewrite Eother by done. split; try apply Hc; [apply Hnexts|intros x Hx; by eapply Hpages|].
      intros p. rewrite (cr_live _ _ _ _ _ Hc p). apply exist_proper. intros x.
      split; intros (Hx & Ho & Hf); (split_and!; [done..|]); [rewrite fupd_ne by (by eapply Hnew); done|].
      rewrite fupd_ne in Hf by (by eapply Hnew). done.
  - intros j j' x Hx Hx'. apply Hin in Hx, Hx'.
    destruct Hx as [[Ex Ej]|Hx], Hx' as [[Ex' Ej']|Hx'].
    + congruence.
    + by destruct (Hnew j' x Hx').
    + by destruct (Hnew j x Hx).
    + by eapply (sr_disj _ _ _ _ _ R).
  - destruct Hwin as (Eb & _ & Et & _). unfold page_pa in *. rewrite Et, Eb, Hfree'.
    intros j x Hx. apply Hin in Hx. destruct Hx as [[Ex _]|Hx]; [exists i; set_solver|].
    destruct (sr_own _ _ _ _ _ R _ x Hx) as (i' & ? & ? & ?). exists i'. set_solver.
Qed.

(** The fresh page as [slab_page_alloc] returns it, not yet in a list. *)
Lemma wp_slab_page_alloc k Q c s st ps fl lv :
  slab_repg s st ps fl lv → irq_depth c = 0 →
  (∀ g', slab_repg (mkSlab g' (sl_caches s) (sl_pages s) (sl_words s)) st ps fl lv →
     Q 0 c (mkSlab g' (sl_caches s) (sl_pages s) (sl_words s))) →
  (∀ g' st' i w, let sp := phys_to_hh_virt (page_pa st i) in
     let l := reverse (objs (sl_caches s k) sp) in
     g_pmm g' = Some st' ∧ pmm_wf st' ∧ pressure_ok st' g' → same_window st st' →
     0 ≤ i < total_pages st → i ∈ free_set st → free_set st' = free_set st ∖ {[i]} →
     (∀ y, ¬ (sp ≤ y < sp + SLAB_PAGE_SIZE) → w !! y = sl_words s !! y) →
     links (λ p, w !! p) l 0 →
     Q sp c (mkSlab g' (sl_caches s)
       (<[sp := mkPage 0 (hd 0 l) (capacity (sl_caches s k)) 0]> (sl_pages s)) w)) →
  wp (slab_page_alloc (obj_size (sl_caches s k)) (obj_align (sl_caches s k))) Q c s.
Proof.
  intros R Hd H0 H1. destruct (sr_pmm _ _ _ _ _ R) as (Hg & Hwf & Hpr).
  pose proof (cr_geom _ _ _ _ _ (sr_cache _ _ _ _ _ R k)) as Hgeo.
  unfold slab_page_alloc. do 2 wp_step. cbn [lget pmm_lens].
  eapply wp_mono; [by apply (alloc_pages_correct 1 c (sl_pmm s) st)|]. cbv beta.
  intros r c' g' [-> (st' & Hg' & Hwf' & Hpr' & Hwin & Hpost)]. cbn [lset pmm_lens].
  destruct r as [pa|].
  - destruct Hpost as (i & -> & Hi0 & Hi & Hrun & Hfree).
    assert (run i 1 = {[i]}) as Er.
    { apply set_eq. intros x. unfold run. rewrite elem_of_list_to_set, elem_of_seqZ. set_solver by lia. }
    rewrite Er in *. assert (i ∈ free_set st) as Hif by set_solver.
    destruct (managed_page st i (proj1 Hwf) ltac:(lia)) as (Ha & Hb & _). set (sp := phys_to_hh_virt _) in *.
    unfold set_page. wp_steps. unfold slab_page_build_freelist.
    rewrite align_up_page by (done || lia). rewrite (u64_small (sp + SLAB_PAGE_SIZE)) by (unfold SLAB_PAGE_SIZE in *; lia).
    wp_step. destruct (capacity_bounds _ Hgeo) as [Hcap _].
    pose proof (wp_build_loop (sl_caches s k) sp 0 (Z.to_nat SLAB_PAGE_SIZE)) as Hbuild.
    rewrite Z.mul_0_l, Z.add_0_r in Hbuild. cbn [first_objs reverse hd] in Hbuild.
    apply Hbuild; [done|lia|lia|unfold SLAB_PAGE_SIZE; lia|done|]. clear Hbuild. cbn [sl_words sl_pmm sl_caches sl_pages].
    intros w Hw Hl. wp_step. eapply wp_get_page; [cbn; by rewrite lookup_insert_eq|]. cbn [sp_next fst snd].
    unfold set_page. wp_steps. destruct (Z.eqb_spec (capacity (sl_caches s k)) 0); [lia|]. wp_steps.
    cbn [sl_words sl_pmm sl_caches sl_pages]. rewrite insert_insert_eq. apply (H1 g' st' i w); try done. lia.
  - destruct Hpost as [-> _]. wp_steps. apply H0. destruct R as [_ Rc Rd Ro]. split; try done.
    intros j. destruct (Rc j) as [? ? Hl ? Hp ? ?]. split; try done.
    intros x Hx. eapply page_rep_frame; [done|by apply Hp|done|done].
Qed.

(** The caches kept their pages and may have taken some that were free. *)
Definition slab_grown (st : pmm_state) (ps : cache_id → list Z) (s' : slab_state) (lv' : lives) : Prop :=
  ∃ st' ps' fl', slab_repg s' st' ps' fl' lv' ∧ same_window st st' ∧ free_set st' ⊆ free_set st ∧
  ∀ k sp, sp ∈ ps' k → sp ∈ ps k ∨
    ∃ i, i ∈ free_set st ∧ (i ∉ free_set st') ∧ sp = phys_to_hh_virt (page_pa st i).

Lemma grown_same st ps s' fl' lv' : slab_repg s' st ps fl' lv' → slab_grown st ps s' lv'.
Proof. intros R. exists st, ps, fl'. split_and!; try done. by left. Qed.

Lemma grown_rep st ps s' lv' : slab_grown st ps s' lv' → slab_rep s' lv'.
Proof. intros (st' & ps' & fl' & R & _). by exists st', ps', fl'. Qed.

Lemma slab_alloc_correct k c s st ps fl lv :
  slab_repg s st ps fl lv → irq_depth c = 0 →
  wp (slab_alloc (Some k)) (λ p c' s', c' = c ∧
    ((p = 0 ∧ slab_grown st ps s' lv) ∨
     (p ≠ 0 ∧ (p ∉ lv k) ∧ slab_grown st ps s' (upd k ({[p]} ∪ lv k) lv)))) c s.
Proof.
  intros R Hd. unfold slab_alloc. wp_step. apply wp_assert_thread; [done|]. unfold get_cache at 1, set_cache at 1.
  wp_steps. set (c1 := count_alloc_call (sl_caches s k)).
  pose proof (slab_recount s st ps fl lv k c1 R ltac:(done) eq_refl) as R1.
  set (s1 := mkSlab _ _ _ _) in *.
  assert (sl_caches s1 k = c1) as Ec1 by (unfold s1; cbn; by rewrite decide_True).
  assert (pages (sl_caches s k) = hd 0 (ps k)) as -> by apply (sr_cache _ _ _ _ _ R k).
  eapply (wp_find_page k [] (ps k)); [exact R1|done| | |].
  { pose proof (pages_length s1 st ps fl lv k R1). lia. }
  - (* no free object *)
    intros _. change (negb (0 =? 0)) with false. cbv iota.
    change (obj_size (sl_caches s k)) with (obj_size c1). change (obj_align (sl_caches s k)) with (obj_align c1).
    rewrite <- Ec1. wp_step. eapply (wp_slab_page_alloc k); [exact R1|done| |].
    + intros g' R2. change (0 =? 0) with true. cbv iota. unfold get_cache, set_cache. wp_steps.
      split; [done|]. left. split; [done|]. eapply grown_same. by apply (slab_recount _ st ps fl lv k _ R2).
    + intros g' st' i w sp l Hpm Hwin Hi Hif Hfree Hw Hl.
      destruct (managed_page st i (rep_shape _ _ _ _ _ R) Hi) as (_ & Hb & _). fold sp in Hb.
      destruct (Z.eqb_spec sp 0); [lia|]. unfold get_cache at 1. wp_steps.
      eapply wp_get_page; [cbn; by rewrite lookup_insert_eq|]. unfold set_page, set_cache. wp_steps.
      cbn [sl_words sl_pmm sl_caches sl_pages sp_freelist obj_count inuse]. rewrite insert_insert_eq.
      set (s2 := mkSlab _ _ _ _).
      pose proof (cr_geom _ _ _ _ _ (sr_cache _ _ _ _ _ R1 k)) as Hgeo.
      destruct (capacity_bounds _ Hgeo) as [Hcap _].
      assert (slab_repg s2 st' (λ j, if decide (j = k) then sp :: ps k else ps j) (fupd sp l fl) lv) as R2.
      { eapply (slab_add_page s1 s2 st st' ps fl lv k sp i (capacity (sl_caches s1 k)) l); try done;
          unfold s2; cbn [sl_words sl_pmm sl_caches sl_pages]; rewrite ?decide_True by done; try done.
        - intros j Hj. by rewrite decide_False.
        - assert (pages (sl_caches s1 k) = hd 0 (ps k)) as -> by apply (sr_cache _ _ _ _ _ R1 k). by rewrite Ec1. }
      destruct l as [|x r] eqn:El.
      { apply (f_equal length) in El. unfold l in El. rewrite length_reverse, length_objs in El. change (length []) with 0%nat in El. lia. }
      eapply (wp_take_object k sp x r); [exact R2|cbv beta; rewrite decide_True by done; left|by rewrite fupd_eq|].
      intros s3 Hx Hxl R3. split; [done|]. right. split_and!; [done|done|]. eexists _, _, _. split; [exact R3|].
      split; [done|]. split; [rewrite Hfree; set_solver|]. intros j x'. cbv beta. case_decide; [|by left].
      intros [->|?]%elem_of_cons; [right|left; by subst]. exists i. rewrite Hfree. split_and!; [done|set_solver|done].
  - intros sp Hsp Hne. destruct (rep_page _ _ _ _ _ R k sp Hsp) as [_ Hb]. destruct (Z.eqb_spec sp 0); [lia|].
    cbn [negb]. destruct (fl sp) as [|x r] eqn:El; [done|].
    eapply (wp_take_object k sp x r); [exact R1|done|done|].
    intros s3 Hx Hxl R3. split; [done|]. right. split_and!; [done|done|]. by eapply grown_same.
Qed.

(** ** Freeing *)

Lemma wp_page_listed k target l1 l2 fuel Q c s st ps fl lv :
  slab_repg s st ps fl lv → ps k = l1 ++ l2 → (length l2 < fuel)%nat →
  Q (bool_decide (target ∈ l2)) c s → wp (page_listed (hd 0 l2) target fuel) Q c s.
Proof.
  intros R. revert l1 l2. induction fuel as [|fuel IH]; intros l1 l2 Eq Hf HQ; [lia|]. cbn [page_listed].
  destruct l2 as [|sp l2]; cbn [hd].
  { rewrite Z.eqb_refl. wp_steps. by rewrite bool_decide_false in HQ by apply not_elem_of_nil. }
  assert (sp ∈ ps k) as Hsp by (rewrite Eq; set_solver).
  destruct (rep_page _ _ _ _ _ R k sp Hsp) as [_ Hb]. destruct (Z.eqb_spec sp 0); [lia|].
  destruct (Z.eqb_spec sp target) as [->|Hne].
  { wp_steps. by rewrite bool_decide_true in HQ by left. }
  pose proof (sr_cache _ _ _ _ _ R k) as Hc.
  destruct (pr_head _ _ _ _ (cr_pages _ _ _ _ _ Hc sp Hsp)) as (h & Hh & _). wp_step. eapply wp_get_page; [done|].
  pose proof (cr_links _ _ _ _ _ Hc) as Hl. rewrite Eq, links_app in Hl. destruct Hl as [_ [Hn _]].
  unfold page_next in Hn. rewrite Hh in Hn. injection Hn as ->.
  apply (IH (l1 ++ [sp]) l2); [by rewrite <- app_assoc|simpl in Hf; lia|].
  replace (bool_decide (target ∈ l2)) with (bool_decide (target ∈ sp :: l2)); [done|].
  apply bool_decide_ext. rewrite elem_of_cons. naive_solver.
Qed.

(** Two objects of a page are at least an object apart. *)
Lemma objs_apart c sp x y : geometry_ok c → x ∈ objs c sp → y ∈ objs c sp → x ≠ y →
  ¬ (x ≤ y < x + obj_size c).
Proof.
  intros Hg (i & Hi & ->)%elem_of_objs (j & Hj & ->)%elem_of_objs Hne. pose proof (ge_size _ Hg).
  destruct (Z.lt_trichotomy i j) as [Hl|[->|Hl]]; [|done|]; nia.
Qed.

Lemma slab_free_correct k p c s st ps fl lv :
  slab_repg s st ps fl lv → irq_depth c = 0 → p ∈ lv k →
  wp (slab_free (Some k) p) (λ _ c' s', c' = c ∧ ∃ fl', slab_repg s' st ps fl' (upd k (lv k ∖ {[p]}) lv)) c s.
Proof.
  intros R Hd Hp. destruct (rep_live_obj s st ps fl lv R k p Hp) as (sp & Hsp & Ho & Hf & Hr & Hp0).
  destruct (rep_page s st ps fl lv R k sp Hsp) as [Ha Hb].
  unfold slab_free. wp_step. apply wp_assert_thread; [done|]. destruct (Z.eqb_spec p 0); [lia|].
  unfold get_cache at 1, set_cache at 1. wp_steps. set (c1 := count_free_call (sl_caches s k)).
  pose proof (slab_recount s st ps fl lv k c1 R ltac:(done) eq_refl) as R1. set (s1 := mkSlab _ _ _ _) in *.
  assert (sl_caches s1 k = c1) as Ec1 by (unfold s1; cbn; by rewrite decide_True).
  rewrite (page_base p sp) by (done || lia).
  assert (pages (sl_caches s k) = hd 0 (ps k)) as -> by apply (sr_cache _ _ _ _ _ R k).
  eapply (wp_page_listed k sp [] (ps k)); [exact R1|done| |].
  { pose proof (pages_length s1 st ps fl lv k R1). lia. }
  rewrite bool_decide_true by done. cbn [negb]. wp_steps.
  pose proof (sr_cache _ _ _ _ _ R1 k) as Hc. rewrite Ec1 in Hc.
  destruct (cr_pages _ _ _ _ _ Hc sp Hsp) as [(h & Hh & Ef & Ei) Hk Hn Hfo].
  assert (length (fl sp) < Z.to_nat (capacity c1))%nat as Hlen.
  { rewrite <- (length_objs c1 sp). apply (submseteq_length (p :: fl sp)), NoDup_submseteq; [by apply NoDup_cons|].
    intros x [->|Hx]%elem_of_cons; [done|by apply Hfo]. }
  destruct (capacity_bounds c1 (cr_geom _ _ _ _ _ Hc)) as [Hcap _].
  eapply wp_get_page; [exact Hh|]. destruct (Z.eqb_spec (inuse h) 0); [lia|].
  unfold set_words, set_page, get_cache, set_cache. wp_steps. cbn [sl_caches]. rewrite Ec1.
  pose proof (cr_count _ _ _ _ _ Hc) as Hcnt. pose proof (card_pos _ _ Hp) as Hpos.
  destruct (Z.eqb_spec (inuse_objects c1) 0); [lia|]. wp_steps. split; [done|].
  pose proof (ge_size _ (cr_geom _ _ _ _ _ Hc)) as [Hsz Hmod].
  assert (8 * Z.of_nat (Z.to_nat (obj_size c1 / 8)) = obj_size c1) as Hwords.
  { rewrite Z2Nat.id by (apply Z.div_pos; lia). pose proof (Z.div_mod (obj_size c1) 8). lia. }
  exists (fupd sp (p :: fl sp) fl).
  eapply (slab_update s1 _ st ps fl lv k sp h); try done; cbn [sl_caches sl_pmm sl_pages sl_words]; rewrite ?Ec1.
  - intros j Hj. by rewrite decide_False.
  - by rewrite decide_True.
  - rewrite decide_True by done. cbn. rewrite (card_difference (lv k) {[p]}), card_singleton by set_solver.
    change (inuse_objects (sl_caches s k)) with (inuse_objects c1). rewrite Hcnt.
    pose proof (rep_count s st ps fl lv R k). rewrite u64_small; lia.
  - intros y Hy. rewrite lookup_insert_ne by lia. apply poison_other. change (obj_size (sl_caches s k)) with (obj_size c1).
    rewrite Hwords. pose proof (objs_page c1 sp p (obj_size c1 - 1) (cr_geom _ _ _ _ _ Hc) Ho ltac:(lia)). lia.
  - split; cbn [sl_pages sl_words hd length].
    + eexists. rewrite lookup_insert_eq. split_and!; [done|done|]. cbn. rewrite Ei. rewrite u16_small by lia. lia.
    + split; [unfold word_at; cbn; by rewrite lookup_insert_eq, Ef|].
      eapply links_ext; [|exact Hk]. intros y Hy. unfold word_at; cbn. rewrite lookup_insert_ne by (by intros ->).
      apply poison_other. change (obj_size (sl_caches s k)) with (obj_size c1). rewrite Hwords.
      apply (objs_apart c1 sp); [apply Hc|done|by apply Hfo|by intros ->].
    + by constructor.
    + intros x [->|Hx]%elem_of_cons; [done|by apply Hfo].
  - intros x. rewrite elem_of_difference, elem_of_singleton, not_elem_of_cons. split.
    + intros [Hx Hxp]. destruct (decide (x ∈ objs c1 sp)) as [Hxo|]; [right|by left].
      split_and!; [done|done|]. apply (cr_live _ _ _ _ _ Hc) in Hx as (sp' & Hsp' & Hxo' & Hxf).
      replace sp with sp'; [done|]. by eapply (rep_obj_page s st ps fl lv R k sp' sp x).
    + intros [[Hx Hxo]|(Hxo & Hxp & Hxf)]; [split; [done|by intros ->]|].
      split; [|done]. apply (cr_live _ _ _ _ _ Hc). by exists sp.
Qed.

(** ** The allocator is an object heap *)

#[global] Program Instance slab_objheap : ObjHeap slab_state := {|
  oh_alloc k := slab_alloc (Some k);
  oh_free k p := slab_free (Some k) p;
  oh_rep := slab_rep;
|}.
Next Obligation.
  intros k c s lv (st & ps & fl & R) Hd. eapply wp_mono; [by eapply slab_alloc_correct|]. cbv beta.
  intros p c' s' [-> Hp]. split; [done|]. naive_solver eauto using grown_rep.
Qed.
Next Obligation.
  intros k p c s lv (st & ps & fl & R) Hd Hp. eapply wp_mono; [by eapply slab_free_correct|]. cbv beta.
  intros _ c' s' [-> [fl' R']]. split; [done|]. by exists st, ps, fl'.
Qed.
Next Obligation.
  intros s lv k (st & ps & fl & R) H0. destruct (rep_live_obj s st ps fl lv R k 0 H0) as (_ & _ & _ & _ & _ & ?). lia.
Qed.

(** ** Clients *)

(** The bytes of two live objects never overlap, whatever their caches. *)
Definition objects_disjoint (s : slab_state) (lv : lives) : Prop :=
  ∀ k j x y, x ∈ lv k → y ∈ lv j → (k, x) ≠ (j, y) →
    x + obj_size (sl_caches s k) ≤ y ∨ y + obj_size (sl_caches s j) ≤ x.

Lemma rep_disjoint s lv : slab_rep s lv → objects_disjoint s lv.
Proof.
  intros (st & ps & fl & R) k j x y Hx Hy Hne.
  destruct (rep_live_obj s st ps fl lv R k x Hx) as (a & Ha & Hox & _).
  destruct (rep_live_obj s st ps fl lv R j y Hy) as (b & Hb & Hoy & _).
  pose proof (cr_geom _ _ _ _ _ (sr_cache _ _ _ _ _ R k)) as Hgk.
  pose proof (cr_geom _ _ _ _ _ (sr_cache _ _ _ _ _ R j)) as Hgj.
  destruct (ge_size _ Hgk) as [Hk _]. destruct (ge_size _ Hgj) as [Hj _].
  destruct (decide (a = b)) as [<-|Hab].
  - pose proof (sr_disj _ _ _ _ _ R k j a Ha Hb) as <-.
    assert (x ≠ y) as Hxy by (by intros ->).
    pose proof (objs_apart _ a x y Hgk Hox Hoy Hxy). pose proof (objs_apart _ a y x Hgk Hoy Hox (not_eq_sym Hxy)). lia.
  - pose proof (objs_page _ a x 0 Hgk Hox ltac:(lia)). pose proof (objs_page _ a x (obj_size (sl_caches s k) - 1) Hgk Hox ltac:(lia)).
    pose proof (objs_page _ b y 0 Hgj Hoy ltac:(lia)). pose proof (objs_page _ b y (obj_size (sl_caches s j) - 1) Hgj Hoy ltac:(lia)).
    destruct (rep_page s st ps fl lv R k a Ha) as [Hpa _]. destruct (rep_page s st ps fl lv R j b Hb) as [Hpb _].
    unfold sizeof_slab_page, SLAB_PAGE_SIZE in *. page_arith.
Qed.

(** A client of the caches: it allocates, and frees objects it holds.  It stops
    with a panic when it is given an object that it holds already. *)
Inductive slab_op := SlabAlloc (k : cache_id) | SlabFree (k : cache_id) (p : Z).

Fixpoint run_slab (ops : list slab_op) (held : lives) : M slab_state lives :=
  match ops with
  | [] => ret held
  | SlabAlloc k :: ops =>
    p <- slab_alloc (Some k) ;;
    if p =? 0 then run_slab ops held
    else
      assert_that (bool_decide (p ∉ held k)) "object handed out twice" ;;;
      run_slab ops (upd k ({[p]} ∪ held k) held)
  | SlabFree k p :: ops =>
    if decide (p ∈ held k) then slab_free (Some k) p ;;; run_slab ops (upd k (held k ∖ {[p]}) held)
    else run_slab ops held
  end.

Lemma run_slab_rep ops c s held : slab_rep s held → irq_depth c = 0 →
  wp (run_slab ops held) (λ held' c' s', c' = c ∧ slab_rep s' held') c s.
Proof.
  revert s held. induction ops as [|[k|k p] ops IH]; intros s held R Hd; cbn [run_slab]; [by wp_steps| |].
  - wp_step. eapply wp_mono; [exact (oh_alloc_spec k c s held R Hd)|].
    intros p c' s' [-> [[-> R']|(Hp & Hnew & R')]]; [by apply IH|].
    destruct (Z.eqb_spec p 0); [done|]. wp_step. apply wp_assert; [by apply bool_decide_true|]. by apply IH.
  - case_decide as Hp; [|by apply IH].
    wp_step. eapply wp_mono; [exact (oh_free_spec k p c s held R Hd Hp)|]. intros _ c' s' [-> R']. by apply IH.
Qed.

(** C12: Over any sequence of allocations from the slab caches and frees of
    held objects, the allocator neither panics nor faults, every object handed
    out is one the client did not hold (the client checks it), and the bytes
    of held objects never overlap, across pages and caches: the page lists and
    free lists represent the set of held objects. *)
Theorem slab_clients_never_overlap ops c s :
  slab_rep s (λ _, ∅) → irq_depth c = 0 →
  wp (run_slab ops (λ _, ∅)) (λ held c' s', c' = c ∧ slab_rep s' held ∧ objects_disjoint s' held) c s.
Proof.
  intros R Hd. eapply wp_mono; [by apply run_slab_rep|].
  intros held c' s' [-> R']. split_and!; [done|done|by apply rep_disjoint].
Qed.

(** Fresh caches of the object sizes of the kernel over a five-page manager. *)
Definition fresh_cache (sz : Z) : slab_cache := mkCache sz 8 0 0 0 0 0 0 0.
Definition fresh_slab : slab_state :=
  mkSlab five_globals (λ k, fresh_cache match k with
    | CThread => 512 | CEndpoint => 80 | CIpcMsg => 152 | CCapEntry => 48 | CWorkItem => 32 end) ∅ ∅.

Lemma fresh_slab_rep : slab_rep fresh_slab (λ _, ∅).
Proof.
  exists five_pages, (λ _, []), (λ _, []). split.
  - split_and!; [done|apply five_pages_wf|apply five_pressure].
  - intros k. split; cbn; try done.
    + split; [exists 3; by destruct k|destruct k; vm_compute; split; congruence|destruct k; vm_compute; congruence].
    + constructor.
    + by intros sp ?%not_elem_of_nil.
    + intros p. split; [by intros ?%not_elem_of_empty|]. by intros (sp & ?%not_elem_of_nil & _).
  - by intros k j sp ?%not_elem_of_nil.
  - by intros k sp ?%not_elem_of_nil.
Qed.

Lemma slab_clients_witness :
  wp (run_slab [SlabAlloc CThread; SlabAlloc CCapEntry; SlabAlloc CThread; SlabFree CThread 0xFFFF800040500C18] (λ _, ∅))
    (λ held c' s', c' = thread_cpu ∧ slab_rep s' held ∧ objects_disjoint s' held) thread_cpu fresh_slab.
Proof. apply (slab_clients_never_overlap _ thread_cpu fresh_slab); [apply fresh_slab_rep|done]. Defined.

(** The first allocation takes the last object of the first page. *)
Example first_alloc :
  match slab_alloc (Some CThread) thread_cpu fresh_slab with
  | Ret (p, _, s) => p = 0xFFFF800040500000 + 24 + 6 * 512 ∧ inuse_objects (sl_caches s CThread) = 1
  | _ => False
  end.
Proof. vm_compute. split; reflexivity. Qed.

(** A size of 2^32 + 8 bytes is cut to its low 32 bits before it is rounded
    and compared with the page: the cache is accepted, with 8-byte objects. *)
Example slab_cache_init_truncates_size :
  match slab_cache_init (Some CThread) (2 ^ 32 + 8) 8 thread_cpu fresh_slab with
  | Ret (_, _, s) => obj_size (sl_caches s CThread) = 8
  | _ => False
  end.
Proof. reflexivity. Qed.
