(* ===== verification/Ipc.v ===== *)
(** * Message passing (Kern/Kernel/ipc/endpoint.c, ipc_message.c)

    Endpoints hold a doubly linked FIFO of kernel-owned messages and at most
    one waiting receiver.  They are reached through capabilities (Cap), their
    objects come from slab caches (ObjHeap), and a blocked receiver is woken
    through the scheduler (Sched). *)

From S2P Require Import Prelude Irq ObjHeap Cap Task Sched.

(** ** Data *)

Definition KS_IPC_MSG_MAX : Z := 128.
Definition IPC_MSG_INLINE_MAX : Z := 128.

(** [ks_ipc_msg_t], the caller's message. *)
Record ks_ipc_msg := mkKsMsg { ks_tag : Z; ks_len : Z; ks_data : list Z }.

(** [ks_ipc_status_t] *)
Inductive ks_ipc_status :=
| KS_IPC_OK | KS_IPC_ERR_INVALID | KS_IPC_ERR_RIGHTS
| KS_IPC_ERR_NO_MEM | KS_IPC_ERR_CLOSED | KS_IPC_ERR_EMPTY.

(** The statuses [endpoint_create] returns. *)
Definition KS_STATUS_OK : Z := 0.
Definition KS_STATUS_INVALID_ARG : Z := -1.
Definition KS_STATUS_OUT_OF_MEMORY : Z := -5.

(** [ipc_msg_t], the kernel's message object. *)
Record ipc_msg := mkMsg { m_next : Z; m_prev : Z; m_tag : Z; m_len : Z; m_data : list Z }.

(** [struct endpoint] *)
Record endpoint := mkEp {
  ep_id : Z; q_head : Z; q_tail : Z; waiting_recv : Z; closed : bool;
}.

(** The statics of endpoint.c and ipc_message.c, the endpoints and messages by
    address, and the components they call. *)
Record ipc_state (H : Type) := mkIpc {
  ip_cap : cap_state H;
  ip_sched : sched_state;
  endpoints : gmap Z endpoint;
  msgs : gmap Z ipc_msg;
  s_endpoint_cache_inited : bool;
  s_ipc_msg_cache_inited : bool;
  s_next_endpoint_id : Z;
}.
Arguments mkIpc {H}.
Arguments ip_cap {H}.
Arguments ip_sched {H}.
Arguments endpoints {H}.
Arguments msgs {H}.
Arguments s_endpoint_cache_inited {H}.
Arguments s_ipc_msg_cache_inited {H}.
Arguments s_next_endpoint_id {H}.

(** [memcpy] of [n] bytes between two byte arrays; [None] when [n] leaves one
    of them. *)
Definition copy_bytes (dst src : list Z) (n : Z) : option (list Z) :=
  if (Z.of_nat (length dst) <? n) || (Z.of_nat (length src) <? n) then None
  else Some (take (Z.to_nat n) src ++ drop (Z.to_nat n) dst).

Definition zero_bytes : list Z := replicate (Z.to_nat IPC_MSG_INLINE_MAX) 0.

Section ops.
Context {H : Type} {OH : ObjHeap H}.
Abbreviation IM := (M (ipc_state H)).

Definition cap_lens : lens (ipc_state H) (cap_state H) :=
  mkLens ip_cap (λ x s, mkIpc x (ip_sched s) (endpoints s) (msgs s) (s_endpoint_cache_inited s)
    (s_ipc_msg_cache_inited s) (s_next_endpoint_id s)).
Definition sched_lens : lens (ipc_state H) sched_state :=
  mkLens ip_sched (λ x s, mkIpc (ip_cap s) x (endpoints s) (msgs s) (s_endpoint_cache_inited s)
    (s_ipc_msg_cache_inited s) (s_next_endpoint_id s)).

(** All caches share one object heap. *)
Definition heap_op {A} (m : M H A) : IM A := zoom cap_lens (zoom heap_lens m).

Definition set_eps (f : gmap Z endpoint → gmap Z endpoint) : IM unit :=
  modify (λ s, mkIpc (ip_cap s) (ip_sched s) (f (endpoints s)) (msgs s) (s_endpoint_cache_inited s)
    (s_ipc_msg_cache_inited s) (s_next_endpoint_id s)).
Definition set_msgs (f : gmap Z ipc_msg → gmap Z ipc_msg) : IM unit :=
  modify (λ s, mkIpc (ip_cap s) (ip_sched s) (endpoints s) (f (msgs s)) (s_endpoint_cache_inited s)
    (s_ipc_msg_cache_inited s) (s_next_endpoint_id s)).
Definition get_ep (e : Z) : IM endpoint := s <- get_st ;; load (endpoints s !! e).
Definition get_msg (m : Z) : IM ipc_msg := s <- get_st ;; load (msgs s !! m).

(** ** ipc_message.c *)

(** [slab_cache_init] on the static caches is the initial state of the heap
    interface: what is left is the flag. *)
Definition ipc_msg_cache_init : IM unit :=
  modify (λ s, mkIpc (ip_cap s) (ip_sched s) (endpoints s) (msgs s) (s_endpoint_cache_inited s)
    true (s_next_endpoint_id s)).

Definition ipc_msg_alloc : IM Z :=
  ASSERT_THREAD_CONTEXT ;;;
  b <- gets s_ipc_msg_cache_inited ;;
  (if negb b then panic "ipc_msg_alloc: cache not initialized" else ret tt) ;;;
  m <- heap_op (oh_alloc CIpcMsg) ;;
  if m =? 0 then panic "ipc_msg_alloc: OOM"
  else set_msgs <[m := mkMsg 0 0 0 0 zero_bytes]> ;;; ret m.

Definition ipc_msg_free (m : Z) : IM unit :=
  ASSERT_THREAD_CONTEXT ;;;
  if m =? 0 then ret tt
  else
    b <- gets s_ipc_msg_cache_inited ;;
    (if negb b then panic "ipc_msg_free: cache not initialized" else ret tt) ;;;
    heap_op (oh_free CIpcMsg m) ;;;
    set_msgs (delete m).

(** ** endpoint.c: objects *)

Definition endpoint_cache_init : IM unit :=
  modify (λ s, mkIpc (ip_cap s) (ip_sched s) (endpoints s) (msgs s) true
    (s_ipc_msg_cache_inited s) (s_next_endpoint_id s)).

Definition endpoint_alloc : IM Z :=
  ASSERT_THREAD_CONTEXT ;;;
  b <- gets s_endpoint_cache_inited ;;
  (if negb b then panic "endpoint_alloc: cache not initialized" else ret tt) ;;;
  e <- heap_op (oh_alloc CEndpoint) ;;
  if e =? 0 then panic "endpoint_alloc: OOM"
  else
    n <- gets s_next_endpoint_id ;;
    set_eps <[e := mkEp n 0 0 0 false]> ;;;
    modify (λ s, mkIpc (ip_cap s) (ip_sched s) (endpoints s) (msgs s) (s_endpoint_cache_inited s)
      (s_ipc_msg_cache_inited s) (u64 (n + 1))) ;;;
    ret e.

(** [out] says whether [out_ep] is not NULL. *)
Definition endpoint_create (out : bool) : IM (Z + Z) :=
  if negb out then ret (inl KS_STATUS_INVALID_ARG)
  else
    e <- endpoint_alloc ;;
    if e =? 0 then ret (inl KS_STATUS_OUT_OF_MEMORY) else ret (inr e).

Definition endpoint_free (e : Z) : IM unit :=
  ASSERT_THREAD_CONTEXT ;;;
  if e =? 0 then ret tt
  else
    b <- gets s_endpoint_cache_inited ;;
    (if negb b then panic "endpoint_free: cache not initialized" else ret tt) ;;;
    heap_op (oh_free CEndpoint e) ;;;
    set_eps (delete e).

(** ** endpoint.c: the queue *)

Definition q_push_tail (e m : Z) : IM unit :=
  ep <- get_ep e ;;
  v <- get_msg m ;;
  set_msgs <[m := mkMsg 0 (q_tail ep) (m_tag v) (m_len v) (m_data v)]> ;;;
  if negb (q_tail ep =? 0) then
    w <- get_msg (q_tail ep) ;;
    set_msgs <[q_tail ep := mkMsg m (m_prev w) (m_tag w) (m_len w) (m_data w)]> ;;;
    set_eps <[e := mkEp (ep_id ep) (q_head ep) m (waiting_recv ep) (closed ep)]>
  else set_eps <[e := mkEp (ep_id ep) m m (waiting_recv ep) (closed ep)]>.

Definition q_pop_head (e : Z) : IM Z :=
  ep <- get_ep e ;;
  let m := q_head ep in
  if m =? 0 then ret 0
  else
    v <- get_msg m ;;
    let n := m_next v in
    (if negb (n =? 0) then
       w <- get_msg n ;;
       set_msgs <[n := mkMsg (m_next w) 0 (m_tag w) (m_len w) (m_data w)]> ;;;
       set_eps <[e := mkEp (ep_id ep) n (q_tail ep) (waiting_recv ep) (closed ep)]>
     else set_eps <[e := mkEp (ep_id ep) n 0 (waiting_recv ep) (closed ep)]>) ;;;
    v <- get_msg m ;;
    set_msgs <[m := mkMsg 0 0 (m_tag v) (m_len v) (m_data v)]> ;;;
    ret m.

(** ** endpoint.c: operations on handles *)

(** [inr e] is the endpoint with [KS_IPC_OK]. *)
Definition endpoint_from_handle (caps h need : Z) : IM (ks_ipc_status + Z) :=
  if caps =? 0 then ret (inl KS_IPC_ERR_INVALID)
  else
    ent <- zoom cap_lens (cap_lookup caps h need) ;;
    if ent =? 0 then ret (inl KS_IPC_ERR_RIGHTS)
    else
      v <- zoom cap_lens (get_entry ent) ;;
      if negb (bool_decide (type v = CAP_TYPE_ENDPOINT)) || (obj v =? 0) then ret (inl KS_IPC_ERR_INVALID)
      else ret (inr (obj v)).

Definition endpoint_create_cap (caps rts : Z) (out : bool) : IM (ks_ipc_status + Z) :=
  ASSERT_THREAD_CONTEXT ;;;
  if (caps =? 0) || negb out then ret (inl KS_IPC_ERR_INVALID)
  else
    b <- gets s_endpoint_cache_inited ;;
    (if negb b then endpoint_cache_init else ret tt) ;;;
    e <- endpoint_alloc ;;
    if e =? 0 then ret (inl KS_IPC_ERR_NO_MEM)
    else
      let eff := Z.lor rts CAP_R_DROP in
      r <- zoom cap_lens (cap_create caps CAP_TYPE_ENDPOINT eff e true) ;;
      match r with
      | inr h => ret (inr h)
      | inl st =>
        endpoint_free e ;;;
        ret (inl (if decide (st = CAP_ERR_NO_MEM) then KS_IPC_ERR_NO_MEM else KS_IPC_ERR_INVALID))
      end.

(** [msg = None] is a NULL pointer. *)
Definition ipc_send_cap (caps h : Z) (msg : option ks_ipc_msg) : IM ks_ipc_status :=
  ASSERT_THREAD_CONTEXT ;;;
  match msg with
  | None => ret KS_IPC_ERR_INVALID
  | Some msg =>
    if KS_IPC_MSG_MAX <? ks_len msg then ret KS_IPC_ERR_INVALID
    else
      r <- endpoint_from_handle caps h CAP_R_SEND ;;
      match r with
      | inl status => ret status
      | inr e =>
        ep <- get_ep e ;;
        if closed ep then ret KS_IPC_ERR_CLOSED
        else
          m <- ipc_msg_alloc ;;
          if m =? 0 then ret KS_IPC_ERR_NO_MEM
          else
            v <- get_msg m ;;
            d <- (if 0 <? ks_len msg then load (copy_bytes (m_data v) (ks_data msg) (ks_len msg))
                  else ret (m_data v)) ;;
            set_msgs <[m := mkMsg (m_next v) (m_prev v) (ks_tag msg) (ks_len msg) d]> ;;;
            flags <- irq_save ;;
            q_push_tail e m ;;;
            ep <- get_ep e ;;
            let w := waiting_recv ep in
            (if negb (w =? 0) then
               set_eps <[e := mkEp (ep_id ep) (q_head ep) (q_tail ep) 0 (closed ep)]> ;;;
               zoom sched_lens (sched_wake w)
             else ret tt) ;;;
            irq_restore flags ;;;
            ret KS_IPC_OK
      end
  end.

(** The copy to the caller's buffer [out] and the release of message [m]. *)
Definition deliver (m : Z) (out : ks_ipc_msg) : IM ks_ipc_msg :=
  v <- get_msg m ;;
  let len := if KS_IPC_MSG_MAX <? m_len v then KS_IPC_MSG_MAX else m_len v in
  d <- (if 0 <? len then load (copy_bytes (ks_data out) (m_data v) len) else ret (ks_data out)) ;;
  ipc_msg_free m ;;;
  ret (mkKsMsg (m_tag v) len d).

(** One turn of the loop of [ipc_recv_cap] up to [sched_block_current]:
    [inl] is a return, [inr tt] goes on to block. *)
Definition recv_poll (e : Z) (out : ks_ipc_msg) : IM (ks_ipc_status * ks_ipc_msg + unit) :=
  flags <- irq_save ;;
  m <- q_pop_head e ;;
  if negb (m =? 0) then
    irq_restore flags ;;;
    out' <- deliver m out ;;
    ret (inl (KS_IPC_OK, out'))
  else
    ep <- get_ep e ;;
    if closed ep then irq_restore flags ;;; ret (inl (KS_IPC_ERR_CLOSED, out))
    else
      cur <- zoom sched_lens sched_current ;;
      if cur =? 0 then irq_restore flags ;;; ret (inl (KS_IPC_ERR_INVALID, out))
      else if negb (waiting_recv ep =? 0) && negb (waiting_recv ep =? cur) then
        irq_restore flags ;;; ret (inl (KS_IPC_ERR_RIGHTS, out))
      else
        set_eps <[e := mkEp (ep_id ep) (q_head ep) (q_tail ep) cur (closed ep)]> ;;;
        irq_restore flags ;;;
        ret (inr tt).

(** How one turn ends: the call returns, goes round again at once ([Stay]), or
    the thread is switched away inside [sched_block_current]. *)
Inductive recv_turn := Returned (st : ks_ipc_status) (out : ks_ipc_msg) | Turned (r : resume).

Definition recv_iter (e : Z) (out : ks_ipc_msg) (sp : Z) : IM recv_turn :=
  r <- recv_poll e out ;;
  match r with
  | inl (st, out') => ret (Returned st out')
  | inr _ => r <- zoom sched_lens (sched_block_current sp) ;; ret (Turned r)
  end.

(** [ipc_recv_cap] up to the end of its first turn.  When the thread runs
    again after [Turned (CtxSwitch _ _ flags)] it restores [flags] and starts
    the next turn, [recv_iter e]. *)
Definition ipc_recv_cap (caps h : Z) (out : option ks_ipc_msg) (sp : Z)
    : IM (ks_ipc_status + Z * recv_turn) :=
  ASSERT_THREAD_CONTEXT ;;;
  match out with
  | None => ret (inl KS_IPC_ERR_INVALID)
  | Some out =>
    r <- endpoint_from_handle caps h CAP_R_RECV ;;
    match r with
    | inl status => ret (inl status)
    | inr e => t <- recv_iter e out sp ;; ret (inr (e, t))
    end
  end.

Definition ipc_try_recv_cap (caps h : Z) (out : option ks_ipc_msg) : IM (ks_ipc_status * option ks_ipc_msg) :=
  ASSERT_THREAD_CONTEXT ;;;
  match out with
  | None => ret (KS_IPC_ERR_INVALID, None)
  | Some out =>
    r <- endpoint_from_handle caps h CAP_R_RECV ;;
    match r with
    | inl status => ret (status, Some out)
    | inr e =>
      flags <- irq_save ;;
      m <- q_pop_head e ;;
      if m =? 0 then
        irq_restore flags ;;;
        ep <- get_ep e ;;
        if closed ep then ret (KS_IPC_ERR_CLOSED, Some out) else ret (KS_IPC_ERR_EMPTY, Some out)
      else
        irq_restore flags ;;;
        out' <- deliver m out ;;
        ret (KS_IPC_OK, Some out')
    end
  end.
End ops.

(** ** What the pointers represent *)

Definition payload : Type := Z * list Z.
Definition payload_of (v : ipc_msg) : payload := (m_tag v, take (Z.to_nat (m_len v)) (m_data v)).
Definition msg_ok (v : ipc_msg) : Prop := 0 ≤ m_len v ≤ KS_IPC_MSG_MAX ∧ length (m_data v) = 128%nat.
Definition carries (ms : gmap Z ipc_msg) (m : Z) (p : payload) : Prop :=
  ∃ v, ms !! m = Some v ∧ payload_of v = p ∧ msg_ok v.
Definition next_of (ms : gmap Z ipc_msg) (m : Z) : option Z := m_next <$> ms !! m.
Definition prev_of (ms : gmap Z ipc_msg) (m : Z) : option Z := m_prev <$> ms !! m.

(** The endpoint [ep] queues the messages [l], which carry [ps]. *)
Record q_rep (ms : gmap Z ipc_msg) (ep : endpoint) (l : list Z) (ps : list payload) : Prop := {
  qr_head : q_head ep = hd 0 l;
  qr_tail : q_tail ep = List.last l 0;
  qr_next : links (next_of ms) l 0;
  qr_prev : links (prev_of ms) (reverse l) 0;
  qr_nodup : NoDup l;
  qr_carries : Forall2 (carries ms) l ps;
}.

Lemma hd_reverse (l : list Z) d : hd d (reverse l) = List.last l d.
Proof.
  destruct l as [|x l _] using rev_ind; [done|]. by rewrite reverse_app, last_snoc.
Qed.

Lemma carries_insert_ne ms m m' p v : m' ≠ m → carries (<[m := v]> ms) m' p ↔ carries ms m' p.
Proof. intros. unfold carries. by rewrite lookup_insert_ne. Qed.

Lemma next_insert_ne ms m m' v : m' ≠ m → next_of (<[m := v]> ms) m' = next_of ms m'.
Proof. intros. unfold next_of. by rewrite lookup_insert_ne. Qed.
Lemma prev_insert_ne ms m m' v : m' ≠ m → prev_of (<[m := v]> ms) m' = prev_of ms m'.
Proof. intros. unfold prev_of. by rewrite lookup_insert_ne. Qed.

Lemma q_rep_lookup ms ep l ps m : q_rep ms ep l ps → m ∈ l → is_Some (ms !! m).
Proof.
  intros Hr Hm. apply list_elem_of_lookup in Hm as [i Hi].
  destruct (Forall2_lookup_l _ _ _ _ _ (qr_carries _ _ _ _ Hr) Hi) as (p & _ & v & Hv & _). by eexists.
Qed.

(** Messages outside the queue, and the receiver, do not matter. *)
Lemma q_rep_frame ms ms' ep ep' l ps : q_rep ms ep l ps → q_head ep' = q_head ep → q_tail ep' = q_tail ep →
  (∀ m, m ∈ l → ms' !! m = ms !! m) → q_rep ms' ep' l ps.
Proof.
  intros [Hh Ht Hn Hp Hd Hc] Eh Et Em. split; [by rewrite Eh|by rewrite Et|..|done|].
  - eapply links_ext; [|exact Hn]. intros m Hm. unfold next_of. by rewrite Em.
  - eapply links_ext; [|exact Hp]. intros m Hm. rewrite elem_of_reverse in Hm. unfold prev_of. by rewrite Em.
  - apply Forall2_same_length_lookup. split; [by eapply Forall2_length|]. intros i m p Hi Hpi.
    destruct (Forall2_lookup_lr _ _ _ _ _ _ Hc Hi Hpi) as (v & Hv & Hr). exists v. split; [|done].
    rewrite Em; [done|]. by eapply list_elem_of_lookup_2.
Qed.

Lemma q_rep_push_empty ms ep m v :
  q_rep ms ep [] [] → ms !! m = Some v → msg_ok v →
  q_rep (<[m := mkMsg 0 0 (m_tag v) (m_len v) (m_data v)]> ms)
    (mkEp (ep_id ep) m m (waiting_recv ep) (closed ep)) [m] [payload_of v].
Proof.
  intros Hr Hv Hok. split; cbn; try done.
  - unfold next_of. by rewrite lookup_insert_eq.
  - unfold prev_of. by rewrite lookup_insert_eq.
  - apply NoDup_singleton.
  - constructor; [|done]. eexists. by rewrite lookup_insert_eq.
Qed.

Lemma q_rep_push ms ep l tl ps m v w :
  q_rep ms ep (l ++ [tl]) ps → ms !! m = Some v → msg_ok v → m ∉ l ++ [tl] → ms !! tl = Some w →
  q_rep (<[tl := mkMsg m (m_prev w) (m_tag w) (m_len w) (m_data w)]>
          (<[m := mkMsg 0 tl (m_tag v) (m_len v) (m_data v)]> ms))
    (mkEp (ep_id ep) (q_head ep) m (waiting_recv ep) (closed ep)) ((l ++ [tl]) ++ [m]) (ps ++ [payload_of v]).
Proof.
  intros [Hh Ht Hn Hp Hd Hc] Hv Hok Hm Hw. set (ms' := <[tl := _]> _).
  assert (m ≠ tl) as Hne by set_solver. apply NoDup_app in Hd as (Hd & Hdis & _).
  assert (∀ x, x ∈ l → x ≠ tl ∧ x ≠ m) as Hl.
  { intros x Hx. split; intros ->; [apply (Hdis tl Hx)|apply Hm]; set_solver. }
  assert (ms' !! tl = Some (mkMsg m (m_prev w) (m_tag w) (m_len w) (m_data w))) as Etl
    by (unfold ms'; by rewrite lookup_insert_eq).
  assert (ms' !! m = Some (mkMsg 0 tl (m_tag v) (m_len v) (m_data v))) as Em
    by (unfold ms'; by rewrite lookup_insert_ne, lookup_insert_eq).
  assert (∀ x, x ≠ tl → x ≠ m → ms' !! x = ms !! x) as Eo by (intros; unfold ms'; by rewrite !lookup_insert_ne).
  split; cbn [q_head q_tail].
  - rewrite Hh. by destruct l.
  - by rewrite last_snoc.
  - rewrite !links_snoc in *. destruct Hn as [Hn _]. split_and!.
    + eapply links_ext; [|exact Hn]. intros x Hx%Hl. unfold next_of. rewrite Eo; naive_solver.
    + unfold next_of. by rewrite Etl.
    + unfold next_of. by rewrite Em.
  - rewrite !reverse_app in *. cbn in *. destruct Hp as [Hp1 Hp2]. split_and!.
    + unfold prev_of. by rewrite Em.
    + unfold prev_of in *. rewrite Etl. rewrite Hw in Hp1. done.
    + eapply links_ext; [|exact Hp2]. intros x Hx. rewrite elem_of_reverse in Hx. apply Hl in Hx. unfold prev_of. rewrite Eo; naive_solver.
  - apply NoDup_app. split_and!; [apply NoDup_app; split_and!; [done|done|apply NoDup_singleton]| |apply NoDup_singleton].
    intros x Hx ->%list_elem_of_singleton. done.
  - apply Forall2_app; [|constructor; [|done]; eexists; by split; [exact Em|]].
    apply Forall2_same_length_lookup. split; [by eapply Forall2_length|]. intros i x p Hi Hpi.
    destruct (Forall2_lookup_lr _ _ _ _ _ _ Hc Hi Hpi) as (u & Hu & Hpay & Hmok).
    destruct (decide (x = tl)) as [->|Hxt].
    { eexists. split; [exact Etl|]. rewrite Hw in Hu. by injection Hu as <-. }
    exists u. split; [|done]. rewrite Eo; [done|done|]. intros ->. apply Hm. by eapply list_elem_of_lookup_2.
Qed.

Lemma q_rep_pop_last ms ep m p : q_rep ms ep [m] [p] →
  q_rep ms (mkEp (ep_id ep) 0 0 (waiting_recv ep) (closed ep)) [] [].
Proof. intros Hr. split; cbn; try done. constructor. Qed.

Lemma q_rep_pop ms ep m n l p ps w :
  q_rep ms ep (m :: n :: l) (p :: ps) → ms !! n = Some w →
  q_rep (<[n := mkMsg (m_next w) 0 (m_tag w) (m_len w) (m_data w)]> ms)
    (mkEp (ep_id ep) n (q_tail ep) (waiting_recv ep) (closed ep)) (n :: l) ps.
Proof.
  intros [Hh Ht Hn Hp Hd Hc] Hw. set (ms' := <[n := _]> ms).
  apply NoDup_cons in Hd as [Hm Hd]. pose proof Hd as Hd'. apply NoDup_cons in Hd' as [Hnl _].
  assert (ms' !! n = Some (mkMsg (m_next w) 0 (m_tag w) (m_len w) (m_data w))) as En
    by (unfold ms'; by rewrite lookup_insert_eq).
  assert (∀ x, x ≠ n → ms' !! x = ms !! x) as Eo by (intros; unfold ms'; by rewrite lookup_insert_ne).
  apply Forall2_cons in Hc as [_ Hc]. split; cbn [q_head q_tail]; [done|by rewrite Ht| | |done|].
  - destruct Hn as (_ & Hn1 & Hn2). split.
    + unfold next_of in *. rewrite En. rewrite Hw in Hn1. done.
    + eapply links_ext; [|exact Hn2]. intros x Hx. unfold next_of. rewrite Eo; [done|]. by intros ->.
  - rewrite !reverse_cons in Hp. rewrite reverse_cons. rewrite !links_snoc in *. destruct Hp as [[Hp _] _]. split.
    + eapply links_ext; [|exact Hp]. intros x Hx. rewrite elem_of_reverse in Hx. unfold prev_of. rewrite Eo; [done|]. by intros ->.
    + unfold prev_of. by rewrite En.
  - apply Forall2_same_length_lookup. split; [by eapply Forall2_length|]. intros i x q Hi Hpi.
    destruct (Forall2_lookup_lr _ _ _ _ _ _ Hc Hi Hpi) as (u & Hu & Hpay & Hmok).
    destruct (decide (x = n)) as [->|Hx]; [|by exists u; rewrite Eo].
    eexists. split; [exact En|]. rewrite Hw in Hu. by injection Hu as <-.
Qed.

(** ** The invariant *)

Section spec.
Context {H : Type} {OH : ObjHeap H}.
Implicit Types (s : ipc_state H) (lv : lives) (ql : Z → list Z) (box : Z → list payload) (X : gset Z).

Definition on {A} (e : Z) (x : A) (f : Z → A) : Z → A := λ i, if decide (i = e) then x else f i.
Lemma on_eq {A} e (x : A) f : on e x f e = x.
Proof. unfold on. by rewrite decide_True. Qed.
Lemma on_ne {A} e i (x : A) f : i ≠ e → on e x f i = f i.
Proof. intros. unfold on. by rewrite decide_False. Qed.

(** [ql e] are the messages queued at endpoint [e], [box e] what they carry,
    [rq] the ready queues, and [X] the messages owned by a running operation:
    every message is in one queue or in [X], so none is leaked.  Capabilities
    of endpoint type designate endpoints, waiting receivers are threads. *)
Record ipc_inv s lv ql box (rq : queues) X : Prop := {
  ii_cap : cap_inv (ip_cap s) lv;
  ii_sched : sched_inv (ip_sched s) rq;
  ii_running : ∀ t, threads (ip_sched s) !! s_current (ip_sched s) = Some t → state t = RUNNING;
  ii_eps : dom (endpoints s) = lv CEndpoint;
  ii_msgs : dom (msgs s) = lv CIpcMsg;
  ii_inited : s_endpoint_cache_inited s = true ∧ s_ipc_msg_cache_inited s = true;
  ii_queue : ∀ e ep, endpoints s !! e = Some ep → q_rep (msgs s) ep (ql e) (box e);
  ii_none : ∀ e, endpoints s !! e = None → ql e = [] ∧ box e = [];
  ii_disj : ∀ e e' m, m ∈ ql e → m ∈ ql e' → e = e';
  ii_loose : ∀ m, m ∈ X ↔ m ∈ dom (msgs s) ∧ ∀ e, m ∉ ql e;
  ii_view : ∀ t h r e, 0 ≤ h < 2 ^ 64 → cap_view (ip_cap s) t h = Some (CAP_TYPE_ENDPOINT, r, e) → e ≠ 0 →
    is_Some (endpoints s !! e);
  ii_wait : ∀ e ep, endpoints s !! e = Some ep → waiting_recv ep ≠ 0 →
    is_Some (threads (ip_sched s) !! waiting_recv ep) ∧ waiting_recv ep ≠ bootstrap (ip_sched s);
}.

Section inv.
Context s lv ql box rq X (I : ipc_inv s lv ql box rq X).

Lemma queued_ep e m : m ∈ ql e → ∃ ep, endpoints s !! e = Some ep ∧ q_rep (msgs s) ep (ql e) (box e).
Proof.
  intros Hm. destruct (endpoints s !! e) as [ep|] eqn:He; [|by rewrite (proj1 (ii_none _ _ _ _ _ _ I e He)) in Hm; apply elem_of_nil in Hm].
  exists ep. split; [done|]. by apply (ii_queue _ _ _ _ _ _ I).
Qed.

Lemma queued_msg e m : m ∈ ql e → is_Some (msgs s !! m).
Proof. intros Hm. destruct (queued_ep e m Hm) as (ep & _ & Hr). by eapply q_rep_lookup. Qed.

Lemma msg_nonnull m : is_Some (msgs s !! m) → m ≠ 0.
Proof.
  intros Hm%elem_of_dom ->. rewrite (ii_msgs _ _ _ _ _ _ I) in Hm. revert Hm.
  apply (oh_rep_nonnull _ _ _ (ci_heap _ _ (ii_cap _ _ _ _ _ _ I))).
Qed.

Lemma ep_nonnull e : is_Some (endpoints s !! e) → e ≠ 0.
Proof.
  intros Hm%elem_of_dom ->. rewrite (ii_eps _ _ _ _ _ _ I) in Hm. revert Hm.
  apply (oh_rep_nonnull _ _ _ (ci_heap _ _ (ii_cap _ _ _ _ _ _ I))).
Qed.

Lemma head_zero e ep : endpoints s !! e = Some ep → q_head ep = 0 → ql e = [] ∧ box e = [].
Proof.
  intros He Hh. pose proof (ii_queue _ _ _ _ _ _ I _ _ He) as Hr. rewrite (qr_head _ _ _ _ Hr) in Hh.
  pose proof (Forall2_length _ _ _ (qr_carries _ _ _ _ Hr)) as Hlen.
  destruct (ql e) as [|m l] eqn:E; [split; [done|]; by destruct (box e)|].
  exfalso. apply (msg_nonnull m); [|done]. apply (queued_msg e). rewrite E. left.
Qed.
End inv.

(** The capability space is untouched: only the object heap moved. *)
Definition caps_kept s s' : Prop :=
  tables (ip_cap s') = tables (ip_cap s) ∧ entries (ip_cap s') = entries (ip_cap s).

Lemma caps_kept_view s s' t h : caps_kept s s' → cap_view (ip_cap s') t h = cap_view (ip_cap s) t h.
Proof. intros [Et Ee]. unfold cap_view, entry_of. by rewrite Et, Ee. Qed.

Lemma cap_inv_heap (k : cap_state H) lv h' lv' : cap_inv k lv → oh_rep h' lv' → lv' CCapEntry = lv CCapEntry →
  cap_inv (mkCapState (tables k) (entries k) h' (inited k)) lv'.
Proof. intros [] Hh E. split; try done. cbn. by rewrite E. Qed.

(** *** Access *)

Lemma wp_get_ep e ep Q c s : endpoints s !! e = Some ep → Q ep c s → wp (get_ep e) Q c s.
Proof. intros He HQ. unfold get_ep. wp_steps. rewrite He. by wp_steps. Qed.
Lemma wp_get_msg m v Q c s : msgs s !! m = Some v → Q v c s → wp (get_msg m) Q c s.
Proof. intros Hm HQ. unfold get_msg. wp_steps. rewrite Hm. by wp_steps. Qed.

Lemma wp_from_handle t tbl h need Q c s lv ql box rq X :
  ipc_inv s lv ql box rq X → tables (ip_cap s) !! t = Some tbl → 0 ≤ h < 2 ^ 64 →
  (∀ r e ep, cap_view (ip_cap s) t h = Some (CAP_TYPE_ENDPOINT, r, e) → cap_rights_has r need = true →
     endpoints s !! e = Some ep → Q (inr e) c s) →
  ((∀ ty r ob, cap_view (ip_cap s) t h = Some (ty, r, ob) → cap_rights_has r need = false) →
     Q (inl KS_IPC_ERR_RIGHTS) c s) →
  (∀ ty r ob, cap_view (ip_cap s) t h = Some (ty, r, ob) → cap_rights_has r need = true →
     ty ≠ CAP_TYPE_ENDPOINT ∨ ob = 0 → Q (inl KS_IPC_ERR_INVALID) c s) →
  wp (endpoint_from_handle t h need) Q c s.
Proof.
  intros I Ht Hh Hok Hno Hbad. unfold endpoint_from_handle.
  assert (∀ s, lset cap_lens (ip_cap s) s = s) as Eta by (by intros []).
  destruct (Z.eqb_spec t 0) as [->|_]; [by rewrite (ci_null _ _ (ii_cap _ _ _ _ _ _ I)) in Ht|].
  wp_step. apply wp_zoom. cbn [lget cap_lens]. eapply wp_cap_lookup; [apply I|done| |].
  - intros a v Ha Hr Ha0 Hv. rewrite Eta. destruct (Z.eqb_spec a 0); [done|]. wp_step. apply wp_zoom. cbn [lget cap_lens].
    assert (cap_view (ip_cap s) t h = Some (type v, rights v, obj v)) as Hview by (unfold cap_view; by rewrite Ha).
    unfold get_entry. wp_steps. rewrite Hv. wp_steps. rewrite Eta.
    destruct (bool_decide_reflect (type v = CAP_TYPE_ENDPOINT)) as [Ety|Ety]; cbn [negb orb].
    + rewrite Ety in Hview. destruct (Z.eqb_spec (obj v) 0) as [E0|E0]; wp_steps.
      * eapply Hbad; [done|done|by right].
      * destruct (ii_view _ _ _ _ _ _ I _ _ _ _ Hh Hview E0) as [ep Hep]. by eapply Hok.
    + wp_steps. eapply Hbad; [done|done|by left].
  - intros Hn. rewrite Eta, Z.eqb_refl. wp_steps. by apply Hno.
Qed.

(** *** Rebuilding the invariant after a change of queues and messages *)
Lemma inv_update s s' lv lv' ql ql' box box' rq X X' :
  ipc_inv s lv ql box rq X → caps_kept s s' → cap_inv (ip_cap s') lv' → ip_sched s' = ip_sched s →
  s_endpoint_cache_inited s' = s_endpoint_cache_inited s → s_ipc_msg_cache_inited s' = s_ipc_msg_cache_inited s →
  dom (endpoints s') = dom (endpoints s) → lv' CEndpoint = lv CEndpoint →
  (∀ e ep', endpoints s' !! e = Some ep' → waiting_recv ep' ≠ 0 →
     ∃ ep, endpoints s !! e = Some ep ∧ waiting_recv ep' = waiting_recv ep) →
  dom (msgs s') = lv' CIpcMsg →
  (∀ e ep, endpoints s' !! e = Some ep → q_rep (msgs s') ep (ql' e) (box' e)) →
  (∀ e, endpoints s !! e = None → ql' e = [] ∧ box' e = []) →
  (∀ e e' m, m ∈ ql' e → m ∈ ql' e' → e = e') →
  (∀ m, m ∈ X' ↔ m ∈ dom (msgs s') ∧ ∀ e, m ∉ ql' e) →
  ipc_inv s' lv' ql' box' rq X'.
Proof.
  intros I Hc Hk Es Ef1 Ef2 Ed El Hw Hm Hq Hnone Hdis Hloose. split; try done.
  - rewrite Es. apply I.
  - rewrite Es. apply I.
  - rewrite Ed, El. apply I.
  - rewrite Ef1, Ef2. apply I.
  - intros e He. apply Hnone. apply not_elem_of_dom. rewrite <- Ed. by apply not_elem_of_dom.
  - intros t h r e Hh Hv He. rewrite (caps_kept_view s s') in Hv by done.
    apply elem_of_dom. rewrite Ed. apply elem_of_dom. by eapply (ii_view _ _ _ _ _ _ I).
  - intros e ep' He' Hne. rewrite Es. destruct (Hw e ep' He' Hne) as (ep & He & E). rewrite E in *.
    by apply (ii_wait _ _ _ _ _ _ I e).
Qed.

(** What an internal step keeps: the capabilities and the scheduler. *)
Definition kept s s' : Prop := caps_kept s s' ∧ ip_sched s' = ip_sched s.

#[global] Instance kept_preorder : PreOrder kept.
Proof.
  split; [done|]. intros x y z [[] ?] [[] ?]. split; [split|]; congruence.
Qed.

Lemma loose_msg s lv ql box rq X m : ipc_inv s lv ql box rq X → m ∈ X →
  is_Some (msgs s !! m) ∧ m ≠ 0 ∧ ∀ e, m ∉ ql e.
Proof.
  intros I [Hd Hq]%(ii_loose _ _ _ _ _ _ I). apply elem_of_dom in Hd. split_and!; [done| |done].
  by eapply msg_nonnull.
Qed.

Lemma alloc_correct c s lv ql box rq X :
  ipc_inv s lv ql box rq X → irq_depth c = 0 →
  wpe ipc_msg_alloc (λ m c' s', c' = c ∧ m ≠ 0 ∧ (m ∉ X) ∧ kept s s' ∧ endpoints s' = endpoints s ∧
    msgs s' !! m = Some (mkMsg 0 0 0 0 zero_bytes) ∧
    ∃ lv', ipc_inv s' lv' ql box rq ({[m]} ∪ X)) (λ x, x = "ipc_msg_alloc: OOM") c s.
Proof.
  intros I Hd. unfold ipc_msg_alloc. wpe_step. apply wp_assert_thread; [done|].
  wpe_step. wp_step. rewrite (proj2 (ii_inited _ _ _ _ _ _ I)). cbn [negb]. wpe_step. wp_step.
  wpe_step. unfold heap_op. apply wp_zoom, wp_zoom. cbn [lget lset cap_lens heap_lens].
  pose proof (ii_cap _ _ _ _ _ _ I) as Hc.
  eapply wp_mono; [by apply oh_alloc_spec, Hd; apply Hc|]. cbv beta. intros m c' h' [-> [[-> Hh]|(Hm0 & Hnew & Hh)]].
  { rewrite Z.eqb_refl. by apply wpe_panic. }
  destruct (Z.eqb_spec m 0); [done|]. apply wpe_wp. unfold set_msgs. wp_steps.
  assert (∀ e, m ∉ ql e) as Hmq.
  { intros e Hq. apply (queued_msg _ _ _ _ _ _ I), elem_of_dom in Hq. rewrite (ii_msgs _ _ _ _ _ _ I) in Hq. done. }
  assert (m ∉ dom (msgs s)) as Hmd by (by rewrite (ii_msgs _ _ _ _ _ _ I)).
  assert (m ∉ X) as HmX by (intros [? _]%(ii_loose _ _ _ _ _ _ I); done).
  split_and!; try done; [cbn; by rewrite lookup_insert_eq|].
  exists (upd CIpcMsg ({[m]} ∪ lv CIpcMsg) lv). eapply inv_update; [exact I|..]; cbn; try done.
  - by eapply cap_inv_heap.
  - intros e ep He _. by exists ep.
  - rewrite dom_insert_L, upd_eq. by rewrite (ii_msgs _ _ _ _ _ _ I).
  - intros e ep He. eapply q_rep_frame; [by apply (ii_queue _ _ _ _ _ _ I)|done|done|].
    intros x Hx. rewrite lookup_insert_ne; [done|]. intros ->. by apply (Hmq e).
  - apply I.
  - apply I.
  - intros x. rewrite dom_insert_L, !elem_of_union, elem_of_singleton, (ii_loose _ _ _ _ _ _ I). naive_solver.
Qed.

(** A message nobody queues may be rewritten. *)
Lemma fill_correct s lv ql box rq X m v : ipc_inv s lv ql box rq X → m ∈ X →
  ipc_inv (mkIpc (ip_cap s) (ip_sched s) (endpoints s) (<[m := v]> (msgs s)) (s_endpoint_cache_inited s)
    (s_ipc_msg_cache_inited s) (s_next_endpoint_id s)) lv ql box rq X.
Proof.
  intros I Hm. destruct (loose_msg _ _ _ _ _ _ _ I Hm) as (Hs & _ & Hq).
  assert (dom (<[m := v]> (msgs s)) = dom (msgs s)) as Ed.
  { rewrite dom_insert_L. apply elem_of_dom in Hs. set_solver. }
  eapply inv_update; [exact I|..]; cbn; try done; try apply I.
  - intros e ep He _. by exists ep.
  - rewrite Ed. apply I.
  - intros e ep He. eapply q_rep_frame; [by apply (ii_queue _ _ _ _ _ _ I)|done|done|].
    intros x Hx. rewrite lookup_insert_ne; [done|]. intros ->. by apply (Hq e).
  - intros x. rewrite Ed. apply I.
Qed.

Lemma free_correct m c s lv ql box rq X :
  ipc_inv s lv ql box rq X → irq_depth c = 0 → m ∈ X →
  wp (ipc_msg_free m) (λ _ c' s', c' = c ∧ kept s s' ∧ endpoints s' = endpoints s ∧
    ∃ lv', ipc_inv s' lv' ql box rq (X ∖ {[m]})) c s.
Proof.
  intros I Hd Hm. destruct (loose_msg _ _ _ _ _ _ _ I Hm) as (Hs & Hm0 & Hq).
  unfold ipc_msg_free. wp_step. apply wp_assert_thread; [done|]. destruct (Z.eqb_spec m 0); [done|].
  wp_steps. rewrite (proj2 (ii_inited _ _ _ _ _ _ I)). cbn [negb]. wp_steps.
  unfold heap_op. apply wp_zoom, wp_zoom. cbn [lget lset cap_lens heap_lens].
  pose proof (ii_cap _ _ _ _ _ _ I) as Hc. apply elem_of_dom in Hs. rewrite (ii_msgs _ _ _ _ _ _ I) in Hs.
  eapply wp_mono; [apply oh_free_spec; [apply Hc|done|exact Hs]|]. cbv beta. intros _ c' h' [-> Hh].
  unfold set_msgs. wp_steps. split_and!; try done.
  exists (upd CIpcMsg (lv CIpcMsg ∖ {[m]}) lv). eapply inv_update; [exact I|..]; cbn; try done; try apply I.
  - by eapply cap_inv_heap.
  - intros e ep He _. by exists ep.
  - rewrite dom_delete_L, upd_eq. by rewrite (ii_msgs _ _ _ _ _ _ I).
  - intros e ep He. eapply q_rep_frame; [by apply (ii_queue _ _ _ _ _ _ I)|done|done|].
    intros x Hx. rewrite lookup_delete_ne; [done|]. intros ->. by apply (Hq e).
  - intros x. rewrite dom_delete_L, !elem_of_difference, elem_of_singleton, (ii_loose _ _ _ _ _ _ I). naive_solver.
Qed.

(** A queue change at [e] that only touches its own messages and the loose one. *)
Lemma inv_requeue s s' lv ql box rq X X' e ep ep' l' ps' :
  ipc_inv s lv ql box rq X → kept s s' → ip_cap s' = ip_cap s →
  s_endpoint_cache_inited s' = s_endpoint_cache_inited s → s_ipc_msg_cache_inited s' = s_ipc_msg_cache_inited s →
  endpoints s !! e = Some ep → endpoints s' = <[e := ep']> (endpoints s) → waiting_recv ep' = waiting_recv ep →
  dom (msgs s') = dom (msgs s) → (∀ x e', e' ≠ e → x ∈ ql e' → msgs s' !! x = msgs s !! x) →
  q_rep (msgs s') ep' l' ps' → (∀ x e', x ∈ l' → x ∈ ql e' → e' = e) →
  (∀ m, m ∈ X' ↔ m ∈ dom (msgs s) ∧ (m ∉ l') ∧ ∀ e', e' ≠ e → m ∉ ql e') →
  ipc_inv s' lv (on e l' ql) (on e ps' box) rq X'.
Proof.
  intros I [Hk Es] Ec F1 F2 He Ee Ew Ed Eo Hr Hdis HX. eapply inv_update; [exact I|done|rewrite Ec; apply I|done|done|done|..].
  - rewrite Ee, dom_insert_L. apply elem_of_dom_2 in He. set_solver.
  - done.
  - rewrite Ee. intros e' ep0 [[<- <-]|[? ?]]%lookup_insert_Some Hne; [by exists ep|by exists ep0].
  - rewrite Ed. apply I.
  - rewrite Ee. intros e' ep0 [[<- <-]|[Hne He']]%lookup_insert_Some; [by rewrite !on_eq|].
    rewrite !on_ne by done. eapply q_rep_frame; [by apply (ii_queue _ _ _ _ _ _ I)|done|done|].
    intros x Hx. by apply (Eo x e').
  - intros e' He'. rewrite !on_ne by congruence. by apply I.
  - intros e1 e2 m. unfold on. do 2 case_decide; subst; try done; [| |by apply I]; intros Hm1 Hm2;
      [symmetry; by eapply Hdis|by eapply Hdis].
  - intros m. rewrite HX, Ed. split; intros [Hm Hq]; (split; [done|]).
    + intros e'. unfold on. case_decide; naive_solver.
    + split; [specialize (Hq e); by rewrite on_eq in Hq|]. intros e' Hne. specialize (Hq e'). by rewrite on_ne in Hq.
Qed.

Lemma dom_insert_same {A} (ms : gmap Z A) m v : is_Some (ms !! m) → dom (<[m := v]> ms) = dom ms.
Proof. intros Hs%elem_of_dom. rewrite dom_insert_L. set_solver. Qed.

Lemma push_correct e ep m v c s lv ql box rq X :
  ipc_inv s lv ql box rq X → endpoints s !! e = Some ep → m ∈ X → msgs s !! m = Some v → msg_ok v →
  wp (q_push_tail e m) (λ _ c' s', c' = c ∧ kept s s' ∧
    (∃ ep', endpoints s' = <[e := ep']> (endpoints s) ∧ waiting_recv ep' = waiting_recv ep ∧ closed ep' = closed ep) ∧
    ipc_inv s' lv (on e (ql e ++ [m]) ql) (on e (box e ++ [payload_of v]) box) rq (X ∖ {[m]})) c s.
Proof.
  intros I He Hm Hv Hok. destruct (loose_msg _ _ _ _ _ _ _ I Hm) as (_ & Hm0 & Hq).
  pose proof (ii_queue _ _ _ _ _ _ I _ _ He) as Hr. unfold q_push_tail.
  assert (∀ x e', x ∈ ql e ++ [m] → x ∈ ql e' → e' = e) as Hdis.
  { intros x e' [Hx| ->%list_elem_of_singleton]%elem_of_app Hx'; [by eapply (ii_disj _ _ _ _ _ _ I)|by destruct (Hq e')]. }
  assert (∀ x, x ∈ X ∖ {[m]} ↔ x ∈ dom (msgs s) ∧ (x ∉ ql e ++ [m]) ∧ ∀ e', e' ≠ e → x ∉ ql e') as HX.
  { intros x. rewrite elem_of_difference, elem_of_singleton, (ii_loose _ _ _ _ _ _ I), elem_of_app, list_elem_of_singleton.
    split; [naive_solver|]. intros (Hx & Hn & Ho). split; [|naive_solver]. split; [done|]. intros e' Hx'.
    destruct (decide (e' = e)) as [->|]; naive_solver. }
  wp_step. eapply wp_get_ep; [done|]. wp_step. eapply wp_get_msg; [done|]. unfold set_msgs, set_eps. wp_steps.
  destruct (ql e) as [|tl l _] eqn:El using rev_ind.
  - rewrite (qr_tail _ _ _ _ Hr). change (negb (List.last [] 0 =? 0)) with false. cbv iota. wp_steps.
    pose proof (Forall2_length _ _ _ (qr_carries _ _ _ _ Hr)) as Hlen.
    destruct (box e) as [|p ps] eqn:Eb; [|done]. split_and!; try done; [by eexists|].
    eapply inv_requeue; [exact I|try done..].
    + cbn. by apply dom_insert_same.
    + cbn. intros x e' _ Hx. rewrite lookup_insert_ne; [done|]. intros ->. by apply (Hq e').
    + cbn. by apply q_rep_push_empty.
  - rewrite (qr_tail _ _ _ _ Hr), last_snoc.
    assert (tl ∈ ql e) as Htl by (rewrite El; set_solver).
    destruct (queued_msg _ _ _ _ _ _ I e tl Htl) as [w Hw].
    assert (tl ≠ 0) as Htl0 by (by eapply msg_nonnull). destruct (Z.eqb_spec tl 0); [done|]. cbn [negb].
    assert (tl ≠ m) as Hne by (intros ->; by apply (Hq e)).
    wp_step. eapply wp_get_msg; [cbn; by rewrite lookup_insert_ne by done|]. wp_steps.
    split_and!; try done; [by eexists|].
    eapply inv_requeue; [exact I|try done..].
    + cbn. rewrite !dom_insert_same; [done|done|]. rewrite lookup_insert_ne by done. by eexists.
    + cbn. intros x e' Hne' Hx. rewrite !lookup_insert_ne; [done| |].
      * intros ->. by apply (Hq e').
      * intros ->. apply Hne'. by eapply (ii_disj _ _ _ _ _ _ I).
    + cbn. apply q_rep_push; try done. rewrite <- El. apply Hq.
Qed.

Lemma pop_correct e ep c s lv ql box rq X :
  ipc_inv s lv ql box rq X → endpoints s !! e = Some ep →
  wp (q_pop_head e) (λ m c' s', c' = c ∧ kept s s' ∧
    match ql e with
    | [] => m = 0 ∧ s' = s
    | m0 :: l => m = m0 ∧ m ≠ 0 ∧
       (∃ ep', endpoints s' = <[e := ep']> (endpoints s) ∧ waiting_recv ep' = waiting_recv ep ∧ closed ep' = closed ep) ∧
       ∃ v ps, msgs s' !! m = Some v ∧ msg_ok v ∧ box e = payload_of v :: ps ∧
         ipc_inv s' lv (on e l ql) (on e ps box) rq ({[m]} ∪ X)
    end) c s.
Proof.
  intros I He. pose proof (ii_queue _ _ _ _ _ _ I _ _ He) as Hr. unfold q_pop_head.
  wp_step. eapply wp_get_ep; [done|]. rewrite (qr_head _ _ _ _ Hr).
  destruct (ql e) as [|m l] eqn:El; [cbn [hd]; rewrite Z.eqb_refl; by wp_steps|].
  cbn [hd]. assert (m ∈ ql e) as Hmq by (rewrite El; left).
  destruct (queued_msg _ _ _ _ _ _ I e m Hmq) as [v Hv].
  assert (m ≠ 0) as Hm0 by (by eapply msg_nonnull). destruct (Z.eqb_spec m 0) as [|_]; [done|].
  pose proof (qr_carries _ _ _ _ Hr) as Hc. apply Forall2_cons_inv_l in Hc as (p & ps & (v' & Hv' & <- & Hok) & _ & Eb).
  rewrite Hv in Hv'. injection Hv' as <-.
  pose proof (qr_nodup _ _ _ _ Hr) as Hnd. apply NoDup_cons in Hnd as [Hml Hnd].
  assert (∀ x e', x ∈ l → x ∈ ql e' → e' = e) as Hdis.
  { intros x e' Hx Hx'. eapply (ii_disj _ _ _ _ _ _ I); [exact Hx'|]. rewrite El. by right. }
  assert (∀ x, x ∈ {[m]} ∪ X ↔ x ∈ dom (msgs s) ∧ (x ∉ l) ∧ ∀ e', e' ≠ e → x ∉ ql e') as HX.
  { intros x. rewrite elem_of_union, elem_of_singleton, (ii_loose _ _ _ _ _ _ I). split.
    - intros [->|[Hx Hq]]; split_and!; try done.
      + by apply elem_of_dom_2 in Hv.
      + intros e' Hne Hx. apply Hne. by eapply (ii_disj _ _ _ _ _ _ I).
      + intros Hx'. apply (Hq e). rewrite El. by right.
    - intros (Hx & Hxl & Ho). destruct (decide (x = m)) as [->|Hne]; [by left|right]. split; [done|].
      intros e'. destruct (decide (e' = e)) as [->|]; [|by apply Ho]. rewrite El. set_solver. }
  wp_step. eapply wp_get_msg; [exact Hv|]. destruct (qr_next _ _ _ _ Hr) as [Hn _].
  unfold next_of in Hn. rewrite Hv in Hn. injection Hn as Hn. rewrite Hn.
  unfold set_msgs, set_eps. destruct l as [|n l]; cbn [hd].
  - change (negb (0 =? 0)) with false. cbv iota. wp_steps. eapply wp_get_msg; [exact Hv|]. wp_steps. split_and!; try done; [by eexists|].
    exists (mkMsg 0 0 (m_tag v) (m_len v) (m_data v)), ps. cbn. rewrite lookup_insert_eq. split_and!; try done.
    eapply inv_requeue; [exact I|try done..].
    + cbn. apply dom_insert_same. by eexists.
    + cbn. intros x e' Hne Hx. rewrite lookup_insert_ne; [done|]. intros <-. apply Hne. by eapply (ii_disj _ _ _ _ _ _ I).
    + cbn. pose proof (Forall2_length _ _ _ (qr_carries _ _ _ _ Hr)) as Hlen. rewrite Eb in Hlen, Hr. destruct ps; [|done].
      eapply q_rep_frame; [by eapply q_rep_pop_last|done|done|]. by intros x ?%elem_of_nil.
  - assert (n ∈ ql e) as Hnq by (rewrite El; set_solver). destruct (queued_msg _ _ _ _ _ _ I e n Hnq) as [w Hw].
    assert (n ≠ 0) as Hn0 by (by eapply msg_nonnull). destruct (Z.eqb_spec n 0) as [|_]; [done|]. cbn [negb].
    assert (n ≠ m) as Hnm by (intros ->; apply Hml; left).
    wp_steps. eapply wp_get_msg; [exact Hw|]. wp_steps. eapply wp_get_msg; [cbn; by rewrite lookup_insert_ne by done|]. wp_steps.
    split_and!; try done; [by eexists|].
    exists (mkMsg 0 0 (m_tag v) (m_len v) (m_data v)), ps. cbn. rewrite lookup_insert_eq. split_and!; try done.
    eapply inv_requeue; [exact I|try done..].
    + cbn. rewrite !dom_insert_same; [done|by eexists|]. rewrite lookup_insert_ne by done. by eexists.
    + cbn. intros x e' Hne Hx. rewrite !lookup_insert_ne; [done| |]; intros <-; apply Hne; by eapply (ii_disj _ _ _ _ _ _ I).
    + cbn. rewrite Eb in Hr. eapply q_rep_frame; [by eapply (q_rep_pop _ _ m)|done|done|].
      intros x Hx. cbn. rewrite lookup_insert_ne; [done|]. by intros <-.
Qed.

(** *** Delivery and wake-up *)

(** The caller's buffer [out] after payload [p] was copied into it. *)
Definition received (p : payload) (out : ks_ipc_msg) : ks_ipc_msg :=
  mkKsMsg p.1 (Z.of_nat (length p.2)) (p.2 ++ drop (length p.2) (ks_data out)).
Definition buffer_ok (out : ks_ipc_msg) : Prop := length (ks_data out) = 128%nat.

Lemma deliver_correct m v out c s lv ql box rq X :
  ipc_inv s lv ql box rq X → irq_depth c = 0 → m ∈ X → msgs s !! m = Some v → msg_ok v → buffer_ok out →
  wp (deliver m out) (λ r c' s', c' = c ∧ r = received (payload_of v) out ∧ kept s s' ∧
    endpoints s' = endpoints s ∧ ∃ lv', ipc_inv s' lv' ql box rq (X ∖ {[m]})) c s.
Proof.
  intros I Hd Hm Hv [Hlen Hdata] Hout. unfold buffer_ok in Hout. unfold deliver. wp_step. eapply wp_get_msg; [done|]. cbv zeta.
  destruct (Z.ltb_spec KS_IPC_MSG_MAX (m_len v)); [lia|]. unfold KS_IPC_MSG_MAX in *.
  assert (length (take (Z.to_nat (m_len v)) (m_data v)) = Z.to_nat (m_len v)) as El by (rewrite length_take; lia).
  assert (∀ d, d = take (Z.to_nat (m_len v)) (m_data v) ++ drop (Z.to_nat (m_len v)) (ks_data out) →
    mkKsMsg (m_tag v) (m_len v) d = received (payload_of v) out) as Hres.
  { intros d ->. unfold received, payload_of. cbn. rewrite El, Z2Nat.id by lia. done. }
  wp_step. assert (∀ Q, Q (take (Z.to_nat (m_len v)) (m_data v) ++ drop (Z.to_nat (m_len v)) (ks_data out)) c s →
    wp (if 0 <? m_len v then load (copy_bytes (ks_data out) (m_data v) (m_len v)) else ret (ks_data out)) Q c s) as Hcopy.
  { intros Q HQ. destruct (Z.ltb_spec 0 (m_len v)).
    - unfold copy_bytes. rewrite Hdata, Hout.
      destruct (Z.ltb_spec (Z.of_nat 128) (m_len v)); [lia|]. cbn [orb]. by wp_steps.
    - assert (m_len v = 0) as E0 by lia. rewrite E0 in HQ. wp_steps. exact HQ. }
  apply Hcopy. wp_step. eapply wp_mono; [by apply (free_correct m c s lv ql box rq X)|]. cbv beta.
  intros _ c' s' (-> & Hk & He & lv' & I'). wp_steps. split_and!; try done; [by apply Hres|by exists lv'].
Qed.

Lemma inv_sched s lv ql box rq X ss' rq' :
  ipc_inv s lv ql box rq X → sched_inv ss' rq' → bootstrap ss' = bootstrap (ip_sched s) →
  (∀ t, threads ss' !! s_current ss' = Some t → state t = RUNNING) →
  (∀ p, is_Some (threads (ip_sched s) !! p) → is_Some (threads ss' !! p)) →
  ipc_inv (lset sched_lens ss' s) lv ql box rq' X.
Proof.
  intros [] Hs Hb Hr Ht. split; try done. cbn. intros e ep He Hw. rewrite Hb. naive_solver.
Qed.

Lemma wake_idle p t c (ss : sched_state) : threads ss !! p = Some t → p ≠ 0 → state t ≠ BLOCKED →
  cpu_wf c → irq_depth c = 0 → wp (sched_wake p) (λ _ c' ss', c' = c ∧ ss' = ss) c ss.
Proof.
  intros Hp Hp0 Hst Hwf Hd. unfold sched_wake. wp_step. apply wp_assert_thread; [done|].
  destruct (Z.eqb_spec p 0) as [|_]; [done|]. wp_step. apply wp_irq_save. wp_step. eapply wp_get_thread; [done|].
  do 2 wp_step. rewrite bool_decide_false by done. apply wp_irq_restore; done.
Qed.

(** Thread [w] was blocked and is now at the tail of its ready queue, or
    nothing happened. *)
Definition woken (w : Z) (ss : sched_state) (rq : queues) (ss' : sched_state) (rq' : queues) : Prop :=
  match threads ss !! w with
  | Some t => if decide (state t = BLOCKED)
      then (let i := sched_intent_sanitize (th_intent t) in rq' = qset i (rq i ++ [w]) rq) ∧
           state <$> threads ss' !! w = Some READY
      else ss' = ss ∧ rq' = rq
  | None => ss' = ss ∧ rq' = rq
  end.

Lemma only_dom Y (ss ss' : sched_state) p : only_changes Y ss ss' → p ∉ Y → is_Some (threads ss !! p) →
  is_Some (threads ss' !! p).
Proof.
  intros [_ Ho] Hp [t Ht]. specialize (Ho p Hp). unfold erase in Ho. rewrite !lookup_fmap, Ht in Ho.
  destruct (threads ss' !! p); [by eexists|done].
Qed.

Lemma wake_waiter w c s lv ql box rq X :
  ipc_inv s lv ql box rq X → cpu_wf c → irq_depth c = 0 → w ≠ 0 →
  is_Some (threads (ip_sched s) !! w) → w ≠ bootstrap (ip_sched s) →
  wp (zoom sched_lens (sched_wake w)) (λ _ c' s', c' = c ∧
    ∃ ss' rq', s' = lset sched_lens ss' s ∧ woken w (ip_sched s) rq ss' rq' ∧ ipc_inv s' lv ql box rq' X) c s.
Proof.
  intros I Hwf Hd Hw0 [t Ht] Hwb. pose proof (ii_sched _ _ _ _ _ _ I) as Hv. apply wp_zoom. cbn [lget sched_lens].
  unfold woken. rewrite Ht. destruct (decide (state t = BLOCKED)) as [Hb|Hb].
  - assert (w ≠ s_current (ip_sched s)) as Hwc.
    { intros ->. apply (ii_running _ _ _ _ _ _ I) in Ht. congruence. }
    eapply wp_mono; [by eapply (wake_correct w t)|]. cbv beta. intros _ c' ss' (-> & Hcur & Ho & Hpost).
    rewrite decide_True in Hpost by done. destruct Hpost as [Hv' [n Hn]]. split; [done|]. eexists ss', _.
    split_and!; [done|done|by rewrite Hn|]. eapply inv_sched; [done|done|apply Ho| |].
    + rewrite Hcur. intros t' Ht'. assert (s_current (ip_sched s) ∉ [w]) as Hc by (rewrite list_elem_of_singleton; congruence).
      destruct (only_lookup _ _ _ _ _ Ho Hc Ht') as (t0 & Ht0 & ->).
      cbn. by apply (ii_running _ _ _ _ _ _ I).
    + intros p Hp. destruct (decide (p = w)) as [->|]; [by eexists|]. eapply only_dom; [done|by rewrite list_elem_of_singleton|done].
  - eapply wp_mono; [by eapply (wake_idle w t)|]. cbv beta. intros _ c' ss' [-> ->]. split; [done|].
    eexists _, rq. split_and!; [done|done|done|]. by destruct s.
Qed.

(** *** The operations *)

(** The endpoint handle [h] of table [t] gives access to with right [need]. *)
Definition access s (t h need : Z) : ks_ipc_status + Z :=
  match cap_view (ip_cap s) t h with
  | Some (ty, r, e) =>
    if negb (cap_rights_has r need) then inl KS_IPC_ERR_RIGHTS
    else if negb (bool_decide (ty = CAP_TYPE_ENDPOINT)) || (e =? 0) then inl KS_IPC_ERR_INVALID
    else inr e
  | None => inl KS_IPC_ERR_RIGHTS
  end.

Lemma access_correct t tbl h need c s lv ql box rq X :
  ipc_inv s lv ql box rq X → tables (ip_cap s) !! t = Some tbl → 0 ≤ h < 2 ^ 64 →
  wp (endpoint_from_handle t h need) (λ r c' s', c' = c ∧ s' = s ∧ r = access s t h need ∧
    ∀ e, r = inr e → is_Some (endpoints s !! e)) c s.
Proof.
  intros I Ht Hh. unfold access. eapply wp_from_handle; [done|done|done|..].
  - intros r e ep Hv Hr He. rewrite Hv, Hr. cbn [negb].
    rewrite bool_decide_true by done. cbn [negb orb].
    destruct (Z.eqb_spec e 0) as [->|_]; [by destruct (ep_nonnull _ _ _ _ _ _ I 0); [eexists|]|].
    split_and!; try done. intros e' [= <-]. by eexists.
  - intros Hno. destruct (cap_view (ip_cap s) t h) as [[[ty r] ob]|] eqn:Ev; [|done].
    by rewrite (Hno ty r ob).
  - intros ty r ob Hv Hr Hbad. rewrite Hv, Hr. cbn [negb].
    replace (negb (bool_decide (ty = CAP_TYPE_ENDPOINT)) || (ob =? 0)) with true; [done|].
    symmetry. apply orb_true_iff. destruct Hbad as [Hty| ->]; [left|by right].
    by rewrite bool_decide_false by done.
Qed.

Definition ks_msg_ok (msg : ks_ipc_msg) : Prop := 0 ≤ ks_len msg < 2 ^ 32 ∧ length (ks_data msg) = 128%nat.
Definition sent (msg : ks_ipc_msg) : payload := (ks_tag msg, take (Z.to_nat (ks_len msg)) (ks_data msg)).

(** Who waits at [e], and whether it is closed. *)
Definition registered s (e : Z) : option (Z * bool) := (λ ep, (waiting_recv ep, closed ep)) <$> endpoints s !! e.

(** What a send does once the endpoint [e] is known. *)
Definition send_post (e : Z) (msg : ks_ipc_msg) s box rq (st : ks_ipc_status) s' : Prop :=
  ∃ ep, endpoints s !! e = Some ep ∧
  if closed ep then st = KS_IPC_ERR_CLOSED ∧ s' = s
  else st = KS_IPC_OK ∧ ∃ lv' ql' rq',
    ipc_inv s' lv' ql' (on e (box e ++ [sent msg]) box) rq' ∅ ∧
    registered s' e = Some (0, false) ∧
    (if decide (waiting_recv ep = 0) then ip_sched s' = ip_sched s ∧ rq' = rq
     else woken (waiting_recv ep) (ip_sched s) rq (ip_sched s') rq').

Lemma inv_waiter s lv ql box rq X e ep w : ipc_inv s lv ql box rq X → endpoints s !! e = Some ep →
  (w ≠ 0 → is_Some (threads (ip_sched s) !! w) ∧ w ≠ bootstrap (ip_sched s)) →
  ipc_inv (mkIpc (ip_cap s) (ip_sched s) (<[e := mkEp (ep_id ep) (q_head ep) (q_tail ep) w (closed ep)]> (endpoints s))
    (msgs s) (s_endpoint_cache_inited s) (s_ipc_msg_cache_inited s) (s_next_endpoint_id s)) lv ql box rq X.
Proof.
  intros I He Hw. assert (dom (<[e := mkEp (ep_id ep) (q_head ep) (q_tail ep) w (closed ep)]> (endpoints s)) =
    dom (endpoints s)) as Ed by (apply dom_insert_same; by eexists).
  pose proof I as []. split; cbn; try done.
  - by rewrite Ed.
  - intros e' ep' [[<- <-]|[Hne He']]%lookup_insert_Some; [|by apply ii_queue0].
    eapply q_rep_frame; [by apply ii_queue0|done|done|done].
  - intros e' He'%lookup_insert_None. naive_solver.
  - intros t h r e' Hh Hv He'. apply elem_of_dom. rewrite Ed. apply elem_of_dom. by eapply ii_view0.
  - intros e' ep' [[<- <-]|[Hne He']]%lookup_insert_Some; [done|by eapply ii_wait0].
Qed.

Lemma send_tail_correct e ep m v msg c s lv ql box rq :
  ipc_inv s lv ql box rq {[m]} → cpu_wf c → irq_depth c = 0 → endpoints s !! e = Some ep →
  msgs s !! m = Some v → msg_ok v → payload_of v = sent msg →
  wp (flags <- irq_save ;;
      q_push_tail e m ;;;
      ep <- get_ep e ;;
      let w := waiting_recv ep in
      (if negb (w =? 0) then
         set_eps <[e := mkEp (ep_id ep) (q_head ep) (q_tail ep) 0 (closed ep)]> ;;;
         zoom sched_lens (sched_wake w)
       else ret tt) ;;;
      irq_restore flags ;;;
      ret KS_IPC_OK)
    (λ st c' s', c' = c ∧ caps_kept s s' ∧ st = KS_IPC_OK ∧ ∃ ql' rq',
      ipc_inv s' lv ql' (on e (box e ++ [sent msg]) box) rq' ∅ ∧
      registered s' e = Some (0, closed ep) ∧
      (if decide (waiting_recv ep = 0) then ip_sched s' = ip_sched s ∧ rq' = rq
       else woken (waiting_recv ep) (ip_sched s) rq (ip_sched s') rq')) c s.
Proof.
  intros I Hwf Hd He Hv Hok Hp. wp_step. apply wp_irq_save. wp_step.
  eapply wp_mono; [apply (push_correct e ep m v (masked_cpu c) s lv ql box rq); try done; set_solver|]. cbv beta.
  intros _ c' s1 (-> & [Hk Hs1] & (ep1 & Hep1 & Hw1 & Hc1) & I1). rewrite Hp, difference_diag_L in I1.
  assert (endpoints s1 !! e = Some ep1) as He1 by (by rewrite Hep1, lookup_insert_eq).
  wp_step. eapply wp_get_ep; [done|]. cbv zeta. rewrite Hw1. wp_step.
  destruct (decide (waiting_recv ep = 0)) as [E0|Hw0].
  - rewrite E0. change (negb (0 =? 0)) with false. cbv iota. wp_steps. apply wp_irq_restore; [done|]. wp_steps.
    split_and!; try done. eexists _, rq. split_and!; try done. unfold registered. rewrite He1. cbn. by rewrite Hw1, E0, Hc1.
  - destruct (Z.eqb_spec (waiting_recv ep) 0) as [|_]; [done|]. cbn [negb]. unfold set_eps. wp_step. wp_step.
    destruct (ii_wait _ _ _ _ _ _ I e ep He Hw0) as [Hth Hnb].
    pose proof (inv_waiter _ _ _ _ _ _ e ep1 0 I1 He1 ltac:(done)) as I2. set (s2 := mkIpc _ _ _ _ _ _ _) in *.
    eapply wp_mono; [eapply (wake_waiter (waiting_recv ep) (masked_cpu c) s2); [exact I2|by apply masked_cpu_wf|done|done|..]|].
    + unfold s2. cbn. by rewrite Hs1.
    + unfold s2. cbn. by rewrite Hs1.
    + cbv beta. intros _ c' s3 (-> & ss' & rq' & -> & Hwk & I3). wp_step. apply wp_irq_restore; [done|]. wp_steps.
      split_and!; try done. eexists _, rq'. split_and!; [exact I3| |].
      * unfold registered. cbn. rewrite lookup_insert_eq. cbn. by rewrite Hc1.
      * cbn in *. by rewrite Hs1 in Hwk.
Qed.

Lemma send_correct t tbl h msg c s lv ql box rq :
  ipc_inv s lv ql box rq ∅ → cpu_wf c → irq_depth c = 0 → tables (ip_cap s) !! t = Some tbl → 0 ≤ h < 2 ^ 64 →
  ks_msg_ok msg → ks_len msg ≤ KS_IPC_MSG_MAX →
  wpe (ipc_send_cap t h (Some msg)) (λ st c' s', c' = c ∧ caps_kept s s' ∧
    match access s t h CAP_R_SEND with
    | inl err => st = err ∧ s' = s
    | inr e => send_post e msg s box rq st s'
    end) (λ x, x = "ipc_msg_alloc: OOM") c s.
Proof.
  intros I Hwf Hd Ht Hh [Hl Hdata] Hmax. unfold ipc_send_cap. wpe_step. apply wp_assert_thread; [done|].
  destruct (Z.ltb_spec KS_IPC_MSG_MAX (ks_len msg)); [lia|]. unfold KS_IPC_MSG_MAX in *.
  wpe_step. eapply wp_mono; [by eapply access_correct|]. cbv beta. intros r c' s' (-> & -> & -> & Hacc).
  destruct (access s t h CAP_R_SEND) as [err|e]; [by apply wpe_wp; wp_steps|].
  destruct (Hacc e eq_refl) as [ep He]. unfold send_post. wpe_step. eapply wp_get_ep; [done|].
  destruct (closed ep) eqn:Ecl; [apply wpe_wp; wp_steps; split_and!; try done; exists ep; by rewrite Ecl|].
  apply wpe_bind. eapply wpe_mono; [by apply (alloc_correct c s lv ql box rq ∅)|]. cbv beta.
  intros m c' s1 (-> & Hm0 & _ & [Hk1 Hs1] & He1 & Hm1 & lv1 & I1). destruct (Z.eqb_spec m 0) as [|_]; [done|].
  rewrite union_empty_r_L in I1. apply wpe_wp. wp_step. eapply wp_get_msg; [done|]. cbn [m_data m_next m_prev].
  assert (length zero_bytes = 128%nat) as Hz by reflexivity.
  set (d := take (Z.to_nat (ks_len msg)) (ks_data msg) ++ drop (Z.to_nat (ks_len msg)) zero_bytes).
  wp_step. assert (∀ Q, Q d c s1 →
    wp (if 0 <? ks_len msg then load (copy_bytes zero_bytes (ks_data msg) (ks_len msg)) else ret zero_bytes) Q c s1) as Hcopy.
  { intros Q HQ. destruct (Z.ltb_spec 0 (ks_len msg)).
    - unfold copy_bytes. rewrite Hdata, Hz. destruct (Z.ltb_spec (Z.of_nat 128) (ks_len msg)); [lia|]. cbn [orb]. by wp_steps.
    - wp_steps. unfold d in HQ. assert (ks_len msg = 0) as E0 by lia. by rewrite E0 in HQ. }
  apply Hcopy. unfold set_msgs at 1. wp_step. wp_step.
  pose proof (fill_correct _ _ _ _ _ _ m (mkMsg 0 0 (ks_tag msg) (ks_len msg) d) I1 ltac:(set_solver)) as I2.
  set (s2 := mkIpc _ _ _ _ _ _ _) in *.
  assert (length d = 128%nat) as Hld by (unfold d; rewrite length_app, length_take, length_drop, Hz; lia).
  eapply wp_mono; [eapply (send_tail_correct e ep m (mkMsg 0 0 (ks_tag msg) (ks_len msg) d) msg c s2); try done|].
  - unfold s2. cbn. by rewrite He1.
  - unfold s2. cbn. by rewrite lookup_insert_eq.
  - unfold msg_ok, KS_IPC_MSG_MAX. cbn [m_len m_data]. split; [lia|done].
  - unfold payload_of, sent, d. cbn [m_tag m_len m_data]. f_equal. apply take_app_length'. rewrite length_take. lia.
  - cbv beta. intros st c' s' (-> & Hk & -> & ql' & rq' & I' & Hw & Hwk). split; [done|].
    assert (caps_kept s s') as Hks by (unfold caps_kept in *; cbn in Hk; split; destruct Hk, Hk1; congruence).
    split; [done|]. exists ep. rewrite Ecl. split; [done|]. split; [done|]. exists lv1, ql', rq'. split; [done|]. split; [by rewrite Ecl in Hw|].
    unfold s2 in Hwk. cbn in Hwk. by rewrite Hs1 in Hwk.
Qed.

(** Taking the first message of an endpoint, when there is one. *)
Definition take_post (e : Z) (out : ks_ipc_msg) s box rq (p : payload) (ps : list payload) (r : ks_ipc_msg) s' : Prop :=
  box e = p :: ps ∧ r = received p out ∧ ip_sched s' = ip_sched s ∧ (∀ e', registered s' e' = registered s e') ∧
  ∃ lv' ql', ipc_inv s' lv' ql' (on e ps box) rq ∅.

Lemma registered_same e ep ep' s s1 s2 : endpoints s !! e = Some ep → endpoints s1 = <[e := ep']> (endpoints s) →
  waiting_recv ep' = waiting_recv ep → closed ep' = closed ep → endpoints s2 = endpoints s1 → ∀ e', registered s2 e' = registered s e'.
Proof.
  intros He E1 Ew Ec E2 e'. unfold registered. rewrite E2, E1. destruct (decide (e' = e)) as [->|Hne]; [|by rewrite lookup_insert_ne].
  rewrite lookup_insert_eq, He. cbn. by rewrite Ew, Ec.
Qed.

Lemma try_recv_correct t tbl h out c s lv ql box rq :
  ipc_inv s lv ql box rq ∅ → cpu_wf c → irq_depth c = 0 → tables (ip_cap s) !! t = Some tbl → 0 ≤ h < 2 ^ 64 →
  buffer_ok out →
  wp (ipc_try_recv_cap t h (Some out)) (λ r c' s', c' = c ∧ caps_kept s s' ∧
    match access s t h CAP_R_RECV with
    | inl err => r = (err, Some out) ∧ s' = s
    | inr e => ∃ ep, endpoints s !! e = Some ep ∧
      match box e with
      | [] => r = (if closed ep then KS_IPC_ERR_CLOSED else KS_IPC_ERR_EMPTY, Some out) ∧ s' = s
      | p :: ps => ∃ o, r = (KS_IPC_OK, Some o) ∧ take_post e out s box rq p ps o s'
      end
    end) c s.
Proof.
  intros I Hwf Hd Ht Hh Hout. unfold ipc_try_recv_cap. wp_step. apply wp_assert_thread; [done|].
  wp_step. eapply wp_mono; [by eapply access_correct|]. cbv beta. intros r c' s' (-> & -> & -> & Hacc).
  destruct (access s t h CAP_R_RECV) as [err|e]; [by wp_steps|]. destruct (Hacc e eq_refl) as [ep He].
  wp_step. apply wp_irq_save. wp_step. eapply wp_mono; [by eapply pop_correct|]. cbv beta.
  intros m c' s1 (-> & [Hk1 Hs1] & Hpop). pose proof (ii_queue _ _ _ _ _ _ I _ _ He) as Hr.
  pose proof (Forall2_length _ _ _ (qr_carries _ _ _ _ Hr)) as Hlen.
  destruct (ql e) as [|m0 l].
  - destruct Hpop as [-> ->]. destruct (box e) as [|] eqn:Eb; [|done]. rewrite Z.eqb_refl.
    wp_step. apply wp_irq_restore; [done|]. wp_step. eapply wp_get_ep; [done|].
    destruct (closed ep) eqn:Ec; wp_steps; (split_and!; try done; exists ep; split; [done|]; by rewrite Ec).
  - destruct Hpop as (-> & Hm0 & (ep' & He' & Hw' & Hc') & v & ps & Hv & Hok & Eb & I1).
    destruct (Z.eqb_spec m0 0) as [|_]; [done|]. wp_step. apply wp_irq_restore; [done|]. wp_step.
    eapply wp_mono; [apply (deliver_correct m0 v out c s1 lv (on e l ql) (on e ps box) rq ({[m0]} ∪ ∅)); try done; set_solver|].
    cbv beta. intros o c' s2 (-> & -> & [Hk2 Hs2] & He2 & lv2 & I2). wp_steps. split; [done|].
    split; [unfold caps_kept in *; destruct Hk1, Hk2; split; congruence|]. exists ep. split; [done|]. rewrite Eb. eexists. split; [done|].
    unfold take_post. split_and!; try done; [congruence|by eapply registered_same|]. exists lv2, (on e l ql).
    replace (({[m0]} ∪ ∅) ∖ {[m0]}) with (∅ : gset Z) in I2 by set_solver. done.
Qed.

(** *** Blocking receive *)


(** The queue of [e] is empty: what the poll decides. *)
Definition poll_empty (e : Z) (ep : endpoint) (out : ks_ipc_msg) s lv ql box rq
    (r : ks_ipc_status * ks_ipc_msg + unit) s' : Prop :=
  if closed ep then r = inl (KS_IPC_ERR_CLOSED, out) ∧ s' = s
  else if decide (waiting_recv ep = 0 ∨ waiting_recv ep = s_current (ip_sched s)) then
    r = inr tt ∧ ip_sched s' = ip_sched s ∧ ipc_inv s' lv ql box rq ∅ ∧
    registered s' e = Some (s_current (ip_sched s), false)
  else r = inl (KS_IPC_ERR_RIGHTS, out) ∧ s' = s.

Lemma poll_correct e ep out c s lv ql box rq :
  ipc_inv s lv ql box rq ∅ → cpu_wf c → irq_depth c = 0 → endpoints s !! e = Some ep → buffer_ok out →
  s_current (ip_sched s) ≠ bootstrap (ip_sched s) →
  wp (recv_poll e out) (λ r c' s', c' = c ∧ caps_kept s s' ∧
    match box e with
    | p :: ps => ∃ o, r = inl (KS_IPC_OK, o) ∧ take_post e out s box rq p ps o s'
    | [] => poll_empty e ep out s lv ql box rq r s'
    end) c s.
Proof.
  intros I Hwf Hd He Hout Hnb. unfold recv_poll. wp_step. apply wp_irq_save. wp_step.
  eapply wp_mono; [by eapply pop_correct|]. cbv beta.
  intros m c' s1 (-> & [Hk1 Hs1] & Hpop). pose proof (ii_queue _ _ _ _ _ _ I _ _ He) as Hr.
  pose proof (Forall2_length _ _ _ (qr_carries _ _ _ _ Hr)) as Hlen.
  destruct (ql e) as [|m0 l].
  - destruct Hpop as [-> ->]. destruct (box e) as [|] eqn:Eb; [|done]. change (negb (0 =? 0)) with false. cbv iota.
    wp_step. eapply wp_get_ep; [done|]. unfold poll_empty.
    destruct (closed ep) eqn:Ec; [wp_step; apply wp_irq_restore; [done|]; by wp_steps|].
    pose proof (ii_sched _ _ _ _ _ _ I) as Hv. destruct (sv_current _ _ Hv) as [[tc Htc] _].
    assert (s_current (ip_sched s) ≠ 0) as Hc0 by (by eapply sched_nonnull).
    wp_step. unfold sched_current. apply wp_zoom. wp_steps. cbn [lget sched_lens].
    replace (lset sched_lens (ip_sched s) s) with s by (by destruct s).
    destruct (Z.eqb_spec (s_current (ip_sched s)) 0) as [|_]; [done|].
    set (cur := s_current (ip_sched s)) in *.
    destruct (decide (waiting_recv ep = 0 ∨ waiting_recv ep = cur)) as [Hw|Hw].
    + replace (negb (waiting_recv ep =? 0) && negb (waiting_recv ep =? cur)) with false; last first.
      { symmetry. apply andb_false_iff. rewrite !negb_false_iff, !Z.eqb_eq. done. }
      unfold set_eps. wp_step. wp_step. wp_step. apply wp_irq_restore; [done|]. wp_steps. split_and!; try done.
      * rewrite <- Ec. apply inv_waiter; [done|done|]. intros _. split; [by eexists|done].
      * unfold registered. cbn. by rewrite lookup_insert_eq.
    + replace (negb (waiting_recv ep =? 0) && negb (waiting_recv ep =? cur)) with true; last first.
      { symmetry. apply andb_true_iff. rewrite !negb_true_iff, !Z.eqb_neq. naive_solver. }
      wp_step. apply wp_irq_restore; [done|]. by wp_steps.
  - destruct Hpop as (-> & Hm0 & (ep' & He' & Hw' & Hc') & v & ps & Hv & Hok & Eb & I1).
    destruct (Z.eqb_spec m0 0) as [|_]; [done|]. cbn [negb]. wp_step. apply wp_irq_restore; [done|]. wp_step.
    eapply wp_mono; [apply (deliver_correct m0 v out c s1 lv (on e l ql) (on e ps box) rq ({[m0]} ∪ ∅)); try done; set_solver|].
    cbv beta. intros o c' s2 (-> & -> & [Hk2 Hs2] & He2 & lv2 & I2). wp_steps. split; [done|].
    split; [unfold caps_kept in *; destruct Hk1, Hk2; split; congruence|]. rewrite Eb. eexists. split; [done|].
    unfold take_post. split_and!; try done; [congruence|by eapply registered_same|]. exists lv2, (on e l ql).
    replace (({[m0]} ∪ ∅) ∖ {[m0]}) with (∅ : gset Z) in I2 by set_solver. done.
Qed.

(** A turn that goes on to block: the inboxes are as before, and the thread
    either stays (nothing is ready) or is blocked and registered at [e]. *)
Definition block_post (e : Z) (c : cpu_state) s box (rq : queues) (r : resume) (c' : cpu_state) s' : Prop :=
  let cur := s_current (ip_sched s) in
  ∃ lv' ql' rq', ipc_inv s' lv' ql' box rq' ∅ ∧ registered s' e = Some (cur, false) ∧
  match r with
  | Stay => c' = c ∧ (∀ i, rq i = []) ∧ s_current (ip_sched s') = cur
  | CtxSwitch prev next flags => prev = cur ∧ flags = daif c ∧ c' = masked_cpu c ∧ next ≠ cur ∧
      s_current (ip_sched s') = next ∧ state <$> threads (ip_sched s') !! cur = Some BLOCKED
  end.

Lemma only_dom2 (ss ss' : sched_state) p q x : only_changes [p; q] ss ss' → is_Some (threads ss' !! p) →
  is_Some (threads ss' !! q) → is_Some (threads ss !! x) → is_Some (threads ss' !! x).
Proof.
  intros Ho Hp Hq Hx. destruct (decide (x ∈ [p; q])) as [Hi|Hi]; [|by eapply only_dom].
  apply elem_of_cons in Hi as [->|Hi]; [done|]. by apply list_elem_of_singleton in Hi as ->.
Qed.

Lemma iter_correct e ep out sp c s lv ql box rq :
  ipc_inv s lv ql box rq ∅ → cpu_wf c → irq_depth c = 0 → endpoints s !! e = Some ep → buffer_ok out →
  s_current (ip_sched s) ≠ bootstrap (ip_sched s) → Z.land sp 0xF = 0 →
  wp (recv_iter e out sp) (λ r c' s', caps_kept s s' ∧
    match r with
    | Returned st o => c' = c ∧
        match box e with
        | p :: ps => st = KS_IPC_OK ∧ take_post e out s box rq p ps o s'
        | [] => s' = s ∧ o = out ∧
            st = (if closed ep then KS_IPC_ERR_CLOSED else KS_IPC_ERR_RIGHTS) ∧
            (closed ep = false → waiting_recv ep ≠ 0 ∧ waiting_recv ep ≠ s_current (ip_sched s))
        end
    | Turned r => box e = [] ∧ closed ep = false ∧ block_post e c s box rq r c' s'
    end) c s.
Proof.
  intros I Hwf Hd He Hout Hnb Hsp. unfold recv_iter. wp_step. eapply wp_mono; [by eapply poll_correct|]. cbv beta.
  intros r c' s1 (-> & Hk1 & Hpoll). destruct (box e) as [|p ps] eqn:Eb; last first.
  { destruct Hpoll as (o & -> & Htake). wp_steps. split; done. }
  unfold poll_empty in Hpoll. destruct (closed ep) eqn:Ec.
  { destruct Hpoll as [-> ->]. wp_steps. done. }
  set (cur := s_current (ip_sched s)) in *.
  destruct (decide (waiting_recv ep = 0 ∨ waiting_recv ep = cur)) as [Hw|Hw]; last first.
  { destruct Hpoll as [-> ->]. wp_steps. split_and!; try done; intros _; naive_solver. }
  destruct Hpoll as (-> & Hs1 & I1 & Hwt). wp_step. apply wp_zoom. cbn [lget sched_lens]. rewrite Hs1.
  pose proof (ii_sched _ _ _ _ _ _ I) as Hv. destruct (sv_current _ _ Hv) as [[tc Htc] _].
  destruct (decision rq (s_pick_cursor (ip_sched s)) cur) as [[next rq'] cursor'] eqn:Edec.
  eapply wp_mono; [by eapply (block_correct sp c (ip_sched s) rq tc)|]. cbv beta. fold cur.
  intros r c' ss' [Hds Hpost]. wp_steps. split; [by unfold caps_kept in *|]. split_and!; [done|done|].
  assert (ip_sched s1 = ip_sched s) as E1 by done. pose proof (ds_inv _ _ _ _ _ _ Hds) as Hv'.
  pose proof (ds_current _ _ _ _ _ _ Hds) as Hcur'. pose proof (ds_only _ _ _ _ _ _ Hds) as Ho.
  destruct (decide (next = cur)) as [->|Hne].
  - destruct Hpost as (-> & -> & Hempty & Ht'). exists lv, ql, rq'. split_and!; try done.
    eapply inv_sched; [exact I1|done|rewrite E1; apply Ho|intros t0; rewrite Hcur', Ht'; by intros [= <-]|].
    intros x Hx. rewrite E1 in Hx. eapply only_dom2; [exact Ho|by eexists|by eexists|done].
  - destruct Hpost as (-> & -> & (tn & Htn & Htn') & Hbl). exists lv, ql, rq'. split_and!; try done; [|cbn; fold cur; by rewrite Hbl].
    eapply inv_sched; [exact I1|done|rewrite E1; apply Ho|intros t0; rewrite Hcur', Htn'; by intros [= <-]|].
    intros x Hx. rewrite E1 in Hx. eapply only_dom2; [exact Ho|by eexists|by eexists|done].
Qed.

(** *** Creating an endpoint *)

Definition with_eps (k : cap_state H) (eps : gmap Z endpoint) (n : Z) s : ipc_state H :=
  mkIpc k (ip_sched s) eps (msgs s) (s_endpoint_cache_inited s) (s_ipc_msg_cache_inited s) n.

(** Endpoint objects come and go while no capability designates them. *)
Lemma inv_eps s lv ql box rq X k lv' e eps n :
  ipc_inv s lv ql box rq X → cap_inv k lv' → lv' CIpcMsg = lv CIpcMsg → dom eps = lv' CEndpoint →
  endpoints s !! e = None →
  (eps = endpoints s ∨ eps = <[e := mkEp (s_next_endpoint_id s) 0 0 0 false]> (endpoints s)) →
  (∀ t h r e', 0 ≤ h < 2 ^ 64 → cap_view k t h = Some (CAP_TYPE_ENDPOINT, r, e') → e' ≠ 0 → is_Some (eps !! e')) →
  ipc_inv (with_eps k eps n s) lv' ql box rq X.
Proof.
  intros I Hk Elv Hd He Heps Hview. destruct (ii_none _ _ _ _ _ _ I e He) as [Eq Eb].
  pose proof I as []. split; cbn; try done.
  - by rewrite Elv.
  - destruct Heps as [->| ->]; [done|]. intros e' ep [[<- <-]|[_ He']]%lookup_insert_Some; [|by apply ii_queue0].
    rewrite Eq, Eb. split; cbn; try done. constructor.
  - destruct Heps as [->| ->]; [done|]. intros e' [He' _]%lookup_insert_None. by apply ii_none0.
  - destruct Heps as [->| ->]; [done|]. intros e' ep [[<- <-]|[_ He']]%lookup_insert_Some; [done|by eapply ii_wait0].
Qed.

Lemma ep_alloc_correct c s lv ql box rq :
  ipc_inv s lv ql box rq ∅ → irq_depth c = 0 →
  wpe endpoint_alloc (λ e c' s', c' = c ∧ e ≠ 0 ∧ endpoints s !! e = None ∧ ∃ h', 
    let k := mkCapState (tables (ip_cap s)) (entries (ip_cap s)) h' (inited (ip_cap s)) in
    s' = with_eps k (<[e := mkEp (s_next_endpoint_id s) 0 0 0 false]> (endpoints s)) (u64 (s_next_endpoint_id s + 1)) s ∧
    ∃ lv', ipc_inv s' lv' ql box rq ∅) (λ x, x = "endpoint_alloc: OOM") c s.
Proof.
  intros I Hd. unfold endpoint_alloc. wpe_step. apply wp_assert_thread; [done|].
  wpe_step. wp_step. rewrite (proj1 (ii_inited _ _ _ _ _ _ I)). cbn [negb]. wpe_step. wp_step.
  wpe_step. unfold heap_op. apply wp_zoom, wp_zoom. cbn [lget lset cap_lens heap_lens].
  pose proof (ii_cap _ _ _ _ _ _ I) as Hc.
  eapply wp_mono; [by apply oh_alloc_spec, Hd; apply Hc|]. cbv beta. intros e c' h' [-> [[-> Hh]|(He0 & Hnew & Hh)]].
  { rewrite Z.eqb_refl. by apply wpe_panic. }
  destruct (Z.eqb_spec e 0) as [|_]; [done|]. apply wpe_wp. unfold set_eps. wp_steps.
  assert (endpoints s !! e = None) as He by (apply not_elem_of_dom; by rewrite (ii_eps _ _ _ _ _ _ I)).
  split_and!; try done. exists h'. cbn zeta. split; [done|]. exists (upd CEndpoint ({[e]} ∪ lv CEndpoint) lv).
  cbn. apply (inv_eps s lv ql box rq ∅ _ _ e); try done.
  - by eapply cap_inv_heap.
  - rewrite dom_insert_L, upd_eq. by rewrite (ii_eps _ _ _ _ _ _ I).
  - by right.
  - intros t h r e' Hh' Hv Hne. apply lookup_insert_is_Some'. right. by eapply (ii_view _ _ _ _ _ _ I t h r).
Qed.

Lemma ep_free_correct e c s lv : irq_depth c = 0 → e ≠ 0 → s_endpoint_cache_inited s = true →
  oh_rep (heap (ip_cap s)) lv → e ∈ lv CEndpoint →
  wp (endpoint_free e) (λ _ c' s', c' = c ∧ ∃ h', oh_rep h' (upd CEndpoint (lv CEndpoint ∖ {[e]}) lv) ∧
    s' = with_eps (mkCapState (tables (ip_cap s)) (entries (ip_cap s)) h' (inited (ip_cap s)))
           (delete e (endpoints s)) (s_next_endpoint_id s) s) c s.
Proof.
  intros Hd He Hin Hh Hlive. unfold endpoint_free. wp_step. apply wp_assert_thread; [done|].
  destruct (Z.eqb_spec e 0) as [|_]; [done|]. wp_steps. rewrite Hin. cbn [negb]. wp_steps.
  unfold heap_op. apply wp_zoom, wp_zoom. cbn [lget lset cap_lens heap_lens].
  eapply wp_mono; [by apply oh_free_spec|]. cbv beta. intros _ c' h' [-> Hh']. unfold set_eps. wp_steps.
  split; [done|]. by exists h'.
Qed.

(** The outcome of [endpoint_create_cap]: a fresh endpoint behind a fresh
    handle with the right to drop it, or no change to endpoints and handles. *)
Definition create_post (t rts : Z) (tbl : cap_table) s (r : ks_ipc_status + Z) s' : Prop :=
  match r with
  | inr h => ∃ e, endpoints s !! e = None ∧
      endpoints s' = <[e := mkEp (s_next_endpoint_id s) 0 0 0 false]> (endpoints s) ∧
      0 < h < 2 ^ 64 ∧ cap_view (ip_cap s) t h = None ∧
      view_update (ip_cap s) (ip_cap s') t h (Some (CAP_TYPE_ENDPOINT, Z.lor rts CAP_R_DROP, e))
  | inl st => (st = KS_IPC_ERR_NO_MEM ∨ st = KS_IPC_ERR_INVALID ∧ free_top tbl = 0) ∧
      endpoints s' = endpoints s ∧ view_same (ip_cap s) (ip_cap s')
  end.

Lemma create_cap_correct t tbl rts c s lv ql box rq :
  ipc_inv s lv ql box rq ∅ → irq_depth c = 0 → tables (ip_cap s) !! t = Some tbl →
  wpe (endpoint_create_cap t rts true) (λ r c' s', c' = c ∧ create_post t rts tbl s r s' ∧
    ∃ lv', ipc_inv s' lv' ql box rq ∅) (λ x, x = "endpoint_alloc: OOM") c s.
Proof.
  intros I Hd Ht. unfold endpoint_create_cap. wpe_step. apply wp_assert_thread; [done|].
  destruct (Z.eqb_spec t 0) as [->|Ht0]; [by rewrite (ci_null _ _ (ii_cap _ _ _ _ _ _ I)) in Ht|]. cbn [orb negb].
  wpe_step. wp_step. rewrite (proj1 (ii_inited _ _ _ _ _ _ I)). cbn [negb]. wpe_step. wp_step.
  apply wpe_bind. eapply wpe_mono; [by eapply ep_alloc_correct|]. cbv beta.
  intros e c' s1 (-> & He0 & He & h1 & Es1 & lv1 & I1). destruct (Z.eqb_spec e 0) as [|_]; [done|].
  apply wpe_wp. wp_step. apply wp_zoom. unfold cap_create. cbn [lget cap_lens].
  destruct (Z.eqb_spec t 0) as [|_]; [done|]. cbn [orb negb].
  assert (tables (ip_cap s1) !! t = Some tbl) as Ht1 by (by rewrite Es1).
  assert (∀ t' h', cap_view (ip_cap s1) t' h' = cap_view (ip_cap s) t' h') as Ev1 by (by rewrite Es1).
  assert (endpoints s1 = <[e := mkEp (s_next_endpoint_id s) 0 0 0 false]> (endpoints s)) as Ee1 by (by rewrite Es1).
  eapply wp_mono; [eapply insert_correct; [apply I1|done|done]|]. cbv beta.
  intros r c' k (-> & lv2 & Hstep & Hpost). pose proof (cs_inv _ _ _ _ _ Hstep) as Hk.
  assert (lv2 CEndpoint = lv1 CEndpoint ∧ lv2 CIpcMsg = lv1 CIpcMsg) as [El1 El2] by (split; by apply Hstep).
  assert (dom (endpoints s1) = lv2 CEndpoint) as Hdom by (rewrite El1; apply I1).
  assert (∀ e', is_Some (endpoints s !! e') → is_Some (endpoints s1 !! e')) as Hgrow
    by (intros; rewrite Ee1; apply lookup_insert_is_Some'; by right).
  destruct r as [st|h].
  - destruct Hpost as [Hst Hsame]. wp_step.
    eapply wp_mono; [apply (ep_free_correct e c (lset cap_lens k s1) lv2); try done|].
    + cbn. rewrite Es1. apply I.
    + apply Hk.
    + rewrite <- Hdom, Ee1, dom_insert_L. set_solver.
    + cbv beta. intros _ c' s2 (-> & h' & Hh' & ->). wp_steps. split; [done|].
      assert (delete e (endpoints s1) = endpoints s) as Edel by (rewrite Ee1; by apply delete_insert_id).
      split.
      * unfold create_post. cbn. rewrite Edel. split_and!; [|done|].
        -- destruct Hst as [[-> ?]| ->]; [right; by rewrite decide_False|left; by rewrite decide_True].
        -- intros t' h0 Hh0. rewrite <- Ev1. exact (Hsame t' h0 Hh0).
      * eexists. cbn. rewrite Edel. pose proof (cap_inv_heap k lv2 h' _ Hk Hh' eq_refl) as Hk'.
        replace (with_eps _ _ _ _) with (with_eps (mkCapState (tables k) (entries k) h' (inited k)) (endpoints s)
          (u64 (s_next_endpoint_id s + 1)) s) by (by rewrite Es1).
        apply (inv_eps s lv ql box rq ∅ _ _ e); [done|exact Hk'|..|done|by left|].
        -- change (lv2 CIpcMsg = lv CIpcMsg). rewrite El2, <- (ii_msgs _ _ _ _ _ _ I1), Es1. apply I.
        -- rewrite upd_eq, <- Hdom, Ee1, dom_insert_L. apply not_elem_of_dom in He. set_solver.
        -- intros t' h0 r e' Hh0 Hv Hne. change (cap_view k t' h0 = Some (CAP_TYPE_ENDPOINT, r, e')) in Hv.
           rewrite (Hsame t' h0 Hh0), Ev1 in Hv. by eapply (ii_view _ _ _ _ _ _ I t' h0 r).
  - destruct Hpost as (Hh & Hnone & Hup). wp_steps. split; [done|]. split.
    + unfold create_post. exists e. split_and!; try done; [lia|lia|by rewrite <- Ev1|].
      intros t' h0 Hh0. rewrite <- Ev1. exact (Hup t' h0 Hh0).
    + exists lv2. replace (lset cap_lens k s1) with (with_eps k (endpoints s1) (u64 (s_next_endpoint_id s + 1)) s) by (by rewrite Es1).
      apply (inv_eps s lv ql box rq ∅ _ _ e); [done|done| |done|done|right; by rewrite Ee1|].
      * rewrite El2, <- (ii_msgs _ _ _ _ _ _ I1), Es1. apply I.
      * intros t' h0 r e' Hh0 Hv Hne. rewrite (Hup t' h0 Hh0) in Hv. case_decide.
        -- injection Hv as _ <-. rewrite Ee1, lookup_insert_eq. by eexists.
        -- rewrite Ev1 in Hv. apply Hgrow. by eapply (ii_view _ _ _ _ _ _ I t' h0 r).
Qed.
End spec.

(** ** Executions

    Threads send, try to receive, take turns of the receiving loop and create
    endpoints, in any order and on any tables; between the operations the
    scheduler state moves on (preemptions, other components), without losing a
    thread. *)
Inductive ipc_event := EvSend (e : Z) (p : payload) | EvRecv (e : Z) (p : payload) | EvNone.

(** The payload a receiver finds in its buffer. *)
Definition read_out (o : ks_ipc_msg) : payload := (ks_tag o, take (Z.to_nat (ks_len o)) (ks_data o)).

Section steps.
Context {H : Type} {OH : ObjHeap H}.
Implicit Types (s : ipc_state H) (box : Z → list payload).

Definition ipc_ok s box : Prop := ∃ lv ql rq, ipc_inv s lv ql box rq ∅.

Definition send_event (a : ks_ipc_status + Z) (st : ks_ipc_status) (msg : ks_ipc_msg) : ipc_event :=
  match a, st with inr e, KS_IPC_OK => EvSend e (sent msg) | _, _ => EvNone end.
Definition recv_event (a : ks_ipc_status + Z) (st : ks_ipc_status) (o : ks_ipc_msg) : ipc_event :=
  match a, st with inr e, KS_IPC_OK => EvRecv e (read_out o) | _, _ => EvNone end.

Inductive ipc_step s : ipc_event → ipc_state H → Prop :=
| step_send t h msg c c' st s' :
    cpu_wf c → irq_depth c = 0 → is_Some (tables (ip_cap s) !! t) → 0 ≤ h < 2 ^ 64 → ks_msg_ok msg →
    ipc_send_cap t h (Some msg) c s = Ret (st, c', s') →
    ipc_step s (send_event (access s t h CAP_R_SEND) st msg) s'
| step_try_recv t h out c c' st o s' :
    cpu_wf c → irq_depth c = 0 → is_Some (tables (ip_cap s) !! t) → 0 ≤ h < 2 ^ 64 → buffer_ok out →
    ipc_try_recv_cap t h (Some out) c s = Ret ((st, Some o), c', s') →
    ipc_step s (recv_event (access s t h CAP_R_RECV) st o) s'
| step_recv_turn e out sp c c' r s' :
    cpu_wf c → irq_depth c = 0 → is_Some (endpoints s !! e) → buffer_ok out → Z.land sp 0xF = 0 →
    s_current (ip_sched s) ≠ bootstrap (ip_sched s) →
    recv_iter e out sp c s = Ret (r, c', s') →
    ipc_step s (match r with Returned st o => recv_event (inr e) st o | Turned _ => EvNone end) s'
| step_create t rts c c' r s' :
    irq_depth c = 0 → is_Some (tables (ip_cap s) !! t) →
    endpoint_create_cap t rts true c s = Ret (r, c', s') → ipc_step s EvNone s'
| step_sched ss' rq' :
    sched_inv ss' rq' → bootstrap ss' = bootstrap (ip_sched s) →
    (∀ t, threads ss' !! s_current ss' = Some t → state t = RUNNING) →
    (∀ p, is_Some (threads (ip_sched s) !! p) → is_Some (threads ss' !! p)) →
    ipc_step s EvNone (lset sched_lens ss' s).

Inductive ipc_run s : list ipc_event → ipc_state H → Prop :=
| run_nil : ipc_run s [] s
| run_cons ev s1 evs s2 : ipc_step s ev s1 → ipc_run s1 evs s2 → ipc_run s (ev :: evs) s2.

Definition sends_to (e : Z) (evs : list ipc_event) : list payload :=
  omap (λ ev, match ev with EvSend e' p => if decide (e' = e) then Some p else None | _ => None end) evs.
Definition receipts_from (e : Z) (evs : list ipc_event) : list payload :=
  omap (λ ev, match ev with EvRecv e' p => if decide (e' = e) then Some p else None | _ => None end) evs.

Lemma sends_cons e ev evs : sends_to e (ev :: evs) =
  match ev with EvSend e' p => if decide (e' = e) then p :: sends_to e evs else sends_to e evs | _ => sends_to e evs end.
Proof. unfold sends_to. cbn. destruct ev; [|done..]. by case_decide. Qed.
Lemma receipts_cons e ev evs : receipts_from e (ev :: evs) =
  match ev with EvRecv e' p => if decide (e' = e) then p :: receipts_from e evs else receipts_from e evs
  | _ => receipts_from e evs end.
Proof. unfold receipts_from. cbn. destruct ev; [done| |done]. by case_decide. Qed.

Lemma read_received p out : buffer_ok out → read_out (received p out) = p.
Proof.
  intros _. destruct p as [tag d]. unfold read_out, received. cbn. rewrite Nat2Z.id, take_app_length. done.
Qed.

(** What one event does to the inboxes. *)
Definition box_step (ev : ipc_event) box : Z → list payload :=
  match ev with
  | EvSend e p => on e (box e ++ [p]) box
  | EvRecv e p => on e (tl (box e)) box
  | EvNone => box
  end.
Definition ev_ok (ev : ipc_event) box : Prop :=
  match ev with EvRecv e p => head (box e) = Some p | _ => True end.

Lemma wpe_elim {A} (m : M (ipc_state H) A) Q E c s a c' s' : wpe m Q E c s → m c s = Ret (a, c', s') → Q a c' s'.
Proof. unfold wpe. intros Hw Er. by rewrite Er in Hw. Qed.
Lemma wp_run {A} (m : M (ipc_state H) A) Q c s a c' s' : wp m Q c s → m c s = Ret (a, c', s') → Q a c' s'.
Proof. unfold wp. intros Hw Er. by rewrite Er in Hw. Qed.

Lemma take_ok e out s box rq p ps o s' : buffer_ok out → take_post e out s box rq p ps o s' →
  ev_ok (EvRecv e (read_out o)) box ∧ ipc_ok s' (box_step (EvRecv e (read_out o)) box).
Proof.
  intros Hout (Eb & -> & _ & _ & lv' & ql' & I'). rewrite (read_received p out) by done. cbn. rewrite Eb. split; [done|].
  by exists lv', ql', rq.
Qed.

Lemma step_correct s ev s' box : ipc_step s ev s' → ipc_ok s box →
  ev_ok ev box ∧ ipc_ok s' (box_step ev box).
Proof.
  intros Hs (lv & ql & rq & I). assert (ipc_ok s box) as Hok by (by exists lv, ql, rq). destruct Hs.
  - match goal with Ht : is_Some (tables _ !! _) |- _ => destruct Ht as [tbl Ht] end.
    destruct (Z.le_gt_cases (ks_len msg) KS_IPC_MSG_MAX) as [Hl|Hl]; last first.
    { match goal with Hr : ipc_send_cap _ _ _ _ _ = _ |- _ => eapply wp_run in Hr as Hpost end; last first.
      { unfold ipc_send_cap. wp_step. apply wp_assert_thread; [done|].
        destruct (Z.ltb_spec KS_IPC_MSG_MAX (ks_len msg)); [|lia]. apply (wp_ret _ (λ st _ s', st = KS_IPC_ERR_INVALID ∧ s' = s)). done. }
      destruct Hpost as [-> ->]. unfold send_event. by destruct (access s t h CAP_R_SEND). }
    match goal with Hr : ipc_send_cap _ _ _ _ _ = _ |- _ => eapply wpe_elim in Hr as Hpost; [|by eapply send_correct] end.
    cbv beta in Hpost. destruct Hpost as (_ & _ & Hpost). unfold send_event.
    destruct (access s t h CAP_R_SEND) as [err|e]; [destruct Hpost as [-> ->]; done|].
    destruct Hpost as (ep & He & Hpost). destruct (closed ep); [destruct Hpost as [-> ->]; done|].
    destruct Hpost as (-> & lv' & ql' & rq' & I' & _). split; [done|]. by exists lv', ql', rq'.
  - match goal with Ht : is_Some (tables _ !! _) |- _ => destruct Ht as [tbl Ht] end.
    match goal with Hr : ipc_try_recv_cap _ _ _ _ _ = _ |- _ => eapply wp_run in Hr as Hpost; [|by eapply try_recv_correct] end.
    cbv beta in Hpost. destruct Hpost as (_ & _ & Hpost). unfold recv_event.
    destruct (access s t h CAP_R_RECV) as [err|e].
    { destruct Hpost as [[= -> ->] ->]. done. }
    destruct Hpost as (ep & He & Hpost). destruct (box e) as [|p ps] eqn:Eb.
    { destruct Hpost as [[= -> ->] ->]. by destruct (closed ep). }
    destruct Hpost as (o' & [= -> ->] & Htake). by eapply take_ok.
  - match goal with He : is_Some (endpoints _ !! _) |- _ => destruct He as [ep He] end.
    match goal with Hr : recv_iter _ _ _ _ _ = _ |- _ => eapply wp_run in Hr as Hpost; [|by eapply iter_correct] end.
    cbv beta in Hpost. destruct Hpost as [_ Hpost]. destruct r as [st o|r].
    + destruct Hpost as [_ Hpost]. destruct (box e) as [|p ps] eqn:Eb.
      { destruct Hpost as (-> & -> & -> & _). unfold recv_event. by destruct (closed ep). }
      destruct Hpost as [-> Htake]. by eapply take_ok.
    + destruct Hpost as (_ & _ & lv' & ql' & rq' & I' & _). split; [done|]. by exists lv', ql', rq'.
  - match goal with Ht : is_Some (tables _ !! _) |- _ => destruct Ht as [tbl Ht] end.
    match goal with Hr : endpoint_create_cap _ _ _ _ _ = _ |- _ => eapply wpe_elim in Hr as Hpost; [|by eapply create_cap_correct] end.
    cbv beta in Hpost. destruct Hpost as (_ & _ & lv' & I'). split; [done|]. by exists lv', ql, rq.
  - split; [done|]. exists lv, ql, rq'. by eapply inv_sched.
Qed.

(** C14: In any run of sends, receives (blocking turns and polls), endpoint
    creations and scheduler steps, on any number of endpoints, what was queued
    on an endpoint plus what was sent to it is, in order and byte for byte,
    what was received from it plus what is still queued: messages are neither
    lost, duplicated, reordered nor altered, and the IPC invariant is kept. *)
Theorem ipc_fifo_no_loss s evs s' box :
  ipc_run s evs s' → ipc_ok s box →
  ∃ box', ipc_ok s' box' ∧ ∀ e, box e ++ sends_to e evs = receipts_from e evs ++ box' e.
Proof.
  intros Hr. revert box. induction Hr as [s|s ev s1 evs s2 Hs Hr IH]; intros box Hok.
  { exists box. split; [done|]. intros e. cbn. by rewrite app_nil_r. }
  destruct (step_correct _ _ _ _ Hs Hok) as [Hev Hok1]. destruct (IH _ Hok1) as (box' & Hok' & Hbox).
  exists box'. split; [done|]. intros e. specialize (Hbox e). rewrite sends_cons, receipts_cons.
  destruct ev as [e' p|e' p|]; unfold box_step, ev_ok in *; [| |done].
  - destruct (decide (e' = e)) as [->|Hne].
    + rewrite on_eq in Hbox. rewrite <- Hbox, <- app_assoc. done.
    + by rewrite on_ne in Hbox by done.
  - destruct (decide (e' = e)) as [->|Hne].
    + rewrite on_eq in Hbox. destruct (box e) as [|q ps]; [done|]. injection Hev as ->. cbn [tl app] in *. by rewrite Hbox.
    + by rewrite on_ne in Hbox by done.
Qed.
End steps.

(** ** Theorems on the operations *)

Section theorems.
Context {H : Type} {OH : ObjHeap H}.
Implicit Types (s : ipc_state H) (box : Z → list payload).

(** ipc_send_cap with a message within the size limit, on every branch: a
    dead handle, a handle of another type or without the send right is refused
    with its status, a closed endpoint with KS_IPC_ERR_CLOSED, and nothing
    changes; otherwise the message is appended to the queue of the endpoint,
    its waiter, if any, is woken, and the invariant of capabilities, queues
    and scheduler is kept. The only panic is out of memory. *)
Theorem ipc_send_cap_spec t tbl h msg c s lv ql box rq :
  ipc_inv s lv ql box rq ∅ → cpu_wf c → irq_depth c = 0 → tables (ip_cap s) !! t = Some tbl → 0 ≤ h < 2 ^ 64 →
  ks_msg_ok msg → ks_len msg ≤ KS_IPC_MSG_MAX →
  wpe (ipc_send_cap t h (Some msg)) (λ st c' s', c' = c ∧ caps_kept s s' ∧
    match access s t h CAP_R_SEND with
    | inl err => st = err ∧ s' = s
    | inr e => send_post e msg s box rq st s'
    end) (λ x, x = "ipc_msg_alloc: OOM") c s.
Proof. apply send_correct. Qed.

(** endpoint_create_cap returns a fresh handle to a new, empty, open
    endpoint with the requested rights and the drop right and changes no other
    handle, or an error status with no endpoint and no handle added; the IPC
    invariant is kept and the only panic is out of memory. *)
Theorem endpoint_create_cap_spec t tbl rts c s lv ql box rq :
  ipc_inv s lv ql box rq ∅ → irq_depth c = 0 → tables (ip_cap s) !! t = Some tbl →
  wpe (endpoint_create_cap t rts true) (λ r c' s', c' = c ∧ create_post t rts tbl s r s' ∧
    ∃ lv', ipc_inv s' lv' ql box rq ∅) (λ x, x = "endpoint_alloc: OOM") c s.
Proof. apply create_cap_correct. Qed.

(** C15: A receiver that finds its endpoint empty blocks and switches to the
    picked thread; from the state it leaves, any send to that endpoint through
    a valid handle succeeds (or panics out of memory) with the message queued
    and the receiver marked ready in a ready queue. *)
Theorem ipc_blocked_receiver_woken e ep out sp c s lv ql box rq i :
  ipc_inv s lv ql box rq ∅ → cpu_wf c → irq_depth c = 0 → endpoints s !! e = Some ep → closed ep = false →
  box e = [] → waiting_recv ep = 0 → buffer_ok out → Z.land sp 0xF = 0 →
  s_current (ip_sched s) ≠ bootstrap (ip_sched s) → rq i ≠ [] →
  let cur := s_current (ip_sched s) in
  wp (recv_iter e out sp) (λ r c1 s1, (∃ next, r = Turned (CtxSwitch cur next (daif c)) ∧ s_current (ip_sched s1) = next) ∧
    ∀ t tbl h msg c2, tables (ip_cap s1) !! t = Some tbl → 0 ≤ h < 2 ^ 64 → access s1 t h CAP_R_SEND = inr e →
      ks_msg_ok msg → ks_len msg ≤ KS_IPC_MSG_MAX → cpu_wf c2 → irq_depth c2 = 0 →
      wpe (ipc_send_cap t h (Some msg)) (λ st _ s2, st = KS_IPC_OK ∧ ∃ lv2 ql2 rq2 box2,
        ipc_inv s2 lv2 ql2 box2 rq2 ∅ ∧ box2 e = [sent msg] ∧ (∃ j, cur ∈ rq2 j) ∧
        state <$> threads (ip_sched s2) !! cur = Some READY) (λ x, x = "ipc_msg_alloc: OOM") c2 s1) c s.
Proof.
  intros I Hwf Hd He Hcl Hbox Hw Hout Hsp Hnb Hrq cur.
  eapply wp_mono; [by eapply iter_correct|]. cbv beta. intros r c1 s1 [_ Hpost].
  destruct r as [st o|r].
  { destruct Hpost as [_ Hpost]. rewrite Hbox in Hpost. destruct Hpost as (_ & _ & _ & Hpost). naive_solver. }
  destruct Hpost as (_ & _ & lv1 & ql1 & rq1 & I1 & Hreg & Hpost). fold cur in Hreg, Hpost.
  destruct r as [|prev next flags]; [by destruct Hpost as (_ & Hempty & _); destruct Hrq|].
  destruct Hpost as (-> & -> & -> & Hne & Hcur & Hbl). split; [by exists next|].
  intros t tbl h msg c2 Ht Hh Hacc Hmsg Hlen Hwf2 Hd2.
  eapply wpe_mono; [by eapply send_correct|]. cbv beta. intros st c' s2 (_ & _ & Hsend). rewrite Hacc in Hsend.
  destruct Hsend as (ep1 & He1 & Hsend). unfold registered in Hreg. rewrite He1 in Hreg. injection Hreg as Ew Ec.
  rewrite Ec in Hsend. destruct Hsend as (-> & lv2 & ql2 & rq2 & I2 & _ & Hwk). split; [done|].
  assert (cur ≠ 0) as Hc0.
  { destruct (sv_current _ _ (ii_sched _ _ _ _ _ _ I)) as [[tc Htc] _]. by eapply sched_nonnull; [apply I|]. }
  rewrite decide_False in Hwk by (by rewrite Ew). rewrite Ew in Hwk. unfold woken in Hwk.
  destruct (threads (ip_sched s1) !! cur) as [tc|]; [|done]. injection Hbl as Hbl. rewrite decide_True in Hwk by done.
  destruct Hwk as [Hq Hst]. exists lv2, ql2, rq2. eexists. split; [exact I2|]. split_and!; [by rewrite on_eq, Hbox| |done].
  exists (sched_intent_sanitize (th_intent tc)). rewrite Hq, qset_eq. set_solver.
Qed.
End theorems.

(** *** Examples: one table, two threads, one endpoint *)

Definition ipc_start : ipc_state ideal_heap := mkIpc sample_empty sample_run ∅ ∅ true true 1.

Lemma ipc_start_inv : ipc_inv ipc_start (λ _, ∅) (λ _, []) (λ _, []) sample_qs ∅.
Proof.
  split; cbn; try done.
  - apply sample_empty_inv.
  - apply sample_run_inv.
  - by intros t [= <-].
  - by intros e e' m ?%elem_of_nil.
  - intros m. split; [by intros ?%not_elem_of_empty|]. intros [?%not_elem_of_empty _]. done.
  - intros t h r e _. unfold cap_view, entry_of, sample_empty. cbn.
    destruct (decide (t = 0x10)) as [->|]; [|by rewrite lookup_singleton_ne].
    rewrite lookup_singleton_eq. cbn [mbind option_bind]. destruct (slots init_table !! _); by cbn.
Qed.

Definition send_recv : Z := Z.lor CAP_R_SEND CAP_R_RECV.
Definition ipc_open : ipc_state ideal_heap :=
  match endpoint_create_cap 0x10 send_recv true thread_cpu ipc_start with Ret (_, _, s) => s | _ => ipc_start end.
Definition open_handle : Z := cap_handle_make 1 255.
Definition open_ep : Z := 0x1000.

Lemma ipc_open_eq : endpoint_create_cap 0x10 send_recv true thread_cpu ipc_start =
  Ret (inr open_handle, thread_cpu, ipc_open).
Proof. vm_compute. reflexivity. Qed.

Lemma ipc_open_inv : ∃ lv, ipc_inv ipc_open lv (λ _, []) (λ _, []) sample_qs ∅.
Proof.
  pose proof (create_cap_correct 0x10 init_table send_recv thread_cpu _ _ _ _ _ ipc_start_inv eq_refl eq_refl) as Hc.
  eapply wpe_elim in Hc; [|exact ipc_open_eq]. by destruct Hc as (_ & _ & Hc).
Qed.

Definition sample_msg : ks_ipc_msg := mkKsMsg 7 3 ([1; 2; 3] ++ replicate 125 0).
Definition sample_out : ks_ipc_msg := mkKsMsg 0 0 (replicate 128 0).

Lemma ipc_open_table : is_Some (tables (ip_cap ipc_open) !! 0x10).
Proof. by vm_compute; eexists. Qed.
Lemma ipc_open_ep : endpoints ipc_open !! open_ep = Some (mkEp 1 0 0 0 false).
Proof. vm_compute. reflexivity. Qed.

Lemma endpoint_create_cap_witness :
  wpe (endpoint_create_cap 0x10 send_recv true) (λ r c' s', c' = thread_cpu ∧
    create_post 0x10 send_recv init_table ipc_start r s' ∧
    ∃ lv', ipc_inv s' lv' (λ _, []) (λ _, []) sample_qs ∅) (λ x, x = "endpoint_alloc: OOM") thread_cpu ipc_start.
Proof.
  apply (endpoint_create_cap_spec 0x10 init_table send_recv thread_cpu ipc_start (λ _, ∅));
    [apply ipc_start_inv|done|done].
Defined.

Lemma ipc_send_witness :
  wpe (ipc_send_cap 0x10 open_handle (Some sample_msg)) (λ st c' s', c' = thread_cpu ∧ caps_kept ipc_open s' ∧
    match access ipc_open 0x10 open_handle CAP_R_SEND with
    | inl err => st = err ∧ s' = ipc_open
    | inr e => send_post e sample_msg ipc_open (λ _, []) sample_qs st s'
    end) (λ x, x = "ipc_msg_alloc: OOM") thread_cpu ipc_open.
Proof.
  destruct ipc_open_inv as [lv I]. destruct ipc_open_table as [tbl Ht].
  apply (ipc_send_cap_spec 0x10 tbl open_handle sample_msg thread_cpu ipc_open lv (λ _, []));
    [exact I|done|done|exact Ht|done|done|done].
Defined.

Lemma ipc_fifo_witness : ∃ s' box', ipc_ok s' box' ∧
  ∀ e, [] ++ sends_to e [EvSend open_ep (7, [1; 2; 3])] = receipts_from e [EvSend open_ep (7, [1; 2; 3])] ++ box' e.
Proof.
  eexists. apply (ipc_fifo_no_loss ipc_open _ _ (λ _, [])).
  - apply (run_cons _ (send_event (access ipc_open 0x10 open_handle CAP_R_SEND) KS_IPC_OK sample_msg)
      match ipc_send_cap 0x10 open_handle (Some sample_msg) thread_cpu ipc_open with
      | Ret (_, _, s) => s | _ => ipc_open end); [|apply run_nil].
    apply (step_send _ 0x10 open_handle sample_msg thread_cpu thread_cpu); done.
  - destruct ipc_open_inv as [lv I]. by exists lv, (λ _, []), sample_qs.
Defined.

Lemma ipc_blocked_receiver_woken_witness :
  wp (recv_iter open_ep sample_out sp_sample) (λ r c1 s1,
    ∃ next, r = Turned (CtxSwitch 0x1000 next 0) ∧ s_current (ip_sched s1) = next) thread_cpu ipc_open.
Proof.
  destruct ipc_open_inv as [lv I].
  eapply wp_mono; [apply (ipc_blocked_receiver_woken open_ep (mkEp 1 0 0 0 false) sample_out sp_sample thread_cpu
    ipc_open lv (λ _, []) (λ _, []) sample_qs INTERACTIVE); [exact I|done|done|apply ipc_open_ep|done..]|].
  cbv beta. intros r c1 s1 [Hr _]. exact Hr.
Defined.

(** ** A lost wake-up

    [ipc_recv_cap] registers the receiver and unmasks interrupts before it
    calls [sched_block_current].  A receiver that is preempted in between is
    ready, not blocked, when a sender takes it off the endpoint, so the wake-up
    has no effect; the receiver then blocks with a message in the queue, and
    later senders find no receiver to wake. *)

(** An interrupt that ends the slice of the running thread, whose frame is
    [tf]: taken with interrupts masked, left with the mask of a preempted
    thread. *)
Definition timer_preemption (tf : Z) : M sched_state Z :=
  irq_global_disable ;;; preempt_set_need_resched ;;; r <- sched_irq_exit tf ;; irq_global_enable ;;; ret r.

(** C38: A run from a state satisfying the invariant in which the message
    arrives between the poll of the receiver and its sched_block_current: the
    send finds the receiver not blocked and clears the waiter, the receiver
    then blocks with the message queued, and a further message does not wake
    it either. *)
Theorem ipc_recv_loses_wakeup :
  (∃ lv, ipc_inv ipc_open lv (λ _, []) (λ _, []) sample_qs ∅) ∧
  wp (recv_poll open_ep sample_out ;;;
      zoom sched_lens (timer_preemption 0x102000) ;;;
      ipc_send_cap 0x10 open_handle (Some sample_msg) ;;;
      zoom sched_lens (timer_preemption 0x202000) ;;;
      zoom sched_lens (sched_block_current sp_sample) ;;;
      ipc_send_cap 0x10 open_handle (Some sample_msg))
    (λ st _ s, st = KS_IPC_OK ∧ s_current (ip_sched s) = 0x2000 ∧
      state <$> threads (ip_sched s) !! 0x1000 = Some BLOCKED ∧
      ∃ ep, endpoints s !! open_ep = Some ep ∧ waiting_recv ep = 0 ∧ q_head ep ≠ 0) thread_cpu ipc_open.
Proof.
  split; [apply ipc_open_inv|]. vm_compute. split_and!; try done. by eexists.
Qed.
