(* ===== verification/Thread.v ===== *)
(** * Thread objects and their stacks (Kern/Kernel/sched/thread.c, thread.h)

    A thread is a slab object with a four-page kernel stack.  Creation lays out
    a synthetic interrupt frame at the top of the stack and a cooperative
    context below it; destruction gives the pages and the object back.  The
    model composes the slab allocator and the page manager (Slab, Pmm) with the
    thread store of the scheduler (Sched). *)

From S2P Require Import Prelude Irq Addr Platform Pmm ObjHeap Task Sched Slab.

Definition KSTACK_PAGES_DEFAULT : Z := 4.
Definition KSTACK_PAGE_SIZE : Z := 4096.
Definition SPSR_EL1H_IRQ_ENABLED : Z := 0x345.

(** The registers of [ctx_t] that creation sets; the others stay 0, and [sp]
    is the field [ctx_sp] of the thread. *)
Record ctx_regs := mkCtx { x19 : Z; x20 : Z; x30 : Z }.

(** [trap_frame_t]; the registers [x2]..[x30] and the fields not named here
    are 0 in a new frame. *)
Record trap_frame := mkFrame { tf_x0 : Z; tf_x1 : Z; sp_at_fault : Z; elr_el1 : Z; spsr_el1 : Z }.

(** The object and page allocators, the scheduler's thread store, the saved
    registers and frames in memory, and the statics of thread.c. *)
Record thread_sys := mkTs {
  ts_slab : slab_state;
  ts_sched : sched_state;
  ts_ctxs : gmap Z ctx_regs;
  ts_frames : gmap Z trap_frame;
  s_next_tid : Z;
  s_thread_cache_inited : bool;
}.

Definition slab_lens : lens thread_sys slab_state :=
  mkLens ts_slab (λ x y, mkTs x (ts_sched y) (ts_ctxs y) (ts_frames y) (s_next_tid y) (s_thread_cache_inited y)).
Definition tsched_lens : lens thread_sys sched_state :=
  mkLens ts_sched (λ x y, mkTs (ts_slab y) x (ts_ctxs y) (ts_frames y) (s_next_tid y) (s_thread_cache_inited y)).

Definition get_tthread (t : Z) : M thread_sys thread := zoom tsched_lens (get_thread t).
(** An assignment to the thread object at [t], which exists. *)
Definition put_thread (t : Z) (v : thread) : M thread_sys unit :=
  zoom tsched_lens (modify (λ s, set_threads (<[t := v]> (threads s)) s)).
Definition put_frame (p : Z) (f : trap_frame) : M thread_sys unit :=
  modify (λ y, mkTs (ts_slab y) (ts_sched y) (ts_ctxs y) (<[p := f]> (ts_frames y)) (s_next_tid y) (s_thread_cache_inited y)).
Definition put_ctx (t : Z) (r : ctx_regs) : M thread_sys unit :=
  modify (λ y, mkTs (ts_slab y) (ts_sched y) (<[t := r]> (ts_ctxs y)) (ts_frames y) (s_next_tid y) (s_thread_cache_inited y)).

(** [sizeof(thread_t)] *)
Definition sizeof_thread : Z := 232.

Definition thread_alloc_init : M thread_sys unit :=
  b <- gets s_thread_cache_inited ;;
  if (b : bool) then ret tt
  else
    zoom slab_lens (slab_cache_init (Some CThread) sizeof_thread 8) ;;;
    modify (λ y, mkTs (ts_slab y) (ts_sched y) (ts_ctxs y) (ts_frames y) (s_next_tid y) true).

Definition thread_cache_get_stats (out : bool) (y : thread_sys) : option slab_cache_stats :=
  if negb (s_thread_cache_inited y) then None else slab_cache_get_stats (Some CThread) out (ts_slab y).

Definition align_down_u64 (v a : Z) : Z := Z.land v (u64_not (u64 (a - 1))).

Section code.
(** The addresses of [thread_trampoline] and of the assembly [thread_start]. *)
Context (trampoline start : Z).

Definition thread_build_initial_irq_frame (t entry arg stack_top_aligned : Z) : M thread_sys Z :=
  let tf_sp := align_down_u64 (u64 (stack_top_aligned - sizeof_trap_frame)) 16 in
  put_frame tf_sp (mkFrame entry arg stack_top_aligned trampoline SPSR_EL1H_IRQ_ENABLED) ;;;
  v <- get_tthread t ;;
  put_thread t (with_trap tf_sp tf_sp v) ;;;
  ret tf_sp.

(** A thread object after [memset] and the first assignments. *)
Definition blank_thread (n : Z) : thread := mkThread n 0 0 0 0 0 0 0 0 0 0 0 0 0 0 READY.
Definition with_stack (b sz top : Z) (t : thread) : thread :=
  mkThread (tid t) (ctx_sp t) (th_task t) b sz top (rq_next t)
    (last_trap t) (irq_sp t) (saved_daif t) (th_intent t) (slice_ticks_budget t)
    (slice_ticks_used t) (runtime_ticks_total t) (preemptions t) (state t).
(** The last block of assignments of [thread_create_named]. *)
Definition initial_fields (sp : Z) (t : thread) : thread :=
  mkThread (tid t) sp (th_task t) (kstack_base t) (kstack_size t) (kstack_top t) (rq_next t)
    (last_trap t) (irq_sp t) 0 (intent_code INTERACTIVE) 0 0 0 0 READY.

(** The name is kept for diagnostics only. *)
Definition thread_create_named (entry arg : Z) : M thread_sys Z :=
  ASSERT_THREAD_CONTEXT ;;;
  (if entry =? 0 then panic "thread_create: entry is NULL" else ret tt) ;;;
  t <- zoom slab_lens (slab_alloc (Some CThread)) ;;
  (if t =? 0 then panic "thread_create: OOM thread_t" else ret tt) ;;;
  n <- gets s_next_tid ;;
  put_thread t (blank_thread n) ;;;
  modify (λ y, mkTs (ts_slab y) (ts_sched y) (ts_ctxs y) (ts_frames y) (u32 (n + 1)) (s_thread_cache_inited y)) ;;;
  r <- zoom slab_lens (zoom pmm_lens (pmm_alloc_pages KSTACK_PAGES_DEFAULT true)) ;;
  match r with
  | None =>
    zoom slab_lens (slab_free (Some CThread) t) ;;;
    panic "thread_create: OOM stack pages"
  | Some stack_pa =>
    let stack_va := phys_to_hh_virt stack_pa in
    let stack_size := KSTACK_PAGES_DEFAULT * KSTACK_PAGE_SIZE in
    let sp := align_down_u64 (u64 (stack_va + stack_size)) 16 in
    v <- get_tthread t ;;
    put_thread t (with_stack stack_va stack_size sp v) ;;;
    tf_sp <- thread_build_initial_irq_frame t entry arg sp ;;
    put_ctx t (mkCtx entry arg start) ;;;
    v <- get_tthread t ;;
    put_thread t (initial_fields (u64 (align_down_u64 tf_sp 16 - 0x100)) v) ;;;
    ret t
  end.

Definition thread_create (entry arg : Z) : M thread_sys Z := thread_create_named entry arg.

Fixpoint free_stack (pa_base i : Z) (n : nat) : M thread_sys unit :=
  match n with
  | O => ret tt
  | S n =>
    zoom slab_lens (zoom pmm_lens (pmm_free_page (u64 (pa_base + i * KSTACK_PAGE_SIZE)))) ;;;
    free_stack pa_base (i + 1) n
  end.

(** A freed object is gone from the store. *)
Definition thread_destroy (t : Z) : M thread_sys unit :=
  if t =? 0 then ret tt
  else
    ASSERT_THREAD_CONTEXT ;;;
    v <- get_tthread t ;;
    (if negb (kstack_base v =? 0) && negb (kstack_size v =? 0) then
       let pa_base := hh_virt_to_phys (kstack_base v) in
       let pages := u32 (kstack_size v / KSTACK_PAGE_SIZE) in
       free_stack pa_base 0 (Z.to_nat pages)
     else ret tt) ;;;
    zoom slab_lens (slab_free (Some CThread) t) ;;;
    zoom tsched_lens (modify (λ s, set_threads (delete t (threads s)) s)) ;;;
    modify (λ y, mkTs (ts_slab y) (ts_sched y) (delete t (ts_ctxs y)) (ts_frames y) (s_next_tid y) (s_thread_cache_inited y)).
End code.

(** ** Layout *)

Lemma align_down_16 v : 0 ≤ v < 2 ^ 64 → v mod 16 = 0 → align_down_u64 v 16 = v.
Proof.
  intros Hv Hm. unfold align_down_u64. change (u64 (16 - 1)) with (2 ^ 4 - 1). rewrite u64_land_not by lia.
  change (2 ^ 4) with 16. lia.
Qed.

(** The thread that [thread_create] leaves, with its stack at [b]. *)
Definition kstack_bytes : Z := KSTACK_PAGES_DEFAULT * KSTACK_PAGE_SIZE.
Definition created (n b : Z) : thread :=
  let top := b + kstack_bytes in
  let tf := top - sizeof_trap_frame in
  mkThread n (tf - 0x100) 0 b kstack_bytes top 0 tf tf 0 (intent_code INTERACTIVE) 0 0 0 0 READY.

Lemma land_15 v : Z.land v 0xF = v mod 16.
Proof. change 0xF with (Z.ones 4). by rewrite Z.land_ones by lia. Qed.

(** It passes the checks of the run queue. *)
Lemma created_ok boot t n b : 0 < b → b + kstack_bytes < 2 ^ 64 → b mod 16 = 0 → thread_ok boot t (created n b).
Proof.
  intros Hb Ht Hm. unfold thread_ok. rewrite !land_15. unfold created. cbn [kstack_base kstack_top kstack_size irq_sp ctx_sp].
  unfold kstack_bytes, KSTACK_PAGES_DEFAULT, KSTACK_PAGE_SIZE, sizeof_trap_frame in *. split.
  - intros _. rewrite u64_small by lia. split_and!; try lia. Z.div_mod_to_equations. lia.
  - intros _. Z.div_mod_to_equations. lia.
Qed.

(** ** Ownership of stacks

    [stk] maps a thread object to the first page of its stack; those pages are
    allocated, belong to no slab cache and to no other stack. *)
Record th_inv (y : thread_sys) (st : pmm_state) (ps : cache_id → list Z) (lv : lives) (stk : gmap Z Z) : Prop := {
  ti_slab : ∃ fl, slab_repg (ts_slab y) st ps fl lv;
  ti_stack : ∀ t i, stk !! t = Some i → t ∈ lv CThread ∧ 0 ≤ i ∧ i + KSTACK_PAGES_DEFAULT ≤ total_pages st ∧
    ∃ v, threads (ts_sched y) !! t = Some v ∧ kstack_base v = phys_to_hh_virt (page_pa st i) ∧ kstack_size v = kstack_bytes;
  ti_pages : ∀ t i j, stk !! t = Some i → j ∈ run i KSTACK_PAGES_DEFAULT →
    (j ∉ free_set st) ∧ ¬ in_metadata st (page_pa st j) ∧ ∀ k, phys_to_hh_virt (page_pa st j) ∉ ps k;
  ti_disj : ∀ t t' i i', stk !! t = Some i → stk !! t' = Some i' → t ≠ t' →
    run i KSTACK_PAGES_DEFAULT ## run i' KSTACK_PAGES_DEFAULT;
  ti_store : ∀ t, is_Some (threads (ts_sched y) !! t) → t ∈ lv CThread ∨ t = bootstrap (ts_sched y);
  ti_boot : ∀ i d, 0 ≤ i < total_pages st → 0 ≤ d < PAGE_SIZE →
    bootstrap (ts_sched y) ≠ phys_to_hh_virt (page_pa st i) + d;
}.

(** The caches do not depend on the rest of the page manager. *)
Lemma slab_pmm_frame s st st' ps fl lv g' : slab_repg s st ps fl lv →
  g_pmm g' = Some st' ∧ pmm_wf st' ∧ pressure_ok st' g' → same_window st st' →
  (∀ k i, 0 ≤ i < total_pages st → phys_to_hh_virt (page_pa st i) ∈ ps k → i ∉ free_set st → i ∉ free_set st') →
  slab_repg (mkSlab g' (sl_caches s) (sl_pages s) (sl_words s)) st' ps fl lv.
Proof.
  intros [Hp Hc Hd Ho] Hg Hw Hf. split; try done.
  - intros j. destruct (Hc j) as [? ? ? ? Hpg ? ?]. split; try done.
    intros x Hx. eapply page_rep_frame; [done|by apply Hpg|done|done].
  - intros k sp Hsp. destruct (Ho k sp Hsp) as (i & Hi & Hif & ->). exists i. pose proof Hw as (_ & _ & Et & _).
    split_and!; [lia|lia|by apply (Hf k)|by rewrite (same_window_pa st st') by done].
Qed.

(** *** Steps of creation and destruction on the invariant *)

Lemma inv_slab_alloc y st ps lv stk s' lv' : th_inv y st ps lv stk → slab_grown st ps s' lv' →
  lv CThread ⊆ lv' CThread →
  ∃ st' ps', th_inv (lset slab_lens s' y) st' ps' lv' stk ∧ same_window st st' ∧ free_set st' ⊆ free_set st.
Proof.
  intros [[fl R] Hst Hpg Hdj Hto Hbt] (st' & ps' & fl' & R' & Hw & Hf & Hnew) Hlv. exists st', ps'.
  pose proof Hw as (_ & _ & Et & _). split_and!; [|done|done].
  assert (∀ j, page_pa st' j = page_pa st j) as Epa by (intros; by apply same_window_pa).
  split; cbn.
  - by exists fl'.
  - intros t i Hi. destruct (Hst t i Hi) as (Ht & Hi0 & Hi4 & Hv). rewrite Epa, Et. split_and!; try done. by apply Hlv.
  - intros t i j Hi Hj. destruct (Hpg t i j Hi Hj) as (Hjf & Hjm & Hjs). rewrite Epa. split_and!.
    + intros Hx. by apply Hjf, Hf.
    + unfold in_metadata in *. destruct Hw as (_ & _ & _ & -> & ->). done.
    + intros k [Hx|(i' & Hi' & _ & E)]%Hnew; [by apply (Hjs k)|]. apply Hjf.
      destruct (Hst t i Hi) as (_ & Hi0 & Hi4 & _). apply elem_of_run in Hj.
      pose proof (rep_shape _ _ _ _ _ R) as Hsh. apply elem_of_free_bits in Hi' as Hi''.
      replace j with i'; [done|]. symmetry. apply (virt_page_inj st); [done|lia|apply Hi''|done].
  - done.
  - intros t Ht. destruct (Hto t Ht) as [?|?]; [left; by apply Hlv|by right].
  - intros i d. rewrite Epa, Et. apply Hbt.
Qed.

Lemma inv_stack_alloc y st ps lv stk t v g' st' i :
  th_inv y st ps lv stk → g_pmm g' = Some st' ∧ pmm_wf st' ∧ pressure_ok st' g' → same_window st st' →
  0 ≤ i → i + KSTACK_PAGES_DEFAULT ≤ total_pages st → run i KSTACK_PAGES_DEFAULT ⊆ free_set st →
  free_set st' = free_set st ∖ run i KSTACK_PAGES_DEFAULT →
  t ∈ lv CThread → stk !! t = None →
  kstack_base v = phys_to_hh_virt (page_pa st i) → kstack_size v = kstack_bytes →
  th_inv (lset tsched_lens (set_threads (<[t := v]> (threads (ts_sched y))) (ts_sched y))
    (lset slab_lens (lset pmm_lens g' (ts_slab y)) y)) st' ps lv (<[t := i]> stk).
Proof.
  intros [[fl R] Hst Hpg Hdj Hto Hbt] Hg Hw Hi0 Hi4 Hrun Hfree Hlive Hnew Eb Es. pose proof Hw as (_ & _ & Et & _).
  assert (∀ j, page_pa st' j = page_pa st j) as Epa by (intros; by apply same_window_pa).
  assert (∀ j, in_metadata st' j ↔ in_metadata st j) as Emd.
  { intros j. unfold in_metadata. destruct Hw as (_ & _ & _ & -> & ->). done. }
  pose proof (rep_shape _ _ _ _ _ R) as Hsh.
  assert (∀ j k, j ∈ free_set st → phys_to_hh_virt (page_pa st j) ∉ ps k) as Hps.
  { intros j k Hj Hx. destruct (sr_own _ _ _ _ _ R k _ Hx) as (j' & Hj' & Hjf & E).
    apply elem_of_free_bits in Hj as Hj''. apply Hjf. replace j' with j; [done|]. apply (virt_page_inj st); [done|apply Hj''|done|done]. }
  split; cbn.
  - exists fl. eapply slab_pmm_frame; [done|done|done|]. intros k j _ _ Hj. rewrite Hfree. set_solver.
  - intros t' i' [[<- <-]|[Hne Hi']]%lookup_insert_Some.
    + rewrite Epa, Et. split_and!; try done. exists v. by rewrite lookup_insert_eq.
    + rewrite Epa, Et, lookup_insert_ne by done. by apply Hst.
  - intros t' i' j [[<- <-]|[Hne Hi']]%lookup_insert_Some Hj; rewrite Epa, Emd, Hfree.
    + split_and!; [set_solver| |intros k; by apply Hps, Hrun].
      destruct (sr_pmm _ _ _ _ _ R) as (_ & [_ Hm] & _). by apply Hm, Hrun.
    + destruct (Hpg t' i' j Hi' Hj) as (? & ? & ?). split_and!; try done. set_solver.
  - intros t1 t2 i1 i2 [[<- <-]|[Hn1 H1]]%lookup_insert_Some [[<- <-]|[Hn2 H2]]%lookup_insert_Some Hne; [done|..|by eapply Hdj].
    + intros j Hj Hj2. destruct (Hpg t2 i2 j H2 Hj2) as [Hjf _]. by apply Hjf, Hrun.
    + intros j Hj Hj2. destruct (Hpg t1 i1 j H1 Hj) as [Hjf _]. by apply Hjf, Hrun.
  - intros t' [<-|[_ Ht']]%lookup_insert_is_Some; [by left|by apply Hto].
  - intros j d. rewrite Epa, Et. apply Hbt.
Qed.

Lemma th_inv_ext y y' st ps lv stk : th_inv y st ps lv stk → ts_slab y' = ts_slab y → ts_sched y' = ts_sched y →
  th_inv y' st ps lv stk.
Proof. intros [] Es Ed. split; rewrite ?Es, ?Ed; done. Qed.

(** The address range of a stack of four managed pages. *)
Lemma stack_bounds st i : pmm_shape st → 0 ≤ i → i + KSTACK_PAGES_DEFAULT ≤ total_pages st →
  let b := phys_to_hh_virt (page_pa st i) in 0 < b ∧ b + kstack_bytes < 2 ^ 64 ∧ b mod 16 = 0.
Proof.
  intros Hsh Hi H4. unfold KSTACK_PAGES_DEFAULT, kstack_bytes, KSTACK_PAGE_SIZE in *.
  destruct (managed_page st i Hsh ltac:(lia)) as (Ha & Hb & E). destruct (managed_page st (i + 3) Hsh ltac:(lia)) as (_ & Hb3 & E3).
  cbv zeta in *. unfold page_aligned, PAGE_SIZE in Ha. rewrite E in *. rewrite E3 in Hb3.
  unfold SLAB_PAGE_SIZE, page_pa, PAGE_SIZE, KSTACK_PAGES_DEFAULT in *. split_and!; [lia|lia|]. Z.div_mod_to_equations. lia.
Qed.

Section create.
Context (trampoline start : Z).

(** The state after creation of [t] with its stack at [b]. *)
Definition created_sys (t entry arg b : Z) (sl : slab_state) (y : thread_sys) : thread_sys :=
  let top := b + kstack_bytes in
  mkTs sl (set_threads (<[t := created (s_next_tid y) b]> (threads (ts_sched y))) (ts_sched y))
    (<[t := mkCtx entry arg start]> (ts_ctxs y))
    (<[top - sizeof_trap_frame := mkFrame entry arg top trampoline SPSR_EL1H_IRQ_ENABLED]> (ts_frames y))
    (u32 (s_next_tid y + 1)) (s_thread_cache_inited y).

Lemma wp_get_tthread t v Q c (y : thread_sys) : threads (ts_sched y) !! t = Some v → Q v c y →
  wp (get_tthread t) Q c y.
Proof. intros Ht HQ. unfold get_tthread. apply wp_zoom. eapply wp_get_thread; [exact Ht|]. cbn. by destruct y. Qed.

Lemma wp_finish_create t entry arg b sl n Q c y :
  0 < b → b + kstack_bytes < 2 ^ 64 → b mod 16 = 0 → threads (ts_sched y) !! t = Some (blank_thread n) →
  Q t c (mkTs (ts_slab y) (set_threads (<[t := created n b]> (threads (ts_sched y))) (ts_sched y))
    (<[t := mkCtx entry arg start]> (ts_ctxs y))
    (<[b + kstack_bytes - sizeof_trap_frame :=
       mkFrame entry arg (b + kstack_bytes) trampoline SPSR_EL1H_IRQ_ENABLED]> (ts_frames y))
    (s_next_tid y) (s_thread_cache_inited y)) → sl = ts_slab y →
  wp (let sp := align_down_u64 (u64 (b + KSTACK_PAGES_DEFAULT * KSTACK_PAGE_SIZE)) 16 in
    v <- get_tthread t ;;
    put_thread t (with_stack b (KSTACK_PAGES_DEFAULT * KSTACK_PAGE_SIZE) sp v) ;;;
    tf_sp <- thread_build_initial_irq_frame trampoline t entry arg sp ;;
    put_ctx t (mkCtx entry arg start) ;;;
    v <- get_tthread t ;;
    put_thread t (initial_fields (u64 (align_down_u64 tf_sp 16 - 0x100)) v) ;;;
    ret t) Q c y.
Proof.
  intros Hb Ht Hm Hv HQ _. cbv zeta. fold kstack_bytes.
  assert (kstack_bytes = 16384) as Ek by reflexivity. rewrite Ek in *.
  rewrite u64_small by lia. rewrite (align_down_16 (b + 16384)) by (Z.div_mod_to_equations; lia).
  wp_step. eapply wp_get_tthread; [done|]. unfold put_thread at 1. wp_steps.
  unfold thread_build_initial_irq_frame. cbv zeta. rewrite (u64_small (b + 16384 - _)) by (unfold sizeof_trap_frame; lia).
  rewrite (align_down_16 (b + 16384 - _)) by (unfold sizeof_trap_frame; Z.div_mod_to_equations; lia).
  unfold put_frame. wp_steps. eapply wp_get_tthread; [cbn; by rewrite lookup_insert_eq|]. unfold put_thread at 1. wp_steps.
  unfold put_ctx. wp_steps. eapply wp_get_tthread; [cbn; by rewrite lookup_insert_eq|]. unfold put_thread. wp_steps.
  rewrite (align_down_16 (b + 16384 - _)) by (unfold sizeof_trap_frame; Z.div_mod_to_equations; lia).
  rewrite (u64_small (b + 16384 - _ - _)) by (unfold sizeof_trap_frame; lia).
  cbn. rewrite !insert_insert_eq. exact HQ.
Qed.

Definition create_fails (x : string) : Prop :=
  x = "thread_create: OOM thread_t" ∨ x = "thread_create: OOM stack pages".

Lemma create_correct entry arg c y st ps lv stk :
  th_inv y st ps lv stk → irq_depth c = 0 → entry ≠ 0 →
  wpe (thread_create_named trampoline start entry arg) (λ t c' y', c' = c ∧ t ≠ 0 ∧ (t ∉ lv CThread) ∧
    ∃ st' ps' i sl, let b := phys_to_hh_virt (page_pa st i) in
      th_inv y' st' ps' (upd CThread ({[t]} ∪ lv CThread) lv) (<[t := i]> stk) ∧ same_window st st' ∧
      0 ≤ i ∧ i + KSTACK_PAGES_DEFAULT ≤ total_pages st ∧
      run i KSTACK_PAGES_DEFAULT ⊆ free_set st ∧ free_set st' ⊆ free_set st ∖ run i KSTACK_PAGES_DEFAULT ∧
      y' = created_sys t entry arg b sl y) create_fails c y.
Proof.
  intros Hy Hd He. pose proof Hy as [[fl R] _ _ _ _ _].
  unfold thread_create_named. wpe_step. apply wp_assert_thread; [done|].
  destruct (Z.eqb_spec entry 0) as [|_]; [done|]. wpe_step. wp_step. wpe_step. apply wp_zoom. cbn [lget slab_lens].
  eapply wp_mono; [by eapply slab_alloc_correct|]. cbv beta. intros t c' s1 [-> [[-> _]|(Ht0 & Htl & Hgr)]].
  { apply wpe_bind. rewrite Z.eqb_refl. apply wpe_panic. by left. }
  destruct (Z.eqb_spec t 0) as [|_]; [done|]. wpe_step. wp_step. wpe_step. wp_step. wpe_step. unfold put_thread at 1. wp_steps.
  wpe_step. wp_step.
  destruct (inv_slab_alloc y st ps lv stk s1 (upd CThread ({[t]} ∪ lv CThread) lv) Hy Hgr) as (st1 & ps1 & Hy1 & Hw1 & Hf1).
  { rewrite upd_eq. set_solver. }
  pose proof Hy1 as [[fl1 R1] _ _ _ _ _]. cbn in R1. destruct (sr_pmm _ _ _ _ _ R1) as (Hg1 & Hwf1 & Hpr1).
  wpe_step. apply wp_zoom, wp_zoom. cbn [lget slab_lens pmm_lens tsched_lens lset ts_slab].
  eapply wp_mono; [by apply (alloc_pages_correct KSTACK_PAGES_DEFAULT c (sl_pmm s1) st1)|]. cbv beta.
  intros r c' g' [-> (st2 & Hg2 & Hwf2 & Hpr2 & Hw2 & Hpost)]. cbn [lset slab_lens pmm_lens tsched_lens ts_slab ts_sched].
  destruct r as [pa|]; last first.
  { destruct Hpost as [-> _]. apply wpe_bind, wpe_wp. apply wp_zoom. cbn [lget slab_lens ts_slab].
    pose proof (slab_pmm_frame s1 st1 st1 ps1 fl1 _ g' R1 ltac:(done) ltac:(done) ltac:(done)) as R2.
    eapply wp_mono; [eapply (slab_free_correct CThread t); [exact R2|done|rewrite upd_eq; set_solver]|]. cbv beta.
    intros _ c' s3 [-> _]. apply wpe_panic. by right. }
  destruct Hpost as (i & -> & Hi0 & Hi4 & Hrun & Hfree). apply wpe_wp.
  pose proof (rep_shape _ _ _ _ _ R1) as Hsh1. destruct (stack_bounds st1 i Hsh1 Hi0 Hi4) as (Hb & Hbt & Hbm).
  assert (page_pa st1 i = page_pa st i) as Epa by (by apply same_window_pa). rewrite Epa in *.
  cbv zeta. eapply wp_finish_create; [done|done|done|cbn; by rewrite lookup_insert_eq| |reflexivity].
  cbn [ts_slab ts_sched ts_ctxs ts_frames s_next_tid s_thread_cache_inited threads set_threads]. rewrite insert_insert_eq.
  split_and!; try done. exists st2, ps1, i, (mkSlab g' (sl_caches s1) (sl_pages s1) (sl_words s1)). cbv zeta.
  pose proof Hw1 as (_ & _ & Et1 & _).
  split_and!; [|by etrans|done|lia|by etrans|rewrite Hfree; by apply difference_mono_r|reflexivity].
  assert (stk !! t = None) as Hnew.
  { destruct (stk !! t) as [i'|] eqn:E; [|done]. destruct (ti_stack _ _ _ _ _ Hy t i' E) as [? _]. done. }
  eapply th_inv_ext; [eapply (inv_stack_alloc _ st1 ps1 _ stk t (created (s_next_tid y) (phys_to_hh_virt (page_pa st i))) g' st2 i Hy1);
    try done; [by rewrite upd_eq; set_solver|by rewrite Epa]|done|done].
Qed.
End create.

(** *** Giving a stack back *)

Lemma run_snoc_front i n : 0 ≤ n → run i (1 + n) = {[i]} ∪ run (i + 1) n.
Proof. intros Hn. apply set_eq. intros x. rewrite elem_of_union, elem_of_singleton, !elem_of_run. lia. Qed.

Lemma free_stack_correct n : ∀ pb k i c y st ps fl lv,
  slab_repg (ts_slab y) st ps fl lv → irq_depth c = 0 → 0 ≤ i → i + Z.of_nat n ≤ total_pages st →
  pb + k * KSTACK_PAGE_SIZE = page_pa st i →
  (∀ j, j ∈ run i (Z.of_nat n) → ¬ in_metadata st (page_pa st j) ∧ ∀ q, phys_to_hh_virt (page_pa st j) ∉ ps q) →
  wp (free_stack pb k n) (λ _ c' y', c' = c ∧ ∃ g' st',
    y' = lset slab_lens (lset pmm_lens g' (ts_slab y)) y ∧ slab_repg (ts_slab y') st' ps fl lv ∧ same_window st st' ∧
    free_set st' = free_set st ∪ run i (Z.of_nat n)) c y.
Proof.
  induction n as [|n IH]; intros pb k i c y st ps fl lv R Hd Hi Hn Epa Hpg; cbn [free_stack].
  - wp_steps. split; [done|]. exists (sl_pmm (ts_slab y)), st. split_and!; [by destruct y as [[]]|done|done|].
    replace (run i (Z.of_nat 0)) with (∅ : gset Z) by reflexivity. set_solver.
  - destruct (sr_pmm _ _ _ _ _ R) as (Hg & Hwf & Hpr). pose proof (rep_shape _ _ _ _ _ R) as Hsh.
    destruct (shape_bounds st Hsh) as (Hb1 & Hb2 & Hb3 & Hb4). rewrite Epa.
    assert (0 ≤ page_pa st i < 2 ^ 64) as Hpa.
    { destruct (managed_page st i Hsh ltac:(lia)) as (_ & Hb & E). cbv zeta in *. rewrite E in Hb.
      unfold page_pa, PAGE_SIZE, CAPAZ_HH_BASE, CAPAZ_RAM_BASE, SLAB_PAGE_SIZE in *. lia. }
    rewrite u64_small by done.
    rewrite Nat2Z.inj_succ, <- Z.add_1_l in Hpg, Hn. rewrite run_snoc_front in Hpg by lia.
    destruct (Hpg i ltac:(set_solver)) as [Hmd Hps].
    do 3 wp_step. cbn [lget slab_lens pmm_lens]. eapply wp_mono; [by apply (free_page_correct _ c (sl_pmm (ts_slab y)) st)|]. cbv beta.
    intros _ c' g1 [-> (st1 & Hg1 & Hwf1 & Hpr1 & Hw1 & Hfree & _)]. specialize (Hfree i ltac:(lia) eq_refl Hmd).
    assert (slab_repg (mkSlab g1 (sl_caches (ts_slab y)) (sl_pages (ts_slab y)) (sl_words (ts_slab y))) st1 ps fl lv) as R1.
    { eapply slab_pmm_frame; [done|done|done|]. intros q j Hj Hq Hjf. rewrite Hfree, not_elem_of_union, not_elem_of_singleton.
      split; [|done]. intros ->. by apply (Hps q). }
    pose proof Hw1 as (_ & _ & Et & Em & Emp).
    assert (∀ j, page_pa st1 j = page_pa st j) as Epa1 by (intros; by apply same_window_pa).
    eapply wp_mono; [eapply (IH pb (k + 1) (i + 1) c (lset slab_lens (lset pmm_lens g1 (ts_slab y)) y) st1 ps fl lv);
      [exact R1|done|lia|lia| |]|].
    + rewrite Epa1. unfold page_pa, KSTACK_PAGE_SIZE, PAGE_SIZE in *. lia.
    + intros j Hj. rewrite Epa1. destruct (Hpg j ltac:(set_solver)) as [Hjm Hjs]. split; [|done].
      unfold in_metadata in *. by rewrite Em, Emp.
    + cbv beta. intros _ c' y1 (-> & g' & st' & -> & R' & Hw' & Hf'). split; [done|]. exists g', st'.
      split_and!; [done|exact R'|by etrans|]. rewrite Hf', Hfree, Nat2Z.inj_succ, <- Z.add_1_l, run_snoc_front by lia.
      apply set_eq. intros x. rewrite !elem_of_union. tauto.
Qed.

Lemma destroy_correct t i c y st ps lv stk :
  th_inv y st ps lv stk → irq_depth c = 0 → stk !! t = Some i →
  wp (thread_destroy t) (λ _ c' y', c' = c ∧ ∃ st',
    th_inv y' st' ps (upd CThread (lv CThread ∖ {[t]}) lv) (delete t stk) ∧ same_window st st' ∧
    free_set st' = free_set st ∪ run i KSTACK_PAGES_DEFAULT ∧
    threads (ts_sched y') = delete t (threads (ts_sched y))) c y.
Proof.
  intros Hy Hd Ht. pose proof Hy as [[fl R] Hst Hpg Hdj Hto Hbt]. destruct (Hst t i Ht) as (Hlive & Hi0 & Hi4 & v & Hv & Eb & Es).
  pose proof (rep_shape _ _ _ _ _ R) as Hsh. destruct (stack_bounds st i Hsh Hi0 Hi4) as (Hb0 & Hb1 & _).
  destruct (rep_live_obj _ _ _ _ _ R CThread t Hlive) as (sp & Hsp & _ & _ & Hrg & Htr).
  unfold thread_destroy. destruct (Z.eqb_spec t 0); [lia|]. wp_step. apply wp_assert_thread; [done|].
  wp_step. eapply wp_get_tthread; [done|]. rewrite Eb, Es.
  destruct (Z.eqb_spec (phys_to_hh_virt (page_pa st i)) 0); [lia|]. change (kstack_bytes =? 0) with false. cbn [negb andb].
  change (Z.to_nat (u32 (kstack_bytes / KSTACK_PAGE_SIZE))) with 4%nat.
  assert (CAPAZ_RAM_BASE ≤ page_pa st i < WIN_END) as Hwin.
  { destruct (shape_bounds st Hsh) as (Hx1 & Hx2 & Hx3 & Hx4). rewrite WIN_END_eq.
    unfold CAPAZ_RAM_BASE, page_pa, PAGE_SIZE, KSTACK_PAGES_DEFAULT in *. lia. }
  rewrite phys_virt_roundtrip by done. wp_step.
  eapply wp_mono; [eapply (free_stack_correct 4 (page_pa st i) 0 i c y st ps fl lv); [done|done|done|exact Hi4|lia|]|].
  { intros j Hj. by destruct (Hpg t i j Ht Hj) as (_ & ? & ?). }
  cbv beta. intros _ c' y1 (-> & g' & st' & -> & R1 & Hw & Hfree). wp_step. apply wp_zoom.
  eapply wp_mono; [by eapply (slab_free_correct CThread t)|]. cbv beta. intros _ c' s2 [-> [fl2 R2]]. wp_steps.
  split; [done|]. exists st'. pose proof Hw as (_ & _ & Et & Em & Emp).
  assert (∀ j, page_pa st' j = page_pa st j) as Epa by (intros; by apply same_window_pa).
  split_and!; [|done|exact Hfree|done]. split; cbn.
  - by exists fl2.
  - intros t' i' [Hne Hi']%lookup_delete_Some. destruct (Hst t' i' Hi') as (? & ? & ? & v' & ? & ? & ?).
    rewrite upd_eq, Epa, Et. split_and!; try done; [set_solver|]. exists v'. by rewrite lookup_delete_ne.
  - intros t' i' j [Hne Hi']%lookup_delete_Some Hj. destruct (Hpg t' i' j Hi' Hj) as (Hjf & Hjm & Hjs).
    rewrite Epa, Hfree. unfold in_metadata in *. rewrite Em, Emp. split_and!; [|done|done].
    rewrite not_elem_of_union. split; [done|]. intros Hj'. by apply (Hdj t t' i i' Ht Hi' Hne j).
  - intros t1 t2 i1 i2 [_ H1]%lookup_delete_Some [_ H2]%lookup_delete_Some. by eapply Hdj.
  - intros t' [Hne Ht']%lookup_delete_is_Some. rewrite upd_eq. destruct (Hto t' Ht') as [?|?]; [left; set_solver|by right].
  - intros j d. rewrite Epa, Et. apply Hbt.
Qed.

(** ** Theorems *)

Section theorems.
Context (trampoline start : Z).

(** A slab object is in a managed page, so it is not the static bootstrap thread. *)
Lemma live_not_boot y st ps lv stk t : th_inv y st ps lv stk → t ∈ lv CThread → t ≠ bootstrap (ts_sched y).
Proof.
  intros Hy Ht. pose proof Hy as [[fl R] _ _ _ _ Hbt].
  destruct (rep_live_obj _ _ _ _ _ R CThread t Ht) as (sp & Hsp & _ & _ & Hrg & _).
  destruct (sr_own _ _ _ _ _ R CThread sp Hsp) as (i & Hi & _ & ->).
  replace t with (phys_to_hh_virt (page_pa st i) + (t - phys_to_hh_virt (page_pa st i))) by lia.
  apply not_eq_sym, Hbt; [done|]. unfold SLAB_PAGE_SIZE, PAGE_SIZE in *. lia.
Qed.

(** A created thread: a fresh object, a stack of four pages that were free, and
    the frame its first dispatch resumes. *)
Theorem thread_create_spec entry arg c y st ps lv stk :
  th_inv y st ps lv stk → irq_depth c = 0 → entry ≠ 0 →
  wpe (thread_create trampoline start entry arg) (λ t c' y', c' = c ∧ t ≠ 0 ∧ (t ∉ lv CThread) ∧
    ∃ st' ps' i, let b := phys_to_hh_virt (page_pa st i) in let top := b + kstack_bytes in
      th_inv y' st' ps' (upd CThread ({[t]} ∪ lv CThread) lv) (<[t := i]> stk) ∧
      run i KSTACK_PAGES_DEFAULT ⊆ free_set st ∧ free_set st' ⊆ free_set st ∖ run i KSTACK_PAGES_DEFAULT ∧
      threads (ts_sched y') = <[t := created (s_next_tid y) b]> (threads (ts_sched y)) ∧
      thread_ok (bootstrap (ts_sched y)) t (created (s_next_tid y) b) ∧
      ts_frames y' !! irq_sp (created (s_next_tid y) b) =
        Some (mkFrame entry arg top trampoline SPSR_EL1H_IRQ_ENABLED)) create_fails c y.
Proof.
  intros Hy Hd He. eapply wpe_mono; [by eapply create_correct|]. cbv beta.
  intros t c' y' (-> & Ht0 & Htl & st' & ps' & i & sl & Hy' & Hw & Hi0 & Hi4 & Hrun & Hfree & ->).
  split_and!; try done. exists st', ps', i. cbv zeta.
  pose proof Hy as [[fl R] _ _ _ _ _]. destruct (stack_bounds st i (rep_shape _ _ _ _ _ R) Hi0 Hi4) as (Hb & Hbt & Hbm).
  split_and!; try done; [by apply created_ok|]. cbn. by rewrite lookup_insert_eq.
Qed.

(** Creating a thread and enqueueing it keeps the scheduler invariant and
    appends the new thread, which was in no queue, to the interactive class;
    the only other outcome is one of the two out-of-memory panics. *)
Theorem thread_create_enqueue_spec entry arg c y st ps lv stk qs :
  th_inv y st ps lv stk → sched_inv (ts_sched y) qs → cpu_wf c → irq_depth c = 0 → entry ≠ 0 →
  wpe (t <- thread_create trampoline start entry arg ;; zoom tsched_lens (sched_enqueue t) ;;; ret t)
    (λ t c' y', c' = c ∧ (∀ i, t ∉ qs i) ∧
       sched_inv (ts_sched y') (qset INTERACTIVE (qs INTERACTIVE ++ [t]) qs)) create_fails c y.
Proof.
  intros Hy Hv Hwf Hd He. apply wpe_bind. eapply wpe_mono; [by eapply create_correct|]. cbv beta.
  intros t c' y' (-> & Ht0 & Htl & st' & ps' & i & sl & Hy' & Hw & Hi0 & Hi4 & Hrun & Hfree & ->).
  pose proof Hy as [[fl R] _ _ _ Hto _]. destruct (stack_bounds st i (rep_shape _ _ _ _ _ R) Hi0 Hi4) as (Hb & Hbt & Hbm).
  assert (t ≠ bootstrap (ts_sched y)) as Hnb by (apply (live_not_boot _ _ _ _ _ _ Hy'); rewrite upd_eq; set_solver).
  assert (threads (ts_sched y) !! t = None) as Hnew.
  { destruct (threads (ts_sched y) !! t) eqn:E; [|done]. by destruct (Hto t ltac:(by eexists)). }
  set (v := created (s_next_tid y) (phys_to_hh_virt (page_pa st i))).
  pose proof (sched_inv_add (ts_sched y) qs t v Hv Hnew Ht0 eq_refl eq_refl (created_ok _ _ _ _ Hb Hbt Hbm)) as Hv1.
  assert (∀ j, t ∉ qs j) as Hnq.
  { intros j Hj. destruct (ri_ready _ _ (sv_rq _ _ Hv) _ _ Hj) as (? & ? & _). congruence. }
  apply wpe_wp. wp_step. apply wp_zoom. cbn [lget tsched_lens created_sys ts_sched].
  eapply wp_mono; [eapply (enqueue_correct t v); [exact Hv1|done|cbn; by rewrite lookup_insert_eq|done| |done]|].
  { cbn. intros ->. destruct (sv_current _ _ Hv) as [[? ?] _]. congruence. }
  cbv beta. intros _ c' s' (-> & _ & _ & Hpost). rewrite decide_False in Hpost by done. destruct Hpost as [Hinv _].
  wp_steps. done.
Qed.

(** C16: thread_destroy of a live thread returns exactly the four pages of its
    stack to the page manager and its object to the cache, removes it from the
    threads, and keeps the invariant that the stacks of live threads are
    disjoint runs of allocated pages. *)
Theorem thread_destroy_spec t i c y st ps lv stk :
  th_inv y st ps lv stk → irq_depth c = 0 → stk !! t = Some i →
  wp (thread_destroy t) (λ _ c' y', c' = c ∧ ∃ st',
    th_inv y' st' ps (upd CThread (lv CThread ∖ {[t]}) lv) (delete t stk) ∧
    free_set st' = free_set st ∪ run i KSTACK_PAGES_DEFAULT ∧
    threads (ts_sched y') = delete t (threads (ts_sched y))) c y.
Proof.
  intros Hy Hd Ht. eapply wp_mono; [by eapply destroy_correct|]. cbv beta.
  intros _ c' y' (-> & st' & Hy' & _ & Hf & Hth). split; [done|]. by exists st'.
Qed.
End theorems.

(** *** Examples: five free pages, one for thread objects and four for a stack *)

Definition boot_only : sched_state :=
  mkSched (<[0x800 := boot_thread]> ∅) ∅ 0x800 0x800 (λ _, 0) 0 (mkSchedStats 0 0 0 0 (λ _, 0)) 0 0 0.
Definition sample_sys : thread_sys := mkTs fresh_slab boot_only ∅ ∅ 1 true.

Lemma boot_only_inv : sched_inv boot_only (λ _, []).
Proof.
  split; [split|..]; cbn; try done.
  - intros _. constructor.
  - by intros i p ?%elem_of_nil.
  - by intros p t [[<- <-]|[_ ?]]%lookup_insert_Some _.
  - intros p t [[<- <-]|[_ ?]]%lookup_insert_Some; [|done]. split; [done|]. done.
  - split; [by eexists|]. by intros i ?%elem_of_nil.
  - by intros p t [[<- <-]|[_ ?]]%lookup_insert_Some.
  - by intros i ?%elem_of_nil.
Qed.

Lemma sample_sys_inv : th_inv sample_sys five_pages (λ _, []) (λ _, ∅) ∅.
Proof.
  split; cbn; try done.
  - exists (λ _, []). destruct fresh_slab_rep as (st & ps & fl & R). split.
    + split_and!; [done|apply five_pages_wf|apply five_pressure].
    + intros k. pose proof (sr_cache _ _ _ _ _ R k) as Hc. split; try done.
      * apply Hc.
      * constructor.
      * by intros sp ?%not_elem_of_nil.
      * intros p. split; [by intros ?%not_elem_of_empty|]. by intros (sp & ?%not_elem_of_nil & _).
    + by intros k j sp ?%not_elem_of_nil.
    + by intros k sp ?%not_elem_of_nil.
  - intros t [<-|[_ [? ?]]]%lookup_insert_is_Some; [by right|done].
  - intros i d Hi Hd. destruct (managed_page five_pages i (proj1 five_pages_wf) Hi) as (_ & _ & E). cbv zeta in E. rewrite E.
    unfold CAPAZ_HH_BASE, page_pa, five_pages, PAGE_SIZE in *. cbn in *. lia.
Qed.

Lemma thread_create_witness :
  wpe (thread_create 0x40210000 0x40211000 0x40220000 7) (λ t c' y', c' = thread_cpu ∧ t ≠ 0 ∧ (t ∉ (∅ : gset Z)) ∧
    ∃ st' ps' i, let b := phys_to_hh_virt (page_pa five_pages i) in let top := b + kstack_bytes in
      th_inv y' st' ps' (upd CThread ({[t]} ∪ ∅) (λ _, ∅)) (<[t := i]> ∅) ∧
      run i KSTACK_PAGES_DEFAULT ⊆ free_set five_pages ∧
      free_set st' ⊆ free_set five_pages ∖ run i KSTACK_PAGES_DEFAULT ∧
      threads (ts_sched y') = <[t := created 1 b]> (threads boot_only) ∧
      thread_ok 0x800 t (created 1 b) ∧
      ts_frames y' !! irq_sp (created 1 b) =
        Some (mkFrame 0x40220000 7 top 0x40210000 SPSR_EL1H_IRQ_ENABLED)) create_fails thread_cpu sample_sys.
Proof.
  apply (thread_create_spec 0x40210000 0x40211000 0x40220000 7 thread_cpu sample_sys five_pages (λ _, []) (λ _, ∅) ∅);
    [apply sample_sys_inv|done|done].
Defined.

Lemma thread_create_enqueue_witness :
  wpe (t <- thread_create 0x40210000 0x40211000 0x40220000 7 ;; zoom tsched_lens (sched_enqueue t) ;;; ret t)
    (λ t c' y', c' = thread_cpu ∧ (∀ i : sched_intent, t ∉ ([] : list Z)) ∧
       sched_inv (ts_sched y') (qset INTERACTIVE ([] ++ [t]) (λ _, []))) create_fails thread_cpu sample_sys.
Proof.
  apply (thread_create_enqueue_spec 0x40210000 0x40211000 0x40220000 7 thread_cpu sample_sys five_pages (λ _, []) (λ _, ∅) ∅ (λ _, []));
    [apply sample_sys_inv|apply boot_only_inv|done|done|done].
Defined.

(** Creating a thread and destroying it at once. *)
Lemma thread_destroy_witness :
  wpe (t <- thread_create 0x40210000 0x40211000 0x40220000 7 ;; thread_destroy t)
    (λ _ c' y', c' = thread_cpu ∧ threads (ts_sched y') = threads boot_only) create_fails thread_cpu sample_sys.
Proof.
  apply wpe_bind. eapply wpe_mono; [apply (create_correct 0x40210000 0x40211000 0x40220000 7 thread_cpu sample_sys five_pages
    (λ _, []) (λ _, ∅) ∅); [apply sample_sys_inv|done|done]|]. cbv beta.
  intros t c' y' (-> & Ht0 & _ & st' & ps' & i & sl & Hy' & _ & _ & _ & _ & _ & ->).
  apply wpe_wp. eapply wp_mono; [apply (thread_destroy_spec t i thread_cpu _ st' ps' _ _ Hy'); [done|by rewrite lookup_insert_eq]|].
  cbv beta. intros _ c' y2 (-> & st2 & _ & _ & Hth). split; [done|]. rewrite Hth. cbn. rewrite delete_insert_id; [done|].
  apply lookup_insert_None. split; [done|]. intros <-.
  pose proof (live_not_boot _ _ _ _ _ 0x800 Hy') as Hnb. apply Hnb; [|done]. rewrite upd_eq. set_solver.
Defined.
