(* ===== verification/KHeap.v ===== *)
(** * Kernel heap (Kern/Kernel/kheap.c, kheap.h)

    Variable-sized buffers: eight size classes of blocks carved out of single
    pages and linked in free lists, and page runs with a header for anything
    larger.  Memory is a store of 64-bit words; the first word of a page holds
    the header that [kfree] reads. *)

From S2P Require Import Prelude Irq Addr Platform Pmm.

Definition NUM_BUCKETS : Z := 8.
Definition g_bucket_sizes : list Z := [16; 32; 64; 128; 256; 512; 1024; 2048].
Definition SLAB_MAGIC : Z := 0x534C4142.
Definition BIG_MAGIC : Z := 0x42494721.
Definition KHEAP_POISON_BYTE : Z := 0xA5.

(** [slab_page_hdr_t] and [big_alloc_hdr_t] as the eight bytes they occupy:
    a 32-bit magic, then two 16-bit fields or one 32-bit field. *)
Definition slab_page_hdr (bucket_index block_size : Z) : Z :=
  SLAB_MAGIC + 2 ^ 32 * (u16 bucket_index + 2 ^ 16 * u16 block_size).
Definition big_alloc_hdr (pages : Z) : Z := BIG_MAGIC + 2 ^ 32 * u32 pages.
Definition sizeof_hdr : Z := 8.
Definition hdr_magic (w : Z) : Z := u32 w.
Definition hdr_bucket_index (w : Z) : Z := u16 (w / 2 ^ 32).
Definition hdr_block_size (w : Z) : Z := u16 (w / 2 ^ 48).
Definition hdr_pages (w : Z) : Z := u32 (w / 2 ^ 32).

(** The counters of kheap.c. *)
Record kheap_counts := mkCounts {
  g_kheap_cur_bytes : Z; g_kheap_peak_bytes : Z;
  g_kheap_small_allocs : list Z; g_kheap_small_frees : list Z;
  g_kheap_big_alloc_calls : Z; g_kheap_big_free_calls : Z; g_kheap_fail_calls : Z;
  g_kheap_kmalloc_calls : Z; g_kheap_kfree_calls : Z; g_kheap_bucket_refills : list Z;
}.

(** [g_freelist], the counters, memory and the page manager.  Memory holds
    64-bit words by their address; the heap's own words (headers, links, poison)
    are at multiples of 8, so no two of them overlap. *)
Record kheap_state := mkKh {
  kh_pmm : pmm_globals; kh_mem : gmap Z Z; g_freelist : list Z; kh_counts : kheap_counts;
}.

Definition kh_pmm_lens : lens kheap_state pmm_globals :=
  mkLens kh_pmm (λ g s, mkKh g (kh_mem s) (g_freelist s) (kh_counts s)).
Definition get_word (p : Z) : M kheap_state Z := s <- get_st ;; load (kh_mem s !! p).
Definition upd_mem (f : gmap Z Z → gmap Z Z) : M kheap_state unit :=
  modify (λ s, mkKh (kh_pmm s) (f (kh_mem s)) (g_freelist s) (kh_counts s)).
Definition get_free (b : nat) : M kheap_state Z := s <- get_st ;; load (g_freelist s !! b).
Definition set_free (b : nat) (p : Z) : M kheap_state unit :=
  modify (λ s, mkKh (kh_pmm s) (kh_mem s) (<[b := p]> (g_freelist s)) (kh_counts s)).
Definition count (f : kheap_counts → kheap_counts) : M kheap_state unit :=
  modify (λ s, mkKh (kh_pmm s) (kh_mem s) (g_freelist s) (f (kh_counts s))).
Definition bump (b : nat) (l : list Z) : list Z := alter (λ x, u64 (x + 1)) b l.

(** ** Operations *)

Definition kheap_account_alloc (bytes : Z) (c : kheap_counts) : kheap_counts :=
  let cur := u64 (g_kheap_cur_bytes c + bytes) in
  mkCounts cur (if g_kheap_peak_bytes c <? cur then cur else g_kheap_peak_bytes c)
    (g_kheap_small_allocs c) (g_kheap_small_frees c) (g_kheap_big_alloc_calls c) (g_kheap_big_free_calls c)
    (g_kheap_fail_calls c) (g_kheap_kmalloc_calls c) (g_kheap_kfree_calls c) (g_kheap_bucket_refills c).
Definition kheap_account_free (bytes : Z) (c : kheap_counts) : kheap_counts :=
  mkCounts (if bytes <=? g_kheap_cur_bytes c then g_kheap_cur_bytes c - bytes else 0) (g_kheap_peak_bytes c)
    (g_kheap_small_allocs c) (g_kheap_small_frees c) (g_kheap_big_alloc_calls c) (g_kheap_big_free_calls c)
    (g_kheap_fail_calls c) (g_kheap_kmalloc_calls c) (g_kheap_kfree_calls c) (g_kheap_bucket_refills c).
Definition count_small_alloc (b : nat) (c : kheap_counts) : kheap_counts :=
  mkCounts (g_kheap_cur_bytes c) (g_kheap_peak_bytes c)
    (bump b (g_kheap_small_allocs c)) (g_kheap_small_frees c) (g_kheap_big_alloc_calls c) (g_kheap_big_free_calls c)
    (g_kheap_fail_calls c) (g_kheap_kmalloc_calls c) (g_kheap_kfree_calls c) (g_kheap_bucket_refills c).
Definition count_small_free (b : nat) (c : kheap_counts) : kheap_counts :=
  mkCounts (g_kheap_cur_bytes c) (g_kheap_peak_bytes c)
    (g_kheap_small_allocs c) (bump b (g_kheap_small_frees c)) (g_kheap_big_alloc_calls c) (g_kheap_big_free_calls c)
    (g_kheap_fail_calls c) (g_kheap_kmalloc_calls c) (g_kheap_kfree_calls c) (g_kheap_bucket_refills c).
Definition count_calls (big_a big_f fail km kf : Z) (c : kheap_counts) : kheap_counts :=
  mkCounts (g_kheap_cur_bytes c) (g_kheap_peak_bytes c)
    (g_kheap_small_allocs c) (g_kheap_small_frees c)
    (u64 (g_kheap_big_alloc_calls c + big_a)) (u64 (g_kheap_big_free_calls c + big_f))
    (u64 (g_kheap_fail_calls c + fail)) (u64 (g_kheap_kmalloc_calls c + km)) (u64 (g_kheap_kfree_calls c + kf))
    (g_kheap_bucket_refills c).
Definition count_refill (b : nat) (c : kheap_counts) : kheap_counts :=
  mkCounts (g_kheap_cur_bytes c) (g_kheap_peak_bytes c)
    (g_kheap_small_allocs c) (g_kheap_small_frees c) (g_kheap_big_alloc_calls c) (g_kheap_big_free_calls c)
    (g_kheap_fail_calls c) (g_kheap_kmalloc_calls c) (g_kheap_kfree_calls c) (bump b (g_kheap_bucket_refills c)).

(** The first class that is large enough; [None] is -1. *)
Fixpoint bucket_scan (size : Z) (i : nat) (l : list Z) : option nat :=
  match l with
  | [] => None
  | bs :: l => if size <=? bs then Some i else bucket_scan size (S i) l
  end.
Definition bucket_for_size (size : Z) : option nat := bucket_scan size 0 g_bucket_sizes.

(** The blocks of a new page, pushed one by one. *)
Fixpoint refill_loop (b : nat) (p bs fin : Z) (fuel : nat) : M kheap_state unit :=
  match fuel with
  | O => fault
  | S fuel =>
    if u64 (p + bs) <=? fin then
      h <- get_free b ;;
      upd_mem <[p := h]> ;;;
      set_free b p ;;;
      refill_loop b (u64 (p + bs)) bs fin fuel
    else ret tt
  end.

Definition refill_bucket (b : nat) : M kheap_state unit :=
  when (Z.of_nat b <? NUM_BUCKETS) (count (count_refill b)) ;;;
  r <- zoom kh_pmm_lens pmm_alloc_page_va ;;
  match r with
  | None => ret tt
  | Some (page_va, _) =>
    bs <- load (g_bucket_sizes !! b) ;;
    upd_mem <[page_va := slab_page_hdr (Z.of_nat b) bs]> ;;;
    let start := u64 (page_va + sizeof_hdr) in
    let start := Z.land (u64 (start + u64 (bs - 1))) (u64_not (u64 (bs - 1))) in
    let fin := u64 (page_va + PAGE_SIZE) in
    refill_loop b start bs fin (Z.to_nat PAGE_SIZE)
  end.

Definition kheap_init : M kheap_state unit :=
  modify (λ s, mkKh (kh_pmm s) (kh_mem s) (replicate (Z.to_nat NUM_BUCKETS) 0) (kh_counts s)).

Definition kheap_alloc_pages (pages : Z) : M kheap_state (option Z) :=
  ASSERT_THREAD_CONTEXT ;;;
  if pages =? 0 then ret None
  else
    r <- zoom kh_pmm_lens (pmm_alloc_pages pages true) ;;
    match r with
    | None => count (count_calls 0 0 1 0 0) ;;; ret None
    | Some pa => ret (Some (phys_to_hh_virt pa))
    end.

Fixpoint free_pages_loop (pa0 i : Z) (n : nat) : M kheap_state unit :=
  match n with
  | O => ret tt
  | S n =>
    zoom kh_pmm_lens (pmm_free_page (u64 (pa0 + u64 (i * PAGE_SIZE)))) ;;;
    free_pages_loop pa0 (i + 1) n
  end.

Definition kheap_free_pages (va pages : Z) : M kheap_state unit :=
  ASSERT_THREAD_CONTEXT ;;;
  if (va =? 0) || (pages =? 0) then ret tt
  else
    let pa0 := align_down_4k (hh_virt_to_phys va) in
    free_pages_loop pa0 0 (Z.to_nat pages).

(** 0 is NULL. *)
Definition kmalloc (size : Z) : M kheap_state Z :=
  ASSERT_THREAD_CONTEXT ;;;
  count (count_calls 0 0 0 1 0) ;;;
  if size =? 0 then ret 0
  else
    match bucket_for_size size with
    | Some b =>
      h <- get_free b ;;
      (if h =? 0 then refill_bucket b else ret tt) ;;;
      n <- get_free b ;;
      if n =? 0 then ret 0
      else
        nx <- get_word n ;;
        set_free b nx ;;;
        count (count_small_alloc b) ;;;
        bs <- load (g_bucket_sizes !! b) ;;
        count (kheap_account_alloc bs) ;;;
        ret n
    | None =>
      let total := u64 (size + sizeof_hdr) in
      let pages := u32 (align_up_4k total / PAGE_SIZE) in
      r <- kheap_alloc_pages pages ;;
      match r with
      | None => ret 0
      | Some base_va =>
        upd_mem <[base_va := big_alloc_hdr pages]> ;;;
        count (count_calls 1 0 0 0 0) ;;;
        count (kheap_account_alloc (u64 (pages * PAGE_SIZE))) ;;;
        ret (u64 (base_va + sizeof_hdr))
      end
    end.

Definition kfree (ptr : Z) : M kheap_state unit :=
  ASSERT_THREAD_CONTEXT ;;;
  count (count_calls 0 0 0 0 1) ;;;
  if ptr =? 0 then ret tt
  else
    let page_va := align_down_4k ptr in
    w <- get_word page_va ;;
    let magic := hdr_magic w in
    if magic =? SLAB_MAGIC then
      let b := hdr_bucket_index w in
      if NUM_BUCKETS <=? b then ret tt
      else
        upd_mem (poison ptr (Z.to_nat (hdr_block_size w / 8))) ;;;
        h <- get_free (Z.to_nat b) ;;
        upd_mem <[ptr := h]> ;;;
        set_free (Z.to_nat b) ptr ;;;
        count (count_small_free (Z.to_nat b)) ;;;
        count (kheap_account_free (hdr_block_size w))
    else if magic =? BIG_MAGIC then
      let pages := hdr_pages w in
      if pages =? 0 then ret tt
      else
        upd_mem (poison page_va (Z.to_nat (pages * PAGE_SIZE / 8))) ;;;
        count (count_calls 0 1 0 0 0) ;;;
        count (kheap_account_free (u64 (pages * PAGE_SIZE))) ;;;
        kheap_free_pages page_va pages
    else ret tt.

(** [kbuf_alloc], [kbuf_free] *)
Definition kbuf_alloc (size : Z) : M kheap_state Z := kmalloc size.
Definition kbuf_free (ptr : Z) : M kheap_state unit := kfree ptr.

(** [kheap_stats_t] *)
Record kheap_stats := mkKheapStats {
  cur_bytes : Z; peak_bytes : Z; kmalloc_calls : Z; kfree_calls : Z;
  big_alloc_calls : Z; big_free_calls : Z; fail_calls : Z; bucket_refill_calls : list Z;
}.
Definition kheap_get_stats (s : kheap_state) : kheap_stats :=
  let c := kh_counts s in
  mkKheapStats (g_kheap_cur_bytes c) (g_kheap_peak_bytes c) (g_kheap_kmalloc_calls c) (g_kheap_kfree_calls c)
    (g_kheap_big_alloc_calls c) (g_kheap_big_free_calls c) (g_kheap_fail_calls c) (g_kheap_bucket_refills c).

(** ** Size classes *)

(** The block size of class [b]: 16, 32, ..., 2048. *)
Definition bsize (b : nat) : Z := 2 ^ (Z.of_nat b + 4).

Lemma bsize_lookup b : (b < 8)%nat → g_bucket_sizes !! b = Some (bsize b).
Proof. intros Hb. do 8 (destruct b as [|b]; [reflexivity|]). lia. Qed.

Lemma bsize_bounds b : (b < 8)%nat → 16 ≤ bsize b ≤ 2048 ∧ 4096 mod bsize b = 0 ∧ bsize b mod 8 = 0.
Proof. intros Hb. do 8 (destruct b as [|b]; [by vm_compute|]). lia. Qed.

Lemma bucket_scan_spec size i l :
  match bucket_scan size i l with
  | Some b => (i ≤ b)%nat ∧ (∃ bs, l !! (b - i)%nat = Some bs ∧ size ≤ bs) ∧
      ∀ j bs, (j < b - i)%nat → l !! j = Some bs → bs < size
  | None => ∀ bs, bs ∈ l → bs < size
  end.
Proof.
  revert i. induction l as [|x l IH]; intros i; cbn [bucket_scan]; [by intros bs ?%elem_of_nil|].
  destruct (Z.leb_spec size x).
  - split_and!; [lia|exists x; by rewrite Nat.sub_diag|]. lia.
  - specialize (IH (S i)). destruct (bucket_scan size (S i) l) as [b|].
    + destruct IH as (Hle & (bs & Hl & Hs) & Hmin). split_and!; [lia|exists bs; split; [|done]|].
      * by replace (b - i)%nat with (S (b - S i)) by lia.
      * intros [|j] bs' Hj Hb'; [by injection Hb' as <-|]. apply (Hmin j); [lia|done].
    + intros bs [->|Hb]%elem_of_cons; [done|by apply IH].
Qed.

(** The smallest class that is large enough, when there is one. *)
Lemma bucket_for_size_correct size :
  match bucket_for_size size with
  | Some b => (b < 8)%nat ∧ size ≤ bsize b ∧ (∀ b', (b' < b)%nat → bsize b' < size)
  | None => 2048 < size
  end.
Proof.
  unfold bucket_for_size. pose proof (bucket_scan_spec size 0 g_bucket_sizes) as Hs.
  destruct (bucket_scan size 0 g_bucket_sizes) as [b|]; [|by apply Hs; set_solver].
  rewrite Nat.sub_0_r in Hs. destruct Hs as (_ & (bs & Hl & Hle) & Hmin). pose proof (lookup_lt_Some _ _ _ Hl) as Hb. cbn in Hb.
  rewrite bsize_lookup in Hl by lia. injection Hl as <-. split_and!; [lia|done|].
  intros b' Hb'. apply (Hmin b'); [done|]. apply bsize_lookup. lia.
Qed.

(** Blocks [k], [k+1], ... of a page of class [b], and all of them: the page
    starts with the header, so block 0 is not used. *)
Definition blocks_from (b : nat) (v k : Z) : list Z := (λ j, v + bsize b * j) <$> seqZ k (4096 / bsize b - k).
Definition blocks (b : nat) (v : Z) : list Z := blocks_from b v 1.

Lemma elem_of_blocks_from b v k x : x ∈ blocks_from b v k ↔ ∃ j, k ≤ j < 4096 / bsize b ∧ x = v + bsize b * j.
Proof. unfold blocks_from. rewrite list_elem_of_fmap. setoid_rewrite elem_of_seqZ. naive_solver lia. Qed.

Lemma blocks_cons b v k : k < 4096 / bsize b → blocks_from b v k = (v + bsize b * k) :: blocks_from b v (k + 1).
Proof.
  intros Hk. unfold blocks_from. rewrite seqZ_cons by lia. cbn.
  replace (Z.pred (4096 / bsize b - k)) with (4096 / bsize b - (k + 1)) by lia. by rewrite <- Z.add_1_r.
Qed.
Lemma blocks_nil b v k : 4096 / bsize b ≤ k → blocks_from b v k = [].
Proof. intros Hk. unfold blocks_from. by rewrite seqZ_nil by lia. Qed.

Lemma NoDup_blocks b v k : (b < 8)%nat → NoDup (blocks_from b v k).
Proof.
  intros Hb. apply NoDup_fmap_2_strong; [|apply NoDup_seqZ]. intros i j _ _. pose proof (bsize_bounds b Hb). nia.
Qed.

Lemma class_count b : (b < 8)%nat → bsize b * (4096 / bsize b) = 4096 ∧ 2 ≤ 4096 / bsize b ≤ 256.
Proof. intros Hb. do 8 (destruct b as [|b]; [by vm_compute|]). lia. Qed.

(** A block lies in its page, after the header. *)
Lemma block_range b v x : (b < 8)%nat → x ∈ blocks b v → v + 16 ≤ x ∧ x + bsize b ≤ v + 4096.
Proof.
  intros Hb (j & Hj & ->)%elem_of_blocks_from. pose proof (bsize_bounds b Hb). pose proof (class_count b Hb). nia.
Qed.

Lemma blocks_apart b v x y : (b < 8)%nat → x ∈ blocks b v → y ∈ blocks b v → x ≠ y →
  x + bsize b ≤ y ∨ y + bsize b ≤ x.
Proof.
  intros Hb (i & Hi & ->)%elem_of_blocks_from (j & Hj & ->)%elem_of_blocks_from Hne. pose proof (bsize_bounds b Hb).
  destruct (Z.lt_trichotomy i j) as [?|[->|?]]; [left; nia|done|right; nia].
Qed.

(** The first block: the header address rounded up to a multiple of the size. *)
Lemma first_block b v : (b < 8)%nat → page_aligned v → 0 ≤ v ≤ 2 ^ 64 - 8192 →
  Z.land (u64 (u64 (v + sizeof_hdr) + u64 (bsize b - 1))) (u64_not (u64 (bsize b - 1))) = v + bsize b * 1.
Proof.
  intros Hb Ha Hv. pose proof (bsize_bounds b Hb) as (Hs & Hd & _). unfold sizeof_hdr.
  rewrite (u64_small (v + 8)), (u64_small (bsize b - 1)) by lia. rewrite u64_small by lia.
  assert (v mod bsize b = 0) as Hm.
  { unfold page_aligned, PAGE_SIZE in Ha. apply Z.mod_divide in Ha as [q ->]; [|lia]. apply Z.mod_divide in Hd as [r Hr]; [|lia].
    rewrite Hr, Z.mul_assoc. apply Z.mod_mul. lia. }
  unfold bsize in *. rewrite u64_land_not by lia. set (n := 2 ^ (Z.of_nat b + 4)) in *.
  apply Z.mod_divide in Hm as [q ->]; [|lia].
  replace (q * n + 8 + (n - 1)) with (7 + (q + 1) * n) by lia. rewrite Z.mod_add, Z.mod_small by lia. lia.
Qed.

(** ** Headers *)

Lemma slab_hdr_fields b : (b < 8)%nat → let w := slab_page_hdr (Z.of_nat b) (bsize b) in
  hdr_magic w = SLAB_MAGIC ∧ hdr_bucket_index w = Z.of_nat b ∧ hdr_block_size w = bsize b.
Proof. intros Hb. do 8 (destruct b as [|b]; [by vm_compute|]). lia. Qed.

Lemma big_hdr_fields n : 0 ≤ n < 2 ^ 32 → let w := big_alloc_hdr n in
  hdr_magic w = BIG_MAGIC ∧ hdr_pages w = n.
Proof.
  intros Hn. unfold big_alloc_hdr, hdr_magic, hdr_pages, BIG_MAGIC. rewrite (u32_small n) by done. split.
  - unfold u32. rewrite Z.mul_comm, Z.mod_add by lia. by rewrite Z.mod_small.
  - rewrite Z.mul_comm, Z.div_add by lia. rewrite Z.div_small by lia. by apply u32_small.
Qed.

(** ** What memory represents

    [bp] maps the address of a class page to its class, [fl b] is the free list
    of class [b], [sm] the set of blocks handed out, and [bg] maps the header
    address of a large allocation to its first page and its page count. *)

Definition va (st : pmm_state) (i : Z) : Z := phys_to_hh_virt (page_pa st i).
Definition word_at (s : kheap_state) (p : Z) : option Z := kh_mem s !! p.

Record kh_repg (s : kheap_state) (st : pmm_state) (bp : gmap Z nat) (fl : nat → list Z) (sm : gset Z)
    (bg : gmap Z (Z * Z)) : Prop := {
  kr_pmm : g_pmm (kh_pmm s) = Some st ∧ pmm_wf st ∧ pressure_ok st (kh_pmm s);
  kr_page : ∀ v b, bp !! v = Some b → (b < 8)%nat ∧ kh_mem s !! v = Some (slab_page_hdr (Z.of_nat b) (bsize b)) ∧
    ∃ i, 0 ≤ i < total_pages st ∧ (i ∉ free_set st) ∧ v = va st i;
  kr_heads : length (g_freelist s) = 8%nat ∧ ∀ b, (b < 8)%nat → g_freelist s !! b = Some (hd 0 (fl b));
  kr_links : ∀ b, links (word_at s) (fl b) 0;
  kr_nodup : ∀ b, NoDup (fl b);
  kr_blocks : ∀ b x, x ∈ fl b → ∃ v, bp !! v = Some b ∧ x ∈ blocks b v;
  kr_small : ∀ x, x ∈ sm ↔ ∃ v b, bp !! v = Some b ∧ x ∈ blocks b v ∧ (x ∉ fl b);
  kr_big : ∀ v i n, bg !! v = Some (i, n) → 0 ≤ i ∧ 0 < n < 2 ^ 32 ∧ i + n ≤ total_pages st ∧ v = va st i ∧
    kh_mem s !! v = Some (big_alloc_hdr n);
  kr_own : ∀ v i n j, bg !! v = Some (i, n) → j ∈ run i n →
    (j ∉ free_set st) ∧ ¬ in_metadata st (page_pa st j) ∧ bp !! va st j = None;
  kr_disj : ∀ v v' i n i' n', bg !! v = Some (i, n) → bg !! v' = Some (i', n') → v ≠ v' → run i n ## run i' n';
}.
Definition kh_rep (s : kheap_state) (sm : gset Z) (bg : gmap Z (Z * Z)) : Prop := ∃ st bp fl, kh_repg s st bp fl sm bg.

(** The addresses whose words the representation depends on. *)
Definition tracked (bp : gmap Z nat) (fl : nat → list Z) (bg : gmap Z (Z * Z)) (a : Z) : Prop :=
  is_Some (bp !! a) ∨ is_Some (bg !! a) ∨ ∃ b, a ∈ fl b.

Lemma in_page_unique st i j a : pmm_shape st → 0 ≤ i < total_pages st → 0 ≤ j < total_pages st →
  va st i ≤ a < va st i + PAGE_SIZE → va st j ≤ a < va st j + PAGE_SIZE → i = j.
Proof.
  intros Hsh Hi Hj Ha Hb. destruct (page_va_facts st i Hsh Hi) as (Hai & _ & Ei). destruct (page_va_facts st j Hsh Hj) as (Haj & _ & Ej).
  apply (virt_page_inj st); [done|done|done|]. unfold va in *. cbv zeta in *. page_arith.
Qed.

Lemma heap_page_base st i a : pmm_shape st → 0 ≤ i < total_pages st → va st i ≤ a < va st i + PAGE_SIZE → align_down_4k a = va st i.
Proof.
  intros Hsh Hi Ha. destruct (page_va_facts st i Hsh Hi) as (Hal & Hb & _). unfold va in *. cbv zeta in *.
  unfold align_down_4k, PAGE_SIZE in *. change (4096 - 1) with (2 ^ 12 - 1). rewrite u64_land_not by lia. change (2 ^ 12) with 4096.
  page_arith.
Qed.

Section rep.
Context s st bp fl sm bg (R : kh_repg s st bp fl sm bg).

Lemma kh_shape : pmm_shape st.
Proof. apply (kr_pmm _ _ _ _ _ _ R). Qed.

Lemma block_page v b x : bp !! v = Some b → x ∈ blocks b v → ∃ i, 0 ≤ i < total_pages st ∧ (i ∉ free_set st) ∧ v = va st i ∧
  va st i + 16 ≤ x ∧ x + bsize b ≤ va st i + PAGE_SIZE ∧ (b < 8)%nat.
Proof.
  intros Hv Hx. destruct (kr_page _ _ _ _ _ _ R v b Hv) as (Hb & _ & i & Hi & Hf & ->). exists i.
  pose proof (block_range b _ x Hb Hx). unfold PAGE_SIZE. split_and!; try done; lia.
Qed.

Lemma tracked_page a : tracked bp fl bg a →
  ∃ j, 0 ≤ j < total_pages st ∧ (j ∉ free_set st) ∧ va st j ≤ a < va st j + PAGE_SIZE.
Proof.
  intros [[b Hb]|[[[i n] Hv]|[b Hx]]].
  - destruct (kr_page _ _ _ _ _ _ R a b Hb) as (_ & _ & i & Hi & Hf & ->). exists i. unfold PAGE_SIZE. split_and!; try done; lia.
  - destruct (kr_big _ _ _ _ _ _ R a i n Hv) as (Hi & Hn & Ht & -> & _).
    destruct (kr_own _ _ _ _ _ _ R _ i n i Hv) as (Hf & _); [apply elem_of_run; lia|].
    exists i. unfold PAGE_SIZE. split_and!; try done; lia.
  - destruct (kr_blocks _ _ _ _ _ _ R b a Hx) as (v & Hv & Ha).
    destruct (block_page v b a Hv Ha) as (i & Hi & Hf & -> & Hlo & Hhi & Hb). pose proof (bsize_bounds b Hb). exists i. split_and!; try done; lia.
Qed.

(** Nothing tracked lies in a page that is free. *)
Lemma tracked_not_free a i : tracked bp fl bg a → i ∈ free_set st → ¬ (va st i ≤ a < va st i + PAGE_SIZE).
Proof.
  intros Ha Hi Hr. destruct (tracked_page a Ha) as (j & Hj & Hjf & Hja). apply elem_of_free_bits in Hi as Hi'.
  apply Hjf. by rewrite (in_page_unique st j i a kh_shape Hj (proj1 Hi') Hja Hr).
Qed.

Lemma block_class v b v' b' x : bp !! v = Some b → x ∈ blocks b v → bp !! v' = Some b' → x ∈ blocks b' v' → v = v' ∧ b = b'.
Proof.
  intros Hv Hx Hv' Hx'. destruct (block_page v b x Hv Hx) as (i & Hi & _ & Ei & Hlo & Hhi & Hb).
  destruct (block_page v' b' x Hv' Hx') as (j & Hj & _ & Ej & Hlo' & Hhi' & Hb').
  pose proof (bsize_bounds b Hb). pose proof (bsize_bounds b' Hb').
  assert (i = j) as <- by (apply (in_page_unique st i j x kh_shape Hi Hj); lia). subst. split; [done|]. congruence.
Qed.

Lemma block_nonnull b x : x ∈ fl b → x ≠ 0.
Proof.
  intros Hx. destruct (kr_blocks _ _ _ _ _ _ R b x Hx) as (v & Hv & Ha).
  destruct (block_page v b x Hv Ha) as (i & Hi & _ & _ & Hlo & _). destruct (page_va_facts st i kh_shape Hi) as (_ & Hp & _).
  unfold va in *. lia.
Qed.
End rep.

(** Only the page manager, untracked memory and the counters moved. *)
Lemma kh_frame s s' st st' bp fl sm bg : kh_repg s st bp fl sm bg →
  g_pmm (kh_pmm s') = Some st' ∧ pmm_wf st' ∧ pressure_ok st' (kh_pmm s') → same_window st st' →
  (∀ i, 0 ≤ i < total_pages st → (i ∉ free_set st) →
     (is_Some (bp !! va st i) ∨ ∃ v k n, bg !! v = Some (k, n) ∧ i ∈ run k n) → i ∉ free_set st') →
  g_freelist s' = g_freelist s → (∀ a, tracked bp fl bg a → kh_mem s' !! a = kh_mem s !! a) →
  kh_repg s' st' bp fl sm bg.
Proof.
  intros R Hp Hw Hfree Efl Emem. pose proof Hw as (_ & _ & Et & Em & Emp).
  assert (∀ i, va st' i = va st i) as Eva by (intros i; unfold va; by rewrite (same_window_pa st st')).
  pose proof R as [_ Hpg Hh Hl Hn Hb Hs Hbg Hown Hd]. split; try done.
  - intros v b Hv. destruct (Hpg v b Hv) as (H8 & Hm & i & Hi & Hif & Ei). split_and!; [done|by rewrite Emem by (left; by eexists)|].
    exists i. rewrite Et, Eva. split_and!; [lia|lia| |done]. apply Hfree; [done|done|left; subst; by eexists].
  - by rewrite Efl.
  - intros b. eapply links_ext; [|apply Hl]. intros x Hx. apply Emem. right. right. by exists b.
  - intros v i n Hv. destruct (Hbg v i n Hv) as (? & ? & ? & ? & Hm). rewrite Et, Eva. split_and!; try done; try lia.
    rewrite Emem; [done|]. right. left. by eexists.
  - intros v i n j Hv Hj. destruct (Hown v i n j Hv Hj) as (Hjf & Hjm & Hjb). rewrite Eva.
    destruct (Hbg v i n Hv) as (Hi0 & _ & Hit & _). pose proof (proj1 (elem_of_run i n j) Hj).
    split_and!; [|by unfold in_metadata in *; rewrite Em, Emp, (same_window_pa st st')|done].
    apply Hfree; [lia|done|]. right. by exists v, i, n.
Qed.

(** ** Carving a page into blocks *)

Definition fset (b : nat) (l : list Z) (fl : nat → list Z) : nat → list Z := λ b', if decide (b' = b) then l else fl b'.
Lemma fset_eq b l fl : fset b l fl b = l.
Proof. unfold fset. by rewrite decide_True. Qed.
Lemma fset_ne b b' l fl : b' ≠ b → fset b l fl b' = fl b'.
Proof. intros. unfold fset. by rewrite decide_False. Qed.

Lemma wp_get_free b p Q c s : g_freelist s !! b = Some p → Q p c s → wp (get_free b) Q c s.
Proof. intros Hb HQ. unfold get_free. wp_step. wp_step. by rewrite Hb. Qed.

Lemma wp_refill_loop b v fuel : (b < 8)%nat → 0 ≤ v ≤ 2 ^ 64 - 8192 → ∀ k l s c Q,
  1 ≤ k ≤ 4096 / bsize b → 4096 / bsize b - k < Z.of_nat fuel →
  length (g_freelist s) = 8%nat → g_freelist s !! b = Some (hd 0 l) → links (word_at s) l 0 →
  (∀ x, x ∈ l → x ∉ blocks_from b v k) →
  (∀ m, let l' := reverse (blocks_from b v k) ++ l in
     (∀ a, (a ∉ blocks_from b v k) → m !! a = kh_mem s !! a) → links (λ p, m !! p) l' 0 →
     Q tt c (mkKh (kh_pmm s) m (<[b := hd 0 l']> (g_freelist s)) (kh_counts s))) →
  wp (refill_loop b (v + bsize b * k) (bsize b) (v + 4096) fuel) Q c s.
Proof.
  intros Hb Hv. pose proof (bsize_bounds b Hb) as (Hs & _). pose proof (class_count b Hb) as [Hc Hc2].
  induction fuel as [|fuel IH]; intros k l s c Q Hk Hf Hlen Hhd Hl Hfr HQ; [lia|]. cbn [refill_loop].
  rewrite u64_small by nia. destruct (Z.leb_spec (v + bsize b * k + bsize b) (v + 4096)) as [Hin|Hout].
  - assert (k < 4096 / bsize b) as Hlt by nia. rewrite (blocks_cons b v k Hlt) in *. set (p := v + bsize b * k) in *.
    replace (p + bsize b) with (v + bsize b * (k + 1)) by (unfold p; lia).
    wp_step. eapply wp_get_free; [done|]. unfold upd_mem, set_free. wp_steps. cbn [kh_pmm kh_mem g_freelist kh_counts].
    assert (p ∉ blocks_from b v (k + 1)) as Hp.
    { pose proof (NoDup_blocks b v k Hb) as Hn. rewrite (blocks_cons b v k Hlt) in Hn. by apply NoDup_cons in Hn as [? _]. }
    apply (IH (k + 1) (p :: l)); cbn [kh_pmm kh_mem g_freelist kh_counts]; [lia|lia|by rewrite length_insert| | | |].
    + by rewrite list_lookup_insert_eq by lia.
    + split; [unfold word_at; cbn; by rewrite lookup_insert_eq|]. eapply links_ext; [|exact Hl].
      intros x Hx. unfold word_at; cbn. rewrite lookup_insert_ne; [done|]. intros <-. apply (Hfr p Hx). by left.
    + intros x [->|Hx]%elem_of_cons; [done|]. intros Hx'. apply (Hfr x Hx). by right.
    + cbv zeta. intros m Hm Hlk. cbv zeta in HQ. rewrite reverse_cons, <- app_assoc in HQ. cbn [app] in HQ.
      rewrite list_insert_insert_eq. apply HQ; [|done]. intros a Ha. rewrite not_elem_of_cons in Ha.
      rewrite Hm by tauto. apply lookup_insert_ne. naive_solver.
  - assert (4096 / bsize b ≤ k) as Hge by nia. wp_steps. rewrite (blocks_nil b v k Hge) in *. cbn in HQ.
    replace s with (mkKh (kh_pmm s) (kh_mem s) (<[b := hd 0 l]> (g_freelist s)) (kh_counts s)); [by apply HQ|].
    destruct s; cbn in *. f_equal. by apply list_insert_id.
Qed.

(** The page allocator's view of one page. *)
Lemma alloc_page_va_correct c g st :
  irq_depth c = 0 → g_pmm g = Some st → pmm_wf st → pressure_ok st g →
  wp pmm_alloc_page_va (λ r c' g', c' = c ∧ ∃ st', g_pmm g' = Some st' ∧ pmm_wf st' ∧ pressure_ok st' g' ∧ same_window st st' ∧
    match r with
    | Some (v, _) => ∃ i, i ∈ free_set st ∧ v = va st i ∧ free_set st' = free_set st ∖ {[i]}
    | None => st' = st
    end) c g.
Proof.
  intros Hd Hg Hwf Hp. unfold pmm_alloc_page_va, pmm_alloc_page. wp_step. apply wp_assert_thread; [done|]. wp_step. wp_step. wp_step.
  eapply wp_mono; [by apply (alloc_pages_correct 1 c (count_alloc_va g) st)|]. cbv beta.
  intros r c' g' [-> (st' & Hg' & Hwf' & Hp' & Hw & Hpost)]. wp_steps. split; [done|]. exists st'. split_and!; try done.
  destruct r as [pa|]; [|apply Hpost]. destruct Hpost as (i & -> & Hi & Hi1 & Hr & Hf). exists i.
  assert (run i 1 = {[i]}) as E by (apply set_eq; intros x; rewrite elem_of_run, elem_of_singleton; lia).
  rewrite E in *. split_and!; [set_solver|done|done].
Qed.

(** A free page is not a class page. *)
Lemma page_unused s st bp fl sm bg i : kh_repg s st bp fl sm bg → i ∈ free_set st → bp !! va st i = None.
Proof.
  intros R Hi. destruct (bp !! va st i) as [b'|] eqn:E; [|done]. exfalso.
  eapply (tracked_not_free _ _ _ _ _ _ R (va st i) i); [by left; eexists|done|]. unfold PAGE_SIZE. lia.
Qed.

(** A page turned into blocks of class [b]. *)
Lemma rep_new_page s s' st st' bp fl sm bg b i :
  kh_repg s st bp fl sm bg → (b < 8)%nat → fl b = [] →
  g_pmm (kh_pmm s') = Some st' ∧ pmm_wf st' ∧ pressure_ok st' (kh_pmm s') → same_window st st' →
  i ∈ free_set st → free_set st' = free_set st ∖ {[i]} →
  kh_mem s' !! va st i = Some (slab_page_hdr (Z.of_nat b) (bsize b)) →
  (∀ a, ¬ (va st i ≤ a < va st i + PAGE_SIZE) → kh_mem s' !! a = kh_mem s !! a) →
  let l := reverse (blocks b (va st i)) in
  g_freelist s' = <[b := hd 0 l]> (g_freelist s) → links (word_at s') l 0 →
  kh_repg s' st' (<[va st i := b]> bp) (fset b l fl) sm bg.
Proof.
  intros R Hb Hnil Hpm Hw Hi Hfree Hhdr Hmem l Hfl Hlk.
  pose proof (kh_shape _ _ _ _ _ _ R) as Hsh. pose proof Hi as Hi'%elem_of_free_bits. destruct Hi' as [Hit _].
  set (s1 := mkKh (kh_pmm s') (kh_mem s') (g_freelist s) (kh_counts s)).
  assert (kh_repg s1 st' bp fl sm bg) as R1.
  { eapply (kh_frame s s1 st st'); [done|done|done| |done|].
    - intros j _ Hj _. rewrite Hfree. set_solver.
    - intros a Ha. apply Hmem. by eapply tracked_not_free. }
  pose proof Hw as (_ & _ & Et & _).
  assert (∀ j, va st' j = va st j) as Eva by (intros j; unfold va; by rewrite (same_window_pa st st')).
  pose proof (page_unused _ _ _ _ _ _ _ R Hi) as Hnew.
  pose proof R1 as [_ Hpg Hh Hl Hn Hbk Hs Hbg Hown Hd]. split; try done.
  - intros v b' [[<- <-]|[Hne Hv]]%lookup_insert_Some; [|by apply Hpg]. split_and!; [done|done|].
    exists i. rewrite Et, Eva. split_and!; [lia|lia|rewrite Hfree; set_solver|done].
  - rewrite Hfl. destruct Hh as [Hlen Hh]. cbn in Hlen, Hh. split; [by rewrite length_insert|]. intros b' Hb'.
    destruct (decide (b' = b)) as [->|Hne]; [rewrite fset_eq, list_lookup_insert_eq by lia; done|].
    rewrite fset_ne, list_lookup_insert_ne by done. by apply Hh.
  - intros b'. destruct (decide (b' = b)) as [->|Hne]; [by rewrite fset_eq|]. rewrite fset_ne by done. apply Hl.
  - intros b'. destruct (decide (b' = b)) as [->|Hne]; [|by rewrite fset_ne].
    rewrite fset_eq. unfold l. rewrite reverse_Permutation. by apply NoDup_blocks.
  - intros b' x. destruct (decide (b' = b)) as [->|Hne].
    + rewrite fset_eq. unfold l. rewrite elem_of_reverse. intros Hx. exists (va st i). by rewrite lookup_insert_eq.
    + rewrite fset_ne by done. intros Hx. destruct (Hbk b' x Hx) as (v & Hv & Hxv). exists v.
      rewrite lookup_insert_ne; [done|]. intros <-. congruence.
  - intros x. rewrite Hs. split.
    + intros (v & b' & Hv & Hx & Hnx). exists v, b'. rewrite lookup_insert_ne by (intros <-; congruence). split_and!; [done|done|].
      destruct (decide (b' = b)) as [->|Hne]; [|by rewrite fset_ne]. rewrite fset_eq. unfold l. rewrite elem_of_reverse. intros Hxl.
      destruct (block_page _ _ _ _ _ _ R v b x Hv Hx) as (j & Hj & Hjf & -> & Hr1 & Hr2 & _). pose proof (block_range b _ x Hb Hxl).
      pose proof (bsize_bounds b Hb). unfold PAGE_SIZE in *.
      assert (j = i) as -> by (apply (in_page_unique st j i x Hsh Hj Hit); unfold PAGE_SIZE; lia). done.
    + intros (v & b' & [[<- <-]|[Hne Hv]]%lookup_insert_Some & Hx & Hnx).
      * rewrite fset_eq in Hnx. unfold l in Hnx. by rewrite elem_of_reverse in Hnx.
      * exists v, b'. split_and!; [done|done|]. destruct (decide (b' = b)) as [->|Hne']; [rewrite Hnil; apply not_elem_of_nil|].
        by rewrite fset_ne in Hnx.
  - intros v k n j Hv Hj. destruct (Hown v k n j Hv Hj) as (Hjf & Hjm & Hjb). split_and!; [done|done|]. rewrite Eva in *.
    rewrite lookup_insert_ne; [done|]. intros E.
    destruct (kr_big _ _ _ _ _ _ R v k n Hv) as (Hk & _ & Hkn & _). pose proof (proj1 (elem_of_run k n j) Hj).
    assert (i = j) as <- by (apply (virt_page_inj st); [done|done|lia|exact E]).
    by destruct (kr_own _ _ _ _ _ _ R v k n i Hv Hj) as [? _].
Qed.

(** Only the counters moved. *)
Lemma kh_counts_frame s c' st bp fl sm bg : kh_repg s st bp fl sm bg →
  kh_repg (mkKh (kh_pmm s) (kh_mem s) (g_freelist s) c') st bp fl sm bg.
Proof. intros R. eapply (kh_frame s _ st st); [done|apply R|done|by intros|done|done]. Qed.

Lemma free_head s st bp fl sm bg b : kh_repg s st bp fl sm bg → (b < 8)%nat → g_freelist s !! b = Some 0 → fl b = [].
Proof.
  intros R Hb H0. destruct (kr_heads _ _ _ _ _ _ R) as [_ Hh]. rewrite (Hh b Hb) in H0. injection H0 as E.
  destruct (fl b) as [|x l] eqn:Ef; [done|]. cbn in E. subst x. exfalso. eapply (block_nonnull _ _ _ _ _ _ R b 0); [|done].
  rewrite Ef. by left.
Qed.

(** An address outside the free pages. *)
Definition not_free_addr (st : pmm_state) (a : Z) : Prop := ∀ i, i ∈ free_set st → ¬ (va st i ≤ a < va st i + PAGE_SIZE).

Lemma refill_correct s st bp fl sm bg b c :
  kh_repg s st bp fl sm bg → (b < 8)%nat → fl b = [] → irq_depth c = 0 →
  wp (refill_bucket b) (λ _ c' s', c' = c ∧ (∃ st' bp' fl', bp ⊆ bp' ∧ kh_repg s' st' bp' fl' sm bg) ∧
    ∀ a, not_free_addr st a → kh_mem s' !! a = kh_mem s !! a) c s.
Proof.
  intros R Hb Hnil Hd. unfold refill_bucket. wp_steps.
  assert (∀ Q : unit → cpu_state → kheap_state → Prop, (∀ c', Q tt c (mkKh (kh_pmm s) (kh_mem s) (g_freelist s) c')) →
    if Z.of_nat b <? NUM_BUCKETS then wp (count (count_refill b)) Q c s else Q tt c s) as Hcnt.
  { intros Q HQ. destruct (Z.of_nat b <? NUM_BUCKETS); [unfold count; wp_step; apply HQ|].
    specialize (HQ (kh_counts s)). by destruct s. }
  apply Hcnt. intros cs. apply (kh_counts_frame s cs) in R. set (s1 := mkKh _ _ _ cs) in *.
  destruct (kr_pmm _ _ _ _ _ _ R) as (Hg & Hwf & Hp). wp_steps. cbn [lget kh_pmm_lens].
  eapply wp_mono; [by apply (alloc_page_va_correct c (kh_pmm s1) st)|]. cbv beta.
  intros r c' g' [-> (st' & Hg' & Hwf' & Hp' & Hw & Hpost)]. destruct r as [[v pa]|]; last first.
  { wp_steps. split; [done|]. subst st'. split; [|done]. exists st, bp, fl. split; [done|]. eapply (kh_frame s1 _ st st); [done|done|done|by intros|done|done]. }
  destruct Hpost as (i & Hi & -> & Hfree). pose proof (kh_shape _ _ _ _ _ _ R) as Hsh.
  pose proof Hi as Hi'%elem_of_free_bits. destruct Hi' as [Hit _]. destruct (page_va_facts st i Hsh Hit) as (Hal & Hbd & _).
  fold (va st i) in Hal, Hbd. unfold PAGE_SIZE in Hbd. pose proof (class_count b Hb) as [Hcc Hcc2]. pose proof (bsize_bounds b Hb) as [Hbs _].
  destruct (kr_heads _ _ _ _ _ _ R) as [Hlen Hheads]. specialize (Hheads b Hb). rewrite Hnil in Hheads.
  rewrite (bsize_lookup b Hb). wp_steps. unfold upd_mem. wp_steps. cbv zeta. cbn [lset kh_pmm_lens kh_pmm kh_mem g_freelist kh_counts].
  rewrite first_block by (done || lia). rewrite (u64_small (va st i + PAGE_SIZE)) by (unfold PAGE_SIZE; lia).
  eapply (wp_refill_loop b (va st i) _ Hb ltac:(lia) 1 []); cbn [kh_pmm kh_mem g_freelist kh_counts];
    [lia|change (Z.to_nat PAGE_SIZE) with (Z.to_nat 4096); lia|done|done|done|by intros x ?%not_elem_of_nil|].
  cbv zeta. fold (blocks b (va st i)). rewrite app_nil_r. intros m Hm Hlk. split; [done|].
  assert (∀ a, ¬ (va st i ≤ a < va st i + PAGE_SIZE) → m !! a = kh_mem s1 !! a) as Hkept.
  { intros a Ha. unfold PAGE_SIZE in Ha. rewrite Hm by (intros Hx%block_range; [lia|done]). apply lookup_insert_ne. lia. }
  split; [|intros a Ha; by apply Hkept, Ha]. exists st', (<[va st i := b]> bp), (fset b (reverse (blocks b (va st i))) fl).
  split; [apply insert_subseteq; by apply (page_unused _ _ _ _ _ _ _ R)|].
  eapply (rep_new_page s1 _ st st' bp fl sm bg b i); try done.
  - cbn. rewrite Hm; [by rewrite lookup_insert_eq|]. intros Hx%block_range; [lia|done].
Qed.

(** ** Handing out and taking back a block *)

Lemma pop_block s st bp fl sm bg b n l cs : kh_repg s st bp fl sm bg → (b < 8)%nat → fl b = n :: l →
  kh_mem s !! n = Some (hd 0 l) ∧ (n ∉ sm) ∧ (∃ v, bp !! v = Some b ∧ n ∈ blocks b v) ∧
  kh_repg (mkKh (kh_pmm s) (kh_mem s) (<[b := hd 0 l]> (g_freelist s)) cs) st bp (fset b l fl) ({[n]} ∪ sm) bg.
Proof.
  intros R Hb Ef. pose proof R as [Hpm Hpg Hh Hl Hn Hbk Hs Hbg Hown Hd].
  assert (n ∈ fl b) as Hin by (rewrite Ef; by left). destruct (Hbk b n Hin) as (v & Hv & Hnv).
  pose proof (Hl b) as Hlb. rewrite Ef in Hlb. destruct Hlb as [Hw Hlb].
  pose proof (Hn b) as Hnb. rewrite Ef in Hnb. apply NoDup_cons in Hnb as [Hnl Hnd].
  assert (∀ v' b', bp !! v' = Some b' → n ∈ blocks b' v' → v' = v ∧ b' = b) as Huniq.
  { intros v' b' Hv' Hn'. by eapply (block_class _ _ _ _ _ _ R v' b' v b n). }
  split_and!; [done| |by exists v|].
  { rewrite Hs. intros (v' & b' & Hv' & Hn' & Hnf). destruct (Huniq v' b' Hv' Hn') as [-> ->]. done. }
  split; cbn; try done.
  - destruct Hh as [Hlen Hh]. split; [by rewrite length_insert|]. intros b' Hb'.
    destruct (decide (b' = b)) as [->|Hne]; [rewrite fset_eq, list_lookup_insert_eq by lia; done|].
    rewrite fset_ne, list_lookup_insert_ne by done. by apply Hh.
  - intros b'. destruct (decide (b' = b)) as [->|Hne]; [by rewrite fset_eq|]. rewrite fset_ne by done. apply Hl.
  - intros b'. destruct (decide (b' = b)) as [->|Hne]; [by rewrite fset_eq|by rewrite fset_ne].
  - intros b' x. destruct (decide (b' = b)) as [->|Hne]; [|rewrite fset_ne by done; apply Hbk].
    rewrite fset_eq. intros Hx. apply Hbk. rewrite Ef. by right.
  - intros x. rewrite elem_of_union, elem_of_singleton, Hs. split.
    + intros [->|(v' & b' & Hv' & Hx & Hnf)].
      * exists v, b. rewrite fset_eq. done.
      * exists v', b'. split_and!; [done|done|]. destruct (decide (b' = b)) as [->|Hne]; [|by rewrite fset_ne].
        rewrite fset_eq. rewrite Ef, not_elem_of_cons in Hnf. tauto.
    + intros (v' & b' & Hv' & Hx & Hnf). destruct (decide (x = n)) as [->|Hxn]; [by left|right]. exists v', b'. split_and!; [done|done|].
      destruct (decide (b' = b)) as [->|Hne]; [|by rewrite fset_ne in Hnf]. rewrite fset_eq in Hnf. by rewrite Ef, not_elem_of_cons.
Qed.

(** A block handed out is in no free list. *)
Lemma live_not_listed s st bp fl sm bg v b x : kh_repg s st bp fl sm bg → bp !! v = Some b → x ∈ blocks b v → x ∈ sm →
  ∀ b', x ∉ fl b'.
Proof.
  intros R Hv Hx Hsm b' Hx'. destruct (kr_blocks _ _ _ _ _ _ R b' x Hx') as (v' & Hv' & Hxv').
  apply (kr_small _ _ _ _ _ _ R) in Hsm as (v2 & b2 & Hv2 & Hx2 & Hn2).
  destruct (block_class _ _ _ _ _ _ R v' b' v2 b2 x Hv' Hxv' Hv2 Hx2) as [_ ->]. done.
Qed.

(** Nothing the representation depends on lies in a block handed out. *)
Lemma block_untracked s st bp fl sm bg v b x a : kh_repg s st bp fl sm bg → bp !! v = Some b → x ∈ blocks b v → x ∈ sm →
  tracked bp fl bg a → ¬ (x ≤ a < x + bsize b).
Proof.
  intros R Hv Hx Hsm Ha Hr. pose proof R as [Hpm Hpg Hh Hl Hn Hbk Hs Hbg Hown Hd]. pose proof (kh_shape _ _ _ _ _ _ R) as Hsh.
  destruct (block_page _ _ _ _ _ _ R v b x Hv Hx) as (i & Hi & Hif & Ev & Hlo & Hhi & Hb). pose proof (bsize_bounds b Hb) as [Hbs _].
  destruct Ha as [[b' Hb']|[[[k n] Hk]|[b' Ha]]].
  - destruct (Hpg a b' Hb') as (_ & _ & j & Hj & _ & ->). unfold PAGE_SIZE in *.
    assert (i = j) as <- by (apply (in_page_unique st i j (va st j) Hsh Hi Hj); unfold PAGE_SIZE; lia). lia.
  - destruct (Hbg a k n Hk) as (Hk0 & Hkn & Hkt & -> & _). destruct (Hown _ k n k Hk) as (_ & _ & Hnb); [apply elem_of_run; lia|].
    assert (i = k) as <- by (apply (in_page_unique st i k (va st k) Hsh Hi ltac:(lia)); unfold PAGE_SIZE in *; lia). congruence.
  - destruct (Hbk b' a Ha) as (v' & Hv' & Hav'). destruct (block_page _ _ _ _ _ _ R v' b' a Hv' Hav') as (j & Hj & _ & Ev' & Hlo' & Hhi' & Hb'8).
    pose proof (bsize_bounds b' Hb'8) as [Hbs' _].
    assert (i = j) as <- by (apply (in_page_unique st i j a Hsh Hi Hj); unfold PAGE_SIZE in *; lia).
    assert (v' = v) as -> by congruence. assert (b' = b) as -> by congruence.
    destruct (decide (a = x)) as [->|Hne]; [by eapply live_not_listed|]. destruct (blocks_apart b v a x Hb Hav' Hx Hne); lia.
Qed.

(** Taking back block [x] of class [b]: its words are overwritten, the first
    one becomes a link. *)
Lemma push_block s st bp fl sm bg b v x m cs : kh_repg s st bp fl sm bg → bp !! v = Some b → x ∈ blocks b v → x ∈ sm →
  (∀ a, ¬ (x ≤ a < x + bsize b) → m !! a = kh_mem s !! a) → m !! x = Some (hd 0 (fl b)) →
  kh_repg (mkKh (kh_pmm s) m (<[b := x]> (g_freelist s)) cs) st bp (fset b (x :: fl b) fl) (sm ∖ {[x]}) bg.
Proof.
  intros R Hv Hx Hsm Hm Hmx. pose proof R as [Hpm Hpg Hh Hl Hn Hbk Hs Hbg Hown Hd].
  destruct (block_page _ _ _ _ _ _ R v b x Hv Hx) as (i & Hi & Hif & Ev & Hlo & Hhi & Hb). pose proof (bsize_bounds b Hb) as [Hbs _].
  assert (∀ v' b', bp !! v' = Some b' → x ∈ blocks b' v' → v' = v ∧ b' = b) as Huniq.
  { intros v' b' Hv' Hn'. by eapply (block_class _ _ _ _ _ _ R v' b' v b x). }
  pose proof (live_not_listed _ _ _ _ _ _ v b x R Hv Hx Hsm) as Hnf.
  assert (∀ a, tracked bp fl bg a → m !! a = kh_mem s !! a) as Hkeep.
  { intros a Ha. apply Hm. by eapply block_untracked. }
  assert (kh_repg (mkKh (kh_pmm s) m (g_freelist s) cs) st bp fl sm bg) as R1.
  { eapply (kh_frame s _ st st); [done|done|done|by intros|done|done]. }
  clear Hpg Hl Hbg Hown Hd Hpm. pose proof R1 as [Hpm Hpg _ Hl _ _ _ Hbg Hown Hd]. split; cbn; try done.
  - destruct Hh as [Hlen Hh]. split; [by rewrite length_insert|]. intros b' Hb'.
    destruct (decide (b' = b)) as [->|Hne]; [rewrite fset_eq, list_lookup_insert_eq by lia; done|].
    rewrite fset_ne, list_lookup_insert_ne by done. by apply Hh.
  - intros b'. destruct (decide (b' = b)) as [->|Hne]; [|rewrite fset_ne by done; apply Hl].
    rewrite fset_eq. split; [done|]. apply Hl.
  - intros b'. destruct (decide (b' = b)) as [->|Hne]; [|by rewrite fset_ne]. rewrite fset_eq. by apply NoDup_cons.
  - intros b' y. destruct (decide (b' = b)) as [->|Hne]; [|rewrite fset_ne by done; apply Hbk].
    rewrite fset_eq. intros [->|Hy]%elem_of_cons; [by exists v|by apply Hbk].
  - intros y. rewrite elem_of_difference, elem_of_singleton, Hs. split.
    + intros [(v' & b' & Hv' & Hy & Hny) Hyx]. exists v', b'. split_and!; [done|done|].
      destruct (decide (b' = b)) as [->|Hne]; [|by rewrite fset_ne]. by rewrite fset_eq, not_elem_of_cons.
    + intros (v' & b' & Hv' & Hy & Hny). assert (y ≠ x) as Hyx.
      { intros ->. destruct (Huniq v' b' Hv' Hy) as [-> ->]. rewrite fset_eq, not_elem_of_cons in Hny. tauto. }
      split; [|done]. exists v', b'. split_and!; [done|done|]. destruct (decide (b' = b)) as [->|Hne]; [|by rewrite fset_ne in Hny].
      rewrite fset_eq, not_elem_of_cons in Hny. tauto.
Qed.

(** ** Page runs *)

Lemma va_eq st i : pmm_shape st → 0 ≤ i < total_pages st → va st i = CAPAZ_HH_BASE + base_pa st + i * PAGE_SIZE.
Proof. intros Hsh Hi. destruct (page_va_facts st i Hsh Hi) as (_ & _ & E). unfold va. cbv zeta in E. rewrite E. unfold page_pa. lia. Qed.

(** The page of an address inside a run belongs to the run. *)
Lemma in_run st i n j a : pmm_shape st → 0 ≤ i → 0 < n → i + n ≤ total_pages st → 0 ≤ j < total_pages st →
  va st i ≤ a < va st i + n * PAGE_SIZE → va st j ≤ a < va st j + PAGE_SIZE → j ∈ run i n.
Proof.
  intros Hsh Hi Hn Ht Hj Ha Hb. rewrite (va_eq st i Hsh ltac:(lia)) in Ha. rewrite (va_eq st j Hsh Hj) in Hb.
  apply elem_of_run. unfold PAGE_SIZE in *. lia.
Qed.

Lemma big_alloc_rep s s' st st' bp fl sm bg i n :
  kh_repg s st bp fl sm bg → g_pmm (kh_pmm s') = Some st' ∧ pmm_wf st' ∧ pressure_ok st' (kh_pmm s') → same_window st st' →
  0 ≤ i → 0 < n < 2 ^ 32 → i + n ≤ total_pages st → run i n ⊆ free_set st → free_set st' = free_set st ∖ run i n →
  g_freelist s' = g_freelist s → kh_mem s' = <[va st i := big_alloc_hdr n]> (kh_mem s) →
  kh_repg s' st' bp fl sm (<[va st i := (i, n)]> bg).
Proof.
  intros R Hpm Hw Hi Hn Ht Hrun Hfree Efl Emem. pose proof (kh_shape _ _ _ _ _ _ R) as Hsh.
  assert (i ∈ free_set st) as Hif by (apply Hrun, elem_of_run; lia).
  assert (kh_repg s' st' bp fl sm bg) as R1.
  { eapply (kh_frame s s' st st'); [done|done|done| |done|].
    - intros j _ Hj _. rewrite Hfree. intros [? _]%elem_of_difference. done.
    - intros a Ha. rewrite Emem, lookup_insert_ne; [done|]. intros <-.
      eapply (tracked_not_free _ _ _ _ _ _ R (va st i) i Ha Hif). unfold PAGE_SIZE. lia. }
  pose proof Hw as (_ & _ & Et & Em & Emp).
  assert (∀ j, va st' j = va st j) as Eva by (intros j; unfold va; by rewrite (same_window_pa st st')).
  pose proof R1 as [_ Hpg Hh Hl Hnd Hbk Hs Hbg Hown Hd]. split; try done.
  - intros v k m [[<- [= <- <-]]|[Hne Hv]]%lookup_insert_Some; [|by apply Hbg]. rewrite Et, Eva, Emem.
    split_and!; [lia|lia|lia|lia|done|by rewrite lookup_insert_eq].
  - intros v k m j [[<- [= <- <-]]|[Hne Hv]]%lookup_insert_Some Hj; [|by apply (Hown v k m)]. rewrite Eva. apply Hrun in Hj as Hjf.
    assert (0 ≤ j < total_pages st) as Hjt by (apply elem_of_run in Hj; lia).
    split_and!; [rewrite Hfree, elem_of_difference; tauto| |].
    + unfold in_metadata. rewrite Em, Emp, (same_window_pa st st') by done. by apply (proj2 (proj1 (proj2 (kr_pmm _ _ _ _ _ _ R)))).
    + by apply (page_unused _ _ _ _ _ _ _ R).
  - assert (∀ v k m, bg !! v = Some (k, m) → run i n ## run k m) as Hnew.
    { intros v k m Hv j Hj Hj'. destruct (kr_own _ _ _ _ _ _ R v k m j Hv Hj') as [Hjf _]. by apply Hjf, Hrun. }
    intros v v' k m k' m' [[<- [= <- <-]]|[Hne Hv]]%lookup_insert_Some [[<- [= <- <-]]|[Hne' Hv']]%lookup_insert_Some Hvv;
      [done|by apply (Hnew v')|symmetry; by apply (Hnew v)|by eapply (Hd v v')].
Qed.

Lemma big_drop s st bp fl sm bg v : kh_repg s st bp fl sm bg → kh_repg s st bp fl sm (delete v bg).
Proof.
  intros [Hpm Hpg Hh Hl Hnd Hbk Hs Hbg Hown Hd]. split; try done.
  - intros v' i n [_ Hv]%lookup_delete_Some. by apply Hbg.
  - intros v' i n j [_ Hv]%lookup_delete_Some. by apply (Hown v').
  - intros v1 v2 i n i' n' [_ H1]%lookup_delete_Some [_ H2]%lookup_delete_Some. by apply (Hd v1 v2).
Qed.

(** A run is not shared with anything else the representation depends on. *)
Lemma run_untracked s st bp fl sm bg v i n a : kh_repg s st bp fl sm bg → bg !! v = Some (i, n) →
  va st i ≤ a < va st i + n * PAGE_SIZE → ¬ tracked bp fl (delete v bg) a.
Proof.
  intros R Hv Ha Htr. pose proof R as [Hpm Hpg Hh Hl Hnd Hbk Hs Hbg Hown Hd]. pose proof (kh_shape _ _ _ _ _ _ R) as Hsh.
  destruct (Hbg v i n Hv) as (Hi & Hn & Ht & _). destruct Htr as [[b Hb]|[[[k m] Hk]|[b Hb]]].
  - destruct (Hpg a b Hb) as (_ & _ & j & Hj & _ & Ej). destruct (Hown v i n j Hv) as (_ & _ & Hnb); [|congruence].
    apply (in_run st i n j a); try done; unfold PAGE_SIZE; lia.
  - apply lookup_delete_Some in Hk as [Hne Hk]. destruct (Hbg a k m Hk) as (Hk0 & Hm & Hkt & Ek & _).
    apply (Hd v a i n k m Hv Hk Hne k); [|apply elem_of_run; lia]. apply (in_run st i n k a); try done; unfold PAGE_SIZE; lia.
  - destruct (Hbk b a Hb) as (v' & Hv' & Ha'). destruct (block_page _ _ _ _ _ _ R v' b a Hv' Ha') as (j & Hj & _ & -> & Hlo & Hhi & Hb8).
    pose proof (bsize_bounds b Hb8) as [Hbs _]. destruct (Hown v i n j Hv) as (_ & _ & Hnb); [|congruence].
    apply (in_run st i n j a); try done; unfold PAGE_SIZE in *; lia.
Qed.


Lemma free_pages_correct n : ∀ pa0 k i c s st,
  g_pmm (kh_pmm s) = Some st → pmm_wf st → pressure_ok st (kh_pmm s) → irq_depth c = 0 →
  0 ≤ i → i + Z.of_nat n ≤ total_pages st → 0 ≤ k → pa0 + k * PAGE_SIZE = page_pa st i → 0 ≤ pa0 →
  (∀ j, j ∈ run i (Z.of_nat n) → ¬ in_metadata st (page_pa st j)) →
  wp (free_pages_loop pa0 k n) (λ _ c' s', c' = c ∧ ∃ g' st', s' = lset kh_pmm_lens g' s ∧
    (g_pmm g' = Some st' ∧ pmm_wf st' ∧ pressure_ok st' g') ∧ same_window st st' ∧
    free_set st' = free_set st ∪ run i (Z.of_nat n)) c s.
Proof.
  induction n as [|n IH]; intros pa0 k i c s st Hg Hwf Hp Hd Hi Hn Hk Epa Hpa0 Hmd; cbn [free_pages_loop].
  - wp_steps. split; [done|]. exists (kh_pmm s), st. split_and!; [by destruct s|done|done|done|done|].
    change (run i (Z.of_nat 0)) with (∅ : gset Z). by rewrite (right_id_L ∅ (∪)).
  - pose proof Hwf as [Hsh _]. destruct (shape_bounds st Hsh) as (Hb1 & Hb2 & Hb3 & Hb4).
    rewrite Nat2Z.inj_succ, <- Z.add_1_l in Hmd, Hn. rewrite run_cons in Hmd by lia.
    assert (0 ≤ page_pa st i < 2 ^ 64) as Hpa.
    { destruct (page_va_facts st i Hsh ltac:(lia)) as (_ & Hb & E). cbv zeta in *. rewrite E in Hb.
      unfold page_pa, PAGE_SIZE, CAPAZ_HH_BASE in *. lia. }
    rewrite (u64_small (k * PAGE_SIZE)) by (unfold PAGE_SIZE in *; lia). rewrite Epa, u64_small by done.
    wp_step. apply wp_zoom. cbn [lget kh_pmm_lens]. eapply wp_mono; [by apply (free_page_correct _ c (kh_pmm s) st)|]. cbv beta.
    intros _ c' g1 [-> (st1 & Hg1 & Hwf1 & Hp1 & Hw1 & Hfree & _)]. specialize (Hfree i ltac:(lia) eq_refl).
    specialize (Hfree (Hmd i ltac:(apply elem_of_union_l, elem_of_singleton; done))).
    pose proof Hw1 as (_ & _ & Et & Em & Emp).
    assert (∀ j, page_pa st1 j = page_pa st j) as Epa1 by (intros; by apply same_window_pa).
    eapply wp_mono; [apply (IH pa0 (k + 1) (i + 1) c (lset kh_pmm_lens g1 s) st1); try done; [lia|lia|lia| |]|].
    + rewrite Epa1. unfold page_pa, PAGE_SIZE in *. lia.
    + intros j Hj. rewrite Epa1. unfold in_metadata. rewrite Em, Emp. apply Hmd. by apply elem_of_union_r.
    + cbv beta. intros _ c' s1 (-> & g' & st' & -> & Hpm & Hw' & Hf'). split; [done|]. exists g', st'.
      split_and!; [done|apply Hpm|apply Hpm|apply Hpm|by etrans|]. rewrite Hf', Hfree, Nat2Z.inj_succ, <- Z.add_1_l, run_cons by lia.
      apply set_eq. intros x. rewrite !elem_of_union. tauto.
Qed.

(** ** What the heap promises

    [kh_abs s h]: [h] maps each buffer handed out and not freed to its usable
    length. *)

Definition kh_holds (bp : gmap Z nat) (sm : gset Z) (bg : gmap Z (Z * Z)) (h : gmap Z Z) : Prop :=
  ∀ x n, h !! x = Some n ↔
    (x ∈ sm ∧ ∃ v b, bp !! v = Some b ∧ x ∈ blocks b v ∧ n = bsize b) ∨
    (∃ v i k, bg !! v = Some (i, k) ∧ x = v + sizeof_hdr ∧ n = k * PAGE_SIZE - sizeof_hdr).
Definition kh_abs (s : kheap_state) (h : gmap Z Z) : Prop :=
  ∃ st bp fl sm bg, kh_repg s st bp fl sm bg ∧ kh_holds bp sm bg h.

(** Byte ranges that do not meet. *)
Definition apart (x n y m : Z) : Prop := x + n ≤ y ∨ y + m ≤ x.
#[global] Instance apart_dec x n y m : Decision (apart x n y m) := _.

(** The range of a buffer: the page or the pages it lies in. *)
Lemma held_small s st bp fl sm bg x v b : kh_repg s st bp fl sm bg → bp !! v = Some b → x ∈ blocks b v →
  ∃ i, 0 ≤ i < total_pages st ∧ v = va st i ∧ va st i + 16 ≤ x ∧ x + bsize b ≤ va st i + PAGE_SIZE ∧ 16 ≤ bsize b.
Proof.
  intros R Hv Hx. destruct (block_page _ _ _ _ _ _ R v b x Hv Hx) as (i & Hi & _ & Ev & Hlo & Hhi & Hb). exists i.
  pose proof (bsize_bounds b Hb) as [? _]. split_and!; try done; lia.
Qed.

(** A block and a run never meet, nor two runs, nor two blocks. *)
Lemma small_big_apart s st bp fl sm bg x v b w i k : kh_repg s st bp fl sm bg →
  bp !! v = Some b → x ∈ blocks b v → bg !! w = Some (i, k) → apart x (bsize b) (w + sizeof_hdr) (k * PAGE_SIZE - sizeof_hdr).
Proof.
  intros R Hv Hx Hw. destruct (held_small _ _ _ _ _ _ x v b R Hv Hx) as (j & Hj & Ev & Hlo & Hhi & Hbs).
  destruct (kr_big _ _ _ _ _ _ R w i k Hw) as (Hi & Hk & Ht & -> & _). pose proof (kh_shape _ _ _ _ _ _ R) as Hsh.
  assert (j ∉ run i k) as Hnr.
  { intros Hj'. destruct (kr_own _ _ _ _ _ _ R _ i k j Hw Hj') as (_ & _ & ?). congruence. }
  rewrite elem_of_run in Hnr. rewrite (va_eq st j) in * by done. rewrite (va_eq st i) by (done || lia).
  unfold apart, sizeof_hdr, PAGE_SIZE in *. lia.
Qed.

Lemma big_big_apart s st bp fl sm bg w i k w' i' k' : kh_repg s st bp fl sm bg →
  bg !! w = Some (i, k) → bg !! w' = Some (i', k') → w ≠ w' →
  apart (w + sizeof_hdr) (k * PAGE_SIZE - sizeof_hdr) (w' + sizeof_hdr) (k' * PAGE_SIZE - sizeof_hdr).
Proof.
  intros R Hw Hw' Hne. pose proof (kh_shape _ _ _ _ _ _ R) as Hsh. pose proof (kr_disj _ _ _ _ _ _ R w w' i k i' k' Hw Hw' Hne) as Hd.
  destruct (kr_big _ _ _ _ _ _ R w i k Hw) as (Hi & Hk & Ht & -> & _). destruct (kr_big _ _ _ _ _ _ R w' i' k' Hw') as (Hi' & Hk' & Ht' & -> & _).
  assert (¬ i' ≤ i < i' + k' ∧ ¬ i ≤ i' < i + k) as [H1 H2].
  { split; intros Hx; [apply (Hd i)|apply (Hd i')]; apply elem_of_run; lia. }
  rewrite (va_eq st i), (va_eq st i') by (done || lia). unfold apart, sizeof_hdr, PAGE_SIZE in *. lia.
Qed.

Lemma small_small_apart s st bp fl sm bg x v b y w b' : kh_repg s st bp fl sm bg →
  bp !! v = Some b → x ∈ blocks b v → bp !! w = Some b' → y ∈ blocks b' w → x ≠ y → apart x (bsize b) y (bsize b').
Proof.
  intros R Hv Hx Hw Hy Hne. destruct (held_small _ _ _ _ _ _ x v b R Hv Hx) as (i & Hi & Ev & Hlo & Hhi & Hbs).
  destruct (held_small _ _ _ _ _ _ y w b' R Hw Hy) as (j & Hj & Ew & Hlo' & Hhi' & Hbs'). pose proof (kh_shape _ _ _ _ _ _ R) as Hsh.
  destruct (decide (i = j)) as [<-|Hij].
  - subst v w. assert (b' = b) as -> by congruence. destruct (kr_page _ _ _ _ _ _ R _ b Hv) as [Hb _]. by apply (blocks_apart b (va st i)).
  - rewrite (va_eq st i) in * by done. rewrite (va_eq st j) in * by done. unfold apart, PAGE_SIZE in *. nia.
Qed.

Lemma holds_apart s st bp fl sm bg h x n y m : kh_repg s st bp fl sm bg → kh_holds bp sm bg h →
  h !! x = Some n → h !! y = Some m → x ≠ y → apart x n y m.
Proof.
  intros R Hh Hx%Hh Hy%Hh Hne. destruct Hx as [(_ & v & b & Hv & Hx & ->)|(v & i & k & Hv & -> & ->)];
    destruct Hy as [(_ & w & b' & Hw & Hy & ->)|(w & i' & k' & Hw & -> & ->)].
  - by eapply small_small_apart.
  - by eapply small_big_apart.
  - destruct (small_big_apart _ _ _ _ _ _ y w b' v i k R Hw Hy Hv); [by right|by left].
  - eapply big_big_apart; [done|done|done|]. naive_solver.
Qed.

(** No byte of a buffer is in a free page. *)
Lemma held_not_free s st bp fl sm bg h x n a : kh_repg s st bp fl sm bg → kh_holds bp sm bg h → h !! x = Some n → x ≤ a < x + n →
  not_free_addr st a.
Proof.
  intros R Hh Hx%Hh Ha j Hj Hp. pose proof (kh_shape _ _ _ _ _ _ R) as Hsh. pose proof Hj as [Hjt _]%elem_of_free_bits.
  destruct Hx as [(_ & v & b & Hv & Hx & ->)|(v & i & k & Hv & -> & ->)].
  - destruct (block_page _ _ _ _ _ _ R v b x Hv Hx) as (i & Hi & Hif & Ev & Hlo & Hhi & Hb).
    assert (i = j) as <- by (apply (in_page_unique st i j a Hsh Hi Hjt); lia). done.
  - destruct (kr_big _ _ _ _ _ _ R v i k Hv) as (Hi & Hk & Ht & Ev & _). unfold sizeof_hdr in Ha.
    destruct (kr_own _ _ _ _ _ _ R v i k j Hv) as [Hjf _]; [|done]. apply (in_run st i k j a); try done; lia.
Qed.

(** The words of the buffers in [h] are as they were. *)
Definition mem_kept (h : gmap Z Z) (s s' : kheap_state) : Prop :=
  ∀ x n a, h !! x = Some n → x ≤ a < x + n → kh_mem s' !! a = kh_mem s !! a.

(** Not even the header of a run meets another buffer. *)
Lemma run_held_apart s st bp fl sm bg h v i n y m : kh_repg s st bp fl sm bg → kh_holds bp sm bg h →
  bg !! v = Some (i, n) → h !! y = Some m → y ≠ v + sizeof_hdr → apart v (n * PAGE_SIZE) y m.
Proof.
  intros R Hh Hv Hy%Hh Hne. pose proof (kh_shape _ _ _ _ _ _ R) as Hsh. destruct (kr_big _ _ _ _ _ _ R v i n Hv) as (Hi & Hn & Ht & Ev & _).
  destruct Hy as [(_ & w & b & Hw & Hy & ->)|(w & k & p & Hw & -> & ->)].
  - destruct (held_small _ _ _ _ _ _ y w b R Hw Hy) as (j & Hj & Ew & Hlo & Hhi & Hbs).
    assert (j ∉ run i n) as Hnr by (intros Hj'; destruct (kr_own _ _ _ _ _ _ R _ i n j Hv Hj') as (_ & _ & ?); congruence).
    rewrite elem_of_run in Hnr. rewrite Ev. rewrite (va_eq st j) in * by done. rewrite (va_eq st i) by (done || lia). unfold apart, PAGE_SIZE in *. lia.
  - destruct (kr_big _ _ _ _ _ _ R w k p Hw) as (Hk & Hp & Hkt & Ew & _). assert (v ≠ w) as Hvw by (intros ->; done).
    pose proof (kr_disj _ _ _ _ _ _ R v w i n k p Hv Hw Hvw) as Hd.
    assert (¬ k ≤ i < k + p ∧ ¬ i ≤ k < i + n) as [H1 H2] by (split; intros Hx; [apply (Hd i)|apply (Hd k)]; apply elem_of_run; lia).
    rewrite Ev, Ew, (va_eq st i), (va_eq st k) by (done || lia). unfold apart, sizeof_hdr, PAGE_SIZE in *. lia.
Qed.

Lemma holds_grow s st bp fl s' st' bp' fl' sm bg h : kh_repg s st bp fl sm bg → kh_repg s' st' bp' fl' sm bg → bp ⊆ bp' →
  kh_holds bp sm bg h → kh_holds bp' sm bg h.
Proof.
  intros R R' Hsub Hh x n. rewrite (Hh x n). split; (intros [[Hx (v & b & Hv & Hxv & ->)]|?]; [left; split; [done|]|by right]).
  - exists v, b. split_and!; [|done|done]. by eapply lookup_weaken.
  - pose proof Hx as (v1 & b1 & Hv1 & Hx1 & _)%(kr_small _ _ _ _ _ _ R). exists v1, b1. split_and!; [done|done|].
    pose proof (lookup_weaken _ _ _ _ Hv1 Hsub) as Hv1'. by destruct (block_class _ _ _ _ _ _ R' v b v1 b1 x Hv Hxv Hv1' Hx1) as [_ ->].
Qed.

(** A new block, a new run; a block or a run given back. *)
Lemma holds_add_small s st bp fl sm bg h x v b : kh_repg s st bp fl ({[x]} ∪ sm) bg → bp !! v = Some b → x ∈ blocks b v →
  (x ∉ sm) → kh_holds bp sm bg h → h !! x = None ∧ kh_holds bp ({[x]} ∪ sm) bg (<[x := bsize b]> h).
Proof.
  intros R Hv Hx Hn Hh. pose proof (held_small _ _ _ _ _ _ x v b R Hv Hx) as (j & Hj & _ & Hlo & Hhi & Hbs).
  assert (∀ w i k, bg !! w = Some (i, k) → x ≠ w + sizeof_hdr) as Hnb.
  { intros w i k Hw ->. destruct (kr_big _ _ _ _ _ _ R w i k Hw) as (_ & Hk & _).
    destruct (small_big_apart _ _ _ _ _ _ _ v b w i k R Hv Hx Hw); unfold sizeof_hdr, PAGE_SIZE in *; lia. }
  split.
  - destruct (h !! x) as [n|] eqn:E; [|done]. apply Hh in E as [[? _]|(w & i & k & Hw & Ew & _)]; [done|]. by destruct (Hnb w i k).
  - intros y n. destruct (decide (y = x)) as [->|Hne].
    + rewrite lookup_insert_eq. split.
      * intros [= <-]. left. split; [set_solver|]. by exists v, b.
      * intros [[_ (v' & b' & Hv' & Hx' & ->)]|(w & i & k & Hw & Ew & _)]; [|by destruct (Hnb w i k)].
        by destruct (block_class _ _ _ _ _ _ R v b v' b' x Hv Hx Hv' Hx') as [_ ->].
    + rewrite lookup_insert_ne, (Hh y n) by done. rewrite elem_of_union, elem_of_singleton. naive_solver.
Qed.
Lemma holds_add_big s st bp fl sm bg h v i k : kh_repg s st bp fl sm (<[v := (i, k)]> bg) → bg !! v = None →
  kh_holds bp sm bg h → h !! (v + sizeof_hdr) = None ∧
  kh_holds bp sm (<[v := (i, k)]> bg) (<[v + sizeof_hdr := k * PAGE_SIZE - sizeof_hdr]> h).
Proof.
  intros R Hv Hh. assert (∀ y w b, bp !! w = Some b → y ∈ blocks b w → y ≠ v + sizeof_hdr) as Hns.
  { intros y w b Hw Hy ->. destruct (kr_big _ _ _ _ _ _ R v i k) as (_ & Hk & _); [by rewrite lookup_insert_eq|].
    destruct (held_small _ _ _ _ _ _ _ w b R Hw Hy) as (j & _ & _ & _ & _ & Hbs).
    destruct (small_big_apart _ _ _ _ _ _ _ w b v i k R Hw Hy) as [?|?]; [by rewrite lookup_insert_eq|..]; unfold sizeof_hdr, PAGE_SIZE in *; lia. }
  split.
  - destruct (h !! _) as [n|] eqn:E; [|done]. apply Hh in E as [[_ (w & b & Hw & Hy & _)]|(w & j & m & Hw & Ew & _)]; [by destruct (Hns _ w b Hw Hy)|].
    assert (w = v) as -> by (unfold sizeof_hdr in *; lia). congruence.
  - intros y n. destruct (decide (y = v + sizeof_hdr)) as [->|Hne].
    + rewrite lookup_insert_eq. split.
      * intros [= <-]. right. exists v, i, k. by rewrite lookup_insert_eq.
      * intros [[_ (w & b & Hw & Hy & _)]|(w & j & m & Hw & Ew & ->)]; [by destruct (Hns _ w b Hw Hy)|].
        assert (w = v) as -> by (unfold sizeof_hdr in *; lia). rewrite lookup_insert_eq in Hw. congruence.
    + rewrite lookup_insert_ne, (Hh y n) by done. split; (intros [?|(w & j & m & Hw & -> & ->)]; [by left|right; exists w, j, m]).
      * rewrite lookup_insert_ne by (intros ->; done). done.
      * rewrite lookup_insert_ne in Hw by (intros ->; done). done.
Qed.

Lemma pages_for size : 2048 < size ≤ 2 ^ 43 →
  let n := u32 (align_up_4k (u64 (size + sizeof_hdr)) / PAGE_SIZE) in 0 < n < 2 ^ 32 ∧ size ≤ n * PAGE_SIZE - sizeof_hdr.
Proof.
  intros Hs. unfold sizeof_hdr. rewrite (u64_small (size + 8)) by lia.
  rewrite align_up_4k_eq by (unfold PAGE_SIZE; lia). unfold PAGE_SIZE. rewrite Z.mul_comm, Z.div_mul by lia. cbv zeta.
  assert (0 < (size + 8 + (4096 - 1)) / 4096 < 2 ^ 32 ∧ size + 8 ≤ 4096 * ((size + 8 + (4096 - 1)) / 4096)) as [H1 H2]
    by (Z.div_mod_to_equations; lia).
  rewrite u32_small by lia. lia.
Qed.

(** A successful [kmalloc] extends the buffers held by one of at least [size]
    bytes that none of them meets; a failed one changes nothing. *)
Definition malloc_post (h : gmap Z Z) (size r : Z) (s' : kheap_state) : Prop :=
  (r = 0 ∧ kh_abs s' h) ∨
  (r ≠ 0 ∧ h !! r = None ∧ ∃ n, size ≤ n ∧ kh_abs s' (<[r := n]> h)).

Lemma kmalloc_small_correct b size c s h : kh_abs s h → irq_depth c = 0 → (b < 8)%nat → size ≤ bsize b →
  wp (h0 <- get_free b ;;
      (if h0 =? 0 then refill_bucket b else ret tt) ;;;
      n <- get_free b ;;
      if n =? 0 then ret 0
      else
        nx <- get_word n ;; set_free b nx ;;; count (count_small_alloc b) ;;;
        bs <- load (g_bucket_sizes !! b) ;; count (kheap_account_alloc bs) ;;; ret n)
    (λ r c' s', c' = c ∧ malloc_post h size r s' ∧ mem_kept h s s') c s.
Proof.
  intros (st & bp & fl & sm & bg & R & Hh) Hd Hb Hsz. destruct (kr_heads _ _ _ _ _ _ R) as [_ Hheads].
  wp_step. eapply wp_get_free; [by apply Hheads|]. wp_step.
  assert (wp (if hd 0 (fl b) =? 0 then refill_bucket b else ret tt) (λ _ c' s', c' = c ∧ (∃ st' bp' fl',
    bp ⊆ bp' ∧ kh_repg s' st' bp' fl' sm bg) ∧ mem_kept h s s') c s) as Hre.
  { destruct (Z.eqb_spec (hd 0 (fl b)) 0) as [E|_].
    - eapply wp_mono; [eapply refill_correct; [done|done| |done]; eapply free_head; [done|done|]; rewrite (Hheads b Hb); by rewrite E|].
      cbv beta. intros _ c' s' (-> & Hex & Hk). split_and!; [done|done|]. intros x n a Hx Ha. by apply Hk, (held_not_free _ _ _ _ _ _ _ _ _ _ R Hh Hx).
    - wp_steps. split_and!; [done| |by intros x n a]. by exists st, bp, fl. }
  eapply wp_mono; [exact Hre|]. cbv beta. intros _ c' s1 (-> & (st1 & bp1 & fl1 & Hsub & R1) & Hkept). clear Hre Hheads.
  pose proof (holds_grow _ _ _ _ _ _ _ _ _ _ _ R R1 Hsub Hh) as Hh1.
  destruct (kr_heads _ _ _ _ _ _ R1) as [Hlen Hheads]. wp_step. eapply wp_get_free; [by apply Hheads|].
  destruct (fl1 b) as [|n l] eqn:Ef; cbn [hd].
  { wp_steps. split_and!; [done| |done]. left. split; [done|]. by exists st1, bp1, fl1, sm, bg. }
  pose proof (block_nonnull _ _ _ _ _ _ R1 b n ltac:(rewrite Ef; by left)) as Hn0. destruct (Z.eqb_spec n 0) as [|_]; [done|].
  destruct (pop_block s1 st1 bp1 fl1 sm bg b n l (kheap_account_alloc (bsize b) (count_small_alloc b (kh_counts s1))) R1 Hb Ef)
    as (Hw & Hns & (v & Hv & Hnv) & R2).
  unfold get_word, set_free, count. wp_steps. rewrite Hw. wp_steps. rewrite (bsize_lookup b Hb). wp_steps. cbn [kh_pmm kh_mem g_freelist kh_counts].
  split_and!; [done| |done]. right. destruct (holds_add_small _ _ _ _ _ _ h n v b R2 Hv Hnv Hns Hh1) as [Hnone Hh2].
  split_and!; [done|done|]. exists (bsize b). split; [done|]. by do 5 eexists.
Qed.

Lemma kmalloc_correct size c s h : kh_abs s h → irq_depth c = 0 → 0 ≤ size ≤ 2 ^ 43 →
  wp (kmalloc size) (λ r c' s', c' = c ∧ malloc_post h size r s' ∧ mem_kept h s s') c s.
Proof.
  intros Ha Hd Hs. unfold kmalloc. wp_step. apply wp_assert_thread; [done|]. wp_step. unfold count at 1. wp_step.
  set (s0 := mkKh _ _ _ _). assert (kh_abs s0 h) as Ha0.
  { destruct Ha as (st & bp & fl & sm & bg & R & Hh). exists st, bp, fl, sm, bg. split; [|done]. by apply kh_counts_frame. }
  change (mem_kept h s) with (mem_kept h s0).
  destruct (Z.eqb_spec size 0) as [_|Hs0]; [wp_steps; split_and!; [done|by left|by intros x n a]|].
  clearbody s0. clear Ha s. pose proof (bucket_for_size_correct size) as Hb. destruct (bucket_for_size size) as [b|].
  { destruct Hb as (Hb & Hle & _). by apply kmalloc_small_correct. }
  destruct (pages_for size ltac:(lia)) as [Hn Hsz]. cbv zeta. set (n := u32 (align_up_4k _ / PAGE_SIZE)) in *. clearbody n.
  destruct Ha0 as (st & bp & fl & sm & bg & R & Hh). destruct (kr_pmm _ _ _ _ _ _ R) as (Hg & Hwf & Hp).
  wp_step. unfold kheap_alloc_pages. wp_step. apply wp_assert_thread; [done|]. destruct (Z.eqb_spec n 0) as [|_]; [lia|].
  wp_steps. cbn [lget kh_pmm_lens]. eapply wp_mono; [apply (alloc_pages_correct n c (kh_pmm s0) st); (done || lia)|]. cbv beta.
  intros r c' g' [-> (st' & Hg' & Hwf' & Hp' & Hw & Hpost)]. destruct r as [pa|]; last first.
  { unfold count. wp_steps. split_and!; [done| |by intros x m a]. left. split; [done|]. destruct Hpost as [-> _]. exists st, bp, fl, sm, bg. split; [|done].
    eapply (kh_frame s0 _ st st); [done|done|done|by intros|done|done]. }
  destruct Hpost as (i & -> & Hi & Hin & Hrun & Hfree). fold (va st i). unfold upd_mem, count. wp_steps.
  cbn [lset kh_pmm_lens kh_pmm kh_mem g_freelist kh_counts].
  set (s1 := mkKh _ _ _ _).
  assert (kh_repg s1 st' bp fl sm (<[va st i := (i, n)]> bg)) as R1 by (eapply (big_alloc_rep s0 s1 st st'); done).
  assert (bg !! va st i = None) as Hnone.
  { destruct (bg !! va st i) as [[k m]|] eqn:E; [|done]. exfalso.
    eapply (tracked_not_free _ _ _ _ _ _ R (va st i) i); [right; left; by eexists|apply Hrun, elem_of_run; lia|]. unfold PAGE_SIZE. lia. }
  destruct (holds_add_big _ _ _ _ _ _ h (va st i) i n R1 Hnone Hh) as [Hf Hh1].
  pose proof (kh_shape _ _ _ _ _ _ R) as Hsh. destruct (page_va_facts st i Hsh ltac:(lia)) as (_ & Hbd & _). fold (va st i) in Hbd.
  unfold sizeof_hdr, PAGE_SIZE in Hbd |- *. rewrite u64_small by lia. split_and!; [done| |].
  - right. split_and!; [lia|done|]. exists (n * PAGE_SIZE - sizeof_hdr). split; [done|]. by do 5 eexists.
  - intros x m a Hx Ha. cbn. rewrite lookup_insert_ne; [done|]. intros <-.
    apply (held_not_free _ _ _ _ _ _ _ _ _ _ R Hh Hx Ha i); [apply Hrun, elem_of_run; lia|unfold PAGE_SIZE; lia].
Qed.

(** ** Giving a buffer back *)

Lemma holds_remove bp sm bg h x n bp' sm' bg' : kh_holds bp sm bg h → h !! x = Some n →
  (∀ y m, ((y ∈ sm' ∧ ∃ v b, bp' !! v = Some b ∧ y ∈ blocks b v ∧ m = bsize b) ∨
     (∃ v i k, bg' !! v = Some (i, k) ∧ y = v + sizeof_hdr ∧ m = k * PAGE_SIZE - sizeof_hdr)) ↔
     h !! y = Some m ∧ y ≠ x) →
  kh_holds bp' sm' bg' (delete x h).
Proof. intros Hh Hx Hiff y m. rewrite (Hiff y m), lookup_delete_Some. naive_solver. Qed.

Lemma kfree_small_correct x v b st bp fl sm bg h c s : kh_repg s st bp fl sm bg → kh_holds bp sm bg h → irq_depth c = 0 →
  bp !! v = Some b → x ∈ blocks b v → x ∈ sm →
  wp (kfree x) (λ _ c' s', c' = c ∧ kh_abs s' (delete x h) ∧ mem_kept (delete x h) s s') c s.
Proof.
  intros R Hh Hd Hv Hx Hsm. pose proof (kh_shape _ _ _ _ _ _ R) as Hsh.
  destruct (block_page _ _ _ _ _ _ R v b x Hv Hx) as (i & Hi & _ & Ev & Hlo & Hhi & Hb). pose proof (bsize_bounds b Hb) as (Hbs & _ & Hb8).
  destruct (page_va_facts st i Hsh Hi) as (_ & Hbd & _). fold (va st i) in Hbd.
  destruct (kr_page _ _ _ _ _ _ R v b Hv) as (_ & Hw & _).
  unfold kfree. wp_step. apply wp_assert_thread; [done|]. wp_step. unfold count at 1. wp_step.
  destruct (Z.eqb_spec x 0) as [|_]; [lia|]. rewrite (heap_page_base st i x Hsh Hi) by lia. rewrite <- Ev.
  cbv zeta. wp_step. unfold get_word. wp_steps. cbn [kh_mem]. rewrite Hw. wp_step.
  destruct (slab_hdr_fields b Hb) as (E1 & E2 & E3). cbv zeta in *. rewrite E1, E2, E3.
  rewrite Z.eqb_refl. destruct (Z.leb_spec NUM_BUCKETS (Z.of_nat b)) as [?|_]; [unfold NUM_BUCKETS in *; lia|]. rewrite Nat2Z.id.
  destruct (kr_heads _ _ _ _ _ _ R) as [_ Hheads]. unfold upd_mem at 1. wp_steps. eapply wp_get_free; [by apply Hheads|].
  unfold upd_mem, set_free, count. wp_steps. cbn [kh_pmm kh_mem g_freelist kh_counts]. split; [done|].
  assert (∀ a, ¬ (x ≤ a < x + bsize b) → <[x := hd 0 (fl b)]> (poison x (Z.to_nat (bsize b / 8)) (kh_mem s)) !! a = kh_mem s !! a) as Hm.
  { intros a Ha. rewrite lookup_insert_ne by (intros <-; lia). apply poison_other. rewrite Z2Nat.id by (apply Z.div_pos; lia).
    replace (8 * (bsize b / 8)) with (bsize b); [done|]. Z.div_mod_to_equations. lia. }
  assert (h !! x = Some (bsize b)) as Hhx by (apply Hh; left; split; [done|by exists v, b]).
  split; [exists st, bp, (fset b (x :: fl b) fl), (sm ∖ {[x]}), bg; split|].
  - eapply push_block; [done|done|done|done|exact Hm|by rewrite lookup_insert_eq].
  - eapply holds_remove; [done|done|]. intros y m. rewrite (Hh y m), elem_of_difference, elem_of_singleton. split.
    + intros [[[? Hne] ?]|(w & k & n & Hk & -> & ->)]; [tauto|]. split; [right; by exists w, k, n|]. intros E.
      destruct (kr_big _ _ _ _ _ _ R w k n Hk) as (_ & Hn & _).
      destruct (small_big_apart _ _ _ _ _ _ x v b w k n R Hv Hx Hk); unfold sizeof_hdr, PAGE_SIZE in *; lia.
    + intros [[[? ?]|?] Hne]; [by left|by right].
  - intros y m a [Hne Hy]%lookup_delete_Some Ha. apply Hm. destruct (holds_apart _ _ _ _ _ _ _ x _ y m R Hh Hhx Hy Hne); lia.
Qed.

Lemma kfree_big_correct v i n st bp fl sm bg h c s : kh_repg s st bp fl sm bg → kh_holds bp sm bg h → irq_depth c = 0 →
  bg !! v = Some (i, n) → wp (kfree (v + sizeof_hdr)) (λ _ c' s', c' = c ∧ kh_abs s' (delete (v + sizeof_hdr) h) ∧
    mem_kept (delete (v + sizeof_hdr) h) s s') c s.
Proof.
  intros R Hh Hd Hv. pose proof (kh_shape _ _ _ _ _ _ R) as Hsh. destruct (kr_big _ _ _ _ _ _ R v i n Hv) as (Hi & Hn & Ht & Ev & Hw).
  destruct (page_va_facts st i Hsh ltac:(lia)) as (Hal & Hbd & _). fold (va st i) in Hal, Hbd. unfold PAGE_SIZE in Hbd.
  unfold kfree. wp_step. apply wp_assert_thread; [done|]. wp_step. unfold count at 1. wp_step.
  destruct (Z.eqb_spec (v + sizeof_hdr) 0) as [?|_]; [unfold sizeof_hdr in *; lia|].
  rewrite (heap_page_base st i (v + sizeof_hdr) Hsh) by (unfold sizeof_hdr, PAGE_SIZE; lia). rewrite <- Ev.
  cbv zeta. wp_step. unfold get_word. wp_steps. cbn [kh_mem]. rewrite Hw. wp_step.
  destruct (big_hdr_fields n ltac:(lia)) as (E1 & E2). cbv zeta in *. rewrite E1, E2.
  change (BIG_MAGIC =? SLAB_MAGIC) with false. rewrite Z.eqb_refl. destruct (Z.eqb_spec n 0) as [|_]; [lia|].
  unfold upd_mem, count. wp_steps. unfold kheap_free_pages. wp_step. apply wp_assert_thread; [done|].
  destruct (Z.eqb_spec v 0) as [?|_]; [lia|]. destruct (Z.eqb_spec n 0) as [|_]; [lia|]. cbn [orb]. cbv zeta.
  cbn [kh_pmm kh_mem g_freelist kh_counts]. set (s1 := mkKh _ _ _ _).
  destruct (shape_bounds st Hsh) as (Hx1 & Hx2 & Hx3 & Hx4).
  assert (CAPAZ_RAM_BASE ≤ page_pa st i < WIN_END) as Hwin.
  { rewrite WIN_END_eq. unfold CAPAZ_RAM_BASE, page_pa, PAGE_SIZE in *. lia. }
  rewrite Ev. unfold va. rewrite phys_virt_roundtrip by done. rewrite WIN_END_eq in Hwin.
  rewrite align_down_4k_id; [|unfold CAPAZ_RAM_BASE in *; lia|by apply page_pa_aligned].
  destruct (kr_pmm _ _ _ _ _ _ R) as (Hg & Hwf & Hp).
  eapply wp_mono; [apply (free_pages_correct (Z.to_nat n) (page_pa st i) 0 i c s1 st); try done; try (unfold CAPAZ_RAM_BASE in *; lia)|].
  { intros j. rewrite Z2Nat.id by lia. intros Hj. by destruct (kr_own _ _ _ _ _ _ R v i n j Hv Hj) as (_ & ? & _). }
  cbv beta. rewrite Z2Nat.id by lia. intros _ c' s' (-> & g' & st' & -> & Hpm & Hwn & Hfree). split; [done|].
  assert (∀ a, ¬ (v ≤ a < v + n * PAGE_SIZE) → kh_mem s1 !! a = kh_mem s !! a) as Hm.
  { intros a Ha. cbn. rewrite poison_other; [done|]. rewrite Z2Nat.id by (apply Z.div_pos; unfold PAGE_SIZE; lia). unfold PAGE_SIZE in *.
    replace (8 * (n * 4096 / 8)) with (n * 4096); [done|]. Z.div_mod_to_equations. lia. }
  assert (h !! (v + sizeof_hdr) = Some (n * PAGE_SIZE - sizeof_hdr)) as Hhx by (apply Hh; right; by exists v, i, n).
  fold (va st i). rewrite <- Ev. split; [exists st', bp, fl, sm, (delete v bg); split|].
  - eapply (kh_frame s _ st st'); [by apply big_drop|done|done| |done|].
    + intros j Hj Hjf Hown. rewrite Hfree, not_elem_of_union. split; [done|]. intros Hjr.
      destruct Hown as [[b Hb]|(w & k & m & [Hne Hk]%lookup_delete_Some & Hjk)].
      * destruct (kr_own _ _ _ _ _ _ R v i n j Hv Hjr) as (_ & _ & ?). congruence.
      * by apply (kr_disj _ _ _ _ _ _ R v w i n k m Hv Hk Hne j).
    + intros a Ha. apply Hm. intros Hr. apply (run_untracked _ _ _ _ _ _ v i n a R Hv); [by rewrite <- Ev|done].
  - eapply holds_remove; [done|done|]. intros y m. rewrite (Hh y m). split.
    + intros [(? & w & b & Hw' & Hy & ->)|(w & k & n' & [Hne Hk]%lookup_delete_Some & -> & ->)].
      * split; [left; split; [done|by exists w, b]|]. intros ->.
        destruct (held_small _ _ _ _ _ _ _ w b R Hw' Hy) as (j & _ & _ & _ & _ & Hbs).
        destruct (small_big_apart _ _ _ _ _ _ _ w b v i n R Hw' Hy Hv); unfold sizeof_hdr, PAGE_SIZE in *; lia.
      * split; [right; by exists w, k, n'|]. intros E. apply Hne. unfold sizeof_hdr in *. lia.
    + intros [[?|(w & k & n' & Hk & -> & ->)] Hne]; [by left|]. right. exists w, k, n'. rewrite lookup_delete_ne by (intros ->; done). done.
  - intros y m a [Hne Hy]%lookup_delete_Some Ha. apply Hm. intros Hr.
    destruct (run_held_apart _ _ _ _ _ _ _ v i n y m R Hh Hv Hy (not_eq_sym Hne)); lia.
Qed.

(** Giving back any buffer that is held. *)
Lemma kfree_correct x n h c s : kh_abs s h → irq_depth c = 0 → h !! x = Some n →
  wp (kfree x) (λ _ c' s', c' = c ∧ kh_abs s' (delete x h) ∧ mem_kept (delete x h) s s') c s.
Proof.
  intros (st & bp & fl & sm & bg & R & Hh) Hd Hx. apply Hh in Hx as [(Hsm & v & b & Hv & Hxv & _)|(v & i & k & Hv & -> & _)];
    [by eapply kfree_small_correct|by eapply kfree_big_correct].
Qed.

(** *** Clients writing to their buffers *)

Lemma store_correct x n a w h s : kh_abs s h → h !! x = Some n → x ≤ a → a + 8 ≤ x + n →
  kh_abs (mkKh (kh_pmm s) (<[a := w]> (kh_mem s)) (g_freelist s) (kh_counts s)) h.
Proof.
  intros (st & bp & fl & sm & bg & R & Hh) Hx Ha1 Ha2. exists st, bp, fl, sm, bg. split; [|done].
  eapply (kh_frame s _ st st); [done|apply R|done|by intros|done|]. intros a' Htr. cbn. apply lookup_insert_ne. intros <-.
  apply Hh in Hx as [(Hsm & v & b & Hv & Hx & ->)|(v & i & k & Hv & -> & ->)].
  - eapply (block_untracked _ _ _ _ _ _ v b x a R); [done..|]. lia.
  - destruct (kr_big _ _ _ _ _ _ R v i k Hv) as (Hi & Hk & Ht & Ev & _). unfold sizeof_hdr in *.
    apply (run_untracked _ _ _ _ _ _ v i k a R Hv); [lia|]. destruct Htr as [?|[[p Hp]|?]]; [by left| |by right; right].
    right. left. exists p. apply lookup_delete_Some. split; [lia|done].
Qed.

(** ** Theorems *)

(** A client of the heap: it remembers the buffers it holds, the sizes it asked
    for and the words it wrote, stops if a new buffer meets one of them, frees
    what it holds and writes words inside what it holds. *)
Inductive heap_op := HMalloc (size : Z) | HFree (x : Z) | HStore (x a w : Z).

Record client := mkClient { held : gmap Z Z; wrote : gmap Z Z }.

(** The words outside of a buffer that is given back. *)
Definition outside (x n : Z) (m : gmap Z Z) : gmap Z Z := filter (λ p, ¬ (x ≤ p.1 < x + n)) m.

(** A word written at [a]: the words it covers in part are gone. *)
Definition overwrite (a w : Z) (m : gmap Z Z) : gmap Z Z := <[a := w]> (outside (a - 7) 15 m).

Fixpoint run_heap (ops : list heap_op) (k : client) : M kheap_state client :=
  match ops with
  | [] => ret k
  | HMalloc size :: ops =>
    r <- kmalloc size ;;
    if r =? 0 then run_heap ops k
    else
      assert_that (bool_decide (map_Forall (λ x n, apart r size x n) (held k))) "buffers overlap" ;;;
      run_heap ops (mkClient (<[r := size]> (held k)) (wrote k))
  | HFree x :: ops =>
    match held k !! x with
    | Some n => kfree x ;;; run_heap ops (mkClient (delete x (held k)) (outside x n (wrote k)))
    | None => run_heap ops k
    end
  | HStore x a w :: ops =>
    match held k !! x with
    | Some n =>
      if (x <=? a) && (a + 8 <=? x + n) then upd_mem <[a := w]> ;;; run_heap ops (mkClient (held k) (overwrite a w (wrote k)))
      else run_heap ops k
    | None => run_heap ops k
    end
  end.
Definition heap_op_ok (op : heap_op) : Prop :=
  match op with HMalloc size => 0 ≤ size ≤ 2 ^ 43 | _ => True end.

(** The client's sizes are within the usable ones. *)
Definition fits (held h : gmap Z Z) : Prop :=
  ∀ x, match held !! x, h !! x with Some n, Some m => n ≤ m | None, None => True | _, _ => False end.

Lemma fits_insert held h r size n : fits held h → size ≤ n → fits (<[r := size]> held) (<[r := n]> h).
Proof.
  intros Hf Hn x. destruct (decide (x = r)) as [->|Hne]; [by rewrite !lookup_insert_eq|].
  rewrite !lookup_insert_ne by done. apply Hf.
Qed.
Lemma fits_delete held h x : fits held h → fits (delete x held) (delete x h).
Proof.
  intros Hf y. destruct (decide (y = x)) as [->|Hne]; [by rewrite !lookup_delete_eq|].
  rewrite !lookup_delete_ne by done. apply Hf.
Qed.
Lemma fits_some held h x n : fits held h → held !! x = Some n → ∃ m, h !! x = Some m ∧ n ≤ m.
Proof. intros Hf Hx. specialize (Hf x). rewrite Hx in Hf. destruct (h !! x) as [m|]; [by exists m|done]. Qed.

(** What the client wrote is in buffers it holds, and in memory. *)
Definition remembers (k : client) (s : kheap_state) : Prop :=
  ∀ a w, wrote k !! a = Some w → kh_mem s !! a = Some w ∧ ∃ x n, held k !! x = Some n ∧ x ≤ a < x + n.

Lemma remembers_kept k h s s' : fits (held k) h → mem_kept h s s' → remembers k s → remembers k s'.
Proof.
  intros Hf Hk Hr a w Ha. destruct (Hr a w Ha) as (Hm & x & n & Hx & Hxa). split; [|by exists x, n].
  destruct (fits_some _ _ x n Hf Hx) as (m & Hh & Hle). by rewrite (Hk x m a Hh) by lia.
Qed.

Lemma held_apart s k h x n y m : kh_abs s h → fits (held k) h → held k !! x = Some n → held k !! y = Some m → x ≠ y → apart x n y m.
Proof.
  intros (st & bp & fl & sm & bg & R & Hh) Hf Hx Hy Hne. destruct (fits_some _ _ x n Hf Hx) as (n' & Hx' & Hn).
  destruct (fits_some _ _ y m Hf Hy) as (m' & Hy' & Hm). destruct (holds_apart _ _ _ _ _ _ _ x n' y m' R Hh Hx' Hy' Hne); [left|right]; lia.
Qed.

(** The invariant of a client. *)
Definition client_ok (k : client) (s : kheap_state) : Prop := ∃ h, kh_abs s h ∧ fits (held k) h ∧ remembers k s.

Lemma client_free x n k h c s : kh_abs s h → fits (held k) h → remembers k s → irq_depth c = 0 → held k !! x = Some n →
  wp (kfree x) (λ _ c' s', c' = c ∧ client_ok (mkClient (delete x (held k)) (outside x n (wrote k))) s') c s.
Proof.
  intros Ha Hf Hr Hd Hx. destruct (fits_some _ _ x n Hf Hx) as (m & Hm & Hle).
  eapply wp_mono; [by eapply (kfree_correct x m h)|]. cbv beta. intros _ c' s' (-> & Ha' & Hk). split; [done|].
  exists (delete x h). split_and!; [done|by apply fits_delete|]. eapply remembers_kept; [by apply fits_delete|done|].
  intros a w [Hw Ho]%map_lookup_filter_Some. cbn [wrote held] in *. destruct (Hr a w Hw) as (Hmem & y & p & Hy & Hya). split; [done|].
  exists y, p. split; [|done]. apply lookup_delete_Some. split; [|done]. intros <-. rewrite Hx in Hy. injection Hy as <-. by apply Ho.
Qed.

Lemma run_heap_correct ops : ∀ k c s, client_ok k s → irq_depth c = 0 → Forall heap_op_ok ops →
  wp (run_heap ops k) (λ k' c' s', c' = c ∧ client_ok k' s') c s.
Proof.
  induction ops as [|op ops IH]; intros k c s Hk Hd Hok; cbn [run_heap]; [by wp_steps|].
  apply Forall_cons in Hok as [Hop Hok]. pose proof Hk as (h & Ha & Hf & Hr). destruct op as [size|x|x a w].
  - wp_step. eapply wp_mono; [by apply (kmalloc_correct size c s h)|]. cbv beta. intros r c' s' (-> & Hpost & Hkept).
    pose proof (remembers_kept k h s s' Hf Hkept Hr) as Hr'.
    destruct Hpost as [[-> Ha']|(Hrn & Hnone & n & Hn & Ha')]; [apply IH; [by exists h|done|done]|].
    destruct (Z.eqb_spec r 0) as [|_]; [done|]. set (k' := mkClient (<[r := size]> (held k)) (wrote k)).
    assert (fits (held k') (<[r := n]> h)) as Hf' by (by apply fits_insert).
    assert (∀ x m, held k !! x = Some m → x ≠ r) as Hfresh.
    { intros x m Hx ->. destruct (fits_some _ _ r m Hf Hx) as (? & ? & _). congruence. }
    wp_step. apply wp_assert.
    + apply bool_decide_eq_true_2. intros x m Hx. apply (held_apart s' k' _ r size x m Ha' Hf'); [apply lookup_insert_eq| |by eapply not_eq_sym, Hfresh].
      cbn. rewrite lookup_insert_ne; [done|]. by eapply not_eq_sym, Hfresh.
    + apply IH; [|done|done]. exists (<[r := n]> h). split_and!; [done|done|]. intros a w Hw. destruct (Hr' a w Hw) as (Hm & x & m & Hx & Hxa).
      split; [done|]. exists x, m. split; [|done]. cbn. rewrite lookup_insert_ne; [done|]. by eapply not_eq_sym, Hfresh.
  - destruct (held k !! x) as [n|] eqn:Hx; [|by apply IH]. wp_step. eapply wp_mono; [by apply (client_free x n k h)|]. cbv beta.
    intros _ c' s' [-> Hk']. by apply IH.
  - destruct (held k !! x) as [n|] eqn:Hx; [|by apply IH]. destruct (_ && _) eqn:Eb; [|by apply IH]. bool_simpl.
    destruct (fits_some _ _ x n Hf Hx) as (m & Hm & Hle). unfold upd_mem. wp_step. wp_step. apply IH; [|done|done]. exists h.
    split_and!; [by eapply (store_correct x m a w); (done || lia)|done|]. intros b v Hbv. cbn [wrote kh_mem held] in *.
    unfold overwrite in Hbv. apply lookup_insert_Some in Hbv as [[<- <-]|[Hne [Hv _]%map_lookup_filter_Some]].
    + split; [apply lookup_insert_eq|]. exists x, n. split; [done|lia].
    + rewrite lookup_insert_ne by done. by apply Hr.
Qed.

Lemma kheap_init_correct c s st : g_pmm (kh_pmm s) = Some st → pmm_wf st → pressure_ok st (kh_pmm s) →
  wp kheap_init (λ _ c' s', c' = c ∧ kh_abs s' ∅) c s.
Proof.
  intros Hg Hwf Hp. unfold kheap_init. wp_step. split; [done|]. exists st, ∅, (λ _, []), ∅, ∅. split; [split; cbn; try done|].
  - split; [done|]. intros b Hb. do 8 (destruct b as [|b]; [done|]). lia.
  - intros _. constructor.
  - by intros b x ?%not_elem_of_nil.
  - intros x. split; [by intros ?%not_elem_of_empty|]. by intros (v & b & ? & _).
  - intros x n. rewrite lookup_empty. split; [done|]. intros [[?%not_elem_of_empty _]|(v & i & k & ? & _)]; done.
Qed.

(** C18: From initialization on, over any sequence of kmalloc calls (of at
    most 2^43 bytes), kfree calls on held buffers and word writes inside held
    buffers, the heap never faults or panics, a buffer handed out never meets
    one that is held, and every word the client wrote into a buffer it still
    holds, and did not overwrite since, is still there: size classes, free
    lists threaded through the blocks, page headers and page runs represent
    the set of held buffers. *)
Theorem kheap_buffers_never_overlap ops c s st :
  g_pmm (kh_pmm s) = Some st → pmm_wf st → pressure_ok st (kh_pmm s) → irq_depth c = 0 → Forall heap_op_ok ops →
  wp (kheap_init ;;; run_heap ops (mkClient ∅ ∅)) (λ k c' s', c' = c ∧
    (∀ x y n m, held k !! x = Some n → held k !! y = Some m → x ≠ y → apart x n y m) ∧
    (∀ a w, wrote k !! a = Some w → kh_mem s' !! a = Some w)) c s.
Proof.
  intros Hg Hwf Hp Hd Hok. wp_step. eapply wp_mono; [by apply (kheap_init_correct c s st)|]. cbv beta. intros _ c' s1 [-> Ha].
  eapply wp_mono; [apply run_heap_correct; [|done|done]|].
  { exists ∅. split_and!; [done|by intros x; rewrite lookup_empty|]. intros a w Hw. cbn [wrote] in Hw. by rewrite lookup_empty in Hw. }
  cbv beta. intros k c' s' (-> & h & Ha' & Hf & Hr). split_and!; [done| |].
  - intros x y n m Hx Hy Hne. by eapply held_apart.
  - intros a w Hw. by apply Hr.
Qed.

(** *** Examples *)

Definition zero_counts : kheap_counts :=
  mkCounts 0 0 (replicate 8 0) (replicate 8 0) 0 0 0 0 0 (replicate 8 0).
Definition sample_heap : kheap_state := mkKh five_globals ∅ (replicate 8 0) zero_counts.
Definition heap_ops : list heap_op :=
  [HMalloc 24; HMalloc 5000; HMalloc 2048; HStore 0xFFFF800040502FF8 0xFFFF800040502FF8 1; HFree 0xFFFF800040501008; HMalloc 4088].

(** Evaluated: the first block handed out is the last one of its page, a large
    buffer starts after its header, and freed pages are used again. *)
Example heap_run :
  match (kheap_init ;;; run_heap heap_ops (mkClient ∅ ∅)) thread_cpu sample_heap with
  | Ret (k, _, _) => map_to_list (held k)
  | _ => []
  end = [(0xFFFF800040501008, 4088); (0xFFFF800040500FE0, 24); (0xFFFF800040503800, 2048)].
Proof. vm_compute. reflexivity. Qed.

Lemma kheap_buffers_witness :
  wp (kheap_init ;;; run_heap heap_ops (mkClient ∅ ∅)) (λ k c' s', c' = thread_cpu ∧
    (∀ x y n m, held k !! x = Some n → held k !! y = Some m → x ≠ y → apart x n y m) ∧
    (∀ a w, wrote k !! a = Some w → kh_mem s' !! a = Some w)) thread_cpu sample_heap.
Proof.
  apply (kheap_buffers_never_overlap heap_ops thread_cpu sample_heap five_pages);
    [done|apply five_pages_wf|apply five_pressure|done|repeat constructor; cbn; lia].
Defined.

(** Sizes near 2^64 or of 2^44 bytes and more: the sum with the header wraps, or
    the page count is cut to 32 bits, and a one-page buffer is returned. *)
Theorem kmalloc_size_wraps :
  Forall (λ size, match kmalloc size thread_cpu sample_heap with
    | Ret (r, _, s) => r = 0xFFFF800040500008 ∧ kh_mem s !! (r - sizeof_hdr) = Some (big_alloc_hdr 1)
    | _ => False
    end) [2 ^ 64 - 1; 2 ^ 44].
Proof. repeat constructor. Qed.
