(* ===== verification/Dtb.v ===== *)
(** * Device tree (Kern/Kernel/platform/dtb.c)

    The parser of the flattened device tree the boot code passes to the kernel.
    The blob is a string of bytes at an address; reading outside it is a fault.
    A walk over the structure block is a loop over tokens with the local
    variables of the C function as its state. *)

From S2P Require Import Prelude Irq Addr Platform.

Definition FDT_BEGIN_NODE : Z := 1.
Definition FDT_END_NODE : Z := 2.
Definition FDT_PROP : Z := 3.
Definition FDT_NOP : Z := 4.
Definition FDT_END : Z := 9.
Definition FDT_MAGIC : Z := 0xD00DFEED.
Definition MAX_DEPTH : Z := 32.

(** Characters of a string literal. *)
Fixpoint chars (s : string) : list Z :=
  match s with
  | EmptyString => []
  | String a s => Z.of_N (Ascii.N_of_ascii a) :: chars s
  end.
Definition SLASH : Z := 0x2F.
Definition COLON : Z := 0x3A.
Definition AT_SIGN : Z := 0x40.

(** ** Reading memory *)

Section reader.
Context (m : Z → option Z).

Definition be32 (p : Z) : option Z :=
  b0 ← m p; b1 ← m (p + 1); b2 ← m (p + 2); b3 ← m (p + 3);
  Some (Z.lor (Z.lor (Z.lor (Z.shiftl b0 24) (Z.shiftl b1 16)) (Z.shiftl b2 8)) b3).

Definition be64 (p : Z) : option Z :=
  h ← be32 p; l ← be32 (p + 4); Some (Z.lor (Z.shiftl h 32) l).

Definition align4 (p : Z) : Z := Z.land (u64 (p + 3)) (u64_not 3).

(** [while (p[nlen] != '\0') nlen++] *)
Fixpoint name_len (p n : Z) (fuel : nat) : option Z :=
  match fuel with
  | O => None
  | S fuel => c ← m (p + n); if c =? 0 then Some n else name_len p (n + 1) fuel
  end.

(** [p[0] == s[0] && p[1] == s[1] && ...] *)
Fixpoint starts (p : Z) (s : list Z) : option bool :=
  match s with
  | [] => Some true
  | x :: s => c ← m p; if c =? x then starts (p + 1) s else Some false
  end.

(** [streq] of a string in memory and a literal or a local buffer. *)
Fixpoint streq (a : Z) (b : list Z) : option bool :=
  c ← m a;
  match b with
  | [] => Some (c =? 0)
  | x :: b => if c =? 0 then Some false else if c =? x then streq (a + 1) b else Some false
  end.

Fixpoint comp_eq (node_name : Z) (comp : list Z) : option bool :=
  c ← m node_name;
  match comp with
  | [] => Some (c =? 0)
  | x :: comp => if c =? x then comp_eq (node_name + 1) comp else Some false
  end.

(** [strlcpy0] into a buffer of [n + 1] bytes; the buffer's contents up to its
    terminator. *)
Fixpoint strlcpy0 (n : nat) (src : Z) : option (list Z) :=
  match n with
  | O => Some []
  | S n => c ← m src; if c =? 0 then Some [] else l ← strlcpy0 n (src + 1); Some (c :: l)
  end.

(** The search for [needle] at the start of one of the strings of a
    "compatible" property. *)
Fixpoint needle_at (t : Z) (u : list Z) : option bool :=
  c ← m t;
  match u with
  | [] => Some true
  | x :: u => if c =? 0 then Some false else if c =? x then needle_at (t + 1) u else Some false
  end.

(** [while (q < end && *q) q++] and [while (q < end && *q == '\0') q++] *)
Fixpoint skip_chars (zero : bool) (q fin : Z) (fuel : nat) : option Z :=
  match fuel with
  | O => None
  | S fuel =>
    if q <? fin then c ← m q; if Bool.eqb (c =? 0) zero then skip_chars zero (q + 1) fin fuel else Some q
    else Some q
  end.

Fixpoint compat_scan (needle : list Z) (q fin : Z) (fuel : nat) : option bool :=
  match fuel with
  | O => None
  | S fuel =>
    if q <? fin then
      c ← m q;
      if c =? 0 then Some false
      else
        hit ← needle_at q needle;
        if (hit : bool) then Some true
        else
          q ← skip_chars false q fin fuel;
          q ← skip_chars true q fin fuel;
          compat_scan needle q fin fuel
    else Some false
  end.

(** ** Tokens *)

Inductive token := TBegin (name : Z) | TEnd | TProp (len nameoff data : Z) | TNop | TStop | TBad.

Definition next_token (p : Z) (fuel : nat) : option (token * Z) :=
  t ← be32 p;
  let p := p + 4 in
  if t =? FDT_BEGIN_NODE then n ← name_len p 0 fuel; Some (TBegin p, align4 (p + (n + 1)))
  else if t =? FDT_END_NODE then Some (TEnd, p)
  else if t =? FDT_NOP then Some (TNop, p)
  else if t =? FDT_END then Some (TStop, p)
  else if t =? FDT_PROP then
    len ← be32 p; nameoff ← be32 (p + 4);
    let data := p + 8 in
    Some (TProp len nameoff data, align4 (data + len))
  else Some (TBad, p).

(** [for (;;) { read a token; ... }]: [inl] continues, [inr] leaves the loop. *)
Fixpoint walk {A R} (step : token → A → option (A + R)) (chars : nat) (p : Z) (a : A) (fuel : nat) : option R :=
  match fuel with
  | O => None
  | S n =>
    '(t, p) ← next_token p chars;
    r ← step t a;
    match r with
    | inl a => walk step chars p a n
    | inr r => Some r
    end
  end.
End reader.

(** ** Cell-encoded values *)

(** [node_ctx_t] *)
Record node_ctx := mkNodeCtx {
  parent_addr_cells : Z; parent_size_cells : Z;
  addr_cells : Z; size_cells : Z;
  is_memory : bool; is_uart_candidate : bool;
}.
Definition with_addr_cells (n : Z) (x : node_ctx) : node_ctx :=
  mkNodeCtx (parent_addr_cells x) (parent_size_cells x) n (size_cells x) (is_memory x) (is_uart_candidate x).
Definition with_size_cells (n : Z) (x : node_ctx) : node_ctx :=
  mkNodeCtx (parent_addr_cells x) (parent_size_cells x) (addr_cells x) n (is_memory x) (is_uart_candidate x).
Definition with_candidate (x : node_ctx) : node_ctx :=
  mkNodeCtx (parent_addr_cells x) (parent_size_cells x) (addr_cells x) (size_cells x) (is_memory x) true.

(** The entries of [node_ctx_t stack[cap]] that have been written. *)
Definition ctx_stack : Type := gmap Z node_ctx.
Definition set_ctx (cap d : Z) (x : node_ctx) (st : ctx_stack) : option ctx_stack :=
  if (0 <=? d) && (d <? cap) then Some (<[d := x]> st) else None.

(** The context of a node at depth [d]: cells are inherited, 2 and 2 at the root. *)
Definition new_ctx (d : Z) (st : ctx_stack) (mem : bool) : option node_ctx :=
  if d =? 0 then Some (mkNodeCtx 2 2 2 2 mem false)
  else x ← st !! (d - 1); Some (mkNodeCtx (addr_cells x) (size_cells x) (addr_cells x) (size_cells x) mem false).

Section cells.
Context (m : Z → option Z).

Fixpoint read_cells (p acc : Z) (n : nat) : option Z :=
  match n with
  | O => Some acc
  | S n => x ← be32 m p; read_cells (p + 4) (u64 (Z.lor (u64 (Z.shiftl acc 32)) x)) n
  end.

Definition parse_reg_first (data len addr_cells size_cells : Z) : option (option (Z * Z)) :=
  if len <? 8 then Some None
  else if (addr_cells =? 0) || (size_cells =? 0) then Some None
  else if (2 <? addr_cells) || (2 <? size_cells) then Some None
  else
    let need := u32 (4 * u32 (addr_cells + size_cells)) in
    if len <? need then Some None
    else
      addr ← read_cells data 0 (Z.to_nat addr_cells);
      size ← read_cells (data + 4 * addr_cells) 0 (Z.to_nat size_cells);
      Some (Some (addr, size)).

Definition append_range (arr : list dtb_range) (max : nat) (base size : Z) : list dtb_range :=
  if size =? 0 then arr
  else if decide (max ≤ length arr)%nat then arr
  else arr ++ [mkRange base size].

Fixpoint reg_loop (data len off tuple_bytes addr_cells size_cells : Z) (out : list dtb_range) (max fuel : nat) :
    option (list dtb_range) :=
  match fuel with
  | O => None
  | S fuel =>
    if u32 (off + tuple_bytes) <=? len then
      let p := data + off in
      addr ← read_cells p 0 (Z.to_nat addr_cells);
      size ← read_cells (p + 4 * addr_cells) 0 (Z.to_nat size_cells);
      reg_loop data len (u32 (off + tuple_bytes)) tuple_bytes addr_cells size_cells (append_range out max addr size) max fuel
    else Some out
  end.

Definition parse_reg_all (data len addr_cells size_cells : Z) (out : list dtb_range) (max fuel : nat) :
    option (list dtb_range) :=
  if len =? 0 then Some out
  else if (addr_cells =? 0) || (size_cells =? 0) then Some out
  else if (2 <? addr_cells) || (2 <? size_cells) then Some out
  else
    let tuple_bytes := u32 (4 * u32 (addr_cells + size_cells)) in
    if tuple_bytes =? 0 then Some out
    else reg_loop data len 0 tuple_bytes addr_cells size_cells out max fuel.
End cells.

(** ** Walks over the structure block *)

Section walks.
Context (m : Z → option Z) (g_struct g_strings : Z) (fuel : nat).

Definition str_at (off : Z) : Z := g_strings + off.

(** "#address-cells" and "#size-cells", recognized by two characters; [None] is
    any other property. [strict] asks for a length of exactly 4. *)
Definition cells_prop (strict : bool) (pname len data : Z) (x : node_ctx) : option (option node_ctx) :=
  let ok := if strict then len =? 4 else 4 <=? len in
  a ← starts m pname (chars "#a");
  if (a : bool) then (if ok then n ← be32 m data; Some (Some (with_addr_cells n x)) else Some (Some x))
  else
    s ← starts m pname (chars "#s");
    if (s : bool) then (if ok then n ← be32 m data; Some (Some (with_size_cells n x)) else Some (Some x))
    else Some None.

(** Node name "memory" or "memory@...". *)
Definition memory_name (name : Z) : option bool :=
  a ← starts m name (chars "memory");
  if (a : bool) then c ← m (name + 6); Some ((c =? 0) || (c =? AT_SIGN)) else Some false.

(** [collect_memory_ranges]: depth, stack and the ranges found so far. *)
Definition memory_step (t : token) (a : Z * ctx_stack * list dtb_range) :
    option (Z * ctx_stack * list dtb_range + list dtb_range) :=
  let '(depth, stack, out) := a in
  match t with
  | TStop | TBad => Some (inr out)
  | TBegin name =>
    let depth := depth + 1 in
    if 64 <=? depth then Some (inr out)
    else
      x ← new_ctx depth stack false;
      mem ← memory_name name;
      stack ← set_ctx 64 depth (mkNodeCtx (parent_addr_cells x) (parent_size_cells x) (addr_cells x) (size_cells x) mem false) stack;
      Some (inl (depth, stack, out))
  | TEnd => Some (inl (depth - 1, stack, out))
  | TNop => Some (inl a)
  | TProp len nameoff data =>
    if depth <? 0 then Some (inl a)
    else
      let pname := str_at nameoff in
      x ← stack !! depth;
      c ← cells_prop false pname len data x;
      match c with
      | Some x => stack ← set_ctx 64 depth x stack; Some (inl (depth, stack, out))
      | None =>
        r ← starts m pname (chars "reg");
        if (r : bool) && is_memory x then
          out ← parse_reg_all m data len (parent_addr_cells x) (parent_size_cells x) out DTB_MAX_MEMORY_RANGES fuel;
          Some (inl (depth, stack, out))
        else Some (inl a)
      end
  end.
Definition collect_memory_ranges (out : list dtb_range) : option (list dtb_range) :=
  walk m memory_step fuel g_struct (-1, ∅, out) fuel.

(** [collect_reserved_memory_ranges]: also the depth of the reserved-memory
    node the walk is in ([None]: [in_reserved] is false). *)
Definition reserved_step (t : token) (a : Z * ctx_stack * option Z * list dtb_range) :
    option (Z * ctx_stack * option Z * list dtb_range + list dtb_range) :=
  let '(depth, stack, inside, out) := a in
  match t with
  | TStop | TBad => Some (inr out)
  | TBegin name =>
    let depth := depth + 1 in
    if 64 <=? depth then Some (inr out)
    else
      x ← new_ctx depth stack false;
      stack ← set_ctx 64 depth x stack;
      match inside with
      | Some _ => Some (inl (depth, stack, inside, out))
      | None =>
        r ← starts m name (chars "reserved-memory" ++ [0]);
        Some (inl (depth, stack, if (r : bool) then Some depth else None, out))
      end
  | TEnd =>
    Some (inl (depth - 1, stack, (if decide (inside = Some depth) then None else inside), out))
  | TNop => Some (inl a)
  | TProp len nameoff data =>
    if depth <? 0 then Some (inl a)
    else
      let pname := str_at nameoff in
      x ← stack !! depth;
      c ← cells_prop false pname len data x;
      match c with
      | Some x => stack ← set_ctx 64 depth x stack; Some (inl (depth, stack, inside, out))
      | None =>
        r ← starts m pname (chars "reg");
        if (r : bool) && match inside with Some d => (0 <=? d) && (d <? depth) | None => false end then
          out ← parse_reg_all m data len (parent_addr_cells x) (parent_size_cells x) out DTB_MAX_RESERVED_RANGES fuel;
          Some (inl (depth, stack, inside, out))
        else Some (inl a)
      end
  end.
Definition collect_reserved_memory_ranges (out : list dtb_range) : option (list dtb_range) :=
  walk m reserved_step fuel g_struct (-1, ∅, None, out) fuel.

(** [collect_memreserve_ranges] *)
Fixpoint memreserve_loop (p : Z) (out : list dtb_range) (n : nat) : option (list dtb_range) :=
  match n with
  | O => Some out
  | S n =>
    addr ← be64 m p; size ← be64 m (p + 8);
    if (addr =? 0) && (size =? 0) then Some out
    else memreserve_loop (p + 16) (append_range out DTB_MAX_RESERVED_RANGES addr size) n
  end.
Definition collect_memreserve_ranges (g_rsvmap : Z) (out : list dtb_range) : option (list dtb_range) :=
  memreserve_loop g_rsvmap out 128.

(** [dtb_get_virtio_mmio_ranges] with a capacity of [cap] > 0: the ranges
    written; the C function returns whether there are any. *)
Definition virtio_step (cap : nat) (t : token) (a : Z * ctx_stack * list dtb_range) :
    option (Z * ctx_stack * list dtb_range + bool * list dtb_range) :=
  let '(depth, stack, out) := a in
  let found := negb (Nat.eqb (length out) 0) in
  match t with
  | TStop | TBad => Some (inr (found, out))
  | TBegin name =>
    let depth := depth + 1 in
    if 64 <=? depth then Some (inr (false, out))
    else
      x ← new_ctx depth stack false;
      stack ← set_ctx 64 depth x stack;
      Some (inl (depth, stack, out))
  | TEnd => Some (inl (depth - 1, stack, out))
  | TNop => Some (inl a)
  | TProp len nameoff data =>
    if depth <? 0 then Some (inl a)
    else
      let pname := str_at nameoff in
      x ← stack !! depth;
      c ← cells_prop false pname len data x;
      match c with
      | Some x => stack ← set_ctx 64 depth x stack; Some (inl (depth, stack, out))
      | None =>
        co ← starts m pname (chars "co");
        if (co : bool) then
          hit ← compat_scan m (chars "virtio,mmio") data (data + len) fuel;
          if (hit : bool) then stack ← set_ctx 64 depth (with_candidate x) stack; Some (inl (depth, stack, out))
          else Some (inl a)
        else
          r ← starts m pname (chars "reg");
          if (r : bool) && is_uart_candidate x then
            out ← parse_reg_all m data len (parent_addr_cells x) (parent_size_cells x) out cap fuel;
            if decide (cap ≤ length out)%nat then Some (inr (true, out)) else Some (inl (depth, stack, out))
          else Some (inl a)
      end
  end.
Definition dtb_get_virtio_mmio_ranges (cap : nat) : option (bool * list dtb_range) :=
  if (g_struct =? 0) || (g_strings =? 0) then Some (false, [])
  else if Nat.eqb cap 0 then Some (false, [])
  else walk m (virtio_step cap) fuel g_struct (-1, ∅, []) fuel.

(** [walk_struct_find]: the first memory range and the first PL011 found. *)
Record find_state := mkFind {
  fs_depth : Z; fs_stack : ctx_stack; found_mem : option (Z * Z); found_uart : option Z;
}.
Definition find_step (want_mem want_uart : bool) (t : token) (a : find_state) :
    option (find_state + bool * find_state) :=
  let depth := fs_depth a in
  let moved d st := mkFind d st (found_mem a) (found_uart a) in
  match t with
  | TStop =>
    let ok := (if want_mem then bool_decide (is_Some (found_mem a)) else true) &&
              (if want_uart then bool_decide (is_Some (found_uart a)) else true) in
    Some (inr (ok, a))
  | TBad => Some (inr (false, a))
  | TBegin name =>
    if MAX_DEPTH <=? depth + 1 then Some (inr (false, a))
    else
      let depth := depth + 1 in
      x ← new_ctx depth (fs_stack a) false;
      mem ← starts m name (chars "memory");
      stack ← set_ctx MAX_DEPTH depth
        (mkNodeCtx (parent_addr_cells x) (parent_size_cells x) (addr_cells x) (size_cells x) mem false) (fs_stack a);
      Some (inl (moved depth stack))
  | TEnd => if depth <? 0 then Some (inr (false, a)) else Some (inl (moved (depth - 1) (fs_stack a)))
  | TNop => Some (inl a)
  | TProp len nameoff data =>
    if depth <? 0 then Some (inl a)
    else
      let pname := str_at nameoff in
      x ← fs_stack a !! depth;
      c ← cells_prop true pname len data x;
      match c with
      | Some x => stack ← set_ctx MAX_DEPTH depth x (fs_stack a); Some (inl (moved depth stack))
      | None =>
        co ← (if want_uart then starts m pname (chars "co") else Some false);
        if (co : bool) then
          hit ← compat_scan m (chars "arm,pl011") data (data + len) fuel;
          if (hit : bool) then stack ← set_ctx MAX_DEPTH depth (with_candidate x) (fs_stack a); Some (inl (moved depth stack))
          else Some (inl a)
        else
          r ← (if want_mem || want_uart then starts m pname (chars "reg") else Some false);
          if (r : bool) then
            rg ← parse_reg_first m data len (parent_addr_cells x) (parent_size_cells x);
            match rg with
            | None => Some (inl a)
            | Some (addr, size) =>
              let fm := if want_mem && is_memory x && negb (bool_decide (is_Some (found_mem a)))
                        then Some (addr, size) else found_mem a in
              let fu := if want_uart && is_uart_candidate x && negb (bool_decide (is_Some (found_uart a)))
                        then Some addr else found_uart a in
              Some (inl (mkFind depth (fs_stack a) fm fu))
            end
          else Some (inl a)
      end
  end.
Definition walk_struct_find (want_mem want_uart : bool) : option (bool * option (Z * Z) * option Z) :=
  if (g_struct =? 0) || (g_strings =? 0) then Some (false, None, None)
  else
    '(ok, a) ← walk m (find_step want_mem want_uart) fuel g_struct (mkFind (-1) ∅ None None) fuel;
    Some (ok, found_mem a, found_uart a).
End walks.

(** ** The console: /chosen, /aliases and paths *)

(** Local character buffers are kept as the characters before the terminator. *)
Fixpoint strip_after_colon (s : list Z) : list Z :=
  match s with
  | [] => []
  | c :: s => if c =? COLON then [] else c :: strip_after_colon s
  end.

(** [strlcpy0] between local buffers. *)
Definition copy_buf (n : nat) (src : list Z) : list Z := take n src.

Fixpoint skip_slashes (p : list Z) : list Z :=
  match p with
  | [] => []
  | c :: p' => if c =? SLASH then skip_slashes p' else p
  end.
Fixpoint component (p : list Z) : list Z * list Z :=
  match p with
  | [] => ([], [])
  | c :: p' => if c =? SLASH then ([], p) else let '(a, r) := component p' in (c :: a, r)
  end.
(** [split_path]: at most [max_comps] components, each up to the next slash. *)
Fixpoint split_loop (p : list Z) (max_comps : nat) : list (list Z) :=
  match max_comps with
  | O => []
  | S n =>
    match p with
    | [] => []
    | _ => let '(a, r) := component p in a :: split_loop (skip_slashes r) n
    end
  end.
Definition split_path (path : list Z) (max_comps : nat) : list (list Z) := split_loop (skip_slashes path) max_comps.

Section console.
Context (m : Z → option Z) (g_struct g_strings : Z) (fuel : nat).

(** [dtb_read_chosen_stdout]: the path and the property it came from. *)
Definition chosen_step (cap key_cap : nat) (t : token) (a : Z * option Z) :
    option (Z * option Z + option (list Z * list Z)) :=
  let '(depth, inside) := a in
  match t with
  | TBegin name =>
    let depth := depth + 1 in
    match inside with
    | Some _ => Some (inl (depth, inside))
    | None => r ← starts m name (chars "chosen" ++ [0]); Some (inl (depth, if (r : bool) then Some depth else None))
    end
  | TEnd => Some (inl (depth - 1, (if decide (inside = Some depth) then None else inside)))
  | TNop => Some (inl a)
  | TStop | TBad => Some (inr None)
  | TProp len nameoff data =>
    if decide (inside = Some depth) then
      let pname := str_at g_strings nameoff in
      e ← streq m pname (chars "stdout-path");
      e ← (if (e : bool) then Some true else streq m pname (chars "linux,stdout-path"));
      if (e : bool) then
        if len =? 0 then Some (inl a)
        else
          out ← strlcpy0 m cap data;
          key ← strlcpy0 m key_cap pname;
          Some (inr (Some (strip_after_colon out, key)))
      else Some (inl a)
    else Some (inl a)
  end.
Definition dtb_read_chosen_stdout (cap key_cap : nat) : option (option (list Z * list Z)) :=
  if (g_struct =? 0) || (g_strings =? 0) then Some None
  else walk m (chosen_step cap key_cap) fuel g_struct (-1, None) fuel.

Definition alias_step (alias : list Z) (cap : nat) (t : token) (a : Z * option Z) :
    option (Z * option Z + option (list Z)) :=
  let '(depth, inside) := a in
  match t with
  | TBegin name =>
    let depth := depth + 1 in
    match inside with
    | Some _ => Some (inl (depth, inside))
    | None => r ← starts m name (chars "aliases" ++ [0]); Some (inl (depth, if (r : bool) then Some depth else None))
    end
  | TEnd => Some (inl (depth - 1, (if decide (inside = Some depth) then None else inside)))
  | TNop => Some (inl a)
  | TStop | TBad => Some (inr None)
  | TProp len nameoff data =>
    if decide (inside = Some depth) then
      e ← streq m (str_at g_strings nameoff) alias;
      if (e : bool) then
        out ← strlcpy0 m cap data;
        Some (inr (if bool_decide (head out = Some SLASH) then Some out else None))
      else Some (inl a)
    else Some (inl a)
  end.
Definition dtb_resolve_alias (alias : list Z) (cap : nat) : option (option (list Z)) :=
  if (g_struct =? 0) || (g_strings =? 0) then Some None
  else walk m (alias_step alias cap) fuel g_struct (-1, None) fuel.

(** The names of the open nodes against the components of the path. *)
Fixpoint path_matches (names : gmap Z Z) (i : Z) (comps : list (list Z)) : option bool :=
  match comps with
  | [] => Some true
  | c :: comps =>
    n ← names !! (i + 1);
    e ← comp_eq m n c;
    if (e : bool) then path_matches names (i + 1) comps else Some false
  end.

Record path_state := mkPath { ps_depth : Z; ps_stack : ctx_stack; ps_names : gmap Z Z; target_depth : Z }.
Definition path_step (comps : list (list Z)) (t : token) (a : path_state) : option (path_state + option Z) :=
  let depth := ps_depth a in
  match t with
  | TBegin name =>
    if MAX_DEPTH <=? depth + 1 then Some (inr None)
    else
      let depth := depth + 1 in
      x ← new_ctx depth (ps_stack a) false;
      stack ← set_ctx MAX_DEPTH depth x (ps_stack a);
      let names := <[depth := name]> (ps_names a) in
      if depth =? Z.of_nat (length comps) then
        hit ← path_matches names 0 comps;
        Some (inl (mkPath depth stack names (if (hit : bool) then depth else target_depth a)))
      else Some (inl (mkPath depth stack names (target_depth a)))
  | TEnd =>
    Some (inl (mkPath (depth - 1) (ps_stack a) (ps_names a) (if depth =? target_depth a then -1 else target_depth a)))
  | TNop => Some (inl a)
  | TStop | TBad => Some (inr None)
  | TProp len nameoff data =>
    if depth <? 0 then Some (inl a)
    else
      let pname := str_at g_strings nameoff in
      x ← ps_stack a !! depth;
      c ← cells_prop m true pname len data x;
      match c with
      | Some x =>
        stack ← set_ctx MAX_DEPTH depth x (ps_stack a);
        Some (inl (mkPath depth stack (ps_names a) (target_depth a)))
      | None =>
        r ← (if depth =? target_depth a then streq m pname (chars "reg") else Some false);
        if (r : bool) then
          let addr_cells := parent_addr_cells x in
          let size_cells := parent_size_cells x in
          if (addr_cells =? 0) || (2 <? addr_cells) then Some (inr None)
          else
            let tuple_bytes := u32 (4 * u32 (addr_cells + size_cells)) in
            if len <? tuple_bytes then Some (inr None)
            else
              addr ← (if addr_cells =? 1 then be32 m data else be64 m data);
              Some (inr (Some addr))
        else Some (inl a)
      end
  end.
Definition dtb_find_node_reg_addr_by_path (path : list Z) : option (option Z) :=
  if (g_struct =? 0) || (g_strings =? 0) then Some None
  else if negb (bool_decide (head path = Some SLASH)) then Some None
  else
    let comps := split_path path 32 in
    if Nat.eqb (length comps) 0 then Some None
    else walk m (path_step comps) fuel g_struct (mkPath (-1) ∅ ∅ (-1)) fuel.

(** [dtb_resolve_stdout_uart]: buffers of 128 and 32 bytes. *)
Definition dtb_resolve_stdout_uart : option (option Z) :=
  r ← dtb_read_chosen_stdout 127 31;
  match r with
  | None => Some None
  | Some (chosen, _) =>
    path ← (if bool_decide (head chosen = Some SLASH) then Some (Some (copy_buf 127 chosen))
            else dtb_resolve_alias chosen 127);
    match path with
    | None => Some None
    | Some path => dtb_find_node_reg_addr_by_path path
    end
  end.

Definition find_by_compatible : option (option Z) :=
  '(ok, _, uart) ← walk_struct_find m g_struct g_strings fuel false true;
  match uart with
  | Some u => Some (if ok && negb (u =? 0) then Some u else None)
  | None => Some None
  end.
Definition dtb_find_pl011_uart : option (option Z) :=
  r ← dtb_resolve_stdout_uart;
  match r with
  | Some u => if u =? 0 then find_by_compatible else Some (Some u)
  | None => find_by_compatible
  end.
End console.

(** ** State and initialization *)

(** The statics of dtb.c, and the bytes at [fdt_at] that the kernel may read. *)
Record dtb_state := mkDtbState {
  fdt_at : Z; fdt_bytes : list Z;
  g_fdt : Z; totalsize : Z; st_struct : Z; st_strings : Z; st_rsvmap : Z; g_struct_size : Z; g_strings_size : Z;
  mem_ranges : list dtb_range; rsv_ranges : list dtb_range; g_parsed : bool;
}.
Definition dtb_mem (s : dtb_state) (p : Z) : option Z :=
  if (fdt_at s <=? p) && (p <? fdt_at s + Z.of_nat (length (fdt_bytes s)))
  then fdt_bytes s !! Z.to_nat (p - fdt_at s) else None.
Definition dtb_fuel (s : dtb_state) : nat := S (length (fdt_bytes s)).
Definition results (s : dtb_state) : dtb_results := mkDtb (mem_ranges s) (rsv_ranges s) (totalsize s).

Definition set_ranges (mem rsv : list dtb_range) (parsed : bool) (s : dtb_state) : dtb_state :=
  mkDtbState (fdt_at s) (fdt_bytes s) (g_fdt s) (totalsize s) (st_struct s) (st_strings s) (st_rsvmap s)
    (g_struct_size s) (g_strings_size s) mem rsv parsed.
Definition set_fdt (fdt total : Z) (s : dtb_state) : dtb_state :=
  mkDtbState (fdt_at s) (fdt_bytes s) fdt total (st_struct s) (st_strings s) (st_rsvmap s)
    (g_struct_size s) (g_strings_size s) (mem_ranges s) (rsv_ranges s) (g_parsed s).
Definition set_blocks (st strs rsv sz_st sz_strs : Z) (s : dtb_state) : dtb_state :=
  mkDtbState (fdt_at s) (fdt_bytes s) (g_fdt s) (totalsize s) st strs rsv sz_st sz_strs
    (mem_ranges s) (rsv_ranges s) (g_parsed s).

Definition ensure_parsed : M dtb_state unit :=
  s <- get_st ;;
  if g_parsed s then ret tt
  else
    let m := dtb_mem s in
    let no_tree := (st_struct s =? 0) || (st_strings s =? 0) in
    rsv <- load (if st_rsvmap s =? 0 then Some [] else collect_memreserve_ranges m (st_rsvmap s) []) ;;
    rsv <- load (if no_tree then Some rsv
                 else collect_reserved_memory_ranges m (st_struct s) (st_strings s) (dtb_fuel s) rsv) ;;
    mem <- load (if no_tree then Some []
                 else collect_memory_ranges m (st_struct s) (st_strings s) (dtb_fuel s) []) ;;
    modify (set_ranges mem rsv true).

Definition dtb_init (fdt fdt_size : Z) : M dtb_state bool :=
  if fdt =? 0 then ret false
  else
    s <- get_st ;;
    let field off := load (be32 (dtb_mem s) (fdt + off)) in
    magic <- field 0 ;;
    if negb (magic =? FDT_MAGIC) then ret false
    else
      total <- field 4 ;;
      if total =? 0 then ret false
      else if negb (fdt_size =? 0) && (u32 fdt_size <? total) then ret false
      else
        modify (set_fdt fdt total) ;;;
        off_struct <- field 8 ;;
        off_strings <- field 12 ;;
        off_rsvmap <- field 16 ;;
        size_struct <- field 36 ;;
        size_strings <- field 32 ;;
        if (total <=? off_struct) || (total <=? off_strings) || (total <=? off_rsvmap) then ret false
        else if (size_struct =? 0) || (size_strings =? 0) then ret false
        else if total <? u32 (off_struct + size_struct) then ret false
        else if total <? u32 (off_strings + size_strings) then ret false
        else
          modify (set_blocks (fdt + off_struct) (fdt + off_strings) (fdt + off_rsvmap) size_struct size_strings) ;;;
          modify (set_ranges [] [] false) ;;;
          ensure_parsed ;;;
          ret true.

(** The getters, with the caller's capacity. *)
Definition get_memory_ranges (cap : nat) : M dtb_state (bool * list dtb_range) :=
  ensure_parsed ;;; gets (λ s, dtb_get_memory_ranges (results s) cap).
Definition get_reserved_ranges (cap : nat) : M dtb_state (bool * list dtb_range) :=
  ensure_parsed ;;; gets (λ s, dtb_get_reserved_ranges (results s) cap).
Definition get_totalsize : M dtb_state Z := ensure_parsed ;;; gets (λ s, dtb_get_totalsize (results s)).
Definition dtb_first_memory_range : M dtb_state (option (Z * Z)) :=
  r <- get_memory_ranges 1 ;;
  ret (match r with (true, x :: _) => Some (base x, size x) | _ => None end).
Definition get_virtio_mmio_ranges (cap : nat) : M dtb_state (bool * list dtb_range) :=
  s <- get_st ;;
  load (dtb_get_virtio_mmio_ranges (dtb_mem s) (st_struct s) (st_strings s) (dtb_fuel s) cap).
Definition find_pl011_uart : M dtb_state (option Z) :=
  s <- get_st ;;
  load (dtb_find_pl011_uart (dtb_mem s) (st_struct s) (st_strings s) (dtb_fuel s)).
