(* ===== verification/DtbFormat.v ===== *)
(** * The meaning of a device tree blob

    The flattened-tree format as a relation between bytes and a tree, what RAM
    and reservations a tree describes, and the theorem that the parser of Dtb.v
    finds exactly those in every blob of the format. *)

From S2P Require Import Prelude Irq Addr Platform Dtb.

#[local] Set Warnings "-register-all".

(** ** The format

    A tree of named nodes with properties; its flattening into tokens; and what
    it means for memory to hold a sequence of tokens. *)

Inductive fnode := FNode (fname : list Z) (fprops : list (list Z * list Z)) (fkids : list fnode).

Section fnode_ind.
Context (P : fnode → Prop) (HP : ∀ n ps ks, Forall P ks → P (FNode n ps ks)).
Fixpoint fnode_ind' (t : fnode) : P t :=
  match t with
  | FNode n ps ks => HP n ps ks ((fix go ks := match ks return Forall P ks with
      | [] => Forall_nil_2 _ | k :: ks => Forall_cons_2 _ _ _ (fnode_ind' k) (go ks) end) ks)
  end.
End fnode_ind.

Inductive event := EBegin (name : list Z) | EProp (name data : list Z) | EEnd.
Fixpoint flatten (t : fnode) : list event :=
  match t with
  | FNode n ps ks => EBegin n :: ((λ p, EProp p.1 p.2) <$> ps) ++ concat (flatten <$> ks) ++ [EEnd]
  end.

(** A token of the structure block: an event, where the name of a property is
    an offset into the strings block, or a filler. *)
Inductive rtok := RBegin (name : list Z) | RProp (off : Z) (name data : list Z) | REnd | RNop.
Definition plain (r : rtok) : option event :=
  match r with RBegin n => Some (EBegin n) | RProp _ n d => Some (EProp n d) | REnd => Some EEnd | RNop => None end.

(** A byte. *)
Definition byte_ok (b : Z) : Prop := 0 ≤ b < 2 ^ 8.

Section format.
Context (m : Z → option Z) (strs : Z).

Fixpoint bytes_at (p : Z) (l : list Z) : Prop :=
  match l with [] => True | x :: l => m p = Some x ∧ bytes_at (p + 1) l end.
Definition cstr_at (p : Z) (s : list Z) : Prop := Forall (λ c, c ≠ 0) s ∧ bytes_at p (s ++ [0]).
Definition pad4 (p : Z) : Z := 4 * ((p + 3) / 4).

(** The tokens from [p] on, up to the end token. *)
Fixpoint tokens_at (p : Z) (l : list rtok) : Prop :=
  match l with
  | [] => be32 m p = Some FDT_END
  | RBegin n :: l =>
    be32 m p = Some FDT_BEGIN_NODE ∧ cstr_at (p + 4) n ∧ tokens_at (pad4 (p + 4 + Z.of_nat (length n) + 1)) l
  | RProp off n d :: l =>
    be32 m p = Some FDT_PROP ∧ be32 m (p + 4) = Some (Z.of_nat (length d)) ∧ be32 m (p + 8) = Some off ∧
    cstr_at (strs + off) n ∧ bytes_at (p + 12) d ∧ Forall byte_ok d ∧
    tokens_at (pad4 (p + 12 + Z.of_nat (length d))) l
  | REnd :: l => be32 m p = Some FDT_END_NODE ∧ tokens_at (p + 4) l
  | RNop :: l => be32 m p = Some FDT_NOP ∧ tokens_at (p + 4) l
  end.
End format.

(** ** What a tree describes *)

(** Big-endian value of a string of bytes. *)
Definition be_val (l : list Z) : Z := foldl (λ a b, a * 2 ^ 8 + b) 0 l.

(** The (address, size) pairs of a "reg" value. *)
Fixpoint reg_tuples (a s : nat) (d : list Z) (n : nat) : list dtb_range :=
  match n with
  | O => []
  | S n => mkRange (be_val (take (4 * a) d)) (be_val (take (4 * s) (drop (4 * a) d))) ::
           reg_tuples a s (drop (4 * (a + s)) d) n
  end.
Definition cells_ok (a s : Z) : Prop := 1 ≤ a ≤ 2 ∧ 1 ≤ s ≤ 2.
#[global] Instance cells_ok_dec a s : Decision (cells_ok a s) := _.
Definition reg_ranges (a s : Z) (d : list Z) : list dtb_range :=
  if decide (cells_ok a s) then
    reg_tuples (Z.to_nat a) (Z.to_nat s) d (length d / (4 * (Z.to_nat a + Z.to_nat s)))
  else [].

(** The cells a node sets for its children. *)
Definition cell_step (c : Z * Z) (p : list Z * list Z) : Z * Z :=
  if decide (4 ≤ length p.2)%nat then
    if decide (p.1 = chars "#address-cells") then (be_val (take 4 p.2), c.2)
    else if decide (p.1 = chars "#size-cells") then (c.1, be_val (take 4 p.2))
    else c
  else c.
Definition cells (c : Z * Z) (ps : list (list Z * list Z)) : Z * Z := foldl cell_step c ps.
Definition regs (c : Z * Z) (ps : list (list Z * list Z)) : list dtb_range :=
  concat ((λ p, if decide (p.1 = chars "reg") then reg_ranges c.1 c.2 p.2 else []) <$> ps).

(** RAM: the "reg" of every node called memory or memory@address. *)
Definition is_memory_name (n : list Z) : Prop :=
  n = chars "memory" ∨ ∃ r, n = chars "memory" ++ AT_SIGN :: r.
#[global] Instance is_memory_name_dec n : Decision (is_memory_name n).
Proof.
  refine (cast_if (decide (n = chars "memory" ∨ take 7 n = chars "memory" ++ [AT_SIGN]))); unfold is_memory_name.
  - abstract (match goal with H : _ ∨ _ |- _ => destruct H as [?|E] end; [by left|right; exists (drop 7 n);
      rewrite <- (take_drop 7 n) at 1; by rewrite E]).
  - abstract (intros [?|[r ->]]; match goal with H : ¬ _ |- _ => apply H end; [by left|by right]).
Defined.
Fixpoint tree_memory (c : Z * Z) (t : fnode) : list dtb_range :=
  match t with
  | FNode n ps ks =>
    (if decide (is_memory_name n) then regs c ps else []) ++ concat (tree_memory (cells c ps) <$> ks)
  end.

(** Reservations: the "reg" of every node below a reserved-memory node. *)
Fixpoint tree_reserved (inside : bool) (c : Z * Z) (t : fnode) : list dtb_range :=
  match t with
  | FNode n ps ks =>
    (if inside then regs c ps else []) ++
    concat (tree_reserved (inside || bool_decide (n = chars "reserved-memory")) (cells c ps) <$> ks)
  end.

Fixpoint height (t : fnode) : Z :=
  match t with FNode _ _ ks => 1 + foldr Z.max 0 (height <$> ks) end.

(** The parser recognizes properties by their first characters; a tree is
    plain when that is enough to tell them apart. *)
Definition plain_name (n : list Z) : Prop :=
  (chars "#a" `prefix_of` n → n = chars "#address-cells") ∧
  (chars "#s" `prefix_of` n → n = chars "#size-cells") ∧
  (chars "reg" `prefix_of` n → n = chars "reg").
Fixpoint plain_tree (t : fnode) : Prop :=
  match t with
  | FNode _ ps ks => Forall (λ p, plain_name p.1) ps ∧ foldr and True (plain_tree <$> ks)
  end.

(** ** Reading bytes *)

Section read.
Context (m : Z → option Z).

Lemma bytes_at_app p l1 l2 : bytes_at m p (l1 ++ l2) ↔ bytes_at m p l1 ∧ bytes_at m (p + Z.of_nat (length l1)) l2.
Proof.
  revert p. induction l1 as [|x l1 IH]; intros p; cbn [app bytes_at length]; [rewrite Z.add_0_r; tauto|].
  rewrite IH, Nat2Z.inj_succ. replace (p + 1 + Z.of_nat (length l1)) with (p + Z.succ (Z.of_nat (length l1))) by lia. tauto.
Qed.

Lemma bytes_at_drop p l k : (k ≤ length l)%nat → bytes_at m p l → bytes_at m (p + Z.of_nat k) (drop k l).
Proof.
  intros Hk Hl. rewrite <- (take_drop k l) in Hl. apply bytes_at_app in Hl as [_ Hl].
  by rewrite length_take_le in Hl.
Qed.

Lemma be_val_app l b : be_val (l ++ [b]) = be_val l * 2 ^ 8 + b.
Proof. unfold be_val. by rewrite foldl_app. Qed.

Lemma be_val_bound l : Forall byte_ok l → 0 ≤ be_val l < 2 ^ (8 * Z.of_nat (length l)).
Proof.
  induction l as [|b l IH] using rev_ind; [done|]. rewrite Forall_app, Forall_singleton. intros [Hl Hb].
  specialize (IH Hl). unfold byte_ok in Hb. rewrite be_val_app, length_app. cbn [length]. rewrite Nat2Z.inj_add.
  replace (8 * (Z.of_nat (length l) + Z.of_nat 1)) with (8 * Z.of_nat (length l) + 8) by lia.
  rewrite Z.pow_add_r by lia. lia.
Qed.

Lemma be_val_concat l1 l2 : be_val (l1 ++ l2) = be_val l1 * 2 ^ (8 * Z.of_nat (length l2)) + be_val l2.
Proof.
  induction l2 as [|b l2 IH] using rev_ind; [rewrite app_nil_r; cbn; lia|].
  rewrite app_assoc, !be_val_app, IH, length_app. cbn [length]. rewrite Nat2Z.inj_add.
  replace (8 * (Z.of_nat (length l2) + Z.of_nat 1)) with (8 * Z.of_nat (length l2) + 8) by lia.
  rewrite Z.pow_add_r by lia. lia.
Qed.

Lemma be32_bytes p l : length l = 4%nat → Forall byte_ok l → bytes_at m p l → be32 m p = Some (be_val l).
Proof.
  intros Hl Hb Hat. destruct l as [|b0 [|b1 [|b2 [|b3 [|]]]]]; try done. cbn [bytes_at] in Hat.
  destruct Hat as (H0 & H1 & H2 & H3 & _). rewrite !Forall_cons in Hb. destruct Hb as (B0 & B1 & B2 & B3 & _). unfold byte_ok in *.
  unfold be32. rewrite H0. cbn. rewrite H1. cbn. replace (p + 2) with (p + 1 + 1) by lia. rewrite H2. cbn.
  replace (p + 3) with (p + 1 + 1 + 1) by lia. rewrite H3. cbn. f_equal. unfold be_val; cbn [foldl].
  replace (Z.shiftl b0 24) with (Z.shiftl (Z.shiftl b0 8) 16) by (by rewrite Z.shiftl_shiftl).
  replace (Z.shiftl b1 16) with (Z.shiftl b1 16) by done. rewrite <- Z.shiftl_lor, (lor_shiftl_low b0 b1 8) by lia.
  replace (Z.shiftl (b0 * 2 ^ 8 + b1) 16) with (Z.shiftl (Z.shiftl (b0 * 2 ^ 8 + b1) 8) 8) by (by rewrite Z.shiftl_shiftl).
  rewrite <- Z.shiftl_lor, (lor_shiftl_low (b0 * 2 ^ 8 + b1) b2 8) by lia. rewrite lor_shiftl_low by lia. lia.
Qed.

Lemma take_bytes k l p : bytes_at m p l → bytes_at m p (take k l).
Proof. intros Hl. rewrite <- (take_drop k l) in Hl. by apply bytes_at_app in Hl as [? _]. Qed.

(** One or two cells. *)
Lemma read_cells_bytes p l n : (1 ≤ n ≤ 2)%nat → length l = (4 * n)%nat → Forall byte_ok l → bytes_at m p l →
  read_cells m p 0 n = Some (be_val l).
Proof.
  intros Hn Hl Hb Hat.
  assert (∀ q l', length l' = 4%nat → Forall byte_ok l' → bytes_at m q l' → be32 m q = Some (be_val l') ∧ 0 ≤ be_val l' < 2 ^ 32) as H4.
  { intros q l' Hl' Hb' Hq. split; [by apply be32_bytes|]. pose proof (be_val_bound l' Hb') as H. rewrite Hl' in H. exact H. }
  destruct n as [|[|[|]]]; try lia; cbn [read_cells].
  - destruct (H4 p l) as [-> Hv]; [done..|]. cbn. f_equal. change (u64 (Z.shiftl 0 32)) with 0. rewrite Z.lor_0_l. apply u64_small. lia.
  - pose proof (take_drop 4 l) as E. rewrite <- E in Hat, Hb. apply bytes_at_app in Hat as [Ha1 Ha2]. apply Forall_app in Hb as [Hb1 Hb2].
    rewrite length_take_le in Ha2 by lia. destruct (H4 p (take 4 l)) as [-> Hv1]; [rewrite length_take_le; lia|done|done|]. cbn.
    destruct (H4 (p + 4) (drop 4 l)) as [-> Hv2]; [rewrite length_drop; lia|done|done|]. cbn. f_equal.
    change (u64 (Z.shiftl 0 32)) with 0. rewrite Z.lor_0_l. rewrite (u64_small (be_val (take 4 l))) by lia.
    rewrite <- E at 3. rewrite be_val_concat, length_drop, Hl. change (8 * Z.of_nat (4 * 2 - 4)) with 32.
    rewrite (u64_small (Z.shiftl _ _)) by (rewrite Z.shiftl_mul_pow2 by lia; lia).
    rewrite lor_shiftl_low by lia. apply u64_small. lia.
Qed.

(** *** Strings *)

Lemma starts_cstr p n s : cstr_at m p n → Forall (λ c, c ≠ 0) s → starts m p s = Some (bool_decide (s `prefix_of` n)).
Proof.
  intros [Hz Hat] Hs. revert p n Hz Hat. induction Hs as [|x s Hx Hs IH]; intros p n Hz Hat; cbn [starts].
  { rewrite bool_decide_eq_true_2; [done|]. apply prefix_nil. }
  destruct n as [|c n]; cbn [app bytes_at] in Hat.
  - destruct Hat as [-> _]. cbn [mbind option_bind]. destruct (Z.eqb_spec 0 x); [by subst|]. rewrite bool_decide_eq_false_2; [done|]. by intros ?%prefix_nil_not.
  - destruct Hat as [-> Hat]. cbn [mbind option_bind]. apply Forall_cons in Hz as [Hc Hz]. destruct (Z.eqb_spec c x) as [->|Hne].
    + rewrite (IH (p + 1) n Hz Hat). f_equal. apply bool_decide_ext. split; [apply prefix_cons|apply prefix_cons_inv_2].
    + rewrite bool_decide_eq_false_2; [done|]. intros ?%prefix_cons_inv_1. congruence.
Qed.

Lemma starts_cstr_end p n s : cstr_at m p n → Forall (λ c, c ≠ 0) s → starts m p (s ++ [0]) = Some (bool_decide (n = s)).
Proof.
  intros [Hz Hat] Hs. revert p n Hz Hat. induction Hs as [|x s Hx Hs IH]; intros p n Hz Hat; cbn [starts app].
  - destruct n as [|c n]; cbn [app bytes_at] in Hat; destruct Hat as [-> Hat]; cbn [mbind option_bind]; [done|].
    apply Forall_cons in Hz as [Hc Hz]. destruct (Z.eqb_spec c 0); [done|]. by rewrite bool_decide_eq_false_2.
  - destruct n as [|c n]; cbn [app bytes_at] in Hat.
    + destruct Hat as [-> _]. cbn [mbind option_bind]. destruct (Z.eqb_spec 0 x); [by subst|]. by rewrite bool_decide_eq_false_2.
    + destruct Hat as [-> Hat]. cbn [mbind option_bind]. apply Forall_cons in Hz as [Hc Hz]. destruct (Z.eqb_spec c x) as [->|Hne].
      * rewrite (IH (p + 1) n Hz Hat). f_equal. apply bool_decide_ext. split; [by intros ->|by intros [= ->]].
      * rewrite bool_decide_eq_false_2; [done|congruence].
Qed.

Lemma cstr_char p n k : cstr_at m p n → (k ≤ length n)%nat → m (p + Z.of_nat k) = Some (default 0 (n !! k)).
Proof.
  intros [_ Hat]. revert p n Hat. induction k as [|k IH]; intros p n Hat Hk.
  - rewrite Z.add_0_r. destruct n; by destruct Hat as [? _].
  - destruct n as [|c n]; [cbn in Hk; lia|]. cbn [app bytes_at length] in Hat, Hk. change ((c :: n) !! S k) with (n !! k). destruct Hat as [_ Hat].
    rewrite <- (IH (p + 1) n Hat) by lia. f_equal. lia.
Qed.

Lemma name_len_cstr p n fuel : cstr_at m p n → (length n < fuel)%nat → name_len m p 0 fuel = Some (Z.of_nat (length n)).
Proof.
  intros Hc Hf.
  enough (∀ k, (k ≤ length n)%nat → (length n - k < fuel)%nat → name_len m p (Z.of_nat k) fuel = Some (Z.of_nat (length n))) as H
    by (apply (H 0%nat); lia).
  clear Hf. induction fuel as [|fuel IH]; intros k Hk Hf; [lia|]. cbn [name_len]. rewrite (cstr_char p n k Hc Hk). cbn.
  destruct (decide (k = length n)) as [->|Hne].
  - by rewrite lookup_ge_None_2 by lia.
  - destruct (lookup_lt_is_Some_2 n k ltac:(lia)) as [c E]. rewrite E. cbn.
    destruct Hc as [Hz _]. pose proof (Forall_lookup_1 _ _ _ _ Hz E) as Hc0. cbn in Hc0. destruct (Z.eqb_spec c 0); [done|].
    replace (Z.of_nat k + 1) with (Z.of_nat (S k)) by lia. apply IH; lia.
Qed.

Lemma memory_name_cstr p n : cstr_at m p n → memory_name m p = Some (bool_decide (is_memory_name n)).
Proof.
  intros Hc. unfold memory_name. rewrite (starts_cstr p n _ Hc) by (repeat constructor; done). cbn.
  case_bool_decide as Hp.
  - destruct Hp as [r ->]. change (p + 6) with (p + Z.of_nat 6). rewrite (cstr_char p (chars "memory" ++ r) 6 Hc) by (rewrite length_app; cbn; lia).
    rewrite lookup_app_r by (cbn; lia). cbn. f_equal. symmetry. destruct r as [|c r]; [done|]. cbn.
    destruct Hc as [Hz _]. apply Forall_app in Hz as [_ Hz]. apply Forall_cons in Hz as [Hc Hz]. destruct (Z.eqb_spec c 0); [done|].
    destruct (Z.eqb_spec c AT_SIGN) as [->|Hne].
    + apply bool_decide_eq_true_2. right. by exists r.
    + apply bool_decide_eq_false_2. intros [E|[r' E]]; [by apply (f_equal length) in E|]. by injection E.
  - f_equal. symmetry. apply bool_decide_eq_false_2. intros [->|[r ->]]; [by apply Hp|]. apply Hp. by exists (AT_SIGN :: r).
Qed.
End read.

(** *** "reg" values *)

Definition add_ranges (max : nat) (out l : list dtb_range) : list dtb_range :=
  foldl (λ o r, append_range o max (base r) (size r)) out l.

Section regs.
Context (m : Z → option Z).

Lemma reg_loop_bytes a s data d n max : (1 ≤ a ≤ 2)%nat → (1 ≤ s ≤ 2)%nat → Forall byte_ok d → bytes_at m data d →
  Z.of_nat (length d) < 2 ^ 31 → ∀ k out fuel, let tb := (4 * (a + s))%nat in
  (tb * (k + n) ≤ length d < tb * (k + n) + tb)%nat → (n < fuel)%nat →
  reg_loop m data (Z.of_nat (length d)) (Z.of_nat (tb * k)) (Z.of_nat tb) (Z.of_nat a) (Z.of_nat s) out max fuel =
    Some (add_ranges max out (reg_tuples a s (drop (tb * k) d) n)).
Proof.
  intros Ha Hs Hb Hat Hlen. induction n as [|n IH]; intros k out fuel tb Hd Hf; (destruct fuel as [|fuel]; [lia|]); cbn [reg_loop reg_tuples].
  - rewrite u32_small by lia. destruct (Z.leb_spec (Z.of_nat (tb * k) + Z.of_nat tb) (Z.of_nat (length d))); [lia|done].
  - rewrite u32_small by lia. destruct (Z.leb_spec (Z.of_nat (tb * k) + Z.of_nat tb) (Z.of_nat (length d))); [|lia].
    pose proof (bytes_at_drop m data d (tb * k) ltac:(lia) Hat) as Hd1. set (d1 := drop (tb * k) d) in *.
    assert (length d1 = length d - tb * k)%nat as Hl1 by (unfold d1; apply length_drop).
    assert (Forall byte_ok d1) as Hb1 by (by apply Forall_drop). rewrite !Nat2Z.id.
    rewrite (read_cells_bytes m _ (take (4 * a) d1) a); [|done|rewrite length_take_le; lia|by apply Forall_take|by apply take_bytes].
    cbn [mbind option_bind].
    replace (data + Z.of_nat (tb * k) + 4 * Z.of_nat a) with (data + Z.of_nat (tb * k) + Z.of_nat (4 * a)) by lia.
    rewrite (read_cells_bytes m _ (take (4 * s) (drop (4 * a) d1)) s); [|done|rewrite length_take_le; [done|rewrite length_drop; unfold tb in *; nia]|
      by apply Forall_take, Forall_drop|apply take_bytes, bytes_at_drop; [lia|done]].
    cbn [mbind option_bind].
    replace (Z.of_nat (tb * k) + Z.of_nat tb) with (Z.of_nat (tb * S k)) by lia.
    rewrite (IH (S k)) by lia. unfold add_ranges. cbn [foldl]. do 2 f_equal. unfold d1. rewrite drop_drop. do 2 f_equal. lia.
Qed.

Lemma parse_reg_bytes a s data d out max fuel : 0 ≤ a < 2 ^ 32 → 0 ≤ s < 2 ^ 32 → Forall byte_ok d → bytes_at m data d →
  Z.of_nat (length d) < 2 ^ 31 → (length d < fuel)%nat →
  parse_reg_all m data (Z.of_nat (length d)) a s out max fuel = Some (add_ranges max out (reg_ranges a s d)).
Proof.
  intros Ha Hs Hb Hat Hlen Hf. unfold parse_reg_all, reg_ranges.
  assert (¬ cells_ok a s → Some out = Some (add_ranges max out (if decide (cells_ok a s) then
    reg_tuples (Z.to_nat a) (Z.to_nat s) d (length d / (4 * (Z.to_nat a + Z.to_nat s))) else []))) as Hbad.
  { intros Hn. by rewrite decide_False. }
  destruct (Z.eqb_spec (Z.of_nat (length d)) 0) as [E|Hne].
  { destruct d; [|done]. cbn [length]. rewrite Nat.Div0.div_0_l. cbn [reg_tuples]. by case_decide. }
  destruct ((a =? 0) || (s =? 0)) eqn:E1; [apply Hbad; unfold cells_ok; bool_simpl; destruct E1; bool_simpl; lia|].
  destruct ((2 <? a) || (2 <? s)) eqn:E2; [apply Hbad; unfold cells_ok; bool_simpl; destruct E2; bool_simpl; lia|]. bool_simpl.
  rewrite decide_True by (unfold cells_ok; lia). rewrite (u32_small (a + s)) by lia. rewrite u32_small by lia.
  destruct (Z.eqb_spec (4 * (a + s)) 0); [lia|].
  pose proof (reg_loop_bytes (Z.to_nat a) (Z.to_nat s) data d (length d / (4 * (Z.to_nat a + Z.to_nat s))) max
    ltac:(lia) ltac:(lia) Hb Hat Hlen 0 out fuel) as Hloop. cbv zeta in Hloop.
  rewrite Nat.mul_0_r, drop_0 in Hloop. rewrite !Z2Nat.id in Hloop by lia.
  replace (Z.of_nat (4 * (Z.to_nat a + Z.to_nat s))) with (4 * (a + s)) in Hloop by lia. apply Hloop.
  - pose proof (Nat.div_mod (length d) (4 * (Z.to_nat a + Z.to_nat s)) ltac:(lia)).
    pose proof (Nat.mod_upper_bound (length d) (4 * (Z.to_nat a + Z.to_nat s)) ltac:(lia)). lia.
  - enough (length d / (4 * (Z.to_nat a + Z.to_nat s)) ≤ length d)%nat by lia. apply Nat.Div0.div_le_upper_bound. nia.
Qed.
End regs.

(** *** The bounded result array *)

Lemma append_range_spec out max b s : (length out ≤ max)%nat →
  append_range out max b s = take max (out ++ (if decide (s = 0) then [] else [mkRange b s])).
Proof.
  intros Hl. unfold append_range. destruct (Z.eqb_spec s 0) as [->|Hs];
    [rewrite (decide_True (P := 0 = 0)) by done|rewrite (decide_False (P := s = 0)) by done].
  - by rewrite app_nil_r, take_ge.
  - case_decide; [rewrite take_app_le, take_ge by lia; done|]. rewrite take_ge; [done|]. rewrite length_app; cbn; lia.
Qed.

Lemma add_ranges_spec max out l : (length out ≤ max)%nat →
  add_ranges max out l = take max (out ++ filter (λ r, size r ≠ 0) l).
Proof.
  revert out. induction l as [|r l IH]; intros out Hl; cbn [add_ranges foldl].
  - by rewrite filter_nil, app_nil_r, take_ge.
  - change (add_ranges max (append_range out max (base r) (size r)) l =
      take max (out ++ filter (λ r, size r ≠ 0) (r :: l))).
    rewrite append_range_spec by done. rewrite IH by (rewrite length_take; lia). destruct r as [b s]. cbn [base size].
    destruct (decide (s = 0)) as [->|Hs].
    + rewrite filter_cons_False by (intros H; by apply H). by rewrite app_nil_r, (take_ge out).
    + rewrite filter_cons_True by done. destruct (Nat.le_gt_cases max (length out)) as [Hg|Hg].
      * rewrite !take_app_le by (rewrite ?length_take, ?length_app; cbn; lia). by rewrite !(take_ge out) by lia.
      * rewrite (take_ge (out ++ [_])) by (rewrite length_app; cbn; lia). by rewrite <- app_assoc.
Qed.

Lemma add_ranges_app max out l1 l2 : add_ranges max (add_ranges max out l1) l2 = add_ranges max out (l1 ++ l2).
Proof. unfold add_ranges. by rewrite foldl_app. Qed.

(** ** Walks as folds over events *)

Fixpoint efold {A R} (step : event → A → option (A + R)) (l : list event) (a : A) : option (A + R) :=
  match l with
  | [] => Some (inl a)
  | e :: l => r ← step e a; match r with inl a => efold step l a | inr r => Some (inr r) end
  end.

Lemma efold_app {A R} (step : event → A → option (A + R)) l1 l2 a a' :
  efold step l1 a = Some (inl a') → efold step (l1 ++ l2) a = efold step l2 a'.
Proof.
  revert a. induction l1 as [|e l1 IH]; intros a; cbn [efold app]; [by intros [= ->]|].
  destruct (step e a) as [[a1|r]|]; cbn [mbind option_bind]; [apply IH|done|done].
Qed.

Section walks.
Context (m : Z → option Z) (strs : Z) (F : nat).

Definition tok_rep (t : token) (e : event) : Prop :=
  match t, e with
  | TBegin p, EBegin n => cstr_at m p n
  | TEnd, EEnd => True
  | TProp len off data, EProp n d =>
    len = Z.of_nat (length d) ∧ cstr_at m (strs + off) n ∧ bytes_at m data d ∧ Forall byte_ok d ∧ (length d < F)%nat
  | _, _ => False
  end.

(** Names and values are shorter than the fuel of the character loops. *)
Definition short (r : rtok) : Prop :=
  match r with RBegin n => (length n < F)%nat | RProp _ _ d => (length d < F)%nat | _ => True end.

Hypothesis readable : ∀ q c, m q = Some c → 0 ≤ q < 2 ^ 64 - 16.

Lemma be32_readable q x : be32 m q = Some x → 0 ≤ q < 2 ^ 64 - 16.
Proof. unfold be32. destruct (m q) eqn:E; [by eauto|done]. Qed.

Lemma align4_pad q : 0 ≤ q < 2 ^ 64 - 3 → align4 q = pad4 q.
Proof.
  intros Hq. unfold align4, pad4. rewrite u64_small by lia. change 3 with (2 ^ 2 - 1) at 2. rewrite u64_land_not by lia.
  change (2 ^ 2) with 4. Z.div_mod_to_equations. lia.
Qed.

Lemma bytes_last p l : bytes_at m p l → 0 ≤ p → p + Z.of_nat (length l) ≤ Z.max p (2 ^ 64 - 16).
Proof.
  destruct l as [|x l _] using rev_ind; [cbn; lia|]. intros [_ Hx]%bytes_at_app Hp. cbn in Hx. destruct Hx as [Hx _].
  apply readable in Hx. rewrite length_app. cbn. lia.
Qed.

Lemma walk_tokens {A R} (step : token → A → option (A + R)) (estep : event → A → option (A + R)) (Inv : A → Prop) :
  (∀ t e a, tok_rep t e → Inv a → step t a = estep e a) → (∀ a, step TNop a = Some (inl a)) →
  (∀ e a a', Inv a → Forall byte_ok (match e with EProp _ d => d | _ => [] end) → estep e a = Some (inl a') → Inv a') →
  ∀ raws p a a' fuel r, tokens_at m strs p raws → Forall short raws → Inv a →
  efold estep (omap plain raws) a = Some (inl a') → step TStop a' = Some (inr r) → (length raws < fuel)%nat →
  walk m step F p a fuel = Some r.
Proof.
  intros Hsim Hnop Hinv. induction raws as [|w raws IH]; intros p a a' fuel r Hp Hsh HI Hef Hstop Hf; (destruct fuel as [|fuel]; [lia|]);
    cbn [length] in Hf; cbn [walk].
  { unfold next_token. cbn in Hp, Hef. rewrite Hp. injection Hef as <-. cbn. by rewrite Hstop. }
  apply Forall_cons in Hsh as [Hw Hsh]. unfold next_token. destruct w as [n|off n d| |]; cbn [tokens_at] in Hp.
  - destruct Hp as (Hb & Hc & Hp). rewrite Hb. cbn [mbind option_bind]. change (FDT_BEGIN_NODE =? FDT_BEGIN_NODE) with true. cbv iota zeta.
    rewrite (name_len_cstr m (p + 4) n F Hc Hw). cbn [mbind option_bind]. cbn in Hef.
    rewrite (Hsim (TBegin (p + 4)) (EBegin n) a Hc HI). destruct (estep (EBegin n) a) as [[a1|]|] eqn:E; cbn [mbind option_bind] in Hef |- *; [|done..].
    assert (m (p + 4 + Z.of_nat (length n)) = Some 0) as H0.
    { destruct Hc as [_ Hc]. apply bytes_at_app in Hc as [_ Hc]. cbn in Hc. apply Hc. }
    apply readable in H0. pose proof (be32_readable _ _ Hb). rewrite align4_pad by lia.
    replace (p + 4 + (Z.of_nat (length n) + 1)) with (p + 4 + Z.of_nat (length n) + 1) by lia.
    eapply IH; [done|done| |done|done|lia]. eapply (Hinv (EBegin n)); [done|constructor|done].
  - destruct Hp as (Hb & Hl & Ho & Hc & Hd & Hby & Hp). rewrite Hb. cbn [mbind option_bind].
    change (FDT_PROP =? FDT_BEGIN_NODE) with false. change (FDT_PROP =? FDT_END_NODE) with false. change (FDT_PROP =? FDT_NOP) with false.
    change (FDT_PROP =? FDT_END) with false. change (FDT_PROP =? FDT_PROP) with true. cbv iota zeta.
    rewrite Hl. cbn [mbind option_bind]. replace (p + 4 + 4) with (p + 8) by lia. rewrite Ho. cbn [mbind option_bind].
    replace (p + 4 + 8) with (p + 12) by lia. cbn in Hef.
    rewrite (Hsim (TProp _ off (p + 12)) (EProp n d) a); [|done|done].
    destruct (estep (EProp n d) a) as [[a1|]|] eqn:E; cbn [mbind option_bind] in Hef |- *; [|done..].
    pose proof (be32_readable _ _ Ho). pose proof (bytes_last _ _ Hd ltac:(lia)). rewrite align4_pad by lia.
    eapply IH; [done|done| |done|done|lia]. eapply (Hinv (EProp n d)); [done|done|done].
  - destruct Hp as (Hb & Hp). rewrite Hb. cbn [mbind option_bind]. change (FDT_END_NODE =? FDT_BEGIN_NODE) with false.
    change (FDT_END_NODE =? FDT_END_NODE) with true. cbv iota zeta. cbn [mbind option_bind]. cbn in Hef.
    rewrite (Hsim TEnd EEnd a) by done. destruct (estep EEnd a) as [[a1|]|] eqn:E; cbn [mbind option_bind] in Hef |- *; [|done..].
    eapply IH; [done|done| |done|done|lia]. eapply (Hinv EEnd); [done|constructor|done].
  - destruct Hp as (Hb & Hp). rewrite Hb. cbn [mbind option_bind]. change (FDT_NOP =? FDT_BEGIN_NODE) with false.
    change (FDT_NOP =? FDT_END_NODE) with false. change (FDT_NOP =? FDT_NOP) with true. cbv iota zeta. cbn [mbind option_bind].
    rewrite Hnop. cbn [mbind option_bind]. eapply IH; [done|done|done|exact Hef|done|lia].
Qed.
End walks.

(** *** Cells, at the level of events *)

Definition ecells (n d : list Z) (x : node_ctx) : option node_ctx :=
  if decide (chars "#a" `prefix_of` n) then
    Some (if decide (4 ≤ length d)%nat then with_addr_cells (be_val (take 4 d)) x else x)
  else if decide (chars "#s" `prefix_of` n) then
    Some (if decide (4 ≤ length d)%nat then with_size_cells (be_val (take 4 d)) x else x)
  else None.

Definition ctx_ok (x : node_ctx) : Prop :=
  0 ≤ parent_addr_cells x < 2 ^ 32 ∧ 0 ≤ parent_size_cells x < 2 ^ 32 ∧ 0 ≤ addr_cells x < 2 ^ 32 ∧ 0 ≤ size_cells x < 2 ^ 32.
Definition stack_ok (st : ctx_stack) : Prop := map_Forall (λ _, ctx_ok) st.

Lemma cells_prop_sim m pname n data d x : cstr_at m pname n → bytes_at m data d → Forall byte_ok d →
  cells_prop m false pname (Z.of_nat (length d)) data x = Some (ecells n d x).
Proof.
  intros Hn Hd Hb. unfold cells_prop, ecells. rewrite !(starts_cstr m pname n _ Hn) by (repeat constructor; done). cbn [mbind option_bind].
  assert ((4 ≤ length d)%nat → be32 m data = Some (be_val (take 4 d))) as H4.
  { intros Hl. apply be32_bytes; [by rewrite length_take_le|by apply Forall_take|by apply take_bytes]. }
  assert (∀ f, (if 4 <=? Z.of_nat (length d) then k ← be32 m data; Some (Some (f k)) else Some (Some x)) =
    Some (Some (if decide (4 ≤ length d)%nat then f (be_val (take 4 d)) else x))) as Hv.
  { intros f. destruct (Z.leb_spec 4 (Z.of_nat (length d))); [rewrite H4 by lia; by rewrite decide_True by lia|by rewrite decide_False by lia]. }
  rewrite (Hv (λ k, with_addr_cells k x)), (Hv (λ k, with_size_cells k x)).
  unfold bool_decide. by repeat case_decide.
Qed.

Lemma ecells_ok n d x x' : Forall byte_ok d → ctx_ok x → ecells n d x = Some x' → ctx_ok x'.
Proof.
  intros Hb Hx. unfold ecells.
  assert ((4 ≤ length d)%nat → 0 ≤ be_val (take 4 d) < 2 ^ 32) as Hv.
  { intros Hl. pose proof (be_val_bound (take 4 d) (Forall_take _ _ _ Hb)) as H. rewrite length_take_le in H by lia. exact H. }
  destruct Hx as (? & ? & ? & ?). repeat case_decide; intros [= <-]; unfold ctx_ok; cbn; auto.
Qed.

Lemma ecells_plain n d x : plain_name n →
  match ecells n d x with
  | Some x' => n ≠ chars "reg" ∧ x' = mkNodeCtx (parent_addr_cells x) (parent_size_cells x)
      (cell_step (addr_cells x, size_cells x) (n, d)).1 (cell_step (addr_cells x, size_cells x) (n, d)).2 (is_memory x) (is_uart_candidate x)
  | None => cell_step (addr_cells x, size_cells x) (n, d) = (addr_cells x, size_cells x)
  end.
Proof.
  intros (Ha & Hs & _). unfold ecells, cell_step. cbn [fst snd].
  destruct x as [pa ps ac sc im iu]; cbn [parent_addr_cells parent_size_cells addr_cells size_cells is_memory is_uart_candidate].
  destruct (decide (chars "#a" `prefix_of` n)) as [Hp|Hp].
  { rewrite (Ha Hp). split; [done|]. by case_decide. }
  destruct (decide (chars "#s" `prefix_of` n)) as [Hp'|Hp'].
  { rewrite (Hs Hp'). split; [done|]. by case_decide. }
  assert (n ≠ chars "#address-cells") by (intros ->; apply Hp; eexists; reflexivity).
  assert (n ≠ chars "#size-cells") by (intros ->; apply Hp'; eexists; reflexivity).
  repeat case_decide; done.
Qed.

Lemma new_ctx_mem d st b : new_ctx d st b = x ← new_ctx d st false;
  Some (mkNodeCtx (parent_addr_cells x) (parent_size_cells x) (addr_cells x) (size_cells x) b false).
Proof. unfold new_ctx. case_match; [done|]. by destruct (st !! (d - 1)). Qed.

Lemma new_ctx_ok d st b x : stack_ok st → new_ctx d st b = Some x → ctx_ok x.
Proof.
  intros Hst. unfold new_ctx. destruct (d =? 0); [intros [= <-]; unfold ctx_ok; cbn; lia|].
  destruct (st !! (d - 1)) as [y|] eqn:E; [|done]. cbn [mbind option_bind]. intros [= <-].
  specialize (Hst _ _ E) as (? & ? & ? & ?). unfold ctx_ok; cbn; auto.
Qed.
Lemma set_ctx_ok cap d x st st' : stack_ok st → ctx_ok x → set_ctx cap d x st = Some st' → stack_ok st'.
Proof. intros Hst Hx. unfold set_ctx. case_match; [|done]. intros [= <-]. by apply map_Forall_insert_2. Qed.

(** The cells a child of the node at depth [d] starts with. *)
Definition inherits (d : Z) (st : ctx_stack) (c : Z * Z) : Prop :=
  new_ctx (d + 1) st false = Some (mkNodeCtx c.1 c.2 c.1 c.2 false false).

Lemma inherits_node d st x : 0 ≤ d → st !! d = Some x → inherits d st (addr_cells x, size_cells x).
Proof.
  intros Hd Hx. unfold inherits, new_ctx. destruct (Z.eqb_spec (d + 1) 0); [lia|]. replace (d + 1 - 1) with d by lia. by rewrite Hx.
Qed.
Lemma inherits_agree d st st' c : inherits d st c → (∀ k, k ≤ d → st' !! k = st !! k) → inherits d st' c.
Proof.
  unfold inherits, new_ctx. intros H Hk. case_match; [done|]. replace (d + 1 - 1) with d in * by lia. by rewrite Hk.
Qed.

(** *** RAM *)

Definition mem_estep (e : event) (a : Z * ctx_stack * list dtb_range) : option (Z * ctx_stack * list dtb_range + list dtb_range) :=
  let '(depth, stack, out) := a in
  match e with
  | EBegin n =>
    if 64 <=? depth + 1 then Some (inr out)
    else
      x ← new_ctx (depth + 1) stack (bool_decide (is_memory_name n));
      stack ← set_ctx 64 (depth + 1) x stack;
      Some (inl (depth + 1, stack, out))
  | EEnd => Some (inl (depth - 1, stack, out))
  | EProp n d =>
    if depth <? 0 then Some (inl a)
    else
      x ← stack !! depth;
      match ecells n d x with
      | Some x => stack ← set_ctx 64 depth x stack; Some (inl (depth, stack, out))
      | None =>
        if bool_decide (chars "reg" `prefix_of` n) && is_memory x then
          Some (inl (depth, stack, add_ranges DTB_MAX_MEMORY_RANGES out (reg_ranges (parent_addr_cells x) (parent_size_cells x) d)))
        else Some (inl a)
      end
  end.

Lemma memory_step_sim m strs F t e a : Z.of_nat F ≤ 2 ^ 31 → tok_rep m strs F t e → stack_ok a.1.2 →
  memory_step m strs F t a = mem_estep e a.
Proof.
  intros HF Ht Hst. destruct a as [[depth stack] out]. cbn in Hst. destruct t, e; try done; cbn [tok_rep] in Ht.
  - cbn [memory_step mem_estep]. rewrite (memory_name_cstr m name _ Ht). case_match; [done|].
    rewrite (new_ctx_mem _ _ (bool_decide _)). by destruct (new_ctx _ _ false).
  - destruct Ht as (-> & Hn & Hd & Hb & Hl). cbn [memory_step mem_estep]. case_match; [done|]. unfold str_at.
    destruct (stack !! depth) as [x|] eqn:Ex; [|done]. cbn [mbind option_bind]. rewrite (cells_prop_sim m _ _ _ _ x Hn Hd Hb). cbn [mbind option_bind].
    destruct (ecells name data0 x); [done|]. rewrite (starts_cstr m _ _ _ Hn) by (repeat constructor; done). cbn [mbind option_bind].
    destruct (_ && _); [|done]. destruct (Hst _ _ Ex) as (? & ? & _). rewrite parse_reg_bytes by (done || lia). done.
Qed.

Lemma mem_estep_ok e a a' : stack_ok a.1.2 → Forall byte_ok (match e with EProp _ d => d | _ => [] end) →
  mem_estep e a = Some (inl a') → stack_ok a'.1.2.
Proof.
  intros Hst Hb. destruct a as [[depth stack] out]. cbn in Hst. destruct e as [n|n d|]; cbn [mem_estep].
  - case_match; [done|]. destruct (new_ctx _ _ _) as [x|] eqn:Ex; [|done]. cbn [mbind option_bind].
    destruct (set_ctx _ _ _ _) as [st'|] eqn:Es; [|done]. intros [= <-]. eapply set_ctx_ok; [done| |done]. by eapply new_ctx_ok.
  - case_match; [by intros [= <-]|]. destruct (stack !! depth) as [x|] eqn:Ex; [|done]. cbn [mbind option_bind].
    destruct (ecells n d x) as [x'|] eqn:Ec.
    + destruct (set_ctx _ _ _ _) as [st'|] eqn:Es; [|done]. intros [= <-]. eapply set_ctx_ok; [done| |done]. eapply ecells_ok; [done| |done]. by eapply Hst.
    + destruct (_ && _); by intros [= <-].
  - by intros [= <-].
Qed.

(** The properties of one node. [keep] says whether its "reg" counts; [put]
    stores the cells, [add] the ranges, in the state of a walk. *)
Section props.
Context {A R : Type} (estep : event → A → option (A + R)) (st_of : A → ctx_stack) (d : Z).
Context (set_st : ctx_stack → A → A) (add : list dtb_range → A → A) (keep : node_ctx → A → bool) (P : A → Prop).
Hypothesis HPset : ∀ st a, P a → P (set_st st a).
Hypothesis HPadd : ∀ l a, P a → P (add l a).
Hypothesis Hprop : ∀ n dd a x, P a → st_of a !! d = Some x → estep (EProp n dd) a =
  match ecells n dd x with
  | Some x' => Some (inl (set_st (<[d := x']> (st_of a)) a))
  | None => if bool_decide (chars "reg" `prefix_of` n) && keep x a
            then Some (inl (add (reg_ranges (parent_addr_cells x) (parent_size_cells x) dd) a)) else Some (inl a)
  end.
Hypothesis Hst_set : ∀ st a, st_of (set_st st a) = st.
Hypothesis Hst_add : ∀ l a, st_of (add l a) = st_of a.
Hypothesis Hkeep_set : ∀ x st a, keep x (set_st st a) = keep x a.
Hypothesis Hkeep_add : ∀ x l a, keep x (add l a) = keep x a.
Hypothesis Hkeep_cells : ∀ x a n n', keep (mkNodeCtx (parent_addr_cells x) (parent_size_cells x) n n' (is_memory x) (is_uart_candidate x)) a = keep x a.
Hypothesis Hadd_nil : ∀ a, add [] a = a.
Hypothesis Hadd_app : ∀ l1 l2 a, add l2 (add l1 a) = add (l1 ++ l2) a.
Hypothesis Hset_set : ∀ s1 s2 a, set_st s2 (set_st s1 a) = set_st s2 a.
Hypothesis Hset_id : ∀ a, set_st (st_of a) a = a.
Hypothesis Hset_add : ∀ s l a, set_st s (add l a) = add l (set_st s a).

Lemma props_fold ps : Forall (λ p, plain_name p.1) ps → ∀ a x, P a → st_of a !! d = Some x →
  ∃ x', efold estep ((λ p, EProp p.1 p.2) <$> ps) a =
      Some (inl (add (if keep x a then regs (parent_addr_cells x, parent_size_cells x) ps else []) (set_st (<[d := x']> (st_of a)) a))) ∧
    (addr_cells x', size_cells x') = cells (addr_cells x, size_cells x) ps.
Proof.
  induction 1 as [|[n dd] ps Hn Hps IH]; intros a x HP Hx.
  - exists x. split; [|done]. cbn [fmap list_fmap efold]. assert (<[d := x]> (st_of a) = st_of a) as -> by (by apply insert_id). rewrite Hset_id. by destruct (keep x a); rewrite Hadd_nil.
  - cbn [fmap list_fmap efold fst snd]. rewrite (Hprop n dd a x HP Hx). pose proof (ecells_plain n dd x Hn) as Hc.
    destruct (ecells n dd x) as [x1|].
    + destruct Hc as [Hnr ->]. set (c1 := cell_step _ _) in *. cbn [mbind option_bind].
      set (x1 := mkNodeCtx _ _ _ _ _ _). destruct (IH (set_st (<[d := x1]> (st_of a)) a) x1) as (x' & -> & Hcells); [by apply HPset| |].
      { rewrite Hst_set. apply lookup_insert_eq. }
      exists x'. rewrite Hst_set, Hset_set, Hkeep_set. replace (<[d := x']> (<[d := x1]> (st_of a))) with (<[d := x']> (st_of a)) by (symmetry; apply insert_insert_eq).
      assert (keep x1 a = keep x a) as -> by apply Hkeep_cells. split.
      * cbn [parent_addr_cells parent_size_cells]. unfold regs. cbn [fmap list_fmap concat fst snd]. by rewrite (decide_False (P := n = chars "reg")).
      * rewrite Hcells. unfold x1, cells. cbn [addr_cells size_cells foldl]. fold c1. by rewrite <- surjective_pairing.
    + destruct (decide (n = chars "reg")) as [->|Hnr].
      * rewrite bool_decide_eq_true_2 by (exists []; by rewrite app_nil_r). cbn [andb]. destruct (keep x a) eqn:Hk; cbn [mbind option_bind].
        -- destruct (IH (add (reg_ranges (parent_addr_cells x) (parent_size_cells x) dd) a) x) as (x' & -> & Hcells); [by apply HPadd|by rewrite Hst_add|].
           exists x'. rewrite Hkeep_add, Hk, Hst_add, Hset_add, Hadd_app. split; [done|]. rewrite Hcells. unfold cells. cbn [foldl]. by rewrite Hc.
        -- destruct (IH a x HP Hx) as (x' & -> & Hcells). exists x'. rewrite Hk. split; [done|]. rewrite Hcells. unfold cells. cbn [foldl]. by rewrite Hc.
      * rewrite bool_decide_eq_false_2 by (intros Hp; by apply Hnr, Hn). cbn [andb mbind option_bind].
        destruct (IH a x HP Hx) as (x' & -> & Hcells). exists x'. split.
        -- unfold regs. cbn [fmap list_fmap concat fst snd]. by rewrite (decide_False (P := n = chars "reg")).
        -- rewrite Hcells. unfold cells. cbn [foldl]. by rewrite Hc.
Qed.
End props.

Lemma mem_props ps d st out x : Forall (λ p, plain_name p.1) ps → 0 ≤ d < 64 → st !! d = Some x →
  ∃ x', efold mem_estep ((λ p, EProp p.1 p.2) <$> ps) (d, st, out) = Some (inl (d, <[d := x']> st,
      add_ranges DTB_MAX_MEMORY_RANGES out (if is_memory x then regs (parent_addr_cells x, parent_size_cells x) ps else []))) ∧
    (addr_cells x', size_cells x') = cells (addr_cells x, size_cells x) ps.
Proof.
  intros Hps Hd Hx.
  apply (props_fold mem_estep (λ a, a.1.2) d (λ st a, (a.1.1, st, a.2)) (λ l a, (a.1.1, a.1.2, add_ranges DTB_MAX_MEMORY_RANGES a.2 l))
    (λ x _, is_memory x) (λ a, a.1.1 = d)) with (a := (d, st, out)); try done.
  - intros n dd [[d' st'] out'] y Ed Hy. cbn in Ed, Hy. subst d'. cbn [mem_estep fst snd].
    destruct (Z.ltb_spec d 0); [lia|]. rewrite Hy. cbn [mbind option_bind]. destruct (ecells n dd y); [|done].
    unfold set_ctx. destruct (Z.leb_spec 0 d); [|lia]. destruct (Z.ltb_spec d 64); [|lia]. done.
  - by intros [[]].
  - intros l1 l2 [[]]. cbn. by rewrite add_ranges_app.
  - by intros [[]].
Qed.

Lemma height_pos t : 1 ≤ height t.
Proof.
  destruct t as [n ps ks]. cbn. enough (0 ≤ foldr Z.max 0 (height <$> ks)) by lia. induction ks; cbn; lia.
Qed.


(** What a walk does on a subtree below depth [d]. *)
Definition mem_on (t : fnode) : Prop := plain_tree t → ∀ d st out c, -1 ≤ d → d + height t < 64 → inherits d st c →
  ∃ st', efold mem_estep (flatten t) (d, st, out) =
      Some (inl (d, st', add_ranges DTB_MAX_MEMORY_RANGES out (tree_memory c t))) ∧ ∀ k, k ≤ d → st' !! k = st !! k.

Lemma mem_kids ks : Forall mem_on ks → foldr and True (plain_tree <$> ks) → ∀ d st out c,
  -1 ≤ d → d + foldr Z.max 0 (height <$> ks) < 64 → inherits d st c →
  ∃ st', efold mem_estep (concat (flatten <$> ks)) (d, st, out) =
      Some (inl (d, st', add_ranges DTB_MAX_MEMORY_RANGES out (concat (tree_memory c <$> ks)))) ∧ ∀ k, k ≤ d → st' !! k = st !! k.
Proof.
  induction 1 as [|t ks Ht Hk IH]; intros Hp d st out c Hd Hh Hi; cbn [fmap list_fmap concat foldr] in *; [by exists st|].
  destruct Hp as [Hpt Hpk]. destruct (Ht Hpt d st out c Hd ltac:(lia) Hi) as (st1 & E1 & A1).
  destruct (IH Hpk d st1 (add_ranges DTB_MAX_MEMORY_RANGES out (tree_memory c t)) c Hd ltac:(lia) (inherits_agree _ _ _ _ Hi A1)) as (st2 & E2 & A2).
  exists st2. split; [|intros k Hk'; rewrite A2 by done; by apply A1]. rewrite (efold_app _ _ _ _ _ E1), E2. by rewrite add_ranges_app.
Qed.

Lemma set_ctx_in d x st : 0 ≤ d < 64 → set_ctx 64 d x st = Some (<[d := x]> st).
Proof. intros Hd. unfold set_ctx. destruct (Z.leb_spec 0 d); [|lia]. destruct (Z.ltb_spec d 64); [done|lia]. Qed.

Lemma mem_tree t : mem_on t.
Proof.
  induction t as [n ps ks IH] using fnode_ind'. intros [Hps Hks] d st out c Hd Hh Hi. cbn [height] in Hh. fold height in Hh.
  assert (0 ≤ foldr Z.max 0 (height <$> ks)) as Hh0 by (clear; induction ks; cbn; lia).
  cbn [flatten efold mem_estep]. destruct (Z.leb_spec 64 (d + 1)); [lia|]. rewrite new_ctx_mem, Hi. cbn [mbind option_bind].
  set (x := mkNodeCtx _ _ _ _ _ _). rewrite set_ctx_in by lia. cbn [mbind option_bind].
  destruct (mem_props ps (d + 1) (<[d + 1 := x]> st) out x Hps ltac:(lia) ltac:(apply lookup_insert_eq)) as (x' & E1 & Hcells).
  rewrite (efold_app _ _ _ _ _ E1). set (st1 := <[d + 1 := x']> (<[d + 1 := x]> st)).
  set (out1 := add_ranges _ out _).
  destruct (mem_kids ks IH Hks (d + 1) st1 out1 (cells c ps) ltac:(lia) ltac:(lia)) as (st2 & E2 & A2).
  { unfold x in Hcells. cbn in Hcells. rewrite <- surjective_pairing in Hcells. rewrite <- Hcells.
    apply inherits_node; [lia|apply lookup_insert_eq]. }
  rewrite (efold_app _ _ _ _ _ E2). cbn [efold mem_estep mbind option_bind]. exists st2. split.
  - replace (d + 1 - 1) with d by lia. unfold out1. rewrite add_ranges_app. cbn [tree_memory]. unfold x. cbn [is_memory parent_addr_cells parent_size_cells].
    rewrite <- surjective_pairing. rewrite (bool_decide_decide (is_memory_name n)). by case_decide.
  - intros k Hk. rewrite A2 by lia. unfold st1. etrans; apply lookup_insert_ne; lia.
Qed.

(** *** Reservations *)

Definition rsv_state : Type := Z * ctx_stack * option Z * list dtb_range.
Definition rsv_below (inside : option Z) (depth : Z) : bool :=
  match inside with Some d => (0 <=? d) && (d <? depth) | None => false end.

Definition rsv_estep (e : event) (a : rsv_state) : option (rsv_state + list dtb_range) :=
  let '(depth, stack, inside, out) := a in
  match e with
  | EBegin n =>
    if 64 <=? depth + 1 then Some (inr out)
    else
      x ← new_ctx (depth + 1) stack false;
      stack ← set_ctx 64 (depth + 1) x stack;
      Some (inl (depth + 1, stack, match inside with
        | Some _ => inside
        | None => if bool_decide (n = chars "reserved-memory") then Some (depth + 1) else None end, out))
  | EEnd => Some (inl (depth - 1, stack, (if decide (inside = Some depth) then None else inside), out))
  | EProp n d =>
    if depth <? 0 then Some (inl a)
    else
      x ← stack !! depth;
      match ecells n d x with
      | Some x => stack ← set_ctx 64 depth x stack; Some (inl (depth, stack, inside, out))
      | None =>
        if bool_decide (chars "reg" `prefix_of` n) && rsv_below inside depth then
          Some (inl (depth, stack, inside,
            add_ranges DTB_MAX_RESERVED_RANGES out (reg_ranges (parent_addr_cells x) (parent_size_cells x) d)))
        else Some (inl a)
      end
  end.

Lemma reserved_step_sim m strs F t e (a : rsv_state) : Z.of_nat F ≤ 2 ^ 31 → tok_rep m strs F t e → stack_ok a.1.1.2 →
  reserved_step m strs F t a = rsv_estep e a.
Proof.
  intros HF Ht Hst. destruct a as [[[depth stack] inside] out]. cbn in Hst. destruct t, e; try done; cbn [tok_rep] in Ht.
  - cbn [reserved_step rsv_estep]. case_match; [done|]. destruct (new_ctx _ _ _); [|done]. cbn [mbind option_bind].
    destruct (set_ctx _ _ _ _); [|done]. cbn [mbind option_bind]. destruct inside; [done|].
    rewrite (starts_cstr_end m name _ _ Ht) by (repeat constructor; done). done.
  - destruct Ht as (-> & Hn & Hd & Hb & Hl). cbn [reserved_step rsv_estep]. case_match; [done|]. unfold str_at.
    destruct (stack !! depth) as [x|] eqn:Ex; [|done]. cbn [mbind option_bind]. rewrite (cells_prop_sim m _ _ _ _ x Hn Hd Hb). cbn [mbind option_bind].
    destruct (ecells name data0 x); [done|]. rewrite (starts_cstr m _ _ _ Hn) by (repeat constructor; done). cbn [mbind option_bind].
    fold (rsv_below inside depth).
    destruct (_ && _); [|done]. destruct (Hst _ _ Ex) as (? & ? & _). rewrite parse_reg_bytes by (done || lia). done.
Qed.

Lemma rsv_estep_ok e (a a' : rsv_state) : stack_ok a.1.1.2 → Forall byte_ok (match e with EProp _ d => d | _ => [] end) →
  rsv_estep e a = Some (inl a') → stack_ok a'.1.1.2.
Proof.
  intros Hst Hb. destruct a as [[[depth stack] inside] out]. cbn in Hst. destruct e as [n|n d|]; cbn [rsv_estep].
  - case_match; [done|]. destruct (new_ctx _ _ _) as [x|] eqn:Ex; [|done]. cbn [mbind option_bind].
    destruct (set_ctx _ _ _ _) as [st'|] eqn:Es; [|done]. intros [= <-]. eapply set_ctx_ok; [done| |done]. by eapply new_ctx_ok.
  - case_match; [by intros [= <-]|]. destruct (stack !! depth) as [x|] eqn:Ex; [|done]. cbn [mbind option_bind].
    destruct (ecells n d x) as [x'|] eqn:Ec.
    + destruct (set_ctx _ _ _ _) as [st'|] eqn:Es; [|done]. intros [= <-]. eapply set_ctx_ok; [done| |done]. eapply ecells_ok; [done| |done]. by eapply Hst.
    + destruct (_ && _); by intros [= <-].
  - by intros [= <-].
Qed.

Lemma rsv_props ps d st ins out x : Forall (λ p, plain_name p.1) ps → 0 ≤ d < 64 → st !! d = Some x →
  ∃ x', efold rsv_estep ((λ p, EProp p.1 p.2) <$> ps) (d, st, ins, out) = Some (inl (d, <[d := x']> st, ins,
      add_ranges DTB_MAX_RESERVED_RANGES out (if rsv_below ins d then regs (parent_addr_cells x, parent_size_cells x) ps else []))) ∧
    (addr_cells x', size_cells x') = cells (addr_cells x, size_cells x) ps.
Proof.
  intros Hps Hd Hx.
  apply (props_fold rsv_estep (λ a : rsv_state, a.1.1.2) d (λ st a, (a.1.1.1, st, a.1.2, a.2))
    (λ l a, (a.1.1.1, a.1.1.2, a.1.2, add_ranges DTB_MAX_RESERVED_RANGES a.2 l))
    (λ _ a, rsv_below a.1.2 d) (λ a, a.1.1.1 = d)) with (a := (d, st, ins, out)); try done.
  - intros n dd [[[d' st'] ins'] out'] y Ed Hy. cbn in Ed, Hy. subst d'. cbn [rsv_estep fst snd].
    destruct (Z.ltb_spec d 0); [lia|]. rewrite Hy. cbn [mbind option_bind]. destruct (ecells n dd y); [|done]. by rewrite set_ctx_in.
  - by intros [[[]]].
  - intros l1 l2 [[[]]]. cbn. by rewrite add_ranges_app.
  - by intros [[[]]].
Qed.

(** [ins] is the depth of an enclosing reserved-memory node, if any. *)
Definition rsv_on (t : fnode) : Prop := plain_tree t → ∀ d st ins out c, -1 ≤ d → d + height t < 64 → inherits d st c →
  (∀ k, ins = Some k → 0 ≤ k ≤ d) →
  ∃ st', efold rsv_estep (flatten t) (d, st, ins, out) =
      Some (inl (d, st', ins, add_ranges DTB_MAX_RESERVED_RANGES out (tree_reserved (bool_decide (is_Some ins)) c t))) ∧
    ∀ k, k ≤ d → st' !! k = st !! k.

Lemma rsv_kids ks : Forall rsv_on ks → foldr and True (plain_tree <$> ks) → ∀ d st ins out c,
  -1 ≤ d → d + foldr Z.max 0 (height <$> ks) < 64 → inherits d st c → (∀ k, ins = Some k → 0 ≤ k ≤ d) →
  ∃ st', efold rsv_estep (concat (flatten <$> ks)) (d, st, ins, out) =
      Some (inl (d, st', ins, add_ranges DTB_MAX_RESERVED_RANGES out (concat (tree_reserved (bool_decide (is_Some ins)) c <$> ks)))) ∧
    ∀ k, k ≤ d → st' !! k = st !! k.
Proof.
  induction 1 as [|t ks Ht Hk IH]; intros Hp d st ins out c Hd Hh Hi Hins; cbn [fmap list_fmap concat foldr] in *; [by exists st|].
  destruct Hp as [Hpt Hpk]. destruct (Ht Hpt d st ins out c Hd ltac:(lia) Hi Hins) as (st1 & E1 & A1).
  edestruct (IH Hpk d st1 ins) as (st2 & E2 & A2); [done|lia|exact (inherits_agree _ _ _ _ Hi A1)|done|].
  exists st2. split; [|intros k Hk'; rewrite A2 by done; by apply A1]. rewrite (efold_app _ _ _ _ _ E1), E2. by rewrite add_ranges_app.
Qed.

Lemma rsv_tree t : rsv_on t.
Proof.
  induction t as [n ps ks IH] using fnode_ind'. intros [Hps Hks] d st ins out c Hd Hh Hi Hins. cbn [height] in Hh. fold height in Hh.
  assert (0 ≤ foldr Z.max 0 (height <$> ks)) as Hh0 by (clear; induction ks; cbn; lia).
  cbn [flatten efold rsv_estep]. destruct (Z.leb_spec 64 (d + 1)); [lia|]. rewrite Hi. cbn [mbind option_bind].
  set (x := mkNodeCtx _ _ _ _ _ _). rewrite set_ctx_in by lia. cbn [mbind option_bind].
  set (ins1 := match ins with Some _ => ins | None => _ end).
  assert (∀ k, ins1 = Some k → 0 ≤ k ≤ d + 1) as Hins1.
  { intros k. unfold ins1. destruct ins as [k'|]; [intros [= ->]; specialize (Hins k eq_refl); lia|]. case_bool_decide; intros [= <-]; lia. }
  destruct (rsv_props ps (d + 1) (<[d + 1 := x]> st) ins1 out x Hps ltac:(lia) ltac:(apply lookup_insert_eq)) as (x' & E1 & Hcells).
  rewrite (efold_app _ _ _ _ _ E1). set (st1 := <[d + 1 := x']> (<[d + 1 := x]> st)). set (out1 := add_ranges _ out _).
  destruct (rsv_kids ks IH Hks (d + 1) st1 ins1 out1 (cells c ps) ltac:(lia) ltac:(lia)) as (st2 & E2 & A2); [|done|].
  { unfold x in Hcells. cbn in Hcells. rewrite <- surjective_pairing in Hcells. rewrite <- Hcells.
    apply inherits_node; [lia|apply lookup_insert_eq]. }
  rewrite (efold_app _ _ _ _ _ E2). cbn [efold rsv_estep mbind option_bind]. exists st2. split.
  - replace (d + 1 - 1) with d by lia. unfold out1. rewrite add_ranges_app. cbn [tree_reserved]. unfold x. cbn [parent_addr_cells parent_size_cells].
    rewrite <- surjective_pairing. unfold ins1. destruct ins as [k|].
    + specialize (Hins k eq_refl). rewrite decide_False by (intros [= ->]; lia). unfold rsv_below.
      destruct (Z.leb_spec 0 k); [|lia]. destruct (Z.ltb_spec k (d + 1)); [|lia]. done.
    + rewrite (bool_decide_eq_false_2 (is_Some None)) by (by intros [? ?]). cbn [orb].
      destruct (decide (n = chars "reserved-memory")) as [Hn|Hn].
      * rewrite !(bool_decide_eq_true_2 (n = _)) by done. rewrite decide_True by done. unfold rsv_below.
        destruct (Z.leb_spec 0 (d + 1)); [|lia]. destruct (Z.ltb_spec (d + 1) (d + 1)); [lia|]. done.
      * by rewrite !(bool_decide_eq_false_2 (n = _)) by done.
  - intros k Hk. rewrite A2 by lia. unfold st1. etrans; apply lookup_insert_ne; lia.
Qed.

(** ** Whole blobs *)

Section blob.
Context (m : Z → option Z).

(** The memory reservation block. *)
Fixpoint rsvmap_at (p : Z) (l : list dtb_range) : Prop :=
  match l with
  | [] => be64 m p = Some 0 ∧ be64 m (p + 8) = Some 0
  | r :: l => be64 m p = Some (base r) ∧ be64 m (p + 8) = Some (size r) ∧ (base r, size r) ≠ (0, 0) ∧ rsvmap_at (p + 16) l
  end.

Lemma memreserve_rsvmap l : ∀ p out n, rsvmap_at p l → (length l < n)%nat →
  memreserve_loop m p out n = Some (add_ranges DTB_MAX_RESERVED_RANGES out l).
Proof.
  induction l as [|[b s] l IH]; intros p out n Hp Hn; (destruct n as [|n]; [cbn in Hn; lia|]); cbn [memreserve_loop].
  - destruct Hp as [-> ->]. done.
  - destruct Hp as (-> & -> & Hne & Hp). cbn [mbind option_bind base size] in *.
    destruct ((b =? 0) && (s =? 0)) eqn:E; [bool_simpl; subst; done|]. cbn in Hn. rewrite IH by (done || lia). done.
Qed.

Context (lo hi : Z) (Hm : ∀ q c, m q = Some c → lo ≤ q < hi).

Lemma bytes_in p l : bytes_at m p l → lo ≤ p → p + Z.of_nat (length l) ≤ Z.max p hi.
Proof using Hm.
  destruct l as [|x l _] using rev_ind; [cbn; lia|]. intros [_ Hx]%bytes_at_app Hp. cbn in Hx. destruct Hx as [Hx _].
  apply Hm in Hx. rewrite length_app. cbn. lia.
Qed.

Lemma be32_in p x : be32 m p = Some x → lo ≤ p < hi.
Proof using Hm. unfold be32. destruct (m p) eqn:E; [by eauto|done]. Qed.

(** A token takes at least four bytes. *)
Lemma tokens_fit strs F raws : hi - lo < Z.of_nat F → ∀ p, tokens_at m strs p raws →
  lo ≤ p ∧ p + 4 * Z.of_nat (length raws) < hi ∧ Forall (short F) raws.
Proof using Hm.
  intros HF. induction raws as [|w raws IH]; intros p Hp; cbn [tokens_at] in Hp.
  { apply be32_in in Hp. cbn. split_and!; [lia|lia|constructor]. }
  assert (∀ q, p + 4 ≤ q → lo ≤ q ∧ q + 4 * Z.of_nat (length raws) < hi ∧ Forall (short F) raws → lo ≤ p → short F w →
    lo ≤ p ∧ p + 4 * Z.of_nat (length (w :: raws)) < hi ∧ Forall (short F) (w :: raws)) as Hnext.
  { intros q Hq (? & ? & ?) Hlo Hw. cbn [length]. split_and!; [done|lia|by constructor]. }
  destruct w as [n|off n d| |].
  - destruct Hp as (Hb & Hc & Hp). apply be32_in in Hb. eapply Hnext; [|by apply IH|lia|].
    + unfold pad4. Z.div_mod_to_equations. lia.
    + cbn. destruct Hc as [_ Hc]. apply bytes_in in Hc; [|lia]. rewrite length_app in Hc. cbn in Hc. lia.
  - destruct Hp as (Hb & _ & Ho & _ & Hd & _ & Hp). apply be32_in in Hb. apply be32_in in Ho. eapply Hnext; [|by apply IH|lia|].
    + unfold pad4. Z.div_mod_to_equations. lia.
    + cbn. apply bytes_in in Hd; lia.
  - destruct Hp as (Hb & Hp). apply be32_in in Hb. eapply Hnext; [|by apply IH|lia|done]. lia.
  - destruct Hp as (Hb & Hp). apply be32_in in Hb. eapply Hnext; [|by apply IH|lia|done]. lia.
Qed.
End blob.

Record fdt_layout := mkLayout { l_struct : Z; l_strings : Z; l_rsvmap : Z; l_size_struct : Z; l_size_strings : Z }.

(** The bytes at [fdt] are a blob that holds tree [t] and the reservations
    [rsv]. *)
Record fdt_blob (s : dtb_state) (fdt : Z) (y : fdt_layout) (t : fnode) (rsv : list dtb_range) : Prop := {
  fb_at : fdt_at s = fdt ∧ 0 < fdt ∧ fdt + Z.of_nat (length (fdt_bytes s)) ≤ 2 ^ 64 - 16 ∧ Z.of_nat (length (fdt_bytes s)) < 2 ^ 31;
  fb_magic : be32 (dtb_mem s) fdt = Some FDT_MAGIC;
  fb_total : be32 (dtb_mem s) (fdt + 4) = Some (Z.of_nat (length (fdt_bytes s)));
  fb_offsets : be32 (dtb_mem s) (fdt + 8) = Some (l_struct y) ∧ be32 (dtb_mem s) (fdt + 12) = Some (l_strings y) ∧
    be32 (dtb_mem s) (fdt + 16) = Some (l_rsvmap y) ∧
    be32 (dtb_mem s) (fdt + 36) = Some (l_size_struct y) ∧ be32 (dtb_mem s) (fdt + 32) = Some (l_size_strings y);
  fb_inside : 0 ≤ l_struct y ∧ 0 ≤ l_strings y ∧ 0 ≤ l_rsvmap y < Z.of_nat (length (fdt_bytes s)) ∧
    0 < l_size_struct y ∧ l_struct y + l_size_struct y ≤ Z.of_nat (length (fdt_bytes s)) ∧
    0 < l_size_strings y ∧ l_strings y + l_size_strings y ≤ Z.of_nat (length (fdt_bytes s));
  fb_tree : ∃ raws, tokens_at (dtb_mem s) (fdt + l_strings y) (fdt + l_struct y) raws ∧ omap plain raws = flatten t;
  fb_rsv : rsvmap_at (dtb_mem s) (fdt + l_rsvmap y) rsv;
}.

Lemma dtb_mem_in s q c : dtb_mem s q = Some c → fdt_at s ≤ q < fdt_at s + Z.of_nat (length (fdt_bytes s)).
Proof.
  unfold dtb_mem. destruct (_ && _) eqn:E; [|done]. bool_simpl. lia.
Qed.

(** The two collections on a blob, from any walk lemma. *)
Lemma collect_blob s fdt y t rsv : fdt_blob s fdt y t rsv → plain_tree t → height t ≤ 64 → ∀ out,
  collect_memory_ranges (dtb_mem s) (fdt + l_struct y) (fdt + l_strings y) (dtb_fuel s) out =
    Some (add_ranges DTB_MAX_MEMORY_RANGES out (tree_memory (2, 2) t)) ∧
  collect_reserved_memory_ranges (dtb_mem s) (fdt + l_struct y) (fdt + l_strings y) (dtb_fuel s) out =
    Some (add_ranges DTB_MAX_RESERVED_RANGES out (tree_reserved false (2, 2) t)).
Proof.
  intros [(Eat & Hpos & Hhi & Hlen) _ _ _ _ (raws & Htok & Hflat) _] Hpl Hht out.
  assert (∀ q c, dtb_mem s q = Some c → fdt ≤ q < fdt + Z.of_nat (length (fdt_bytes s))) as Hin by (intros q c Hq; subst; by eapply dtb_mem_in).
  assert (∀ q c, dtb_mem s q = Some c → 0 ≤ q < 2 ^ 64 - 16) as Hread by (intros q c Hq; specialize (Hin q c Hq); lia).
  destruct (tokens_fit (dtb_mem s) fdt _ Hin (fdt + l_strings y) (dtb_fuel s) raws ltac:(unfold dtb_fuel; lia) _ Htok) as (Hlo & Hcount & Hshort).
  assert (length raws < dtb_fuel s)%nat as Hfuel by (unfold dtb_fuel; lia).
  assert (inherits (-1) ∅ (2, 2)) as Hinh by done.
  assert (Z.of_nat (dtb_fuel s) ≤ 2 ^ 31) as HF by (unfold dtb_fuel; lia). split.
  - destruct (mem_tree t Hpl (-1) ∅ out (2, 2) ltac:(lia) ltac:(lia) Hinh) as (st' & E & _).
    eapply (walk_tokens (dtb_mem s) (fdt + l_strings y) (dtb_fuel s) Hread _ mem_estep (λ a, stack_ok a.1.2)); [| | |exact Htok|done| |by rewrite Hflat|done|done].
    + intros. by apply memory_step_sim.
    + by intros [[]].
    + apply mem_estep_ok.
    + apply map_Forall_empty.
  - destruct (rsv_tree t Hpl (-1) ∅ None out (2, 2) ltac:(lia) ltac:(lia) Hinh) as (st' & E & _); [done|].
    eapply (walk_tokens (dtb_mem s) (fdt + l_strings y) (dtb_fuel s) Hread _ rsv_estep (λ a : rsv_state, stack_ok a.1.1.2));
      [| | |exact Htok|done| |by rewrite Hflat|done|done].
    + intros. by apply reserved_step_sim.
    + by intros [[[]]].
    + apply rsv_estep_ok.
    + apply map_Forall_empty.
Qed.

(** What the parser must report. *)
Definition described (t : fnode) (rsv : list dtb_range) (total : Z) : dtb_results :=
  mkDtb (take DTB_MAX_MEMORY_RANGES (filter (λ r, size r ≠ 0) (tree_memory (2, 2) t)))
        (take DTB_MAX_RESERVED_RANGES (filter (λ r, size r ≠ 0) (rsv ++ tree_reserved false (2, 2) t))) total.

(** C19: For every blob that follows the flattened device tree format (header,
    reservation block, tokens with fillers, strings) and whose tree is at most
    64 deep and has no property names that the parser confuses, dtb_init
    succeeds and caches exactly the memory and reservation ranges the tree and
    the reservation block describe, in order, up to 16 and 64 non-empty ones:
    cell counts are inherited, and no access leaves the blob. *)
Theorem dtb_init_reads_tree s fdt fdt_size y t rsv c :
  fdt_blob s fdt y t rsv → plain_tree t → height t ≤ 64 → (length rsv < 128)%nat →
  0 ≤ fdt_size → fdt_size = 0 ∨ Z.of_nat (length (fdt_bytes s)) ≤ u32 fdt_size →
  wp (dtb_init fdt fdt_size) (λ r c' s', r = true ∧ c' = c ∧ g_parsed s' = true ∧
    results s' = described t rsv (Z.of_nat (length (fdt_bytes s)))) c s.
Proof.
  intros Hblob Hpl Hht Hrsv Hsz0 Hsz. pose proof Hblob as [(Eat & Hpos & Hhi & Hlen) Hmag Htot (H8 & H12 & H16 & H36 & H32) Hins _ Hmap].
  assert (fdt_bytes s ≠ []) as Hne.
  { intros E. assert (dtb_mem s fdt = None) as En by (unfold dtb_mem; rewrite E; by destruct (_ && _)).
    unfold be32 in Hmag. by rewrite En in Hmag. }
  assert (0 < Z.of_nat (length (fdt_bytes s))) as Hl0 by (destruct (fdt_bytes s); [done|cbn; lia]).
  unfold dtb_init. destruct (Z.eqb_spec fdt 0); [lia|]. wp_steps. rewrite Z.add_0_r, Hmag. wp_steps.
  change (negb (FDT_MAGIC =? FDT_MAGIC)) with false. cbv iota. wp_step. rewrite Htot. wp_step.
  destruct (Z.eqb_spec (Z.of_nat (length (fdt_bytes s))) 0); [lia|].
  assert (negb (fdt_size =? 0) && (u32 fdt_size <? Z.of_nat (length (fdt_bytes s))) = false) as ->.
  { destruct (Z.eqb_spec fdt_size 0); [done|]. destruct Hsz; [done|]. cbn. by apply Z.ltb_ge. }
  wp_steps. rewrite H8. wp_steps. rewrite H12. wp_steps. rewrite H16. wp_steps. rewrite H36. wp_steps. rewrite H32. wp_steps.
  destruct Hins as (? & ? & ? & ? & ? & ? & ?). set (len := Z.of_nat (length (fdt_bytes s))) in *.
  destruct (Z.leb_spec len (l_struct y)); [lia|]. destruct (Z.leb_spec len (l_strings y)); [lia|]. destruct (Z.leb_spec len (l_rsvmap y)); [lia|].
  cbn [orb]. destruct (Z.eqb_spec (l_size_struct y) 0); [lia|]. destruct (Z.eqb_spec (l_size_strings y) 0); [lia|]. cbn [orb].
  rewrite !u32_small by lia. destruct (Z.ltb_spec len (l_struct y + l_size_struct y)); [lia|].
  destruct (Z.ltb_spec len (l_strings y + l_size_strings y)); [lia|]. wp_steps. unfold ensure_parsed. wp_steps.
  cbn [g_parsed set_ranges set_blocks set_fdt st_struct st_strings st_rsvmap]. cbv iota zeta.
  set (s1 := set_ranges _ _ _ _). assert (dtb_mem s1 = dtb_mem s) as -> by done. assert (dtb_fuel s1 = dtb_fuel s) as -> by done.
  destruct (Z.eqb_spec (fdt + l_struct y) 0); [lia|]. destruct (Z.eqb_spec (fdt + l_strings y) 0); [lia|]. cbn [orb].
  destruct (Z.eqb_spec (fdt + l_rsvmap y) 0); [lia|].
  wp_step. unfold collect_memreserve_ranges. rewrite (memreserve_rsvmap _ rsv) by done. wp_steps.
  rewrite (proj2 (collect_blob s fdt y t rsv Hblob Hpl Hht _)). wp_steps. rewrite (proj1 (collect_blob s fdt y t rsv Hblob Hpl Hht _)). wp_steps.
  split_and!; try done. unfold results, described; cbn. rewrite add_ranges_app. by rewrite !add_ranges_spec by (cbn; lia).
Qed.

(** ** An example blob *)

Definition enc32 (x : Z) : list Z := [x / 2 ^ 24 mod 2 ^ 8; x / 2 ^ 16 mod 2 ^ 8; x / 2 ^ 8 mod 2 ^ 8; x mod 2 ^ 8].
Definition enc64 (x : Z) : list Z := enc32 (x / 2 ^ 32) ++ enc32 (x mod 2 ^ 32).
Definition padded (l : list Z) : list Z := l ++ replicate (Z.to_nat ((- Z.of_nat (length l)) mod 4)) 0.

(** Tokens with the offsets of their names in a strings block that lists the
    names in order. *)
Fixpoint place (l : list event) (off : Z) : list rtok :=
  match l with
  | [] => []
  | EBegin n :: l => RBegin n :: place l off
  | EProp n d :: l => RProp off n d :: place l (off + Z.of_nat (length n) + 1)
  | EEnd :: l => REnd :: place l off
  end.
Definition enc_tok (r : rtok) : list Z :=
  match r with
  | RBegin n => enc32 FDT_BEGIN_NODE ++ padded (n ++ [0])
  | RProp off n d => enc32 FDT_PROP ++ enc32 (Z.of_nat (length d)) ++ enc32 off ++ padded d
  | REnd => enc32 FDT_END_NODE
  | RNop => enc32 FDT_NOP
  end.
Definition name_bytes (r : rtok) : list Z := match r with RProp _ n _ => n ++ [0] | _ => [] end.
Definition encode (t : fnode) (rsv : list dtb_range) : list Z :=
  let raws := place (flatten t) 0 in
  let rsvs := concat ((λ r, enc64 (base r) ++ enc64 (size r)) <$> (rsv ++ [mkRange 0 0])) in
  let struct := concat (enc_tok <$> raws) ++ enc32 FDT_END in
  let strings := concat (name_bytes <$> raws) in
  let off_struct := 40 + Z.of_nat (length rsvs) in
  let off_strings := off_struct + Z.of_nat (length struct) in
  let total := off_strings + Z.of_nat (length strings) in
  concat (enc32 <$> [FDT_MAGIC; total; off_struct; off_strings; 40; 17; 16; 0; Z.of_nat (length strings); Z.of_nat (length struct)]) ++
  rsvs ++ struct ++ strings.

Definition two_cells : list (list Z * list Z) := [(chars "#address-cells", enc32 2); (chars "#size-cells", enc32 2)].
Definition sample_tree : fnode :=
  FNode [] two_cells
    [FNode (chars "memory@40000000") [(chars "reg", enc64 0x40000000 ++ enc64 0x8000000)] [];
     FNode (chars "reserved-memory") two_cells
       [FNode (chars "fw@44000000") [(chars "reg", enc64 0x44000000 ++ enc64 0x10000)] []];
     FNode (chars "chosen") [(chars "stdout-path", chars "/pl011@9000000:115200" ++ [0])] [];
     FNode (chars "pl011@9000000") [(chars "compatible", chars "arm,pl011" ++ [0]); (chars "reg", enc64 0x9000000 ++ enc64 0x1000)] [];
     FNode (chars "virtio_mmio@a000000") [(chars "compatible", chars "virtio,mmio" ++ [0]); (chars "reg", enc64 0xa000000 ++ enc64 0x200)] []].
Definition sample_rsv : list dtb_range := [mkRange 0x40000000 0x80000].
Definition sample_blob : dtb_state :=
  mkDtbState 0x48000000 (encode sample_tree sample_rsv) 0 0 0 0 0 0 0 [] [] false.

(** The parser run on the example, with the console and the devices. *)
Example sample_parsed :
  match dtb_init 0x48000000 0 (mkCpu 0 0) sample_blob with
  | Ret (true, c, s) =>
    results s = mkDtb [mkRange 0x40000000 0x8000000] [mkRange 0x40000000 0x80000; mkRange 0x44000000 0x10000] 588 ∧
    match find_pl011_uart c s, get_virtio_mmio_ranges 8 c s with
    | Ret (u, _, _), Ret (v, _, _) => (u, v) = (Some 0x9000000, (true, [mkRange 0xa000000 0x200]))
    | _, _ => False
    end
  | _ => False
  end.
Proof. vm_compute. split; reflexivity. Qed.

Lemma sample_fdt_blob :
  fdt_blob sample_blob 0x48000000 (mkLayout 72 484 40 412 104) sample_tree sample_rsv.
Proof.
  split.
  - vm_compute. split_and!; congruence.
  - vm_compute. reflexivity.
  - vm_compute. reflexivity.
  - vm_compute. split_and!; reflexivity.
  - vm_compute. split_and!; congruence.
  - exists (place (flatten sample_tree) 0). split; [|vm_compute; reflexivity].
    vm_compute. repeat first [split | constructor | discriminate].
  - vm_compute. repeat first [split | constructor | discriminate].
Qed.

Lemma sample_plain : plain_tree sample_tree.
Proof.
  repeat split; repeat constructor; try done; cbn; try (intros [r E]; discriminate E).
Qed.

Lemma dtb_init_witness :
  wp (dtb_init 0x48000000 0) (λ r c' s', r = true ∧ c' = mkCpu 0 0 ∧ g_parsed s' = true ∧
    results s' = described sample_tree sample_rsv (Z.of_nat (length (fdt_bytes sample_blob)))) (mkCpu 0 0) sample_blob.
Proof.
  apply (dtb_init_reads_tree sample_blob 0x48000000 0 (mkLayout 72 484 40 412 104) sample_tree sample_rsv (mkCpu 0 0));
    [apply sample_fdt_blob|apply sample_plain|vm_compute; congruence|cbn; lia|lia|by left].
Defined.

(** ** Limits of the parser *)

(** The example with a "#sound-dai-cells" property at the root. *)
Definition sound_tree : fnode :=
  match sample_tree with FNode n ps ks => FNode n (ps ++ [(chars "#sound-dai-cells", enc32 0)]) ks end.
Definition sound_blob : dtb_state :=
  mkDtbState 0x48000000 (encode sound_tree sample_rsv) 0 0 0 0 0 0 0 [] [] false.

(** A tree whose root has a "#sound-dai-cells" property: it describes a
    RAM range, but the parser takes the property for "#size-cells" (two
    characters are compared) and finds no memory. *)
Theorem dtb_cells_taken_by_prefix :
  tree_memory (2, 2) sound_tree = [mkRange 0x40000000 0x8000000] ∧
  match dtb_init 0x48000000 0 (mkCpu 0 0) sound_blob with
  | Ret (true, _, s) => mem_ranges s = []
  | _ => False
  end.
Proof. vm_compute. split; reflexivity. Qed.

(** A structure block whose only property claims 0x7FFFFFF0 bytes: the header
    is accepted and the walk leaves the blob. *)
Definition long_prop_blob : dtb_state :=
  let struct := enc32 FDT_BEGIN_NODE ++ enc32 0 ++ enc32 FDT_PROP ++ enc32 0x7FFFFFF0 ++ enc32 0 ++ enc32 FDT_END in
  mkDtbState 0x48000000
    (concat (enc32 <$> [FDT_MAGIC; 84; 56; 80; 40; 17; 16; 0; 4; 24]) ++ enc64 0 ++ enc64 0 ++ struct ++ enc32 0)
    0 0 0 0 0 0 0 [] [] false.
Example dtb_walk_leaves_blob : dtb_init 0x48000000 84 (mkCpu 0 0) long_prop_blob = Fault.
Proof. vm_compute. reflexivity. Qed.
