(* ===== verification/Mmu.v ===== *)
(** * Page tables (Kern/Kernel/mm/mmu.c)

    Construction of the kernel's translation tables: a device block, RAM in
    2 MiB blocks, and 4 KiB pages with the permissions of their section where
    RAM holds the kernel image.  Tables are words of memory; the addresses of
    sections and tables come from the linker and are a record. *)

From S2P Require Import Prelude Irq Addr Platform.

(** ** Constants *)

Definition RAM_BLOCK_SIZE : Z := 0x200000.
Definition L1_BLOCK_SIZE : Z := 2 ^ 30.
Definition MAX_L2_TABLES : Z := 128.
Definition L3_POOL_TABLES : Z := 64.
Definition MMU_PMM_METADATA_PAGES : Z := 16.
Definition DESC_TABLE : Z := 3.
Definition DESC_BLOCK : Z := 1.
Definition DESC_PAGE : Z := 3.
Definition ATTRINDX_NORMAL : Z := Z.shiftl 0 2.
Definition ATTRINDX_DEVICE : Z := Z.shiftl 1 2.
Definition SH_INNER : Z := Z.shiftl 3 8.
Definition SH_NON : Z := Z.shiftl 0 8.
Definition AF : Z := Z.shiftl 1 10.
Definition XN_BITS : Z := Z.lor (Z.shiftl 1 53) (Z.shiftl 1 54).
Definition AP_MASK : Z := Z.shiftl 3 6.
Definition AP_RO_EL1 : Z := Z.shiftl 2 6.
Definition MAIR_DEFAULT : Z := 0x04FF.
Definition TCR_BOOT : Z := 0xB5103510.
Definition MMU_MAX_MEMORY_RANGES : nat := 64.

Definition align_down_2m (x : Z) : Z := Z.land x (u64_not (RAM_BLOCK_SIZE - 1)).
Definition align_up_2m (x : Z) : Z := Z.land (u64 (x + (RAM_BLOCK_SIZE - 1))) (u64_not (RAM_BLOCK_SIZE - 1)).

(** [mmu_pa_to_va] and [virt_to_phys] are the translations of Addr. *)
Definition mmu_pa_to_va (pa : Z) : Z := phys_to_hh_virt pa.
Definition virt_to_phys (va : Z) : Z := hh_virt_to_phys va.

(** ** State *)

(** Section boundaries and the static tables, as the linker placed them. *)
Record image := mkImage {
  text_start : Z; text_end : Z; rodata_start : Z; rodata_end : Z;
  data_start : Z; data_end : Z; bss_start : Z; bss_end : Z;
  core_text_start : Z; core_text_end : Z; core_rodata_start : Z; core_rodata_end : Z;
  core_data_start : Z; core_data_end : Z; core_bss_start : Z; core_bss_end : Z;
  kernel_image_start : Z; kernel_runtime_end : Z; kernel_vectors : Z;
  l0_table : Z; l1_table : Z; l2_tables : Z; l3_pool : Z;
}.

(** The system registers [mmu_init] writes. *)
Record mmu_regs := mkRegs {
  ttbr0 : Z; ttbr1 : Z; mair : Z; tcr : Z; sctlr : Z; vbar : Z; sp : Z;
}.

(** Table words, the allocation counters, [l2_for_l1] and the registers. *)
Record mmu_state := mkMmu {
  pt : gmap Z Z; l2_tables_used : Z; l2_for_l1 : list Z; l3_pool_used : Z;
  alloc_phys : Z; alloc_virt : Z; regs : mmu_regs;
}.

Definition rd (a : Z) : M mmu_state Z := s <- get_st ;; load (pt s !! a).
(** A store to a word of the tables; anywhere else is a fault. *)
Definition wr (a v : Z) : M mmu_state unit :=
  s <- get_st ;; _ <- load (pt s !! a) ;;
  put_st (mkMmu (<[a := v]> (pt s)) (l2_tables_used s) (l2_for_l1 s) (l3_pool_used s) (alloc_phys s) (alloc_virt s) (regs s)).
Definition set_l2 (used : Z) (m : list Z) (s : mmu_state) : mmu_state :=
  mkMmu (pt s) used m (l3_pool_used s) (alloc_phys s) (alloc_virt s) (regs s).
Definition set_l3 (used : Z) (s : mmu_state) : mmu_state :=
  mkMmu (pt s) (l2_tables_used s) (l2_for_l1 s) used (alloc_phys s) (alloc_virt s) (regs s).
Definition set_alloc (p v : Z) (s : mmu_state) : mmu_state :=
  mkMmu (pt s) (l2_tables_used s) (l2_for_l1 s) (l3_pool_used s) p v (regs s).
Definition set_regs (r : mmu_regs) (s : mmu_state) : mmu_state :=
  mkMmu (pt s) (l2_tables_used s) (l2_for_l1 s) (l3_pool_used s) (alloc_phys s) (alloc_virt s) r.

(** [while (1) wfe]: the CPU is parked for good. *)
Definition halt {A} (why : string) : M mmu_state A := panic why.

(** ** Descriptors *)

Definition desc_type (d : Z) : Z := Z.land d 3.
Definition desc_addr (d : Z) : Z := Z.land d 0x0000FFFFFFFFF000.

Definition dev_desc : Z :=
  let d := 0 in
  let d := Z.lor d ATTRINDX_DEVICE in
  let d := Z.lor d SH_NON in
  let d := Z.lor d AF in
  let d := Z.lor d XN_BITS in
  Z.lor d DESC_BLOCK.

Definition block_desc (pa : Z) : Z :=
  let d := Z.lor pa ATTRINDX_NORMAL in
  let d := Z.lor d SH_INNER in
  let d := Z.lor d AF in
  let d := Z.lor d (Z.shiftl 0 6) in
  let d := Z.lor d XN_BITS in
  Z.lor d DESC_BLOCK.

(** The descriptor of the page at [pa] of the kernel image. *)
Definition page_desc (im : image) (pa : Z) : Z :=
  let inside lo hi := (virt_to_phys lo <=? pa) && (pa <? virt_to_phys hi) in
  let d := Z.lor pa ATTRINDX_NORMAL in
  let d := Z.lor d SH_INNER in
  let d := Z.lor d AF in
  let d := Z.lor d (Z.shiftl 0 6) in
  let d := Z.lor d XN_BITS in
  let exec d := Z.lor (Z.land (Z.land d (u64_not XN_BITS)) (u64_not AP_MASK)) AP_RO_EL1 in
  let ro d := Z.lor (Z.land d (u64_not AP_MASK)) AP_RO_EL1 in
  let d :=
    if pa =? Z.land (virt_to_phys (kernel_vectors im)) (u64_not 0xFFF) then exec d
    else if inside (text_start im) (text_end im) then exec d
    else if inside (rodata_start im) (rodata_end im) then ro d
    else if inside (core_text_start im) (core_text_end im) then exec d
    else if inside (core_rodata_start im) (core_rodata_end im) then ro d
    else d in
  Z.lor d DESC_PAGE.

(** ** Operations *)

(** The 512 words of a table set to what [f] gives for them. *)
Fixpoint fill_loop (tbl : Z) (f : Z → Z) (i : Z) (n : nat) : M mmu_state unit :=
  match n with
  | O => ret tt
  | S n => wr (tbl + 8 * i) (f i) ;;; fill_loop tbl f (i + 1) n
  end.
Definition zero_table (tbl : Z) : M mmu_state unit := fill_loop tbl (λ _, 0) 0 512.

Section ops.
Context (im : image).

Definition alloc_l3 : M mmu_state Z :=
  s <- get_st ;;
  if L3_POOL_TABLES <=? l3_pool_used s then halt "L3 tables exhausted"
  else
    let tbl := l3_pool im + 4096 * l3_pool_used s in
    modify (set_l3 (l3_pool_used s + 1)) ;;;
    zero_table tbl ;;;
    ret tbl.

Definition alloc_l2 : M mmu_state Z :=
  s <- get_st ;;
  if MAX_L2_TABLES <=? l2_tables_used s then halt "MMU: out of L2 tables"
  else
    let tbl := l2_tables im + 4096 * l2_tables_used s in
    modify (set_l2 (l2_tables_used s + 1) (l2_for_l1 s)) ;;;
    zero_table tbl ;;;
    ret tbl.

Definition get_l2_for_l1 (l1_index : Z) : M mmu_state Z :=
  s <- get_st ;;
  tbl <- load (l2_for_l1 s !! Z.to_nat l1_index) ;;
  if tbl =? 0 then
    tbl <- alloc_l2 ;;
    modify (λ s, set_l2 (l2_tables_used s) (<[Z.to_nat l1_index := tbl]> (l2_for_l1 s)) s) ;;;
    wr (l1_table im + 8 * l1_index) (Z.lor (virt_to_phys tbl) DESC_TABLE) ;;;
    ret tbl
  else ret tbl.

Definition page_alloc_init : M mmu_state unit :=
  let end_pa := virt_to_phys (kernel_runtime_end im) in
  let p := u64 (Z.land (u64 (end_pa + 0xFFF)) (u64_not 0xFFF) + MMU_PMM_METADATA_PAGES * 0x1000) in
  modify (set_alloc p (mmu_pa_to_va p)).

(** Does the 2 MiB block at [pa] hold part of the kernel image? *)
Definition overlaps_kernel (pa : Z) : bool :=
  negb ((u64 (pa + RAM_BLOCK_SIZE) <=? virt_to_phys (kernel_image_start im)) ||
        (virt_to_phys (kernel_runtime_end im) <=? pa)).

(** One iteration of the loop over the blocks of a range. *)
Definition map_block (pa : Z) : M mmu_state unit :=
  let l1_index := Z.shiftr pa 30 in
  if (l1_index =? 0) || (512 <=? l1_index) then ret tt
  else
    l2 <- get_l2_for_l1 l1_index ;;
    let l2_index := Z.land pa (L1_BLOCK_SIZE - 1) / RAM_BLOCK_SIZE in
    if overlaps_kernel pa then
      l3 <- alloc_l3 ;;
      fill_loop l3 (λ p, page_desc im (u64 (pa + 0x1000 * p))) 0 512 ;;;
      wr (l2 + 8 * l2_index) (Z.lor (virt_to_phys l3) DESC_TABLE)
    else wr (l2 + 8 * l2_index) (block_desc pa).

Fixpoint map_blocks (pa pa_end : Z) (fuel : nat) : M mmu_state unit :=
  match fuel with
  | O => fault
  | S fuel => if pa <? pa_end then map_block pa ;;; map_blocks (u64 (pa + RAM_BLOCK_SIZE)) pa_end fuel else ret tt
  end.

Definition map_range (r : dtb_range) : M mmu_state unit :=
  let range_end := u64 (base r + size r) in
  if range_end <=? CAPAZ_RAM_BASE then ret tt
  else
    let range_start := if base r <? CAPAZ_RAM_BASE then CAPAZ_RAM_BASE else base r in
    let pa := align_down_2m range_start in
    let pa_end := align_up_2m range_end in
    map_blocks pa pa_end (S (Z.to_nat ((pa_end - pa) / RAM_BLOCK_SIZE))).

Fixpoint map_ranges (l : list dtb_range) : M mmu_state unit :=
  match l with
  | [] => ret tt
  | r :: l => map_range r ;;; map_ranges l
  end.

(** The ranges to map: the device tree's, or the whole RAM window. *)
Definition ranges_to_map (d : dtb_results) : list dtb_range :=
  let '(have, l) := dtb_get_memory_ranges d MMU_MAX_MEMORY_RANGES in
  if negb have || Nat.eqb (length l) 0 then [mkRange CAPAZ_RAM_BASE CAPAZ_RAM_DIRECTMAP_SIZE] else l.

(** Up to the register writes. *)
Definition build_tables (d : dtb_results) : M mmu_state unit :=
  page_alloc_init ;;;
  modify (set_l2 0 (replicate 512 0)) ;;;
  wr (l0_table im + 8 * 256) (Z.lor (virt_to_phys (l1_table im)) DESC_TABLE) ;;;
  wr (l1_table im) dev_desc ;;;
  map_ranges (ranges_to_map d).

(** The assembly block: stack and vectors to the high half, TTBR0 off, the new
    tables in TTBR1, EPD0 set, and M, C, I and WXN in SCTLR. *)
Definition switch_tables : M mmu_state unit :=
  modify (λ s,
    let r := regs s in
    let new_sp := mmu_pa_to_va (virt_to_phys (sp r)) in
    set_regs (mkRegs 0 (virt_to_phys (l0_table im)) MAIR_DEFAULT (Z.lor TCR_BOOT (Z.shiftl 1 7))
      (Z.lor (Z.lor (Z.lor (Z.lor (sctlr r) 1) (Z.shiftl 1 2)) (Z.shiftl 1 12)) (Z.shiftl 1 19))
      (kernel_vectors im) new_sp) s).

(** *** The self test *)

Definition mmu_lookup_desc (va : Z) : M mmu_state Z :=
  d0 <- rd (l0_table im + 8 * Z.land (Z.shiftr va 39) 0x1FF) ;;
  if d0 =? 0 then ret 0
  else if negb (desc_type d0 =? DESC_TABLE) then ret d0
  else
    d1 <- rd (mmu_pa_to_va (desc_addr d0) + 8 * Z.land (Z.shiftr va 30) 0x1FF) ;;
    if d1 =? 0 then ret 0
    else if desc_type d1 =? DESC_BLOCK then ret d1
    else if negb (desc_type d1 =? DESC_TABLE) then ret 0
    else
      d2 <- rd (mmu_pa_to_va (desc_addr d1) + 8 * Z.land (Z.shiftr va 21) 0x1FF) ;;
      if d2 =? 0 then ret 0
      else if desc_type d2 =? DESC_BLOCK then ret d2
      else if negb (desc_type d2 =? DESC_TABLE) then ret 0
      else rd (mmu_pa_to_va (desc_addr d2) + 8 * Z.land (Z.shiftr va 12) 0x1FF).

Definition desc_device (d : Z) : bool := Z.land (Z.shiftr d 2) 7 =? Z.shiftr ATTRINDX_DEVICE 2.
Definition desc_ro (d : Z) : bool := Z.land (Z.shiftr d 6) 3 =? 2.
Definition desc_exec (d : Z) : bool :=
  negb (negb (Z.land (Z.shiftr d 53) 1 =? 0) || negb (Z.land (Z.shiftr d 54) 1 =? 0)).

Definition mmu_expect_page (va : Z) (expect_exec expect_ro expect_device : bool) : M mmu_state unit :=
  d <- mmu_lookup_desc va ;;
  assert_that (negb (d =? 0)) "mmu: selftest missing mapping" ;;;
  assert_that ((desc_type d =? DESC_BLOCK) || (desc_type d =? DESC_PAGE)) "mmu: selftest unexpected desc type" ;;;
  assert_that (Bool.eqb expect_device (desc_device d)) "mmu: selftest AttrIndx mismatch" ;;;
  assert_that (Bool.eqb expect_ro (desc_ro d)) "mmu: selftest AP mismatch" ;;;
  assert_that (Bool.eqb expect_exec (desc_exec d)) "mmu: selftest XN mismatch".

(** Empty core sections are skipped. *)
Definition nonempty (lo hi : Z) : bool := negb (lo =? hi).

Definition assert_layout : M mmu_state unit :=
  assert_that (text_start im <? text_end im) "mmu: bad text range" ;;;
  assert_that (rodata_start im <? rodata_end im) "mmu: bad rodata range" ;;;
  assert_that (data_start im <? data_end im) "mmu: bad data range" ;;;
  assert_that (bss_start im <? bss_end im) "mmu: bad bss range" ;;;
  assert_that (negb (nonempty (core_text_start im) (core_text_end im) && negb (core_text_start im <? core_text_end im))) "mmu: bad core text range" ;;;
  assert_that (negb (nonempty (core_rodata_start im) (core_rodata_end im) && negb (core_rodata_start im <? core_rodata_end im))) "mmu: bad core rodata range" ;;;
  assert_that (negb (nonempty (core_data_start im) (core_data_end im) && negb (core_data_start im <? core_data_end im))) "mmu: bad core data range" ;;;
  assert_that (negb (nonempty (core_bss_start im) (core_bss_end im) && negb (core_bss_start im <? core_bss_end im))) "mmu: bad core bss range" ;;;
  assert_that (text_end im <=? rodata_start im) "mmu: segments overlap (text/rodata)" ;;;
  let after_rodata := rodata_end im in
  when (nonempty (core_text_start im) (core_text_end im))
    (assert_that (rodata_end im <=? core_text_start im) "mmu: segments overlap (rodata/core_text)") ;;;
  let after_rodata := if nonempty (core_text_start im) (core_text_end im) then core_text_end im else after_rodata in
  when (nonempty (core_rodata_start im) (core_rodata_end im))
    (assert_that (after_rodata <=? core_rodata_start im) "mmu: segments overlap (core_text/core_rodata)") ;;;
  let after_rodata := if nonempty (core_rodata_start im) (core_rodata_end im) then core_rodata_end im else after_rodata in
  assert_that (after_rodata <=? data_start im) "mmu: segments overlap (core_rodata/data)" ;;;
  let after_data := data_end im in
  when (nonempty (core_data_start im) (core_data_end im))
    (assert_that (data_end im <=? core_data_start im) "mmu: segments overlap (data/core_data)") ;;;
  let after_data := if nonempty (core_data_start im) (core_data_end im) then core_data_end im else after_data in
  assert_that (after_data <=? bss_start im) "mmu: segments overlap (core_data/bss)" ;;;
  when (nonempty (core_bss_start im) (core_bss_end im))
    (assert_that (bss_end im <=? core_bss_start im) "mmu: segments overlap (bss/core_bss)").

Definition mmu_assert_layout_and_wx : M mmu_state unit :=
  assert_layout ;;;
  mmu_expect_page (text_start im) true true false ;;;
  mmu_expect_page (rodata_start im) false true false ;;;
  mmu_expect_page (data_start im) false false false ;;;
  mmu_expect_page (bss_start im) false false false ;;;
  when (nonempty (core_text_start im) (core_text_end im)) (mmu_expect_page (core_text_start im) true true false) ;;;
  when (nonempty (core_rodata_start im) (core_rodata_end im)) (mmu_expect_page (core_rodata_start im) false true false) ;;;
  when (nonempty (core_data_start im) (core_data_end im)) (mmu_expect_page (core_data_start im) false false false) ;;;
  when (nonempty (core_bss_start im) (core_bss_end im)) (mmu_expect_page (core_bss_start im) false false false) ;;;
  mmu_expect_page (0xFFFF800000000000 + 0x0000000009000000) false false true.

Definition mmu_init (d : dtb_results) : M mmu_state unit :=
  build_tables d ;;;
  switch_tables ;;;
  mmu_assert_layout_and_wx.
End ops.

(** ** Descriptor bits *)

(** A physical page address: bits 12 to 47. *)
Definition frame (pa : Z) : Prop := 0 ≤ pa < 2 ^ 48 ∧ pa mod 4096 = 0.

(** Does a mask avoid the address bits? *)
Definition off_frame (k : Z) : bool := forallb (λ n, negb (Z.testbit k n)) (seqZ 12 36).

Lemma off_frame_spec k n : off_frame k = true → 12 ≤ n < 48 → Z.testbit k n = false.
Proof.
  unfold off_frame. rewrite forallb_forall. intros H Hn. specialize (H n).
  rewrite negb_true_iff in H. apply H. apply list_elem_of_In, elem_of_seqZ. lia.
Qed.

Lemma frame_bit pa n : frame pa → 0 ≤ n → Z.testbit pa n = true → 12 ≤ n < 48.
Proof.
  intros [Hr Hm] Hn Hb. split.
  - destruct (Z.lt_ge_cases n 12) as [Hlt|]; [|done]. exfalso.
    rewrite <- (Z.mod_pow2_bits_low pa 12 n Hlt) in Hb. change (2 ^ 12) with 4096 in Hb. by rewrite Hm, Z.bits_0 in Hb.
  - destruct (Z.lt_ge_cases n 48) as [|Hge]; [done|]. exfalso.
    rewrite <- (Z.mod_small pa (2 ^ 48)) in Hb by done. by rewrite Z.mod_pow2_bits_high in Hb by lia.
Qed.

Lemma frame_land pa k : frame pa → off_frame k = true → Z.land pa k = 0.
Proof.
  intros Hf Hk. apply Z.bits_inj'. intros n Hn. rewrite Z.land_spec, Z.bits_0.
  destruct (Z.testbit pa n) eqn:E; [|done]. cbn. apply (off_frame_spec k); [done|]. by apply (frame_bit pa).
Qed.

Lemma frame_keep pa k : frame pa → off_frame k = true → Z.land pa (u64_not k) = pa.
Proof.
  intros Hf Hk. apply Z.bits_inj'. intros n Hn. rewrite Z.land_spec. unfold u64_not, u64.
  destruct (Z.testbit pa n) eqn:E; [|done]. cbn. pose proof (frame_bit pa n Hf Hn E).
  rewrite Z.mod_pow2_bits_low, Z.lnot_spec by lia. by rewrite (off_frame_spec k n).
Qed.

Lemma frame_lor pa k : frame pa → off_frame k = true → Z.lor pa k = pa + k.
Proof. intros Hf Hk. pose proof (Z.add_lor_land pa k). rewrite (frame_land pa k Hf Hk) in *. lia. Qed.

Lemma frame_addr pa k : frame pa → off_frame k = true → desc_addr (Z.lor pa k) = pa.
Proof.
  intros Hf Hk. unfold desc_addr. rewrite Z.land_lor_distr_l.
  assert (∀ n, 0 ≤ n → Z.testbit 0x0000FFFFFFFFF000 n = bool_decide (12 ≤ n < 48)) as Hmask.
  { intros n Hn. change 0x0000FFFFFFFFF000 with (Z.shiftl (Z.ones 36) 12). rewrite Z.shiftl_spec by done.
    case_bool_decide; [rewrite Z.ones_spec_low; [done|lia]|].
    destruct (Z.lt_ge_cases (n - 12) 0); [by rewrite Z.testbit_neg_r|rewrite Z.ones_spec_high; [done|lia]]. }
  assert (Z.land pa 0x0000FFFFFFFFF000 = pa) as ->.
  { apply Z.bits_inj'. intros n Hn. rewrite Z.land_spec, Hmask by done. destruct (Z.testbit pa n) eqn:E; [|done]. cbn.
    apply bool_decide_eq_true_2. by apply (frame_bit pa). }
  assert (Z.land k 0x0000FFFFFFFFF000 = 0) as ->; [|apply Z.lor_0_r].
  apply Z.bits_inj'. intros n Hn. rewrite Z.land_spec, Hmask, Z.bits_0 by done.
  case_bool_decide; [by rewrite (off_frame_spec k n)|by rewrite andb_false_r].
Qed.

(** A field outside the address bits does not see the address. *)
Lemma frame_field pa k i w : frame pa → 0 ≤ i → off_frame (Z.shiftl w i) = true →
  Z.land (Z.shiftr (Z.lor pa k) i) w = Z.land (Z.shiftr k i) w.
Proof.
  intros Hf Hi Hw. rewrite Z.shiftr_lor, Z.land_lor_distr_l.
  enough (Z.land (Z.shiftr pa i) w = 0) as -> by apply Z.lor_0_l.
  apply Z.bits_inj'. intros n Hn. rewrite Z.land_spec, Z.shiftr_spec, Z.bits_0 by done.
  destruct (Z.testbit pa (n + i)) eqn:E; [|done]. cbn. apply frame_bit in E; [|done|lia].
  pose proof (off_frame_spec _ (n + i) Hw E) as Hb. rewrite Z.shiftl_spec in Hb by lia. by replace (n + i - i) with n in Hb by lia.
Qed.

Lemma frame_type pa k : frame pa → desc_type (Z.lor pa k) = desc_type k.
Proof.
  intros Hf. pose proof (frame_field pa k 0 3 Hf ltac:(lia) ltac:(by vm_compute)) as H. by rewrite !Z.shiftr_0_r in H.
Qed.
Lemma frame_perms pa k : frame pa → desc_ro (Z.lor pa k) = desc_ro k ∧ desc_exec (Z.lor pa k) = desc_exec k ∧ desc_device (Z.lor pa k) = desc_device k.
Proof.
  intros Hf. unfold desc_ro, desc_exec, desc_device. rewrite !(frame_field pa k) by (try done; vm_compute; reflexivity). done.
Qed.

(** Attribute bits of the three kinds of pages and of a block. *)
Definition RW_BITS : Z := 0x703 + 3 * 2 ^ 53.
Definition RO_BITS : Z := 0x783 + 3 * 2 ^ 53.
Definition EXEC_BITS : Z := 0x783.
Definition BLOCK_BITS : Z := 0x701 + 3 * 2 ^ 53.

Definition inside (im : image) (lo hi pa : Z) : bool := (virt_to_phys lo <=? pa) && (pa <? virt_to_phys hi).
Definition page_bits (im : image) (pa : Z) : Z :=
  if pa =? Z.land (virt_to_phys (kernel_vectors im)) (u64_not 0xFFF) then EXEC_BITS
  else if inside im (text_start im) (text_end im) pa then EXEC_BITS
  else if inside im (rodata_start im) (rodata_end im) pa then RO_BITS
  else if inside im (core_text_start im) (core_text_end im) pa then EXEC_BITS
  else if inside im (core_rodata_start im) (core_rodata_end im) pa then RO_BITS
  else RW_BITS.

Lemma block_desc_eq pa : block_desc pa = Z.lor pa BLOCK_BITS.
Proof. unfold block_desc. rewrite <- !Z.lor_assoc. reflexivity. Qed.

Lemma page_desc_eq im pa : frame pa → page_desc im pa = Z.lor pa (page_bits im pa).
Proof.
  intros Hf. unfold page_desc, page_bits. cbv zeta. fold (inside im (text_start im) (text_end im) pa)
    (inside im (rodata_start im) (rodata_end im) pa) (inside im (core_text_start im) (core_text_end im) pa)
    (inside im (core_rodata_start im) (core_rodata_end im) pa).
  set (b := 0x700 + 3 * 2 ^ 53).
  assert (Z.lor (Z.lor (Z.lor (Z.lor (Z.lor pa ATTRINDX_NORMAL) SH_INNER) AF) (Z.shiftl 0 6)) XN_BITS = Z.lor pa b) as ->
    by (rewrite <- !Z.lor_assoc; reflexivity).
  assert (Z.lor (Z.land (Z.land (Z.lor pa b) (u64_not XN_BITS)) (u64_not AP_MASK)) AP_RO_EL1 =
    Z.lor pa (Z.lor (Z.land (Z.land b (u64_not XN_BITS)) (u64_not AP_MASK)) AP_RO_EL1)) as ->.
  { rewrite !Z.land_lor_distr_l, !(frame_keep pa) by (done || by vm_compute). by rewrite Z.lor_assoc. }
  assert (Z.lor (Z.land (Z.lor pa b) (u64_not AP_MASK)) AP_RO_EL1 = Z.lor pa (Z.lor (Z.land b (u64_not AP_MASK)) AP_RO_EL1)) as ->.
  { rewrite !Z.land_lor_distr_l, !(frame_keep pa) by (done || by vm_compute). by rewrite Z.lor_assoc. }
  repeat case_match; rewrite <- Z.lor_assoc; reflexivity.
Qed.

Lemma page_bits_cases im pa : page_bits im pa = EXEC_BITS ∨ page_bits im pa = RO_BITS ∨ page_bits im pa = RW_BITS.
Proof. unfold page_bits. repeat case_match; auto. Qed.
