(* ===== verification/MmuTables.v ===== *)
(** * The tables mmu.c builds: invariant, translation, write-xor-execute

    Where the words of the static tables are, what they hold after any number
    of mapped blocks, what a table walk finds, and that [mmu_init] returns with
    no address both writable and executable. *)

From S2P Require Import Prelude Irq Addr Platform Mmu.

(** ** Tables in memory *)

(** Where the linker put the static tables: page-aligned, apart, inside the
    direct-mapped RAM window. *)
Record image_ok (im : image) : Prop := {
  io_window : ∀ b n, (b, n) ∈ [(l0_table im, 1); (l1_table im, 1); (l2_tables im, MAX_L2_TABLES); (l3_pool im, L3_POOL_TABLES)] →
    page_aligned b ∧ CAPAZ_HH_RAM_BASE ≤ b ∧ b + 4096 * n ≤ CAPAZ_HH_RAM_BASE + CAPAZ_RAM_DIRECTMAP_SIZE;
  io_apart : l0_table im ≠ l1_table im ∧
    (∀ j, 0 ≤ j < MAX_L2_TABLES → l2_tables im + 4096 * j ≠ l0_table im ∧ l2_tables im + 4096 * j ≠ l1_table im) ∧
    (∀ j, 0 ≤ j < L3_POOL_TABLES → l3_pool im + 4096 * j ≠ l0_table im ∧ l3_pool im + 4096 * j ≠ l1_table im) ∧
    (∀ i j, 0 ≤ i < MAX_L2_TABLES → 0 ≤ j < L3_POOL_TABLES → l2_tables im + 4096 * i ≠ l3_pool im + 4096 * j);
}.

(** The base of a table. *)
Inductive table := T0 | T1 | T2 (j : Z) | T3 (j : Z).
#[global] Instance table_eq_dec : EqDecision table.
Proof. solve_decision. Defined.
Definition tbase (im : image) (t : table) : Z :=
  match t with T0 => l0_table im | T1 => l1_table im | T2 j => l2_tables im + 4096 * j | T3 j => l3_pool im + 4096 * j end.
Definition tvalid (t : table) : Prop :=
  match t with T0 | T1 => True | T2 j => 0 ≤ j < MAX_L2_TABLES | T3 j => 0 ≤ j < L3_POOL_TABLES end.

Section tables.
Context (im : image) (Him : image_ok im).

Lemma tbase_window t : tvalid t → page_aligned (tbase im t) ∧ CAPAZ_HH_RAM_BASE ≤ tbase im t ∧
  tbase im t + 4096 ≤ CAPAZ_HH_RAM_BASE + CAPAZ_RAM_DIRECTMAP_SIZE.
Proof.
  intros Ht. pose proof (io_window im Him) as Hw. destruct t as [| |j|j]; cbn [tvalid tbase] in Ht |- *; unfold MAX_L2_TABLES, L3_POOL_TABLES in *.
  - destruct (Hw (l0_table im) 1) as (? & ? & ?); [set_solver|]. split_and!; [done|lia|lia].
  - destruct (Hw (l1_table im) 1) as (? & ? & ?); [set_solver|]. split_and!; [done|lia|lia].
  - destruct (Hw (l2_tables im) 128) as (Ha & ? & ?); [set_solver|]. split_and!; [|lia|lia]. unfold page_aligned, PAGE_SIZE in *.
    rewrite Z.mul_comm, Z_mod_plus_full. done.
  - destruct (Hw (l3_pool im) 64) as (Ha & ? & ?); [set_solver|]. split_and!; [|lia|lia]. unfold page_aligned, PAGE_SIZE in *.
    rewrite Z.mul_comm, Z_mod_plus_full. done.
Qed.

Lemma tbase_inj t u : tvalid t → tvalid u → tbase im t = tbase im u → t = u.
Proof.
  destruct (io_apart im Him) as (H01 & H2 & H3 & H23). intros Ht Hu E.
  destruct t as [| |j|j], u as [| |k|k]; cbn in Ht, Hu, E; try done; try (f_equal; lia); exfalso;
    try (specialize (H2 _ Ht); lia); try (specialize (H2 _ Hu); lia); try (specialize (H3 _ Ht); lia); try (specialize (H3 _ Hu); lia).
  - by apply (H23 j k).
  - by apply (H23 k j).
Qed.

Definition word (t : table) (i : Z) : Z := tbase im t + 8 * i.

Lemma word_inj t u i j : tvalid t → tvalid u → 0 ≤ i < 512 → 0 ≤ j < 512 → word t i = word u j → t = u ∧ i = j.
Proof.
  intros Ht Hu Hi Hj E. unfold word in E. destruct (tbase_window t Ht) as (Ha & _). destruct (tbase_window u Hu) as (Hb & _).
  assert (tbase im t = tbase im u) as Eb by page_arith. split; [by apply tbase_inj|lia].
Qed.

(** Table descriptors lead back to the table. *)
Lemma virt_to_phys_eq v : CAPAZ_HH_RAM_BASE ≤ v < 2 ^ 64 → virt_to_phys v = v - CAPAZ_HH_BASE.
Proof.
  intros Hv. unfold virt_to_phys, hh_virt_to_phys. destruct (Z.leb_spec CAPAZ_HH_RAM_BASE v); [|lia].
  change CAPAZ_HH_RAM_BASE with 0xFFFF800040000000 in *. unfold CAPAZ_HH_BASE, CAPAZ_RAM_BASE.
  rewrite (u64_small (v - _)) by lia. rewrite u64_small by lia. lia.
Qed.

Lemma table_frame t : tvalid t → frame (virt_to_phys (tbase im t)) ∧ mmu_pa_to_va (virt_to_phys (tbase im t)) = tbase im t.
Proof.
  intros Ht. destruct (tbase_window t Ht) as (Ha & Hlo & Hhi). change CAPAZ_HH_RAM_BASE with 0xFFFF800040000000 in *.
  unfold CAPAZ_RAM_DIRECTMAP_SIZE in *. rewrite virt_to_phys_eq by (change CAPAZ_HH_RAM_BASE with 0xFFFF800040000000; lia).
  unfold CAPAZ_HH_BASE. split; [split; [lia|page_arith]|]. unfold mmu_pa_to_va.
  rewrite phys_to_hh_virt_eq by (rewrite WIN_END_eq; unfold CAPAZ_RAM_BASE; lia). unfold CAPAZ_HH_BASE. lia.
Qed.

Definition table_desc (t : table) : Z := Z.lor (virt_to_phys (tbase im t)) DESC_TABLE.

Lemma table_desc_facts t : tvalid t → table_desc t ≠ 0 ∧ desc_type (table_desc t) = DESC_TABLE ∧
  mmu_pa_to_va (desc_addr (table_desc t)) = tbase im t.
Proof.
  intros Ht. destruct (table_frame t Ht) as [Hf Hv]. unfold table_desc. split_and!.
  - rewrite frame_lor by (done || by vm_compute). unfold DESC_TABLE. destruct Hf; lia.
  - by rewrite frame_type.
  - by rewrite frame_addr by (done || by vm_compute).
Qed.
End tables.

(** *** Writing a table *)

Definition with_pt (m : gmap Z Z) (s : mmu_state) : mmu_state :=
  mkMmu m (l2_tables_used s) (l2_for_l1 s) (l3_pool_used s) (alloc_phys s) (alloc_virt s) (regs s).

Lemma wp_wr a v Q c s : is_Some (pt s !! a) → Q tt c (with_pt (<[a := v]> (pt s)) s) → wp (wr a v) Q c s.
Proof. intros [x Hx] HQ. unfold wr. wp_steps. rewrite Hx. by wp_steps. Qed.

Lemma wp_fill_loop tbl f n : ∀ i Q c s, (∀ k, i ≤ k < i + Z.of_nat n → is_Some (pt s !! (tbl + 8 * k))) →
  (∀ m, (∀ k, i ≤ k < i + Z.of_nat n → m !! (tbl + 8 * k) = Some (f k)) →
     (∀ a, (∀ k, i ≤ k < i + Z.of_nat n → a ≠ tbl + 8 * k) → m !! a = pt s !! a) → Q tt c (with_pt m s)) →
  wp (fill_loop tbl f i n) Q c s.
Proof.
  induction n as [|n IH]; intros i Q c s Hd HQ; cbn [fill_loop].
  - wp_steps. replace s with (with_pt (pt s) s) by (by destruct s). apply HQ; [lia|done].
  - wp_step. apply wp_wr; [apply Hd; lia|]. apply IH.
    + intros k Hk. cbn. rewrite lookup_insert_ne by lia. apply Hd. lia.
    + intros m Hm Ho. cbn [pt with_pt] in Ho. change (Q tt c (with_pt m s)). apply HQ.
      * intros k Hk. destruct (decide (k = i)) as [->|Hne]; [|apply Hm; lia]. rewrite Ho by lia. apply lookup_insert_eq.
      * intros a Ha. rewrite Ho by (intros k Hk; apply Ha; lia). apply lookup_insert_ne. apply not_eq_sym, Ha. lia.
Qed.

(** ** What the tables say

    [ix] maps a first-level index to the number of its second-level table,
    [vis] is the set of 2 MiB blocks mapped so far. *)

Section inv.
Context (im : image) (Him : image_ok im).

Definition block_entry (m : gmap Z Z) (used3 : Z) (vis : gset Z) (pa e : Z) : Prop :=
  if decide (pa ∈ vis) then
    if overlaps_kernel im pa then
      ∃ j, 0 ≤ j < used3 ∧ e = table_desc im (T3 j) ∧
        ∀ p, 0 ≤ p < 512 → m !! word im (T3 j) p = Some (page_desc im (pa + 4096 * p))
    else e = block_desc pa
  else e = 0.

Definition block_at (i k : Z) : Z := i * 2 ^ 30 + k * 2 ^ 21.

Record pt_inv (s : mmu_state) (ix : gmap Z Z) (vis : gset Z) : Prop := {
  pi_words : ∀ t i, tvalid t → 0 ≤ i < 512 → is_Some (pt s !! word im t i);
  pi_l0 : ∀ i, 0 ≤ i < 512 → pt s !! word im T0 i = Some (if decide (i = 256) then table_desc im T1 else 0);
  pi_l1 : ∀ i, 0 ≤ i < 512 → pt s !! word im T1 i =
    Some (if decide (i = 0) then dev_desc else match ix !! i with Some j => table_desc im (T2 j) | None => 0 end);
  pi_for : ∀ i, 0 ≤ i < 512 → l2_for_l1 s !! Z.to_nat i = Some (match ix !! i with Some j => tbase im (T2 j) | None => 0 end);
  pi_ix : ∀ i j, ix !! i = Some j → 1 ≤ i < MAX_L2_TABLES ∧ 0 ≤ j < l2_tables_used s;
  pi_inj : ∀ i i' j, ix !! i = Some j → ix !! i' = Some j → i = i';
  pi_used : l2_tables_used s = card (dom ix) ∧ l2_tables_used s ≤ MAX_L2_TABLES;
  pi_l3 : 0 ≤ l3_pool_used s ≤ L3_POOL_TABLES;
  pi_l2 : ∀ i j k, ix !! i = Some j → 0 ≤ k < 512 →
    ∃ e, pt s !! word im (T2 j) k = Some e ∧ block_entry (pt s) (l3_pool_used s) vis (block_at i k) e;
  pi_vis : ∀ pa, pa ∈ vis → is_Some (ix !! (pa / 2 ^ 30));
}.

Lemma block_at_index i k : 0 ≤ k < 512 → block_at i k / 2 ^ 30 = i.
Proof. intros Hk. unfold block_at. rewrite Z.add_comm, Z.div_add by lia. rewrite Z.div_small; lia. Qed.
Lemma block_at_inj i k i' k' : 0 ≤ k < 512 → 0 ≤ k' < 512 → block_at i k = block_at i' k' → i = i' ∧ k = k'.
Proof.
  intros Hk Hk' E. pose proof (block_at_index i k Hk). pose proof (block_at_index i' k' Hk'). rewrite E in *.
  unfold block_at in E. lia.
Qed.

Lemma entry_frame m m' used used' vis pa e : (∀ j p, 0 ≤ j < used → 0 ≤ p < 512 → m' !! word im (T3 j) p = m !! word im (T3 j) p) →
  used ≤ used' → block_entry m used vis pa e → block_entry m' used' vis pa e.
Proof.
  intros Hm Hu. unfold block_entry. case_decide; [|done]. destruct (overlaps_kernel im pa); [|done].
  intros (j & Hj & -> & Hp). exists j. split_and!; [lia|lia|done|]. intros p Hp'. rewrite Hm by lia. by apply Hp.
Qed.

(** A table of the third level that is not yet in use is written. *)
Lemma inv_fill_l3 s ix vis m used : pt_inv s ix vis → l3_pool_used s ≤ used ≤ L3_POOL_TABLES →
  (∀ t i, tvalid t → 0 ≤ i < 512 → (∀ j, l3_pool_used s ≤ j → t ≠ T3 j) → m !! word im t i = pt s !! word im t i) →
  (∀ t i, tvalid t → 0 ≤ i < 512 → is_Some (m !! word im t i)) →
  pt_inv (mkMmu m (l2_tables_used s) (l2_for_l1 s) used (alloc_phys s) (alloc_virt s) (regs s)) ix vis.
Proof.
  intros [Hw H0 H1 Hf Hi Hj Hu H3 H2 Hv] Hused Hm Hall. split; cbn; try done.
  - intros i Hr. by rewrite Hm, H0.
  - intros i Hr. by rewrite Hm, H1.
  - lia.
  - intros i j k Hij Hk. destruct (H2 i j k Hij Hk) as (e & He & Hb). exists e. destruct (Hi i j Hij) as [_ Hjr].
    rewrite (Hm (T2 j) k); [|cbn; lia|done|done]. split; [done|]. eapply entry_frame; [|apply Hused|exact Hb].
    intros j' p Hj' Hp. apply Hm; [cbn; lia|done|]. intros j0 Hj0 [= ->]. lia.
Qed.

(** The entry of a block is written. *)
Lemma inv_set_entry s ix vis i j k e : pt_inv s ix vis → ix !! i = Some j → 0 ≤ k < 512 →
  block_entry (pt s) (l3_pool_used s) ({[block_at i k]} ∪ vis) (block_at i k) e →
  pt_inv (with_pt (<[word im (T2 j) k := e]> (pt s)) s) ix ({[block_at i k]} ∪ vis).
Proof.
  intros I Hij Hk He. pose proof I as [Hw H0 H1 Hf Hi Hj Hu H3 H2 Hv]. destruct (Hi i j Hij) as [Hir Hjr].
  assert (tvalid (T2 j)) as Hval by (cbn; lia).
  assert (∀ t n, tvalid t → 0 ≤ n < 512 → (t, n) ≠ (T2 j, k) → <[word im (T2 j) k := e]> (pt s) !! word im t n = pt s !! word im t n) as Hm.
  { intros t n Ht Hn Hne. apply lookup_insert_ne. intros E. destruct (word_inj im Him (T2 j) t k n Hval Ht Hk Hn E) as [<- <-]. done. }
  assert (∀ j' p, 0 ≤ j' < l3_pool_used s → 0 ≤ p < 512 →
    <[word im (T2 j) k := e]> (pt s) !! word im (T3 j') p = pt s !! word im (T3 j') p) as Hm3 by (intros; apply Hm; [cbn; lia|done|done]).
  split; cbn; try done.
  - intros t n Ht Hn. destruct (decide (word im t n = word im (T2 j) k)) as [->|Hne]; [rewrite lookup_insert_eq; by eexists|].
    rewrite lookup_insert_ne by done. by apply Hw.
  - intros n Hn. by rewrite Hm, H0.
  - intros n Hn. by rewrite Hm, H1.
  - intros i' j' k' Hij' Hk'. destruct (decide ((j', k') = (j, k))) as [[= -> ->]|Hne].
    + rewrite lookup_insert_eq. exists e. split; [done|]. rewrite (Hj i' i j Hij' Hij). by eapply entry_frame.
    + destruct (Hi i' j' Hij') as [_ Hjr']. rewrite (Hm (T2 j') k'); [|cbn; lia|done|congruence]. destruct (H2 i' j' k' Hij' Hk') as (e' & He' & Hb').
      exists e'. split; [done|]. eapply entry_frame; [done|done|]. unfold block_entry in Hb' |- *.
      assert (block_at i' k' ≠ block_at i k) as Hba.
      { intros E. destruct (block_at_inj i' k' i k Hk' Hk E) as [-> ->]. congruence. }
      destruct (decide (block_at i' k' ∈ vis)); [rewrite decide_True by set_solver|rewrite decide_False by set_solver]; done.
  - intros pa [->%elem_of_singleton|Hpa]%elem_of_union; [|by apply Hv]. rewrite block_at_index by done. by eexists.
Qed.

(** A second-level table is allocated and cleared. *)
Lemma inv_new_l2 s ix vis i m : pt_inv s ix vis → ix !! i = None → 1 ≤ i < MAX_L2_TABLES → l2_tables_used s < MAX_L2_TABLES →
  (∀ k, 0 ≤ k < 512 → m !! word im (T2 (l2_tables_used s)) k = Some 0) →
  (∀ t k, tvalid t → 0 ≤ k < 512 → t ≠ T2 (l2_tables_used s) → (t, k) ≠ (T1, i) → m !! word im t k = pt s !! word im t k) →
  m !! word im T1 i = Some (table_desc im (T2 (l2_tables_used s))) →
  pt_inv (mkMmu m (l2_tables_used s + 1) (<[Z.to_nat i := tbase im (T2 (l2_tables_used s))]> (l2_for_l1 s)) (l3_pool_used s)
    (alloc_phys s) (alloc_virt s) (regs s)) (<[i := l2_tables_used s]> ix) vis.
Proof.
  intros [Hw H0 H1 Hf Hi Hj Hu H3 H2 Hv] Hnew Hir Hused Hz Hm Hd. set (u := l2_tables_used s) in *.
  assert (0 ≤ u) as Hu0 by (destruct Hu as [-> _]; apply card_nonneg).
  assert (∀ j p, 0 ≤ j < l3_pool_used s → 0 ≤ p < 512 → m !! word im (T3 j) p = pt s !! word im (T3 j) p) as Hm3
    by (intros; apply Hm; [cbn; lia|done|done|done]).
  split; cbn; try done.
  - intros t k Ht Hk. destruct (decide (t = T2 u)) as [->|Hne]; [rewrite Hz by done; by eexists|].
    destruct (decide ((t, k) = (T1, i))) as [[= -> ->]|Hne']; [rewrite Hd; by eexists|]. rewrite Hm by done. by apply Hw.
  - intros k Hk. by rewrite Hm, H0.
  - intros k Hk. destruct (decide (k = i)) as [->|Hne].
    + rewrite Hd, lookup_insert_eq. by rewrite decide_False by lia.
    + rewrite Hm by (try done; congruence). by rewrite lookup_insert_ne, H1.
  - intros k Hk. destruct (decide (k = i)) as [->|Hne].
    + rewrite lookup_insert_eq. rewrite list_lookup_insert_eq; [done|]. eapply lookup_lt_Some. by apply (Hf i).
    + rewrite lookup_insert_ne, list_lookup_insert_ne by lia. by apply Hf.
  - intros k j [[<- <-]|[Hne Hkj]]%lookup_insert_Some; [lia|]. destruct (Hi k j Hkj). lia.
  - intros k k' j [[<- <-]|[Hne Hkj]]%lookup_insert_Some [[<- E]|[Hne' Hkj']]%lookup_insert_Some; try done.
    + destruct (Hi k' u Hkj'). lia.
    + destruct (Hi k j Hkj). lia.
    + by eapply Hj.
  - destruct Hu as [Hu _]. rewrite dom_insert_L, card_add, <- Hu by (by apply not_elem_of_dom). unfold MAX_L2_TABLES in *. lia.
  - intros k j p [[<- <-]|[Hne Hkj]]%lookup_insert_Some Hp.
    + exists 0. split; [by apply Hz|]. unfold block_entry. rewrite decide_False; [done|]. intros Hin%Hv.
      rewrite block_at_index in Hin by done. by rewrite Hnew in Hin; destruct Hin.
    + destruct (H2 k j p Hkj Hp) as (e & He & Hb). exists e. destruct (Hi k j Hkj) as [_ Hjr].
      rewrite (Hm (T2 j) p); [|cbn; lia|done|intros [= ->]; lia|done]. split; [done|]. by eapply entry_frame.
  - intros pa Hpa. destruct (Hv pa Hpa) as [j Hj']. destruct (decide (i = pa / 2 ^ 30)) as [<-|Hne];
      [rewrite lookup_insert_eq; by eexists|rewrite lookup_insert_ne by done; by eexists].
Qed.
End inv.

(** ** The routines on the tables *)

Section specs.
Context (im : image) (Him : image_ok im).

(** What the table code leaves alone. *)
Definition same_rest (s s' : mmu_state) : Prop :=
  regs s' = regs s ∧ alloc_phys s' = alloc_phys s ∧ alloc_virt s' = alloc_virt s.

Lemma wp_fill_table t f Q c s : tvalid t → (∀ k, 0 ≤ k < 512 → is_Some (pt s !! word im t k)) →
  (∀ m, (∀ k, 0 ≤ k < 512 → m !! word im t k = Some (f k)) →
     (∀ t' k, tvalid t' → 0 ≤ k < 512 → t' ≠ t → m !! word im t' k = pt s !! word im t' k) → Q tt c (with_pt m s)) →
  wp (fill_loop (tbase im t) f 0 512) Q c s.
Proof.
  intros Ht Hd HQ. apply wp_fill_loop; [exact Hd|]. intros m Hm Ho. apply HQ; [exact Hm|].
  intros t' k Ht' Hk Hne. apply Ho. intros k' Hk' E. by destruct (word_inj im Him t' t k k' Ht' Ht Hk Hk' E).
Qed.

Lemma ix_room s ix vis i : pt_inv im s ix vis → ix !! i = None → 1 ≤ i < MAX_L2_TABLES → l2_tables_used s < MAX_L2_TABLES.
Proof.
  intros I Hi Hr. destruct (pi_used _ _ _ _ I) as [-> _].
  assert (card ({[i]} ∪ dom ix) ≤ card (list_to_set (seqZ 1 127) : gset Z)) as Hc.
  { apply card_mono. intros k [->%elem_of_singleton|[j Hj]%elem_of_dom]%elem_of_union; apply elem_of_list_to_set, elem_of_seqZ;
      [|destruct (pi_ix _ _ _ _ I k j Hj) as [Hk _]]; unfold MAX_L2_TABLES in *; lia. }
  rewrite card_add, card_seqZ in Hc by (try lia; by apply not_elem_of_dom). unfold MAX_L2_TABLES. lia.
Qed.

Lemma wp_get_l2_for_l1 i Q c s ix vis : pt_inv im s ix vis → 1 ≤ i < MAX_L2_TABLES →
  (∀ s' ix' j, pt_inv im s' ix' vis → ix' !! i = Some j → l3_pool_used s' = l3_pool_used s → same_rest s s' →
     Q (tbase im (T2 j)) c s') →
  wp (get_l2_for_l1 im i) Q c s.
Proof.
  intros I Hi HQ. unfold get_l2_for_l1. wp_steps. unfold MAX_L2_TABLES in Hi.
  eapply wp_load; [apply (pi_for _ _ _ _ I); lia|]. destruct (ix !! i) as [j|] eqn:Hj.
  - destruct (Z.eqb_spec (tbase im (T2 j)) 0) as [E|_].
    { exfalso. destruct (pi_ix _ _ _ _ I i j Hj) as [_ Hjr]. destruct (pi_used _ _ _ _ I) as [_ Hu].
      destruct (tbase_window im Him (T2 j)) as (_ & Hw & _); [cbn; lia|]. rewrite E in Hw. by vm_compute in Hw. }
    wp_steps. by apply (HQ s ix j).
  - cbn [Z.eqb]. unfold alloc_l2. wp_steps. pose proof (ix_room s ix vis i I Hj Hi) as Hroom.
    rewrite (proj2 (Z.leb_gt _ _) Hroom). wp_steps. destruct (pi_used _ _ _ _ I) as [Hu _].
    pose proof (card_nonneg (dom ix)). set (u := l2_tables_used s) in *.
    assert (tvalid (T2 u)) as Hv by (cbn; lia). change (l2_tables im + 4096 * u) with (tbase im (T2 u)).
    apply wp_fill_table; [done|intros k Hk; by apply (pi_words _ _ _ _ I)|]. intros m Hm Ho. wp_steps.
    change (l1_table im + 8 * i) with (word im T1 i). apply wp_wr.
    { cbn. rewrite (Ho T1 i) by (done || lia). by apply (pi_words _ _ _ _ I); [|lia]. }
    wp_steps. apply (HQ _ (<[i := u]> ix)); [|apply lookup_insert_eq|done|done].
    apply (inv_new_l2 im s ix vis i); [done..| | |].
    + intros k Hk. cbn. rewrite lookup_insert_ne; [by apply Hm|]. intros E.
      destruct (word_inj im Him T1 (T2 u) i k) as [? _]; [done|done|lia|done|done|done].
    + intros t k Ht Hk Hne Hne'. cbn. rewrite lookup_insert_ne; [by apply Ho|]. intros E.
      destruct (word_inj im Him T1 t i k) as [<- <-]; [done|done|lia|done|done|done].
    + cbn. apply lookup_insert_eq.
Qed.

(** *** Blocks *)

Definition BLOCK : Z := 2 ^ 21.

Lemma block_split pa : 0 ≤ pa → pa mod BLOCK = 0 →
  pa = block_at (Z.shiftr pa 30) (Z.land pa (L1_BLOCK_SIZE - 1) / RAM_BLOCK_SIZE) ∧
  0 ≤ Z.land pa (L1_BLOCK_SIZE - 1) / RAM_BLOCK_SIZE < 512.
Proof.
  intros H0 Ha. unfold BLOCK, block_at, L1_BLOCK_SIZE, RAM_BLOCK_SIZE in *. change (2 ^ 30 - 1) with (Z.ones 30).
  rewrite Z.land_ones, Z.shiftr_div_pow2 by lia. Z.div_mod_to_equations. lia.
Qed.

(** A table of the third level is taken and filled. *)
Lemma wp_new_l3 f (k : Z → M mmu_state unit) Q c s ix vis : pt_inv im s ix vis → l3_pool_used s < L3_POOL_TABLES →
  (∀ s', pt_inv im s' ix vis → l3_pool_used s' = l3_pool_used s + 1 → same_rest s s' →
     (∀ p, 0 ≤ p < 512 → pt s' !! word im (T3 (l3_pool_used s)) p = Some (f p)) → wp (k (tbase im (T3 (l3_pool_used s)))) Q c s') →
  wp (l3 <- alloc_l3 im ;; fill_loop l3 f 0 512 ;;; k l3) Q c s.
Proof.
  intros I Hroom HQ. unfold alloc_l3. wp_steps. rewrite (proj2 (Z.leb_gt _ _) Hroom). wp_steps.
  pose proof (pi_l3 _ _ _ _ I) as H3. set (u := l3_pool_used s) in *. assert (tvalid (T3 u)) as Hv by (cbn; lia).
  change (l3_pool im + 4096 * u) with (tbase im (T3 u)).
  apply wp_fill_table; [done|intros n Hn; by apply (pi_words _ _ _ _ I)|]. intros m Hz Ho. wp_steps.
  apply wp_fill_table; [done|intros n Hn; cbn; rewrite Hz by done; by eexists|]. intros m' Hm' Ho'. cbn [pt with_pt] in Ho'.
  apply HQ; [|done|done|exact Hm'].
  apply (inv_fill_l3 im s ix vis); [done|cbn; fold u; lia| |].
  - intros t n Ht Hn Hne. rewrite Ho', Ho; try done; by apply Hne.
  - intros t n Ht Hn. destruct (decide (t = T3 u)) as [->|Hne]; [rewrite Hm' by done; by eexists|].
    rewrite Ho', Ho by done. by apply (pi_words _ _ _ _ I).
Qed.

Definition kernel_tables (pa : Z) : Z := if overlaps_kernel im pa then 1 else 0.

Lemma wp_map_block pa Q c s ix vis : pt_inv im s ix vis → pa mod BLOCK = 0 → 2 ^ 30 ≤ pa < 2 ^ 37 →
  l3_pool_used s + kernel_tables pa ≤ L3_POOL_TABLES →
  (∀ s' ix', pt_inv im s' ix' ({[pa]} ∪ vis) → l3_pool_used s' = l3_pool_used s + kernel_tables pa → same_rest s s' → Q tt c s') →
  wp (map_block im pa) Q c s.
Proof.
  intros I Ha Hr Hroom HQ. destruct (block_split pa ltac:(lia) Ha) as [Epa Hk]. unfold map_block. cbv zeta.
  set (k := Z.land pa (L1_BLOCK_SIZE - 1) / RAM_BLOCK_SIZE) in *.
  assert (1 ≤ Z.shiftr pa 30 < MAX_L2_TABLES) as Hi.
  { unfold MAX_L2_TABLES. rewrite Z.shiftr_div_pow2 by lia. Z.div_mod_to_equations. lia. }
  set (i := Z.shiftr pa 30) in *. unfold MAX_L2_TABLES in Hi.
  destruct (Z.eqb_spec i 0); [lia|]. destruct (Z.leb_spec 512 i); [lia|]. cbn [orb].
  wp_step. eapply wp_get_l2_for_l1; [exact I|done|]. intros s1 ix1 j I1 Hj E3 Hrest.
  destruct (pi_ix _ _ _ _ I1 i j Hj) as [_ Hjr]. destruct (pi_used _ _ _ _ I1) as [_ Hu].
  unfold kernel_tables in *. change (tbase im (T2 j) + 8 * k) with (word im (T2 j) k).
  destruct (overlaps_kernel im pa) eqn:Eo.
  - eapply wp_new_l3; [exact I1|lia|]. intros s2 I2 E3' Hrest' Hp.
    apply wp_wr; [apply (pi_words _ _ _ _ I2); [cbn; lia|done]|]. eapply (HQ _ ix1); [|cbn; lia|].
    + rewrite Epa at 1. apply inv_set_entry; [done..|]. rewrite <- Epa. unfold block_entry. rewrite decide_True by (by apply elem_of_union_l, elem_of_singleton_2).
      rewrite Eo. exists (l3_pool_used s1). pose proof (pi_l3 _ _ _ _ I1). split_and!; [lia|lia|done|].
      intros p Hp'. rewrite Hp by done. by rewrite u64_small by lia.
    + destruct Hrest as (? & ? & ?), Hrest' as (? & ? & ?). split_and!; cbn; congruence.
  - apply wp_wr; [apply (pi_words _ _ _ _ I1); [cbn; lia|done]|]. eapply (HQ _ ix1); [|cbn; lia|done]. rewrite Epa at 2. apply inv_set_entry; [done..|].
    rewrite <- Epa. unfold block_entry. rewrite decide_True by (by apply elem_of_union_l, elem_of_singleton_2). by rewrite Eo.
Qed.
(** *** Ranges *)

Fixpoint blocks_from (pa : Z) (n : nat) : list Z :=
  match n with O => [] | S n => pa :: blocks_from (pa + BLOCK) n end.

(** The blocks a range is mapped with: rounded outwards to 2 MiB, from the
    start of RAM on. *)
Definition range_blocks (r : dtb_range) : list Z :=
  if base r + size r <=? CAPAZ_RAM_BASE then []
  else
    let lo := Z.max (base r) CAPAZ_RAM_BASE / BLOCK in
    let hi := (base r + size r + (BLOCK - 1)) / BLOCK in
    blocks_from (lo * BLOCK) (Z.to_nat (hi - lo)).

Fixpoint ram_blocks (l : list dtb_range) : list Z :=
  match l with [] => [] | r :: l => range_blocks r ++ ram_blocks l end.

Fixpoint tables_needed (l : list Z) : Z :=
  match l with [] => 0 | pa :: l => kernel_tables pa + tables_needed l end.

Definition range_ok (r : dtb_range) : Prop := 0 ≤ base r ∧ 0 ≤ size r ∧ base r + size r ≤ 2 ^ 37.

Lemma kernel_tables_nonneg pa : 0 ≤ kernel_tables pa.
Proof. unfold kernel_tables. by destruct (overlaps_kernel im pa). Qed.
Lemma tables_needed_nonneg l : 0 ≤ tables_needed l.
Proof. induction l as [|pa l IH]; cbn [tables_needed]; [lia|]. pose proof (kernel_tables_nonneg pa). lia. Qed.
Lemma tables_needed_app l l' : tables_needed (l ++ l') = tables_needed l + tables_needed l'.
Proof. induction l as [|pa l IH]; cbn [app tables_needed]; lia. Qed.

Lemma align_2m x : 0 ≤ x → x + BLOCK ≤ 2 ^ 64 →
  align_down_2m x = x / BLOCK * BLOCK ∧ align_up_2m x = (x + (BLOCK - 1)) / BLOCK * BLOCK.
Proof.
  intros H0 Hx. unfold align_up_2m, align_down_2m. change RAM_BLOCK_SIZE with BLOCK. unfold BLOCK in *.
  rewrite (u64_small (x + _)) by lia. rewrite !(u64_land_not _ 21) by lia. Z.div_mod_to_equations. lia.
Qed.

(** What mapping a list of blocks comes to. *)
Definition mapped (s : mmu_state) (vis : gset Z) (l : list Z) (s' : mmu_state) : Prop :=
  ∃ ix', pt_inv im s' ix' (list_to_set l ∪ vis) ∧ l3_pool_used s' = l3_pool_used s + tables_needed l ∧ same_rest s s'.

Lemma same_rest_trans s1 s2 s3 : same_rest s1 s2 → same_rest s2 s3 → same_rest s1 s3.
Proof. unfold same_rest. intuition congruence. Qed.

Lemma mapped_nil s ix vis : pt_inv im s ix vis → mapped s vis [] s.
Proof.
  intros I. exists ix. split_and!; [|cbn [tables_needed]; lia|done..].
  change (pt_inv im s ix (∅ ∪ vis)). by rewrite union_empty_l_L.
Qed.

Lemma mapped_one s ix' vis pa s' : pt_inv im s' ix' ({[pa]} ∪ vis) → l3_pool_used s' = l3_pool_used s + kernel_tables pa →
  same_rest s s' → mapped s vis [pa] s'.
Proof.
  intros I E R. exists ix'. split_and!; [|cbn [tables_needed]; lia|done..].
  change (pt_inv im s' ix' ({[pa]} ∪ ∅ ∪ vis)). by rewrite union_empty_r_L.
Qed.

Lemma mapped_app s vis l1 s1 l2 s2 : mapped s vis l1 s1 → mapped s1 (list_to_set l1 ∪ vis) l2 s2 → mapped s vis (l1 ++ l2) s2.
Proof.
  intros (_ & _ & E1 & R1) (ix2 & I2 & E2 & R2). exists ix2. split_and!; [|rewrite tables_needed_app; lia|by eapply same_rest_trans].
  by replace (list_to_set (l1 ++ l2) ∪ vis) with (list_to_set l2 ∪ (list_to_set l1 ∪ vis)) by (rewrite list_to_set_app_L; set_solver).
Qed.

Lemma wp_map_blocks n : ∀ pa fuel Q c s ix vis, (n < fuel)%nat → pt_inv im s ix vis → pa mod BLOCK = 0 → 2 ^ 30 ≤ pa →
  pa + BLOCK * Z.of_nat n ≤ 2 ^ 37 → l3_pool_used s + tables_needed (blocks_from pa n) ≤ L3_POOL_TABLES →
  (∀ s', mapped s vis (blocks_from pa n) s' → Q tt c s') →
  wp (map_blocks im pa (pa + BLOCK * Z.of_nat n) fuel) Q c s.
Proof.
  induction n as [|n IH]; intros pa [|fuel] Q c s ix vis Hfuel I Ha Hlo Hhi Hroom HQ; try lia; cbn [map_blocks blocks_from tables_needed] in *.
  - rewrite (proj2 (Z.ltb_ge _ _)) by lia. wp_steps. apply HQ. by eapply mapped_nil.
  - assert (0 < BLOCK < 2 ^ 37) by (by vm_compute). rewrite (proj2 (Z.ltb_lt _ _)) by lia.
    pose proof (tables_needed_nonneg (blocks_from (pa + BLOCK) n)). wp_step.
    eapply wp_map_block; [exact I|done|lia|lia|]. intros s1 ix1 I1 E1 R1. change RAM_BLOCK_SIZE with BLOCK.
    rewrite u64_small by lia. replace (pa + BLOCK * Z.of_nat (S n)) with (pa + BLOCK + BLOCK * Z.of_nat n) by lia.
    eapply IH; [lia|exact I1| |lia|lia|lia|].
    + rewrite <- Z.add_mod_idemp_r, Z.mod_same, Z.add_0_r by lia. done.
    + intros s2 M2. apply HQ. change (pa :: ?l) with ([pa] ++ l). eapply mapped_app; [|].
      * by eapply mapped_one.
      * change (mapped s1 ({[pa]} ∪ ∅ ∪ vis) (blocks_from (pa + BLOCK) n) s2). by rewrite union_empty_r_L.
Qed.

Lemma wp_map_range r Q c s ix vis : range_ok r → pt_inv im s ix vis → l3_pool_used s + tables_needed (range_blocks r) ≤ L3_POOL_TABLES →
  (∀ s', mapped s vis (range_blocks r) s' → Q tt c s') → wp (map_range im r) Q c s.
Proof.
  intros (Hb & Hs & He) I Hroom HQ. unfold map_range, range_blocks in *. cbv zeta in *. rewrite u64_small by lia.
  destruct (Z.leb_spec (base r + size r) CAPAZ_RAM_BASE) as [Hle|Hgt].
  - wp_steps. apply HQ. by eapply mapped_nil.
  - set (lo := Z.max (base r) CAPAZ_RAM_BASE) in *.
    replace (if base r <? CAPAZ_RAM_BASE then CAPAZ_RAM_BASE else base r) with lo by (destruct (Z.ltb_spec (base r) CAPAZ_RAM_BASE); lia).
    unfold CAPAZ_RAM_BASE in *. assert (BLOCK = 2097152) as EB by reflexivity.
    destruct (align_2m lo) as [-> _]; [lia|lia|]. destruct (align_2m (base r + size r)) as [_ ->]; [lia|lia|].
    set (a := lo / BLOCK) in *. set (b := (base r + size r + (BLOCK - 1)) / BLOCK) in *.
    assert (512 ≤ a ≤ b ∧ b ≤ 65536) as Hab by (unfold a, b; rewrite EB; Z.div_mod_to_equations; lia).
    change RAM_BLOCK_SIZE with BLOCK. replace ((b * BLOCK - a * BLOCK) / BLOCK) with (b - a) by (rewrite EB; Z.div_mod_to_equations; lia).
    replace (b * BLOCK) with (a * BLOCK + BLOCK * Z.of_nat (Z.to_nat (b - a))) by lia.
    eapply wp_map_blocks; [lia|exact I|by apply Z_mod_mult|lia|lia|done|done].
Qed.

Lemma wp_map_ranges l : ∀ Q c s ix vis, Forall range_ok l → pt_inv im s ix vis → l3_pool_used s + tables_needed (ram_blocks l) ≤ L3_POOL_TABLES →
  (∀ s', mapped s vis (ram_blocks l) s' → Q tt c s') → wp (map_ranges im l) Q c s.
Proof.
  induction l as [|r l IH]; intros Q c s ix vis Hok I Hroom HQ; cbn [map_ranges ram_blocks] in *.
  - wp_steps. apply HQ. by eapply mapped_nil.
  - inversion_clear Hok as [|?? Hr Hl]. rewrite tables_needed_app in Hroom. pose proof (tables_needed_nonneg (ram_blocks l)).
    wp_step. eapply wp_map_range; [done|exact I|lia|]. intros s1 M1. pose proof M1 as (ix1 & I1 & E1 & R1).
    eapply IH; [done|exact I1|lia|]. intros s2 M2. apply HQ. by eapply mapped_app.
Qed.
End specs.

(** ** The walk *)

Section walk.
Context (im : image) (Him : image_ok im).

(** The descriptor an address translates with, when the blocks of [vis] are
    mapped. *)
Definition translation (vis : gset Z) (va : Z) : Z :=
  if negb (Z.land (Z.shiftr va 39) 0x1FF =? 256) then 0
  else
    let pa := va mod 2 ^ 39 in
    let blk := pa / BLOCK * BLOCK in
    if pa <? 2 ^ 30 then dev_desc
    else if decide (blk ∈ vis) then
      if overlaps_kernel im blk then page_desc im (pa / 4096 * 4096) else block_desc blk
    else 0.

Lemma wp_rd a v Q c s : pt s !! a = Some v → Q v c s → wp (rd a) Q c s.
Proof. intros Ha HQ. unfold rd. wp_steps. by rewrite Ha. Qed.

Lemma index_eq va k : 0 ≤ k → Z.land (Z.shiftr va k) 0x1FF = va / 2 ^ k mod 512.
Proof. intros Hk. change 0x1FF with (Z.ones 9). by rewrite Z.land_ones, Z.shiftr_div_pow2 by lia. Qed.

Lemma walk_indices va : 0 ≤ va →
  va / 2 ^ 30 mod 512 = va mod 2 ^ 39 / 2 ^ 30 ∧
  block_at (va / 2 ^ 30 mod 512) (va / 2 ^ 21 mod 512) = va mod 2 ^ 39 / BLOCK * BLOCK ∧
  va mod 2 ^ 39 / BLOCK * BLOCK + 4096 * (va / 2 ^ 12 mod 512) = va mod 2 ^ 39 / 4096 * 4096.
Proof.
  intros Hva. unfold block_at, BLOCK. change (2 ^ 39) with 549755813888. change (2 ^ 30) with 1073741824.
  change (2 ^ 21) with 2097152. change (2 ^ 12) with 4096. Z.div_mod_to_equations. lia.
Qed.

(** A page or block frame of the first 512 GiB. *)
Lemma block_frame pa : 0 ≤ pa < 2 ^ 39 → frame (pa / BLOCK * BLOCK) ∧ frame (pa / 4096 * 4096).
Proof.
  intros Hpa. unfold frame. change BLOCK with (512 * 4096). change (2 ^ 39) with 549755813888 in *. change (2 ^ 48) with 281474976710656.
  rewrite !(Z.mul_assoc _ 512), !Z_mod_mult. Z.div_mod_to_equations. lia.
Qed.

Lemma block_desc_facts pa : frame pa → block_desc pa ≠ 0 ∧ desc_type (block_desc pa) = DESC_BLOCK.
Proof.
  intros Hf. rewrite block_desc_eq. split; [|by rewrite frame_type].
  rewrite frame_lor by (done || by vm_compute). destruct Hf as [Hr _]. unfold BLOCK_BITS. lia.
Qed.

Lemma wp_lookup_desc va Q c s ix vis : pt_inv im s ix vis → 0 ≤ va → Q (translation vis va) c s → wp (mmu_lookup_desc im va) Q c s.
Proof.
  intros I Hva HQ. unfold mmu_lookup_desc, translation in *. rewrite !index_eq in * by lia.
  destruct (walk_indices va Hva) as (E1 & E2 & E3). destruct (block_frame (va mod 2 ^ 39)) as [Hf _]; [by apply Z.mod_pos_bound|].
  set (pa := va mod 2 ^ 39) in *. set (blk := pa / BLOCK * BLOCK) in *.
  pose proof (Z.mod_pos_bound (va / 2 ^ 39) 512 ltac:(lia)) as B0. pose proof (Z.mod_pos_bound (va / 2 ^ 30) 512 ltac:(lia)) as B1.
  pose proof (Z.mod_pos_bound (va / 2 ^ 21) 512 ltac:(lia)) as B2. pose proof (Z.mod_pos_bound (va / 2 ^ 12) 512 ltac:(lia)) as B3.
  set (i0 := va / 2 ^ 39 mod 512) in *. set (i1 := va / 2 ^ 30 mod 512) in *. set (i2 := va / 2 ^ 21 mod 512) in *.
  set (i3 := va / 2 ^ 12 mod 512) in *. clearbody i0 i1 i2 i3 pa.
  wp_step. eapply wp_rd; [by apply (pi_l0 _ _ _ _ I)|]. destruct (decide (i0 = 256)) as [->|Hne].
  2: { rewrite (proj2 (Z.eqb_neq _ _) Hne) in HQ. by wp_steps. }
  cbn [Z.eqb Pos.eqb negb] in HQ. destruct (table_desc_facts im Him T1 Logic.I) as (N1 & Ty1 & A1).
  rewrite (proj2 (Z.eqb_neq _ _) N1), Ty1, A1. cbn [Z.eqb Pos.eqb negb DESC_TABLE].
  wp_step. eapply wp_rd; [by apply (pi_l1 _ _ _ _ I)|].
  destruct (decide (i1 = 0)) as [->|Hi1].
  { rewrite (proj2 (Z.ltb_lt _ _)) in HQ by (Z.div_mod_to_equations; lia). exact HQ. }
  rewrite (proj2 (Z.ltb_ge _ _)) in HQ by (Z.div_mod_to_equations; lia).
  destruct (ix !! i1) as [j|] eqn:Hj.
  2: { rewrite decide_False in HQ; [by wp_steps|]. intros [j Hj']%(pi_vis _ _ _ _ I). rewrite <- E2, block_at_index in Hj' by done. congruence. }
  destruct (pi_ix _ _ _ _ I i1 j Hj) as [_ Hjr]. destruct (pi_used _ _ _ _ I) as [_ Hu].
  destruct (table_desc_facts im Him (T2 j)) as (N2 & Ty2 & A2); [cbn; lia|].
  rewrite (proj2 (Z.eqb_neq _ _) N2), Ty2, A2. cbn [Z.eqb Pos.eqb negb DESC_TABLE DESC_BLOCK].
  destruct (pi_l2 _ _ _ _ I i1 j i2 Hj B2) as (e & He & Hb). wp_step. eapply wp_rd; [exact He|].
  unfold block_entry in Hb. rewrite E2 in Hb. destruct (decide (blk ∈ vis)); [|subst e; by wp_steps].
  destruct (overlaps_kernel im blk).
  - destruct Hb as (k & Hk & -> & Hp). pose proof (pi_l3 _ _ _ _ I). destruct (table_desc_facts im Him (T3 k)) as (N3 & Ty3 & A3); [cbn; lia|].
    rewrite (proj2 (Z.eqb_neq _ _) N3), Ty3, A3. cbn [Z.eqb Pos.eqb negb DESC_TABLE DESC_BLOCK].
    eapply wp_rd; [apply (Hp i3 B3)|]. by rewrite E3.
  - subst e. destruct (block_desc_facts blk Hf) as [N3 Ty3]. rewrite (proj2 (Z.eqb_neq _ _) N3), Ty3. exact HQ.
Qed.
End walk.

(** ** The kernel image *)

(** What the linker script guarantees: sections in order, page-aligned up to
    the data, inside the RAM window, vectors in the text. *)
Record layout_ok (im : image) : Prop := {
  lo_window : CAPAZ_HH_RAM_BASE ≤ kernel_image_start im ∧ kernel_runtime_end im ≤ CAPAZ_HH_RAM_BASE + CAPAZ_RAM_DIRECTMAP_SIZE;
  lo_text : kernel_image_start im ≤ text_start im ∧ text_start im < text_end im ∧ text_end im ≤ rodata_start im ∧ rodata_start im < rodata_end im;
  lo_core : rodata_end im ≤ core_text_start im ∧ core_text_start im ≤ core_text_end im ∧
    core_text_end im ≤ core_rodata_start im ∧ core_rodata_start im ≤ core_rodata_end im;
  lo_data : core_rodata_end im ≤ data_start im ∧ data_start im < data_end im ∧ data_end im ≤ core_data_start im ∧
    core_data_start im ≤ core_data_end im;
  lo_bss : core_data_end im ≤ bss_start im ∧ bss_start im < bss_end im ∧ bss_end im ≤ core_bss_start im ∧
    core_bss_start im ≤ core_bss_end im ∧ core_bss_end im ≤ kernel_runtime_end im;
  lo_aligned : Forall page_aligned [text_start im; rodata_start im; core_text_start im; core_rodata_start im; data_start im];
  lo_vectors : text_start im ≤ kernel_vectors im < text_end im;
}.

Section layout.
Context (im : image) (Hl : layout_ok im).

(** The page of an address, and the bits its descriptor gets. *)
Definition page_of (v : Z) : Z := (v - CAPAZ_HH_BASE) / 4096 * 4096.

Ltac layout_facts :=
  destruct Hl as [[Hw1 Hw2] (Ht1 & Ht2 & Ht3 & Ht4) (Hc1 & Hc2 & Hc3 & Hc4) (Hd1 & Hd2 & Hd3 & Hd4) (Hb1 & Hb2 & Hb3 & Hb4 & Hb5) Hal [Hv1 Hv2]];
  change CAPAZ_HH_RAM_BASE with 0xFFFF800040000000 in *; unfold CAPAZ_RAM_DIRECTMAP_SIZE in *.

Lemma v2p v : 0xFFFF800040000000 ≤ v < 2 ^ 64 → virt_to_phys v = v - 0xFFFF800000000000.
Proof. intros Hv. by apply virt_to_phys_eq. Qed.

(** The executable pages are those of the text and of the core text. *)
Lemma vectors_page : Z.land (virt_to_phys (kernel_vectors im)) (u64_not 0xFFF) = page_of (kernel_vectors im).
Proof.
  layout_facts. rewrite v2p by lia. unfold page_of. change CAPAZ_HH_BASE with 0xFFFF800000000000.
  change 0xFFF with (2 ^ 12 - 1). rewrite (u64_land_not _ 12) by lia. change (2 ^ 12) with 4096. Z.div_mod_to_equations. lia.
Qed.

Lemma page_bits_eq v : kernel_image_start im ≤ v < kernel_runtime_end im →
  page_bits im (page_of v) =
    let p := page_of v + CAPAZ_HH_BASE in
    if (text_start im <=? p) && (p <? text_end im) then EXEC_BITS
    else if (rodata_start im <=? p) && (p <? rodata_end im) then RO_BITS
    else if (core_text_start im <=? p) && (p <? core_text_end im) then EXEC_BITS
    else if (core_rodata_start im <=? p) && (p <? core_rodata_end im) then RO_BITS
    else RW_BITS.
Proof.
  intros Hv. unfold page_bits. rewrite vectors_page. unfold inside. cbv zeta. layout_facts. rewrite !v2p by lia.
  change CAPAZ_HH_BASE with 0xFFFF800000000000.
  assert (∀ lo p, (lo - 0xFFFF800000000000 <=? p) = (lo <=? p + 0xFFFF800000000000)) as E1 by (intros lo p; destruct (Z.leb_spec lo (p + 0xFFFF800000000000)); [apply Z.leb_le|apply Z.leb_gt]; lia).
  assert (∀ hi p, (p <? hi - 0xFFFF800000000000) = (p + 0xFFFF800000000000 <? hi)) as E2 by (intros hi p; destruct (Z.ltb_spec (p + 0xFFFF800000000000) hi); [apply Z.ltb_lt|apply Z.ltb_ge]; lia).
  rewrite !E1, !E2. destruct (Z.eqb_spec (page_of v) (page_of (kernel_vectors im))) as [->|]; [|done].
  apply Forall_cons in Hal as [Ha _]. rewrite (proj2 (Z.leb_le _ _)), (proj2 (Z.ltb_lt _ _)); [done|..];
    unfold page_of; change CAPAZ_HH_BASE with 0xFFFF800000000000; page_arith.
Qed.

Lemma page_of_above a v : page_aligned a → a ≤ v → a ≤ page_of v + CAPAZ_HH_BASE ≤ v.
Proof. intros Ha Hv. unfold page_of. change CAPAZ_HH_BASE with 0xFFFF800000000000. page_arith. Qed.

Lemma in_range lo hi p : lo ≤ p < hi → (lo <=? p) && (p <? hi) = true.
Proof. intros H. apply andb_true_iff. rewrite Z.leb_le, Z.ltb_lt. lia. Qed.
Lemma out_range lo hi p : hi ≤ p → (lo <=? p) && (p <? hi) = false.
Proof. intros H. apply andb_false_iff. rewrite Z.ltb_ge. lia. Qed.

Ltac section_bits a v :=
  rewrite page_bits_eq by (layout_facts; lia); cbv zeta; layout_facts;
  repeat match goal with H : Forall _ (_ :: _) |- _ => apply Forall_cons in H as [? H] end;
  destruct (page_of_above a v) as [? ?]; [done|lia|];
  rewrite ?out_range by lia; rewrite ?in_range by lia; done.

(** What each section gets. *)
Lemma text_bits : page_bits im (page_of (text_start im)) = EXEC_BITS.
Proof. section_bits (text_start im) (text_start im). Qed.
Lemma rodata_bits : page_bits im (page_of (rodata_start im)) = RO_BITS.
Proof. section_bits (rodata_start im) (rodata_start im). Qed.
Lemma core_text_bits : core_text_start im < core_text_end im → page_bits im (page_of (core_text_start im)) = EXEC_BITS.
Proof. intros ?. section_bits (core_text_start im) (core_text_start im). Qed.
Lemma core_rodata_bits : core_rodata_start im < core_rodata_end im → page_bits im (page_of (core_rodata_start im)) = RO_BITS.
Proof. intros ?. section_bits (core_rodata_start im) (core_rodata_start im). Qed.
Lemma data_bits v : data_start im ≤ v < kernel_runtime_end im → page_bits im (page_of v) = RW_BITS.
Proof. intros ?. section_bits (data_start im) v. Qed.

(** An address of the image translates with the bits of its page. *)
Lemma kernel_page vis v : kernel_image_start im ≤ v < kernel_runtime_end im → (v - CAPAZ_HH_BASE) / BLOCK * BLOCK ∈ vis →
  translation im vis v = Z.lor (page_of v) (page_bits im (page_of v)) ∧ frame (page_of v).
Proof.
  intros Hv Hvis. destruct (block_frame (v - CAPAZ_HH_BASE)) as [_ Hf].
  { layout_facts. change CAPAZ_HH_BASE with 0xFFFF800000000000. lia. }
  split; [|exact Hf]. rewrite <- page_desc_eq by exact Hf. unfold translation. rewrite index_eq by lia. layout_facts.
  assert (v mod 2 ^ 39 = v - CAPAZ_HH_BASE) as -> by (change CAPAZ_HH_BASE with 0xFFFF800000000000; Z.div_mod_to_equations; lia).
  assert (v / 2 ^ 39 mod 512 = 256) as -> by (Z.div_mod_to_equations; lia). cbn [Z.eqb Pos.eqb negb]. cbv zeta.
  rewrite (proj2 (Z.ltb_ge _ _)) by (change CAPAZ_HH_BASE with 0xFFFF800000000000; lia). rewrite decide_True by exact Hvis.
  change CAPAZ_HH_BASE with 0xFFFF800000000000 in *.
  assert (∀ x, x / BLOCK * BLOCK ≤ x < x / BLOCK * BLOCK + BLOCK) as Hb by (intros x; unfold BLOCK; Z.div_mod_to_equations; lia).
  specialize (Hb (v - 0xFFFF800000000000)). assert (BLOCK = 2097152) as EB by reflexivity.
  unfold overlaps_kernel. rewrite !v2p by lia. change RAM_BLOCK_SIZE with BLOCK. rewrite u64_small by lia.
  rewrite (proj2 (Z.leb_gt _ _)), (proj2 (Z.leb_gt _ _)) by lia. done.
Qed.
End layout.

Lemma elem_blocks_from n : ∀ pa x, x ∈ blocks_from pa n ↔ ∃ k, 0 ≤ k < Z.of_nat n ∧ x = pa + BLOCK * k.
Proof.
  induction n as [|n IH]; intros pa x; cbn [blocks_from].
  - rewrite elem_of_nil. split; [done|]. intros (k & Hk & _). lia.
  - rewrite elem_of_cons, IH. split.
    + intros [->|(k & Hk & ->)]; [exists 0|exists (k + 1)]; lia.
    + intros (k & Hk & ->). destruct (decide (k = 0)) as [->|]; [left; lia|right; exists (k - 1); lia].
Qed.

(** A range that holds an address maps its block. *)
Lemma elem_ram_blocks l r pa : r ∈ l → range_ok r → CAPAZ_RAM_BASE ≤ pa → base r ≤ pa < base r + size r →
  pa / BLOCK * BLOCK ∈ ram_blocks l.
Proof.
  intros Hr (Hb & Hs & He) Hpa Hin. induction l as [|r' l IH]; [by apply elem_of_nil in Hr|]. cbn [ram_blocks]. apply elem_of_app.
  apply elem_of_cons in Hr as [<-|Hr]; [left|right; by apply IH]. unfold range_blocks. rewrite (proj2 (Z.leb_gt _ _)) by lia. cbv zeta.
  unfold CAPAZ_RAM_BASE in *. apply elem_blocks_from. exists (pa / BLOCK - Z.max (base r) 0x40000000 / BLOCK).
  assert (BLOCK = 2097152) as -> by reflexivity. Z.div_mod_to_equations. lia.
Qed.

Section init.
Context (im : image) (Him : image_ok im) (Hl : layout_ok im).

(** Some memory range holds the whole image. *)
Definition kernel_covered (l : list dtb_range) : Prop :=
  ∃ r, r ∈ l ∧ base r ≤ virt_to_phys (kernel_image_start im) ∧ virt_to_phys (kernel_runtime_end im) ≤ base r + size r.

Lemma covered_block l v : Forall range_ok l → kernel_covered l → kernel_image_start im ≤ v < kernel_runtime_end im →
  (v - CAPAZ_HH_BASE) / BLOCK * BLOCK ∈ (list_to_set (ram_blocks l) : gset Z).
Proof.
  intros Hok (r & Hr & Hlo & Hhi) Hv. apply elem_of_list_to_set. rewrite Forall_forall in Hok.
  destruct (lo_window _ Hl) as [Hw1 Hw2]. change CAPAZ_HH_RAM_BASE with 0xFFFF800040000000 in *. unfold CAPAZ_RAM_DIRECTMAP_SIZE in *.
  rewrite !v2p in * by lia. change CAPAZ_HH_BASE with 0xFFFF800000000000.
  apply (elem_ram_blocks l r); [done|by apply Hok|unfold CAPAZ_RAM_BASE; lia|lia].
Qed.

Section selftest.
Context (s : mmu_state) (ix : gmap Z Z) (l : list dtb_range) (c : cpu_state).
Context (Hok : Forall range_ok l) (Hcov : kernel_covered l) (I : pt_inv im s ix (list_to_set (ram_blocks l))).

Lemma wp_expect_page v e r (d : bool) Q : 0 ≤ v →
  (let t := translation im (list_to_set (ram_blocks l)) v in
   t ≠ 0 ∧ (desc_type t = DESC_BLOCK ∨ desc_type t = DESC_PAGE) ∧ desc_device t = d ∧ desc_ro t = r ∧ desc_exec t = e) →
  Q tt c s → wp (mmu_expect_page im v e r d) Q c s.
Proof.
  intros Hv (N & Ty & D & R & E) HQ. unfold mmu_expect_page. wp_step. eapply wp_lookup_desc; [done|exact I|done|].
  rewrite D, R, E, !Bool.eqb_reflx, (proj2 (Z.eqb_neq _ _) N). wp_step. apply wp_assert; [done|].
  wp_step. apply wp_assert; [by destruct Ty as [-> | ->]|]. wp_step. apply wp_assert; [done|]. wp_step. by apply wp_assert.
Qed.

(** A kernel address whose page has the expected bits. *)
Lemma wp_expect_kernel v bits e r Q : kernel_image_start im ≤ v < kernel_runtime_end im → page_bits im (page_of v) = bits →
  desc_type bits = DESC_PAGE → 0 < bits → off_frame bits = true → desc_ro bits = r → desc_exec bits = e → desc_device bits = false →
  Q tt c s → wp (mmu_expect_page im v e r false) Q c s.
Proof.
  intros Hv Hbits Ty Hpos Hoff R E D HQ. destruct (kernel_page im Hl (list_to_set (ram_blocks l)) v Hv) as [Et Hf].
  { by apply covered_block. }
  apply wp_expect_page; [|rewrite Et, Hbits; cbv zeta|done].
  - destruct (lo_window _ Hl) as [Hw1 _]. change CAPAZ_HH_RAM_BASE with 0xFFFF800040000000 in *. lia.
  - destruct (frame_perms (page_of v) bits Hf) as (-> & -> & ->). rewrite frame_type by done. split_and!; try done; [|by right].
    rewrite frame_lor by done. destruct Hf. lia.
Qed.

(** The check of a section that may be empty. *)
Lemma wp_expect_section lo hi bits e r Q : kernel_image_start im ≤ lo → lo ≤ hi → hi ≤ kernel_runtime_end im →
  (lo < hi → page_bits im (page_of lo) = bits) →
  desc_type bits = DESC_PAGE → 0 < bits → off_frame bits = true → desc_ro bits = r → desc_exec bits = e → desc_device bits = false →
  Q tt c s → wp (when (nonempty lo hi) (mmu_expect_page im lo e r false)) Q c s.
Proof.
  intros H1 H2 H3 Hb Ty Hpos Hoff R E D HQ. wp_step. unfold nonempty. destruct (Z.eqb_spec lo hi); [done|]. cbn [negb].
  eapply wp_expect_kernel; [lia|apply Hb; lia|done..].
Qed.

Lemma wp_assert_layout Q : Q tt c s → wp (assert_layout im) Q c s.
Proof.
  intros HQ. destruct Hl as [_ (Ht1 & Ht2 & Ht3 & Ht4) (Hc1 & Hc2 & Hc3 & Hc4) (Hd1 & Hd2 & Hd3 & Hd4) (Hb1 & Hb2 & Hb3 & Hb4 & Hb5) _ _].
  unfold assert_layout, nonempty.
  repeat match goal with |- context [?a =? ?b] => destruct (Z.eqb_spec a b) end; cbn [negb andb];
  repeat (first [apply wp_bind | apply wp_when | apply wp_assert; [rewrite ?negb_involutive, ?Z.ltb_lt, ?Z.leb_le; first [done | lia]|] | done]).
Qed.

Lemma dev_translation : translation im (list_to_set (ram_blocks l)) 0xFFFF800009000000 = dev_desc.
Proof. reflexivity. Qed.

Lemma wp_selftest Q : Q tt c s → wp (mmu_assert_layout_and_wx im) Q c s.
Proof.
  intros HQ. pose proof Hl as [_ (Ht1 & Ht2 & Ht3 & Ht4) (Hc1 & Hc2 & Hc3 & Hc4) (Hd1 & Hd2 & Hd3 & Hd4) (Hb1 & Hb2 & Hb3 & Hb4 & Hb5) _ _].
  unfold mmu_assert_layout_and_wx. wp_step. apply wp_assert_layout.
  wp_step. eapply wp_expect_kernel; [lia|by apply text_bits|by vm_compute..|].
  wp_step. eapply wp_expect_kernel; [lia|by apply rodata_bits|by vm_compute..|].
  wp_step. eapply wp_expect_kernel; [lia|apply data_bits; [done|lia]|by vm_compute..|].
  wp_step. eapply wp_expect_kernel; [lia|apply data_bits; [done|lia]|by vm_compute..|].
  wp_step. eapply wp_expect_section; [lia|lia|lia|by apply core_text_bits|by vm_compute..|].
  wp_step. eapply wp_expect_section; [lia|lia|lia|by apply core_rodata_bits|by vm_compute..|].
  wp_step. eapply wp_expect_section; [lia|lia|lia|intros ?; apply data_bits; [done|lia]|by vm_compute..|].
  wp_step. eapply wp_expect_section; [lia|lia|lia|intros ?; apply data_bits; [done|lia]|by vm_compute..|].
  apply wp_expect_page; [done|change (0xFFFF800000000000 + 0x0000000009000000) with 0xFFFF800009000000; cbv zeta; rewrite dev_translation; split_and!; [done|by left|by vm_compute..]|done].
Qed.
End selftest.

(** *** From zeroed tables *)

Definition tables_zero (s : mmu_state) : Prop :=
  l3_pool_used s = 0 ∧ ∀ t i, tvalid t → 0 ≤ i < 512 → pt s !! word im t i = Some 0.

(** The tables before any block is mapped. *)
Lemma inv_initial s : tables_zero s →
  pt_inv im (mkMmu (<[word im T1 0 := dev_desc]> (<[word im T0 256 := table_desc im T1]> (pt s))) 0 (replicate 512 0) (l3_pool_used s)
    (alloc_phys s) (alloc_virt s) (regs s)) ∅ ∅.
Proof.
  intros [E3 Hz]. set (m := <[word im T1 0 := dev_desc]> _).
  assert (∀ t i, tvalid t → 0 ≤ i < 512 → m !! word im t i =
    Some (if decide ((t, i) = (T1, 0)) then dev_desc else if decide ((t, i) = (T0, 256)) then table_desc im T1 else 0)) as Hm.
  { intros t i Ht Hi. unfold m. destruct (decide ((t, i) = (T1, 0))) as [[= -> ->]|H1]; [apply lookup_insert_eq|].
    rewrite lookup_insert_ne. 2: { intros E. destruct (word_inj im Him T1 t 0 i) as [<- <-]; [done|done|lia|done|done|done]. }
    destruct (decide ((t, i) = (T0, 256))) as [[= -> ->]|H2]; [apply lookup_insert_eq|].
    rewrite lookup_insert_ne; [by apply Hz|]. intros E. destruct (word_inj im Him T0 t 256 i) as [<- <-]; [done|done|lia|done|done|done]. }
  split; cbn [pt l2_tables_used l2_for_l1 l3_pool_used]; try (intros ? ? ? Hlk; by rewrite lookup_empty in Hlk).
  - intros t i Ht Hi. rewrite Hm by done. by eexists.
  - intros i Hi. rewrite Hm by done. rewrite decide_False by done. repeat case_decide; congruence.
  - intros i Hi. rewrite Hm by done. rewrite lookup_empty. rewrite (decide_False (P := (T1, i) = (T0, 256))) by done. repeat case_decide; congruence.
  - intros i Hi. rewrite lookup_empty. apply lookup_replicate_2. lia.
  - intros i j Hlk. by rewrite lookup_empty in Hlk.
  - rewrite dom_empty_L. by vm_compute.
  - rewrite E3. by vm_compute.
  - intros pa Hpa. by apply elem_of_empty in Hpa.
Qed.

Lemma wp_build_tables d Q c s : tables_zero s → Forall range_ok (ranges_to_map d) →
  tables_needed im (ram_blocks (ranges_to_map d)) ≤ L3_POOL_TABLES →
  (∀ s' ix, pt_inv im s' ix (list_to_set (ram_blocks (ranges_to_map d))) → regs s' = regs s → Q tt c s') →
  wp (build_tables im d) Q c s.
Proof.
  intros Hz Hok Hroom HQ. unfold build_tables, page_alloc_init. pose proof Hz as [E3 Hw]. wp_steps.
  change (l0_table im + 8 * 256) with (word im T0 256). change (Z.lor (virt_to_phys (l1_table im)) DESC_TABLE) with (table_desc im T1).
  replace (l1_table im) with (word im T1 0) by (unfold word; cbn [tbase]; lia).
  apply wp_wr; [cbn; rewrite Hw by (done || lia); by eexists|]. wp_steps.
  apply wp_wr.
  { cbn. destruct (decide (word im T0 256 = word im T1 0)) as [->|Hne]; [rewrite lookup_insert_eq; by eexists|].
    rewrite lookup_insert_ne, Hw by (done || lia). by eexists. }
  match goal with |- wp _ _ _ ?t => set (s1 := t) end.
  assert (pt_inv im s1 ∅ ∅) as I1 by (apply (inv_initial (set_alloc (alloc_phys s1) (alloc_virt s1) s)); exact Hz).
  eapply wp_map_ranges; [done|done|exact I1|change (l3_pool_used s1) with (l3_pool_used s); rewrite E3; lia|]. intros s' (ix & I & _ & R & _).
  apply (HQ s' ix); [|exact R]. by rewrite union_empty_r_L in I.
Qed.

(** The registers [mmu_init] leaves. *)
Definition final_regs (r : mmu_regs) : mmu_regs :=
  mkRegs 0 (virt_to_phys (l0_table im)) MAIR_DEFAULT (Z.lor TCR_BOOT (Z.shiftl 1 7))
    (Z.lor (Z.lor (Z.lor (Z.lor (sctlr r) 1) (Z.shiftl 1 2)) (Z.shiftl 1 12)) (Z.shiftl 1 19))
    (kernel_vectors im) (mmu_pa_to_va (virt_to_phys (sp r))).

Lemma wp_mmu_init d Q c s : tables_zero s → Forall range_ok (ranges_to_map d) → kernel_covered (ranges_to_map d) →
  tables_needed im (ram_blocks (ranges_to_map d)) ≤ L3_POOL_TABLES →
  (∀ s' ix, pt_inv im s' ix (list_to_set (ram_blocks (ranges_to_map d))) → regs s' = final_regs (regs s) → Q tt c s') →
  wp (mmu_init im d) Q c s.
Proof.
  intros Hz Hok Hcov Hroom HQ. unfold mmu_init, switch_tables. wp_step. apply wp_build_tables; [done..|].
  intros s1 ix I R. wp_steps. eapply wp_selftest; [exact Hok|exact Hcov| |].
  - destruct I. split; eassumption.
  - apply (HQ _ ix); [destruct I; split; eassumption|]. cbn. by rewrite R.
Qed.
End init.

(** ** Properties *)

(** What holds when [mmu_init] is called: the image is laid out as linked, the
    tables are zero, RAM ends below 128 GiB and holds the image, and the image
    needs at most the 64 tables of the pool. *)
Record boot_ok (im : image) (d : dtb_results) (s : mmu_state) : Prop := {
  bo_image : image_ok im;
  bo_layout : layout_ok im;
  bo_zero : tables_zero im s;
  bo_ranges : Forall range_ok (ranges_to_map d);
  bo_covered : kernel_covered im (ranges_to_map d);
  bo_tables : tables_needed im (ram_blocks (ranges_to_map d)) ≤ L3_POOL_TABLES;
}.

(** The run of [mmu_init] and the walks in the state it leaves. *)
Lemma mmu_init_run im d c s : boot_ok im d s →
  ∃ s', mmu_init im d c s = Ret (tt, c, s') ∧ regs s' = final_regs im (regs s) ∧
    ∀ va, 0 ≤ va → mmu_lookup_desc im va c s' = Ret (translation im (list_to_set (ram_blocks (ranges_to_map d))) va, c, s').
Proof.
  intros [Him Hl Hz Hr Hc Ht]. set (vis := list_to_set (ram_blocks (ranges_to_map d))).
  assert (wp (mmu_init im d) (λ _ c' s', c' = c ∧ regs s' = final_regs im (regs s) ∧ ∃ ix, pt_inv im s' ix vis) c s) as W
    by (apply wp_mmu_init; try done; eauto).
  apply wp_elim in W as ([] & c' & s' & E & -> & R & ix & I). exists s'. split_and!; [done..|]. intros va Hva.
  assert (wp (mmu_lookup_desc im va) (λ e c' t, e = translation im vis va ∧ c' = c ∧ t = s') c s') as W'
    by (by eapply wp_lookup_desc).
  apply wp_elim in W' as (e & c' & t & E' & -> & -> & ->). exact E'.
Qed.

(** The bytes a leaf descriptor maps. *)
Definition leaf_size (e : Z) : Z :=
  if desc_device e then 2 ^ 30 else if desc_type e =? DESC_BLOCK then 2 ^ 21 else 2 ^ 12.

(** Leaf descriptors, by kind. *)
Lemma leaf_perms pa k : frame pa → off_frame k = true → desc_addr (Z.lor pa k) = pa ∧ leaf_size (Z.lor pa k) = leaf_size k ∧
  desc_device (Z.lor pa k) = desc_device k ∧ desc_exec (Z.lor pa k) = desc_exec k ∧ desc_ro (Z.lor pa k) = desc_ro k.
Proof.
  intros Hf Hk. destruct (frame_perms pa k Hf) as (R & E & D). split; [by apply frame_addr|]. unfold leaf_size.
  rewrite D, frame_type by done. done.
Qed.

Lemma exec_pages im pa : layout_ok im → page_bits im pa = EXEC_BITS →
  inside im (text_start im) (text_end im) pa = true ∨ inside im (core_text_start im) (core_text_end im) pa = true.
Proof.
  intros Hl Hb. unfold page_bits in Hb. rewrite vectors_page in Hb by done.
  destruct (Z.eqb_spec pa (page_of (kernel_vectors im))) as [->|_]; [left|by repeat case_match; auto].
  destruct Hl as [[Hw1 Hw2] (Ht1 & Ht2 & Ht3 & Ht4) (? & ? & ? & ?) (? & ? & ? & ?) (? & ? & ? & ? & ?) Hal [Hv1 Hv2]].
  apply Forall_cons in Hal as [Ha _]. destruct (page_of_above (text_start im) (kernel_vectors im) Ha Hv1) as [Hp1 Hp2].
  change CAPAZ_HH_RAM_BASE with 0xFFFF800040000000 in *. unfold CAPAZ_RAM_DIRECTMAP_SIZE, inside in *. rewrite !v2p by lia.
  change CAPAZ_HH_BASE with 0xFFFF800000000000 in *. apply in_range. lia.
Qed.

(** The permissions of a translated address. *)
Lemma translation_wx im vis va : layout_ok im → 0 ≤ va → translation im vis va ≠ 0 →
  let e := translation im vis va in
  let pa := va mod 2 ^ 39 in
  desc_addr e + va mod leaf_size e = pa ∧ (desc_device e = true ↔ pa < 2 ^ 30) ∧
  (desc_exec e = true → desc_ro e = true ∧
     (inside im (text_start im) (text_end im) (pa / 4096 * 4096) = true ∨
      inside im (core_text_start im) (core_text_end im) (pa / 4096 * 4096) = true)).
Proof.
  intros Hl Hva. unfold translation. destruct (negb _); [done|]. cbv zeta.
  pose proof (Z.mod_pos_bound va (2 ^ 39) ltac:(lia)) as Hpa. destruct (block_frame _ Hpa) as [Hf Hf4].
  destruct (Z.ltb_spec (va mod 2 ^ 39) (2 ^ 30)) as [Hlt|Hge].
  - intros _. split; [|split; [by split|intros Hx; by vm_compute in Hx]]. change (desc_addr dev_desc) with 0. change (leaf_size dev_desc) with (2 ^ 30).
    revert Hlt. change (2 ^ 39) with 549755813888. change (2 ^ 30) with 1073741824. Z.div_mod_to_equations. lia.
  - case_decide; [|done]. intros _. destruct (overlaps_kernel im _).
    + rewrite page_desc_eq by done. set (p := va mod 2 ^ 39 / 4096 * 4096) in *.
      assert (p + va mod 2 ^ 12 = va mod 2 ^ 39) as Ep.
      { unfold p. change (2 ^ 39) with 549755813888. change (2 ^ 12) with 4096. Z.div_mod_to_equations. lia. }
      destruct (leaf_perms p (page_bits im p) Hf4) as (-> & -> & -> & -> & ->).
      { destruct (page_bits_cases im p) as [-> |[-> | ->]]; by vm_compute. }
      destruct (page_bits_cases im p) as [E|[E|E]]; rewrite E; (split; [exact Ep|]); (split; [split; [intros Hx; by vm_compute in Hx|lia]|]); [|intros Hx; by vm_compute in Hx..].
      intros _. split; [done|]. by apply exec_pages.
    + rewrite block_desc_eq. destruct (leaf_perms _ BLOCK_BITS Hf) as (-> & -> & -> & -> & ->); [by vm_compute|].
      change (leaf_size BLOCK_BITS) with (2 ^ 21). split; [|split; [split; [intros Hx; by vm_compute in Hx|lia]|intros Hx; by vm_compute in Hx]]. unfold BLOCK.
      change (2 ^ 39) with 549755813888. change (2 ^ 21) with 2097152. Z.div_mod_to_equations. lia.
Qed.

(** C20: From zeroed tables, for an image laid out as the linker script does,
    RAM ranges below 128 GiB that hold it, and ranges in which at most 64
    blocks of 2 MiB meet the image (one table of the L3 pool each: an
    assumption), mmu_init returns (the L2 pool suffices and the self test
    passes) with TTBR0 off, the new tables in TTBR1 and WXN set, and the walk
    of the tables it built gives, for every 64-bit address, exactly the
    descriptor of the reference map: the device block, a 2 MiB block or a 4
    KiB kernel page of a mapped RAM block, and nothing elsewhere. *)
Theorem mmu_init_translation im d c s : boot_ok im d s →
  ∃ s', mmu_init im d c s = Ret (tt, c, s') ∧
    (ttbr0 (regs s') = 0 ∧ ttbr1 (regs s') = virt_to_phys (l0_table im) ∧ vbar (regs s') = kernel_vectors im ∧
     Z.testbit (tcr (regs s')) 7 = true ∧ Forall (λ n, Z.testbit (sctlr (regs s')) n = true) [0; 2; 12; 19]) ∧
    ∀ va, 0 ≤ va < 2 ^ 64 →
      mmu_lookup_desc im va c s' = Ret (translation im (list_to_set (ram_blocks (ranges_to_map d))) va, c, s').
Proof.
  intros H. destruct (mmu_init_run im d c s H) as (s' & E & R & W). exists s'. rewrite R. split; [done|]. split.
  - split_and!; [done..|]. unfold final_regs. cbn [sctlr].
    repeat (apply Forall_cons; split; [rewrite !Z.lor_spec, ?orb_true_r; cbn; by rewrite ?orb_true_r|]). done.
  - intros va Hva. apply W. lia.
Qed.

(** C21: After mmu_init every mapped address translates to itself (less the
    high-half base), only the first GiB is device memory, and an executable
    address is read-only and lies in a page of the text or of the core text.
    *)
Theorem mmu_write_xor_execute im d c s : boot_ok im d s →
  ∃ s', mmu_init im d c s = Ret (tt, c, s') ∧
    ∀ va, 0 ≤ va < 2 ^ 64 → ∃ e, mmu_lookup_desc im va c s' = Ret (e, c, s') ∧
      let pa := va mod 2 ^ 39 in
      (e ≠ 0 → desc_addr e + va mod leaf_size e = pa ∧ (desc_device e = true ↔ pa < 2 ^ 30) ∧
        (desc_exec e = true → desc_ro e = true ∧
           (inside im (text_start im) (text_end im) (pa / 4096 * 4096) = true ∨
            inside im (core_text_start im) (core_text_end im) (pa / 4096 * 4096) = true))).
Proof.
  intros H. destruct (mmu_init_run im d c s H) as (s' & E & R & W). exists s'. split; [done|]. intros va [Hva _].
  eexists. split; [by apply W|]. cbv zeta. intros Hne. apply translation_wx; [by destruct H|done..].
Qed.

(** *** A concrete boot *)

(** The virt board: image at 0x40280000, tables in its bss, 128 MiB of RAM. *)
Definition HH (x : Z) : Z := 0xFFFF800000000000 + x.
Definition sample_image : image := {|
  text_start := HH 0x40281000; text_end := HH 0x4029FF00; rodata_start := HH 0x402A0000; rodata_end := HH 0x402A7F00;
  core_text_start := HH 0x402A8000; core_text_end := HH 0x402ABF00; core_rodata_start := HH 0x402AC000; core_rodata_end := HH 0x402AFF00;
  data_start := HH 0x402B0000; data_end := HH 0x402B3F00; core_data_start := HH 0x402B4000; core_data_end := HH 0x402B4000;
  bss_start := HH 0x402B4010; bss_end := HH 0x403FFF00; core_bss_start := HH 0x403FFF00; core_bss_end := HH 0x403FFF00;
  kernel_image_start := HH 0x40280000; kernel_runtime_end := HH 0x40400000; kernel_vectors := HH 0x40281800;
  l0_table := HH 0x40300000; l1_table := HH 0x40301000; l2_tables := HH 0x40302000; l3_pool := HH 0x40382000;
|}.
Definition sample_ranges : dtb_results := mkDtb [mkRange 0x40000000 0x08000000] [] 0.

Fixpoint zeros (a : Z) (n : nat) : gmap Z Z :=
  match n with O => ∅ | S n => <[a := 0]> (zeros (a + 8) n) end.
Lemma zeros_lookup n : ∀ a k, 0 ≤ k < Z.of_nat n → zeros a n !! (a + 8 * k) = Some 0.
Proof.
  induction n as [|n IH]; intros a k Hk; cbn [zeros]; [lia|]. destruct (decide (k = 0)) as [->|Hne].
  - replace (a + 8 * 0) with a by lia. apply lookup_insert_eq.
  - rewrite lookup_insert_ne by lia. replace (a + 8 * k) with (a + 8 + 8 * (k - 1)) by lia. apply IH. lia.
Qed.
(** The 194 tables are consecutive. *)
Definition sample_mmu : mmu_state :=
  mkMmu (zeros (HH 0x40300000) (Z.to_nat (194 * 512))) 0 [] 0 0 0 (mkRegs 0 0 0 0 0 0 (HH 0x40270000)).

Lemma sample_boot_ok : boot_ok sample_image sample_ranges sample_mmu.
Proof.
  split.
  - split.
    + intros b n Hin. repeat (apply elem_of_cons in Hin as [[= -> ->]|Hin]; [by vm_compute|]). by apply elem_of_nil in Hin.
    + cbn [l0_table l1_table l2_tables l3_pool sample_image]. unfold HH, MAX_L2_TABLES, L3_POOL_TABLES. repeat split; lia.
  - split; try by vm_compute. cbn. repeat (apply Forall_cons; split; [by vm_compute|]). by apply Forall_nil.
  - split; [done|]. intros t i Ht Hi. unfold sample_mmu. cbn [pt].
    assert (∃ k, 0 ≤ k < 194 * 512 ∧ word sample_image t i = HH 0x40300000 + 8 * k) as (k & Hk & ->).
    { unfold word. destruct t as [| |j|j]; cbn [tbase l0_table l1_table l2_tables l3_pool sample_image tvalid] in *; unfold HH, MAX_L2_TABLES, L3_POOL_TABLES in *;
        [exists i|exists (512 + i)|exists (1024 + 512 * j + i)|exists (66560 + 512 * j + i)]; lia. }
    apply zeros_lookup. lia.
  - apply Forall_cons. split; [by vm_compute|by apply Forall_nil].
  - exists (mkRange 0x40000000 0x08000000). split; [apply elem_of_cons; by left|by vm_compute].
  - by vm_compute.
Qed.

Lemma mmu_init_translation_witness : ∃ s', mmu_init sample_image sample_ranges (mkCpu 0 0) sample_mmu = Ret (tt, mkCpu 0 0, s') ∧
  mmu_lookup_desc sample_image (HH 0x40281ABC) (mkCpu 0 0) s' = Ret (0x40281783, mkCpu 0 0, s').
Proof.
  destruct (mmu_init_translation sample_image sample_ranges (mkCpu 0 0) sample_mmu sample_boot_ok) as (s' & E & _ & W).
  exists s'. split; [exact E|]. rewrite W by (unfold HH; lia). by vm_compute.
Defined.

Lemma mmu_write_xor_execute_witness : ∃ s', mmu_init sample_image sample_ranges (mkCpu 0 0) sample_mmu = Ret (tt, mkCpu 0 0, s') ∧
  ∃ e, mmu_lookup_desc sample_image (HH 0x402A8004) (mkCpu 0 0) s' = Ret (e, mkCpu 0 0, s') ∧ (e ≠ 0 → desc_exec e = true → desc_ro e = true).
Proof.
  destruct (mmu_write_xor_execute sample_image sample_ranges (mkCpu 0 0) sample_mmu sample_boot_ok) as (s' & E & W).
  exists s'. split; [exact E|]. destruct (W (HH 0x402A8004)) as (e & He & Hx); [unfold HH; lia|]. exists e. split; [exact He|].
  intros Hne Hexec. by apply (Hx Hne).
Defined.
