(* ===== verification/Loader.v ===== *)
(** * The boot loader (Kern/Loader/loader.c)

    Finds the kernel on disk (GPT, FAT16), loads its ELF segments and hands it
    the boot record.  The disk behind [boot_block_read] is an interface; local
    buffers are values; physical memory outside the loader is a store of bytes,
    and a write anywhere else is a fault. *)

From S2P Require Import Prelude Irq Addr Platform.

(** ** The disk *)

(** Sectors by number; a read that fails may leave anything in the buffer. *)
Class BlockDev := {
  disk : Z → option (list Z);
  after_error : Z → list Z → list Z;
}.

Definition LOADER_SECTOR_SIZE : Z := 512.
Definition LOADER_KERNEL_PHYS_BASE : Z := 0x40280000.

Definition boot_block_read `{BlockDev} (lba : Z) (buf : list Z) : bool * list Z :=
  match disk lba with Some b => (true, b) | None => (false, after_error lba buf) end.

(** ** State *)

(** [cached_lba] and [cached_sector] are statics of [fat16_next_cluster]. *)
Record ld_state := mkLd {
  cached_lba : Z; cached_sector : list Z; phys : gmap Z Z; bi : boot_info;
}.
Definition set_cache (lba : Z) (b : list Z) (s : ld_state) : ld_state := mkLd lba b (phys s) (bi s).
Definition set_phys (m : gmap Z Z) (s : ld_state) : ld_state := mkLd (cached_lba s) (cached_sector s) m (bi s).
Definition set_bi (b : boot_info) (s : ld_state) : ld_state := mkLd (cached_lba s) (cached_sector s) (phys s) b.

(** [loader_panic]: prints and parks the CPU. *)
Definition loader_panic {A} (msg : string) : M ld_state A := panic msg.

(** ** Bytes *)

(** A byte of a buffer; outside of it, a fault. *)
Definition byte_at (p : list Z) (i : Z) : M ld_state Z := load (p !! Z.to_nat i).

Definition read_le16 (p : list Z) (o : Z) : M ld_state Z :=
  b0 <- byte_at p o ;; b1 <- byte_at p (o + 1) ;; ret (Z.lor b0 (Z.shiftl b1 8)).
Definition read_le32 (p : list Z) (o : Z) : M ld_state Z :=
  b0 <- byte_at p o ;; b1 <- byte_at p (o + 1) ;; b2 <- byte_at p (o + 2) ;; b3 <- byte_at p (o + 3) ;;
  ret (Z.lor (Z.lor (Z.lor b0 (Z.shiftl b1 8)) (Z.shiftl b2 16)) (Z.shiftl b3 24)).
Definition read_le64 (p : list Z) (o : Z) : M ld_state Z :=
  lo <- read_le32 p o ;; hi <- read_le32 p (o + 4) ;; ret (Z.lor lo (Z.shiftl hi 32)).

(** [loader_memcpy] and [loader_memset] to physical memory. *)
Fixpoint store_bytes (a : Z) (l : list Z) : M ld_state unit :=
  match l with
  | [] => ret tt
  | b :: l =>
    s <- get_st ;; _ <- load (phys s !! a) ;;
    put_st (set_phys (<[a := b]> (phys s)) s) ;;; store_bytes (u64 (a + 1)) l
  end.

(** A big-endian word of physical memory. *)
Definition read_be32 (a : Z) : M ld_state Z :=
  s <- get_st ;;
  b0 <- load (phys s !! a) ;; b1 <- load (phys s !! (a + 1)) ;; b2 <- load (phys s !! (a + 2)) ;; b3 <- load (phys s !! (a + 3)) ;;
  ret (Z.lor (Z.lor (Z.lor (Z.shiftl b0 24) (Z.shiftl b1 16)) (Z.shiftl b2 8)) b3).

Definition to_upper_ascii (c : Z) : Z := if (0x61 <=? c) && (c <=? 0x7A) then u8 (c - 0x61 + 0x41) else c.

(** ** GPT *)

Definition gpt_guid_efi_system : list Z :=
  [0x28; 0x73; 0x2A; 0xC1; 0x1F; 0xF8; 0xD2; 0x11; 0xBA; 0x4B; 0x00; 0xA0; 0xC9; 0x3E; 0xC9; 0x3B].
Definition gpt_guid_ms_basic : list Z :=
  [0xA2; 0xA0; 0xD0; 0xEB; 0xE5; 0xB9; 0x33; 0x44; 0x87; 0xC0; 0x68; 0xB6; 0xB7; 0x26; 0x99; 0xC7].

(** Do the bytes at [o] equal [g]? Stops at the first difference. *)
Fixpoint bytes_equal (p : list Z) (o : Z) (g : list Z) : M ld_state bool :=
  match g with
  | [] => ret true
  | x :: g => b <- byte_at p o ;; if negb (b =? x) then ret false else bytes_equal p (o + 1) g
  end.
Definition guid_is_zero (p : list Z) (o : Z) : M ld_state bool := bytes_equal p o (replicate 16 0).
Definition guid_equals (p : list Z) (o : Z) (g : list Z) : M ld_state bool := bytes_equal p o g.

Section loader.
Context `{BlockDev}.

(** The loop over the partition entries, [n] of them left. *)
Fixpoint gpt_scan (entries_lba entry_size cur_lba : Z) (sector : list Z) (fallback_first_lba i : Z) (n : nat) : M ld_state Z :=
  match n with
  | O => ret fallback_first_lba
  | S n =>
    let entry_lba := u64 (entries_lba + i * entry_size / LOADER_SECTOR_SIZE) in
    let entry_off := (i * entry_size) mod LOADER_SECTOR_SIZE in
    let '(ok, sector) := if entry_lba =? cur_lba then (true, sector) else boot_block_read entry_lba sector in
    if negb ok then ret 0
    else
      let continue fallback := gpt_scan entries_lba entry_size entry_lba sector fallback (i + 1) n in
      zero <- guid_is_zero sector entry_off ;;
      if zero : bool then continue fallback_first_lba
      else
        first_lba <- read_le64 sector (entry_off + 32) ;;
        if first_lba =? 0 then continue fallback_first_lba
        else
          let fallback := if fallback_first_lba =? 0 then first_lba else fallback_first_lba in
          efi <- guid_equals sector entry_off gpt_guid_efi_system ;;
          if efi : bool then ret first_lba
          else
            basic <- guid_equals sector entry_off gpt_guid_ms_basic ;;
            if negb basic then continue fallback else ret first_lba
  end.

(** The bytes "EFI PART". *)
Definition gpt_signature : list Z := [0x45; 0x46; 0x49; 0x20; 0x50; 0x41; 0x52; 0x54].

Definition gpt_find_partition_lba : M ld_state Z :=
  let '(ok, sector) := boot_block_read 1 (replicate 512 0) in
  if negb ok then ret 0
  else
    efi <- bytes_equal sector 0 gpt_signature ;;
    if negb efi then ret 0
    else
      entries_lba <- read_le64 sector 72 ;;
      num_entries <- read_le32 sector 80 ;;
      entry_size <- read_le32 sector 84 ;;
      if (entries_lba =? 0) || (num_entries =? 0) || (entry_size <? 128) || (LOADER_SECTOR_SIZE <? entry_size) then ret 0
      else gpt_scan entries_lba entry_size UINT64_MAX sector 0 0 (Z.to_nat num_entries).
End loader.

(** ** FAT16 *)

Record fat16_volume := mkVol {
  part_lba : Z; bytes_per_sector : Z; sectors_per_cluster : Z; reserved_sectors : Z; num_fats : Z;
  root_entry_count : Z; sectors_per_fat : Z; total_sectors : Z;
  fat_start_lba : Z; root_dir_lba : Z; root_dir_sectors : Z; data_start_lba : Z;
}.
Record fat16_dirent := mkDirent { d_name : list Z; attr : Z; first_cluster : Z; f_size : Z }.

Definition fat16_cluster_to_lba (vol : fat16_volume) (cluster : Z) : Z :=
  u64 (data_start_lba vol + u64 (u64 (cluster - 2) * sectors_per_cluster vol)).
Definition fat16_is_eoc (cluster : Z) : bool := 0xFFF8 <=? cluster.

(** The 11 bytes of a short name. *)
Definition DOT : Z := 0x2E.
Fixpoint before_dot (l : list Z) : list Z :=
  match l with [] => [] | c :: l => if c =? DOT then [] else c :: before_dot l end.
Fixpoint after_dot (l : list Z) : list Z :=
  match l with [] => [] | c :: l => if c =? DOT then l else after_dot l end.
Definition make_short_name (name : list Z) : option (list Z) :=
  let base := before_dot name in
  let ext := after_dot name in
  if bool_decide (name = []) then None
  else if bool_decide (DOT ∈ ext) then None
  else if bool_decide (length base = 0%nat) || bool_decide (8 < length base)%nat || bool_decide (3 < length ext)%nat then None
  else Some ((to_upper_ascii <$> base) ++ replicate (8 - length base) 0x20 ++ (to_upper_ascii <$> ext) ++ replicate (3 - length ext) 0x20).

(** What a scan of a directory sector comes to. *)
Inductive dir_scan := Found (e : fat16_dirent) | EndOfDir | NotHere.

(** The loop over the entries of a sector, [n] of them left. *)
Fixpoint scan_sector (sector target : list Z) (off : Z) (n : nat) : M ld_state dir_scan :=
  match n with
  | O => ret NotHere
  | S n =>
    first <- byte_at sector off ;;
    if first =? 0 then ret EndOfDir
    else if first =? 0xE5 then scan_sector sector target (off + 32) n
    else
      a <- byte_at sector (off + 11) ;;
      if a =? 0x0F then scan_sector sector target (off + 32) n
      else if negb (Z.land a 0x08 =? 0) then scan_sector sector target (off + 32) n
      else
        m <- bytes_equal sector off target ;;
        if m : bool then
          fc <- read_le16 sector (off + 26) ;;
          sz <- read_le32 sector (off + 28) ;;
          ret (Found (mkDirent (take 11 (drop (Z.to_nat off) sector)) a fc sz))
        else scan_sector sector target (off + 32) n
  end.

(** Clusters of a FAT16 volume are 16-bit: a chain that ends has at most this
    many links. *)
Definition MAX_CHAIN : nat := Z.to_nat 0x10000.

Section fat16.
Context `{BlockDev}.

Definition fat16_parse (part_lba : Z) : M ld_state (option fat16_volume) :=
  let '(ok, sector) := boot_block_read part_lba (replicate 512 0) in
  if negb ok then ret None
  else
    s510 <- byte_at sector 510 ;; s511 <- byte_at sector 511 ;;
    if negb (s510 =? 0x55) || negb (s511 =? 0xAA) then ret None
    else
      bytes_per_sector <- read_le16 sector 11 ;;
      sectors_per_cluster <- byte_at sector 13 ;;
      reserved <- read_le16 sector 14 ;;
      num_fats <- byte_at sector 16 ;;
      root_entries <- read_le16 sector 17 ;;
      total16 <- read_le16 sector 19 ;;
      spf16 <- read_le16 sector 22 ;;
      total32 <- read_le32 sector 32 ;;
      if negb (bytes_per_sector =? LOADER_SECTOR_SIZE) then ret None
      else if (sectors_per_cluster =? 0) || (reserved =? 0) || (num_fats =? 0) || (spf16 =? 0) then ret None
      else if root_entries =? 0 then ret None
      else
        let total := if negb (total16 =? 0) then total16 else total32 in
        if total =? 0 then ret None
        else
          let root_dir_sectors := (root_entries * 32 + (bytes_per_sector - 1)) / bytes_per_sector in
          let fat_start_lba := u32 (part_lba + reserved) in
          let root_dir_lba := u32 (fat_start_lba + num_fats * spf16) in
          let data_start_lba := u32 (root_dir_lba + root_dir_sectors) in
          ret (Some (mkVol part_lba bytes_per_sector sectors_per_cluster reserved num_fats root_entries spf16 total
            fat_start_lba root_dir_lba root_dir_sectors data_start_lba)).

Definition fat16_next_cluster (vol : fat16_volume) (cluster : Z) : M ld_state Z :=
  let fat_offset := cluster * 2 in
  let fat_lba := fat_start_lba vol + fat_offset / LOADER_SECTOR_SIZE in
  let fat_off := fat_offset mod LOADER_SECTOR_SIZE in
  s <- get_st ;;
  ok <- (if fat_lba =? cached_lba s then ret true
         else
           let '(ok, b) := boot_block_read fat_lba (cached_sector s) in
           put_st (set_cache (if ok then fat_lba else cached_lba s) b s) ;;; ret ok) ;;
  if negb ok then ret 0xFFFF
  else
    s <- get_st ;;
    read_le16 (cached_sector s) fat_off.

(** Sectors [s] on, [n] of them left. *)
Fixpoint scan_sectors (lba : Z → Z) (target : list Z) (s : Z) (n : nat) : M ld_state dir_scan :=
  match n with
  | O => ret NotHere
  | S n =>
    let '(ok, sector) := boot_block_read (lba s) (replicate 512 0) in
    if negb ok then ret EndOfDir
    else
      r <- scan_sector sector target 0 16 ;;
      match r with
      | NotHere => scan_sectors lba target (s + 1) n
      | r => ret r
      end
  end.

Definition found (r : dir_scan) : option fat16_dirent := match r with Found e => Some e | _ => None end.

Definition fat16_find_in_root (vol : fat16_volume) (target : list Z) : M ld_state (option fat16_dirent) :=
  r <- scan_sectors (λ s, u32 (root_dir_lba vol + s)) target 0 (Z.to_nat (root_dir_sectors vol)) ;;
  ret (found r).

(** The loop over the clusters of a directory; it has no bound of its own. *)
Fixpoint find_in_chain (vol : fat16_volume) (target : list Z) (cluster : Z) (fuel : nat) : M ld_state (option fat16_dirent) :=
  match fuel with
  | O => fault
  | S fuel =>
    if (2 <=? cluster) && negb (fat16_is_eoc cluster) then
      let lba := fat16_cluster_to_lba vol cluster in
      r <- scan_sectors (λ s, u64 (lba + s)) target 0 (Z.to_nat (sectors_per_cluster vol)) ;;
      match r with
      | NotHere => next <- fat16_next_cluster vol cluster ;; find_in_chain vol target next fuel
      | r => ret (found r)
      end
    else ret None
  end.

Definition fat16_find_in_dir (vol : fat16_volume) (dir_cluster : Z) (target : list Z) : M ld_state (option fat16_dirent) :=
  if dir_cluster =? 0 then fat16_find_in_root vol target
  else find_in_chain vol target dir_cluster (S MAX_CHAIN).
End fat16.

(** *** Paths *)

Definition SLASH : Z := 0x2F.
Fixpoint path_skip (path : list Z) : list Z :=
  match path with c :: l => if c =? SLASH then path_skip l else path | [] => [] end.
(** At most [room] characters up to a slash, and what follows them. *)
Fixpoint path_component (path : list Z) (room : nat) : list Z * list Z :=
  match room, path with
  | S room, c :: l => if c =? SLASH then ([], path) else let '(n, r) := path_component l room in (c :: n, r)
  | _, _ => ([], path)
  end.

Section files.
Context `{BlockDev}.

Fixpoint find_components (vol : fat16_volume) (path : list Z) (dir_cluster : Z) (fuel : nat) {struct fuel} : M ld_state (option fat16_dirent) :=
  match fuel, path with
  | O, _ | _, [] => ret None
  | S fuel, _ =>
    let '(name, rest) := path_component path 15 in
    if match rest with c :: _ => negb (c =? SLASH) | [] => false end then ret None
    else
      let path := path_skip rest in
      match make_short_name name with
      | None => ret None
      | Some shortname =>
        e <- fat16_find_in_dir vol dir_cluster shortname ;;
        match e with
        | None => ret None
        | Some entry =>
          match path with
          | [] => ret (Some entry)
          | _ => if Z.land (attr entry) 0x10 =? 0 then ret None else find_components vol path (first_cluster entry) fuel
          end
        end
      end
  end.

Definition fat16_find_path (vol : fat16_volume) (path : list Z) : M ld_state (option fat16_dirent) :=
  let path := path_skip path in find_components vol path 0 (length path).

(** *** Reading a file *)

Fixpoint skip_clusters (vol : fat16_volume) (cluster : Z) (n : nat) : M ld_state (option Z) :=
  match n with
  | O => ret (Some cluster)
  | S n =>
    cluster <- fat16_next_cluster vol cluster ;;
    if (cluster <? 2) || fat16_is_eoc cluster then ret None else skip_clusters vol cluster n
  end.

(** The loop over the sectors of a cluster: success, bytes still missing, and
    what was copied. *)
Fixpoint copy_sectors (vol : fat16_volume) (lba s sector_off remaining : Z) (n : nat) : bool * Z * list Z :=
  match n with
  | O => (true, remaining, [])
  | S n =>
    if negb (0 <? remaining) then (true, remaining, [])
    else
      let '(ok, sector) := boot_block_read (u64 (lba + s)) (replicate 512 0) in
      if negb ok then (false, remaining, [])
      else
        let copy := bytes_per_sector vol - sector_off in
        let copy := if remaining <? copy then remaining else copy in
        let '(ok, rem, out) := copy_sectors vol lba (s + 1) 0 (remaining - copy) n in
        (ok, rem, take (Z.to_nat copy) (drop (Z.to_nat sector_off) sector) ++ out)
  end.

(** The loop over the clusters; each turn copies at least a byte. *)
Fixpoint copy_clusters (vol : fat16_volume) (cluster off_in_cluster remaining : Z) (fuel : nat) : M ld_state (bool * list Z) :=
  match fuel with
  | O => fault
  | S fuel =>
    if negb (0 <? remaining) then ret (true, [])
    else if (cluster <? 2) || fat16_is_eoc cluster then ret (false, [])
    else
      let lba := fat16_cluster_to_lba vol cluster in
      let sector_idx := off_in_cluster / bytes_per_sector vol in
      let sector_off := off_in_cluster mod bytes_per_sector vol in
      let '(ok, remaining, out) :=
        copy_sectors vol lba sector_idx sector_off remaining (Z.to_nat (sectors_per_cluster vol - sector_idx)) in
      if negb ok then ret (false, out)
      else
        next <- (if 0 <? remaining then fat16_next_cluster vol cluster else ret cluster) ;;
        r <- copy_clusters vol next 0 remaining fuel ;;
        ret (r.1, out ++ r.2)
  end.

(** The result and the bytes stored from [dst] on (also when it fails). *)
Definition fat16_read_file_at (vol : fat16_volume) (file : fat16_dirent) (offset len : Z) : M ld_state (bool * list Z) :=
  if len =? 0 then ret (true, [])
  else if f_size file <? offset then ret (false, [])
  else if f_size file <? u32 (offset + len) then ret (false, [])
  else
    let cluster_size := bytes_per_sector vol * sectors_per_cluster vol in
    if cluster_size =? 0 then fault
    else
      c <- skip_clusters vol (first_cluster file) (Z.to_nat (offset / cluster_size)) ;;
      match c with
      | None => ret (false, [])
      | Some cluster => copy_clusters vol cluster (offset mod cluster_size) len (S (Z.to_nat len))
      end.

(** ** ELF *)

Record Elf64_Ehdr := mkEhdr {
  e_ident : list Z; e_machine : Z; e_entry : Z; e_phoff : Z; e_phentsize : Z; e_phnum : Z;
}.
Record Elf64_Phdr := mkPhdr {
  p_type : Z; p_offset : Z; p_vaddr : Z; p_paddr : Z; p_filesz : Z; p_memsz : Z;
}.
Definition sizeof_Ehdr : Z := 64.
Definition sizeof_Phdr : Z := 56.
Definition PT_LOAD : Z := 1.
Definition EM_AARCH64 : Z := 0xB7.

(** A little-endian field of a structure copied from a buffer. *)
Fixpoint le (l : list Z) : Z := match l with [] => 0 | b :: l => b + 2 ^ 8 * le l end.
Definition field (b : list Z) (off n : nat) : Z := le (take n (drop off b)).
Definition Ehdr_of (b : list Z) : Elf64_Ehdr :=
  mkEhdr (take 16 b) (field b 18 2) (field b 24 8) (field b 32 8) (field b 54 2) (field b 56 2).
Definition Phdr_of (b : list Z) : Elf64_Phdr :=
  mkPhdr (field b 0 4) (field b 8 8) (field b 16 8) (field b 24 8) (field b 32 8) (field b 40 8).

(** Is this a header the loader takes? *)
Definition ehdr_ok (h : Elf64_Ehdr) : bool :=
  bool_decide (take 4 (e_ident h) = [0x7F; 0x45; 0x4C; 0x46]) &&
  bool_decide (take 2 (drop 4 (e_ident h)) = [2; 1]) &&
  (e_machine h =? EM_AARCH64) && negb ((e_phentsize h <? sizeof_Phdr) || (e_phnum h =? 0)).

Definition read_phdr (vol : fat16_volume) (file : fat16_dirent) (h : Elf64_Ehdr) (i : Z) : M ld_state (option Elf64_Phdr) :=
  let ph_off := u32 (e_phoff h + i * e_phentsize h) in
  r <- fat16_read_file_at vol file ph_off sizeof_Phdr ;;
  ret (if r.1 : bool then Some (Phdr_of r.2) else None).

Definition skipped (ph : Elf64_Phdr) : bool := negb (p_type ph =? PT_LOAD) || (p_memsz ph =? 0).

(** First pass: the lowest addresses. *)
Fixpoint elf_bases (vol : fat16_volume) (file : fat16_dirent) (h : Elf64_Ehdr) (base_vaddr base_paddr i : Z) (n : nat) :
    M ld_state (option (Z * Z)) :=
  match n with
  | O => ret (Some (base_vaddr, base_paddr))
  | S n =>
    p <- read_phdr vol file h i ;;
    match p with
    | None => ret None
    | Some ph =>
      if skipped ph then elf_bases vol file h base_vaddr base_paddr (i + 1) n
      else
        let base_vaddr := if p_vaddr ph <? base_vaddr then p_vaddr ph else base_vaddr in
        let base_paddr := if negb (p_paddr ph =? 0) && (p_paddr ph <? base_paddr) then p_paddr ph else base_paddr in
        elf_bases vol file h base_vaddr base_paddr (i + 1) n
    end
  end.

Definition dest_paddr (base_vaddr base_paddr : Z) (ph : Elf64_Phdr) : Z :=
  if negb (p_paddr ph =? 0) then p_paddr ph else u64 (base_paddr + u64 (p_vaddr ph - base_vaddr)).

(** One segment: the bytes of the file, then zeros. *)
Definition load_segment (vol : fat16_volume) (file : fat16_dirent) (dest : Z) (ph : Elf64_Phdr) : M ld_state bool :=
  ok <- (if 0 <? p_filesz ph then
           r <- fat16_read_file_at vol file (u32 (p_offset ph)) (u32 (p_filesz ph)) ;;
           store_bytes dest r.2 ;;; ret r.1
         else ret true) ;;
  if negb ok then ret false
  else
    when (p_filesz ph <? p_memsz ph)
      (store_bytes (u64 (dest + p_filesz ph)) (replicate (Z.to_nat (p_memsz ph - p_filesz ph)) 0)) ;;;
    ret true.

(** Second pass: the segments are loaded and their extent computed. *)
Fixpoint elf_segments (vol : fat16_volume) (file : fat16_dirent) (h : Elf64_Ehdr) (base_vaddr base_paddr min_paddr max_paddr i : Z)
    (n : nat) : M ld_state (option (Z * Z)) :=
  match n with
  | O => ret (Some (min_paddr, max_paddr))
  | S n =>
    p <- read_phdr vol file h i ;;
    match p with
    | None => ret None
    | Some ph =>
      if skipped ph then elf_segments vol file h base_vaddr base_paddr min_paddr max_paddr (i + 1) n
      else
        let dest := dest_paddr base_vaddr base_paddr ph in
        ok <- load_segment vol file dest ph ;;
        if negb ok then ret None
        else
          let min_paddr := if dest <? min_paddr then dest else min_paddr in
          let fin := u64 (dest + p_memsz ph) in
          let max_paddr := if max_paddr <? fin then fin else max_paddr in
          elf_segments vol file h base_vaddr base_paddr min_paddr max_paddr (i + 1) n
    end
  end.

(** The entry address, or nothing. *)
Definition load_kernel_elf (vol : fat16_volume) (file : fat16_dirent) : M ld_state (option Z) :=
  r <- fat16_read_file_at vol file 0 sizeof_Ehdr ;;
  if negb r.1 then ret None
  else
    let h := Ehdr_of r.2 in
    if negb (ehdr_ok h) then ret None
    else
      b <- elf_bases vol file h UINT64_MAX UINT64_MAX 0 (Z.to_nat (e_phnum h)) ;;
      match b with
      | None => ret None
      | Some (base_vaddr, base_paddr) =>
        if base_vaddr =? UINT64_MAX then ret None
        else
          let base_paddr := if base_paddr =? UINT64_MAX then LOADER_KERNEL_PHYS_BASE else base_paddr in
          m <- elf_segments vol file h base_vaddr base_paddr UINT64_MAX 0 0 (Z.to_nat (e_phnum h)) ;;
          match m with
          | None => ret None
          | Some (min_paddr, max_paddr) =>
            if (min_paddr =? UINT64_MAX) || (max_paddr <=? min_paddr) then ret None
            else
              modify (λ s, set_bi (mkBootInfo min_paddr (max_paddr - min_paddr)
                (if base_vaddr <=? e_entry h then e_entry h - base_vaddr else 0) (dtb_ptr (bi s)) (dtb_size (bi s))) s) ;;;
              ret (Some (e_entry h))
          end
      end.

(** ** Entry *)

Definition dtb_total_size (dtb : Z) : M ld_state Z :=
  if dtb =? 0 then ret 0
  else
    magic <- read_be32 dtb ;;
    if negb (magic =? 0xD00DFEED) then ret 0 else read_be32 (dtb + 4).

Definition KERNEL_ELF : list Z := [0x4B; 0x45; 0x52; 0x4E; 0x45; 0x4C; 0x2E; 0x45; 0x4C; 0x46].
Definition KERNEL8_ELF : list Z := [0x4B; 0x45; 0x52; 0x4E; 0x45; 0x4C; 0x38; 0x2E; 0x45; 0x4C; 0x46].

Fixpoint find_first (vol : fat16_volume) (paths : list (list Z)) : M ld_state (option fat16_dirent) :=
  match paths with
  | [] => ret None
  | p :: paths => e <- fat16_find_path vol p ;; match e with Some e => ret (Some e) | None => find_first vol paths end
  end.

(** Up to the jump: the address jumped to and the one passed to the kernel.
    [loader_end] is [__boot_stack_top], [bi_pa] the address of [boot_info]. *)
Definition loader_main (loader_end boot_dtb_pa bi_pa : Z) : M ld_state (Z * Z) :=
  part_lba <- gpt_find_partition_lba ;;
  if part_lba =? 0 then loader_panic "no GPT partition found"
  else
    v <- fat16_parse part_lba ;;
    match v with
    | None => loader_panic "FAT16 parse failed"
    | Some vol =>
      e <- find_first vol [KERNEL_ELF; KERNEL8_ELF] ;;
      match e with
      | None => loader_panic "kernel not found"
      | Some kernel_entry =>
        if negb (Z.land (attr kernel_entry) 0x10 =? 0) then loader_panic "kernel is directory"
        else
          modify (set_bi (mkBootInfo 0 0 0 0 0)) ;;;
          entry <- load_kernel_elf vol kernel_entry ;;
          match entry with
          | None => loader_panic "ELF load failed"
          | Some entry_va =>
            s <- get_st ;;
            if kernel_phys_base (bi s) <? loader_end then loader_panic "kernel overlaps loader"
            else if negb (Z.land (kernel_phys_base (bi s)) 0xFFF =? 0) then loader_panic "kernel not page aligned"
            else if negb (Z.land entry_va 3 =? 0) then loader_panic "entry not aligned"
            else
              dtb_sz <- dtb_total_size boot_dtb_pa ;;
              when (negb (boot_dtb_pa =? 0) && (0 <? dtb_sz))
                (modify (λ s, set_bi (mkBootInfo (kernel_phys_base (bi s)) (kernel_size (bi s)) (kernel_entry_offset (bi s))
                   (u64 (CAPAZ_HH_BASE + boot_dtb_pa)) dtb_sz) s)) ;;;
              ret (entry_va, u64 (CAPAZ_HH_BASE + bi_pa))
          end
      end
    end.
End files.
