(* ===== verification/LoaderSpec.v ===== *)
(** * What the boot loader reads: files and directories of a FAT16 disk

    Files and directories as the disk defines them (FAT chains, sector
    contents), and the loader's readers against that view. *)

From S2P Require Import Prelude Irq Addr Platform Loader.

(** ** Bytes *)

Definition byte (b : Z) : Prop := 0 ≤ b < 256.

(** A disk returns whole sectors of bytes. *)
Class DiskOk `{BD : BlockDev} : Prop :=
  disk_sector : ∀ lba b, disk lba = Some b → length b = 512%nat ∧ Forall byte b.

Lemma le_bound l : Forall byte l → 0 ≤ le l < 2 ^ (8 * Z.of_nat (length l)).
Proof.
  induction 1 as [|b l Hb _ IH]; [done|]. cbn [le length]. unfold byte in Hb.
  replace (8 * Z.of_nat (S (length l))) with (8 + 8 * Z.of_nat (length l)) by lia. rewrite Z.pow_add_r by lia.
  change (2 ^ 8) with 256 in *. nia.
Qed.

Lemma lor_add a b n : 0 ≤ n → 0 ≤ a < 2 ^ n → 0 ≤ b → Z.lor a (Z.shiftl b n) = a + 2 ^ n * b.
Proof.
  intros Hn Ha Hb. pose proof (Z.add_lor_land a (Z.shiftl b n)) as E.
  assert (Z.land a (Z.shiftl b n) = 0) as Hz.
  { apply Z.bits_inj'. intros k Hk. rewrite Z.land_spec, Z.bits_0, Z.shiftl_spec by lia.
    destruct (Z.lt_ge_cases k n); [rewrite (Z.testbit_neg_r b) by lia; by rewrite andb_false_r|].
    rewrite <- (Z.mod_small a (2 ^ n)) by done. by rewrite Z.mod_pow2_bits_high by lia. }
  rewrite Hz in E. rewrite (Z.shiftl_mul_pow2 b) in * by lia. lia.
Qed.

Lemma field_bound b o n : Forall byte b → 0 ≤ field b o n < 2 ^ (8 * Z.of_nat n).
Proof.
  intros Hb. unfold field. assert (Forall byte (take n (drop o b))) as Hl by (by apply Forall_take, Forall_drop).
  pose proof (le_bound _ Hl) as [H0 H1]. split; [done|]. eapply Z.lt_le_trans; [exact H1|].
  apply Z.pow_le_mono_r; [lia|]. rewrite length_take. lia.
Qed.

Section reads.
Implicit Types (p : list Z) (c : cpu_state) (s : ld_state).

Lemma byte_at_eq p o b : p !! o = Some b → byte_at p (Z.of_nat o) = ret b.
Proof. intros Hb. unfold byte_at. by rewrite Nat2Z.id, Hb. Qed.

Lemma bind_ret {S A B} (a : A) (k : A → M S B) : bind (ret a) k = k a.
Proof. reflexivity. Qed.

Lemma read_le16_eq p (o : nat) : Forall byte p → (o + 2 ≤ length p)%nat → read_le16 p (Z.of_nat o) = ret (field p o 2).
Proof.
  intros Hb Hl. destruct (lookup_lt_is_Some_2 p o) as [b0 H0]; [lia|]. destruct (lookup_lt_is_Some_2 p (S o)) as [b1 H1]; [lia|].
  unfold read_le16. rewrite (byte_at_eq p o b0 H0). replace (Z.of_nat o + 1) with (Z.of_nat (S o)) by lia.
  rewrite bind_ret, (byte_at_eq p _ b1 H1), bind_ret. f_equal. unfold field.
  rewrite (drop_S p b0 o H0), (drop_S p b1 (S o) H1). cbn [take le]. rewrite take_0. cbn [le].
  rewrite Forall_lookup in Hb. pose proof (Hb _ _ H0) as B0. pose proof (Hb _ _ H1) as B1. unfold byte in *.
  rewrite lor_add by (try lia; change (2 ^ 8) with 256; lia). change (2 ^ 8) with 256. lia.
Qed.

Lemma read_le32_eq p (o : nat) : Forall byte p → (o + 4 ≤ length p)%nat → read_le32 p (Z.of_nat o) = ret (field p o 4).
Proof.
  intros Hb Hl. destruct (lookup_lt_is_Some_2 p o) as [b0 H0]; [lia|]. destruct (lookup_lt_is_Some_2 p (S o)) as [b1 H1]; [lia|].
  destruct (lookup_lt_is_Some_2 p (S (S o))) as [b2 H2]; [lia|]. destruct (lookup_lt_is_Some_2 p (S (S (S o)))) as [b3 H3]; [lia|].
  unfold read_le32. rewrite (byte_at_eq p o b0 H0). replace (Z.of_nat o + 1) with (Z.of_nat (S o)) by lia.
  replace (Z.of_nat o + 2) with (Z.of_nat (S (S o))) by lia. replace (Z.of_nat o + 3) with (Z.of_nat (S (S (S o)))) by lia.
  rewrite bind_ret, (byte_at_eq p _ b1 H1), bind_ret, (byte_at_eq p _ b2 H2), bind_ret, (byte_at_eq p _ b3 H3), bind_ret. f_equal. unfold field.
  rewrite (drop_S p b0 o H0), (drop_S p b1 (S o) H1), (drop_S p b2 _ H2), (drop_S p b3 _ H3). cbn [take le]. rewrite take_0. cbn [le].
  rewrite Forall_lookup in Hb. pose proof (Hb _ _ H0) as B0. pose proof (Hb _ _ H1) as B1. pose proof (Hb _ _ H2) as B2.
  pose proof (Hb _ _ H3) as B3. unfold byte in *.
  rewrite (lor_add b0) by (try lia; change (2 ^ 8) with 256; lia).
  rewrite (lor_add (b0 + _)) by (try lia; change (2 ^ 16) with 65536; change (2 ^ 8) with 256; lia).
  rewrite lor_add by (try lia; change (2 ^ 24) with 16777216; change (2 ^ 16) with 65536; change (2 ^ 8) with 256; lia).
  change (2 ^ 24) with 16777216; change (2 ^ 16) with 65536; change (2 ^ 8) with 256. lia.
Qed.

Lemma le_app l1 l2 : le (l1 ++ l2) = le l1 + 2 ^ (8 * Z.of_nat (length l1)) * le l2.
Proof.
  induction l1 as [|b l1 IH]; cbn [app le length]; [change (2 ^ (8 * Z.of_nat 0)) with 1; lia|].
  rewrite IH. replace (8 * Z.of_nat (S (length l1))) with (8 + 8 * Z.of_nat (length l1)) by lia. rewrite Z.pow_add_r by lia. lia.
Qed.

Lemma field_split p (o n m : nat) : (o + n ≤ length p)%nat → field p o (n + m) = field p o n + 2 ^ (8 * Z.of_nat n) * field p (o + n) m.
Proof.
  intros Hl. unfold field. rewrite <- take_take_drop, le_app, drop_drop, length_take, length_drop, Nat.min_l by lia. done.
Qed.

Lemma read_le64_eq p (o : nat) : Forall byte p → (o + 8 ≤ length p)%nat → read_le64 p (Z.of_nat o) = ret (field p o 8).
Proof.
  intros Hb Hl. unfold read_le64. rewrite read_le32_eq, bind_ret by (done || lia).
  replace (Z.of_nat o + 4) with (Z.of_nat (o + 4)) by lia. rewrite read_le32_eq, bind_ret by (done || lia). f_equal.
  change (field p o 8) with (field p o (4 + 4)). rewrite field_split by lia. pose proof (field_bound p o 4 Hb). pose proof (field_bound p (o + 4) 4 Hb).
  rewrite lor_add by (try lia; done). done.
Qed.

(** Comparing bytes, against the list. *)
Lemma bytes_equal_eq g : ∀ p (o : nat), (o + length g ≤ length p)%nat →
  bytes_equal p (Z.of_nat o) g = ret (bool_decide (take (length g) (drop o p) = g)).
Proof.
  induction g as [|x g IH]; intros p o Hl; cbn [bytes_equal length] in *; [by rewrite take_0|].
  destruct (lookup_lt_is_Some_2 p o) as [b Hb]; [lia|]. rewrite (byte_at_eq p o b Hb), bind_ret, (drop_S p b o Hb). cbn [take].
  destruct (Z.eqb_spec b x) as [->|Hne]; cbn [negb].
  - replace (Z.of_nat o + 1) with (Z.of_nat (S o)) by lia. rewrite IH by lia. f_equal. apply bool_decide_ext. split; [intros E; by rewrite E at 1|by intros [= E]].
  - f_equal. symmetry. apply bool_decide_eq_false. congruence.
Qed.
End reads.

(** ** Files as the disk defines them *)

Section disk.
Context `{BD : BlockDev} {DO : DiskOk}.

Definition sector (lba : Z) : list Z := default [] (disk lba).

(** The sectors [f s], [f (s + 1)], ... one after the other. *)
Fixpoint sectors_data (f : Z → Z) (s : Z) (n : nat) : list Z :=
  match n with O => [] | S n => sector (f s) ++ sectors_data f (s + 1) n end.
Definition readable (f : Z → Z) (s : Z) (n : nat) : Prop := ∀ k, s ≤ k < s + Z.of_nat n → is_Some (disk (f k)).

Lemma sector_bytes lba : is_Some (disk lba) → disk lba = Some (sector lba) ∧ length (sector lba) = 512%nat ∧ Forall byte (sector lba).
Proof. intros [b Hb]. unfold sector. rewrite Hb. split; [done|]. by apply (disk_sector lba). Qed.

Lemma sectors_data_length f n : ∀ s, readable f s n → length (sectors_data f s n) = (512 * n)%nat.
Proof.
  induction n as [|n IH]; intros s Hr; cbn [sectors_data]; [done|]. rewrite length_app, IH by (intros k Hk; apply Hr; lia).
  destruct (sector_bytes (f s)) as (_ & -> & _); [apply Hr; lia|lia].
Qed.

(** A volume with the geometry [fat16_parse] accepts. *)
Record vol_ok (vol : fat16_volume) : Prop := {
  vo_bps : bytes_per_sector vol = 512;
  vo_spc : 1 ≤ sectors_per_cluster vol ≤ 255;
  vo_fat : 0 ≤ fat_start_lba vol < 2 ^ 32;
  vo_data : 0 ≤ data_start_lba vol < 2 ^ 32;
  vo_root : 0 ≤ root_dir_lba vol ∧ 0 ≤ root_dir_sectors vol ∧ root_dir_lba vol + root_dir_sectors vol ≤ 2 ^ 32;
}.

Context (vol : fat16_volume) (Hvol : vol_ok vol).

(** The link of a cluster in the allocation table. *)
Definition fat (c : Z) : option Z :=
  b ← disk (fat_start_lba vol + c * 2 / LOADER_SECTOR_SIZE); Some (field b (Z.to_nat (c * 2 mod LOADER_SECTOR_SIZE)) 2).

(** [l] are the clusters from [c] to an end mark. *)
Fixpoint chain (c : Z) (l : list Z) : Prop :=
  match l with
  | [] => c < 2 ∨ 0xFFF8 ≤ c
  | x :: l => x = c ∧ 2 ≤ c < 0xFFF8 ∧ ∃ n, fat c = Some n ∧ chain n l
  end.

Definition cluster_sector (c s : Z) : Z := u64 (fat16_cluster_to_lba vol c + s).
Definition cluster_data (c : Z) : list Z := sectors_data (cluster_sector c) 0 (Z.to_nat (sectors_per_cluster vol)).
Definition file_data (l : list Z) : list Z := l ≫= cluster_data.
Definition clusters_readable (l : list Z) : Prop :=
  Forall (λ c, readable (cluster_sector c) 0 (Z.to_nat (sectors_per_cluster vol))) l.

Definition CLUSTER : Z := 512 * sectors_per_cluster vol.

Lemma cluster_data_length c : readable (cluster_sector c) 0 (Z.to_nat (sectors_per_cluster vol)) → length (cluster_data c) = Z.to_nat CLUSTER.
Proof. intros Hr. unfold cluster_data, CLUSTER. rewrite sectors_data_length by done. destruct (vo_spc _ Hvol). lia. Qed.

Lemma file_data_length l : clusters_readable l → Z.of_nat (length (file_data l)) = CLUSTER * Z.of_nat (length l).
Proof.
  intros Hl. destruct (vo_spc _ Hvol) as [H1 _]. induction Hl as [|c l Hc Hl IH]; [cbn; lia|].
  change (file_data (c :: l)) with (cluster_data c ++ file_data l). rewrite length_app, cluster_data_length by done.
  cbn [length]. unfold CLUSTER in *. lia.
Qed.

(** *** The allocation table and its one-sector cache *)

Definition cache_ok (s : ld_state) : Prop := cached_lba s = UINT64_MAX ∨ disk (cached_lba s) = Some (cached_sector s).

(** Reading changes nothing but the cache. *)
Definition read_only (s s' : ld_state) : Prop := cache_ok s' ∧ phys s' = phys s ∧ bi s' = bi s.

Lemma wp_next_cluster c n Q cpu s : cache_ok s → 0 ≤ c < 2 ^ 16 → fat c = Some n → (∀ s', read_only s s' → Q n cpu s') →
  wp (fat16_next_cluster vol c) Q cpu s.
Proof.
  intros Hc Hr Hf HQ. unfold fat in Hf. set (lba := fat_start_lba vol + c * 2 / LOADER_SECTOR_SIZE) in *.
  destruct (disk lba) as [b|] eqn:Hb; [|done]. cbn [mbind option_bind] in Hf. injection Hf as Hn.
  destruct (disk_sector lba b Hb) as [Hlen Hbytes]. unfold fat16_next_cluster. fold lba. wp_step. wp_step.
  assert (0 ≤ c * 2 mod LOADER_SECTOR_SIZE ≤ 510) as Ho by (unfold LOADER_SECTOR_SIZE; Z.div_mod_to_equations; lia).
  assert (read_le16 b (c * 2 mod LOADER_SECTOR_SIZE) = ret n) as Hread.
  { rewrite <- (Z2Nat.id (c * 2 mod LOADER_SECTOR_SIZE)) by lia. rewrite read_le16_eq by (done || lia). by rewrite Hn. }
  assert (lba ≠ UINT64_MAX) as Hmax.
  { destruct (vo_fat _ Hvol). unfold lba, LOADER_SECTOR_SIZE, UINT64_MAX. Z.div_mod_to_equations. lia. }
  destruct (Z.eqb_spec lba (cached_lba s)) as [E|E].
  - wp_steps. cbn [negb]. wp_steps. pose proof Hc as [Hc'|Hc']; [congruence|].
    rewrite <- E, Hb in Hc'. injection Hc' as <-. rewrite Hread. apply HQ. by split_and!.
  - unfold boot_block_read. rewrite Hb. wp_steps. cbn [negb]. wp_steps. cbn [cached_sector set_cache]. rewrite Hread. apply HQ. split_and!; [by right|done..].
Qed.

Lemma fat_bound c n : fat c = Some n → 0 ≤ n < 2 ^ 16.
Proof.
  unfold fat. destruct (disk _) as [b|] eqn:Hb; [|done]. cbn [mbind option_bind]. intros [= <-].
  destruct (disk_sector _ b Hb) as [_ Hbytes]. exact (field_bound b _ 2 Hbytes).
Qed.

Lemma read_only_refl s : cache_ok s → read_only s s.
Proof. done. Qed.
Lemma read_only_trans s1 s2 s3 : read_only s1 s2 → read_only s2 s3 → read_only s1 s3.
Proof. unfold read_only. intuition congruence. Qed.

(** Following a chain. *)
Lemma wp_skip_clusters k : ∀ c l Q cpu s, chain c l → (k < length l)%nat → cache_ok s →
  (∀ x s', chain x (drop k l) → read_only s s' → Q (Some x) cpu s') → wp (skip_clusters vol c k) Q cpu s.
Proof.
  induction k as [|k IH]; intros c l Q cpu s Hch Hk Hc HQ; cbn [skip_clusters].
  - wp_steps. by apply HQ.
  - destruct l as [|x l]; cbn [length] in Hk; [lia|]. destruct Hch as (-> & Hr & n & Hf & Hch). wp_step.
    eapply wp_next_cluster; [done|lia|exact Hf|]. intros s' Hs'. destruct l as [|y l]; cbn [length] in Hk; [lia|].
    pose proof Hch as (-> & Hy & _). unfold fat16_is_eoc. rewrite (proj2 (Z.ltb_ge _ _)), (proj2 (Z.leb_gt _ _)) by lia. cbn [orb].
    eapply IH; [exact Hch|cbn [length]; lia|by destruct Hs'|]. intros z s'' Hz Hs''. apply HQ; [exact Hz|by eapply read_only_trans].
Qed.

(** Copying from consecutive sectors. *)
Lemma copy_sectors_eq lba n : ∀ s off rem, readable (λ k, u64 (lba + k)) s n → 0 ≤ off < 512 → (n = 0%nat → off = 0) → 0 ≤ rem →
  copy_sectors vol lba s off rem n =
    (true, rem - Z.min rem (512 * Z.of_nat n - off), take (Z.to_nat rem) (drop (Z.to_nat off) (sectors_data (λ k, u64 (lba + k)) s n))).
Proof.
  induction n as [|n IH]; intros s off rem Hr Hoff H0 Hrem; cbn [copy_sectors sectors_data].
  - rewrite (H0 eq_refl), drop_nil, take_nil. repeat f_equal. lia.
  - destruct (Z.ltb_spec 0 rem) as [Hpos|Hle]; cbn [negb].
    2: { replace rem with 0 by lia. cbn [Z.to_nat]. rewrite take_0. repeat f_equal. lia. }
    destruct (sector_bytes (u64 (lba + s))) as (Hd & Hlen & _); [apply Hr; lia|]. unfold boot_block_read. rewrite Hd. cbn [negb].
    rewrite (vo_bps _ Hvol). set (copy := if rem <? 512 - off then rem else 512 - off).
    assert (copy = Z.min rem (512 - off)) as Ecopy by (unfold copy; destruct (Z.ltb_spec rem (512 - off)); lia). clearbody copy.
    rewrite IH; [|intros k Hk; apply Hr; lia|lia|done|lia]. f_equal; [f_equal; lia|].
    rewrite drop_app_le, take_app, length_drop, Hlen by lia. cbn [Z.to_nat]. rewrite drop_0. f_equal.
    + destruct (Z.le_gt_cases rem (512 - off)); [by replace copy with rem by lia|].
      rewrite !take_ge; [done|rewrite length_drop; lia..].
    + f_equal. lia.
Qed.

Lemma sectors_data_app f n m : ∀ s, sectors_data f s (n + m) = sectors_data f s n ++ sectors_data f (s + Z.of_nat n) m.
Proof.
  induction n as [|n IH]; intros s; cbn [sectors_data Nat.add]; [cbn [app Z.of_nat]; by rewrite Z.add_0_r|].
  rewrite IH, app_assoc. do 2 f_equal. lia.
Qed.

(** What is copied from one cluster, from [off] on. *)
Lemma copy_cluster_eq c off rem : readable (cluster_sector c) 0 (Z.to_nat (sectors_per_cluster vol)) → 0 ≤ off < CLUSTER → 0 ≤ rem →
  copy_sectors vol (fat16_cluster_to_lba vol c) (off / 512) (off mod 512) rem (Z.to_nat (sectors_per_cluster vol - off / 512)) =
    (true, rem - Z.min rem (CLUSTER - off), take (Z.to_nat rem) (drop (Z.to_nat off) (cluster_data c))).
Proof.
  intros Hr Hoff Hrem. destruct (vo_spc _ Hvol) as [S1 _]. unfold CLUSTER in *. set (i := off / 512) in *. set (o := off mod 512) in *.
  assert (off = 512 * i + o ∧ 0 ≤ o < 512 ∧ 0 ≤ i < sectors_per_cluster vol) as (Eoff & Ho & Hi)
    by (unfold i, o; Z.div_mod_to_equations; lia). clearbody i o.
  set (n := Z.to_nat (sectors_per_cluster vol - i)). assert (Z.of_nat n = sectors_per_cluster vol - i) as En by lia.
  rewrite copy_sectors_eq; [|intros k Hk; apply Hr; lia|done|lia|done]. f_equal; [f_equal; lia|]. f_equal.
  unfold cluster_data. replace (Z.to_nat (sectors_per_cluster vol)) with (Z.to_nat i + n)%nat by lia.
  rewrite sectors_data_app, drop_app_ge; rewrite sectors_data_length by (intros k Hk; apply Hr; lia); [|lia].
  replace (0 + Z.of_nat (Z.to_nat i)) with i by lia. unfold cluster_sector. f_equal. lia.
Qed.

Lemma copy_clusters_spec l : ∀ c off rem fuel Q cpu s, chain c l → clusters_readable l → cache_ok s → 0 ≤ off < CLUSTER → 0 ≤ rem →
  rem ≤ Z.of_nat (length (file_data l)) - off ∨ rem = 0 → rem < Z.of_nat fuel →
  (∀ s', read_only s s' → Q (true, take (Z.to_nat rem) (drop (Z.to_nat off) (file_data l))) cpu s') →
  wp (copy_clusters vol c off rem fuel) Q cpu s.
Proof.
  induction l as [|x l IH]; intros c off rem [|fuel] Q cpu s Hch Hrd Hc Hoff Hrem Hlen Hfuel HQ; try lia; cbn [copy_clusters].
  - cbn in Hlen. replace rem with 0 in * by lia. cbn [Z.ltb Z.compare negb Z.to_nat] in *. wp_steps. rewrite take_0 in HQ. by apply HQ.
  - destruct (Z.ltb_spec 0 rem) as [Hpos|Hle]; cbn [negb].
    2: { replace rem with 0 in * by lia. cbn [Z.to_nat] in *. wp_steps. rewrite take_0 in HQ. by apply HQ. }
    destruct Hch as (<- & Hr & n & Hf & Hch). apply Forall_cons in Hrd as [Hx Hrd].
    unfold fat16_is_eoc. rewrite (proj2 (Z.ltb_ge _ _)), (proj2 (Z.leb_gt _ _)) by lia. cbn [orb]. rewrite (vo_bps _ Hvol).
    rewrite copy_cluster_eq by done. cbn [negb]. destruct (vo_spc _ Hvol) as [S1 _].
    assert (file_data (x :: l) = cluster_data x ++ file_data l) as Ed by reflexivity.
    pose proof (cluster_data_length x Hx) as Lx. rewrite Ed in *. rewrite length_app, Lx in Hlen. unfold CLUSTER in *.
    rewrite drop_app_le, take_app, length_drop, Lx in HQ by lia.
    set (rem' := rem - Z.min rem (512 * sectors_per_cluster vol - off)) in *.
    replace (Z.to_nat rem - (Z.to_nat (512 * sectors_per_cluster vol) - Z.to_nat off))%nat with (Z.to_nat rem') in HQ by lia.
    wp_step. destruct (Z.ltb_spec 0 rem') as [Hmore|Hdone].
    + eapply wp_next_cluster; [done|lia|exact Hf|]. intros s' Hs'. wp_step.
      eapply IH; [done|done|by destruct Hs'|lia|lia|left; lia|lia|]. intros s'' Hs''. cbn [fst snd Z.to_nat]. rewrite drop_0.
      wp_steps. apply HQ. by eapply read_only_trans.
    + replace rem' with 0 in * by lia. destruct fuel as [|fuel]; [lia|]. wp_steps. cbn [copy_clusters]. cbn [Z.ltb Z.compare negb].
      wp_steps. cbn [fst snd]. cbn [Z.to_nat] in HQ. rewrite take_0 in HQ. by apply HQ.
Qed.

(** Reading inside a file gives the bytes of its clusters. *)
Lemma wp_read_file f l off len Q cpu s : chain (first_cluster f) l → clusters_readable l → cache_ok s → 0 ≤ off → 0 ≤ len →
  off + len ≤ f_size f → f_size f < 2 ^ 32 → f_size f ≤ Z.of_nat (length (file_data l)) →
  (∀ s', read_only s s' → Q (true, take (Z.to_nat len) (drop (Z.to_nat off) (file_data l))) cpu s') →
  wp (fat16_read_file_at vol f off len) Q cpu s.
Proof.
  intros Hch Hrd Hc Hoff Hlen Hin H32 Hfit HQ. unfold fat16_read_file_at. destruct (Z.eqb_spec len 0) as [->|Hne].
  { wp_steps. cbn [Z.to_nat] in HQ. rewrite take_0 in HQ. by apply HQ. }
  rewrite (proj2 (Z.ltb_ge _ _)), u32_small, (proj2 (Z.ltb_ge _ _)) by lia. rewrite (vo_bps _ Hvol). fold CLUSTER.
  destruct (vo_spc _ Hvol) as [S1 _]. assert (0 < CLUSTER) as HC by (unfold CLUSTER; lia).
  rewrite (proj2 (Z.eqb_neq _ _)) by lia. pose proof (file_data_length l Hrd) as Lf.
  pose proof (Z.div_mod off CLUSTER ltac:(lia)) as Edm. pose proof (Z.mod_pos_bound off CLUSTER HC) as Bm.
  pose proof (Z.div_pos off CLUSTER Hoff HC) as Bd. set (k := off / CLUSTER) in *. set (o := off mod CLUSTER) in *. clearbody k o.
  wp_step. eapply wp_skip_clusters; [exact Hch|nia|done|]. intros x s1 Hx Hs1.
  assert (file_data l = file_data (take (Z.to_nat k) l) ++ file_data (drop (Z.to_nat k) l)) as Esplit
    by (unfold file_data; by rewrite <- bind_app, take_drop).
  assert (clusters_readable (take (Z.to_nat k) l)) as Hrt by (by apply Forall_take).
  assert (clusters_readable (drop (Z.to_nat k) l)) as Hrd' by (by apply Forall_drop).
  pose proof (file_data_length _ Hrt) as Lt. pose proof (file_data_length _ Hrd') as Ld. rewrite length_take in Lt. rewrite length_drop in Ld.
  eapply copy_clusters_spec; [exact Hx|exact Hrd'|by destruct Hs1|lia|lia| |lia|].
  - left. rewrite Esplit, length_app in Hfit. nia.
  - intros s2 Hs2. assert (drop (Z.to_nat off) (file_data l) = drop (Z.to_nat o) (file_data (drop (Z.to_nat k) l))) as <-;
      [|apply HQ; by eapply read_only_trans].
    rewrite Esplit, drop_app_ge by nia. f_equal. nia.
Qed.

(** *** Chains end before they repeat *)

Lemma chain_unique l : ∀ c l', chain c l → chain c l' → l = l'.
Proof.
  induction l as [|x l IH]; intros c [|y l'] H1 H2; cbn [chain] in *; try done; try lia.
  destruct H1 as (-> & _ & n & Hn & H1), H2 as (-> & _ & n' & Hn' & H2). f_equal. apply (IH n); [done|congruence].
Qed.

Lemma chain_suffix l1 : ∀ c x l2, chain c (l1 ++ x :: l2) → chain x (x :: l2).
Proof.
  induction l1 as [|y l1 IH]; intros c x l2 Hc; [by destruct Hc as (<- & Hc)|].
  destruct Hc as (_ & _ & n & _ & Hc). by apply (IH n).
Qed.

Lemma chain_nodup c l : chain c l → NoDup l.
Proof.
  revert c. induction l as [|x l IH]; intros c Hc; [constructor|]. pose proof Hc as (-> & _ & n & _ & Hn).
  apply NoDup_cons. split; [|by apply (IH n)]. intros (l1 & l2 & ->)%list_elem_of_split.
  pose proof (chain_suffix (c :: l1) c c l2 Hc) as Hs. pose proof (chain_unique _ _ _ Hc Hs) as E.
  apply (f_equal length) in E. rewrite !length_cons, length_app, length_cons in E. lia.
Qed.

Lemma chain_range c l : chain c l → Forall (λ x, 2 ≤ x < 0xFFF8) l.
Proof. revert c. induction l as [|x l IH]; intros c Hc; [constructor|]. destruct Hc as (-> & Hr & n & _ & Hc). constructor; [done|by apply (IH n)]. Qed.

(** The fuel of the directory walk is enough for every chain that ends. *)
Lemma chain_length c l : chain c l → (length l ≤ MAX_CHAIN)%nat.
Proof.
  intros Hc. pose proof (chain_nodup c l Hc) as Hd. pose proof (chain_range c l Hc) as Hr. rewrite Forall_forall in Hr.
  assert (list_to_set l ⊆ (list_to_set (seqZ 2 0xFFF6) : gset Z)) as Hs%subseteq_size.
  { intros x Hx%elem_of_list_to_set. apply elem_of_list_to_set, elem_of_seqZ. specialize (Hr x Hx). lia. }
  rewrite !size_list_to_set, length_seqZ in Hs by (done || apply NoDup_seqZ). unfold MAX_CHAIN. lia.
Qed.

(** *** Directories *)

(** The 32-byte entries of a directory. *)
Fixpoint entries_of (n : nat) (l : list Z) : list (list Z) :=
  match n with O => [] | S n => take 32 l :: entries_of n (drop 32 l) end.

(** The first usable entry with the name, up to the end mark. *)
Fixpoint dir_find (target : list Z) (es : list (list Z)) : dir_scan :=
  match es with
  | [] => NotHere
  | e :: es =>
    let first := field e 0 1 in
    let a := field e 11 1 in
    if first =? 0 then EndOfDir
    else if (first =? 0xE5) || (a =? 0x0F) || negb (Z.land a 0x08 =? 0) then dir_find target es
    else if decide (take 11 e = target) then Found (mkDirent target a (field e 26 2) (field e 28 4))
    else dir_find target es
  end.

Lemma field_byte p (o : nat) : (o < length p)%nat → byte_at p (Z.of_nat o) = ret (field p o 1).
Proof.
  intros Ho. destruct (lookup_lt_is_Some_2 p o Ho) as [b Hb]. rewrite (byte_at_eq p o b Hb). unfold field.
  rewrite (drop_S p b o Hb). cbn [take le]. rewrite take_0. cbn [le]. f_equal. lia.
Qed.

Lemma field_sub p a (n o k : nat) : (o + k ≤ n)%nat → field (take n (drop a p)) o k = field p (a + o) k.
Proof.
  intros Hk. unfold field. f_equal. rewrite skipn_firstn_comm, take_take, drop_drop. f_equal; lia.
Qed.

Lemma scan_sector_eq p target n : ∀ o : nat, Forall byte p → length target = 11%nat → (o + 32 * n ≤ length p)%nat →
  scan_sector p target (Z.of_nat o) n = ret (dir_find target (entries_of n (drop o p))).
Proof.
  intros o Hp Ht. revert o. induction n as [|n IH]; intros o Hl; cbn [scan_sector entries_of dir_find]; [done|].
  rewrite drop_drop. replace (Z.of_nat o + 32) with (Z.of_nat (o + 32)) by lia. rewrite (IH (o + 32)%nat) by lia.
  replace (Z.of_nat o + 11) with (Z.of_nat (o + 11)) by lia. replace (Z.of_nat o + 26) with (Z.of_nat (o + 26)) by lia.
  replace (Z.of_nat o + 28) with (Z.of_nat (o + 28)) by lia.
  rewrite !field_byte, !bind_ret by lia. rewrite !(field_sub p o 32) by lia. rewrite Nat.add_0_r.
  destruct (field p o 1 =? 0); [done|]. destruct (field p o 1 =? 0xE5); cbn [orb]; [done|].
  destruct (field p (o + 11) 1 =? 0x0F); cbn [orb]; [done|]. destruct (negb (Z.land (field p (o + 11) 1) 8 =? 0)); [done|].
  rewrite bytes_equal_eq, bind_ret, Ht by lia. rewrite take_take, Nat.min_l by lia.
  destruct (decide (take 11 (drop o p) = target)) as [E|E]; [rewrite bool_decide_eq_true_2 by done|by rewrite bool_decide_eq_false_2 by done].
  rewrite read_le16_eq, bind_ret, read_le32_eq, bind_ret by (done || lia). by rewrite Nat2Z.id, E.
Qed.

Lemma dir_find_app target a b : dir_find target (a ++ b) = match dir_find target a with NotHere => dir_find target b | r => r end.
Proof. induction a as [|e a IH]; [done|]. cbn [app dir_find]. rewrite IH. repeat case_match; done. Qed.

Lemma entries_of_app n m a b : length a = (32 * n)%nat → entries_of (n + m) (a ++ b) = entries_of n a ++ entries_of m b.
Proof.
  revert a. induction n as [|n IH]; intros a Ha; cbn [entries_of Nat.add app].
  - by destruct a.
  - rewrite take_app_le, drop_app_le by lia. f_equal. apply IH. rewrite length_drop. lia.
Qed.

(** The entries of consecutive sectors. *)
Definition sectors_entries (f : Z → Z) (s : Z) (n : nat) : list (list Z) := entries_of (16 * n) (sectors_data f s n).

Lemma sectors_entries_cons f s n : readable f s (S n) →
  sectors_entries f s (S n) = entries_of 16 (sector (f s)) ++ sectors_entries f (s + 1) n.
Proof.
  intros Hr. unfold sectors_entries. replace (16 * S n)%nat with (16 + 16 * n)%nat by lia. cbn [sectors_data]. apply entries_of_app.
  destruct (sector_bytes (f s)) as (_ & -> & _); [apply Hr; lia|done].
Qed.

Lemma scan_sectors_eq f target n : length target = 11%nat → ∀ s, readable f s n →
  scan_sectors f target s n = ret (dir_find target (sectors_entries f s n)).
Proof.
  intros Ht. induction n as [|n IH]; intros s Hr; [done|]. rewrite sectors_entries_cons, dir_find_app by done. cbn [scan_sectors].
  destruct (sector_bytes (f s)) as (Hd & Hlen & Hb); [apply Hr; lia|]. unfold boot_block_read. rewrite Hd. cbn [negb].
  pose proof (scan_sector_eq (sector (f s)) target 16 0 Hb Ht ltac:(lia)) as E0. change (Z.of_nat 0) with 0 in E0. rewrite E0, bind_ret, drop_0. rewrite IH by (intros k Hk; apply Hr; lia).
  by destruct (dir_find target (entries_of 16 (sector (f s)))).
Qed.

(** The entries of a directory: of a chain of clusters, or of the root. *)
Definition cluster_entries (c : Z) : list (list Z) := sectors_entries (cluster_sector c) 0 (Z.to_nat (sectors_per_cluster vol)).
Definition dir_entries (l : list Z) : list (list Z) := l ≫= cluster_entries.
Definition root_entries : list (list Z) := sectors_entries (λ s, root_dir_lba vol + s) 0 (Z.to_nat (root_dir_sectors vol)).

Lemma wp_find_in_chain target l : length target = 11%nat → ∀ c fuel Q cpu s, chain c l → clusters_readable l → cache_ok s →
  (length l < fuel)%nat → (∀ s', read_only s s' → Q (found (dir_find target (dir_entries l))) cpu s') →
  wp (find_in_chain vol target c fuel) Q cpu s.
Proof.
  intros Ht. induction l as [|x l IH]; intros c [|fuel] Q cpu s Hch Hrd Hc Hfuel HQ; cbn [length] in Hfuel; try lia; cbn [find_in_chain].
  - assert ((2 <=? c) && negb (fat16_is_eoc c) = false) as ->.
    { unfold fat16_is_eoc. destruct Hch as [Hc2|Hc2]; [by rewrite (proj2 (Z.leb_gt _ _)) by lia|].
      rewrite (proj2 (Z.leb_le 0xFFF8 c)) by lia. by rewrite andb_false_r. }
    wp_steps. by apply HQ.
  - destruct Hch as (<- & Hr & n & Hf & Hch). apply Forall_cons in Hrd as [Hx Hrd].
    unfold fat16_is_eoc. rewrite (proj2 (Z.leb_le _ _)), (proj2 (Z.leb_gt _ _)) by lia. cbn [negb andb].
    rewrite (scan_sectors_eq (λ k, u64 (fat16_cluster_to_lba vol x + k)) target _ Ht 0 Hx), bind_ret.
    change (dir_entries (x :: l)) with (cluster_entries x ++ dir_entries l) in HQ. rewrite dir_find_app in HQ.
    change (sectors_entries _ 0 _) with (cluster_entries x). destruct (dir_find target (cluster_entries x)); [by wp_steps; apply HQ..|].
    wp_step. eapply wp_next_cluster; [done|lia|exact Hf|]. intros s' Hs'.
    eapply IH; [exact Hch|done|by destruct Hs'|lia|]. intros s'' Hs''. apply HQ. by eapply read_only_trans.
Qed.

Lemma wp_find_in_root target Q cpu s : length target = 11%nat → cache_ok s →
  readable (λ k, root_dir_lba vol + k) 0 (Z.to_nat (root_dir_sectors vol)) →
  Q (found (dir_find target root_entries)) cpu s → wp (fat16_find_in_root vol target) Q cpu s.
Proof.
  intros Ht Hc Hr HQ. unfold fat16_find_in_root. destruct (vo_root _ Hvol) as (R1 & R2 & R3).
  assert (∀ n k, 0 ≤ k → k + Z.of_nat n ≤ root_dir_sectors vol → readable (λ j, root_dir_lba vol + j) k n →
    scan_sectors (λ j, u32 (root_dir_lba vol + j)) target k n = scan_sectors (λ j, root_dir_lba vol + j) target k n) as E.
  { induction n as [|n IH]; intros k Hk Hn Hrn; [done|]. cbn [scan_sectors]. rewrite u32_small by lia.
    rewrite IH; [done|lia|lia|]. intros j Hj. apply Hrn. lia. }
  rewrite E, scan_sectors_eq, bind_ret by (done || lia). by wp_steps.
Qed.
End disk.
