(* ===== verification/LoaderBoot.v ===== *)
(** * The boot loader from the partition table to the jump

    ELF images held in a file, partitions and volumes, and what [loader_main]
    leaves in memory and in the boot record; the properties of the loader and
    a concrete disk. *)

From S2P Require Import Prelude Irq Addr Platform Loader LoaderSpec.

(** ** Images *)

Definition slice (F : list Z) (off len : Z) : list Z := take (Z.to_nat len) (drop (Z.to_nat off) F).

(** The headers of an ELF file held in [F]. *)
Definition ehdr (F : list Z) : Elf64_Ehdr := Ehdr_of (slice F 0 sizeof_Ehdr).
Definition phdr (F : list Z) (i : Z) : Elf64_Phdr := Phdr_of (slice F (e_phoff (ehdr F) + i * e_phentsize (ehdr F)) sizeof_Phdr).
Fixpoint phdrs_from (F : list Z) (i : Z) (n : nat) : list Elf64_Phdr :=
  match n with O => [] | S n => phdr F i :: phdrs_from F (i + 1) n end.
Definition phdrs (F : list Z) : list Elf64_Phdr := phdrs_from F 0 (Z.to_nat (e_phnum (ehdr F))).

(** Those that are loaded, and the lowest addresses among them. *)
Definition loads (l : list Elf64_Phdr) : list Elf64_Phdr := filter (λ ph, skipped ph = false) l.
Definition low_vaddr (l : list Elf64_Phdr) (v : Z) : Z := foldl (λ a ph, Z.min a (p_vaddr ph)) v l.
Definition low_paddr (l : list Elf64_Phdr) (v : Z) : Z := foldl (λ a ph, if p_paddr ph =? 0 then a else Z.min a (p_paddr ph)) v l.

(** Where the segments of [F] go: their own physical address, or at their
    distance from the lowest virtual address. *)
Definition image_vbase (F : list Z) : Z := low_vaddr (loads (phdrs F)) UINT64_MAX.
Definition image_pbase (F : list Z) : Z :=
  let b := low_paddr (loads (phdrs F)) UINT64_MAX in if b =? UINT64_MAX then LOADER_KERNEL_PHYS_BASE else b.
Definition seg_dest (F : list Z) (ph : Elf64_Phdr) : Z := dest_paddr (image_vbase F) (image_pbase F) ph.

Definition seg_bytes (F : list Z) (ph : Elf64_Phdr) : list Z :=
  slice F (p_offset ph) (p_filesz ph) ++ replicate (Z.to_nat (p_memsz ph - p_filesz ph)) 0.

Fixpoint write_bytes (a : Z) (l : list Z) (m : gmap Z Z) : gmap Z Z :=
  match l with [] => m | b :: l => write_bytes (a + 1) l (<[a := b]> m) end.

(** Memory with the image in it, and the extent of the image. *)
Definition image_memory (F : list Z) (l : list Elf64_Phdr) (m : gmap Z Z) : gmap Z Z :=
  foldl (λ m ph, write_bytes (seg_dest F ph) (seg_bytes F ph) m) m l.
Definition image_low (F : list Z) (l : list Elf64_Phdr) (v : Z) : Z := foldl (λ a ph, Z.min a (seg_dest F ph)) v l.
Definition image_high (F : list Z) (l : list Elf64_Phdr) (v : Z) : Z := foldl (λ a ph, Z.max a (seg_dest F ph + p_memsz ph)) v l.

(** A segment lies in the file and in free memory. *)
Record seg_ok (F : list Z) (m : gmap Z Z) (ph : Elf64_Phdr) : Prop := {
  so_file : 0 ≤ p_offset ph ∧ 0 ≤ p_filesz ph ∧ p_offset ph + p_filesz ph ≤ Z.of_nat (length F);
  so_size : p_filesz ph ≤ p_memsz ph;
  so_dest : 0 ≤ seg_dest F ph ∧ seg_dest F ph + p_memsz ph < 2 ^ 64;
  so_free : ∀ k, 0 ≤ k < p_memsz ph → is_Some (m !! (seg_dest F ph + k));
}.

Record elf_ok (F : list Z) (m : gmap Z Z) : Prop := {
  eo_size : sizeof_Ehdr ≤ Z.of_nat (length F) < 2 ^ 32;
  eo_head : ehdr_ok (ehdr F) = true;
  eo_phdrs : 0 ≤ e_phoff (ehdr F) ∧ e_phoff (ehdr F) + e_phnum (ehdr F) * e_phentsize (ehdr F) ≤ Z.of_nat (length F);
  eo_segs : Forall (seg_ok F m) (loads (phdrs F));
  eo_vbase : image_vbase F < UINT64_MAX;
}.

(** *** Memory *)

Lemma write_bytes_app l1 : ∀ a l2 m, write_bytes a (l1 ++ l2) m = write_bytes (a + Z.of_nat (length l1)) l2 (write_bytes a l1 m).
Proof.
  induction l1 as [|b l1 IH]; intros a l2 m; cbn [app write_bytes length]; [f_equal; lia|]. rewrite IH. f_equal. lia.
Qed.

Lemma write_bytes_some l : ∀ a m x, is_Some (m !! x) → is_Some (write_bytes a l m !! x).
Proof.
  induction l as [|b l IH]; intros a m x Hx; cbn [write_bytes]; [done|]. apply IH.
  destruct (decide (a = x)) as [->|]; [rewrite lookup_insert_eq; by eexists|by rewrite lookup_insert_ne].
Qed.

Lemma wp_store_bytes l : ∀ a Q cpu s, 0 ≤ a → a + Z.of_nat (length l) ≤ 2 ^ 64 → (∀ k, 0 ≤ k < Z.of_nat (length l) → is_Some (phys s !! (a + k))) →
  Q tt cpu (set_phys (write_bytes a l (phys s)) s) → wp (store_bytes a l) Q cpu s.
Proof.
  induction l as [|b l IH]; intros a Q cpu s Ha Hl Hd HQ; cbn [store_bytes write_bytes length] in *.
  - wp_steps. by destruct s.
  - wp_steps. destruct (Hd 0) as [x Hx]; [lia|]. rewrite Z.add_0_r in Hx. eapply wp_load; [exact Hx|]. wp_steps.
    destruct l as [|b' l]; [wp_steps; exact HQ|]. cbn [length] in Hl, Hd. rewrite u64_small by lia.
    apply IH; [lia|cbn [length]; lia| |exact HQ]. intros k Hk. cbn [phys set_phys]. cbn [length] in Hk.
    rewrite lookup_insert_ne by lia. replace (a + 1 + k) with (a + (1 + k)) by lia. apply Hd. lia.
Qed.

Lemma foldl_min {A} (g : A → Z) l : ∀ v, foldl (λ a x, Z.min a (g x)) v l ≤ v ∧ ∀ x, x ∈ l → foldl (λ a x, Z.min a (g x)) v l ≤ g x.
Proof.
  induction l as [|y l IH]; intros v; cbn [foldl]; [split; [lia|by intros x ?%elem_of_nil]|].
  destruct (IH (Z.min v (g y))) as [H1 H2]. split; [lia|]. intros x [->|Hx]%elem_of_cons; [lia|by apply H2].
Qed.
Lemma foldl_max {A} (g : A → Z) l : ∀ v, v ≤ foldl (λ a x, Z.max a (g x)) v l ∧ ∀ x, x ∈ l → g x ≤ foldl (λ a x, Z.max a (g x)) v l.
Proof.
  induction l as [|y l IH]; intros v; cbn [foldl]; [split; [lia|by intros x ?%elem_of_nil]|].
  destruct (IH (Z.max v (g y))) as [H1 H2]. split; [lia|]. intros x [->|Hx]%elem_of_cons; [lia|by apply H2].
Qed.

(** *** A kernel file on a volume *)

Section image.
Context `{BD : BlockDev} {DO : DiskOk} (vol : fat16_volume) (Hvol : vol_ok vol).

(** The file [f] is the chain [l] and holds the bytes [F]. *)
Record file_holds (f : fat16_dirent) (l : list Z) (F : list Z) : Prop := {
  fh_chain : chain vol (first_cluster f) l;
  fh_read : clusters_readable vol l;
  fh_size : f_size f = Z.of_nat (length F) ∧ f_size f < 2 ^ 32;
  fh_data : take (length F) (file_data vol l) = F;
}.

Context (f : fat16_dirent) (l F : list Z) (Hf : file_holds f l F).

Lemma wp_read off len Q cpu s : cache_ok s → 0 ≤ off → 0 ≤ len → off + len ≤ Z.of_nat (length F) →
  (∀ s', read_only s s' → Q (true, slice F off len) cpu s') → wp (fat16_read_file_at vol f off len) Q cpu s.
Proof.
  intros Hc Hoff Hlen Hin HQ. destruct Hf as [Hch Hrd [Hsz H32] Hd].
  assert (length F ≤ length (file_data vol l))%nat as Hfit by (rewrite <- Hd at 1; rewrite length_take; lia).
  eapply wp_read_file; [done|exact Hch|done..| | | |]; [lia|lia|lia|]. intros s' Hs'.
  assert (slice F off len = take (Z.to_nat len) (drop (Z.to_nat off) (file_data vol l))) as <-; [|by apply HQ].
  unfold slice. rewrite <- Hd at 1. rewrite skipn_firstn_comm, take_take. f_equal. lia.
Qed.

Lemma sectors_bytes g n : ∀ k, readable g k n → Forall byte (sectors_data g k n).
Proof.
  induction n as [|n IH]; intros k Hr; cbn [sectors_data]; [constructor|]. apply Forall_app. split.
  - apply sector_bytes. apply Hr. lia.
  - apply IH. intros j Hj. apply Hr. lia.
Qed.

Lemma file_bytes : Forall byte F.
Proof.
  destruct Hf as [_ Hrd _ <-]. apply Forall_take. unfold file_data. apply Forall_bind. eapply Forall_impl; [exact Hrd|].
  intros c Hc. by apply sectors_bytes.
Qed.

Lemma phnum_nonneg : 0 ≤ e_phnum (ehdr F).
Proof. apply field_bound. unfold slice. apply Forall_take, Forall_drop, file_bytes. Qed.

Context (Hhead : ehdr_ok (ehdr F) = true).
Context (Hph : 0 ≤ e_phoff (ehdr F) ∧ e_phoff (ehdr F) + e_phnum (ehdr F) * e_phentsize (ehdr F) ≤ Z.of_nat (length F)).

Lemma wp_read_phdr i Q cpu s : cache_ok s → 0 ≤ i < e_phnum (ehdr F) → (∀ s', read_only s s' → Q (Some (phdr F i)) cpu s') →
  wp (read_phdr vol f (ehdr F) i) Q cpu s.
Proof.
  intros Hc Hi HQ. unfold read_phdr. destruct Hf as [_ _ [Hsz H32] _].
  assert (56 ≤ e_phentsize (ehdr F)) as He.
  { unfold ehdr_ok in Hhead. apply andb_true_iff in Hhead as [_ Hx]. apply negb_true_iff, orb_false_iff in Hx as [Hx _].
    apply Z.ltb_ge in Hx. exact Hx. }
  assert (0 ≤ e_phoff (ehdr F) + i * e_phentsize (ehdr F) ∧ e_phoff (ehdr F) + i * e_phentsize (ehdr F) + sizeof_Phdr ≤ Z.of_nat (length F)) as Hin
    by (unfold sizeof_Phdr; nia).
  wp_step. rewrite u32_small by (unfold sizeof_Phdr in *; lia). apply wp_read; [done|lia|done|lia|]. intros s' Hs'. wp_steps. by apply HQ.
Qed.

Lemma loads_cons ph ps : loads (ph :: ps) = if skipped ph then loads ps else ph :: loads ps.
Proof. unfold loads. rewrite filter_cons. destruct (skipped ph); [by rewrite decide_False|by rewrite decide_True]. Qed.

Lemma wp_elf_bases n : ∀ i bv bp Q cpu s, cache_ok s → 0 ≤ i → i + Z.of_nat n ≤ e_phnum (ehdr F) →
  (∀ s', read_only s s' → Q (Some (low_vaddr (loads (phdrs_from F i n)) bv, low_paddr (loads (phdrs_from F i n)) bp)) cpu s') →
  wp (elf_bases vol f (ehdr F) bv bp i n) Q cpu s.
Proof.
  induction n as [|n IH]; intros i bv bp Q cpu s Hc Hi Hn HQ; cbn [elf_bases phdrs_from] in *.
  - wp_steps. by apply HQ.
  - wp_step. apply wp_read_phdr; [done|lia|]. intros s1 Hs1. rewrite loads_cons in HQ. pose proof (proj1 Hs1) as Hc1.
    destruct (skipped (phdr F i)).
    + apply IH; [done|lia|lia|]. intros s2 Hs2. apply HQ. by eapply read_only_trans.
    + apply IH; [done|lia|lia|]. intros s2 Hs2. cbn [low_vaddr low_paddr foldl] in HQ.
      assert ((if p_vaddr (phdr F i) <? bv then p_vaddr (phdr F i) else bv) = Z.min bv (p_vaddr (phdr F i))) as ->
        by (destruct (Z.ltb_spec (p_vaddr (phdr F i)) bv); lia).
      assert ((if negb (p_paddr (phdr F i) =? 0) && (p_paddr (phdr F i) <? bp) then p_paddr (phdr F i) else bp) =
        (if p_paddr (phdr F i) =? 0 then bp else Z.min bp (p_paddr (phdr F i)))) as ->
        by (destruct (p_paddr (phdr F i) =? 0); cbn [negb andb]; [done|]; destruct (Z.ltb_spec (p_paddr (phdr F i)) bp); lia).
      apply HQ. by eapply read_only_trans.
Qed.

(** One segment. *)
Lemma wp_load_segment ph Q cpu s : cache_ok s → seg_ok F (phys s) ph →
  (∀ s', cache_ok s' → phys s' = write_bytes (seg_dest F ph) (seg_bytes F ph) (phys s) → bi s' = bi s → Q true cpu s') →
  wp (load_segment vol f (seg_dest F ph) ph) Q cpu s.
Proof.
  intros Hc [(O1 & O2 & O3) Hsz (D1 & D2) Hfree] HQ. destruct Hf as [_ _ [HF H32] _]. unfold load_segment. set (d := seg_dest F ph) in *.
  assert (Z.of_nat (length (slice F (p_offset ph) (p_filesz ph))) = p_filesz ph) as Hsl.
  { unfold slice. rewrite length_take, length_drop. lia. }
  assert (∀ s1 cpu, cache_ok s1 → phys s1 = write_bytes d (slice F (p_offset ph) (p_filesz ph)) (phys s) → bi s1 = bi s →
    (∀ s', cache_ok s' → phys s' = write_bytes d (seg_bytes F ph) (phys s) → bi s' = bi s → Q true cpu s') →
    wp (when (p_filesz ph <? p_memsz ph) (store_bytes (u64 (d + p_filesz ph)) (replicate (Z.to_nat (p_memsz ph - p_filesz ph)) 0)) ;;; ret true) Q cpu s1)
    as Hzero.
  { intros s1 cpu1 C1 P1 B1 HQ1. wp_step. wp_step. rewrite u64_small by lia. unfold seg_bytes in HQ1. rewrite write_bytes_app, Hsl, <- P1 in HQ1.
    destruct (Z.ltb_spec (p_filesz ph) (p_memsz ph)) as [Hlt|Hge].
    - apply wp_store_bytes; [lia|rewrite length_replicate; lia| |].
      + intros k Hk. rewrite length_replicate in Hk. rewrite P1. apply write_bytes_some.
        replace (d + p_filesz ph + k) with (d + (p_filesz ph + k)) by lia. apply Hfree. lia.
      + wp_steps. by apply HQ1.
    - wp_steps. apply HQ1; [done| |done]. replace (Z.to_nat (p_memsz ph - p_filesz ph)) with 0%nat by lia. done. }
  wp_step. destruct (Z.ltb_spec 0 (p_filesz ph)) as [Hpos|Hz].
  - wp_step. rewrite !u32_small by lia. apply wp_read; [done|lia|lia|lia|]. intros s1 (C1 & P1 & B1). wp_step. cbn [fst snd].
    apply wp_store_bytes; [lia|lia| |].
    + intros k Hk. rewrite P1. apply Hfree. lia.
    + wp_steps. cbn [negb]. apply Hzero; [done|by rewrite <- P1|done|done].
  - wp_steps. cbn [negb]. apply Hzero; [done| |done|done]. by destruct (slice F (p_offset ph) (p_filesz ph)); [|cbn [length] in Hsl; lia].
Qed.

Lemma seg_ok_write m a b ph : seg_ok F m ph → seg_ok F (write_bytes a b m) ph.
Proof. intros [H1 H2 H3 H4]. split; [done..|]. intros k Hk. by apply write_bytes_some, H4. Qed.

Lemma wp_elf_segments n : ∀ i mn mx Q cpu s, cache_ok s → 0 ≤ i → i + Z.of_nat n ≤ e_phnum (ehdr F) →
  Forall (seg_ok F (phys s)) (loads (phdrs_from F i n)) →
  (∀ s', cache_ok s' → phys s' = image_memory F (loads (phdrs_from F i n)) (phys s) → bi s' = bi s →
     Q (Some (image_low F (loads (phdrs_from F i n)) mn, image_high F (loads (phdrs_from F i n)) mx)) cpu s') →
  wp (elf_segments vol f (ehdr F) (image_vbase F) (image_pbase F) mn mx i n) Q cpu s.
Proof.
  induction n as [|n IH]; intros i mn mx Q cpu s Hc Hi Hn Hsegs HQ; cbn [elf_segments phdrs_from] in *.
  - wp_steps. by apply HQ.
  - wp_step. apply wp_read_phdr; [done|lia|]. intros s1 (C1 & P1 & B1). rewrite loads_cons in HQ, Hsegs. rewrite <- P1 in Hsegs.
    destruct (skipped (phdr F i)).
    + apply IH; [done|lia|lia|done|]. intros s2 C2 P2 B2. apply HQ; [done|congruence|congruence].
    + apply Forall_cons in Hsegs as [Hph0 Hsegs]. pose proof (so_dest _ _ _ Hph0) as [D1 D2]. pose proof (so_size _ _ _ Hph0) as D3.
      pose proof (so_file _ _ _ Hph0) as (_ & D4 & _).
      wp_step. apply wp_load_segment; [done|done|]. intros s2 C2 P2 B2. cbn [negb]. fold (seg_dest F (phdr F i)). rewrite u64_small by lia.
      apply IH; [done|lia|lia| |].
      * rewrite P2. eapply Forall_impl; [exact Hsegs|]. intros ph. apply seg_ok_write.
      * intros s3 C3 P3 B3. cbn [image_memory image_low image_high foldl] in HQ.
        assert ((if seg_dest F (phdr F i) <? mn then seg_dest F (phdr F i) else mn) = Z.min mn (seg_dest F (phdr F i))) as ->
          by (destruct (Z.ltb_spec (seg_dest F (phdr F i)) mn); lia).
        assert ((if mx <? seg_dest F (phdr F i) + p_memsz (phdr F i) then seg_dest F (phdr F i) + p_memsz (phdr F i) else mx) =
          Z.max mx (seg_dest F (phdr F i) + p_memsz (phdr F i))) as ->
          by (destruct (Z.ltb_spec mx (seg_dest F (phdr F i) + p_memsz (phdr F i))); lia).
        apply HQ; [done| |congruence]. rewrite P3, P2, P1. done.
Qed.
End image.

(** The extent of a loadable image is not empty. *)
Lemma image_extent F m : elf_ok F m →
  let ls := loads (phdrs F) in 0 ≤ image_low F ls UINT64_MAX < UINT64_MAX ∧ image_low F ls UINT64_MAX < image_high F ls 0.
Proof.
  intros [_ _ _ Hsegs Hv]. cbv zeta. unfold image_vbase in Hv. remember (loads (phdrs F)) as ls eqn:Els. destruct ls as [|ph ls'].
  { cbn in Hv. lia. }
  pose proof Hsegs as [Hph _]%Forall_cons. assert (skipped ph = false) as Hsk.
  { assert (ph ∈ loads (phdrs F)) as Hin by (rewrite <- Els; apply elem_of_cons; by left). by apply list_elem_of_filter in Hin as [? _]. }
  apply orb_false_iff in Hsk as [_ Hmz]. apply Z.eqb_neq in Hmz. destruct Hph as [(_ & O2 & _) Hsz (D1 & D2) _].
  assert (ph ∈ ph :: ls') as Hin by (apply elem_of_cons; by left). unfold image_low, image_high.
  destruct (foldl_min (seg_dest F) (ph :: ls') UINT64_MAX) as [_ H1]. destruct (foldl_max (λ x, seg_dest F x + p_memsz x) (ph :: ls') 0) as [_ H2].
  specialize (H1 ph Hin). specialize (H2 ph Hin). cbv beta in H2. unfold UINT64_MAX in *.
  split; [split; [|lia]|lia]. clear -Hsegs.
  assert (∀ v, 0 ≤ v → 0 ≤ foldl (λ a x, Z.min a (seg_dest F x)) v (ph :: ls')) as Hnn; [|apply Hnn; lia].
  induction Hsegs as [|x l' Hx _ IH]; intros v Hv; cbn [foldl]; [done|]. apply IH. destruct (so_dest _ _ _ Hx). lia.
Qed.

(** The image is in memory and the boot record describes it. *)
Lemma wp_load_kernel_elf `{BD : BlockDev} {DO : DiskOk} vol f l F cpu s : vol_ok vol → file_holds vol f l F → elf_ok F (phys s) → cache_ok s →
  wp (load_kernel_elf vol f) (λ r cpu' s', cpu' = cpu ∧ r = Some (e_entry (ehdr F)) ∧ cache_ok s' ∧
    let ls := loads (phdrs F) in
    phys s' = image_memory F ls (phys s) ∧
    bi s' = mkBootInfo (image_low F ls UINT64_MAX) (image_high F ls 0 - image_low F ls UINT64_MAX)
      (if image_vbase F <=? e_entry (ehdr F) then e_entry (ehdr F) - image_vbase F else 0) (dtb_ptr (bi s)) (dtb_size (bi s))) cpu s.
Proof.
  intros Hvol Hf He Hc. pose proof (image_extent F _ He) as (L1 & L2). destruct He as [Hs Hh Hp Hsegs Hv]. unfold load_kernel_elf.
  wp_step. eapply wp_read; [done|exact Hf|done|done|done|lia|]. intros s1 (C1 & P1 & B1). cbn [fst snd negb].
  fold (ehdr F). rewrite Hh. cbn [negb]. wp_step. rewrite <- P1 in Hsegs.
  pose proof (phnum_nonneg vol f l F Hf) as N.
  eapply wp_elf_bases; [done|exact Hf|done|done|done|lia|lia|]. intros s2 (C2 & P2 & B2). fold (phdrs F).
  change (low_vaddr (loads (phdrs F)) UINT64_MAX) with (image_vbase F). rewrite (proj2 (Z.eqb_neq (image_vbase F) UINT64_MAX)) by lia.
  change (if low_paddr (loads (phdrs F)) UINT64_MAX =? UINT64_MAX then LOADER_KERNEL_PHYS_BASE else low_paddr (loads (phdrs F)) UINT64_MAX)
    with (image_pbase F).
  wp_step. rewrite <- P2 in Hsegs. eapply wp_elf_segments; [done|exact Hf|done|done|done|lia|lia|done|]. intros s3 C3 P3 B3.
  fold (phdrs F) in P3 |- *. cbv zeta in L1, L2.
  rewrite (proj2 (Z.eqb_neq _ UINT64_MAX)), (proj2 (Z.leb_gt _ _)) by lia. cbn [orb]. wp_steps.
  split_and!; [done|done|exact C3|cbn [phys set_bi]; by rewrite P3, P2, P1|cbn [bi set_bi]; by rewrite B3, B2, B1].
Qed.

(** ** Partitions *)

(** The first entry of a known type, else the first that is in use. *)
Fixpoint gpt_pick (es : list (list Z)) (fallback : Z) : Z :=
  match es with
  | [] => fallback
  | e :: es =>
    let type_guid := take 16 e in
    let first_lba := field e 32 8 in
    if decide (type_guid = replicate 16 0) then gpt_pick es fallback
    else if first_lba =? 0 then gpt_pick es fallback
    else if decide (type_guid = gpt_guid_efi_system ∨ type_guid = gpt_guid_ms_basic) then first_lba
    else gpt_pick es (if fallback =? 0 then first_lba else fallback)
  end.

Section gpt.
Context `{BD : BlockDev} {DO : DiskOk}.

Definition gpt_entry (entries_lba entry_size i : Z) : list Z :=
  slice (sector (entries_lba + i * entry_size / 512)) ((i * entry_size) mod 512) entry_size.
Fixpoint gpt_entries (entries_lba entry_size i : Z) (n : nat) : list (list Z) :=
  match n with O => [] | S n => gpt_entry entries_lba entry_size i :: gpt_entries entries_lba entry_size (i + 1) n end.

Lemma gpt_scan_eq lba esz n : ∀ i cur b fallback,
  (esz = 128 ∨ esz = 256 ∨ esz = 512) → 0 ≤ lba → 0 ≤ i → lba + (i + Z.of_nat n) * esz / 512 < 2 ^ 64 - 1 →
  (∀ k, i ≤ k < i + Z.of_nat n → is_Some (disk (lba + k * esz / 512))) → (cur = UINT64_MAX ∨ disk cur = Some b) →
  gpt_scan lba esz cur b fallback i n = ret (gpt_pick (gpt_entries lba esz i n) fallback).
Proof.
  induction n as [|n IH]; intros i cur b fallback Hesz Hlba Hi Hmax Hrd Hcur; cbn [gpt_scan gpt_entries gpt_pick]; [done|].
  unfold LOADER_SECTOR_SIZE. set (a := lba + i * esz / 512). assert (0 ≤ a < 2 ^ 64 - 1) as Ha.
  { unfold a. assert (i * esz / 512 ≤ (i + Z.of_nat (S n)) * esz / 512) by (apply Z.div_le_mono; [lia|nia]).
    assert (0 ≤ i * esz / 512) by (apply Z.div_pos; nia). lia. }
  rewrite u64_small by lia. destruct (sector_bytes a) as (Hd & Hlen & Hb); [apply Hrd; lia|].
  assert ((if a =? cur then (true, b) else boot_block_read a b) = (true, sector a)) as ->.
  { destruct (Z.eqb_spec a cur) as [->|_]; [|unfold boot_block_read; by rewrite Hd].
    destruct Hcur as [->|Hcur]; [unfold UINT64_MAX in Ha; lia|congruence]. }
  cbn [negb]. unfold gpt_entry. fold a. set (o := (i * esz) mod 512).
  assert (0 ≤ o ∧ o + esz ≤ 512) as [Ho1 Ho2].
  { unfold o. destruct Hesz as [->|[->| ->]]; Z.div_mod_to_equations; lia. }
  assert (∀ fb, gpt_scan lba esz a (sector a) fb (i + 1) n = ret (gpt_pick (gpt_entries lba esz (i + 1) n) fb)) as IH'.
  { intros fb. apply IH; [done|done|lia| | |by right].
    - replace (i + 1 + Z.of_nat n) with (i + Z.of_nat (S n)) by lia. done.
    - intros k Hk. apply Hrd. lia. }
  replace o with (Z.of_nat (Z.to_nat o)) by lia. set (o' := Z.to_nat o). replace (Z.of_nat o' + 32) with (Z.of_nat (o' + 32)) by lia.
  assert (o' + Z.to_nat esz ≤ length (sector a))%nat as Hin by lia.
  assert (take 16 (drop o' (sector a)) = take 16 (slice (sector a) (Z.of_nat o') esz)) as Eg
    by (unfold slice; rewrite Nat2Z.id, take_take; f_equal; lia).
  assert (field (slice (sector a) (Z.of_nat o') esz) 32 8 = field (sector a) (o' + 32) 8) as Ef
    by (unfold slice; rewrite Nat2Z.id; apply field_sub; lia).
  unfold guid_is_zero, guid_equals. rewrite !bytes_equal_eq, read_le64_eq, Ef by (done || (cbn; lia)). rewrite !bind_ret.
  change (length (replicate 16 0)) with 16%nat. change (length gpt_guid_efi_system) with 16%nat. change (length gpt_guid_ms_basic) with 16%nat.
  rewrite Eg. set (g := take 16 _). rewrite !IH'. set (first := field (sector a) (o' + 32) 8).
  destruct (decide (g = replicate 16 0)) as [E0|E0]; [rewrite bool_decide_eq_true_2 by done; done|rewrite bool_decide_eq_false_2 by done].
  destruct (first =? 0); [done|].
  destruct (decide (g = gpt_guid_efi_system)) as [E1|E1].
  { rewrite bool_decide_eq_true_2 by done. by rewrite decide_True by (by left). }
  rewrite bool_decide_eq_false_2 by done. destruct (decide (g = gpt_guid_ms_basic)) as [E2|E2].
  { rewrite bool_decide_eq_true_2 by done. by rewrite decide_True by (by right). }
  rewrite bool_decide_eq_false_2 by done. rewrite decide_False by (intros [?|?]; done). done.
Qed.
End gpt.

(** ** The whole boot *)

Section boot.
Context `{BD : BlockDev} {DO : DiskOk}.

(** The partition table in sector 1 selects [part]. *)
Record gpt_selects (part : Z) : Prop := {
  gs_read : is_Some (disk 1);
  gs_sign : take 8 (sector 1) = gpt_signature;
  gs_size : field (sector 1) 84 4 = 128 ∨ field (sector 1) 84 4 = 256 ∨ field (sector 1) 84 4 = 512;
  gs_lba : 0 < field (sector 1) 72 8 ∧ 0 < field (sector 1) 80 4 ∧
    field (sector 1) 72 8 + field (sector 1) 80 4 * field (sector 1) 84 4 / 512 < 2 ^ 64 - 1;
  gs_entries : ∀ k, 0 ≤ k < field (sector 1) 80 4 → is_Some (disk (field (sector 1) 72 8 + k * field (sector 1) 84 4 / 512));
  gs_pick : part = gpt_pick (gpt_entries (field (sector 1) 72 8) (field (sector 1) 84 4) 0 (Z.to_nat (field (sector 1) 80 4))) 0;
  gs_some : 0 < part < 2 ^ 32;
}.

Lemma le_fields b : Forall byte b → length b = 512%nat →
  (∀ o : nat, (o < 512)%nat → byte_at b (Z.of_nat o) = ret (field b o 1)) ∧
  (∀ o : nat, (o + 2 ≤ 512)%nat → read_le16 b (Z.of_nat o) = ret (field b o 2)) ∧
  (∀ o : nat, (o + 4 ≤ 512)%nat → read_le32 b (Z.of_nat o) = ret (field b o 4)) ∧
  (∀ o : nat, (o + 8 ≤ 512)%nat → read_le64 b (Z.of_nat o) = ret (field b o 8)).
Proof.
  intros Hb Hl. split_and!; intros o Ho; [apply field_byte|apply read_le16_eq|apply read_le32_eq|apply read_le64_eq]; try done; lia.
Qed.

(** Reads the field at the literal offset [o] with one of them. *)
Ltac at_offset F o :=
  let z := eval vm_compute in (Z.of_nat o) in
  let E := fresh in pose proof (F o ltac:(lia)) as E; change (Z.of_nat o) with z in E; rewrite E, bind_ret; clear E.

Lemma gpt_find_partition_eq part : gpt_selects part → gpt_find_partition_lba = ret part.
Proof.
  intros [Hr Hs Hz (L1 & L2 & L3) He -> _]. destruct (sector_bytes 1 Hr) as (Hd & Hlen & Hb). unfold gpt_find_partition_lba, boot_block_read.
  rewrite Hd. cbn [negb]. destruct (le_fields _ Hb Hlen) as (F1 & _ & F4 & F8).
  pose proof (bytes_equal_eq gpt_signature (sector 1) 0 ltac:(cbn; lia)) as E. change (Z.of_nat 0) with 0 in E. rewrite E, drop_0.
  change (length gpt_signature) with 8%nat. rewrite Hs, bool_decide_eq_true_2, bind_ret by done. cbn [negb].
  at_offset F8 72%nat. at_offset F4 80%nat. at_offset F4 84%nat.
  pose proof (field_bound (sector 1) 80 4 Hb). unfold LOADER_SECTOR_SIZE.
  rewrite (proj2 (Z.eqb_neq (field (sector 1) 72 8) 0)), (proj2 (Z.eqb_neq (field (sector 1) 80 4) 0)) by lia.
  rewrite (proj2 (Z.ltb_ge (field (sector 1) 84 4) 128)), (proj2 (Z.ltb_ge 512 (field (sector 1) 84 4))) by lia. cbn [orb].
  apply gpt_scan_eq; [done|lia|lia| | |by left]; rewrite ?Z2Nat.id by lia; rewrite Z.add_0_l; done.
Qed.

(** The boot sector of the partition describes [vol], which ends below 2 TiB. *)
Record volume_at (part : Z) (vol : fat16_volume) : Prop := {
  va_part : 0 ≤ part;
  va_read : is_Some (disk part);
  va_sign : field (sector part) 510 1 = 0x55 ∧ field (sector part) 511 1 = 0xAA;
  va_bps : field (sector part) 11 2 = 512;
  va_counts : 0 < field (sector part) 13 1 ∧ 0 < field (sector part) 14 2 ∧ 0 < field (sector part) 16 1 ∧
    0 < field (sector part) 22 2 ∧ 0 < field (sector part) 17 2;
  va_total : 0 < total_sectors vol;
  va_vol : vol =
    let b := sector part in
    let fat := part + field b 14 2 in
    let root := fat + field b 16 1 * field b 22 2 in
    let root_sectors := (field b 17 2 * 32 + 511) / 512 in
    mkVol part 512 (field b 13 1) (field b 14 2) (field b 16 1) (field b 17 2) (field b 22 2)
      (if field b 19 2 =? 0 then field b 32 4 else field b 19 2) fat root root_sectors (root + root_sectors);
  va_end : data_start_lba vol < 2 ^ 32;
}.

Lemma fat16_parse_eq part vol : volume_at part vol → fat16_parse part = ret (Some vol) ∧ vol_ok vol.
Proof.
  intros [Hp Hr [S1 S2] Hbps (C1 & C2 & C3 & C4 & C5) Ht -> Hend]. destruct (sector_bytes part Hr) as (Hd & Hlen & Hb).
  set (b := sector part) in *. cbn [data_start_lba total_sectors] in *. pose proof (field_bound b 13 1 Hb) as B13. change (2 ^ (8 * Z.of_nat 1)) with 256 in B13.
  assert (0 ≤ (field b 17 2 * 32 + 511) / 512) as Hrs by (apply Z.div_pos; lia).
  assert (0 ≤ field b 16 1 * field b 22 2) as Hmul by nia.
  split; [|split; cbn [bytes_per_sector sectors_per_cluster fat_start_lba data_start_lba root_dir_lba root_dir_sectors]; lia].
  unfold fat16_parse, boot_block_read. rewrite Hd. cbn [negb]. destruct (le_fields _ Hb Hlen) as (F1 & F2 & F4 & _).
  at_offset F1 510%nat. at_offset F1 511%nat. rewrite S1, S2. cbn [Z.eqb Pos.eqb negb orb].
  at_offset F2 11%nat. at_offset F1 13%nat. at_offset F2 14%nat. at_offset F1 16%nat. at_offset F2 17%nat. at_offset F2 19%nat.
  at_offset F2 22%nat. at_offset F4 32%nat. rewrite Hbps. change (negb (512 =? LOADER_SECTOR_SIZE)) with false. cbv iota.
  rewrite (proj2 (Z.eqb_neq (field b 13 1) 0)), (proj2 (Z.eqb_neq (field b 14 2) 0)), (proj2 (Z.eqb_neq (field b 16 1) 0)),
    (proj2 (Z.eqb_neq (field b 22 2) 0)), (proj2 (Z.eqb_neq (field b 17 2) 0)) by lia. cbn [orb].
  replace (if negb (field b 19 2 =? 0) then field b 19 2 else field b 32 4) with (if field b 19 2 =? 0 then field b 32 4 else field b 19 2)
    by (by destruct (field b 19 2 =? 0)).
  rewrite (proj2 (Z.eqb_neq (if field b 19 2 =? 0 then _ else _) 0)) by lia. change (512 - 1) with 511.
  rewrite !u32_small by lia. done.
Qed.

(** "KERNEL  ELF" *)
Definition KERNEL_SHORT : list Z := [0x4B; 0x45; 0x52; 0x4E; 0x45; 0x4C; 0x20; 0x20; 0x45; 0x4C; 0x46].

(** The disk holds the kernel file with contents [F]: in the root directory of
    the FAT16 volume of the partition the table selects. *)
Definition kernel_on_disk (F : list Z) : Prop := ∃ part vol e l,
  gpt_selects part ∧ volume_at part vol ∧ readable (λ k, root_dir_lba vol + k) 0 (Z.to_nat (root_dir_sectors vol)) ∧
  dir_find KERNEL_SHORT (root_entries vol) = Found e ∧ Z.land (attr e) 0x10 = 0 ∧ file_holds vol e l F.

(** The device tree the boot record points to. *)
Definition be32_at (m : gmap Z Z) (a : Z) : Z :=
  let b k := default 0 (m !! (a + k)) in
  Z.lor (Z.lor (Z.lor (Z.shiftl (b 0) 24) (Z.shiftl (b 1) 16)) (Z.shiftl (b 2) 8)) (b 3).
Definition dtb_info (m : gmap Z Z) (dtb : Z) : Z * Z :=
  if (dtb =? 0) || negb (be32_at m dtb =? 0xD00DFEED) || (be32_at m (dtb + 4) <=? 0) then (0, 0)
  else (u64 (CAPAZ_HH_BASE + dtb), be32_at m (dtb + 4)).

Lemma wp_read_be32 a Q cpu s : (∀ k, 0 ≤ k < 4 → is_Some (phys s !! (a + k))) → Q (be32_at (phys s) a) cpu s → wp (read_be32 a) Q cpu s.
Proof.
  intros Hm HQ. unfold read_be32, be32_at in *. rewrite Z.add_0_r in HQ. destruct (Hm 0) as [b0 E0]; [lia|]. rewrite Z.add_0_r in E0.
  destruct (Hm 1) as [b1 E1]; [lia|]. destruct (Hm 2) as [b2 E2]; [lia|]. destruct (Hm 3) as [b3 E3]; [lia|].
  rewrite E0, E1, E2, E3 in HQ. wp_steps. rewrite E0, E1, E2, E3. by wp_steps.
Qed.

Lemma wp_dtb_total_size dtb Q cpu s : dtb = 0 ∨ (∀ k, 0 ≤ k < 8 → is_Some (phys s !! (dtb + k))) →
  Q (if (dtb =? 0) || negb (be32_at (phys s) dtb =? 0xD00DFEED) then 0 else be32_at (phys s) (dtb + 4)) cpu s → wp (dtb_total_size dtb) Q cpu s.
Proof.
  intros Hm HQ. unfold dtb_total_size. destruct (Z.eqb_spec dtb 0) as [_|Hne]; cbn [orb] in HQ; [by wp_steps|].
  destruct Hm as [|Hm]; [done|]. wp_step. apply wp_read_be32; [intros k Hk; apply Hm; lia|].
  destruct (negb _); [by wp_steps|]. apply wp_read_be32; [|done]. intros k Hk. rewrite <- Z.add_assoc. apply Hm. lia.
Qed.

(** The kernel file is found under its first name. *)
Lemma wp_find_kernel vol e Q cpu s : vol_ok vol → cache_ok s → readable (λ k, root_dir_lba vol + k) 0 (Z.to_nat (root_dir_sectors vol)) →
  dir_find KERNEL_SHORT (root_entries vol) = Found e → Q (Some e) cpu s → wp (find_first vol [KERNEL_ELF; KERNEL8_ELF]) Q cpu s.
Proof.
  intros Hvol Hc Hr Hf HQ. cbn [find_first]. wp_step.
  change (fat16_find_path vol KERNEL_ELF) with
    (e <- fat16_find_in_root vol KERNEL_SHORT ;; match e with None => ret None | Some entry => ret (Some entry) end).
  wp_step. eapply wp_find_in_root; [done..|]. rewrite Hf. cbn [found]. by wp_steps.
Qed.
End boot.

(** C22: From a disk whose partition table selects a FAT16 volume with the
    kernel file in its root directory, loader_main jumps to the entry point of
    the ELF image with every loadable segment of the file copied to its
    physical address and zero-filled to its memory size, nothing else in
    memory changed, and the boot record holding the base, size, entry offset
    and device tree of that image. *)
Theorem loader_main_boots `{BD : BlockDev} (DO : DiskOk) F loader_end dtb bi_pa cpu s :
  kernel_on_disk F → elf_ok F (phys s) → cache_ok s →
  let ls := loads (phdrs F) in
  let low := image_low F ls UINT64_MAX in
  let m := image_memory F ls (phys s) in
  loader_end ≤ low → low mod 4096 = 0 → e_entry (ehdr F) mod 4 = 0 → (dtb = 0 ∨ ∀ k, 0 ≤ k < 8 → is_Some (m !! (dtb + k))) →
  wp (loader_main loader_end dtb bi_pa) (λ r cpu' s', r = (e_entry (ehdr F), u64 (CAPAZ_HH_BASE + bi_pa)) ∧ phys s' = m ∧
    bi s' = mkBootInfo low (image_high F ls 0 - low)
      (if image_vbase F <=? e_entry (ehdr F) then e_entry (ehdr F) - image_vbase F else 0) (dtb_info m dtb).1 (dtb_info m dtb).2) cpu s.
Proof.
  intros (part & vol & e & l & Hg & Hv & Hr & Hfound & Hfile & Hdata) He Hc ls low m Hlo Hal Hen Hdtb. destruct (fat16_parse_eq part vol Hv) as [Hparse Hvol].
  unfold loader_main. rewrite (gpt_find_partition_eq part Hg), bind_ret. destruct (gs_some _ Hg) as [G1 _].
  rewrite (proj2 (Z.eqb_neq part 0)) by lia. rewrite Hparse, bind_ret. wp_step. eapply wp_find_kernel; [done..|]. rewrite Hfile. cbn [Z.eqb negb].
  wp_step. wp_step. wp_step. eapply wp_mono; [apply (wp_load_kernel_elf vol e l F); done|]. cbn beta. intros r cpu' s' (-> & -> & _ & Hp & Hbi).
  cbv zeta in Hp, Hbi. cbn [phys bi set_bi] in Hp, Hbi. fold ls in Hp, Hbi. fold m in Hp. fold low in Hbi. cbn [dtb_ptr dtb_size] in Hbi.
  wp_step. wp_step. rewrite Hbi. cbn [kernel_phys_base]. rewrite (proj2 (Z.ltb_ge low loader_end)) by done.
  change 0xFFF with (Z.ones 12). change 3 with (Z.ones 2). rewrite !Z.land_ones by lia. change (2 ^ 12) with 4096. change (2 ^ 2) with 4.
  rewrite Hal, Hen. cbn [Z.eqb negb]. wp_step. rewrite <- Hp in Hdtb. apply wp_dtb_total_size; [done|]. rewrite Hp. unfold dtb_info.
  wp_step. wp_step. destruct (Z.eqb_spec dtb 0) as [->|Hne]; cbn [orb negb andb].
  { wp_steps. by split_and!. }
  destruct (be32_at m dtb =? 0xD00DFEED); cbn [negb orb].
  - destruct (Z.leb_spec (be32_at m (dtb + 4)) 0) as [H0|H0].
    + rewrite (proj2 (Z.ltb_ge 0 _)) by done. wp_steps. by split_and!.
    + rewrite (proj2 (Z.ltb_lt 0 _)) by done. wp_steps. cbn [phys bi set_bi]. rewrite Hbi. by split_and!.
  - wp_steps. by split_and!.
Qed.

(** On every directory whose cluster chain reaches an end mark, however
    long, fat16_find_in_dir returns the first live entry with the name before
    the end of the directory, or nothing. *)
Theorem fat16_find_in_dir_terminates `{BD : BlockDev} (DO : DiskOk) vol target dir l cpu s : vol_ok vol → length target = 11%nat → cache_ok s →
  readable (λ k, root_dir_lba vol + k) 0 (Z.to_nat (root_dir_sectors vol)) → chain vol dir l → clusters_readable vol l →
  wp (fat16_find_in_dir vol dir target) (λ r cpu' s', cpu' = cpu ∧ read_only s s' ∧
    r = found (dir_find target (if dir =? 0 then root_entries vol else dir_entries vol l))) cpu s.
Proof.
  intros Hvol Ht Hc Hroot Hch Hrd. unfold fat16_find_in_dir. destruct (Z.eqb_spec dir 0) as [->|Hne].
  - apply wp_find_in_root; [done..|]. split_and!; [done..|]. by split.
  - eapply wp_find_in_chain; [done|done|exact Hch|done|done| |].
    + pose proof (chain_length vol dir l Hch). lia.
    + intros s' Hs'. by split_and!.
Qed.

(** C23: fat16_read_file_at returns, for any offset and length whose sum fits
    32 bits, exactly the bytes of the file at that place, across sectors and
    clusters, or fails without reading when they are not all in the file; only
    the one-sector cache of the allocation table changes. *)
Theorem fat16_read_file_at_spec `{BD : BlockDev} (DO : DiskOk) vol f l F off len cpu s : vol_ok vol → file_holds vol f l F → cache_ok s →
  0 ≤ off < 2 ^ 32 → 0 ≤ len → off + len < 2 ^ 32 →
  wp (fat16_read_file_at vol f off len) (λ r cpu' s', cpu' = cpu ∧ read_only s s' ∧
    r = if (len =? 0) || (off + len <=? Z.of_nat (length F)) then (true, slice F off len) else (false, [])) cpu s.
Proof.
  intros Hvol Hf Hc Hoff Hlen Hsum. pose proof (fh_size _ _ _ _ Hf) as [Hsz H32]. destruct (Z.leb_spec (off + len) (Z.of_nat (length F))) as [Hin|Hout].
  - rewrite orb_true_r. eapply wp_read; [done|exact Hf|done|lia|done|lia|]. intros s' Hs'. by split_and!.
  - rewrite orb_false_r. unfold fat16_read_file_at. destruct (Z.eqb_spec len 0) as [->|Hne].
    { wp_steps. split_and!; [done|by apply read_only_refl|]. unfold slice. cbn [Z.to_nat]. by rewrite take_0. }
    rewrite u32_small by lia. destruct (Z.ltb_spec (f_size f) off); [wp_steps; by split_and!|].
    rewrite (proj2 (Z.ltb_lt _ _)) by lia. wp_steps. by split_and!.
Qed.

(** A directory whose clusters form a cycle without the name and without an end
    mark. *)
Definition dir_cycle `{BD : BlockDev} (vol : fat16_volume) (target : list Z) (X : Z → Prop) : Prop :=
  ∀ x, X x → 2 ≤ x < 0xFFF8 ∧ readable (cluster_sector vol x) 0 (Z.to_nat (sectors_per_cluster vol)) ∧
    dir_find target (cluster_entries vol x) = NotHere ∧ ∃ n, fat vol x = Some n ∧ X n.

(** C40: When the clusters of a directory link back to themselves and the name
    is in none of them, the search never returns, whatever the number of
    iterations allowed. *)
Theorem fat16_find_in_cycle_never_returns `{BD : BlockDev} (DO : DiskOk) vol target X : vol_ok vol → length target = 11%nat → dir_cycle vol target X →
  ∀ fuel c cpu s, X c → cache_ok s → find_in_chain vol target c fuel cpu s = Fault.
Proof.
  intros Hvol Ht HX. induction fuel as [|fuel IH]; intros c cpu s Hc Hs; [done|]. destruct (HX c Hc) as (Hr & Hrd & Hno & n & Hf & Hn).
  cbn [find_in_chain]. unfold fat16_is_eoc. rewrite (proj2 (Z.leb_le 2 c)), (proj2 (Z.leb_gt 0xFFF8 c)) by lia. cbn [negb andb].
  rewrite (scan_sectors_eq (λ k, u64 (fat16_cluster_to_lba vol c + k)) target _ Ht 0 Hrd), bind_ret.
  change (sectors_entries _ 0 _) with (cluster_entries vol c). rewrite Hno.
  assert (wp (fat16_next_cluster vol c) (λ r cpu' s', r = n ∧ cpu' = cpu ∧ cache_ok s') cpu s) as W.
  { eapply wp_next_cluster; [done|done|lia|exact Hf|]. intros s' [Hs' _]. done. }
  apply wp_elim in W as (r & cpu' & s' & E & -> & -> & Hs'). unfold bind. rewrite E. by apply IH.
Qed.

(** ** A concrete disk *)

Module Sample.

Fixpoint bytes_le (n : nat) (v : Z) : list Z :=
  match n with O => [] | S n => v mod 256 :: bytes_le n (v / 256) end.
(** Pieces at given offsets, zeros elsewhere. *)
Fixpoint layout (from : nat) (l : list (nat * list Z)) (upto : nat) : list Z :=
  match l with
  | [] => replicate (upto - from) 0
  | (o, b) :: l => replicate (o - from) 0 ++ b ++ layout (o + length b) l upto
  end.

(** A kernel of one segment: 580 bytes in the file, 600 in memory. *)
Definition kernel_at (paddr : Z) : list Z :=
  layout 0 [(0%nat, [0x7F; 0x45; 0x4C; 0x46; 2; 1]); (18%nat, bytes_le 2 0xB7); (24%nat, bytes_le 8 0xFFFF800040280040);
    (32%nat, bytes_le 8 64); (54%nat, bytes_le 2 56); (56%nat, bytes_le 2 1);
    (64%nat, bytes_le 4 1); (72%nat, bytes_le 8 120); (80%nat, bytes_le 8 0xFFFF800040280000); (88%nat, bytes_le 8 paddr);
    (96%nat, bytes_le 8 580); (104%nat, bytes_le 8 600); (120%nat, replicate 580 0xC3)] 700.

Definition kernel_file : list Z := kernel_at 0x40280000.

Definition gpt_header (entry_size : Z) : list Z :=
  layout 0 [(0%nat, gpt_signature); (72%nat, bytes_le 8 2); (80%nat, bytes_le 4 4); (84%nat, bytes_le 4 entry_size)] 512.
(** The first partition has an unknown type; the second is taken. *)
Definition gpt_table : list Z :=
  layout 0 [(0%nat, replicate 16 1); (32%nat, bytes_le 8 5); (128%nat, gpt_guid_ms_basic); (160%nat, bytes_le 8 8)] 512.
Definition boot_sector : list Z :=
  layout 0 [(11%nat, bytes_le 2 512); (13%nat, [1]); (14%nat, bytes_le 2 1); (16%nat, [1]); (17%nat, bytes_le 2 16); (19%nat, bytes_le 2 64);
    (22%nat, bytes_le 2 1); (510%nat, [0x55; 0xAA])] 512.
(** Clusters 2 and 3 are the kernel; cluster 5 links to itself. *)
Definition fat_sector : list Z := layout 0 [(4%nat, bytes_le 2 3); (6%nat, bytes_le 2 0xFFFF); (10%nat, bytes_le 2 5)] 512.
Definition root_sector : list Z :=
  layout 0 [(0%nat, 0xE5 :: replicate 31 0); (32%nat, KERNEL_SHORT); (43%nat, [0x20]); (58%nat, bytes_le 2 2); (60%nat, bytes_le 4 700)] 512.
(** A directory sector full of deleted entries. *)
Definition full_sector : list Z := replicate 512 0xE5.

Definition sectors (kernel : list Z) : list (Z * list Z) :=
  [(1, gpt_header 128); (2, gpt_table); (8, boot_sector); (9, fat_sector); (10, root_sector);
   (11, take 512 kernel); (12, layout 0 [(0%nat, drop 512 kernel)] 512); (14, full_sector)].

Fixpoint assoc (lba : Z) (l : list (Z * list Z)) : option (list Z) :=
  match l with [] => None | (k, b) :: l => if lba =? k then Some b else assoc lba l end.

Definition disk_of (l : list (Z * list Z)) : BlockDev := {| disk lba := assoc lba l; after_error _ b := b |}.
Definition sample_sectors : list (Z * list Z) := sectors kernel_file.
#[local] Instance sample_disk : BlockDev := disk_of sample_sectors.

Definition sector_ok (b : list Z) : bool := Nat.eqb (length b) 512 && forallb (λ x, (0 <=? x) && (x <? 256)) b.

Lemma sample_disk_ok : DiskOk.
Proof.
  intros lba b Hb. assert (sector_ok b = true) as Hok.
  { assert (forallb (λ p, sector_ok p.2) sample_sectors = true) as Hall by (by vm_compute). cbn [disk sample_disk disk_of] in Hb. revert Hall Hb.
    generalize sample_sectors. induction l as [|[k x] l IH]; cbn [forallb assoc]; [done|]. intros [Hx Hl]%andb_true_iff.
    destruct (lba =? k); [intros [= ->]; exact Hx|by apply IH]. }
  unfold sector_ok in Hok. apply andb_true_iff in Hok as [Hl Hf]. split; [by apply Nat.eqb_eq|]. apply Forall_forall. intros x Hx.
  rewrite forallb_forall in Hf. specialize (Hf x ltac:(by apply list_elem_of_In)). unfold byte. lia.
Qed.

Definition volume : fat16_volume := mkVol 8 512 1 1 1 16 1 64 9 10 1 11.
Definition kernel_dirent : fat16_dirent := mkDirent KERNEL_SHORT 0x20 2 700.

Lemma volume_ok : vol_ok volume.
Proof. split; cbn; lia. Qed.

(** Readability of a few consecutive sectors, by evaluation. *)
Definition readable_b (f : Z → Z) (s : Z) (n : nat) : bool := forallb (λ k, bool_decide (is_Some (disk (f k)))) (seqZ s (Z.of_nat n)).
Lemma readable_b_spec f s n : readable_b f s n = true → readable f s n.
Proof.
  unfold readable_b. rewrite forallb_forall. intros H k Hk. specialize (H k). eapply bool_decide_eq_true_1, H.
  apply list_elem_of_In, elem_of_seqZ. lia.
Qed.

Lemma kernel_holds : file_holds volume kernel_dirent [2; 3] kernel_file.
Proof.
  split.
  - split; [done|]. split; [by vm_compute|]. exists 3. split; [by vm_compute|]. split; [done|]. split; [by vm_compute|]. exists 0xFFFF. split; [by vm_compute|].
    by right.
  - apply Forall_cons; split; [by apply readable_b_spec; vm_compute|]. apply Forall_cons; split; [by apply readable_b_spec; vm_compute|constructor].
  - by vm_compute.
  - by vm_compute.
Qed.

Lemma sectors_present lba : bool_decide (is_Some (disk lba)) = true → is_Some (disk lba).
Proof. apply bool_decide_eq_true_1. Qed.

Lemma kernel_present : kernel_on_disk kernel_file.
Proof.
  exists 8, volume, kernel_dirent, [2; 3]. split_and!.
  - assert (field (sector 1) 80 4 = 4) as E by (by vm_compute).
    split; [by apply sectors_present|by vm_compute|left; by vm_compute|by vm_compute| |by vm_compute|by vm_compute].
    intros k Hk. rewrite E in Hk. assert (k = 0 ∨ k = 1 ∨ k = 2 ∨ k = 3) as [->|[->|[->| ->]]] by lia; by apply sectors_present.
  - split; [done|by apply sectors_present|by vm_compute..].
  - by apply readable_b_spec; vm_compute.
  - by vm_compute.
  - by vm_compute.
  - exact kernel_holds.
Qed.

Fixpoint zero_bytes (a : Z) (n : nat) : gmap Z Z := match n with O => ∅ | S n => <[a := 0]> (zero_bytes (a + 1) n) end.
Lemma zero_bytes_some n : ∀ a k, 0 ≤ k < Z.of_nat n → is_Some (zero_bytes a n !! (a + k)).
Proof.
  induction n as [|n IH]; intros a k Hk; cbn [zero_bytes]; [lia|]. destruct (decide (k = 0)) as [->|Hne].
  - rewrite Z.add_0_r, lookup_insert_eq. by eexists.
  - rewrite lookup_insert_ne by lia. replace (a + k) with (a + 1 + (k - 1)) by lia. apply IH. lia.
Qed.

(** RAM above the loader. *)
Definition start (a : Z) (n : nat) : ld_state := mkLd UINT64_MAX (replicate 512 0) (zero_bytes a n) (mkBootInfo 0 0 0 0 0).
Definition st0 : ld_state := start 0x40280000 1000.

Lemma kernel_elf_ok : elf_ok kernel_file (phys st0).
Proof.
  split; [by vm_compute..| |by vm_compute]. assert (loads (phdrs kernel_file) = [mkPhdr 1 120 0xFFFF800040280000 0x40280000 580 600]) as -> by (by vm_compute).
  apply Forall_cons; split; [|constructor]. split; [by vm_compute..|]. intros k Hk. cbn [p_memsz] in Hk.
  assert (seg_dest kernel_file (mkPhdr 1 120 0xFFFF800040280000 0x40280000 580 600) = 0x40280000) as -> by (by vm_compute).
  apply zero_bytes_some. lia.
Qed.

Lemma cold_cache : cache_ok st0.
Proof. by left. Qed.
End Sample.
#[local] Existing Instance Sample.sample_disk.
Import Sample.

Lemma loader_main_boots_witness :
  wp (loader_main 0x40090000 0 0x40088000) (λ r _ s', r = (0xFFFF800040280040, 0xFFFF800040088000) ∧
    bi s' = mkBootInfo 0x40280000 600 0x40 0 0 ∧ phys s' !! 0x40280000 = Some 0xC3) (mkCpu 0 0) st0.
Proof.
  eapply wp_mono; [apply (loader_main_boots sample_disk_ok kernel_file 0x40090000 0 0x40088000);
    [exact kernel_present|exact kernel_elf_ok|exact cold_cache|by vm_compute|by vm_compute|by vm_compute|by left]|].
  intros r cpu s' (-> & -> & ->). by vm_compute.
Defined.

Lemma fat16_find_in_dir_witness :
  wp (fat16_find_in_dir volume 2 KERNEL_SHORT) (λ r _ s', r = None ∧ read_only st0 s') (mkCpu 0 0) st0.
Proof.
  eapply wp_mono; [apply (fat16_find_in_dir_terminates sample_disk_ok volume KERNEL_SHORT 2 [2; 3]);
    [exact volume_ok|done|exact cold_cache|by apply readable_b_spec; vm_compute|apply kernel_holds|apply kernel_holds]|].
  intros r cpu s' (_ & Hs & ->). split; [by vm_compute|exact Hs].
Defined.

Lemma fat16_read_file_at_witness :
  wp (fat16_read_file_at volume kernel_dirent 500 100) (λ r _ s', r = (true, replicate 100 0xC3) ∧ read_only st0 s') (mkCpu 0 0) st0.
Proof.
  eapply wp_mono; [apply (fat16_read_file_at_spec sample_disk_ok volume kernel_dirent [2; 3] kernel_file 500 100);
    [exact volume_ok|exact kernel_holds|exact cold_cache|lia|lia|lia]|].
  intros r cpu s' (_ & Hs & ->). split; [by vm_compute|exact Hs].
Defined.

Lemma fat16_find_in_cycle_witness : find_in_chain volume KERNEL_SHORT 5 MAX_CHAIN (mkCpu 0 0) st0 = Fault.
Proof.
  apply (fat16_find_in_cycle_never_returns sample_disk_ok volume KERNEL_SHORT (λ x, x = 5));
    [exact volume_ok|done| |done|exact cold_cache].
  intros x ->. split; [done|]. split; [by apply readable_b_spec; vm_compute|]. split; [by vm_compute|]. exists 5. split; [by vm_compute|done].
Defined.

(** ** What the checks do not catch *)

(** An entry size that does not divide a sector is accepted and the second
    entry is read past the end of the buffer. *)
Example gpt_entry_leaves_sector :
  @gpt_find_partition_lba (disk_of [(1, gpt_header 480); (2, layout 0 [(480%nat, replicate 16 1)] 512)]) (mkCpu 0 0) st0 = Fault.
Proof. by vm_compute. Qed.

(** A segment placed on the loader: the copy goes there before the check that
    would refuse it. *)
Example loader_overwritten_before_check :
  @loader_main (disk_of (sectors (kernel_at 0x40081000))) 0x40090000 0 0x40088000 (mkCpu 0 0) st0 = Fault.
Proof. by vm_compute. Qed.
(** Were that memory free, it would be refused. *)
Example loader_overlap_checked_after :
  @loader_main (disk_of (sectors (kernel_at 0x40081000))) 0x40090000 0 0x40088000 (mkCpu 0 0) (start 0x40081000 1000) =
    Panic "kernel overlaps loader".
Proof. by vm_compute. Qed.
