(* ===== verification/CoreApi.v ===== *)
(** * Services offered to the core (Kern/Kernel/api/core_kernel_api.c)

    The entry points the core calls: logging through the kernel log endpoint
    with the serial port as fallback, contracts, memory with per-task
    accounting and alignment, scheduling contracts, capabilities and messages.
    They run on top of the heap (KHeap), tasks and threads (Task, Sched),
    capabilities (Cap) and endpoints (Ipc).  The block calls are in
    CoreBlock.v. *)

From S2P Require Import Prelude Irq Addr Platform Pmm KHeap ObjHeap Cap Task Sched Ipc.

(** ** State *)

(** The statuses of ks_status.h that Ipc does not use. *)
Definition KS_STATUS_INVALID_STATE : Z := -2.
Definition KS_STATUS_NO_RIGHTS : Z := -3.
Definition KS_STATUS_NO_SPACE : Z := -4.
Definition KS_STATUS_NOT_FOUND : Z := -6.
Definition KS_STATUS_NOT_SUPPORTED : Z := -7.
Definition KS_STATUS_BUSY : Z := -8.
Definition KS_STATUS_INTERNAL : Z := -10.

Definition KLOG_TAG_WRITE : Z := 1.
Definition KS_CONTRACT_FAT32 : Z := 1.
Definition CORE_ALLOC_MAGIC : Z := 0x434150415A4D454D.
(** [sizeof(core_alloc_hdr_t)] and [sizeof(void * )] *)
Definition sizeof_core_hdr : Z := 16.
Definition sizeof_ptr : Z := 8.

(** [ks_contract_entry_t] *)
Record ks_contract_entry := mkEntry { e_rights : Z; e_policy : Z; e_in_use : bool }.

(** The statics of core_kernel_api.c, the bytes given to [uart_write], and the
    components called. *)
Record core_state (H : Type) := mkCore {
  co_ipc : ipc_state H;
  co_heap : kheap_state;
  g_core_caps : Z;
  g_kernel_log_ep : Z;
  g_contracts : list ks_contract_entry;
  co_uart : list Z;
}.
Arguments mkCore {H}.
Arguments co_ipc {H}.
Arguments co_heap {H}.
Arguments g_core_caps {H}.
Arguments g_kernel_log_ep {H}.
Arguments g_contracts {H}.
Arguments co_uart {H}.

(** [ks_sched_contract_t] has the fields of [task_contract_t], in its order. *)
Definition ks_sched_contract : Type := task_contract.

(** [ks_sched_stats_t] *)
Record ks_sched_stats := mkKsStats {
  ks_tick_now : Z; ks_window_start_tick : Z; ks_window_ticks : Z;
  ks_cpu_ticks_total : Z; ks_cpu_ticks_window : Z; ks_cpu_throttle_events : Z;
  ks_io_read_bytes_total : Z; ks_io_read_bytes_window : Z;
  ks_io_write_bytes_total : Z; ks_io_write_bytes_window : Z; ks_io_throttle_events : Z;
  ks_mem_bytes_current : Z; ks_mem_bytes_peak : Z; ks_mem_throttle_events : Z;
  ks_io_ops_total : Z; ks_io_ops_interactive : Z; ks_io_ops_latency : Z;
  ks_io_ops_throughput : Z; ks_io_ops_background : Z;
  ks_sched_context_switches : Z; ks_sched_yields : Z; ks_sched_preempt_switches : Z;
  ks_sched_runs_interactive : Z; ks_sched_runs_latency : Z;
  ks_sched_runs_throughput : Z; ks_sched_runs_background : Z;
}.

(** [ks_build_info_t]; the strings and the number come from the generated
    buildinfo.h. *)
Record ks_build_info := mkBuild {
  kernel_build_number : Z; build_date : string; build_version : string; build_environment : string;
  kernel_version : string; kernel_machine : string; core_name : string; core_version : string;
}.

Section ops.
Context {H : Type} {OH : ObjHeap H}.
Abbreviation CM := (M (core_state H)).

Definition ipc_lens : lens (core_state H) (ipc_state H) :=
  mkLens co_ipc (λ x s, mkCore x (co_heap s) (g_core_caps s) (g_kernel_log_ep s) (g_contracts s) (co_uart s)).
Definition kheap_lens : lens (core_state H) kheap_state :=
  mkLens co_heap (λ x s, mkCore (co_ipc s) x (g_core_caps s) (g_kernel_log_ep s) (g_contracts s) (co_uart s)).
Definition on_sched {A} (m : M sched_state A) : CM A := zoom ipc_lens (zoom sched_lens m).
Definition on_caps {A} (m : M (cap_state H) A) : CM A := zoom ipc_lens (zoom cap_lens m).
Definition on_heap {A} (m : M kheap_state A) : CM A := zoom kheap_lens m.

Definition set_contracts (l : list ks_contract_entry) : CM unit :=
  modify (λ s, mkCore (co_ipc s) (co_heap s) (g_core_caps s) (g_kernel_log_ep s) l (co_uart s)).

(** The task of the running thread; 0 is NULL. *)
Definition cka_current_task : CM Z :=
  on_sched (cur <- sched_current ;; if cur =? 0 then ret 0 else t <- get_thread cur ;; ret (th_task t)).

(** A routine of task.c on the task at [p], NULL included. *)
Definition task_call {A} (p : Z) (f : option task → A * option task) : CM A :=
  on_sched (
    if p =? 0 then ret (f None).1
    else
      s <- get_st ;;
      k <- load (tasks s !! p) ;;
      match f (Some k) with
      | (a, Some k') => modify (λ s, set_tasks (<[p := k']> (tasks s)) s) ;;; ret a
      | (a, None) => ret a
      end).
Definition task_update (p : Z) (f : option task → option task) : CM unit := task_call p (λ t, (tt, f t)).

(** ** Attachment *)

Definition cka_attach_core_caps (core_caps : Z) : CM unit :=
  modify (λ s, mkCore (co_ipc s) (co_heap s) core_caps (g_kernel_log_ep s) (g_contracts s) (co_uart s)).
Definition cka_core_caps : CM Z := gets g_core_caps.
Definition cka_attach_kernel_log_ep (endpoint_cap : Z) : CM unit :=
  modify (λ s, mkCore (co_ipc s) (co_heap s) (g_core_caps s) endpoint_cap (g_contracts s) (co_uart s)).

(** ** Logging *)

(** [uart_write]: the bytes that leave for the serial port. *)
Definition uart_write (bytes : list Z) (len : Z) : CM unit :=
  if Z.of_nat (length bytes) <? len then fault
  else modify (λ s, mkCore (co_ipc s) (co_heap s) (g_core_caps s) (g_kernel_log_ep s) (g_contracts s)
                (co_uart s ++ take (Z.to_nat len) bytes)).

(** The loop over the chunks; [s] is what is left, [stack] the 128 bytes the
    local message starts with.  Each turn takes at least a byte. *)
Fixpoint console_loop (stack s : list Z) (len : Z) (fuel : nat) : CM unit :=
  match fuel with
  | O => fault
  | S fuel =>
    if negb (0 <? len) then ret tt
    else
      let chunk := if KS_IPC_MSG_MAX <? len then KS_IPC_MSG_MAX else len in
      d <- load (copy_bytes stack s chunk) ;;
      caps <- gets g_core_caps ;;
      ep <- gets g_kernel_log_ep ;;
      st <- zoom ipc_lens (ipc_send_cap caps ep (Some (mkKsMsg KLOG_TAG_WRITE (u32 chunk) d))) ;;
      match st with
      | KS_IPC_OK => console_loop stack (drop (Z.to_nat chunk) s) (len - chunk) fuel
      | _ => uart_write s len
      end
  end.

(** [s = None] is a NULL pointer. *)
Definition cka_console_write (stack : list Z) (s : option (list Z)) (len : Z) : CM unit :=
  match s with
  | None => ret tt
  | Some s =>
    if len =? 0 then ret tt
    else
      caps <- gets g_core_caps ;;
      ep <- gets g_kernel_log_ep ;;
      if (caps =? 0) || (ep =? CAP_HANDLE_INVALID) then uart_write s len
      else console_loop stack s len (S (Z.to_nat len))
  end.

(** [strlen] on a string that ends inside [s]. *)
Fixpoint strlen (s : list Z) : option Z :=
  match s with
  | [] => None
  | b :: s => if b =? 0 then Some 0 else Z.succ <$> strlen s
  end.

Definition cka_early_log (stack : list Z) (s : option (list Z)) : CM unit :=
  match s with
  | None => ret tt
  | Some s => n <- load (strlen s) ;; cka_console_write stack (Some s) n
  end.
Definition cka_log_write (stack : list Z) (s : option (list Z)) : CM unit :=
  match s with
  | None => ret tt
  | Some s => n <- load (strlen s) ;; cka_console_write stack (Some s) n
  end.

Definition cka_get_build_info (info : ks_build_info) (out : bool) : Z + ks_build_info :=
  if negb out then inl KS_STATUS_INVALID_ARG else inr info.

(** ** Contracts *)

Fixpoint contract_slot (l : list ks_contract_entry) (i : Z) : option Z :=
  match l with
  | [] => None
  | e :: l => if negb (e_in_use e) then Some i else contract_slot l (i + 1)
  end.

Definition cka_contract_open (kind rights policy : Z) (out : bool) : CM (Z + Z) :=
  if negb out then ret (inl KS_STATUS_INVALID_ARG)
  else if negb (kind =? KS_CONTRACT_FAT32) then ret (inl KS_STATUS_INVALID_ARG)
  else
    l <- gets g_contracts ;;
    match contract_slot l 0 with
    | Some i => set_contracts (<[Z.to_nat i := mkEntry rights policy true]> l) ;;; ret (inr (i + 1))
    | None => ret (inl KS_STATUS_OUT_OF_MEMORY)
    end.

Definition cka_contract_get (handle : Z) (out_rights out_policy : bool) : CM (Z + Z * Z) :=
  if negb out_rights || negb out_policy then ret (inl KS_STATUS_INVALID_ARG)
  else if handle =? 0 then ret (inl KS_STATUS_INVALID_ARG)
  else
    let idx := handle - 1 in
    l <- gets g_contracts ;;
    if Z.of_nat (length l) <=? idx then ret (inl KS_STATUS_INVALID_ARG)
    else
      e <- load (l !! Z.to_nat idx) ;;
      if negb (e_in_use e) then ret (inl KS_STATUS_INVALID_ARG)
      else ret (inr (e_rights e, e_policy e)).

Definition ks_from_ipc_status (st : ks_ipc_status) : Z :=
  match st with
  | KS_IPC_OK => KS_STATUS_OK
  | KS_IPC_ERR_INVALID => KS_STATUS_INVALID_ARG
  | KS_IPC_ERR_RIGHTS => KS_STATUS_NO_RIGHTS
  | KS_IPC_ERR_NO_MEM => KS_STATUS_OUT_OF_MEMORY
  | KS_IPC_ERR_CLOSED => KS_STATUS_BUSY
  | KS_IPC_ERR_EMPTY => KS_STATUS_BUSY
  end.

(** ** Memory *)

Definition read_word (p : Z) : CM Z := on_heap (get_word p).
Definition write_word (p w : Z) : CM unit := on_heap (upd_mem <[p := w]>).

Definition cka_kmalloc (size : Z) : CM Z :=
  let total := u64 (size + sizeof_core_hdr) in
  task <- cka_current_task ;;
  ok <- (if task =? 0 then ret true else task_call task (λ t, task_allow_mem_alloc t size)) ;;
  if negb ok then ret 0
  else
    hdr <- on_heap (kmalloc total) ;;
    if hdr =? 0 then ret 0
    else
      write_word hdr CORE_ALLOC_MAGIC ;;;
      write_word (u64 (hdr + 8)) size ;;;
      when (negb (task =? 0)) (task_update task (λ t, task_account_mem_alloc t size)) ;;;
      ret (u64 (hdr + sizeof_core_hdr)).

Definition cka_kfree (ptr : Z) : CM unit :=
  if ptr =? 0 then ret tt
  else
    let hdr := u64 (ptr - sizeof_core_hdr) in
    magic <- read_word hdr ;;
    if magic =? CORE_ALLOC_MAGIC then
      task <- cka_current_task ;;
      when (negb (task =? 0))
        (sz <- read_word (u64 (hdr + 8)) ;; task_update task (λ t, task_account_mem_free t sz)) ;;;
      write_word hdr 0 ;;;
      on_heap (kfree hdr)
    else on_heap (kfree ptr).

(** [p <<= 1] until [p >= x]; [None] when the iterations allowed run out. *)
Fixpoint pow2_loop (x p : Z) (fuel : nat) : option Z :=
  match fuel with
  | O => None
  | S fuel => if p <? x then pow2_loop x (u64 (Z.shiftl p 1)) fuel else Some p
  end.
(** 64 doublings reach every power of two of the type. *)
Definition POW2_FUEL : nat := 65.
Definition round_up_pow2_size (x : Z) : option Z :=
  if x <=? 1 then Some 1 else pow2_loop x 1 POW2_FUEL.

Definition cka_malloc (size alignment : Z) : CM Z :=
  let alignment := if alignment <? sizeof_ptr then sizeof_ptr else alignment in
  alignment <- load (round_up_pow2_size alignment) ;;
  let extra := u64 (u64 (alignment - 1) + sizeof_ptr) in
  raw <- cka_kmalloc (u64 (size + extra)) ;;
  if raw =? 0 then ret 0
  else
    let base := u64 (raw + sizeof_ptr) in
    let aligned := Z.land (u64 (base + u64 (alignment - 1))) (u64_not (u64 (alignment - 1))) in
    write_word (u64 (aligned - sizeof_ptr)) raw ;;;
    ret aligned.

Definition cka_free (ptr : Z) : CM unit :=
  if ptr =? 0 then ret tt
  else raw <- read_word (u64 (ptr - sizeof_ptr)) ;; cka_kfree raw.

(** ** Scheduling *)

Definition cka_yield (sp : Z) : CM resume := on_sched (yield sp).

(** One turn of [while (ticks--) yield();]: [None] is the return; otherwise
    the count for the next turn, which starts when the thread runs again. *)
Definition cka_sleep_ticks (ticks sp : Z) : CM (option (Z * resume)) :=
  if ticks =? 0 then ret None
  else r <- on_sched (yield sp) ;; ret (Some (ticks - 1, r)).

(** The running thread and its task, or [None]: one of them is NULL. *)
Definition current_with_task : CM (option (Z * Z)) :=
  cur <- on_sched sched_current ;;
  if cur =? 0 then ret None
  else
    t <- on_sched (get_thread cur) ;;
    if th_task t =? 0 then ret None else ret (Some (cur, th_task t)).

Definition cka_sched_set_contract (contract : option ks_sched_contract) : CM Z :=
  match contract with
  | None => ret KS_STATUS_INVALID_ARG
  | Some tc =>
    r <- current_with_task ;;
    match r with
    | None => ret KS_STATUS_INVALID_STATE
    | Some (cur, tk) =>
      now <- on_sched sched_ticks_now ;;
      task_update tk (λ t, task_set_contract t (Some tc) now) ;;;
      on_sched (sched_set_thread_intent cur (k_intent tc)) ;;;
      ret KS_STATUS_OK
    end
  end.

Definition cka_sched_get_contract (out : bool) : CM (Z + ks_sched_contract) :=
  if negb out then ret (inl KS_STATUS_INVALID_ARG)
  else
    r <- current_with_task ;;
    match r with
    | None => ret (inl KS_STATUS_INVALID_STATE)
    | Some (_, tk) =>
      k <- task_call tk (λ t, (task_get_contract t, t)) ;;
      tc <- load k ;;
      ret (inr tc)
    end.

Definition cka_sched_get_stats (out : bool) : CM (Z + ks_sched_stats) :=
  if negb out then ret (inl KS_STATUS_INVALID_ARG)
  else
    r <- current_with_task ;;
    match r with
    | None => ret (inl KS_STATUS_INVALID_STATE)
    | Some (_, tk) =>
      ss <- on_sched (gets sched_get_stats) ;;
      o <- task_call tk (λ t, (task_get_stats t (tick_now ss), t)) ;;
      ts <- load o ;;
      let w := ts_window ts in let k := ts_totals ts in let th := ts_throttle ts in
      ret (inr (mkKsStats (ts_tick_now ts) (ts_window_start_tick ts) (ts_window_ticks ts)
        (cpu_ticks_total k) (cpu_ticks_window w) (cpu_throttle_events th)
        (io_read_bytes_total k) (io_read_bytes_window w) (io_write_bytes_total k) (io_write_bytes_window w)
        (io_throttle_events th) (mem_bytes_current k) (mem_bytes_peak k) (mem_throttle_events th)
        (io_ops_total k) (io_ops_interactive k) (io_ops_latency k) (io_ops_throughput k) (io_ops_background k)
        (context_switches ss) (yield_calls ss) (preempt_switches ss)
        (intent_runs ss INTERACTIVE) (intent_runs ss LATENCY) (intent_runs ss THROUGHPUT) (intent_runs ss BACKGROUND)))
    end.

Definition cka_sched_set_current_thread_intent (intent : Z) : CM Z :=
  cur <- on_sched sched_current ;;
  if cur =? 0 then ret KS_STATUS_INVALID_STATE
  else on_sched (sched_set_thread_intent cur intent) ;;; ret KS_STATUS_OK.

(** ** Capabilities *)

(** The status of [cap_create] is returned as it is. *)
Definition cka_cap_create (ty : cap_type) (rights obj : Z) (out : bool) : CM (Z + Z) :=
  caps <- gets g_core_caps ;;
  if (caps =? 0) || negb out then ret (inl KS_STATUS_INVALID_ARG)
  else
    r <- on_caps (cap_create caps ty rights obj out) ;;
    ret (match r with inl st => inl (cap_status_code st) | inr h => inr h end).

Definition cka_cap_retain (id : Z) : CM Z :=
  caps <- gets g_core_caps ;;
  if caps =? 0 then ret KS_STATUS_INVALID_STATE
  else
    e <- on_caps (cap_lookup caps id 0) ;;
    ret (if negb (e =? 0) then KS_STATUS_OK else KS_STATUS_NOT_FOUND).

(** [CAP_ERR_NO_SPACE] is [CAP_ERR_NO_SLOTS]. *)
Definition cka_cap_release (id : Z) : CM Z :=
  caps <- gets g_core_caps ;;
  if caps =? 0 then ret KS_STATUS_INVALID_STATE
  else
    st <- on_caps (cap_drop caps id) ;;
    ret (match st with
         | CAP_OK => KS_STATUS_OK
         | CAP_ERR_INVALID => KS_STATUS_NOT_FOUND
         | CAP_ERR_DENIED => KS_STATUS_NO_RIGHTS
         | CAP_ERR_NO_SLOTS => KS_STATUS_OUT_OF_MEMORY
         | CAP_ERR_NO_MEM => KS_STATUS_INTERNAL
         end).

(** ** Messages *)

Definition cka_ipc_send (endpoint_cap : Z) (msg : option ks_ipc_msg) : CM Z :=
  caps <- gets g_core_caps ;;
  if (caps =? 0) || bool_decide (msg = None) then ret KS_STATUS_INVALID_ARG
  else st <- zoom ipc_lens (ipc_send_cap caps endpoint_cap msg) ;; ret (ks_from_ipc_status st).

(** [inl] is a return with the caller's buffer; [inr] says on which endpoint
    the thread waits and how the scheduler went on. *)
Definition cka_ipc_recv (endpoint_cap : Z) (msg : option ks_ipc_msg) (sp : Z) : CM (Z * option ks_ipc_msg + Z * resume) :=
  caps <- gets g_core_caps ;;
  if (caps =? 0) || bool_decide (msg = None) then ret (inl (KS_STATUS_INVALID_ARG, msg))
  else
    r <- zoom ipc_lens (ipc_recv_cap caps endpoint_cap msg sp) ;;
    ret (match r with
         | inl st => inl (ks_from_ipc_status st, msg)
         | inr (_, Returned st out) => inl (ks_from_ipc_status st, Some out)
         | inr (e, Turned r) => inr (e, r)
         end).

Definition cka_ipc_try_recv (endpoint_cap : Z) (msg : option ks_ipc_msg) : CM (Z * option ks_ipc_msg) :=
  caps <- gets g_core_caps ;;
  if (caps =? 0) || bool_decide (msg = None) then ret (KS_STATUS_INVALID_ARG, msg)
  else r <- zoom ipc_lens (ipc_try_recv_cap caps endpoint_cap msg) ;; ret (ks_from_ipc_status r.1, r.2).
End ops.

(** ** The scheduler and the tasks inside the state *)

Section access.
Context {H : Type} {OH : ObjHeap H}.
Implicit Types (s : core_state H) (c : cpu_state).

Definition sched_of s : sched_state := ip_sched (co_ipc s).
Definition put_sched (ss : sched_state) s : core_state H := lset ipc_lens (lset sched_lens ss (co_ipc s)) s.
Definition put_task (p : Z) (k : task) s : core_state H :=
  put_sched (set_tasks (<[p := k]> (tasks (sched_of s))) (sched_of s)) s.

Lemma put_sched_id s : put_sched (sched_of s) s = s.
Proof. by destruct s as [[] ? ? ? ? ?]. Qed.

Lemma wp_on_sched {A} (m : M sched_state A) Q c s : wp m (λ a c' ss, Q a c' (put_sched ss s)) c (sched_of s) → wp (on_sched m) Q c s.
Proof. intros Hm. unfold on_sched. wp_steps. exact Hm. Qed.

Lemma wp_task_call {A} p k (f : option task → A * option task) a k' Q c s :
  p ≠ 0 → tasks (sched_of s) !! p = Some k → f (Some k) = (a, Some k') → Q a c (put_task p k' s) → wp (task_call p f) Q c s.
Proof.
  intros Hp Hk Hf HQ. unfold task_call. apply wp_on_sched. destruct (Z.eqb_spec p 0) as [|_]; [done|]. wp_steps.
  rewrite Hk. wp_steps. rewrite Hf. wp_steps. exact HQ.
Qed.

Lemma wp_current_task cur t Q c s : cur ≠ 0 → s_current (sched_of s) = cur → threads (sched_of s) !! cur = Some t →
  Q (th_task t) c s → wp cka_current_task Q c s.
Proof.
  intros Hc Ec Ht HQ. unfold cka_current_task, sched_current, get_thread. apply wp_on_sched. wp_steps. rewrite Ec.
  destruct (Z.eqb_spec cur 0) as [|_]; [done|]. wp_steps. rewrite Ht. wp_steps. by rewrite put_sched_id.
Qed.
End access.
