(* ===== verification/CoreMem.v ===== *)
(** * The core's memory (api/core_kernel_api.c, memory part): proofs

    Allocations of the core carry a header with a magic word and a size, and
    aligned ones store the original pointer before the block.  Over any
    sequence of calls, blocks do not meet, keep what was written to them, are
    aligned, and the bytes charged to the task are exactly those of the blocks
    it holds. *)

From S2P Require Import Prelude Irq Addr Platform Pmm KHeap ObjHeap Cap Task Sched Ipc CoreApi.

(** ** Alignment *)

(** [pow2 x]: the least power of two that is at least [x]. *)
Definition least_pow2 (x p : Z) : Prop := x ≤ p ∧ (∃ k, 0 ≤ k ∧ p = 2 ^ k) ∧ ∀ k, 0 ≤ k → x ≤ 2 ^ k → p ≤ 2 ^ k.

Lemma pow2_loop_correct x fuel : ∀ k, 0 ≤ k ≤ 63 → 1 < x ≤ 2 ^ 63 → (0 < k → 2 ^ (k - 1) < x) → (63 - Z.to_nat k < fuel)%nat →
  ∃ p, pow2_loop x (2 ^ k) fuel = Some p ∧ least_pow2 x p.
Proof.
  induction fuel as [|fuel IH]; intros k Hk Hx Hlow Hf; [lia|]. cbn [pow2_loop]. destruct (Z.ltb_spec (2 ^ k) x) as [Hlt|Hge].
  - assert (k ≠ 63) by (intros ->; lia). rewrite Z.shiftl_mul_pow2 by lia. rewrite <- Z.pow_add_r by lia.
    rewrite u64_small by (split; [by apply Z.pow_nonneg|apply Z.pow_lt_mono_r; lia]).
    apply IH; [lia|done| |lia]. intros _. by replace (k + 1 - 1) with k by lia.
  - exists (2 ^ k). split; [done|]. split; [done|]. split; [exists k; by split; [lia|]|]. intros j Hj Hxj.
    destruct (Z.le_gt_cases k j); [by apply Z.pow_le_mono_r|]. exfalso.
    assert (2 ^ j ≤ 2 ^ (k - 1)) by (apply Z.pow_le_mono_r; lia). specialize (Hlow ltac:(lia)). lia.
Qed.

Lemma round_up_correct x : 0 ≤ x ≤ 2 ^ 63 → ∃ p, round_up_pow2_size x = Some p ∧ least_pow2 (Z.max x 1) p.
Proof.
  intros Hx. unfold round_up_pow2_size. destruct (Z.leb_spec x 1) as [H1|H1].
  - exists 1. split; [done|]. rewrite Z.max_r by lia. split; [done|]. split; [by exists 0|]. intros k Hk _. pose proof (Z.pow_pos_nonneg 2 k). lia.
  - rewrite Z.max_l by lia. apply (pow2_loop_correct x POW2_FUEL 0); [lia|lia|lia|cbv; lia].
Qed.

(** Past the largest power of two the variable becomes 0 and stays below [x]:
    no number of iterations is enough. *)
Lemma pow2_loop_stuck x fuel : 0 < x → pow2_loop x 0 fuel = None.
Proof.
  intros Hx. induction fuel as [|fuel IH]; [done|]. cbn [pow2_loop]. destruct (Z.ltb_spec 0 x); [|lia]. exact IH.
Qed.
Lemma pow2_loop_diverges x fuel : ∀ k, 0 ≤ k ≤ 63 → 2 ^ 63 < x → pow2_loop x (2 ^ k) fuel = None.
Proof.
  induction fuel as [|fuel IH]; intros k Hk Hx; [done|]. cbn [pow2_loop].
  assert (2 ^ k ≤ 2 ^ 63) by (apply Z.pow_le_mono_r; lia). destruct (Z.ltb_spec (2 ^ k) x); [|lia].
  rewrite Z.shiftl_mul_pow2 by lia. rewrite <- Z.pow_add_r by lia. destruct (decide (k = 63)) as [->|].
  - by apply pow2_loop_stuck; lia.
  - rewrite u64_small by (split; [by apply Z.pow_nonneg|apply Z.pow_lt_mono_r; lia]). apply IH; [lia|done].
Qed.

(** The alignment [cka_malloc] works with. *)
Definition eff_align (a : Z) : Z := default 1 (round_up_pow2_size (if a <? sizeof_ptr then sizeof_ptr else a)).

Lemma eff_align_eq a : 0 ≤ a ≤ 2 ^ 41 → let x := if a <? sizeof_ptr then sizeof_ptr else a in
  round_up_pow2_size x = Some (eff_align a) ∧ (∃ k, 3 ≤ k ≤ 41 ∧ eff_align a = 2 ^ k) ∧ 8 ≤ eff_align a ≤ 2 ^ 41 ∧ a ≤ eff_align a.
Proof.
  intros Ha x. assert (8 ≤ x ≤ 2 ^ 41 ∧ a ≤ x) as [Hx Hax] by (unfold x, sizeof_ptr; destruct (Z.ltb_spec a 8); lia).
  destruct (round_up_correct x ltac:(lia)) as (p & E & Hle & (k & Hk & ->) & Hmin). rewrite Z.max_l in * by lia.
  assert (eff_align a = 2 ^ k) as -> by (unfold eff_align; fold x; by rewrite E). split; [done|].
  specialize (Hmin 41 ltac:(lia) ltac:(lia)).
  assert (3 ≤ k) by (destruct (Z.le_gt_cases 3 k); [done|]; assert (2 ^ k ≤ 2 ^ 2) by (apply Z.pow_le_mono_r; lia); lia).
  assert (k ≤ 41) by (apply (Z.pow_le_mono_r_iff 2); lia). split; [by exists k|]. split; [|lia]. split; [|done].
  change 8 with (2 ^ 3). by apply Z.pow_le_mono_r.
Qed.

(** Rounding an address up. *)
Lemma align_up_correct k b : 0 ≤ k ≤ 64 → 0 ≤ b → b + 2 ^ k ≤ 2 ^ 64 →
  let p := Z.land (u64 (b + u64 (2 ^ k - 1))) (u64_not (u64 (2 ^ k - 1))) in b ≤ p < b + 2 ^ k ∧ p mod 2 ^ k = 0.
Proof.
  intros Hk Hb Hs. assert (0 < 2 ^ k) by (apply Z.pow_pos_nonneg; lia). rewrite (u64_small (2 ^ k - 1)) by lia.
  rewrite u64_small by lia. cbv zeta. rewrite u64_land_not by lia. set (m := 2 ^ k) in *.
  pose proof (Z.mod_pos_bound (b + (m - 1)) m ltac:(lia)). split; [lia|]. rewrite Zminus_mod_idemp_r, Z.sub_diag. apply Z.mod_0_l. lia.
Qed.

(** ** Where heap buffers are *)

Lemma held_place s h x n : kh_abs s h → h !! x = Some n → x mod 8 = 0 ∧ CAPAZ_HH_BASE < x ∧ 16 ≤ n ∧ x + n ≤ 2 ^ 64 - PAGE_SIZE.
Proof.
  intros (st & bp & fl & sm & bg & R & Hh) Hx. pose proof (kh_shape _ _ _ _ _ _ R) as Hsh.
  assert (∀ i, 0 ≤ i < total_pages st → va st i mod 8 = 0 ∧ CAPAZ_HH_BASE ≤ va st i ≤ 2 ^ 64 - 2 * PAGE_SIZE) as Hva.
  { intros i Hi. destruct (page_va_facts st i Hsh Hi) as (Hal & Hb & E). fold (va st i) in *. split; [|split; [|lia]].
    - unfold page_aligned, PAGE_SIZE in Hal. apply Z.mod_divide in Hal as [q ->]; [|lia]. replace (q * 4096) with (q * 512 * 8) by lia. by apply Z.mod_mul.
    - rewrite E. destruct (shape_bounds st Hsh) as (? & ? & _). unfold page_pa, PAGE_SIZE. lia. }
  apply Hh in Hx as [(_ & v & b & Hv & Hx & ->)|(v & i & k & Hv & -> & ->)].
  - destruct (block_page _ _ _ _ _ _ R v b x Hv Hx) as (i & Hi & _ & Ev & Hlo & Hhi & Hb).
    destruct (Hva i Hi) as [H8 Hr]. destruct (bsize_bounds b Hb) as (Hbs & _ & Hb8). unfold PAGE_SIZE in *.
    split; [|lia]. apply elem_of_blocks_from in Hx as (j & _ & ->). rewrite Ev, Z.add_mod, H8 by lia. rewrite Z.mul_mod, Hb8 by lia. done.
  - destruct (kr_big _ _ _ _ _ _ R v i k Hv) as (Hi & Hk & Ht & -> & _). destruct (Hva i ltac:(lia)) as [H8 Hr].
    destruct (Hva (i + k - 1) ltac:(lia)) as [_ Hr']. rewrite (va_eq st i) in * by (done || lia). rewrite (va_eq st (i + k - 1)) in * by (done || lia).
    unfold sizeof_hdr, PAGE_SIZE in *. split; [|lia]. rewrite Z.add_mod, H8 by lia. done.
Qed.

(** ** Blocks with a header, by the address of the header *)

Section mem.
Context {H : Type} {OH : ObjHeap H}.
Implicit Types (s : core_state H) (c : cpu_state) (acct : gmap Z Z).

Definition words s : gmap Z Z := kh_mem (co_heap s).
Definition put_heap (h : kheap_state) s : core_state H := lset kheap_lens h s.
Definition put_word (a w : Z) s : core_state H :=
  put_heap (mkKh (kh_pmm (co_heap s)) (<[a := w]> (words s)) (g_freelist (co_heap s)) (kh_counts (co_heap s))) s.

(** The heap holds the blocks of [acct] (header address, size), each with its
    header in place. *)
Definition blocks_ok (kh : kheap_state) acct : Prop := ∃ h, kh_abs kh h ∧
  ∀ x sz, acct !! x = Some sz → ∃ n, h !! x = Some n ∧ 0 ≤ sz ∧ sz + sizeof_core_hdr ≤ n ∧
    kh_mem kh !! x = Some CORE_ALLOC_MAGIC ∧ kh_mem kh !! (x + 8) = Some sz.

(** Thread [cur] of task [tk] runs; the task is charged with [n] bytes. *)
Definition charged s (cur tk lim n : Z) : Prop :=
  cur ≠ 0 ∧ tk ≠ 0 ∧ s_current (sched_of s) = cur ∧ th_task <$> threads (sched_of s) !! cur = Some tk ∧
  ∃ k, tasks (sched_of s) !! tk = Some k ∧ task_wf k ∧ mem_bytes_limit (limits k) = lim ∧ mem_bytes_current (totals k) = n.

Definition core_ok s (cur tk lim m0 : Z) acct : Prop :=
  blocks_ok (co_heap s) acct ∧ charged s cur tk lim (m0 + map_sum acct) ∧ 0 ≤ m0 ≤ 2 ^ 62 ∧ (lim = 0 ∨ m0 + map_sum acct ≤ lim).

(** The payloads of the blocks are as they were. *)
Definition payload_kept acct s s' : Prop :=
  ∀ x sz a, acct !! x = Some sz → x + sizeof_core_hdr ≤ a < x + sizeof_core_hdr + sz → words s' !! a = words s !! a.

Lemma blocks_apart_core kh acct x y n m : blocks_ok kh acct → acct !! x = Some n → acct !! y = Some m → x ≠ y →
  apart x (n + sizeof_core_hdr) y (m + sizeof_core_hdr).
Proof.
  intros (h & (st & bp & fl & sm & bg & R & Hh) & Hb) Hx Hy Hne. destruct (Hb x n Hx) as (n' & Hx' & Hn0 & Hn & _).
  destruct (Hb y m Hy) as (m' & Hy' & Hm0 & Hm & _).
  destruct (holds_apart _ _ _ _ _ _ _ x n' y m' R Hh Hx' Hy' Hne); [left|right]; lia.
Qed.

Lemma block_place kh acct x n : blocks_ok kh acct → acct !! x = Some n →
  x mod 8 = 0 ∧ CAPAZ_HH_BASE < x ∧ 0 ≤ n ∧ x + sizeof_core_hdr + n ≤ 2 ^ 64 - PAGE_SIZE.
Proof.
  intros (h & Ha & Hb) Hx. destruct (Hb x n Hx) as (n' & Hx' & Hn0 & Hn & _).
  destruct (held_place kh h x n' Ha Hx') as (? & ? & ? & ?). unfold sizeof_core_hdr in *. split_and!; try done; lia.
Qed.

(** The blocks fit in the upper half of the address space. *)
Lemma acct_bound kh acct : blocks_ok kh acct → 0 ≤ map_sum acct ≤ 2 ^ 47.
Proof.
  intros Hok. split; [apply map_sum_nonneg; intros x n Hx; by destruct (block_place _ _ x n Hok Hx) as (_ & _ & ? & _)|].
  change (2 ^ 47) with (2 ^ 64 - CAPAZ_HH_BASE). apply map_sum_spans; [done| |].
  - intros x n Hx. destruct (block_place _ _ x n Hok Hx) as (_ & ? & ? & ?). unfold sizeof_core_hdr, PAGE_SIZE in *. lia.
  - intros x y n m Hx Hy Hne. destruct (blocks_apart_core _ _ x y n m Hok Hx Hy Hne); unfold sizeof_core_hdr in *; lia.
Qed.

(** *** Reading and updating the running task *)

Lemma wp_charged_task cur tk lim n Q c s : charged s cur tk lim n → Q tk c s → wp cka_current_task Q c s.
Proof.
  intros (Hc & _ & Ec & Ht & _) HQ. destruct (threads (sched_of s) !! cur) as [t|] eqn:E; [|done]. injection Ht as <-.
  by apply (wp_current_task cur t).
Qed.

Lemma charged_put s cur tk lim n k n' : charged s cur tk lim n → task_wf k → mem_bytes_limit (limits k) = lim →
  mem_bytes_current (totals k) = n' → charged (put_task tk k s) cur tk lim n'.
Proof.
  intros (Hc & Htk & Ec & Ht & _) Hwf Hl Hn. split_and!; try done. exists k. split; [apply lookup_insert_eq|]. done.
Qed.
Lemma charged_heap s cur tk lim n kh : charged s cur tk lim n → charged (put_heap kh s) cur tk lim n.
Proof. done. Qed.

(** *** Allocation *)

Lemma blocks_store kh acct x sz a w : blocks_ok kh acct → acct !! x = Some sz → x + sizeof_core_hdr ≤ a → a + 8 ≤ x + sizeof_core_hdr + sz →
  blocks_ok (mkKh (kh_pmm kh) (<[a := w]> (kh_mem kh)) (g_freelist kh) (kh_counts kh)) acct.
Proof.
  intros Hok Hx Ha1 Ha2. pose proof Hok as (h & Ha & Hb). destruct (Hb x sz Hx) as (n & Hn & Hs0 & Hs & _). unfold sizeof_core_hdr in *.
  exists h. split; [by apply (store_correct x n a w h kh Ha Hn); lia|]. intros y m Hy. destruct (Hb y m Hy) as (n' & Hn' & ? & ? & Hm & Hz).
  exists n'. cbn. assert (a ≠ y ∧ a ≠ y + 8) as [Hy1 Hy2].
  { destruct (decide (y = x)) as [->|Hne]; [lia|].
    destruct (blocks_apart_core _ _ x y sz m Hok Hx Hy ltac:(congruence)); unfold sizeof_core_hdr in *; lia. }
  by rewrite !lookup_insert_ne by done.
Qed.

Lemma blocks_new kh kh' acct r n size h : kh_abs kh h → kh_abs kh' (<[r := n]> h) → h !! r = None → mem_kept h kh kh' →
  size + sizeof_core_hdr ≤ n → 0 ≤ size →
  (∀ x sz, acct !! x = Some sz → ∃ n, h !! x = Some n ∧ 0 ≤ sz ∧ sz + sizeof_core_hdr ≤ n ∧
    kh_mem kh !! x = Some CORE_ALLOC_MAGIC ∧ kh_mem kh !! (x + 8) = Some sz) →
  blocks_ok (mkKh (kh_pmm kh') (<[r + 8 := size]> (<[r := CORE_ALLOC_MAGIC]> (kh_mem kh'))) (g_freelist kh') (kh_counts kh')) (<[r := size]> acct).
Proof.
  intros Ha Ha' Hr Hk Hn Hs Hb. unfold sizeof_core_hdr in *. exists (<[r := n]> h). split.
  - set (k1 := mkKh (kh_pmm kh') (<[r := CORE_ALLOC_MAGIC]> (kh_mem kh')) (g_freelist kh') (kh_counts kh')).
    assert (kh_abs k1 (<[r := n]> h)) as H1 by (apply (store_correct r n r CORE_ALLOC_MAGIC _ kh' Ha'); [apply lookup_insert_eq|lia..]).
    apply (store_correct r n (r + 8) size _ k1 H1); [apply lookup_insert_eq|lia..].
  - intros x sz [[<- <-]|[Hne Hx]]%lookup_insert_Some; cbn.
    + exists n. rewrite !lookup_insert_eq. split_and!; try done. rewrite lookup_insert_ne by lia. apply lookup_insert_eq.
    + destruct (Hb x sz Hx) as (m & Hm & Hs0 & Hsm & Hw1 & Hw2). exists m. rewrite (lookup_insert_ne h) by done. split_and!; try done.
      all: destruct Ha' as (st & bp & fl & sm & bg & R & Hh);
        destruct (holds_apart _ _ _ _ _ _ _ r n x m R Hh (lookup_insert_eq _ _ _) ltac:(by rewrite lookup_insert_ne) Hne);
        rewrite !lookup_insert_ne by lia; rewrite (Hk x m _ Hm) by lia; done.
Qed.

Lemma allow_mem_cases k size : task_wf k → 0 ≤ size → mem_bytes_current (totals k) + size < 2 ^ 64 →
  ∃ b k', task_allow_mem_alloc (Some k) size = (b, Some k') ∧ task_wf k' ∧ limits k' = limits k ∧ totals k' = totals k ∧
    (b = true → mem_bytes_limit (limits k) = 0 ∨ mem_bytes_current (totals k) + size ≤ mem_bytes_limit (limits k)).
Proof.
  intros Hwf Hs Hb. pose proof (tk_mem k Hwf) as [Hm _]. cbn [task_allow_mem_alloc]. rewrite u64_small by lia.
  destruct (Z.eqb_spec (mem_bytes_limit (limits k)) 0) as [E|Hl]; [exists true, k; tauto|].
  destruct (Z.ltb_spec (mem_bytes_limit (limits k)) (mem_bytes_current (totals k) + size)).
  - eexists false, _. split_and!; [done| |done|done|done]. by destruct Hwf.
  - exists true, k. split_and!; try done. by right.
Qed.

Lemma account_mem k size : task_wf k → 0 ≤ size → mem_bytes_current (totals k) + size < 2 ^ 64 →
  ∃ k', task_account_mem_alloc (Some k) size = Some k' ∧ task_wf k' ∧ limits k' = limits k ∧
    mem_bytes_current (totals k') = mem_bytes_current (totals k) + size.
Proof.
  intros Hwf Hs Hb. pose proof (tk_mem k Hwf) as [Hm Hp]. cbn. rewrite u64_small by lia. eexists. split; [done|]. split_and!; [|done|done].
  destruct Hwf. split; try done. cbn. destruct (Z.ltb_spec (mem_bytes_peak (totals k)) (mem_bytes_current (totals k) + size)); lia.
Qed.

Lemma account_free k size : task_wf k → 0 ≤ size ≤ mem_bytes_current (totals k) →
  ∃ k', task_account_mem_free (Some k) size = Some k' ∧ task_wf k' ∧ limits k' = limits k ∧
    mem_bytes_current (totals k') = mem_bytes_current (totals k) - size.
Proof.
  intros Hwf Hs. cbn. unfold saturating_sub_u64. eexists. split; [done|].
  assert ((if size <? mem_bytes_current (totals k) then mem_bytes_current (totals k) - size else 0) = mem_bytes_current (totals k) - size) as E
    by (destruct (Z.ltb_spec size (mem_bytes_current (totals k))); lia).
  cbn. rewrite E. split_and!; [|done|done]. destruct Hwf. split; try done. cbn. lia.
Qed.

(** What [cka_kmalloc] promises. *)
Definition kmalloc_post s (cur tk lim m0 size : Z) acct (r : Z) s' : Prop :=
  payload_kept acct s s' ∧
  ((r = 0 ∧ core_ok s' cur tk lim m0 acct) ∨
   ∃ x, r = x + sizeof_core_hdr ∧ acct !! x = None ∧ core_ok s' cur tk lim m0 (<[x := size]> acct)).

Lemma cka_kmalloc_correct size c s cur tk lim m0 acct : core_ok s cur tk lim m0 acct → irq_depth c = 0 → 0 ≤ size ≤ 2 ^ 43 - 16 →
  wp (cka_kmalloc size) (λ r c' s', c' = c ∧ kmalloc_post s cur tk lim m0 size acct r s') c s.
Proof.
  intros (Hb & Hc & Hm & Hl) Hd Hs. pose proof (acct_bound _ _ Hb) as Hsum. pose proof Hb as (h & Ha & Hblk).
  pose proof Hc as (Hcur & Htk & _ & _ & k & Hk & Hwf & Elim & Ecur).
  unfold cka_kmalloc, sizeof_core_hdr. cbv zeta. rewrite (u64_small (size + 16)) by lia. wp_step. eapply wp_charged_task; [exact Hc|].
  destruct (Z.eqb_spec tk 0) as [|_]; [done|]. cbn [negb]. destruct (allow_mem_cases k size Hwf) as (b & k1 & Ek & Hwf1 & El1 & Et1 & Hal); [lia|lia|].
  wp_step. eapply wp_task_call; [done|exact Hk|exact Ek|]. set (s1 := put_task tk k1 s).
  assert (charged s1 cur tk lim (m0 + map_sum acct)) as Hc1 by (eapply charged_put; [done|done|congruence|congruence]).
  destruct b; cbn [negb]; [|wp_steps; split; [done|]; split; [done|]; left; by split_and!].
  wp_step. unfold on_heap. wp_step. cbn [lget kheap_lens]. change (co_heap s1) with (co_heap s).
  eapply wp_mono; [apply (kmalloc_correct (size + 16) c (co_heap s) h Ha Hd); lia|]. cbv beta.
  intros r c' kh (-> & Hpost & Hkept).
  assert (payload_kept acct s (put_heap kh s1)) as Hpk.
  { intros x sz a Hx Hr. destruct (Hblk x sz Hx) as (n & Hn & _ & Hle & _). apply (Hkept x n a Hn). unfold sizeof_core_hdr in *. lia. }
  destruct Hpost as [[-> Ha']|(Hr0 & Hnone & n & Hn & Ha')].
  { cbn [Z.eqb]. wp_steps. split; [done|]. split; [exact Hpk|]. left. split; [done|]. split; [|done]. exists h. split; [done|].
    intros x sz Hx. destruct (Hblk x sz Hx) as (n & Hn & Hs0 & Hle & Hw1 & Hw2). exists n. unfold sizeof_core_hdr in *.
    split_and!; try done; cbn; rewrite (Hkept x n _ Hn) by lia; done. }
  destruct (Z.eqb_spec r 0) as [|_]; [done|]. destruct (held_place kh _ r n Ha' (lookup_insert_eq _ _ _)) as (_ & Hlo & _ & Hhi). unfold CAPAZ_HH_BASE, PAGE_SIZE in *.
  rewrite !u64_small by lia. unfold write_word, on_heap, upd_mem. wp_steps. cbn [lset lget kheap_lens co_heap kh_pmm kh_mem g_freelist kh_counts].
  pose proof (blocks_new (co_heap s) kh acct r n size h Ha Ha' Hnone Hkept Hn ltac:(lia) Hblk) as Hb'.
  assert (acct !! r = None) as Hfresh.
  { destruct (acct !! r) eqn:E; [|done]. destruct (Hblk r _ E) as (? & ? & _). congruence. }
  destruct (account_mem k1 size Hwf1) as (k2 & Ek2 & Hwf2 & El2 & Ec2); [lia|rewrite Et1; lia|].
  unfold task_update. eapply (wp_task_call tk k1); [done|apply lookup_insert_eq|by rewrite Ek2|]. wp_steps. split; [done|]. split.
  - intros x sz a Hx Hr. cbn. destruct (Hblk x sz Hx) as (m & Hxm & _ & Hle & _). unfold sizeof_core_hdr in *.
    destruct Ha' as (st & bp & fl & sm & bg & R & Hh). assert (r ≠ x) as Hne by congruence.
    destruct (holds_apart _ _ _ _ _ _ _ r n x m R Hh (lookup_insert_eq _ _ _) ltac:(by rewrite lookup_insert_ne) Hne);
      rewrite !lookup_insert_ne by lia; apply (Hkept x m a Hxm); lia.
  - right. exists r. split_and!; try done. split; [exact Hb'|]. rewrite map_sum_insert by done. split_and!; [|lia|lia|].
    + eapply charged_put; [apply charged_heap; exact Hc1|done|congruence|]. rewrite Ec2, Et1. lia.
    + destruct (Hal eq_refl); lia.
Qed.

(** *** Release *)

Lemma cka_kfree_correct x sz c s cur tk lim m0 acct : core_ok s cur tk lim m0 acct → irq_depth c = 0 → acct !! x = Some sz →
  wp (cka_kfree (x + sizeof_core_hdr)) (λ _ c' s', c' = c ∧ core_ok s' cur tk lim m0 (delete x acct) ∧ payload_kept (delete x acct) s s') c s.
Proof.
  intros (Hb & Hc & Hm & Hl) Hd Hx. pose proof (acct_bound _ _ Hb) as Hsum. pose proof (map_sum_delete acct x sz Hx) as Esum.
  destruct (block_place _ _ x sz Hb Hx) as (_ & Hlo & Hs0 & Hhi). pose proof Hb as (h & Ha & Hblk).
  destruct (Hblk x sz Hx) as (n & Hn & _ & Hle & Hw1 & Hw2). pose proof Hc as (Hcur & Htk & _ & _ & k & Hk & Hwf & Elim & Ecur).
  assert (map_Forall (λ _ v, 0 ≤ v) (delete x acct)) as Hnn.
  { intros y v [_ Hy]%lookup_delete_Some. by destruct (Hblk y v Hy) as (? & _ & ? & _). }
  apply map_sum_nonneg in Hnn. unfold cka_kfree, sizeof_core_hdr, CAPAZ_HH_BASE, PAGE_SIZE in *. destruct (Z.eqb_spec (x + 16) 0) as [|_]; [lia|].
  replace (x + 16 - 16) with x by lia. rewrite !u64_small by lia. unfold read_word, on_heap, get_word. wp_steps. cbn [lget kheap_lens].
  rewrite Hw1. wp_steps. rewrite Z.eqb_refl. wp_step. eapply wp_charged_task; [exact Hc|]. destruct (Z.eqb_spec tk 0) as [|_]; [done|]. cbn [negb].
  wp_steps. cbn [lget lset kheap_lens co_heap]. rewrite Hw2. wp_steps.
  destruct (account_free k sz Hwf) as (k2 & Ek2 & Hwf2 & El2 & Ec2); [lia|]. unfold task_update.
  eapply (wp_task_call tk k); [done|exact Hk|by rewrite Ek2|]. unfold write_word, on_heap, upd_mem. wp_steps.
  cbn [lget lset kheap_lens co_heap put_task ipc_lens].
  set (k0 := mkKh _ (<[x := 0]> _) _ _). assert (kh_abs k0 h) as Ha0 by (apply (store_correct x n x 0 h (co_heap s) Ha Hn); lia).
  eapply wp_mono; [apply (kfree_correct x n h c k0 Ha0 Hd Hn)|]. cbv beta. intros _ c' kh (-> & Ha' & Hkept). split; [done|].
  assert (∀ y m a, h !! y = Some m → y ≠ x → y ≤ a < y + m → kh_mem kh !! a = words s !! a) as Hw.
  { intros y m a Hy Hne Hr. rewrite (Hkept y m a) by (try (by rewrite lookup_delete_ne); lia). cbn. apply lookup_insert_ne. intros <-.
    destruct Ha as (st & bp & fl & sm & bg & R & Hh). destruct (holds_apart _ _ _ _ _ _ _ x n y m R Hh Hn Hy ltac:(congruence)); lia. }
  split; [split; [|split; [|split]]|].
  - exists (delete x h). split; [done|]. intros y v [Hne Hy]%lookup_delete_Some. destruct (Hblk y v Hy) as (m & Hym & Hv & Hvm & Hy1 & Hy2).
    unfold sizeof_core_hdr in *. exists m. rewrite lookup_delete_ne by done. split_and!; try done; cbn; rewrite (Hw y m _ Hym ltac:(congruence)) by lia; done.
  - eapply charged_put; [done|done|congruence|]. lia.
  - lia.
  - lia.
  - intros y v a [Hne Hy]%lookup_delete_Some Hr. destruct (Hblk y v Hy) as (m & Hym & Hv & Hvm & _). unfold sizeof_core_hdr in *.
    apply (Hw y m a Hym); [congruence|lia].
Qed.

(** ** The core as a client *)

(** A block the core holds: the size it asked for, and the alignment when it
    came from [cka_malloc]. *)
Record ublock := mkUb { ub_size : Z; ub_align : option Z }.
Record user := mkUser { u_held : gmap Z ublock; u_wrote : gmap Z Z }.
Inductive user_op := UKmalloc (size : Z) | UMalloc (size alignment : Z) | URelease (p : Z) | UStore (p a w : Z).

(** What the task is charged for a block. *)
Definition charge (b : ublock) : Z :=
  match ub_align b with None => ub_size b | Some a => ub_size b + (eff_align a - 1) + sizeof_ptr end.
Definition charges (m : gmap Z ublock) : Z := map_sum (charge <$> m).

Definition unheld (k : user) (p : Z) : bool := match u_held k !! p with None => true | Some _ => false end.

(** A pointer is given back with the call that matches the one it came from;
    words are written at their alignment and inside a block.  The core stops
    with a panic when it is given a pointer it holds already. *)
Fixpoint run_core (ops : list user_op) (k : user) : M (core_state H) user :=
  match ops with
  | [] => ret k
  | UKmalloc size :: ops =>
    r <- cka_kmalloc size ;;
    if r =? 0 then run_core ops k
    else assert_that (unheld k r) "block handed out twice" ;;; run_core ops (mkUser (<[r := mkUb size None]> (u_held k)) (u_wrote k))
  | UMalloc size a :: ops =>
    r <- cka_malloc size a ;;
    if r =? 0 then run_core ops k
    else assert_that (unheld k r) "block handed out twice" ;;; run_core ops (mkUser (<[r := mkUb size (Some a)]> (u_held k)) (u_wrote k))
  | URelease p :: ops =>
    match u_held k !! p with
    | Some b =>
      match ub_align b with None => cka_kfree p | Some _ => cka_free p end ;;;
      run_core ops (mkUser (delete p (u_held k)) (outside p (ub_size b) (u_wrote k)))
    | None => run_core ops k
    end
  | UStore p a w :: ops =>
    match u_held k !! p with
    | Some b =>
      if (p <=? a) && (a + 8 <=? p + ub_size b) && (a mod 8 =? 0)
      then write_word a w ;;; run_core ops (mkUser (u_held k) (<[a := w]> (u_wrote k)))
      else run_core ops k
    | None => run_core ops k
    end
  end.
(** Sizes and alignments for which the sums of the code do not leave 64 bits
    and its doubling loop reaches the alignment. *)
Definition user_op_ok (op : user_op) : Prop :=
  match op with
  | UKmalloc size => 0 ≤ size ≤ 2 ^ 42
  | UMalloc size a => 0 ≤ size ≤ 2 ^ 42 ∧ 0 ≤ a ≤ 2 ^ 41
  | _ => True
  end.

(** Where block [b] at [p] lies in the allocation with header [x]. *)
Definition placed (w : gmap Z Z) (b : ublock) (p x : Z) : Prop :=
  match ub_align b with
  | None => p = x + sizeof_core_hdr
  | Some a => x + sizeof_core_hdr + sizeof_ptr ≤ p ∧ p + ub_size b ≤ x + sizeof_core_hdr + charge b ∧
      p mod eff_align a = 0 ∧ w !! (p - sizeof_ptr) = Some (x + sizeof_core_hdr) ∧ 0 ≤ a ≤ 2 ^ 41
  end.
Definition owns (w : gmap Z Z) acct (own : gmap Z Z) (m : gmap Z ublock) : Prop :=
  (∀ p b, m !! p = Some b → 0 ≤ ub_size b ∧ ∃ x, own !! p = Some x ∧ acct !! x = Some (charge b) ∧ placed w b p x) ∧
  (∀ p q x, own !! p = Some x → own !! q = Some x → is_Some (m !! p) → is_Some (m !! q) → p = q).
Definition written (w : gmap Z Z) (k : user) : Prop :=
  ∀ a v, u_wrote k !! a = Some v → w !! a = Some v ∧ ∃ p b, u_held k !! p = Some b ∧ p ≤ a ∧ a + 8 ≤ p + ub_size b.
Definition user_ok s (cur tk lim m0 : Z) (k : user) : Prop := ∃ acct own,
  core_ok s cur tk lim m0 acct ∧ map_sum acct = charges (u_held k) ∧ owns (words s) acct own (u_held k) ∧ written (words s) k.

Lemma placed_range w b p x : placed w b p x → 0 ≤ ub_size b → x + sizeof_core_hdr ≤ p ∧ p + ub_size b ≤ x + sizeof_core_hdr + charge b.
Proof. unfold placed, charge, sizeof_ptr. destruct (ub_align b) as [a|]; [lia|]. intros ->. lia. Qed.

Lemma placed_kept acct s s' b p x : payload_kept acct s s' → acct !! x = Some (charge b) → 0 ≤ ub_size b →
  placed (words s) b p x → placed (words s') b p x.
Proof.
  intros Hk Hx Hs Hp. pose proof (placed_range _ _ _ _ Hp Hs) as Hr. unfold placed, sizeof_ptr, sizeof_core_hdr in *.
  destruct (ub_align b) as [a|]; [|done]. destruct Hp as (H1 & H2 & H3 & Hw & H4). split_and!; try done; try lia.
  rewrite (Hk x (charge b)); [done|done|]. unfold sizeof_core_hdr. lia.
Qed.

Lemma owned_apart s acct own m p q b d : blocks_ok (co_heap s) acct → owns (words s) acct own m → m !! p = Some b → m !! q = Some d → p ≠ q →
  ∃ x y, own !! p = Some x ∧ own !! q = Some y ∧ x ≠ y ∧ acct !! x = Some (charge b) ∧ acct !! y = Some (charge d) ∧
    placed (words s) b p x ∧ placed (words s) d q y ∧ apart x (charge b + sizeof_core_hdr) y (charge d + sizeof_core_hdr) ∧ apart p (ub_size b) q (ub_size d).
Proof.
  intros Hb [Ho Hi] Hp Hq Hne. destruct (Ho p b Hp) as (Hs & x & Hx & Hax & Hpx). destruct (Ho q d Hq) as (Hs' & y & Hy & Hay & Hqy).
  assert (x ≠ y) as Hxy by (intros ->; apply Hne, (Hi p q y); by try eexists). exists x, y. split_and!; try done.
  - by apply (blocks_apart_core (co_heap s) acct).
  - pose proof (placed_range _ _ _ _ Hpx Hs). pose proof (placed_range _ _ _ _ Hqy Hs').
    destruct (blocks_apart_core _ _ x y _ _ Hb Hax Hay Hxy); [left|right]; unfold sizeof_core_hdr in *; lia.
Qed.

(** *** Each call keeps the invariant *)

(** A new block [b] at [p] in the allocation with header [x]. *)
Lemma user_add s s' cur tk lim m0 k acct own b p x :
  core_ok s cur tk lim m0 acct → map_sum acct = charges (u_held k) → owns (words s) acct own (u_held k) → written (words s) k →
  payload_kept acct s s' → acct !! x = None → core_ok s' cur tk lim m0 (<[x := charge b]> acct) →
  placed (words s') b p x → 0 ≤ ub_size b → unheld k p = true ∧ user_ok s' cur tk lim m0 (mkUser (<[p := b]> (u_held k)) (u_wrote k)).
Proof.
  intros Hok Hsum Hown Hwr Hk Hx Hok' Hpl Hs. destruct Hown as [Ho Hi]. pose proof Hok' as (Hb' & _).
  assert (∀ q d, u_held k !! q = Some d → q ≠ p) as Hfresh.
  { intros q d Hq ->. destruct (Ho p d Hq) as (Hd & y & Hy & Hay & Hpy). assert (x ≠ y) as Hxy by congruence.
    pose proof (placed_range _ _ _ _ Hpy Hd). pose proof (placed_range _ _ _ _ Hpl Hs).
    pose proof (blocks_apart_core _ _ x y (charge b) (charge d) Hb' (lookup_insert_eq _ _ _) ltac:(by rewrite lookup_insert_ne) Hxy) as Hap.
    destruct Hap; unfold sizeof_core_hdr in *; lia. }
  assert (u_held k !! p = None) as Hn by (destruct (u_held k !! p) as [d|] eqn:E; [by destruct (Hfresh p d E)|done]). split; [unfold unheld; by rewrite Hn|].
  exists (<[x := charge b]> acct), (<[p := x]> own). split; [done|]. split; [|split; [split|]].
  - unfold charges. cbn. rewrite fmap_insert, map_sum_insert, map_sum_insert by (done || by rewrite lookup_fmap, Hn). by rewrite Hsum.
  - cbn. intros q d [[<- <-]|[Hne Hq]]%lookup_insert_Some.
    + split; [done|]. exists x. by rewrite !lookup_insert_eq.
    + destruct (Ho q d Hq) as (Hd & y & Hy & Hay & Hqy). split; [done|]. exists y. assert (x ≠ y) by congruence.
      rewrite !lookup_insert_ne by done. split_and!; try done. by eapply placed_kept.
  - cbn. intros q q' y Hq Hq' Hm Hm'. destruct (decide (q = p)) as [->|Hqp], (decide (q' = p)) as [->|Hqp']; [done|..].
    + rewrite lookup_insert_eq in Hq. injection Hq as <-. rewrite lookup_insert_ne in Hq' by done. rewrite lookup_insert_ne in Hm' by done. destruct Hm' as [d Hd].
      destruct (Ho q' d Hd) as (_ & y & Hy & Hay & _). congruence.
    + rewrite lookup_insert_eq in Hq'. injection Hq' as <-. rewrite lookup_insert_ne in Hq by done. rewrite lookup_insert_ne in Hm by done. destruct Hm as [d Hd].
      destruct (Ho q d Hd) as (_ & y & Hy & Hay & _). congruence.
    + rewrite lookup_insert_ne in Hq, Hq' by done. rewrite lookup_insert_ne in Hm, Hm' by done. by eapply Hi.
  - intros a v Ha. destruct (Hwr a v Ha) as (Hv & q & d & Hq & Hr). destruct (Ho q d Hq) as (Hd & y & Hy & Hay & Hqy). cbn. split.
    + pose proof (placed_range _ _ _ _ Hqy Hd). rewrite (Hk y (charge d) a Hay); [done|]. unfold sizeof_core_hdr in *. lia.
    + exists q, d. rewrite lookup_insert_ne by (by eapply not_eq_sym, Hfresh). done.
Qed.

Lemma user_drop s s' cur tk lim m0 k acct own b p x :
  map_sum acct = charges (u_held k) → owns (words s) acct own (u_held k) → written (words s) k → blocks_ok (co_heap s) acct →
  u_held k !! p = Some b → own !! p = Some x → payload_kept (delete x acct) s s' → core_ok s' cur tk lim m0 (delete x acct) →
  user_ok s' cur tk lim m0 (mkUser (delete p (u_held k)) (outside p (ub_size b) (u_wrote k))).
Proof.
  intros Hsum Hown Hwr Hb Hp Hpx Hk Hok'. pose proof Hown as [Ho Hi]. destruct (Ho p b Hp) as (Hs & x' & Hx' & Hax & _).
  assert (x' = x) as -> by congruence. exists (delete x acct), own. split; [done|].
  assert (∀ q d, u_held k !! q = Some d → q ≠ p → ∃ y, own !! q = Some y ∧ delete x acct !! y = Some (charge d) ∧ placed (words s') d q y) as Hoth.
  { intros q d Hq Hne. destruct (owned_apart s acct own _ q p d b Hb Hown Hq Hp Hne) as (y & x2 & Hy & Hx2 & Hyx & Hay & _ & Hpl & _).
    assert (x2 = x) as -> by congruence. exists y. assert (delete x acct !! y = Some (charge d)) as Hd by (by rewrite lookup_delete_ne).
    split_and!; [done|done|]. destruct (Ho q d Hq) as (? & _). by eapply placed_kept. }
  split; [|split; [split|]].
  - unfold charges in *. cbn. rewrite fmap_delete. rewrite (map_sum_delete acct x _ Hax) in Hsum.
    rewrite (map_sum_delete (charge <$> u_held k) p (charge b)) in Hsum by (by rewrite lookup_fmap, Hp). lia.
  - cbn. intros q d [Hne Hq]%lookup_delete_Some. destruct (Ho q d Hq) as (? & _). split; [done|]. by apply Hoth.
  - cbn. intros q q' y Hq Hq' [d [_ Hd]%lookup_delete_Some] [d' [_ Hd']%lookup_delete_Some]. apply (Hi q q' y); by try eexists.
  - intros a v [Ha Hout]%map_lookup_filter_Some. cbn in Hout |- *. destruct (Hwr a v Ha) as (Hv & q & d & Hq & Hr).
    assert (q ≠ p) as Hne by (intros ->; rewrite Hp in Hq; injection Hq as <-; apply Hout; lia).
    destruct (Hoth q d Hq Hne) as (y & Hy & Hay & Hpl). destruct (Ho q d Hq) as (Hd & _). pose proof (placed_range _ _ _ _ Hpl Hd). split.
    + rewrite (Hk y (charge d) a Hay); [done|]. unfold sizeof_core_hdr in *. lia.
    + exists q, d. by rewrite lookup_delete_ne by done.
Qed.

Lemma core_store x sz a w s cur tk lim m0 acct : core_ok s cur tk lim m0 acct → acct !! x = Some sz →
  x + sizeof_core_hdr ≤ a → a + 8 ≤ x + sizeof_core_hdr + sz → core_ok (put_word a w s) cur tk lim m0 acct.
Proof. intros (Hb & Hc & Hrest) Hx Ha1 Ha2. split; [|done]. by apply (blocks_store (co_heap s) acct x sz a w). Qed.

Lemma user_store s cur tk lim m0 k p b a w : user_ok s cur tk lim m0 k → u_held k !! p = Some b → p ≤ a → a + 8 ≤ p + ub_size b →
  user_ok (put_word a w s) cur tk lim m0 (mkUser (u_held k) (<[a := w]> (u_wrote k))).
Proof.
  intros (acct & own & Hok & Hsum & Hown & Hwr) Hp Ha1 Ha2. pose proof Hown as [Ho Hi]. pose proof Hok as (Hb & _).
  destruct (Ho p b Hp) as (Hs & x & Hx & Hax & Hpx). pose proof (placed_range _ _ _ _ Hpx Hs) as Hr.
  exists acct, own. split; [eapply core_store; [done|done|lia|lia]|]. split; [done|]. split; [split; [|done]|].
  - cbn. intros q d Hq. destruct (Ho q d Hq) as (Hd & y & Hy & Hay & Hqy). split; [done|]. exists y. split_and!; try done.
    pose proof (placed_range _ _ _ _ Hqy Hd) as Hr'. unfold placed, sizeof_ptr, sizeof_core_hdr in *. destruct (ub_align d) as [al|]; [|done].
    destruct Hqy as (Hq1 & Hq2 & Hq3 & Hw & Hq4). split_and!; try done; try lia. unfold words, put_word in *. cbn. rewrite lookup_insert_ne; [done|]. intros ->.
    destruct (decide (q = p)) as [->|Hne]; [lia|].
    destruct (owned_apart s acct own _ q p d b Hb Hown Hq Hp Hne) as (y2 & x2 & Hy2 & Hx2 & _ & _ & _ & _ & _ & Hap & _).
    assert (y2 = y) as -> by congruence. assert (x2 = x) as -> by congruence. destruct Hap; unfold sizeof_core_hdr in *; lia.
  - intros a' v Hv. cbn in Hv. apply lookup_insert_Some in Hv as [[<- <-]|[Hne Hv]]; unfold words, put_word; cbn.
    + rewrite lookup_insert_eq. split; [done|]. by exists p, b.
    + rewrite lookup_insert_ne by done. by apply Hwr.
Qed.

(** *** Aligned blocks *)

Lemma cka_malloc_correct size a c s cur tk lim m0 acct : core_ok s cur tk lim m0 acct → irq_depth c = 0 → 0 ≤ size ≤ 2 ^ 42 → 0 ≤ a ≤ 2 ^ 41 →
  let b := mkUb size (Some a) in
  wp (cka_malloc size a) (λ r c' s', c' = c ∧ payload_kept acct s s' ∧
    ((r = 0 ∧ core_ok s' cur tk lim m0 acct) ∨
     (r ≠ 0 ∧ ∃ x, acct !! x = None ∧ core_ok s' cur tk lim m0 (<[x := charge b]> acct) ∧ placed (words s') b r x))) c s.
Proof.
  intros Hok Hd Hs Ha b. destruct (eff_align_eq a Ha) as (E & (k & Hk & Ek) & Hal & _). unfold cka_malloc. cbv zeta. rewrite E. wp_steps.
  assert (charge b = size + (eff_align a - 1) + sizeof_ptr) as Ec by done. unfold sizeof_ptr in *. set (al := eff_align a) in *.
  rewrite (u64_small (al - 1)) by lia. rewrite (u64_small (al - 1 + 8)) by lia. rewrite (u64_small (size + (al - 1 + 8))) by lia.
  replace (size + (al - 1 + 8)) with (charge b) by lia.
  eapply wp_mono; [apply (cka_kmalloc_correct (charge b) c s cur tk lim m0 acct Hok Hd); lia|]. cbv beta.
  intros r c' s1 (-> & Hkept & [[-> Hok1]|(x & -> & Hnone & Hok1)]); [cbn [Z.eqb]; wp_steps; split_and!; try done; by left|].
  pose proof Hok1 as (Hb1 & _). destruct (block_place _ _ x (charge b) Hb1 (lookup_insert_eq _ _ _)) as (_ & Hlo & _ & Hhi).
  unfold sizeof_core_hdr, CAPAZ_HH_BASE, PAGE_SIZE in *. destruct (Z.eqb_spec (x + 16) 0) as [|_]; [lia|]. rewrite (u64_small (x + 16 + 8)) by lia.
  pose proof (align_up_correct k (x + 16 + 8) ltac:(lia) ltac:(lia)) as Hup. rewrite <- Ek in Hup. fold al in Hup.
  rewrite (u64_small (al - 1)) in Hup by lia. specialize (Hup ltac:(lia)). cbv zeta in Hup. set (p := Z.land _ _) in *. destruct Hup as [Hp Hmod].
  rewrite u64_small by lia. unfold write_word, on_heap, upd_mem. wp_steps. change (lset kheap_lens _ s1) with (put_word (p - 8) (x + 16) s1).
  split; [done|]. split.
  - intros y sz d Hy Hr. unfold words, put_word. cbn. rewrite lookup_insert_ne; [by eapply Hkept|]. intros <-. assert (x ≠ y) as Hxy by congruence.
    destruct (blocks_apart_core _ _ x y (charge b) sz Hb1 (lookup_insert_eq _ _ _) ltac:(by rewrite lookup_insert_ne) Hxy); unfold sizeof_core_hdr in *; lia.
  - right. split; [lia|]. exists x. split_and!; [done| |].
    + eapply core_store; [exact Hok1|apply lookup_insert_eq|unfold sizeof_core_hdr; lia..].
    + unfold placed, b. cbn [ub_align ub_size]. fold b. unfold sizeof_core_hdr, sizeof_ptr. fold al. split_and!; try done; try lia.
      unfold words, put_word. cbn. by rewrite lookup_insert_eq.
Qed.

Lemma release_correct p b c s cur tk lim m0 k : user_ok s cur tk lim m0 k → irq_depth c = 0 → u_held k !! p = Some b →
  wp (match ub_align b with None => cka_kfree p | Some _ => cka_free p end) (λ _ c' s', c' = c ∧
    user_ok s' cur tk lim m0 (mkUser (delete p (u_held k)) (outside p (ub_size b) (u_wrote k)))) c s.
Proof.
  intros (acct & own & Hok & Hsum & Hown & Hwr) Hd Hp. pose proof Hown as [Ho _]. destruct (Ho p b Hp) as (Hs & x & Hx & Hax & Hpx). pose proof Hok as (Hb & _).
  assert (wp (cka_kfree (x + sizeof_core_hdr)) (λ _ c' s', c' = c ∧
    user_ok s' cur tk lim m0 (mkUser (delete p (u_held k)) (outside p (ub_size b) (u_wrote k)))) c s) as Hfree.
  { eapply wp_mono; [by apply (cka_kfree_correct x (charge b) c s cur tk lim m0 acct)|]. cbv beta. intros _ c' s' (-> & Hok' & Hk). split; [done|].
    by apply (user_drop s s' cur tk lim m0 k acct own b p x). }
  destruct (block_place _ _ x (charge b) Hb Hax) as (_ & Hlo & _ & Hhi). pose proof (placed_range _ _ _ _ Hpx Hs) as Hr.
  unfold placed in Hpx. destruct (ub_align b) as [a|]; [|by rewrite <- Hpx in Hfree]. destruct Hpx as (Hp1 & _ & _ & Hw & _).
  unfold sizeof_ptr, sizeof_core_hdr, CAPAZ_HH_BASE, PAGE_SIZE in *. unfold cka_free, sizeof_ptr. destruct (Z.eqb_spec p 0) as [|_]; [lia|].
  rewrite (u64_small (p - 8)) by lia. unfold read_word, on_heap, get_word. wp_steps. cbn [lget kheap_lens].
  change (kh_mem (co_heap s)) with (words s). rewrite Hw. wp_steps. by destruct s.
Qed.

(** A call that changes none of the blocks. *)
Lemma user_same s s' cur tk lim m0 k acct own : map_sum acct = charges (u_held k) → owns (words s) acct own (u_held k) → written (words s) k →
  payload_kept acct s s' → core_ok s' cur tk lim m0 acct → user_ok s' cur tk lim m0 k.
Proof.
  intros Hsum [Ho Hi] Hwr Hk Hok'. exists acct, own. split_and!; try done; [split; [|done]|].
  - intros p b Hp. destruct (Ho p b Hp) as (Hs & x & Hx & Hax & Hpx). split; [done|]. exists x. split_and!; try done. by eapply placed_kept.
  - intros a v Ha. destruct (Hwr a v Ha) as (Hv & q & d & Hq & Hr). destruct (Ho q d Hq) as (Hd & y & Hy & Hay & Hqy).
    pose proof (placed_range _ _ _ _ Hqy Hd). split; [|by exists q, d]. rewrite (Hk y (charge d) a Hay); [done|]. unfold sizeof_core_hdr in *. lia.
Qed.

Lemma run_core_correct ops : ∀ k c s cur tk lim m0, user_ok s cur tk lim m0 k → irq_depth c = 0 → Forall user_op_ok ops →
  wp (run_core ops k) (λ k' c' s', c' = c ∧ user_ok s' cur tk lim m0 k') c s.
Proof.
  induction ops as [|op ops IH]; intros k c s cur tk lim m0 Hk Hd Hops; cbn [run_core]; [by wp_steps|].
  apply Forall_cons in Hops as [Hop Hops]. pose proof Hk as (acct & own & Hok & Hsum & Hown & Hwr). destruct op as [size|size a|p|p a w].
  - wp_step. eapply wp_mono; [apply (cka_kmalloc_correct size c s cur tk lim m0 acct Hok Hd); cbn in Hop; lia|]. cbv beta.
    intros r c' s' (-> & Hkept & [[-> Hok']|(x & -> & Hnone & Hok')]).
    + cbn [Z.eqb]. apply IH; try done. by eapply (user_same s s' cur tk lim m0 k acct own).
    + pose proof Hok' as (Hb' & _). destruct (block_place _ _ x size Hb' (lookup_insert_eq _ _ _)) as (_ & Hlo & _). unfold CAPAZ_HH_BASE, sizeof_core_hdr in *.
      destruct (Z.eqb_spec (x + 16) 0) as [|_]; [lia|].
      destruct (user_add s s' cur tk lim m0 k acct own (mkUb size None) (x + 16) x) as [Hun Hk']; try done; [cbn in *; lia|].
      wp_step. apply wp_assert; [done|]. by apply IH.
  - destruct Hop as [Hs Ha]. wp_step. eapply wp_mono; [apply (cka_malloc_correct size a c s cur tk lim m0 acct Hok Hd Hs Ha)|]. cbv beta.
    intros r c' s' (-> & Hkept & [[-> Hok']|(Hr & x & Hnone & Hok' & Hpl)]).
    + cbn [Z.eqb]. apply IH; try done. by eapply (user_same s s' cur tk lim m0 k acct own).
    + destruct (Z.eqb_spec r 0) as [|_]; [done|]. destruct (user_add s s' cur tk lim m0 k acct own (mkUb size (Some a)) r x) as [Hun Hk']; try done; [cbn; lia|].
      wp_step. apply wp_assert; [done|]. by apply IH.
  - destruct (u_held k !! p) as [b|] eqn:Hp; [|by apply IH]. wp_step. eapply wp_mono; [by apply release_correct|]. cbv beta.
    intros _ c' s' [-> Hk']. by apply IH.
  - destruct (u_held k !! p) as [b|] eqn:Hp; [|by apply IH]. destruct (_ && _) eqn:Eb; [|by apply IH]. bool_simpl.
    unfold write_word, on_heap, upd_mem. wp_step. wp_steps. apply IH; try done.
    change (lset kheap_lens _ s) with (put_word a w s). by apply (user_store s cur tk lim m0 k p b).
Qed.
End mem.

(** ** Theorems *)

(** C24: Over any sequence of cka_kmalloc, cka_malloc, cka_kfree and cka_free
    calls by a task with sizes up to 2^42 and alignments up to 2^41 (beyond,
    the sums of the code can wrap and its doubling loop need not end), the
    services neither panic nor fault, a block handed out is not one that is
    held and never meets one, it is aligned as asked, the words written to
    held blocks stay there, and the task is charged what cka_kmalloc was asked
    for (for an aligned block the size plus the padding and the pointer word;
    the header of the accounting is not charged), never above its memory
    limit. *)
Theorem core_memory_sound {H} {OH : ObjHeap H} ops c (s : core_state H) st cur tk lim m0 :
  g_pmm (kh_pmm (co_heap s)) = Some st → pmm_wf st → pressure_ok st (kh_pmm (co_heap s)) → irq_depth c = 0 →
  charged s cur tk lim m0 → 0 ≤ m0 ≤ 2 ^ 62 → (lim = 0 ∨ m0 ≤ lim) → Forall user_op_ok ops →
  wp (on_heap kheap_init ;;; run_core ops (mkUser ∅ ∅)) (λ k c' s', c' = c ∧
    charged s' cur tk lim (m0 + charges (u_held k)) ∧ (lim = 0 ∨ m0 + charges (u_held k) ≤ lim) ∧
    (∀ p b, u_held k !! p = Some b → p mod 8 = 0 ∧ ∀ a, ub_align b = Some a → ∃ al, least_pow2 (Z.max a 8) al ∧ p mod al = 0) ∧
    (∀ p q b d, u_held k !! p = Some b → u_held k !! q = Some d → p ≠ q → apart p (ub_size b) q (ub_size d)) ∧
    (∀ a w, u_wrote k !! a = Some w → words s' !! a = Some w)) c s.
Proof.
  intros Hg Hwf Hp Hd Hc Hm Hl Hops. wp_step. unfold on_heap. wp_step. eapply wp_mono; [by apply (kheap_init_correct c (co_heap s) st)|].
  cbv beta. intros _ c' kh [-> Ha]. eapply wp_mono; [apply (run_core_correct ops _ c (put_heap kh s) cur tk lim m0); [|done|done]|].
  { exists ∅, ∅. unfold charges. cbn. rewrite fmap_empty, map_sum_empty. split_and!; try done; try (split; by intros ? ? ?). split; [|split_and!].
    - exists ∅. split; [done|]. intros x sz Hx. by rewrite lookup_empty in Hx.
    - rewrite map_sum_empty, Z.add_0_r. exact Hc.
    - lia.
    - lia.
    - rewrite map_sum_empty. lia. }
  cbv beta. intros k c' s' (-> & acct & own & (Hb & Hc' & _ & Hl') & Hsum & Hown & Hwr). rewrite Hsum in *. pose proof Hown as [Ho _]. split_and!; try done.
  - intros p b Hpb. destruct (Ho p b Hpb) as (Hs & x & _ & Hax & Hpx). destruct (block_place _ _ x (charge b) Hb Hax) as (H8 & _).
    unfold placed in Hpx. destruct (ub_align b) as [a|].
    + destruct Hpx as (_ & _ & Hmod & _ & Ha'). destruct (eff_align_eq a Ha') as (E & (j & Hj & Ej) & _). split.
      * apply Z.mod_divide in Hmod as [q ->]; [|rewrite Ej; apply Z.pow_nonzero; lia]. rewrite Ej. replace j with (j - 3 + 3) by lia.
        rewrite Z.pow_add_r by lia. change (2 ^ 3) with 8. rewrite Z.mul_assoc. by apply Z.mod_mul.
      * intros a' [= <-]. exists (eff_align a). split; [|done]. unfold sizeof_ptr in E.
        destruct (round_up_correct (if a <? 8 then 8 else a)) as (p' & E' & Hp'); [destruct (Z.ltb_spec a 8); lia|].
        assert (p' = eff_align a) as -> by congruence. destruct (Z.ltb_spec a 8); [rewrite Z.max_r by lia|rewrite Z.max_l by lia]; revert Hp'; rewrite Z.max_l by lia; done.
    + rewrite Hpx. unfold sizeof_core_hdr. rewrite Z.add_mod, H8 by lia. done.
  - intros p q b d Hpb Hqd Hne. by destruct (owned_apart s' acct own _ p q b d Hb Hown Hpb Hqd Hne) as (? & ? & _ & _ & _ & _ & _ & _ & _ & _ & Hap).
  - intros a w Haw. by apply Hwr.
Qed.

(** round_up_pow2_size returns the least power of two that is at least
    its argument up to 2^63; above 2^63 its loop never ends. *)
Theorem round_up_pow2_size_spec x : 0 ≤ x < 2 ^ 64 →
  if 2 ^ 63 <? x then ∀ fuel, pow2_loop x 1 fuel = None
  else ∃ p, round_up_pow2_size x = Some p ∧ least_pow2 (Z.max x 1) p.
Proof.
  intros Hx. destruct (Z.ltb_spec (2 ^ 63) x); [|by apply round_up_correct; lia]. intros fuel. by apply (pow2_loop_diverges x fuel 0).
Qed.

(** *** Examples *)

(** Thread [0x1000] runs for a task that may hold 4096 bytes. *)
Definition core_sample : core_state ideal_heap :=
  mkCore (lset sched_lens (mkSched
      (<[0x1000 := mkThread 1 0x103D00 0x5000 0x100000 16384 0x104000 0 0 0 0 0 0 0 0 0 RUNNING]> ∅)
      (<[0x5000 := limited_task]> ∅) 0x800 0x1000 (λ _, 0) 0 (mkSchedStats 0 0 0 0 (λ _, 0)) 0 0 0) ipc_start)
    sample_heap 0x10 0 (replicate 64 (mkEntry 0 0 false)) [].
Definition user_ops : list user_op :=
  [UKmalloc 100; UMalloc 200 64; UMalloc 3000 8; UMalloc 2000 8; UStore 0xFFFF800040501E40 0xFFFF800040501E48 7; URelease 0xFFFF800040500F90].

(** Evaluated: the block that would pass the limit is refused. *)
Example core_run :
  match (on_heap kheap_init ;;; run_core user_ops (mkUser ∅ ∅)) thread_cpu core_sample with
  | Ret (k, _, s) => (map_to_list (u_held k), map_to_list (u_wrote k), mem_bytes_current ∘ totals <$> tasks (sched_of s) !! 0x5000)
  | _ => ([], [], None)
  end = ([(0xFFFF800040502020, mkUb 3000 (Some 8)); (0xFFFF800040501E40, mkUb 200 (Some 64))], [(0xFFFF800040501E48, 7)], Some 3286).
Proof. vm_compute. reflexivity. Qed.

Lemma core_memory_witness :
  wp (on_heap kheap_init ;;; run_core user_ops (mkUser ∅ ∅)) (λ k c' s', c' = thread_cpu ∧
    charged s' 0x1000 0x5000 4096 (0 + charges (u_held k)) ∧ (4096 = 0 ∨ 0 + charges (u_held k) ≤ 4096) ∧
    (∀ p b, u_held k !! p = Some b → p mod 8 = 0 ∧ ∀ a, ub_align b = Some a → ∃ al, least_pow2 (Z.max a 8) al ∧ p mod al = 0) ∧
    (∀ p q b d, u_held k !! p = Some b → u_held k !! q = Some d → p ≠ q → apart p (ub_size b) q (ub_size d)) ∧
    (∀ a w, u_wrote k !! a = Some w → words s' !! a = Some w)) thread_cpu core_sample.
Proof.
  apply (core_memory_sound user_ops thread_cpu core_sample five_pages 0x1000 0x5000 4096 0);
    [done|apply five_pages_wf|apply five_pressure|done| |lia|lia|].
  - split_and!; try done. exists limited_task. split; [done|]. split; [apply limited_task_wf|done].
  - repeat constructor; cbn; try lia.
Defined.

Lemma round_up_pow2_size_witness : (∀ fuel, pow2_loop (2 ^ 63 + 1) 1 fuel = None) ∧ ∃ p, round_up_pow2_size 100 = Some p ∧ least_pow2 (Z.max 100 1) p.
Proof. split; [apply (round_up_pow2_size_spec (2 ^ 63 + 1))|apply (round_up_pow2_size_spec 100)]; lia. Defined.
