(* ===== verification/CoreCalls.v ===== *)
(** * Services offered to the core: logging, contracts, scheduling, statuses

    What the calls of CoreApi.v other than the memory ones do: the bytes of a
    log write arrive once and in order, contract handles refine a list, and
    the scheduling contract reads back. *)

From S2P Require Import Prelude Irq Addr Platform Pmm KHeap ObjHeap Cap Task Sched Ipc CoreApi.

(** ** Logging *)

(** Messages that carry [bytes] to the log, in order. *)
Definition log_messages (ps : list payload) (bytes : list Z) : Prop :=
  Forall (λ p : payload, p.1 = KLOG_TAG_WRITE ∧ (0 < length p.2 ≤ 128)%nat) ps ∧ concat (snd <$> ps) = bytes.

Section log.
Context {H : Type} {OH : ObjHeap H}.
Implicit Types (s : core_state H) (c : cpu_state) (box : Z → list payload).

(** The log endpoint [e] is reachable and open. *)
Definition log_open (si : ipc_state H) (caps h e : Z) : Prop :=
  is_Some (tables (ip_cap si) !! caps) ∧ 0 ≤ h < 2 ^ 64 ∧ access si caps h CAP_R_SEND = inr e ∧
  closed <$> endpoints si !! e = Some false.

Definition same_but_ipc s s' : Prop :=
  co_heap s' = co_heap s ∧ g_core_caps s' = g_core_caps s ∧ g_kernel_log_ep s' = g_kernel_log_ep s ∧
  g_contracts s' = g_contracts s ∧ co_uart s' = co_uart s.

Lemma chunk_copy (stack bytes : list Z) n : length stack = 128%nat → (n ≤ length bytes)%nat → (n ≤ 128)%nat →
  ∃ d, copy_bytes stack bytes (Z.of_nat n) = Some d ∧ length d = 128%nat ∧ take n d = take n bytes.
Proof.
  intros Hs Hb Hn. unfold copy_bytes. rewrite Hs. destruct (Z.ltb_spec (Z.of_nat 128) (Z.of_nat n)); [lia|].
  destruct (Z.ltb_spec (Z.of_nat (length bytes)) (Z.of_nat n)); [lia|]. cbn [orb]. rewrite Nat2Z.id. eexists. split; [done|]. split.
  - rewrite length_app, length_take, length_drop. lia.
  - rewrite take_app_le by (rewrite length_take; lia). by rewrite take_take, Nat.min_id.
Qed.

Lemma console_loop_correct stack fuel : length stack = 128%nat → ∀ bytes c s lv ql box rq e,
  ipc_inv (co_ipc s) lv ql box rq ∅ → cpu_wf c → irq_depth c = 0 → log_open (co_ipc s) (g_core_caps s) (g_kernel_log_ep s) e →
  (length bytes < fuel)%nat →
  wpe (console_loop stack bytes (Z.of_nat (length bytes)) fuel) (λ _ c' s', c' = c ∧ same_but_ipc s s' ∧
    ∃ lv' ql' box' rq' ps, ipc_inv (co_ipc s') lv' ql' box' rq' ∅ ∧ (∀ i, i ≠ e → box' i = box i) ∧
      box' e = box e ++ ps ∧ log_messages ps bytes) (λ x, x = "ipc_msg_alloc: OOM") c s.
Proof.
  intros Hst. induction fuel as [|fuel IH]; intros bytes c s lv ql box rq e I Hwf Hd Hlog Hf; [lia|]. cbn [console_loop].
  destruct (Z.ltb_spec 0 (Z.of_nat (length bytes))) as [Hpos|Hz]; cbn [negb]; last first.
  { apply wpe_wp. wp_steps. destruct bytes; [|cbn in Hz; lia]. split; [done|]. split; [by split_and!|]. exists lv, ql, box, rq, []. rewrite app_nil_r. by split_and!. }
  set (n := Nat.min 128 (length bytes)).
  replace (if KS_IPC_MSG_MAX <? Z.of_nat (length bytes) then KS_IPC_MSG_MAX else Z.of_nat (length bytes)) with (Z.of_nat n)
    by (unfold KS_IPC_MSG_MAX; destruct (Z.ltb_spec 128 (Z.of_nat (length bytes))); lia).
  destruct (chunk_copy stack bytes n Hst ltac:(lia) ltac:(lia)) as (d & Ed & Hld & Htk). rewrite Ed. wpe_step. wp_steps. wpe_step. wp_steps. wpe_step. wp_steps.
  destruct Hlog as ([tbl Ht] & Hh & Hacc & Hcl). rewrite u32_small by lia. set (msg := mkKsMsg KLOG_TAG_WRITE (Z.of_nat n) d).
  apply wpe_bind, wpe_zoom. cbn [lget ipc_lens].
  eapply wpe_mono; [eapply (send_correct (g_core_caps s) tbl (g_kernel_log_ep s) msg c (co_ipc s) lv ql box rq); try done|].
  { split; [unfold msg; cbn [ks_len]; lia|done]. } { unfold msg, KS_IPC_MSG_MAX. cbn [ks_len]. lia. }
  cbv beta. rewrite Hacc. intros st c' si (-> & Hk & ep & Hep & Hpost). rewrite Hep in Hcl. injection Hcl as Hcl. rewrite Hcl in Hpost.
  destruct Hpost as (-> & lv1 & ql1 & rq1 & I1 & Hreg & _). replace (Z.of_nat (length bytes) - Z.of_nat n) with (Z.of_nat (length (drop n bytes)))
    by (rewrite length_drop; lia). rewrite Nat2Z.id.
  set (s1 := lset ipc_lens si s). eapply wpe_mono; [apply (IH (drop n bytes) c s1 lv1 ql1 (on e (box e ++ [sent msg]) box) rq1 e); try done|].
  - split; [|split; [exact Hh|split]]; unfold s1; cbn.
    + exists tbl. by rewrite (proj1 Hk).
    + unfold access in *. by rewrite (caps_kept_view _ _ _ _ Hk).
    + unfold registered in Hreg. destruct (endpoints si !! e) as [ep1|]; [|done]. injection Hreg as _ E. cbn. by rewrite E.
  - rewrite length_drop. lia.
  - cbv beta. intros _ c' s' (-> & Hsame & lv' & ql' & box' & rq' & ps & I' & Hoth & He & [Hps Hcat]). split; [done|]. split; [exact Hsame|].
    exists lv', ql', box', rq', (sent msg :: ps). split_and!; [done| | |split].
    + intros i Hi. rewrite Hoth by done. by apply on_ne.
    + rewrite He, on_eq, <- app_assoc. done.
    + constructor; [|done]. unfold sent, msg. cbn [fst snd ks_tag ks_len ks_data]. rewrite Nat2Z.id, Htk, length_take. split; [done|]. subst n. lia.
    + rewrite fmap_cons. cbn [concat]. rewrite Hcat. unfold sent, msg. cbn [fst snd ks_tag ks_len ks_data]. rewrite Nat2Z.id, Htk. apply take_drop.
Qed.

(** Where a log write goes: the endpoint, when it is attached, reachable and
    open; otherwise the serial port ([None]). *)
Definition log_target s : option Z :=
  if (g_core_caps s =? 0) || (g_kernel_log_ep s =? CAP_HANDLE_INVALID) then None
  else match access (co_ipc s) (g_core_caps s) (g_kernel_log_ep s) CAP_R_SEND with
       | inr e => match closed <$> endpoints (co_ipc s) !! e with Some false => Some e | _ => None end
       | inl _ => None
       end.

Definition write_uart s (bytes : list Z) : core_state H :=
  mkCore (co_ipc s) (co_heap s) (g_core_caps s) (g_kernel_log_ep s) (g_contracts s) (co_uart s ++ bytes).

Lemma wp_uart_write bytes Q c s : Q tt c (write_uart s bytes) → wp (uart_write bytes (Z.of_nat (length bytes))) Q c s.
Proof.
  intros HQ. unfold uart_write. rewrite Z.ltb_irrefl. wp_steps. by rewrite Nat2Z.id, take_ge by lia.
Qed.

(** The first chunk is refused: everything goes to the serial port. *)
Lemma console_refused stack fuel bytes c s lv ql box rq : length stack = 128%nat →
  ipc_inv (co_ipc s) lv ql box rq ∅ → cpu_wf c → irq_depth c = 0 → is_Some (tables (ip_cap (co_ipc s)) !! g_core_caps s) →
  0 ≤ g_kernel_log_ep s < 2 ^ 64 → g_core_caps s ≠ 0 → g_kernel_log_ep s ≠ CAP_HANDLE_INVALID → log_target s = None → bytes ≠ [] →
  wpe (console_loop stack bytes (Z.of_nat (length bytes)) (S fuel)) (λ _ c' s', c' = c ∧ s' = write_uart s bytes) (λ x, x = "ipc_msg_alloc: OOM") c s.
Proof.
  intros Hst I Hwf Hd [tbl Ht] Hh Hc0 Hep0 Hlt Hne. cbn [console_loop]. assert (0 < length bytes)%nat by (destruct bytes; [done|cbn; lia]).
  destruct (Z.ltb_spec 0 (Z.of_nat (length bytes))) as [_|]; [|lia]. cbn [negb]. set (n := Nat.min 128 (length bytes)).
  replace (if KS_IPC_MSG_MAX <? Z.of_nat (length bytes) then KS_IPC_MSG_MAX else Z.of_nat (length bytes)) with (Z.of_nat n)
    by (unfold KS_IPC_MSG_MAX; destruct (Z.ltb_spec 128 (Z.of_nat (length bytes))); lia).
  destruct (chunk_copy stack bytes n Hst ltac:(lia) ltac:(lia)) as (d & Ed & Hld & Htk). rewrite Ed. wpe_step. wp_steps. wpe_step. wp_steps. wpe_step. wp_steps.
  rewrite u32_small by lia. set (msg := mkKsMsg KLOG_TAG_WRITE (Z.of_nat n) d). apply wpe_bind, wpe_zoom. cbn [lget ipc_lens].
  eapply wpe_mono; [eapply (send_correct (g_core_caps s) tbl (g_kernel_log_ep s) msg c (co_ipc s) lv ql box rq); try done|].
  { split; [unfold msg; cbn [ks_len]; lia|done]. } { unfold msg, KS_IPC_MSG_MAX. cbn [ks_len]. lia. }
  cbv beta. intros st c' si (-> & _ & Hpost). unfold log_target in Hlt.
  rewrite (proj2 (Z.eqb_neq _ _) Hc0), (proj2 (Z.eqb_neq _ _) Hep0) in Hlt. cbn [orb] in Hlt.
  assert (si = co_ipc s ∧ st ≠ KS_IPC_OK) as [-> Hst'].
  { destruct (access _ _ _ _) as [err|e] eqn:Ea.
    - destruct Hpost as [-> ->]. split; [done|]. intros ->. unfold access in Ea. by repeat case_match.
    - destruct Hpost as (ep & Hep & Hpost). rewrite Hep in Hlt. cbn in Hlt. destruct (closed ep); [|done]. by destruct Hpost as [-> ->]. }
  assert (wp (uart_write bytes (Z.of_nat (length bytes))) (λ _ c' s', c' = c ∧ s' = write_uart s bytes) c (lset ipc_lens (co_ipc s) s)) as Hu
    by (by apply wp_uart_write; destruct s).
  apply wpe_wp. by destruct st.
Qed.
End log.

(** C29: cka_console_write with the log endpoint attached queues exactly the
    given bytes on it, in order, in messages of at most 128 bytes, when the
    handle may send; otherwise the bytes go to the serial port. The only panic
    is out of memory. *)
Theorem cka_console_write_spec {H} {OH : ObjHeap H} stack bytes c (s : core_state H) lv ql box rq :
  length stack = 128%nat → ipc_inv (co_ipc s) lv ql box rq ∅ → cpu_wf c → irq_depth c = 0 →
  (g_core_caps s ≠ 0 → is_Some (tables (ip_cap (co_ipc s)) !! g_core_caps s)) → 0 ≤ g_kernel_log_ep s < 2 ^ 64 →
  wpe (cka_console_write stack (Some bytes) (Z.of_nat (length bytes))) (λ _ c' s', c' = c ∧
    match log_target s with
    | None => s' = write_uart s bytes
    | Some e => same_but_ipc s s' ∧ ∃ lv' ql' box' rq' ps, ipc_inv (co_ipc s') lv' ql' box' rq' ∅ ∧ (∀ i, i ≠ e → box' i = box i) ∧
        box' e = box e ++ ps ∧ log_messages ps bytes
    end) (λ x, x = "ipc_msg_alloc: OOM") c s.
Proof.
  intros Hst I Hwf Hd Htbl Hh. unfold cka_console_write. destruct (Z.eqb_spec (Z.of_nat (length bytes)) 0) as [E0|Hn0].
  { apply wpe_wp. wp_steps. split; [done|]. destruct bytes; [|done]. destruct (log_target s) as [e|].
    - split; [by split_and!|]. exists lv, ql, box, rq, []. rewrite app_nil_r. by split_and!.
    - unfold write_uart. rewrite app_nil_r. by destruct s. }
  assert (bytes ≠ []) as Hne by (by intros ->). wpe_step. wp_steps. wpe_step. wp_steps.
  destruct (_ || _) eqn:Eo.
  { unfold log_target. rewrite Eo. apply wpe_wp, wp_uart_write. done. }
  pose proof Eo as [Ec%Z.eqb_neq Ee%Z.eqb_neq]%orb_false_iff. destruct (log_target s) as [e|] eqn:Et.
  - apply (console_loop_correct stack _ Hst bytes c s lv ql box rq e); try done; [|lia]. unfold log_target in Et. rewrite Eo in Et.
    destruct (access _ _ _ _) as [|e'] eqn:Ea; [done|]. destruct (closed <$> _) as [[]|] eqn:Ecl; [done| |done]. injection Et as <-.
    split_and!; try done; [by apply Htbl|lia..].
  - apply (console_refused stack _ bytes c s lv ql box rq); try done. by apply Htbl.
Qed.

(** ** Contracts *)

Inductive contract_op := KOpen (kind rights policy : Z) | KGet (handle : Z).
Inductive contract_reply := RHandle (r : Z + Z) | RContract (r : Z + Z * Z).

Fixpoint run_contracts {H} (ops : list contract_op) : M (core_state H) (list contract_reply) :=
  match ops with
  | [] => ret []
  | KOpen kind r p :: ops => a <- cka_contract_open kind r p true ;; l <- run_contracts ops ;; ret (RHandle a :: l)
  | KGet h :: ops => a <- cka_contract_get h true true ;; l <- run_contracts ops ;; ret (RContract a :: l)
  end.

(** The contracts as a list: an open appends, the handle is the position from
    1, and no more than 64 are ever opened. *)
Fixpoint contracts_spec (ops : list contract_op) (l : list (Z * Z)) : list contract_reply * list (Z * Z) :=
  match ops with
  | [] => ([], l)
  | KOpen kind r p :: ops =>
    let '(a, l') :=
      if negb (kind =? KS_CONTRACT_FAT32) then (inl KS_STATUS_INVALID_ARG, l)
      else if decide (length l < 64)%nat then (inr (Z.of_nat (length l) + 1), l ++ [(r, p)])
      else (inl KS_STATUS_OUT_OF_MEMORY, l) in
    let '(res, l'') := contracts_spec ops l' in (RHandle a :: res, l'')
  | KGet h :: ops =>
    let a := if h =? 0 then inl KS_STATUS_INVALID_ARG
             else match l !! Z.to_nat (h - 1) with Some rp => inr rp | None => inl KS_STATUS_INVALID_ARG end in
    let '(res, l'') := contracts_spec ops l in (RContract a :: res, l'')
  end.

Definition contract_table (l : list (Z * Z)) : list ks_contract_entry :=
  ((λ rp, mkEntry rp.1 rp.2 true) <$> l) ++ replicate (64 - length l) (mkEntry 0 0 false).

Lemma contract_slot_table l i : (length l ≤ 64)%nat →
  contract_slot (contract_table l) i = if decide (length l < 64)%nat then Some (i + Z.of_nat (length l)) else None.
Proof.
  intros Hl. unfold contract_table. assert (∀ n l' j, contract_slot (((λ rp : Z * Z, mkEntry rp.1 rp.2 true) <$> l') ++ replicate n (mkEntry 0 0 false)) j =
    if decide (0 < n)%nat then Some (j + Z.of_nat (length l')) else None) as Hgen.
  { intros n l'. induction l' as [|x l' IH]; intros j.
    - destruct n; cbn; [done|]. by rewrite Z.add_0_r.
    - cbn. rewrite IH. case_decide; [|done]. f_equal. lia. }
  rewrite Hgen. destruct (decide (0 < 64 - length l)%nat), (decide (length l < 64)%nat); (done || lia).
Qed.

Lemma contract_table_insert l r p : (length l < 64)%nat →
  <[length l := mkEntry r p true]> (contract_table l) = contract_table (l ++ [(r, p)]).
Proof.
  intros Hl. unfold contract_table. rewrite fmap_app, <- app_assoc, length_app. cbn [length fmap list_fmap app].
  replace (64 - length l)%nat with (S (64 - (length l + 1))) by lia. cbn [replicate].
  rewrite insert_app_r_alt by (rewrite length_fmap; lia). rewrite length_fmap, Nat.sub_diag. done.
Qed.

Lemma contract_table_lookup l i : (length l ≤ 64)%nat → (i < 64)%nat →
  contract_table l !! i = Some (match l !! i with Some rp => mkEntry rp.1 rp.2 true | None => mkEntry 0 0 false end).
Proof.
  intros Hl Hi. unfold contract_table. destruct (l !! i) as [rp|] eqn:E.
  - apply lookup_app_l_Some. by rewrite list_lookup_fmap, E.
  - apply lookup_ge_None in E. rewrite lookup_app_r by (by rewrite length_fmap). rewrite length_fmap. apply lookup_replicate_2. lia.
Qed.
Lemma contract_table_length l : (length l ≤ 64)%nat → length (contract_table l) = 64%nat.
Proof. intros Hl. unfold contract_table. rewrite length_app, length_fmap, length_replicate. lia. Qed.

(** The table of contracts refines a list: the n-th successful
    cka_contract_open returns handle n, at most 64 succeed, and
    cka_contract_get returns exactly the rights and policy the handle was
    opened with and refuses every other handle. *)
Theorem contracts_refine {H} ops : ∀ l c (s : core_state H), g_contracts s = contract_table l → (length l ≤ 64)%nat →
  Forall (λ op, match op with KGet h => 0 ≤ h | _ => True end) ops →
  wp (run_contracts ops) (λ res c' s', c' = c ∧ (length (contracts_spec ops l).2 ≤ 64)%nat ∧
    res = (contracts_spec ops l).1 ∧ g_contracts s' = contract_table (contracts_spec ops l).2) c s.
Proof.
  induction ops as [|op ops IH]; intros l c s Hs Hl Hops; cbn [run_contracts contracts_spec]; [by wp_steps|].
  apply Forall_cons in Hops as [Hop Hops]. destruct op as [kind r p|h]; cbv beta iota in Hop.
  - unfold cka_contract_open. cbn [negb]. destruct (Z.eqb_spec kind KS_CONTRACT_FAT32) as [_|_]; cbn [negb].
    + wp_steps. rewrite Hs, contract_slot_table, Z.add_0_l by done. case_decide as Hlt.
      * unfold set_contracts. wp_steps. rewrite Nat2Z.id, contract_table_insert by done.
        eapply wp_mono; [apply (IH (l ++ [(r, p)])); [done|rewrite length_app; cbn; lia|done]|]. cbv beta.
        intros res c' s' (-> & Hl' & -> & Hs'). destruct (contracts_spec ops (l ++ [(r, p)])) as [x l''] eqn:E. by wp_steps.
      * wp_steps. eapply wp_mono; [by apply (IH l)|]. cbv beta. intros res c' s' (-> & Hl' & -> & Hs').
        destruct (contracts_spec ops l) as [x l'']. by wp_steps.
    + wp_steps. eapply wp_mono; [by apply (IH l)|]. cbv beta. intros res c' s' (-> & Hl' & -> & Hs').
      destruct (contracts_spec ops l) as [x l'']. by wp_steps.
  - assert (wp (cka_contract_get h true true) (λ a c' s', c' = c ∧ s' = s ∧
      a = if h =? 0 then inl KS_STATUS_INVALID_ARG
          else match l !! Z.to_nat (h - 1) with Some rp => inr rp | None => inl KS_STATUS_INVALID_ARG end) c s) as Hg.
    { unfold cka_contract_get. cbn [negb orb]. destruct (Z.eqb_spec h 0) as [_|Hh]; [by wp_steps|]. wp_steps.
      rewrite Hs, contract_table_length by done. destruct (Z.leb_spec (Z.of_nat 64) (h - 1)) as [Hle|Hlt].
      - wp_steps. by rewrite (lookup_ge_None_2 l) by lia.
      - rewrite (contract_table_lookup l (Z.to_nat (h - 1))) by lia. wp_steps. by destruct (l !! _) as [[r p]|]; cbn; wp_steps. }
    wp_step. eapply wp_mono; [exact Hg|]. cbv beta. intros a c' s' (-> & -> & ->). wp_step. eapply wp_mono; [by apply (IH l)|]. cbv beta.
    intros res c' s' (-> & Hl' & -> & Hs'). destruct (contracts_spec ops l) as [x l'']. by wp_steps.
Qed.

(** ** Scheduling contracts *)

(** What is read back of a contract: the intent in range, no flags, and a
    window of 100 ticks for 0. *)
Definition normal_contract (tc : ks_sched_contract) : ks_sched_contract :=
  mkContract (intent_code (sched_intent_sanitize (k_intent tc))) 0 (if k_window_ticks tc =? 0 then 100 else k_window_ticks tc)
    (k_cpu_ticks_limit tc) (k_io_read_bytes_limit tc) (k_io_write_bytes_limit tc) (k_mem_bytes_limit tc).

Section contract.
Context {H : Type} {OH : ObjHeap H}.
Implicit Types (s : core_state H) (c : cpu_state).

(** Thread [cur], with record [t], runs for task [tk], with record [k]. *)
Definition runs_for s (cur : Z) (t : thread) (tk : Z) (k : task) : Prop :=
  cur ≠ 0 ∧ tk ≠ 0 ∧ s_current (sched_of s) = cur ∧ threads (sched_of s) !! cur = Some t ∧ th_task t = tk ∧ tasks (sched_of s) !! tk = Some k ∧
  state t = RUNNING.

Lemma wp_current_with_task cur t tk k Q c s : runs_for s cur t tk k → Q (Some (cur, tk)) c s → wp current_with_task Q c s.
Proof.
  intros (Hc & Htk & Ec & Ht & Et & _) HQ. unfold current_with_task, sched_current, get_thread. wp_step. apply wp_on_sched. wp_steps.
  rewrite Ec, put_sched_id. destruct (Z.eqb_spec cur 0) as [|_]; [done|]. wp_step. apply wp_on_sched. wp_steps. rewrite Ht. wp_steps.
  rewrite Et, put_sched_id. destruct (Z.eqb_spec tk 0) as [|_]; [done|]. wp_steps. exact HQ.
Qed.

(** The running thread is in no queue: its intent is just set. *)
Lemma set_intent_running p t raw c (ss : sched_state) : threads ss !! p = Some t → p ≠ 0 → state t = RUNNING → cpu_wf c →
  wp (sched_set_thread_intent p raw) (λ _ c' ss', c' = c ∧
    ss' = set_threads (<[p := with_intent (intent_code (sched_intent_sanitize raw)) t]> (threads ss)) ss) c ss.
Proof.
  intros Ht Hp Hr Hwf. unfold sched_set_thread_intent. destruct (Z.eqb_spec p 0) as [|_]; [done|]. wp_step. apply wp_irq_save.
  unfold get_thread. wp_steps. rewrite Ht. wp_steps. destruct (Z.eqb_spec (th_intent t) (intent_code (sched_intent_sanitize raw))) as [E|_].
  - apply wp_irq_restore; [done|]. split; [done|]. rewrite <- E. replace (with_intent (th_intent t) t) with t by (by destruct t).
    rewrite insert_id by done. by destruct ss.
  - rewrite Hr. rewrite bool_decide_false by done. cbn [andb]. wp_steps.
    unfold upd_thread, get_thread. wp_steps. rewrite Ht. wp_steps. apply wp_irq_restore; done.
Qed.
End contract.

(** cka_sched_get_contract returns the contract cka_sched_set_contract
    installed on the task of the running thread, with the intent normalized
    and without the flags, and the running thread takes the intent. *)
Theorem sched_contract_roundtrip {H} {OH : ObjHeap H} tc c (s : core_state H) cur t tk k : runs_for s cur t tk k → cpu_wf c →
  wp (st <- cka_sched_set_contract (Some tc) ;; r <- cka_sched_get_contract true ;; ret (st, r)) (λ r c' s', c' = c ∧
    r = (KS_STATUS_OK, inr (normal_contract tc)) ∧
    threads (sched_of s') = <[cur := with_intent (k_intent (normal_contract tc)) t]> (threads (sched_of s)) ∧
    ∃ k', tasks (sched_of s') = <[tk := k']> (tasks (sched_of s)) ∧ window k' = mkWindow (s_sched_ticks (sched_of s)) 0 0 0 ∧
      totals k' = totals k ∧ throttle k' = throttle k) c s.
Proof.
  intros Hr Hwf. pose proof Hr as (Hc & Htk & Ec & Ht & Et & Hk & Hrun). unfold cka_sched_set_contract. wp_steps.
  eapply wp_current_with_task; [exact Hr|]. wp_step. apply wp_on_sched. unfold sched_ticks_now. wp_steps. rewrite put_sched_id.
  unfold task_update. eapply wp_task_call; [done|exact Hk|reflexivity|]. cbv beta. wp_step.
  set (k1 := mkTask _ _ _ _ _ _ _ _). set (s1 := put_task tk k1 s). apply wp_on_sched.
  eapply wp_mono; [apply (set_intent_running cur t (k_intent tc) c (sched_of s1)); done|]. cbv beta. intros _ c' ss [-> ->]. wp_steps.
  set (s2 := put_sched _ s1). unfold cka_sched_get_contract. cbn [negb]. wp_step.
  eapply (wp_current_with_task cur (with_intent (intent_code (sched_intent_sanitize (k_intent tc))) t) tk k1).
  { split_and!; try done; [apply lookup_insert_eq|apply lookup_insert_eq]. }
  wp_step. eapply (wp_task_call tk k1); [done|apply lookup_insert_eq|reflexivity|]. wp_steps. split; [done|]. split; [done|]. split; [done|].
  exists k1. split; [|done]. unfold s2, s1. cbn. by rewrite insert_insert_eq.
Qed.

(** *** Examples *)

(** Thread [0x1000] runs; the log endpoint of Ipc's sample is attached. *)
Definition core_log : core_state ideal_heap :=
  mkCore ipc_open sample_heap 0x10 open_handle (contract_table []) [].
Definition zero_stack : list Z := replicate 128 0.
Definition log_bytes : list Z := replicate 128 65 ++ [66; 67; 68].

Lemma cka_console_write_witness :
  wpe (cka_console_write zero_stack (Some log_bytes) (Z.of_nat (length log_bytes))) (λ _ c' s', c' = thread_cpu ∧
    match log_target core_log with
    | None => s' = write_uart core_log log_bytes
    | Some e => same_but_ipc core_log s' ∧ ∃ lv' ql' box' rq' ps, ipc_inv (co_ipc s') lv' ql' box' rq' ∅ ∧ (∀ i, i ≠ e → box' i = []) ∧
        box' e = [] ++ ps ∧ log_messages ps log_bytes
    end) (λ x, x = "ipc_msg_alloc: OOM") thread_cpu core_log.
Proof.
  destruct ipc_open_inv as [lv I].
  apply (cka_console_write_spec zero_stack log_bytes thread_cpu core_log lv (λ _, []) (λ _, []) sample_qs);
    [done|exact I|done|done|intros _; exact ipc_open_table|by vm_compute].
Defined.

Lemma contracts_witness :
  let ops := [KOpen 1 5 0; KOpen 2 5 0; KOpen 1 7 1; KGet 2; KGet 3] in
  wp (run_contracts ops) (λ res c' s', c' = thread_cpu ∧ (length (contracts_spec ops []).2 ≤ 64)%nat ∧
    res = (contracts_spec ops []).1 ∧ g_contracts s' = contract_table (contracts_spec ops []).2) thread_cpu core_log.
Proof.
  apply (contracts_refine [KOpen 1 5 0; KOpen 2 5 0; KOpen 1 7 1; KGet 2; KGet 3] []); [done|cbn; lia|repeat constructor; lia].
Defined.

(** Nothing releases a contract: the 65th is refused. *)
Example contracts_run_out :
  List.last (contracts_spec (replicate 65 (KOpen 1 0 0)) []).1 (RHandle (inr 0)) = RHandle (inl KS_STATUS_OUT_OF_MEMORY).
Proof. by vm_compute. Qed.

Definition core_task : core_state ideal_heap :=
  put_sched (mkSched
    (<[0x1000 := mkThread 1 0x103D00 0x5000 0x100000 16384 0x104000 0 0 0 0 0 0 0 0 0 RUNNING]> ∅)
    (<[0x5000 := limited_task]> ∅) 0x800 0x1000 (λ _, 0) 42 (mkSchedStats 0 0 0 0 (λ _, 0)) 0 0 0) core_log.

Lemma sched_contract_witness :
  let tc := mkContract 9 1 0 10 20 30 40 in
  wp (st <- cka_sched_set_contract (Some tc) ;; r <- cka_sched_get_contract true ;; ret (st, r)) (λ r c' s',
    r = (KS_STATUS_OK, inr (mkContract 3 0 100 10 20 30 40))) thread_cpu core_task.
Proof.
  eapply wp_mono; [eapply (sched_contract_roundtrip (mkContract 9 1 0 10 20 30 40) thread_cpu core_task 0x1000 _ 0x5000 limited_task); done|].
  cbv beta. intros r c' s' (_ & -> & _). done.
Defined.

(** When memory for the entry runs out the core receives -4, which is
    [KS_STATUS_NO_SPACE] in its own numbering. *)
Fixpoint fill_table (n : nat) : M (core_state ideal_heap) (Z + Z) :=
  match n with
  | O => cka_cap_create CAP_TYPE_ENDPOINT CAP_R_READ 0x1234 true
  | S n => cka_cap_create CAP_TYPE_ENDPOINT CAP_R_READ 0x1234 true ;;; fill_table n
  end.
Example cap_create_status_not_translated :
  match fill_table 300 thread_cpu core_log with
  | Ret (r, _, _) => r = inl KS_STATUS_NO_SPACE ∧ r = inl (cap_status_code CAP_ERR_NO_MEM)
  | _ => False
  end.
Proof. by vm_compute. Qed.
