(* ===== verification/Virtio.v ===== *)
(** * Virtio block requests over memory-mapped registers

    What the two block drivers (Loader/boot_block_virtio.c and
    Kernel/dev/virtio_blk.c) share: the register numbers, the layout of the
    queue in physical memory, the request they write and how they wait for it.
    The device is hardware: a class of operations, and [VirtioBlk], the
    documented behaviour the drivers rely on. *)

From S2P Require Import Prelude.

(** ** Bytes of physical memory *)

Abbreviation bytes := (gmap Z Z).

(** The [n] low bytes of [v], least significant first. *)
Fixpoint le (n : nat) (v : Z) : list Z :=
  match n with O => [] | S n => v mod 256 :: le n (v / 256) end.
Fixpoint unle (l : list Z) : Z := match l with [] => 0 | b :: l => b + 256 * unle l end.

Fixpoint put (a : Z) (l : list Z) (m : bytes) : bytes :=
  match l with [] => m | b :: l => <[a := b]> (put (a + 1) l m) end.
Definition get (a : Z) (n : nat) (m : bytes) : option (list Z) := mapM (λ i, m !! (a + i)) (seqZ 0 (Z.of_nat n)).

Lemma length_le n v : length (le n v) = n.
Proof. revert v. induction n as [|n IH]; intros v; cbn; [done|]. by rewrite IH. Qed.
Lemma unle_le n v : unle (le n v) = v mod 256 ^ Z.of_nat n.
Proof.
  revert v. induction n as [|n IH]; intros v; cbn [le unle]; [by rewrite Z.mod_1_r|]. rewrite IH.
  rewrite Nat2Z.inj_succ, Z.pow_succ_r by lia. rewrite Z.rem_mul_r by (try apply Z.pow_nonzero; lia). lia.
Qed.
Lemma unle_le_small n v : 0 ≤ v < 256 ^ Z.of_nat n → unle (le n v) = v.
Proof. intros Hv. rewrite unle_le. by apply Z.mod_small. Qed.

Lemma lookup_put a l m x : put a l m !! x = if decide (a ≤ x < a + Z.of_nat (length l)) then l !! Z.to_nat (x - a) else m !! x.
Proof.
  revert a. induction l as [|b l IH]; intros a; cbn [put length].
  - case_decide; [lia|done].
  - destruct (decide (x = a)) as [->|Hne].
    + rewrite lookup_insert_eq. rewrite decide_True by lia. by rewrite Z.sub_diag.
    + rewrite lookup_insert_ne by done. rewrite IH. repeat case_decide; try lia; [|done].
      replace (Z.to_nat (x - a)) with (S (Z.to_nat (x - (a + 1)))) by lia. done.
Qed.

Lemma get_ext a n m m' : (∀ x, a ≤ x < a + Z.of_nat n → m' !! x = m !! x) → get a n m' = get a n m.
Proof.
  intros Hx. unfold get. apply Forall_mapM_ext, Forall_forall. intros i [Hi]%elem_of_seqZ. rewrite Hx by lia. done.
Qed.
Lemma get_some a n m l : get a n m = Some l ↔ length l = n ∧ ∀ i, (i < n)%nat → m !! (a + Z.of_nat i) = l !! i.
Proof.
  unfold get. rewrite mapM_Some. split.
  - intros Hf. pose proof (Forall2_length _ _ _ Hf) as Hl. rewrite length_seqZ, Nat2Z.id in Hl. split; [done|]. intros i Hi.
    destruct (lookup_lt_is_Some_2 l i ltac:(lia)) as [b Hb].
    rewrite Hb. apply (Forall2_lookup_lr _ _ _ i (Z.of_nat i) b Hf); [|done]. apply lookup_seqZ. lia.
  - intros [Hl Hm]. apply Forall2_same_length_lookup. split; [rewrite length_seqZ; lia|]. intros i x y Hx Hy.
    apply lookup_seqZ in Hx as [-> Hi]. rewrite Z.add_0_l. rewrite Hm by lia. exact Hy.
Qed.
Lemma get_put_same a l m : get a (length l) (put a l m) = Some l.
Proof.
  apply get_some. split; [done|]. intros i Hi. rewrite lookup_put, decide_True by lia. f_equal. lia.
Qed.
(** Ranges [a, a+n) and [b, b+k) that do not meet. *)
Definition sep (a n b k : Z) : Prop := a + n ≤ b ∨ b + k ≤ a.
Lemma get_put_sep a n b l m : sep a (Z.of_nat n) b (Z.of_nat (length l)) → get a n (put b l m) = get a n m.
Proof. intros Hs. apply get_ext. intros x Hx. rewrite lookup_put, decide_False by (unfold sep in Hs; lia). done. Qed.
Lemma get_app a n k m l l' : get a n m = Some l → get (a + Z.of_nat n) k m = Some l' → get a (n + k) m = Some (l ++ l').
Proof.
  rewrite !get_some. intros [Hl Hm] [Hl' Hm']. split; [rewrite length_app; lia|]. intros i Hi. destruct (decide (i < n)%nat) as [Hin|Hout].
  - rewrite lookup_app_l by lia. by apply Hm.
  - rewrite lookup_app_r by lia. rewrite <- Hm' by lia. f_equal. lia.
Qed.

(** Every address of a range is memory. *)
Definition mapped (a n : Z) (m : bytes) : Prop := ∀ x, a ≤ x < a + n → is_Some (m !! x).
Lemma mapped_put a n b l m : mapped a n m → mapped a n (put b l m).
Proof. intros Hm x Hx. rewrite lookup_put. case_decide; [|by apply Hm]. apply lookup_lt_is_Some_2. lia. Qed.

(** ** Registers *)

Definition VIRTIO_MMIO_MAGIC_VALUE : Z := 0x000.
Definition VIRTIO_MMIO_VERSION : Z := 0x004.
Definition VIRTIO_MMIO_DEVICE_ID : Z := 0x008.
Definition VIRTIO_MMIO_DEVICE_FEATURES : Z := 0x010.
Definition VIRTIO_MMIO_DEVICE_FEATURES_SEL : Z := 0x014.
Definition VIRTIO_MMIO_DRIVER_FEATURES : Z := 0x020.
Definition VIRTIO_MMIO_DRIVER_FEATURES_SEL : Z := 0x024.
Definition VIRTIO_MMIO_GUEST_PAGE_SIZE : Z := 0x028.
Definition VIRTIO_MMIO_QUEUE_SEL : Z := 0x030.
Definition VIRTIO_MMIO_QUEUE_NUM_MAX : Z := 0x034.
Definition VIRTIO_MMIO_QUEUE_NUM : Z := 0x038.
Definition VIRTIO_MMIO_QUEUE_ALIGN : Z := 0x03C.
Definition VIRTIO_MMIO_QUEUE_PFN : Z := 0x040.
Definition VIRTIO_MMIO_QUEUE_READY : Z := 0x044.
Definition VIRTIO_MMIO_QUEUE_NOTIFY : Z := 0x050.
Definition VIRTIO_MMIO_STATUS : Z := 0x070.
Definition VIRTIO_MMIO_QUEUE_DESC_LOW : Z := 0x080.
Definition VIRTIO_MMIO_QUEUE_DESC_HIGH : Z := 0x084.
Definition VIRTIO_MMIO_QUEUE_AVAIL_LOW : Z := 0x090.
Definition VIRTIO_MMIO_QUEUE_AVAIL_HIGH : Z := 0x094.
Definition VIRTIO_MMIO_QUEUE_USED_LOW : Z := 0x0A0.
Definition VIRTIO_MMIO_QUEUE_USED_HIGH : Z := 0x0A4.
Definition VIRTIO_MMIO_CONFIG : Z := 0x100.

Definition VIRTIO_MMIO_MAGIC : Z := 0x74726976.
Definition VIRTIO_DEVICE_BLOCK : Z := 2.
Definition VIRTIO_STATUS_ACKNOWLEDGE : Z := 1.
Definition VIRTIO_STATUS_DRIVER : Z := 2.
Definition VIRTIO_STATUS_DRIVER_OK : Z := 4.
Definition VIRTIO_STATUS_FEATURES_OK : Z := 8.
Definition VIRTIO_STATUS_FAILED : Z := 0x80.
Definition VIRTQ_DESC_F_NEXT : Z := 1.
Definition VIRTQ_DESC_F_WRITE : Z := 2.
Definition VIRTIO_BLK_T_IN : Z := 0.
Definition VIRTIO_BLK_T_OUT : Z := 1.
Definition VIRTQ_SIZE : Z := 8.
(** [sizeof(struct virtq_avail)] *)
Definition sizeof_virtq_avail : Z := 22.

(** ** The device and the machine around a driver *)

(** [dev_work]: what the device may do to memory while the driver executes an
    instruction. *)
Class VirtioBus (D : Type) := {
  reg_read : D → Z → Z → Z;
  reg_write : D → Z → Z → Z → D;
  dev_work : D → bytes → D * bytes;
}.

Record vmach (D : Type) := mkVm { vm_mem : bytes; vm_dev : D }.
Arguments mkVm {D}.
Arguments vm_mem {D}.
Arguments vm_dev {D}.

(** A little-endian field. *)
Definition field (m : bytes) (a : Z) (n : nat) : option Z := unle <$> get a n m.

(** Where the queue lies in physical memory, and its number of entries. *)
Record virtq := mkVq { q_num : Z; q_desc : Z; q_avail : Z; q_used : Z }.

Section machine.
Context {D : Type} {BUS : VirtioBus D}.
Abbreviation VM := (M (vmach D)).

Definition mmio_read (base off : Z) : VM Z := gets (λ s, reg_read (vm_dev s) base off).
Definition mmio_write (base off val : Z) : VM unit :=
  modify (λ s, mkVm (vm_mem s) (reg_write (vm_dev s) base off (u32 val))).

(** Accesses to physical memory; outside of it they fault. *)
Definition put_bytes (a : Z) (l : list Z) : VM unit :=
  s <- get_st ;; _ <- load (get a (length l) (vm_mem s)) ;; put_st (mkVm (put a l (vm_mem s)) (vm_dev s)).
Definition put_field (a : Z) (n : nat) (v : Z) : VM unit := put_bytes a (le n v).
Definition get_field (a : Z) (n : nat) : VM Z := s <- get_st ;; load (field (vm_mem s) a n).

(** Writing descriptor [i]; [desc] is the physical address of the table. *)
Definition put_desc (desc i addr len flags next : Z) : VM unit :=
  let p := desc + 16 * i in
  put_field p 8 addr ;;; put_field (p + 8) 4 len ;;; put_field (p + 12) 2 flags ;;; put_field (p + 14) 2 next.

(** The request header, the status byte, the three descriptors and the new
    entry of the available ring; [req], [buf] and [st] are physical
    addresses. *)
Definition queue_request (q : virtq) (ty lba total buf_flags req buf st : Z) : VM unit :=
  put_field req 4 ty ;;; put_field (req + 4) 4 0 ;;; put_field (req + 8) 8 lba ;;;
  put_field st 1 0xFF ;;;
  put_desc (q_desc q) 0 req 16 VIRTQ_DESC_F_NEXT 1 ;;;
  put_desc (q_desc q) 1 buf (u32 total) (Z.lor VIRTQ_DESC_F_NEXT buf_flags) 2 ;;;
  put_desc (q_desc q) 2 st 1 VIRTQ_DESC_F_WRITE 0 ;;;
  idx <- get_field (q_avail q + 2) 2 ;;
  put_field (q_avail q + 4 + 2 * (idx mod q_num q)) 2 0 ;;;
  put_field (q_avail q + 2) 2 (u16 (idx + 1)).

(** ** Steps both drivers take to bring a device up *)

(** From the status ACKNOWLEDGE | DRIVER on: accept no feature; [false] when the
    device refuses. *)
Definition negotiate_features (mmio version : Z) : VM bool :=
  (if version =? 2 then
     mmio_write mmio VIRTIO_MMIO_DEVICE_FEATURES_SEL 0 ;;;
     mmio_read mmio VIRTIO_MMIO_DEVICE_FEATURES ;;;
     mmio_write mmio VIRTIO_MMIO_DEVICE_FEATURES_SEL 1 ;;;
     mmio_read mmio VIRTIO_MMIO_DEVICE_FEATURES ;;;
     mmio_write mmio VIRTIO_MMIO_DRIVER_FEATURES_SEL 0 ;;;
     mmio_write mmio VIRTIO_MMIO_DRIVER_FEATURES 0 ;;;
     mmio_write mmio VIRTIO_MMIO_DRIVER_FEATURES_SEL 1 ;;;
     mmio_write mmio VIRTIO_MMIO_DRIVER_FEATURES 0
   else
     mmio_read mmio VIRTIO_MMIO_DEVICE_FEATURES ;;;
     mmio_write mmio VIRTIO_MMIO_DRIVER_FEATURES 0) ;;;
  let status := Z.lor (Z.lor VIRTIO_STATUS_ACKNOWLEDGE VIRTIO_STATUS_DRIVER) VIRTIO_STATUS_FEATURES_OK in
  mmio_write mmio VIRTIO_MMIO_STATUS status ;;;
  st <- mmio_read mmio VIRTIO_MMIO_STATUS ;;
  if Z.land st VIRTIO_STATUS_FEATURES_OK =? 0 then
    mmio_write mmio VIRTIO_MMIO_STATUS (Z.lor status VIRTIO_STATUS_FAILED) ;;; ret false
  else ret true.

(** The addresses of the queue of a device of version 2. *)
Definition set_queue_regs (mmio desc avail used : Z) : VM unit :=
  mmio_write mmio VIRTIO_MMIO_QUEUE_DESC_LOW (Z.land desc 0xFFFFFFFF) ;;;
  mmio_write mmio VIRTIO_MMIO_QUEUE_DESC_HIGH (Z.shiftr desc 32) ;;;
  mmio_write mmio VIRTIO_MMIO_QUEUE_AVAIL_LOW (Z.land avail 0xFFFFFFFF) ;;;
  mmio_write mmio VIRTIO_MMIO_QUEUE_AVAIL_HIGH (Z.shiftr avail 32) ;;;
  mmio_write mmio VIRTIO_MMIO_QUEUE_USED_LOW (Z.land used 0xFFFFFFFF) ;;;
  mmio_write mmio VIRTIO_MMIO_QUEUE_USED_HIGH (Z.shiftr used 32) ;;;
  mmio_write mmio VIRTIO_MMIO_QUEUE_READY 1.

(** ** Waiting *)

(** One step of the device. *)
Definition dev_step : VM unit := modify (λ s, let '(d, m) := dev_work (vm_dev s) (vm_mem s) in mkVm m d).

(** Reading memory that the device writes: it may have worked since the last
    look. *)
Definition poll_field (a : Z) (n : nat) : VM Z := dev_step ;;; get_field a n.

(** [while (used->idx == last_used)], [n] evaluations at most: whether the
    index changed in one of them.  The message about a timeout is left out. *)
Fixpoint wait_used (used last_used : Z) (n : nat) : VM bool :=
  match n with
  | O => ret false
  | S n =>
    idx <- poll_field (used + 2) 2 ;;
    if idx =? last_used then wait_used used last_used n else ret true
  end.
End machine.

(** ** The documented behaviour of a block device *)

(** The queue the registers describe: of the current interface (2), three
    addresses; of the legacy one (1), a page number. *)
Definition reg (r : gmap Z Z) (off : Z) : Z := default 0 (r !! off).
Definition reg64 (r : gmap Z Z) (lo hi : Z) : Z := reg r lo + 2 ^ 32 * reg r hi.
Definition live_queue (version : Z) (r : gmap Z Z) : option virtq :=
  if Z.testbit (reg r VIRTIO_MMIO_STATUS) 2 then
    let num := reg r VIRTIO_MMIO_QUEUE_NUM in
    if version =? 2 then
      if reg r VIRTIO_MMIO_QUEUE_READY =? 1 then
        Some (mkVq num (reg64 r VIRTIO_MMIO_QUEUE_DESC_LOW VIRTIO_MMIO_QUEUE_DESC_HIGH)
          (reg64 r VIRTIO_MMIO_QUEUE_AVAIL_LOW VIRTIO_MMIO_QUEUE_AVAIL_HIGH)
          (reg64 r VIRTIO_MMIO_QUEUE_USED_LOW VIRTIO_MMIO_QUEUE_USED_HIGH))
      else None
    else
      let pfn := reg r VIRTIO_MMIO_QUEUE_PFN in
      let al := reg r VIRTIO_MMIO_QUEUE_ALIGN in
      if pfn =? 0 then None
      else
        let p := pfn * reg r VIRTIO_MMIO_GUEST_PAGE_SIZE in
        Some (mkVq num p (p + 16 * num) (p + al * ((16 * num + 6 + 2 * num + al - 1) / al)))
  else None.

(** Descriptor [i] of the table, when [i] is one of its entries. *)
Record vdesc := mkDesc { d_addr : Z; d_len : Z; d_flags : Z; d_next : Z }.
Definition desc_at (m : bytes) (q : virtq) (i : Z) : option vdesc :=
  if q_num q <=? i then None
  else
    a ← field m (q_desc q + 16 * i) 8; l ← field m (q_desc q + 16 * i + 8) 4;
    f ← field m (q_desc q + 16 * i + 12) 2; n ← field m (q_desc q + 16 * i + 14) 2;
    Some (mkDesc a l f n).

(** A request: header, data and status descriptors. *)
Record blk_req := mkReq { r_head : Z; r_type : Z; r_sector : Z; r_buf : Z; r_len : Z; r_write : bool; r_status : Z }.
Definition request_at (m : bytes) (q : virtq) (idx : Z) : option blk_req :=
  head ← field m (q_avail q + 4 + 2 * (idx mod q_num q)) 2;
  d0 ← desc_at m q head; d1 ← desc_at m q (d_next d0); d2 ← desc_at m q (d_next d1);
  ty ← field m (d_addr d0) 4; sector ← field m (d_addr d0 + 8) 8;
  if bool_decide (d_len d0 = 16 ∧ d_flags d0 = VIRTQ_DESC_F_NEXT ∧ Z.testbit (d_flags d1) 0 = true ∧ d_len d2 = 1 ∧ d_flags d2 = VIRTQ_DESC_F_WRITE)
  then Some (mkReq head ty sector (d_addr d1) (d_len d1) (Z.testbit (d_flags d1) 1) (d_addr d2)) else None.

(** The sectors of a range, if all of them exist. *)
Definition sectors (dk : Z → option (list Z)) (lba n : Z) : option (list Z) := (λ l, concat l) <$> mapM dk (seqZ lba n).
Definition write_sectors (dk : Z → option (list Z)) (lba : Z) (data : list Z) : Z → option (list Z) := λ i,
  if decide (lba ≤ i < lba + Z.of_nat (length data) / 512) then Some (take 512 (drop (Z.to_nat (512 * (i - lba))) data)) else dk i.

(** The completion of request [r] as number [done] of the queue. *)
Definition complete (q : virtq) (done : Z) (r : blk_req) (status written : Z) (m : bytes) : bytes :=
  put (q_used q + 2) (le 2 (u16 (done + 1)))
    (put (q_used q + 4 + 8 * (done mod q_num q)) (le 4 (r_head r) ++ le 4 written) (put (r_status r) [status] m)).

(** The memory and the disk after a request that the drivers make. *)
Definition served (q : virtq) (done : Z) (r : blk_req) (dk : Z → option (list Z)) (m : bytes) : (Z → option (list Z)) * bytes :=
  if r_type r =? VIRTIO_BLK_T_IN then
    match sectors dk (r_sector r) (r_len r / 512) with
    | Some data => (dk, complete q done r 0 (r_len r + 1) (put (r_buf r) data m))
    | None => (dk, complete q done r 1 1 m)
    end
  else
    match sectors dk (r_sector r) (r_len r / 512), get (r_buf r) (Z.to_nat (r_len r)) m with
    | Some _, Some data => (write_sectors dk (r_sector r) data, complete q done r 0 1 m)
    | _, _ => (dk, complete q done r 1 1 m)
    end.

(** There is no block device at [b]. *)
Definition no_block (D : Type) `{VirtioBus D} (b : Z) : Prop :=
  ∀ d : D, reg_read d b VIRTIO_MMIO_MAGIC_VALUE ≠ VIRTIO_MMIO_MAGIC ∨ reg_read d b VIRTIO_MMIO_DEVICE_ID ≠ VIRTIO_DEVICE_BLOCK.

Definition work {D} `{VirtioBus D} (n : nat) (x : D * bytes) : D * bytes := Nat.iter n (λ x, dev_work x.1 x.2) x.

(** A block device at [base] of the given interface version, largest queue and
    capacity, which completes a request within [latency] steps of the
    notification: what its registers hold, how many requests it completed and
    its sectors are functions of its state.

    - [vb_accepts]: whether it accepts a driver that takes none of its features;
      one that does not (a device of version 2 may insist on VERSION_1) clears
      FEATURES_OK.
    - [vb_kicked]: it has been notified of a request that it has not completed.
      Nothing is said of requests it was not notified of.
    - [vb_idle]: with no request left it leaves memory alone. *)
Class VirtioBlk {D} `{VirtioBus D} (base version qmax cap : Z) (latency : nat) := {
  vb_regs : D → gmap Z Z;
  vb_done : D → Z;
  vb_disk : D → Z → option (list Z);
  vb_kicked : D → bool;
  vb_accepts : bool;
  vb_constants : ∀ d, reg_read d base VIRTIO_MMIO_MAGIC_VALUE = VIRTIO_MMIO_MAGIC ∧ reg_read d base VIRTIO_MMIO_VERSION = version ∧
    reg_read d base VIRTIO_MMIO_DEVICE_ID = VIRTIO_DEVICE_BLOCK ∧ reg_read d base VIRTIO_MMIO_QUEUE_NUM_MAX = qmax ∧
    reg_read d base VIRTIO_MMIO_CONFIG = cap mod 2 ^ 32 ∧ reg_read d base (VIRTIO_MMIO_CONFIG + 4) = cap / 2 ^ 32;
  vb_status : ∀ d, reg (vb_regs d) VIRTIO_MMIO_DRIVER_FEATURES = 0 → reg_read d base VIRTIO_MMIO_STATUS =
    (let v := reg (vb_regs d) VIRTIO_MMIO_STATUS in if vb_accepts then v else Z.ldiff v VIRTIO_STATUS_FEATURES_OK);
  vb_write : ∀ d off v, let reset := (off =? VIRTIO_MMIO_STATUS) && (v =? 0) in let d' := reg_write d base off v in
    vb_regs d' = (if reset then ∅ else <[off := v]> (vb_regs d)) ∧ vb_done d' = (if reset then 0 else vb_done d) ∧
    ∀ i, vb_disk d' i = vb_disk d i;
  vb_notify : ∀ d, vb_kicked (reg_write d base VIRTIO_MMIO_QUEUE_NOTIFY 0) = true;
  vb_serve : ∀ d m q r, vb_kicked d = true → live_queue version (vb_regs d) = Some q → field m (q_avail q + 2) 2 = Some (u16 (vb_done d + 1)) →
    request_at m q (vb_done d) = Some r → r_len r mod 512 = 0 → r_write r = (r_type r =? VIRTIO_BLK_T_IN) →
    (r_type r = VIRTIO_BLK_T_IN ∨ r_type r = VIRTIO_BLK_T_OUT) →
    ∃ n, (0 < n ≤ latency)%nat ∧ let x := work n (d, m) in let '(dk, m') := served q (vb_done d) r (vb_disk d) m in
      x.2 = m' ∧ (∀ i, vb_disk x.1 i = dk i) ∧ vb_regs x.1 = vb_regs d ∧ vb_done x.1 = u16 (vb_done d + 1) ∧
      ∀ k, (k < n)%nat → field (work k (d, m)).2 (q_used q + 2) 2 = field m (q_used q + 2) 2;
  vb_idle : ∀ d m q, live_queue version (vb_regs d) = Some q → field m (q_avail q + 2) 2 = Some (vb_done d) →
    let x := dev_work d m in
    x.2 = m ∧ (∀ i, vb_disk x.1 i = vb_disk d i) ∧ vb_regs x.1 = vb_regs d ∧ vb_done x.1 = vb_done d;
}.
