(* ===== verification/VirtioQueue.v ===== *)
(** * Virtio requests: what the drivers write and how they wait

    The writes of [queue_request] are read back by the device as one block
    request; waiting for the used index ends when the device completes it. *)

From S2P Require Import Prelude Virtio.

(** ** Writing a request *)

Lemma mapped_get a n m : mapped a (Z.of_nat n) m → ∃ l, get a n m = Some l ∧ length l = n.
Proof.
  intros Hm. assert (is_Some (get a n m)) as [l Hl].
  { unfold get. apply mapM_is_Some, Forall_forall. intros i [Hi]%elem_of_seqZ. apply Hm. lia. }
  exists l. split; [done|]. by apply get_some in Hl as [? _].
Qed.
Lemma mapped_sub a n b k m : mapped a n m → a ≤ b → b + k ≤ a + n → mapped b k m.
Proof. intros Hm H1 H2 x Hx. apply Hm. lia. Qed.

Lemma field_put_same a n v m : field (put a (le n v) m) a n = Some (v mod 256 ^ Z.of_nat n).
Proof. unfold field. pose proof (get_put_same a (le n v) m) as E. rewrite length_le in E. rewrite E. cbn. by rewrite unle_le. Qed.
Lemma field_put_sep a n b k v m : a + Z.of_nat n ≤ b ∨ b + Z.of_nat k ≤ a → field (put b (le k v) m) a n = field m a n.
Proof. intros Hs. unfold field. rewrite get_put_sep; [done|]. by rewrite length_le. Qed.
Lemma field_ext a n m m' : (∀ x, a ≤ x < a + Z.of_nat n → m' !! x = m !! x) → field m' a n = field m a n.
Proof. intros Hx. unfold field. by rewrite (get_ext a n m m' Hx). Qed.
Lemma field_range m a n v : (∀ x b, a ≤ x < a + Z.of_nat n → m !! x = Some b → 0 ≤ b < 256) → field m a n = Some v → 0 ≤ v < 256 ^ Z.of_nat n.
Proof.
  intros Hb. unfold field. destruct (get a n m) as [l|] eqn:E; [|done]. intros [= <-]. apply get_some in E as [Hl Hm].
  revert a n Hb Hl Hm. induction l as [|b l IH]; intros a n Hb Hl Hm; destruct n as [|n]; try done; cbn [unle].
  rewrite Nat2Z.inj_succ, Z.pow_succ_r by lia. assert (0 ≤ b < 256) as H0.
  { apply (Hb a b); [lia|]. specialize (Hm 0%nat ltac:(lia)). by rewrite Z.add_0_r in Hm. }
  assert (0 ≤ unle l < 256 ^ Z.of_nat n); [|lia]. apply (IH (a + 1)); [|by injection Hl|].
  - intros x y Hx. apply Hb. lia.
  - intros i Hi. specialize (Hm (S i) ltac:(lia)). change ((b :: l) !! S i) with (l !! i) in Hm. rewrite <- Hm. f_equal. lia.
Qed.

Section request.
Context {D : Type} {BUS : VirtioBus D}.
Implicit Types (s : vmach D) (c : cpu_state) (q : virtq).

Lemma wp_put_field a n v Q c s : mapped a (Z.of_nat n) (vm_mem s) → Q tt c (mkVm (put a (le n v) (vm_mem s)) (vm_dev s)) → wp (put_field a n v) Q c s.
Proof.
  intros Hm HQ. unfold put_field, put_bytes. wp_steps. rewrite length_le. destruct (mapped_get a n _ Hm) as (l & -> & _). by wp_steps.
Qed.
Lemma wp_get_field a n v Q c s : field (vm_mem s) a n = Some v → Q v c s → wp (get_field a n) Q c s.
Proof. intros E HQ. unfold get_field. wp_steps. rewrite E. by wp_steps. Qed.

(** The areas of a request do not meet. *)
Record areas q (req st : Z) : Prop := {
  ar_num : 3 ≤ q_num q ≤ 8;
  ar_desc_avail : sep (q_desc q) 48 (q_avail q) (4 + 2 * q_num q);
  ar_desc_used : sep (q_desc q) 48 (q_used q) (4 + 8 * q_num q);
  ar_desc_req : sep (q_desc q) 48 req 16;
  ar_desc_st : sep (q_desc q) 48 st 1;
  ar_avail_used : sep (q_avail q) (4 + 2 * q_num q) (q_used q) (4 + 8 * q_num q);
  ar_avail_req : sep (q_avail q) (4 + 2 * q_num q) req 16;
  ar_avail_st : sep (q_avail q) (4 + 2 * q_num q) st 1;
  ar_used_req : sep (q_used q) (4 + 8 * q_num q) req 16;
  ar_used_st : sep (q_used q) (4 + 8 * q_num q) st 1;
  ar_req_st : sep req 16 st 1;
}.
(** Memory for them is there. *)
Definition areas_mapped q (req st : Z) (m : bytes) : Prop :=
  mapped (q_desc q) 48 m ∧ mapped (q_avail q) (4 + 2 * q_num q) m ∧ mapped (q_used q) (4 + 8 * q_num q) m ∧ mapped req 16 m ∧ mapped st 1 m.

(** Outside of what the driver writes, memory is as it was. *)
Definition driver_writes q (req st x : Z) : Prop :=
  q_desc q ≤ x < q_desc q + 48 ∨ q_avail q ≤ x < q_avail q + 4 + 2 * q_num q ∨ req ≤ x < req + 16 ∨ x = st.

Ltac map_ok := repeat apply mapped_put; match goal with Hm : mapped _ _ ?m |- mapped _ _ ?m => apply (mapped_sub _ _ _ _ _ Hm); lia end.
Ltac fields := repeat (first [rewrite field_put_same | rewrite field_put_sep by (cbn [Z.of_nat] in *; lia)]).

(** Descriptor [i] with its four fields. *)
Definition has_desc (m : bytes) q (i addr len flags next : Z) : Prop :=
  field m (q_desc q + 16 * i) 8 = Some addr ∧ field m (q_desc q + 16 * i + 8) 4 = Some len ∧
  field m (q_desc q + 16 * i + 12) 2 = Some flags ∧ field m (q_desc q + 16 * i + 14) 2 = Some next.

Lemma request_of_fields m q idx req buf st total ty lba bf : 3 ≤ q_num q → bf = 0 ∨ bf = 2 →
  field m (q_avail q + 4 + 2 * (idx mod q_num q)) 2 = Some 0 →
  has_desc m q 0 req 16 VIRTQ_DESC_F_NEXT 1 → has_desc m q 1 buf total (Z.lor VIRTQ_DESC_F_NEXT bf) 2 → has_desc m q 2 st 1 VIRTQ_DESC_F_WRITE 0 →
  field m req 4 = Some ty → field m (req + 8) 8 = Some lba →
  request_at m q idx = Some (mkReq 0 ty lba buf total (Z.testbit bf 1) st).
Proof.
  intros Hn Hbf Hh (A0 & L0 & F0 & N0) (A1 & L1 & F1 & N1) (A2 & L2 & F2 & N2) Ht Hs. unfold request_at. rewrite Hh. cbn [option_bind mbind].
  unfold desc_at. destruct (Z.leb_spec (q_num q) 0); [lia|]. rewrite A0, L0, F0, N0. cbn [option_bind mbind d_next].
  destruct (Z.leb_spec (q_num q) 1); [lia|]. rewrite A1, L1, F1, N1. cbn [option_bind mbind d_next].
  destruct (Z.leb_spec (q_num q) 2); [lia|]. rewrite A2, L2, F2, N2. cbn [option_bind mbind d_addr d_len d_flags]. rewrite Ht, Hs. cbn [option_bind mbind].
  by destruct Hbf as [-> | ->].
Qed.

Lemma queue_request_correct q ty lba total bf req buf st idx c s :
  areas q req st → areas_mapped q req st (vm_mem s) → field (vm_mem s) (q_avail q + 2) 2 = Some idx → 0 ≤ idx < 2 ^ 16 →
  0 ≤ ty < 2 ^ 32 → 0 ≤ lba < 2 ^ 64 → 0 ≤ req < 2 ^ 64 → 0 ≤ buf < 2 ^ 64 → 0 ≤ st < 2 ^ 64 → bf = 0 ∨ bf = 2 →
  wp (queue_request q ty lba total bf req buf st) (λ _ c' s', c' = c ∧ vm_dev s' = vm_dev s ∧
    request_at (vm_mem s') q idx = Some (mkReq 0 ty lba buf (u32 total) (Z.testbit bf 1) st) ∧
    field (vm_mem s') (q_avail q + 2) 2 = Some (u16 (idx + 1)) ∧
    (∀ x, ¬ driver_writes q req st x → vm_mem s' !! x = vm_mem s !! x) ∧
    (∀ a n, mapped a n (vm_mem s) → mapped a n (vm_mem s'))) c s.
Proof.
  intros [Hn H1 H2 H3 H4 H5 H6 H7 H8 H9 H10] (Md & Ma & Mu & Mr & Ms) Hidx Hi Hty Hlba Hreq Hbuf Hst Hbf. unfold sep in *.
  set (slot := q_avail q + 4 + 2 * (idx mod q_num q)).
  assert (q_avail q + 4 ≤ slot ∧ slot + 2 ≤ q_avail q + 4 + 2 * q_num q) as Hslot by (unfold slot; pose proof (Z.mod_pos_bound idx (q_num q)); lia).
  unfold queue_request, put_desc. cbv zeta.
  do 4 (wp_step; apply wp_put_field; [cbn [vm_mem]; map_ok|cbn [vm_mem vm_dev]]).
  do 3 (wp_step; do 3 (wp_step; apply wp_put_field; [cbn [vm_mem]; map_ok|cbn [vm_mem vm_dev]]); apply wp_put_field; [cbn [vm_mem]; map_ok|cbn [vm_mem vm_dev]]).
  wp_step. eapply wp_get_field; [cbn [vm_mem]; fields; exact Hidx|]. fold slot.
  wp_step. apply wp_put_field; [cbn [vm_mem]; map_ok|cbn [vm_mem vm_dev]]. apply wp_put_field; [cbn [vm_mem]; map_ok|cbn [vm_mem vm_dev]].
  split_and!; [done|done| | | |].
  - apply (request_of_fields _ q idx req buf st (u32 total) ty lba bf); [lia|done|..]; unfold has_desc; fold slot; split_and?; fields; f_equal; apply Z.mod_small; cbn [Z.of_nat]; try (split; [lia|]; lia).
    + exact (u32_range total).
    + by destruct Hbf as [-> | ->].
  - fields. f_equal. apply Z.mod_small. unfold u16. pose proof (Z.mod_pos_bound (idx + 1) (2 ^ 16)). lia.
  - intros x Hx. unfold driver_writes in Hx. rewrite !lookup_put, !length_le, !decide_False by lia. done.
  - intros a n Hm. repeat apply mapped_put. done.
Qed.

(** ** A whole exchange *)

(** The machine after [n] steps of the device. *)
Definition after_steps (n : nat) s : vmach D := let x := work n (vm_dev s, vm_mem s) in mkVm x.2 x.1.

Lemma after_steps_S n s : after_steps n (after_steps 1 s) = after_steps (S n) s.
Proof.
  unfold after_steps. cbn [vm_dev vm_mem]. change (work 1 (vm_dev s, vm_mem s)) with (dev_work (vm_dev s) (vm_mem s)).
  rewrite <- surjective_pairing. unfold work. by rewrite Nat.iter_succ_r.
Qed.
Lemma wp_dev_step Q c s : Q tt c (after_steps 1 s) → wp dev_step Q c s.
Proof. intros HQ. unfold dev_step. wp_steps. unfold after_steps, work in HQ. cbn in HQ. by destruct (dev_work (vm_dev s) (vm_mem s)). Qed.
Lemma wp_poll_field a n v Q c s : field (vm_mem (after_steps 1 s)) a n = Some v → Q v c (after_steps 1 s) → wp (poll_field a n) Q c s.
Proof. intros E HQ. unfold poll_field. wp_step. apply wp_dev_step. by eapply wp_get_field. Qed.

(** Whatever the device does to the index: the wait ends at the first
    evaluation that sees a new one, or after all [n]. *)
Lemma wait_used_ends used last n c : ∀ s, (∀ j, is_Some (field (vm_mem (after_steps j s)) (used + 2) 2)) →
  wp (wait_used used last n) (λ r c' s', c' = c ∧ ∃ k, (k ≤ n)%nat ∧ s' = after_steps k s ∧
    (∀ j, (0 < j < k)%nat → field (vm_mem (after_steps j s)) (used + 2) 2 = Some last) ∧
    if r : bool then (0 < k)%nat ∧ field (vm_mem (after_steps k s)) (used + 2) 2 ≠ Some last
    else k = n ∧ ((0 < k)%nat → field (vm_mem (after_steps k s)) (used + 2) 2 = Some last)) c s.
Proof.
  induction n as [|n IH]; intros s Hf; cbn [wait_used].
  - wp_steps. split; [done|]. exists 0%nat. split; [lia|]. split; [by destruct s|]. split; [intros j Hj; lia|]. split; [done|lia].
  - wp_step. destruct (Hf 1%nat) as [idx E]. eapply wp_poll_field; [exact E|]. destruct (Z.eqb_spec idx last) as [->|Hne].
    + eapply wp_mono; [apply IH; intros j; rewrite after_steps_S; apply Hf|]. cbv beta. intros r c' s' (-> & k & Hk & -> & Hold & Hr).
      split; [done|]. exists (S k). split; [lia|]. split; [apply after_steps_S|]. setoid_rewrite after_steps_S in Hold. rewrite after_steps_S in Hr. split.
      * intros [|[|j]] Hj; [lia|done|]. apply Hold. lia.
      * destruct r; [split; [lia|apply Hr]|]. destruct Hr as [-> Hr]. split; [done|]. intros _. destruct n; [done|]. apply Hr. lia.
    + wp_steps. split; [done|]. exists 1%nat. split; [lia|]. split; [done|]. split; [intros j Hj; lia|]. split; [lia|]. congruence.
Qed.

(** A device that gives the new index after [n] steps is waited for. *)
Lemma wait_used_correct used last new n c : new ≠ last → ∀ polls s,
  (∀ j, (j < n)%nat → field (vm_mem (after_steps j s)) (used + 2) 2 = Some last) →
  field (vm_mem (after_steps n s)) (used + 2) 2 = Some new → (0 < n ≤ polls)%nat →
  wp (wait_used used last polls) (λ r c' s', r = true ∧ c' = c ∧ s' = after_steps n s) c s.
Proof.
  intros Hne. induction n as [|n IH]; intros polls s Hold Hnew Hn; [lia|]. destruct polls as [|polls]; [lia|]. cbn [wait_used]. wp_step.
  destruct n as [|n].
  - eapply wp_poll_field; [exact Hnew|]. destruct (Z.eqb_spec new last); [done|]. by wp_steps.
  - eapply wp_poll_field; [apply Hold; lia|]. rewrite Z.eqb_refl. rewrite <- after_steps_S in Hnew |- *. apply IH; [|done|lia].
    intros j Hj. rewrite after_steps_S. apply Hold. lia.
Qed.
End request.
