(* ===== verification/VirtioXfer.v ===== *)
(** * Virtio requests: a whole exchange with the device

    A driver that agrees with the device on the queue writes a request,
    notifies and waits; the device's documented behaviour gives the result, and
    the two agree again. *)

From S2P Require Import Prelude Virtio VirtioQueue.

Lemma field_put_list a n b l m : a + Z.of_nat n ≤ b ∨ b + Z.of_nat (length l) ≤ a → field (put b l m) a n = field m a n.
Proof. intros Hs. unfold field. by rewrite get_put_sep. Qed.

Lemma live_queue_other version r off v : off = VIRTIO_MMIO_QUEUE_NOTIFY → live_queue version (<[off := v]> r) = live_queue version r.
Proof. intros ->. unfold live_queue, reg64, reg. rewrite !lookup_insert_ne by done. done. Qed.

Lemma sectors_length dk lba n data : 0 ≤ n → (∀ i b, dk i = Some b → length b = 512%nat) → sectors dk lba n = Some data → Z.of_nat (length data) = 512 * n.
Proof.
  intros Hn Hlen. unfold sectors. destruct (mapM dk (seqZ lba n)) as [l|] eqn:E; [|done]. intros [= <-]. apply mapM_Some in E.
  pose proof (Forall2_length _ _ _ E) as Hl. rewrite length_seqZ in Hl. assert (Forall (λ b, length b = 512%nat) l) as Hb.
  { apply Forall_forall. intros b Hb. apply list_elem_of_lookup in Hb as [i Hi]. destruct (Forall2_lookup_r _ _ _ _ _ E Hi) as (x & _ & Hx). by eapply Hlen. }
  assert (length (concat l) = (512 * length l)%nat) as -> by (clear -Hb; induction Hb as [|b l Hb _ IH]; cbn; [done|]; rewrite length_app; lia). lia.
Qed.

Lemma sectors_ext dk dk' lba n : (∀ i, dk' i = dk i) → sectors dk' lba n = sectors dk lba n.
Proof. intros Hd. unfold sectors. f_equal. by apply mapM_ext. Qed.

Section exchange.
Context {D : Type} {BUS : VirtioBus D} (base version qmax cap : Z) (latency : nat) {VB : VirtioBlk base version qmax cap latency}.
Implicit Types (s : vmach D) (c : cpu_state).

(** Driver and device agree on the queue and on the number of requests made
    and completed. *)
Record linked (q : virtq) (req st : Z) (d : D) (m : bytes) : Prop := {
  lk_live : live_queue version (vb_regs d) = Some q;
  lk_areas : areas q req st;
  lk_mapped : areas_mapped q req st m;
  lk_avail : field m (q_avail q + 2) 2 = Some (vb_done d);
  lk_used : field m (q_used q + 2) 2 = Some (vb_done d);
  lk_done : 0 ≤ vb_done d < 2 ^ 16;
  lk_disk : ∀ i b, vb_disk d i = Some b → length b = 512%nat;
  lk_addr : 0 ≤ req < 2 ^ 64 ∧ 0 ≤ st < 2 ^ 64;
}.

(** A buffer of [n] bytes apart from the areas of the driver. *)
Record buffer (q : virtq) (req st buf n : Z) (m : bytes) : Prop := {
  bu_mapped : mapped buf n m;
  bu_addr : 0 ≤ buf < 2 ^ 64;
  bu_desc : sep buf n (q_desc q) 48;
  bu_avail : sep buf n (q_avail q) (4 + 2 * q_num q);
  bu_used : sep buf n (q_used q) (4 + 8 * q_num q);
  bu_req : sep buf n req 16;
  bu_st : sep buf n st 1;
}.

(** Everything but the areas of the driver is as it was. *)
Definition untouched (q : virtq) (req st : Z) (m m' : bytes) (x : Z) : Prop :=
  ¬ driver_writes q req st x → ¬ (q_used q ≤ x < q_used q + 4 + 8 * q_num q) → m' !! x = m !! x.

(** The request, the notification, the wait and the second look at the index,
    which becomes [last_used]; [None]: the wait gave up. *)
Definition exchange (q : virtq) (ty lba total bf req buf st last : Z) (polls : nat) : M (vmach D) (option Z) :=
  queue_request q ty lba total bf req buf st ;;;
  mmio_write base VIRTIO_MMIO_QUEUE_NOTIFY 0 ;;;
  ok <- wait_used (q_used q) last polls ;;
  if ok : bool then idx <- poll_field (q_used q + 2) 2 ;; ret (Some idx) else ret None.

Lemma length_completion r w : length (le 4 (r_head r) ++ le 4 w) = 8%nat.
Proof. by rewrite length_app, !length_le. Qed.

(** The effects of [complete] on the areas of the driver. *)
Lemma complete_fields q req st r done stv w m : areas q req st → r_status r = st → 0 ≤ stv < 256 →
  let m' := complete q done r stv w m in
  field m' (q_used q + 2) 2 = Some (u16 (done + 1)) ∧ field m' st 1 = Some stv ∧ field m' (q_avail q + 2) 2 = field m (q_avail q + 2) 2 ∧
  (∀ x, ¬ (q_used q ≤ x < q_used q + 4 + 8 * q_num q) → x ≠ st → m' !! x = m !! x) ∧ (∀ a n, mapped a n m → mapped a n m').
Proof.
  intros [Hn H1 H2 H3 H4 H5 H6 H7 H8 H9 H10] Hst Hstv m'. unfold sep in *. pose proof (Z.mod_pos_bound done (q_num q) ltac:(lia)) as Hmod.
  unfold m', complete. rewrite Hst. split_and!.
  - rewrite field_put_same. f_equal. apply Z.mod_small. unfold u16. pose proof (Z.mod_pos_bound (done + 1) (2 ^ 16)). cbn [Z.of_nat]. lia.
  - rewrite field_put_sep by (cbn [Z.of_nat]; lia). rewrite field_put_list by (rewrite length_completion; lia).
    pose proof (field_put_same st 1 stv m) as E. cbn [le] in E. rewrite (Z.mod_small stv) in E by lia. rewrite E. f_equal. apply Z.mod_small. cbn [Z.of_nat]. lia.
  - rewrite field_put_sep by (cbn [Z.of_nat]; lia). rewrite field_put_list by (rewrite length_completion; lia). by rewrite field_put_list by (cbn [length]; lia).
  - intros x Hx Hxs. rewrite !lookup_put, length_le, length_completion. cbn [length]. rewrite !decide_False by lia. done.
  - intros a n Hm. by repeat apply mapped_put.
Qed.

(** A device that has completed everything stays as it is. *)
Lemma idle_step q s : live_queue version (vb_regs (vm_dev s)) = Some q → field (vm_mem s) (q_avail q + 2) 2 = Some (vb_done (vm_dev s)) →
  let s' := after_steps 1 s in vm_mem s' = vm_mem s ∧ (∀ i, vb_disk (vm_dev s') i = vb_disk (vm_dev s) i) ∧
    vb_regs (vm_dev s') = vb_regs (vm_dev s) ∧ vb_done (vm_dev s') = vb_done (vm_dev s).
Proof. intros Hl Ha. exact (vb_idle (vm_dev s) (vm_mem s) q Hl Ha). Qed.

(** The same, with driver and device in agreement. *)
Lemma wp_poll_linked q req st a n v Q c s : linked q req st (vm_dev s) (vm_mem s) → field (vm_mem s) a n = Some v →
  (∀ s', vm_mem s' = vm_mem s → linked q req st (vm_dev s') (vm_mem s') → vb_done (vm_dev s') = vb_done (vm_dev s) →
     (∀ i, vb_disk (vm_dev s') i = vb_disk (vm_dev s) i) → Q v c s') → wp (poll_field a n) Q c s.
Proof.
  intros [Hlive Har Hmp Hav Hus Hdn Hdk Had] Hv HQ. destruct (idle_step q s Hlive Hav) as (Em & Ek & Er & Ed). eapply wp_poll_field; [by rewrite Em|].
  apply HQ; [done| |done|done]. split; rewrite ?Er, ?Ed, ?Em; try done. intros i b. rewrite Ek. apply Hdk.
Qed.

(** Serving a request leaves the available ring alone. *)
Lemma served_avail q req st ty lba buf count done dk dk' (m m1 m' : bytes) : areas q req st → buffer q req st buf (512 * count) m → 0 < count →
  (∀ i b, dk i = Some b → length b = 512%nat) →
  served q done (mkReq 0 ty lba buf (512 * count) (ty =? VIRTIO_BLK_T_IN) st) dk m1 = (dk', m') →
  field m' (q_avail q + 2) 2 = field m1 (q_avail q + 2) 2.
Proof.
  intros Har Hbuf Hc Hlen Es. set (r := mkReq _ _ _ _ _ _ _) in *.
  assert (∀ stv w m2, 0 ≤ stv < 256 → field (complete q done r stv w m2) (q_avail q + 2) 2 = field m2 (q_avail q + 2) 2) as Hcf.
  { intros stv w m2 Hst. by apply (complete_fields q req st r done stv w m2 Har eq_refl Hst). }
  unfold served in Es. cbn [r_type r_sector r_len r_buf r] in Es. rewrite Z.mul_comm, Z.div_mul in Es by lia. destruct (ty =? VIRTIO_BLK_T_IN).
  - destruct (sectors dk lba count) as [data|] eqn:E; injection Es as <- <-; rewrite Hcf by lia; [|done].
    pose proof (sectors_length dk lba count data ltac:(lia) Hlen E) as Hl. pose proof (bu_avail _ _ _ _ _ _ Hbuf) as Ba. pose proof (ar_num _ _ _ Har) as Hn.
    clear -Ba Hl Hn. rewrite field_put_list; [done|]. unfold sep in *. lia.
  - repeat case_match; injection Es as <- <-; by rewrite Hcf by lia.
Qed.

Lemma exchange_correct q ty lba count bf req buf st polls c s :
  let d := vm_dev s in
  linked q req st d (vm_mem s) → buffer q req st buf (512 * count) (vm_mem s) → 0 < count → 512 * count < 2 ^ 32 → 0 ≤ lba < 2 ^ 64 →
  (ty = VIRTIO_BLK_T_IN ∧ bf = 2) ∨ (ty = VIRTIO_BLK_T_OUT ∧ bf = 0) → (latency ≤ polls)%nat →
  wp (exchange q ty lba (512 * count) bf req buf st (vb_done d) polls) (λ r c' s', c' = c ∧ r = Some (u16 (vb_done d + 1)) ∧
    live_queue version (vb_regs (vm_dev s')) = Some q ∧ vb_done (vm_dev s') = u16 (vb_done d + 1) ∧
    ∃ m1, (∀ x, ¬ driver_writes q req st x → m1 !! x = vm_mem s !! x) ∧ (∀ a n, mapped a n (vm_mem s) → mapped a n m1) ∧
      field m1 (q_avail q + 2) 2 = Some (u16 (vb_done d + 1)) ∧ ∃ dk, (∀ i, dk i = vb_disk d i) ∧
      let '(dk', m') := served q (vb_done d) (mkReq 0 ty lba buf (512 * count) (ty =? VIRTIO_BLK_T_IN) st) dk m1 in
      vm_mem s' = m' ∧ ∀ i, vb_disk (vm_dev s') i = dk' i) c s.
Proof.
  intros d [Hlive Har Hmp Hav Hus Hdn Hdk [Hr Hs]] Hbuf Hc Hc' Hlba Hty Hpolls. unfold exchange. wp_step.
  eapply wp_mono; [apply (queue_request_correct q ty lba (512 * count) bf req buf st (vb_done d) c s Har Hmp Hav Hdn); try done|].
  { destruct Hty as [[-> _]|[-> _]]; done. } { apply Hbuf. } { tauto. }
  cbv beta. intros _ c' s1 (-> & Hd1 & Hreq & Hidx & Hframe & Hmk). unfold mmio_write. wp_steps. rewrite Hd1. fold d. cbn [vm_mem].
  destruct (vb_write d VIRTIO_MMIO_QUEUE_NOTIFY (u32 0)) as (Er & Ed & Ek). cbn [andb Z.eqb] in Er, Ed.
  change ((VIRTIO_MMIO_QUEUE_NOTIFY =? VIRTIO_MMIO_STATUS) && (u32 0 =? 0)) with false in Er, Ed. cbv iota in Er, Ed.
  set (d1 := reg_write d base VIRTIO_MMIO_QUEUE_NOTIFY (u32 0)) in *. rewrite u32_small in Hreq by lia.
  assert (Z.testbit bf 1 = (ty =? VIRTIO_BLK_T_IN)) as Ew by (destruct Hty as [[-> ->]|[-> ->]]; done). rewrite Ew in Hreq.
  assert (live_queue version (vb_regs d1) = Some q) as Hlive1 by (rewrite Er; by rewrite live_queue_other).
  destruct (vb_serve d1 (vm_mem s1) q (mkReq 0 ty lba buf (512 * count) (ty =? VIRTIO_BLK_T_IN) st)) as (n & Hn & Hx); try done.
  { apply (vb_notify d). } { by rewrite Ed. } { by rewrite Ed. } { cbn [r_len]. by rewrite Z.mul_comm, Z.mod_mul. } { cbn [r_type]. tauto. }
  rewrite Ed in Hx. cbv zeta in Hx. destruct (served _ _ _ _ _) as [dk' m'] eqn:Es. destruct Hx as (Hm' & Hdk' & Hrg & Hdn' & Hpre).
  assert (field m' (q_used q + 2) 2 = Some (u16 (vb_done d + 1))) as Hnew.
  { unfold served in Es. repeat case_match; injection Es as <- <-; by apply (complete_fields q req st). }
  set (s2 := mkVm (vm_mem s1) d1). change (work n (d1, vm_mem s1)) with (work n (vm_dev s2, vm_mem s2)) in *.
  eapply wp_mono; [apply (wait_used_correct (q_used q) (vb_done d) (u16 (vb_done d + 1)) n c)|].
  - unfold u16. intros E. pose proof (Z.div_mod (vb_done d + 1) (2 ^ 16)). nia.
  - intros j Hj. rewrite <- Hus. transitivity (field (vm_mem s1) (q_used q + 2) 2); [by apply Hpre|].
    apply field_ext. intros x Hx. apply Hframe. destruct Har. unfold driver_writes, sep in *. lia.
  - unfold after_steps. cbn [vm_mem]. by rewrite Hm'.
  - lia.
  - cbv beta. intros r c' s' (-> & -> & ->). set (s3 := after_steps n s2). change (work n (vm_dev s2, vm_mem s2)).2 with (vm_mem s3) in Hm'.
    change (work n (vm_dev s2, vm_mem s2)).1 with (vm_dev s3) in *. assert (live_queue version (vb_regs (vm_dev s3)) = Some q) as Hlive3 by (by rewrite Hrg).
    assert (field m' (q_avail q + 2) 2 = Some (vb_done (vm_dev s3))) as Hav3.
    { rewrite Hdn', <- Hidx. eapply (served_avail q req st ty lba buf count); [done|exact Hbuf|done| |exact Es]. intros i b. rewrite Ek. apply Hdk. }
    rewrite <- Hm' in Hav3. destruct (idle_step q s3 Hlive3 Hav3) as (Em4 & Ek4 & Er4 & Ed4). wp_step. eapply wp_poll_field; [by rewrite Em4, Hm'|]. wp_steps.
    split; [done|]. split; [done|]. rewrite Em4, Er4, Ed4, Hm', Hdn'. split; [done|]. split; [done|].
    exists (vm_mem s1). split; [done|]. split; [done|]. split; [done|]. exists (vb_disk d1). split; [done|]. rewrite Es. split; [done|]. intros i. by rewrite Ek4.
Qed.

(** After a completion driver and device agree again. *)
Lemma linked_again q req st (d d' : D) m m1 r stv w dk : linked q req st d m → r_status r = st → 0 ≤ stv < 256 →
  (∀ a n, mapped a n m → mapped a n m1) → field m1 (q_avail q + 2) 2 = Some (u16 (vb_done d + 1)) →
  live_queue version (vb_regs d') = Some q → vb_done d' = u16 (vb_done d + 1) → (∀ i, vb_disk d' i = dk i) → (∀ i b, dk i = Some b → length b = 512%nat) →
  linked q req st d' (complete q (vb_done d) r stv w m1).
Proof.
  intros [Hlive Har (Md & Ma & Mu & Mr & Ms) Hav Hus Hdn Hdk Had] Hst Hstv Hmk Hidx Hl' Hd' Hdk' Hlen.
  destruct (complete_fields q req st r (vb_done d) stv w m1 Har Hst Hstv) as (F1 & F2 & F3 & F4 & F5). split; try done.
  - unfold areas_mapped. split_and!; by apply F5, Hmk.
  - by rewrite F3, Hidx, Hd'.
  - by rewrite F1, Hd'.
  - rewrite Hd'. apply Z.mod_pos_bound. lia.
  - intros i b. rewrite Hdk'. apply Hlen.
Qed.

(** Reading: the sectors arrive in the buffer with status 0, or some do not
    exist and the status is 1. *)
Lemma exchange_in q lba count req buf st polls c s :
  let d := vm_dev s in
  linked q req st d (vm_mem s) → buffer q req st buf (512 * count) (vm_mem s) → 0 < count → 512 * count < 2 ^ 32 → 0 ≤ lba < 2 ^ 64 → (latency ≤ polls)%nat →
  wp (exchange q VIRTIO_BLK_T_IN lba (512 * count) 2 req buf st (vb_done d) polls) (λ r c' s', c' = c ∧ r = Some (vb_done (vm_dev s')) ∧
    linked q req st (vm_dev s') (vm_mem s') ∧ (∀ i, vb_disk (vm_dev s') i = vb_disk d i) ∧ (∀ a n, mapped a n (vm_mem s) → mapped a n (vm_mem s')) ∧
    match sectors (vb_disk d) lba count with
    | Some data => field (vm_mem s') st 1 = Some 0 ∧ get buf (Z.to_nat (512 * count)) (vm_mem s') = Some data ∧
        ∀ x, ¬ (buf ≤ x < buf + 512 * count) → untouched q req st (vm_mem s) (vm_mem s') x
    | None => field (vm_mem s') st 1 = Some 1 ∧ ∀ x, untouched q req st (vm_mem s) (vm_mem s') x
    end) c s.
Proof.
  intros d Hlk Hbuf Hc Hc' Hlba Hpolls. eapply wp_mono; [apply (exchange_correct q VIRTIO_BLK_T_IN lba count 2 req buf st polls c s Hlk Hbuf); try done; by left|].
  cbv beta. fold d. intros r c' s' (-> & -> & Hlive & Hdn & m1 & Hframe & Hmk & Hidx & dk & Edk & Hsv). split; [done|]. split; [by rewrite Hdn|].
  unfold served in Hsv. cbn [r_type r_sector r_len r_buf] in Hsv. rewrite Z.eqb_refl in Hsv. replace (512 * count / 512) with count in Hsv by (by rewrite Z.mul_comm, Z.div_mul).
  rewrite (sectors_ext (vb_disk d) dk) in Hsv by done. pose proof (lk_disk _ _ _ _ _ Hlk) as Hlen. fold d in Hlen.
  assert (∀ i b, dk i = Some b → length b = 512%nat) as Hlen' by (intros i b; rewrite Edk; apply Hlen).
  set (rq := mkReq 0 _ lba buf (512 * count) _ st) in *. pose proof (lk_areas _ _ _ _ _ Hlk) as Har. destruct (sectors (vb_disk d) lba count) as [data|] eqn:Es.
  - destruct Hsv as [-> Hdk']. pose proof (sectors_length (vb_disk d) lba count data ltac:(lia) Hlen Es) as Hl. set (m2 := put buf data m1).
    destruct (complete_fields q req st rq (vb_done d) 0 (512 * count + 1) m2 Har eq_refl ltac:(lia)) as (F1 & F2 & F3 & F4 & F5).
    assert (field m2 (q_avail q + 2) 2 = Some (u16 (vb_done d + 1))) as Hidx2.
    { unfold m2. rewrite field_put_list; [exact Hidx|]. pose proof (bu_avail _ _ _ _ _ _ Hbuf) as Ba. pose proof (ar_num _ _ _ Har). clear -Ba Hl H. unfold sep in *. lia. }
    split_and!.
    + eapply linked_again; try done. intros a n Hm. by apply mapped_put, Hmk.
    + intros i. by rewrite Hdk'.
    + intros a n Hm. by apply F5, mapped_put, Hmk.
    + done.
    + rewrite (get_ext buf _ m2); [unfold m2; rewrite <- Hl, Nat2Z.id; apply get_put_same|]. intros x Hx. pose proof (bu_used _ _ _ _ _ _ Hbuf) as Bu. pose proof (bu_st _ _ _ _ _ _ Hbuf) as Bs. apply F4; clear -Bu Bs Hx Hc; unfold sep in *; lia.
    + intros x Hx Hdw Hu. rewrite F4; [|done|intros ->; apply Hdw; unfold driver_writes; tauto].
      unfold m2. rewrite lookup_put, decide_False by lia. by apply Hframe.
  - destruct Hsv as [-> Hdk']. destruct (complete_fields q req st rq (vb_done d) 1 1 m1 Har eq_refl ltac:(lia)) as (F1 & F2 & F3 & F4 & F5).
    split_and!; [by eapply linked_again|intros i; by rewrite Hdk'|intros a n Hm; by apply F5, Hmk|done|].
    intros x Hdw Hu. rewrite F4; [by apply Hframe|done|]. intros ->. apply Hdw. unfold driver_writes. tauto.
Qed.

(** Writing: the sectors take the bytes of the buffer. *)
Lemma exchange_out q lba count req buf st data polls c s :
  let d := vm_dev s in
  linked q req st d (vm_mem s) → buffer q req st buf (512 * count) (vm_mem s) → 0 < count → 512 * count < 2 ^ 32 → 0 ≤ lba < 2 ^ 64 → (latency ≤ polls)%nat →
  get buf (Z.to_nat (512 * count)) (vm_mem s) = Some data →
  wp (exchange q VIRTIO_BLK_T_OUT lba (512 * count) 0 req buf st (vb_done d) polls) (λ r c' s', c' = c ∧ r = Some (vb_done (vm_dev s')) ∧
    linked q req st (vm_dev s') (vm_mem s') ∧ (∀ a n, mapped a n (vm_mem s) → mapped a n (vm_mem s')) ∧
    (∀ x, untouched q req st (vm_mem s) (vm_mem s') x) ∧
    match sectors (vb_disk d) lba count with
    | Some _ => field (vm_mem s') st 1 = Some 0 ∧ ∀ i, vb_disk (vm_dev s') i = write_sectors (vb_disk d) lba data i
    | None => field (vm_mem s') st 1 = Some 1 ∧ ∀ i, vb_disk (vm_dev s') i = vb_disk d i
    end) c s.
Proof.
  intros d Hlk Hbuf Hc Hc' Hlba Hpolls Hdata. eapply wp_mono; [apply (exchange_correct q VIRTIO_BLK_T_OUT lba count 0 req buf st polls c s Hlk Hbuf); try done; by right|].
  cbv beta. fold d. intros r c' s' (-> & -> & Hlive & Hdn & m1 & Hframe & Hmk & Hidx & dk & Edk & Hsv). split; [done|]. split; [by rewrite Hdn|].
  unfold served in Hsv. cbn [r_type r_sector r_len r_buf] in Hsv. change (VIRTIO_BLK_T_OUT =? VIRTIO_BLK_T_IN) with false in Hsv. cbv iota in Hsv.
  replace (512 * count / 512) with count in Hsv by (by rewrite Z.mul_comm, Z.div_mul). rewrite (sectors_ext (vb_disk d) dk) in Hsv by done.
  pose proof (lk_disk _ _ _ _ _ Hlk) as Hlen. fold d in Hlen. pose proof (lk_areas _ _ _ _ _ Hlk) as Har.
  assert (get buf (Z.to_nat (512 * count)) m1 = Some data) as Hdata1.
  { rewrite <- Hdata. apply get_ext. intros x Hx. apply Hframe. clear -Hbuf Hx Hc. destruct Hbuf. unfold driver_writes, sep in *. lia. }
  assert (Z.of_nat (length data) = 512 * count) as Hl by (apply get_some in Hdata as [? _]; lia).
  assert (∀ i b, dk i = Some b → length b = 512%nat) as Hlen' by (intros i b; rewrite Edk; apply Hlen). rewrite Hdata1 in Hsv.
  set (rq := mkReq 0 _ lba buf (512 * count) _ st) in *.
  assert (∀ stv w x, 0 ≤ stv < 256 → untouched q req st (vm_mem s) (complete q (vb_done d) rq stv w m1) x) as Hun.
  { intros stv w x Hs Hdw Hu. destruct (complete_fields q req st rq (vb_done d) stv w m1 Har eq_refl Hs) as (_ & _ & _ & F4 & _).
    rewrite F4; [by apply Hframe|done|]. intros ->. apply Hdw. unfold driver_writes. tauto. }
  destruct (sectors (vb_disk d) lba count) as [old|] eqn:Es; destruct Hsv as [-> Hdk'].
  - destruct (complete_fields q req st rq (vb_done d) 0 1 m1 Har eq_refl ltac:(lia)) as (F1 & F2 & F3 & F4 & F5).
    split_and!; [|intros a n Hm; by apply F5, Hmk|intros x; by apply Hun|done|].
    + eapply linked_again; try done. intros i b. unfold write_sectors. case_decide as Hi; [|apply Hlen']. intros [= <-].
      rewrite Hl in Hi. replace (512 * count / 512) with count in Hi by (by rewrite Z.mul_comm, Z.div_mul). rewrite length_take, length_drop. lia.
    + intros i. rewrite Hdk'. unfold write_sectors. by rewrite Edk.
  - destruct (complete_fields q req st rq (vb_done d) 1 1 m1 Har eq_refl ltac:(lia)) as (F1 & F2 & F3 & F4 & F5).
    split_and!; [by eapply linked_again|intros a n Hm; by apply F5, Hmk|intros x; by apply Hun|done|]. intros i. by rewrite Hdk'.
Qed.
End exchange.

(** ** Bringing a device up *)

(** A register pair holds an address. *)
Lemma reg_pair a : 0 ≤ a < 2 ^ 64 → u32 (Z.land a 0xFFFFFFFF) + 2 ^ 32 * u32 (Z.shiftr a 32) = a.
Proof.
  intros Ha. change 0xFFFFFFFF with (Z.ones 32). rewrite Z.land_ones, Z.shiftr_div_pow2 by lia.
  rewrite u32_small by (apply Z.mod_pos_bound; lia). rewrite u32_small by (split; [apply Z.div_pos; lia|apply Z.div_lt_upper_bound; lia]).
  rewrite (Z.div_mod a (2 ^ 32)) at 3 by lia. lia.
Qed.

Lemma field_zeros a n m k b : a ≤ b → b + Z.of_nat n ≤ a + Z.of_nat k → field (put a (replicate k 0) m) b n = Some 0.
Proof.
  intros H1 H2. unfold field. assert (get b n (put a (replicate k 0) m) = Some (replicate n 0)) as ->.
  { apply get_some. split; [by rewrite length_replicate|]. intros i Hi. rewrite lookup_put, length_replicate, decide_True by lia.
    rewrite !lookup_replicate_2 by lia. done. }
  cbn. f_equal. clear. induction n as [|n IH]; cbn; [done|]. by rewrite IH.
Qed.

(** The used ring starts the second page for every size of the queue. *)
Lemma legacy_used_off qsize : 3 ≤ qsize ≤ 8 →
  u32 (qsize * 16) = 16 * qsize ∧ Z.land (u32 (u32 (qsize * 16) + sizeof_virtq_avail + 4095)) (u32 (Z.lnot 4095)) = 4096 ∧
  4096 * ((16 * qsize + 6 + 2 * qsize + 4096 - 1) / 4096) = 4096.
Proof.
  intros Hq. assert (qsize = 3 ∨ qsize = 4 ∨ qsize = 5 ∨ qsize = 6 ∨ qsize = 7 ∨ qsize = 8) as Hc by lia.
  destruct Hc as [->|[->|[->|[->|[->| ->]]]]]; by vm_compute.
Qed.

Ltac regs := repeat (rewrite lookup_insert_eq || rewrite lookup_insert_ne by done); cbn [default from_option id].

(** The registers of a legacy queue in the two pages at [p]. *)
Lemma legacy_live version r p v : version = 1 → 3 ≤ reg r VIRTIO_MMIO_QUEUE_NUM ≤ 8 → p mod 4096 = 0 → 0 < p < 2 ^ 44 → Z.testbit v 2 = true →
  live_queue version (<[VIRTIO_MMIO_STATUS := v]> (<[VIRTIO_MMIO_QUEUE_PFN := u32 (Z.shiftr p 12)]>
    (<[VIRTIO_MMIO_QUEUE_ALIGN := u32 4096]> (<[VIRTIO_MMIO_GUEST_PAGE_SIZE := u32 4096]> r)))) =
  Some (mkVq (reg r VIRTIO_MMIO_QUEUE_NUM) p (p + 16 * reg r VIRTIO_MMIO_QUEUE_NUM) (p + 4096)).
Proof.
  intros -> Hq Hpg Hp Ht. destruct (legacy_used_off _ Hq) as (_ & _ & E3). unfold live_queue, reg64, reg in *. change (1 =? 2) with false. regs. rewrite Ht.
  rewrite Z.shiftr_div_pow2 by lia. change (2 ^ 12) with 4096. apply Z.mod_divide in Hpg as [k ->]; [|lia].
  rewrite Z.div_mul by lia. rewrite !u32_small by lia. destruct (Z.eqb_spec k 0); [lia|]. by rewrite E3.
Qed.

Section setup.
Context {D : Type} {BUS : VirtioBus D} (base version qmax cap : Z) (latency : nat) {VB : VirtioBlk base version qmax cap latency}.
Implicit Types (s : vmach D) (c : cpu_state).

(** A write that does not reset sets one register. *)
Lemma wp_mmio_set off v Q c s : off ≠ VIRTIO_MMIO_STATUS ∨ u32 v ≠ 0 →
  (∀ d', vb_regs d' = <[off := u32 v]> (vb_regs (vm_dev s)) → vb_done d' = vb_done (vm_dev s) → (∀ i, vb_disk d' i = vb_disk (vm_dev s) i) →
    Q tt c (mkVm (vm_mem s) d')) → wp (mmio_write base off v) Q c s.
Proof.
  intros Hr HQ. unfold mmio_write. wp_steps. destruct (vb_write (vm_dev s) off (u32 v)) as (Er & Ed & Ek).
  assert ((off =? VIRTIO_MMIO_STATUS) && (u32 v =? 0) = false) as E.
  { apply andb_false_iff. destruct Hr; [left|right]; by apply Z.eqb_neq. }
  rewrite E in Er, Ed. by apply HQ.
Qed.

Lemma wp_mmio_get off Q c s : Q (reg_read (vm_dev s) base off) c s → wp (mmio_read base off) Q c s.
Proof. intros HQ. unfold mmio_read. by wp_steps. Qed.

Ltac set_reg_ := apply wp_mmio_set; [solve [by left | by right]|]; cbn [vm_mem vm_dev]; intros ? ? ? ?.

(** The reset. *)
Lemma wp_mmio_reset Q c s : (∀ d', vb_done d' = 0 → (∀ i, vb_disk d' i = vb_disk (vm_dev s) i) → Q tt c (mkVm (vm_mem s) d')) →
  wp (mmio_write base VIRTIO_MMIO_STATUS 0) Q c s.
Proof.
  intros HQ. unfold mmio_write. wp_steps. destruct (vb_write (vm_dev s) VIRTIO_MMIO_STATUS (u32 0)) as (_ & Ed & Ek). by apply HQ.
Qed.

(** The drivers take no feature: the device's answer is [vb_accepts]. *)
Lemma negotiate_features_correct c s : version = 1 ∨ version = 2 →
  wp (negotiate_features base version) (λ r c' s', r = vb_accepts ∧ c' = c ∧ vm_mem s' = vm_mem s ∧ vb_done (vm_dev s') = vb_done (vm_dev s) ∧
    ∀ i, vb_disk (vm_dev s') i = vb_disk (vm_dev s) i) c s.
Proof.
  intros Hv. unfold negotiate_features. wp_step. apply wp_mono with (λ _ c' s', c' = c ∧ vm_mem s' = vm_mem s ∧ vb_done (vm_dev s') = vb_done (vm_dev s) ∧
    (∀ i, vb_disk (vm_dev s') i = vb_disk (vm_dev s) i) ∧ reg (vb_regs (vm_dev s')) VIRTIO_MMIO_DRIVER_FEATURES = 0).
  { destruct (version =? 2); wp_step; [set_reg_|apply wp_mmio_get].
    - do 2 (wp_step; apply wp_mmio_get; wp_step; set_reg_). do 2 (wp_step; set_reg_). set_reg_. split_and!; try done; [congruence|intros i; congruence|].
      cbn [vm_dev]. match goal with E : vb_regs ?d = _ |- reg (vb_regs ?d) _ = _ => rewrite E end. unfold reg. by rewrite lookup_insert_eq.
    - set_reg_. split_and!; try done. cbn [vm_dev]. match goal with E : vb_regs ?d = _ |- reg (vb_regs ?d) _ = _ => rewrite E end. unfold reg. by rewrite lookup_insert_eq. }
  intros _ c' s' (-> & Em & Ed & Ek & Ef). wp_step. apply wp_mmio_set; [by right|]. cbn [vm_mem vm_dev]. intros d1 R1 D1 K1. wp_step. apply wp_mmio_get. cbn [vm_dev].
  rewrite vb_status by (rewrite R1; unfold reg in *; by rewrite lookup_insert_ne). rewrite R1.
  assert (reg (<[VIRTIO_MMIO_STATUS := u32 11]> (vb_regs (vm_dev s'))) VIRTIO_MMIO_STATUS = 11) as E11 by (unfold reg; by rewrite lookup_insert_eq).
  change (Z.lor (Z.lor VIRTIO_STATUS_ACKNOWLEDGE VIRTIO_STATUS_DRIVER) VIRTIO_STATUS_FEATURES_OK) with 11. rewrite E11. cbv zeta. destruct vb_accepts.
  - change (Z.land 11 VIRTIO_STATUS_FEATURES_OK =? 0) with false. cbv iota. wp_steps. cbn [vm_dev vm_mem]. split_and!; try done; [congruence|]. intros i. congruence.
  - change (Z.land (Z.ldiff 11 VIRTIO_STATUS_FEATURES_OK) VIRTIO_STATUS_FEATURES_OK =? 0) with true. cbv iota. wp_step. set_reg_. wp_steps.
    cbn [vm_dev vm_mem]. split_and!; try done; [congruence|]. intros i. congruence.
Qed.

Lemma set_queue_regs_correct desc avail used c s : version = 2 → 0 ≤ desc < 2 ^ 64 → 0 ≤ avail < 2 ^ 64 → 0 ≤ used < 2 ^ 64 →
  wp (set_queue_regs base desc avail used) (λ _ c' s', c' = c ∧ vm_mem s' = vm_mem s ∧ vb_done (vm_dev s') = vb_done (vm_dev s) ∧
    (∀ i, vb_disk (vm_dev s') i = vb_disk (vm_dev s) i) ∧
    ∀ v, Z.testbit v 2 = true → live_queue version (<[VIRTIO_MMIO_STATUS := v]> (vb_regs (vm_dev s'))) =
      Some (mkVq (reg (vb_regs (vm_dev s)) VIRTIO_MMIO_QUEUE_NUM) desc avail used)) c s.
Proof.
  intros Hv H1 H2 H3. unfold set_queue_regs. do 6 (wp_step; set_reg_). set_reg_. cbn [vm_mem vm_dev]. split_and!; try done; [congruence|intros i; congruence|].
  intros v Ht. repeat match goal with E : vb_regs _ = <[_ := _]> _ |- _ => rewrite E; clear E end.
  unfold live_queue, reg64, reg. apply Z.eqb_eq in Hv. rewrite Hv. regs. rewrite Ht. by rewrite !reg_pair.
Qed.
End setup.
