(* ===== verification/BootBlock.v ===== *)
(** * The loader's block driver (Kern/Loader/boot_block_virtio.c)

    Probes the 32 virtio slots, sets up queue 0 of the first block device and
    reads sectors by polling.  The MMU is off: addresses are physical.  The
    statics' addresses are those the linker chose. *)

From S2P Require Import Prelude Virtio VirtioQueue VirtioXfer.

(** [struct virtio_blk_dev g_blk] *)
Record boot_blk := mkBlk {
  b_mmio : Z; b_version : Z; b_queue_size : Z; b_desc : Z; b_avail : Z; b_used : Z;
  b_last_used : Z; b_capacity_sectors : Z; b_ready : bool;
}.

(** Where [g_desc], [g_avail], [g_used], [g_legacy_queue], [g_req] and
    [g_status] are. *)
Record boot_statics := mkStatics { g_desc : Z; g_avail : Z; g_used : Z; g_legacy_queue : Z; g_req : Z; g_status : Z }.

Record boot_state (D : Type) := mkBs { bs_vm : vmach D; g_blk : boot_blk }.
Arguments mkBs {D}.
Arguments bs_vm {D}.
Arguments g_blk {D}.

Section driver.
Context {D : Type} {BUS : VirtioBus D} (A : boot_statics).
Abbreviation BM := (M (boot_state D)).

Definition vm_lens : lens (boot_state D) (vmach D) := mkLens bs_vm (λ v s, mkBs v (g_blk s)).
Definition vm {X} (m : M (vmach D) X) : BM X := zoom vm_lens m.

(** [desc[i]] set to 0 for [i], [i+1], ... *)
Fixpoint clear_descs (desc i : Z) (n : nat) : M (vmach D) unit :=
  match n with O => ret tt | S n => put_desc desc i 0 0 0 0 ;;; clear_descs desc (i + 1) n end.

(** The queue of a device of version 2: the three static structures. *)
Definition setup_modern (mmio : Z) : M (vmach D) (Z * Z * Z) :=
  clear_descs (g_desc A) 0 (Z.to_nat VIRTQ_SIZE) ;;;
  put_field (g_avail A) 2 0 ;;; put_field (g_avail A + 2) 2 0 ;;;
  put_field (g_used A) 2 0 ;;; put_field (g_used A + 2) 2 0 ;;;
  set_queue_regs mmio (g_desc A) (g_avail A) (g_used A) ;;;
  ret (g_desc A, g_avail A, g_used A).

(** The queue of a legacy device: one area of two pages. *)
Definition setup_legacy (mmio qsize : Z) : M (vmach D) (Z * Z * Z) :=
  put_bytes (g_legacy_queue A) (replicate (Z.to_nat 8192) 0) ;;;
  let desc_bytes := u32 (qsize * 16) in
  let used_off := Z.land (u32 (desc_bytes + sizeof_virtq_avail + 4095)) (u32 (Z.lnot 4095)) in
  mmio_write mmio VIRTIO_MMIO_GUEST_PAGE_SIZE 4096 ;;;
  mmio_write mmio VIRTIO_MMIO_QUEUE_ALIGN 4096 ;;;
  mmio_write mmio VIRTIO_MMIO_QUEUE_PFN (Z.shiftr (g_legacy_queue A) 12) ;;;
  ret (g_legacy_queue A, g_legacy_queue A + desc_bytes, g_legacy_queue A + used_off).

(** Reset, acknowledge, accept no feature; [false] when the device refuses. *)
Definition negotiate (mmio version : Z) : M (vmach D) bool :=
  mmio_write mmio VIRTIO_MMIO_STATUS 0 ;;;
  mmio_write mmio VIRTIO_MMIO_STATUS (Z.lor VIRTIO_STATUS_ACKNOWLEDGE VIRTIO_STATUS_DRIVER) ;;;
  negotiate_features mmio version.

Definition virtio_blk_init_at (mmio : Z) : BM bool :=
  magic <- vm (mmio_read mmio VIRTIO_MMIO_MAGIC_VALUE) ;;
  if negb (magic =? VIRTIO_MMIO_MAGIC) then ret false
  else
    version <- vm (mmio_read mmio VIRTIO_MMIO_VERSION) ;;
    if negb (version =? 1) && negb (version =? 2) then ret false
    else
      devid <- vm (mmio_read mmio VIRTIO_MMIO_DEVICE_ID) ;;
      if negb (devid =? VIRTIO_DEVICE_BLOCK) then ret false
      else
        ok <- vm (negotiate mmio version) ;;
        if negb ok then ret false
        else
          vm (mmio_write mmio VIRTIO_MMIO_QUEUE_SEL 0) ;;;
          qmax <- vm (mmio_read mmio VIRTIO_MMIO_QUEUE_NUM_MAX) ;;
          if qmax =? 0 then ret false
          else
            let qsize := if qmax <? VIRTQ_SIZE then qmax else VIRTQ_SIZE in
            vm (mmio_write mmio VIRTIO_MMIO_QUEUE_NUM qsize) ;;;
            q <- vm (if version =? 2 then setup_modern mmio else setup_legacy mmio qsize) ;;
            let '(desc, avail, used) := q in
            vm (mmio_write mmio VIRTIO_MMIO_STATUS
              (Z.lor (Z.lor (Z.lor VIRTIO_STATUS_ACKNOWLEDGE VIRTIO_STATUS_DRIVER) VIRTIO_STATUS_FEATURES_OK) VIRTIO_STATUS_DRIVER_OK)) ;;;
            cap_lo <- vm (mmio_read mmio VIRTIO_MMIO_CONFIG) ;;
            cap_hi <- vm (mmio_read mmio (VIRTIO_MMIO_CONFIG + 4)) ;;
            modify (λ s, mkBs (bs_vm s)
              (mkBlk mmio version qsize desc avail used 0 (Z.lor (Z.shiftl cap_hi 32) cap_lo) true)) ;;;
            ret true.

(** Slots [i], [i+1], ... *)
Fixpoint init_slots (i : Z) (n : nat) : BM bool :=
  match n with
  | O => ret false
  | S n =>
    ok <- virtio_blk_init_at (0x0A000000 + 0x200 * i) ;;
    if ok : bool then ret true else init_slots (i + 1) n
  end.

Definition virtio_blk_init : BM bool :=
  b <- gets g_blk ;;
  if b_ready b then ret true else init_slots 0 32.

(** The queue the driver uses. *)
Definition blk_queue (b : boot_blk) : virtq := mkVq (b_queue_size b) (b_desc b) (b_avail b) (b_used b).

(** The wait has no bound in the code; [polls] bounds it here, and passing the
    bound is a fault. *)
Definition virtio_blk_read (polls : nat) (lba count buf : Z) : BM bool :=
  ok <- virtio_blk_init ;;
  if negb ok then ret false
  else if (buf =? 0) || (count =? 0) then ret false
  else
    b <- gets g_blk ;;
    r <- vm (exchange (b_mmio b) (blk_queue b) VIRTIO_BLK_T_IN lba (u32 (count * 512)) VIRTQ_DESC_F_WRITE
               (g_req A) buf (g_status A) (b_last_used b) polls) ;;
    idx <- load r ;;
    modify (λ s, mkBs (bs_vm s) (mkBlk (b_mmio b) (b_version b) (b_queue_size b) (b_desc b) (b_avail b) (b_used b) idx
      (b_capacity_sectors b) (b_ready b))) ;;;
    st <- vm (poll_field (g_status A) 1) ;;
    ret (st =? 0).

Definition boot_block_read (polls : nat) (lba count buf : Z) : BM bool := virtio_blk_read polls lba count buf.
End driver.

(** ** Bringing the device up *)

Section init.
Context {D : Type} {BUS : VirtioBus D} (A : boot_statics).
Context (base version qmax cap : Z) (latency : nat) {VB : VirtioBlk base version qmax cap latency}.
Implicit Types (c : cpu_state).

Ltac set_reg := apply (wp_mmio_set base version qmax cap latency); [solve [by left | by right]|]; cbn [vm_mem vm_dev]; intros ? ? ? ?.

Lemma negotiate_correct c s : version = 1 ∨ version = 2 →
  wp (negotiate base version) (λ r c' s', r = vb_accepts ∧ c' = c ∧ vm_mem s' = vm_mem s ∧ vb_done (vm_dev s') = 0 ∧
    ∀ i, vb_disk (vm_dev s') i = vb_disk (vm_dev s) i) c s.
Proof.
  intros Hv. unfold negotiate. wp_step. apply (wp_mmio_reset base version qmax cap latency). intros d0 E0 K0. wp_step. set_reg.
  eapply wp_mono; [by apply (negotiate_features_correct base version qmax cap latency)|]. cbv beta. cbn [vm_mem vm_dev].
  intros r c' s' (-> & -> & Em & Ed & Ek). split_and!; try done; [congruence|]. intros i. rewrite Ek. congruence.
Qed.

(** The statics are apart from each other, in memory, and the legacy area is
    two pages with a page number of 32 bits. *)
Record statics_ok (m : bytes) : Prop := {
  so_mapped : mapped (g_desc A) 128 m ∧ mapped (g_avail A) 22 m ∧ mapped (g_used A) 68 m ∧ mapped (g_legacy_queue A) 8192 m ∧
    mapped (g_req A) 16 m ∧ mapped (g_status A) 1 m;
  so_desc : sep (g_desc A) 128 (g_avail A) 22 ∧ sep (g_desc A) 128 (g_used A) 68 ∧ sep (g_desc A) 128 (g_req A) 16 ∧ sep (g_desc A) 128 (g_status A) 1;
  so_avail : sep (g_avail A) 22 (g_used A) 68 ∧ sep (g_avail A) 22 (g_req A) 16 ∧ sep (g_avail A) 22 (g_status A) 1;
  so_used : sep (g_used A) 68 (g_req A) 16 ∧ sep (g_used A) 68 (g_status A) 1;
  so_legacy : sep (g_legacy_queue A) 8192 (g_req A) 16 ∧ sep (g_legacy_queue A) 8192 (g_status A) 1;
  so_req : sep (g_req A) 16 (g_status A) 1;
  so_range : (0 ≤ g_desc A < 2 ^ 64) ∧ (0 ≤ g_avail A < 2 ^ 64) ∧ (0 ≤ g_used A < 2 ^ 64) ∧ (0 ≤ g_req A < 2 ^ 64) ∧ (0 ≤ g_status A < 2 ^ 64);
  so_page : g_legacy_queue A mod 4096 = 0 ∧ 0 < g_legacy_queue A < 2 ^ 44;
}.

Definition boot_queue (qsize : Z) : virtq :=
  if version =? 2 then mkVq qsize (g_desc A) (g_avail A) (g_used A)
  else mkVq qsize (g_legacy_queue A) (g_legacy_queue A + 16 * qsize) (g_legacy_queue A + 4096).

Lemma boot_areas m qsize : statics_ok m → 3 ≤ qsize ≤ 8 →
  areas (boot_queue qsize) (g_req A) (g_status A) ∧ areas_mapped (boot_queue qsize) (g_req A) (g_status A) m.
Proof.
  intros [(M1 & M2 & M3 & M4 & M5 & M6) (S1 & S2 & S3 & S4) (S5 & S6 & S7) (S8 & S9) (S10 & S11) S12 _ _] Hq. unfold boot_queue, sep in *.
  destruct (version =? 2).
  - split; [split; unfold sep; cbn; lia|]. unfold areas_mapped; cbn. split_and!; match goal with Hm : mapped ?a _ m |- mapped ?a _ m => apply (mapped_sub _ _ _ _ _ Hm); lia end.
  - split; [split; unfold sep; cbn; lia|]. unfold areas_mapped; cbn. split_and!; try done; apply (mapped_sub _ _ _ _ _ M4); lia.
Qed.

Lemma clear_descs_correct desc n : ∀ i c (s : vmach D) Q, mapped (desc + 16 * i) (16 * Z.of_nat n) (vm_mem s) →
  (∀ m', (∀ x, ¬ (desc + 16 * i ≤ x < desc + 16 * i + 16 * Z.of_nat n) → m' !! x = vm_mem s !! x) →
     (∀ a k, mapped a k (vm_mem s) → mapped a k m') → Q tt c (mkVm m' (vm_dev s))) → wp (clear_descs desc i n) Q c s.
Proof.
  induction n as [|n IH]; intros i c s Q Hm HQ; cbn [clear_descs].
  - wp_steps. destruct s as [m d]. by apply HQ.
  - unfold put_desc. wp_step. cbv zeta.
    do 3 (wp_step; apply wp_put_field; [cbn [vm_mem]; repeat apply mapped_put; eapply mapped_sub; [exact Hm|lia|lia]|cbn [vm_mem vm_dev]]).
    apply wp_put_field; [cbn [vm_mem]; repeat apply mapped_put; eapply mapped_sub; [exact Hm|lia|lia]|cbn [vm_mem vm_dev]].
    apply IH; cbn [vm_mem vm_dev].
    + repeat apply mapped_put. eapply mapped_sub; [exact Hm|lia|lia].
    + intros m' Hf Hmk. apply HQ.
      * intros x Hx. rewrite Hf by lia. rewrite !lookup_put, !length_le, !decide_False by lia. done.
      * intros a k Ha. apply Hmk. by repeat apply mapped_put.
Qed.

(** The statics' bytes. *)
Definition in_statics (x : Z) : Prop :=
  g_desc A ≤ x < g_desc A + 128 ∨ g_avail A ≤ x < g_avail A + 22 ∨ g_used A ≤ x < g_used A + 68 ∨
  g_legacy_queue A ≤ x < g_legacy_queue A + 8192 ∨ g_req A ≤ x < g_req A + 16 ∨ x = g_status A.

(** What a set-up leaves: zeroed indexes, and the registers that describe the
    queue once the status is written. *)
Definition set_up (qsize : Z) (s s' : vmach D) : Prop :=
  let q := boot_queue qsize in
  field (vm_mem s') (q_avail q + 2) 2 = Some 0 ∧ field (vm_mem s') (q_used q + 2) 2 = Some 0 ∧
  (∀ a k, mapped a k (vm_mem s) → mapped a k (vm_mem s')) ∧ vb_done (vm_dev s') = vb_done (vm_dev s) ∧
  (∀ i, vb_disk (vm_dev s') i = vb_disk (vm_dev s) i) ∧
  (∀ x, ¬ in_statics x → vm_mem s' !! x = vm_mem s !! x) ∧
  ∀ v, Z.testbit v 2 = true → live_queue version (<[VIRTIO_MMIO_STATUS := v]> (vb_regs (vm_dev s'))) = Some q.

Lemma setup_modern_correct qsize c s : version = 2 → statics_ok (vm_mem s) → reg (vb_regs (vm_dev s)) VIRTIO_MMIO_QUEUE_NUM = qsize →
  wp (setup_modern A base) (λ r c' s', r = (g_desc A, g_avail A, g_used A) ∧ c' = c ∧ set_up qsize s s') c s.
Proof.
  intros Hv Hso Hnum. pose proof (so_mapped _ Hso) as (M1 & M2 & M3 & _ & _ & _). destruct (so_range _ Hso) as (R1 & R2 & R3 & _).
  pose proof (proj1 (so_avail _ Hso)) as S1. unfold setup_modern. wp_step. apply clear_descs_correct; [by rewrite Z.mul_0_r, Z.add_0_r|].
  intros m1 Hf1 Hmk. do 4 (wp_step; apply wp_put_field; [cbn [vm_mem]; repeat apply mapped_put; apply Hmk; (eapply (mapped_sub (g_avail A) 22); [done|lia|lia]) || (eapply (mapped_sub (g_used A) 68); [done|lia|lia])|cbn [vm_mem vm_dev]]).
  wp_step. eapply wp_mono; [by apply (set_queue_regs_correct base version qmax cap latency (g_desc A) (g_avail A) (g_used A))|]. cbv beta. cbn [vm_mem vm_dev].
  intros _ c' s' (-> & Em & Ed & Ek & El). wp_steps. split; [done|]. split; [done|]. assert ((version =? 2) = true) as Ev by (by apply Z.eqb_eq). unfold set_up, boot_queue. rewrite Ev, Em. cbn [q_avail q_used vm_mem vm_dev].
  split_and!.
  - rewrite !field_put_sep by (unfold sep in S1; cbn [Z.of_nat]; lia). by rewrite field_put_same.
  - by rewrite field_put_same.
  - intros a k Ha. by repeat apply mapped_put; apply Hmk.
  - congruence.
  - intros i. congruence.
  - intros x Hx. unfold in_statics in Hx. rewrite !lookup_put, !length_le, !decide_False by lia. apply Hf1. change (Z.of_nat _) with 8. lia.
  - intros v Ht. rewrite El by done. by rewrite Hnum.
Qed.

Lemma setup_legacy_correct qsize c s : version = 1 → 3 ≤ qsize ≤ 8 → statics_ok (vm_mem s) →
  reg (vb_regs (vm_dev s)) VIRTIO_MMIO_QUEUE_NUM = qsize →
  wp (setup_legacy A base qsize) (λ r c' s', r = (g_legacy_queue A, g_legacy_queue A + 16 * qsize, g_legacy_queue A + 4096) ∧ c' = c ∧ set_up qsize s s') c s.
Proof.
  intros Hv Hq Hso Hnum. pose proof (so_mapped _ Hso) as (_ & _ & _ & M4 & _ & _). destruct (so_page _ Hso) as (Hpg & Hlo & Hhi).
  destruct (legacy_used_off qsize Hq) as (E1 & E2 & E3). unfold setup_legacy. cbv zeta. rewrite E2, E1. wp_step. unfold put_bytes. wp_steps.
  rewrite length_replicate. destruct (mapped_get (g_legacy_queue A) (Z.to_nat 8192) (vm_mem s)) as (l & -> & _); [done|]. wp_steps.
  do 2 (set_reg; wp_step). set_reg. wp_steps. split; [done|]. split; [done|]. assert ((version =? 2) = false) as E by (apply Z.eqb_neq; lia).
  unfold set_up, boot_queue. rewrite E. cbn [q_avail q_used vm_mem vm_dev]. split_and!.
  - apply field_zeros; lia.
  - apply field_zeros; lia.
  - intros a k Ha. by apply mapped_put.
  - congruence.
  - intros i. congruence.
  - intros x Hx. unfold in_statics in Hx. rewrite lookup_put, length_replicate, decide_False by lia. done.
  - intros v Ht. repeat match goal with E : vb_regs _ = <[_ := _]> _ |- _ => rewrite E; clear E end. rewrite <- Hnum. by apply legacy_live; rewrite ?Hnum.
Qed.

(** A driver that is ready and agrees with the device. *)
Definition boot_ready (b : boot_blk) (d : D) (m : bytes) : Prop :=
  b_ready b = true ∧ b_mmio b = base ∧ linked base version qmax cap latency (blk_queue b) (g_req A) (g_status A) d m ∧
  blk_queue b = boot_queue (b_queue_size b) ∧ b_last_used b = vb_done d.

(** The device can be used: it accepts a driver without features and has a
    queue 0. *)
Definition usable : bool := vb_accepts && negb (qmax =? 0).

Lemma init_at_correct c (s : boot_state D) : version = 1 ∨ version = 2 → qmax = 0 ∨ 3 ≤ qmax → statics_ok (vm_mem (bs_vm s)) →
  (∀ i b, vb_disk (vm_dev (bs_vm s)) i = Some b → length b = 512%nat) →
  wp (virtio_blk_init_at A base) (λ r c' s', r = usable ∧ c' = c ∧
    (if usable then boot_ready (g_blk s') (vm_dev (bs_vm s')) (vm_mem (bs_vm s')) ∧
       b_capacity_sectors (g_blk s') = Z.lor (Z.shiftl (cap / 2 ^ 32) 32) (cap mod 2 ^ 32)
     else g_blk s' = g_blk s ∧ vm_mem (bs_vm s') = vm_mem (bs_vm s)) ∧
    (∀ i, vb_disk (vm_dev (bs_vm s')) i = vb_disk (vm_dev (bs_vm s)) i) ∧
    (∀ a k, mapped a k (vm_mem (bs_vm s)) → mapped a k (vm_mem (bs_vm s'))) ∧
    (∀ x, ¬ in_statics x → vm_mem (bs_vm s') !! x = vm_mem (bs_vm s) !! x)) c s.
Proof.
  intros Hv Hq Hso Hlen. destruct (vb_constants (vm_dev (bs_vm s))) as (C1 & C2 & C3 & _). unfold virtio_blk_init_at, vm.
  wp_step. wp_step. apply wp_mmio_get. cbn [lget vm_lens]. rewrite C1. cbn [negb Z.eqb]. rewrite Z.eqb_refl. cbn [negb].
  wp_step. wp_step. apply wp_mmio_get. cbn [lget lset vm_lens bs_vm]. rewrite C2.
  assert (negb (version =? 1) && negb (version =? 2) = false) as -> by (destruct Hv as [-> | ->]; done).
  wp_step. wp_step. apply wp_mmio_get. cbn [lget lset vm_lens bs_vm]. rewrite C3, Z.eqb_refl. cbn [negb].
  wp_step. wp_step. cbn [lget lset vm_lens bs_vm]. eapply wp_mono; [by apply negotiate_correct|]. cbv beta.
  intros r c' s1 (-> & -> & Em1 & Ed1 & Ek1). unfold usable. destruct vb_accepts eqn:Eacc; cbn [negb andb]; last first.
  { wp_steps. cbn [lset vm_lens bs_vm g_blk]. rewrite Em1. by split_and!. }
  wp_step. wp_step. cbn [lget lset vm_lens bs_vm]. set_reg.
  wp_step. wp_step. cbn [lget lset vm_lens bs_vm]. apply wp_mmio_get. destruct (vb_constants d') as (_ & _ & _ & C4 & _). cbn [vm_dev]. rewrite C4.
  destruct (Z.eqb_spec qmax 0) as [Hq0|Hq0]; cbn [negb].
  { wp_steps. cbn [lset vm_lens bs_vm g_blk vm_mem vm_dev]. rewrite Em1. split_and!; try done. intros i. congruence. }
  assert (3 ≤ qmax) as Hq3 by lia. set (qsize := if qmax <? VIRTQ_SIZE then qmax else VIRTQ_SIZE).
  assert (3 ≤ qsize ≤ 8) as Hqs by (unfold qsize, VIRTQ_SIZE; destruct (Z.ltb_spec qmax 8); lia).
  wp_step. wp_step. cbn [lget lset vm_lens bs_vm vm_dev vm_mem]. set_reg. wp_step. wp_step. cbn [lget lset vm_lens bs_vm vm_dev vm_mem].
  set (s2 := mkVm (vm_mem s1) d'0).
  assert (statics_ok (vm_mem s2)) as Hso2 by (unfold s2; cbn; by rewrite Em1).
  assert (reg (vb_regs (vm_dev s2)) VIRTIO_MMIO_QUEUE_NUM = qsize) as Hnum.
  { unfold s2, reg. cbn [vm_dev]. match goal with E : vb_regs d'0 = _ |- _ => rewrite E end. rewrite lookup_insert_eq. cbn. apply u32_small. lia. }
  set (q := boot_queue qsize).
  assert (wp (if version =? 2 then setup_modern A base else setup_legacy A base qsize)
    (λ r c' s', r = (q_desc q, q_avail q, q_used q) ∧ c' = c ∧ set_up qsize s2 s') c s2) as Hset.
  { unfold q, boot_queue. destruct Hv as [Hv|Hv].
    - assert ((version =? 2) = false) as -> by (apply Z.eqb_neq; lia). by apply setup_legacy_correct.
    - assert ((version =? 2) = true) as -> by (by apply Z.eqb_eq). by apply setup_modern_correct. }
  eapply wp_mono; [exact Hset|]. cbv beta. intros r c' s3 (-> & -> & F1 & F2 & F3 & F4 & F5 & F7 & F6). clear Hset. fold q in F1, F2, F6.
  wp_step. wp_step. cbn [lget lset vm_lens bs_vm vm_dev vm_mem]. set_reg. do 2 (wp_step; wp_step; apply wp_mmio_get; cbn [lget lset vm_lens bs_vm vm_dev vm_mem]).
  destruct (vb_constants d'1) as (_ & _ & _ & _ & C5 & C6). rewrite C5, C6. wp_steps. cbn [g_blk bs_vm vm_mem vm_dev lset vm_lens b_capacity_sectors].
  assert (vb_done d'1 = 0) as Hdone by (unfold s2 in F4; cbn [vm_dev] in F4; congruence).
  assert (∀ i, vb_disk d'1 i = vb_disk (vm_dev (bs_vm s)) i) as Hdisk by (intros i; unfold s2 in F5; cbn [vm_dev] in F5; congruence).
  split; [done|]. split; [done|]. assert (mkVq qsize (q_desc q) (q_avail q) (q_used q) = q) as Eq by (unfold q, boot_queue; by destruct (version =? 2)).
  split; [split; [|done]|split; [done|split]].
  - unfold boot_ready, blk_queue. cbn [b_ready b_mmio b_queue_size b_desc b_avail b_used b_last_used]. rewrite Eq. split_and!; try done.
    destruct (boot_areas _ qsize Hso2 Hqs) as [Har (N1 & N2 & N3 & N4 & N5)]. fold q in Har, N1, N2, N3.
    split; rewrite ?Hdone; try done.
    + match goal with E : vb_regs d'1 = _ |- _ => rewrite E end. by apply F6.
    + unfold areas_mapped. split_and!; by apply F3.
    + intros i b. rewrite Hdisk. apply Hlen.
    + apply (so_range _ Hso).
  - intros a k Ha. apply F3. unfold s2. cbn [vm_mem]. by rewrite Em1.
  - intros x Hx. rewrite F7 by done. unfold s2. cbn [vm_mem]. by rewrite Em1.
Qed.

(** ** Reading *)

Definition slot (i : Z) : Z := 0x0A000000 + 0x200 * i.
Lemma init_absent b c (s : boot_state D) : no_block D b → wp (virtio_blk_init_at A b) (λ r c' s', r = false ∧ c' = c ∧ s' = s) c s.
Proof.
  intros Hno. destruct s as [v k]. unfold virtio_blk_init_at, vm, mmio_read. wp_steps. cbn [lget lset vm_lens bs_vm g_blk].
  destruct (Z.eqb_spec (reg_read (vm_dev v) b VIRTIO_MMIO_MAGIC_VALUE) VIRTIO_MMIO_MAGIC) as [Em|Em]; cbn [negb]; [|by wp_steps].
  wp_steps. cbn [lget lset vm_lens bs_vm g_blk]. destruct (_ && _); [by wp_steps|]. wp_steps. cbn [lget lset vm_lens bs_vm g_blk].
  destruct (Z.eqb_spec (reg_read (vm_dev v) b VIRTIO_MMIO_DEVICE_ID) VIRTIO_DEVICE_BLOCK) as [Ed|Ed]; cbn [negb]; [|by wp_steps].
  by destruct (Hno (vm_dev v)).
Qed.

(** The machine of the loader: the device in slot [k], none before it, and none
    behind one that cannot be used; the driver untouched or in agreement with
    the device. *)
Record boot_inv (k : Z) (s : boot_state D) : Prop := {
  bi_slot : 0 ≤ k < 32 ∧ base = slot k ∧ (∀ j, 0 ≤ j < k → no_block D (slot j)) ∧
    (usable = false → ∀ j, k < j < 32 → no_block D (slot j));
  bi_device : (version = 1 ∨ version = 2) ∧ (qmax = 0 ∨ 3 ≤ qmax);
  bi_statics : statics_ok (vm_mem (bs_vm s));
  bi_disk : ∀ i b, vb_disk (vm_dev (bs_vm s)) i = Some b → length b = 512%nat;
  bi_driver : b_ready (g_blk s) = false ∨ usable = true ∧ boot_ready (g_blk s) (vm_dev (bs_vm s)) (vm_mem (bs_vm s));
}.

Definition same_disk (s s' : boot_state D) : Prop := ∀ i, vb_disk (vm_dev (bs_vm s')) i = vb_disk (vm_dev (bs_vm s)) i.
Definition keeps_mapped (s s' : boot_state D) : Prop := ∀ a n, mapped a n (vm_mem (bs_vm s)) → mapped a n (vm_mem (bs_vm s')).

Definition outside_kept (P : Z → Prop) (s s' : boot_state D) : Prop :=
  ∀ x, ¬ in_statics x → ¬ P x → vm_mem (bs_vm s') !! x = vm_mem (bs_vm s) !! x.

Lemma statics_kept m m' : statics_ok m → (∀ a n, mapped a n m → mapped a n m') → statics_ok m'.
Proof. intros [(M1 & M2 & M3 & M4 & M5 & M6) ? ? ? ? ? ? ?] Hm. split; try done. split_and!; by apply Hm. Qed.

Lemma boot_inv_kept k s s' : boot_inv k s → same_disk s s' → keeps_mapped s s' →
  b_ready (g_blk s') = false ∨ usable = true ∧ boot_ready (g_blk s') (vm_dev (bs_vm s')) (vm_mem (bs_vm s')) → boot_inv k s'.
Proof. intros [Hsl Hdv Hso Hlen _] Hd Hm Hdr. split; try done; [by eapply statics_kept|]. intros i b. rewrite Hd. apply Hlen. Qed.

(** The slots behind the device hold none. *)
Lemma slots_absent n : ∀ j c (s : boot_state D), (∀ i, j ≤ i < j + Z.of_nat n → no_block D (slot i)) →
  wp (init_slots A j n) (λ r c' s', r = false ∧ c' = c ∧ s' = s) c s.
Proof.
  induction n as [|n IH]; intros j c s Hno; cbn [init_slots]; [by wp_steps|]. wp_step. eapply wp_mono; [apply (init_absent (slot j)); apply Hno; lia|].
  cbv beta. intros r c' s' (-> & -> & ->). apply IH. intros i Hi. apply Hno. lia.
Qed.

(** What the set-up comes to, on the first call and on later ones. *)
Definition init_done k (s : boot_state D) (r : bool) (s' : boot_state D) : Prop :=
  r = usable ∧ boot_inv k s' ∧ b_ready (g_blk s') = usable ∧ same_disk s s' ∧ keeps_mapped s s' ∧ outside_kept (λ _, False) s s' ∧
  (usable = false → vm_mem (bs_vm s') = vm_mem (bs_vm s)).

Lemma init_correct k c (s : boot_state D) : boot_inv k s → wp (virtio_blk_init A) (λ r c' s', c' = c ∧ init_done k s r s') c s.
Proof.
  intros I. pose proof I as [(Hk & Eb & Hno & Hno') [Hv Hq] Hso Hlen Hdr]. unfold virtio_blk_init. wp_steps. destruct (b_ready (g_blk s)) eqn:Er.
  { destruct Hdr as [|[Hu _]]; [done|]. wp_steps. unfold init_done. rewrite Hu. split_and!; try done; by intros ?. }
  assert (∀ n j, 0 ≤ j ≤ k → j + Z.of_nat n = 32 → wp (init_slots A j n) (λ r c' s', c' = c ∧ init_done k s r s') c s) as Hloop; [|apply Hloop; lia].
  induction n as [|n IH]; intros j Hj Hn; [lia|]. cbn [init_slots]. wp_step. destruct (decide (j = k)) as [->|Hne].
  - fold (slot k). rewrite <- Eb. eapply wp_mono; [by apply init_at_correct|]. cbv beta. intros r c' s' (-> & -> & Hr & Hd & Hm & Hf). unfold init_done.
    destruct usable eqn:Eu.
    + wp_steps. split; [done|]. split_and!; try done; [apply (boot_inv_kept k s); try done; right; split; [done|apply Hr]|by apply Hr|by intros x Hx _; apply Hf].
    + destruct Hr as [Eg Em]. eapply wp_mono; [apply slots_absent; intros i Hi; apply Hno'; [done|lia]|]. cbv beta. intros r c' s2 (-> & -> & ->). rewrite Eg.
      split; [done|]. split_and!; try done; [apply (boot_inv_kept k s); try done; left; by rewrite Eg|by intros x Hx _; apply Hf].
  - eapply wp_mono; [apply (init_absent (slot j)); apply Hno; lia|]. cbv beta. intros r c' s' (-> & -> & ->). apply IH; lia.
Qed.

(** A buffer apart from the statics. *)
Record buffer_ok (buf n : Z) (m : bytes) : Prop := {
  bo_mapped : mapped buf n m;
  bo_addr : 0 < buf < 2 ^ 64;
  bo_desc : sep buf n (g_desc A) 128;
  bo_avail : sep buf n (g_avail A) 22;
  bo_used : sep buf n (g_used A) 68;
  bo_legacy : sep buf n (g_legacy_queue A) 8192;
  bo_req : sep buf n (g_req A) 16;
  bo_st : sep buf n (g_status A) 1;
}.

Lemma buffer_of buf n m q : buffer_ok buf n m → 3 ≤ q ≤ 8 → buffer (boot_queue q) (g_req A) (g_status A) buf n m.
Proof.
  intros [B1 B2 B3 B4 B5 B6 B7 B8] Hq. unfold boot_queue, sep in *. split; try done; try lia; destruct (version =? 2); unfold sep; cbn; lia.
Qed.

Lemma queue_in_statics q x : 3 ≤ q ≤ 8 → ¬ in_statics x →
  ¬ driver_writes (boot_queue q) (g_req A) (g_status A) x ∧ ¬ (q_used (boot_queue q) ≤ x < q_used (boot_queue q) + 4 + 8 * q_num (boot_queue q)).
Proof.
  intros Hq Hx. unfold in_statics in Hx. unfold driver_writes, boot_queue. destruct (version =? 2); cbn; lia.
Qed.

(** The sectors the loader can reach. *)
Definition boot_sectors (d : D) : Z → option (list Z) := if usable then vb_disk d else λ _, None.

(** What a read of [count] sectors at [lba] into [buf] does. *)
Definition read_post (lba count buf : Z) (s : boot_state D) (r : bool) (s' : boot_state D) : Prop :=
  match sectors (boot_sectors (vm_dev (bs_vm s))) lba count with
  | Some data => r = true ∧ get buf (Z.to_nat (512 * count)) (vm_mem (bs_vm s')) = Some data
  | None => r = false ∧ ∀ x, buf ≤ x < buf + 512 * count → vm_mem (bs_vm s') !! x = vm_mem (bs_vm s) !! x
  end.

Lemma no_sectors lba count : 0 < count → sectors (λ _, None) lba count = None.
Proof. intros Hc. unfold sectors. rewrite seqZ_cons by lia. done. Qed.

Lemma read_correct k polls lba count buf c s : boot_inv k s → buffer_ok buf (512 * count) (vm_mem (bs_vm s)) → 0 < count → 512 * count < 2 ^ 32 →
  0 ≤ lba < 2 ^ 64 → (latency ≤ polls)%nat →
  wp (boot_block_read A polls lba count buf) (λ r c' s', c' = c ∧ boot_inv k s' ∧ same_disk s s' ∧ keeps_mapped s s' ∧
    outside_kept (λ x, buf ≤ x < buf + 512 * count) s s' ∧ read_post lba count buf s r s') c s.
Proof.
  intros I Hbuf Hc Hc' Hlba Hp. unfold boot_block_read, virtio_blk_read, vm. wp_step. eapply wp_mono; [by apply (init_correct k)|]. cbv beta.
  intros r c' s1 (-> & -> & I1 & Hr1 & Hd1 & Hm1 & Hf1 & Hun). unfold read_post, boot_sectors. destruct usable eqn:Eu; cbn [negb]; last first.
  { wp_steps. rewrite no_sectors by done. specialize (Hun eq_refl). split_and!; try done; [by intros x Hx _; apply Hf1; tauto|]. intros x _. by rewrite Hun. }
  assert ((buf =? 0) || (count =? 0) = false) as ->.
  { apply orb_false_iff. split; apply Z.eqb_neq; [destruct (bo_addr _ _ _ Hbuf); lia|lia]. }
  pose proof I1 as [Hsl Hdv Hso Hlen [Hn|[_ (Hrd & Emm & Hlk & Eq & El)]]]; [congruence|]. wp_steps. cbn [lget vm_lens].
  set (b := g_blk s1) in *. rewrite Emm, El. rewrite (u32_small (count * 512)) by lia. replace (count * 512) with (512 * count) by lia.
  assert (3 ≤ b_queue_size b ≤ 8) as Hqs by (pose proof (ar_num _ _ _ (lk_areas _ _ _ _ _ _ _ _ _ _ Hlk)); unfold blk_queue in *; cbn in *; lia).
  assert (buffer_ok buf (512 * count) (vm_mem (bs_vm s1))) as Hbuf1 by (destruct Hbuf; split; try done; by apply Hm1).
  assert (buffer (blk_queue b) (g_req A) (g_status A) buf (512 * count) (vm_mem (bs_vm s1))) as Hbq by (rewrite Eq; by apply buffer_of).
  eapply wp_mono; [apply (exchange_in base version qmax cap latency (blk_queue b) lba count (g_req A) buf (g_status A) polls c (bs_vm s1) Hlk Hbq); done|].
  cbv beta. intros r c' v (-> & -> & Hlk' & Hdk & Hmk & Hres). wp_steps. cbn [lget lset vm_lens bs_vm g_blk].
  rewrite (sectors_ext (vb_disk (vm_dev (bs_vm s))) (vb_disk (vm_dev (bs_vm s1)))) in Hres by exact Hd1.
  assert (∃ stv, field (vm_mem v) (g_status A) 1 = Some stv ∧ (stv =? 0) = bool_decide (is_Some (sectors (vb_disk (vm_dev (bs_vm s))) lba count))) as (stv & Hst & Estv).
  { destruct (sectors _ lba count); eexists; (split; [apply Hres|done]). }
  apply (wp_poll_linked base version qmax cap latency _ _ _ _ _ stv _ _ _ Hlk' Hst). intros v2 Em2 Hlk2 Ed2 Ek2. wp_steps. cbn [lset vm_lens bs_vm g_blk].
  set (b' := mkBlk _ _ _ _ _ _ _ _ _). assert (same_disk s (mkBs v2 b')) as Hsd by (intros i; cbn [bs_vm]; rewrite Ek2, Hdk; apply Hd1).
  assert (keeps_mapped s (mkBs v2 b')) as Hkm by (intros a n Ha; cbn [bs_vm]; rewrite Em2; by apply Hmk, Hm1).
  assert (boot_inv k (mkBs v2 b')) as I' by (apply (boot_inv_kept k s); try done; right; split; [done|]; by split_and!).
  assert (∀ x, ¬ in_statics x → (¬ (buf ≤ x < buf + 512 * count) ∨ sectors (vb_disk (vm_dev (bs_vm s))) lba count = None) → vm_mem v2 !! x = vm_mem (bs_vm s) !! x) as Hall.
  { intros x Hx Hw. destruct (queue_in_statics (b_queue_size b) x Hqs Hx) as [Hdw Hu]. rewrite <- Eq in Hdw, Hu. rewrite Em2, <- (Hf1 x) by tauto.
    destruct (sectors _ lba count); [destruct Hw as [Hw|]; [|done]|]; by apply Hres. }
  rewrite Estv. split; [done|]. split; [done|]. split; [done|]. split; [done|]. split; [intros x Hx Hbx; apply Hall; tauto|].
  destruct (sectors _ lba count) as [data|]; (split; [done|]); cbn [bs_vm]; [rewrite Em2; apply Hres|].
  intros x Hx. apply Hall; [|by right]. clear -Hx Hbuf Hc. destruct Hbuf. unfold in_statics, sep in *. lia.
Qed.
End init.
