(* ===== verification/BootDisk.v ===== *)
(** * The driver behind the loader's disk

    The loader is proved against the interface [BlockDev] (Loader.v); here its
    driver (BootBlock.v) discharges it, for every device that behaves as
    documented.  A device that completes each request it is notified of at once
    shows that such devices exist and runs the code. *)

From S2P Require Import Prelude Irq Addr Platform Loader Virtio VirtioQueue VirtioXfer BootBlock.

(** ** A device that works at once *)

(** [id_kicked]: notified, and not served since.  Without a notification it
    does nothing. *)
Record ideal_dev := mkDev { id_regs : gmap Z Z; id_done : Z; id_kicked : bool; id_disk : Z → option (list Z) }.

Section ideal.
Context (base version qmax cap : Z) (accepts : bool).

Definition ideal_read (d : ideal_dev) (b off : Z) : Z :=
  if negb (b =? base) then 0
  else if off =? VIRTIO_MMIO_MAGIC_VALUE then VIRTIO_MMIO_MAGIC
  else if off =? VIRTIO_MMIO_VERSION then version
  else if off =? VIRTIO_MMIO_DEVICE_ID then VIRTIO_DEVICE_BLOCK
  else if off =? VIRTIO_MMIO_QUEUE_NUM_MAX then qmax
  else if off =? VIRTIO_MMIO_CONFIG then cap mod 2 ^ 32
  else if off =? VIRTIO_MMIO_CONFIG + 4 then cap / 2 ^ 32
  else if off =? VIRTIO_MMIO_STATUS then
    let v := reg (id_regs d) VIRTIO_MMIO_STATUS in if accepts then v else Z.ldiff v VIRTIO_STATUS_FEATURES_OK
  else 0.
Definition ideal_write (d : ideal_dev) (b off v : Z) : ideal_dev :=
  if negb (b =? base) then d
  else if (off =? VIRTIO_MMIO_STATUS) && (v =? 0) then mkDev ∅ 0 false (id_disk d)
  else mkDev (<[off := v]> (id_regs d)) (id_done d) (id_kicked d || (off =? VIRTIO_MMIO_QUEUE_NOTIFY)) (id_disk d).
Definition ideal_work (d : ideal_dev) (m : bytes) : ideal_dev * bytes :=
  match live_queue version (id_regs d) with
  | Some q =>
    if id_kicked d && bool_decide (field m (q_avail q + 2) 2 = Some (u16 (id_done d + 1))) then
      match request_at m q (id_done d) with
      | Some r =>
        let '(dk, m') := served q (id_done d) r (id_disk d) m in (mkDev (id_regs d) (u16 (id_done d + 1)) false dk, m')
      | None => (d, m)
      end
    else (d, m)
  | None => (d, m)
  end.
#[local] Instance ideal_bus : VirtioBus ideal_dev := {| reg_read := ideal_read; reg_write := ideal_write; dev_work := ideal_work |}.

#[local] Program Instance ideal_blk : VirtioBlk base version qmax cap 1 :=
  {| vb_regs := id_regs; vb_done := id_done; vb_disk := id_disk; vb_kicked := id_kicked; vb_accepts := accepts |}.
Next Obligation. intros d. cbn. unfold ideal_read. rewrite Z.eqb_refl. by split_and!. Qed.
Next Obligation. intros d _. cbn. unfold ideal_read. by rewrite Z.eqb_refl. Qed.
Next Obligation.
  intros d off v. cbn. unfold ideal_write. rewrite Z.eqb_refl. cbn [negb]. by destruct (_ && _).
Qed.
Next Obligation. intros d. cbn. unfold ideal_write. rewrite Z.eqb_refl. cbn. by rewrite orb_true_r. Qed.
Next Obligation.
  intros d m q r Hk Hl Hi Hr _ _ _. exists 1%nat. split; [lia|]. unfold work. cbn. unfold ideal_work. rewrite Hl, Hr, Hk. rewrite bool_decide_true by done. cbn [andb].
  destruct (served _ _ _ _ _) as [dk m']. cbn. split_and!; try done. intros k Hk'. by destruct k; [|lia].
Qed.
Next Obligation.
  intros d m q Hl Ha. cbn. unfold ideal_work. rewrite Hl, Ha. rewrite bool_decide_false; [by rewrite andb_false_r|].
  unfold u16. intros [= E]. pose proof (Z.div_mod (id_done d + 1) (2 ^ 16)). nia.
Qed.
End ideal.

(** ** The loader's interface *)

(** Sectors as the loader sees them: a failed read leaves the buffer alone. *)
Definition disk_dev (dk : Z → option (list Z)) : BlockDev := {| disk := dk; after_error _ b := b |}.

Lemma one_sector dk lba : sectors dk lba 1 = dk lba.
Proof. unfold sectors. rewrite seqZ_cons, seqZ_nil by lia. cbn. destruct (dk lba) as [b|]; cbn; [by rewrite app_nil_r|done]. Qed.

Section refinement.
Context {D : Type} {BUS : VirtioBus D} (A : boot_statics).
Context (base version qmax cap : Z) (latency : nat) {VB : VirtioBlk base version qmax cap latency}.

(** x *)
Theorem boot_block_read_spec k polls lba count buf c s :
  boot_inv A base version qmax cap latency k s → buffer_ok A buf (512 * count) (vm_mem (bs_vm s)) → 0 < count → 512 * count < 2 ^ 32 →
  0 ≤ lba < 2 ^ 64 → (latency ≤ polls)%nat →
  wp (boot_block_read A polls lba count buf) (λ r c' s', c' = c ∧ boot_inv A base version qmax cap latency k s' ∧
    (∀ i, vb_disk (vm_dev (bs_vm s')) i = vb_disk (vm_dev (bs_vm s)) i) ∧
    (∀ x, ¬ in_statics A x → ¬ (buf ≤ x < buf + 512 * count) → vm_mem (bs_vm s') !! x = vm_mem (bs_vm s) !! x) ∧
    match sectors (boot_sectors base version qmax cap latency (vm_dev (bs_vm s))) lba count with
    | Some data => r = true ∧ get buf (Z.to_nat (512 * count)) (vm_mem (bs_vm s')) = Some data
    | None => r = false
    end) c s.
Proof.
  intros I Hb Hc Hc' Hl Hp. eapply wp_mono; [by apply (read_correct A base version qmax cap latency k polls lba count buf c s)|]. cbv beta.
  intros r c' s' (-> & I' & Hd & _ & Ho & Hr). split_and!; try done. unfold read_post in Hr. destruct (sectors _ _ _); tauto.
Qed.

(** C27: For every device that behaves as documented (requests are served once
    it is notified; its queue 0 is missing or can hold at least three
    entries), the loader's virtio driver implements the block device interface
    the loader is proved against: a one-sector read returns what the interface
    says, on existing and missing sectors, initializing the device on first
    use; a device that refuses a driver without features, or has no queue 0,
    is a disk without sectors. *)
Theorem boot_driver_implements_disk k polls lba buf old c s :
  boot_inv A base version qmax cap latency k s → buffer_ok A buf 512 (vm_mem (bs_vm s)) → 0 ≤ lba < 2 ^ 64 → (latency ≤ polls)%nat →
  get buf 512 (vm_mem (bs_vm s)) = Some old →
  wp (boot_block_read A polls lba 1 buf) (λ r c' s', c' = c ∧ boot_inv A base version qmax cap latency k s' ∧
    ∃ new, get buf 512 (vm_mem (bs_vm s')) = Some new ∧
      @Loader.boot_block_read (disk_dev (boot_sectors base version qmax cap latency (vm_dev (bs_vm s)))) lba old = (r, new) ∧
      @Loader.boot_block_read (disk_dev (boot_sectors base version qmax cap latency (vm_dev (bs_vm s')))) lba old = (r, new)) c s.
Proof.
  intros I Hb Hl Hp Hold. eapply wp_mono; [by apply (read_correct A base version qmax cap latency k polls lba 1 buf c s)|]. cbv beta.
  intros r c' s' (-> & I' & Hd & _ & _ & Hr). split_and!; try done. unfold read_post in Hr. rewrite one_sector in Hr. unfold Loader.boot_block_read. cbn.
  assert (boot_sectors base version qmax cap latency (vm_dev (bs_vm s')) lba = boot_sectors base version qmax cap latency (vm_dev (bs_vm s)) lba) as ->
    by (unfold boot_sectors; destruct (usable _ _ _ _ _); [apply Hd|done]).
  change (Z.to_nat (512 * 1)) with 512%nat in Hr. destruct (boot_sectors base version qmax cap latency (vm_dev (bs_vm s)) lba) as [b|].
  - destruct Hr as [-> Hg]. by exists b.
  - destruct Hr as [-> Hx]. exists old. split; [|done]. rewrite <- Hold. apply get_ext. intros x Hr. apply Hx. lia.
Qed.
End refinement.

(** ** A concrete machine *)

Module Machine.

Definition statics : boot_statics := mkStatics 0x40090000 0x40090100 0x40090200 0x40100000 0x40090300 0x40090310.
Definition sample_buf : Z := 0x40090400.
Definition ram : bytes :=
  put 0x40100000 (replicate (Z.to_nat 8192) 0) (put 0x40090000 (replicate (Z.to_nat 128) 0) (put 0x40090100 (replicate (Z.to_nat 22) 0) (put 0x40090200 (replicate (Z.to_nat 68) 0)
    (put 0x40090300 (replicate (Z.to_nat 16) 0) (put 0x40090310 (replicate (Z.to_nat 1) 0) (put 0x40090400 (replicate (Z.to_nat 512) 0) ∅)))))).
Definition sample_disk (i : Z) : option (list Z) := if (0 <=? i) && (i <? 4) then Some (replicate 512 (i + 7)) else None.
Definition off_blk : boot_blk := mkBlk 0 0 0 0 0 0 0 0 false.
Definition machine : boot_state ideal_dev := mkBs (mkVm ram (mkDev ∅ 0 false sample_disk)) off_blk.
#[local] Instance bus1 : VirtioBus ideal_dev := ideal_bus (slot 2) 1 1024 4 true.
#[local] Instance blk1 : VirtioBlk (slot 2) 1 1024 4 1 := ideal_blk (slot 2) 1 1024 4 true.

Lemma mapped_zeros a n m : mapped a n (put a (replicate (Z.to_nat n) 0) m).
Proof. intros x Hx. rewrite lookup_put, length_replicate, decide_True by lia. exists 0. apply lookup_replicate_2. lia. Qed.

Lemma machine_inv : boot_inv statics (slot 2) 1 1024 4 1 2 machine.
Proof.
  split.
  - split; [lia|]. split; [done|]. split; [|done]. intros j Hj d. left. cbn. unfold ideal_read, slot. destruct (Z.eqb_spec (0x0A000000 + 0x200 * j) (0x0A000000 + 0x200 * 2)); [lia|done].
  - split; [by left|lia].
  - split; unfold sep, statics; cbn [g_desc g_avail g_used g_legacy_queue g_req g_status bs_vm vm_mem machine]; try lia.
    + unfold ram. split_and!; repeat first [apply mapped_zeros | apply mapped_put].
    + split; [done|lia].
  - intros i b. change (vb_disk (vm_dev (bs_vm machine)) i) with (sample_disk i). unfold sample_disk. intros E. destruct (_ && _); [|done].
    assert (replicate 512 (i + 7) = b) as <- by congruence. apply length_replicate.
  - by left.
Qed.

Lemma sample_buffer : buffer_ok statics sample_buf 512 (vm_mem (bs_vm machine)).
Proof.
  split; unfold sep, statics, sample_buf; cbn [g_desc g_avail g_used g_legacy_queue g_req g_status bs_vm vm_mem machine]; try lia.
  unfold ram. repeat first [apply mapped_zeros | apply mapped_put].
Qed.

(** Evaluated on a device of version 2: the third slot is found, a read
    succeeds and one past the end of the disk fails. *)
Definition small_ram : bytes :=
  put 0x40090000 (replicate 128 0) (put 0x40090100 (replicate 22 0) (put 0x40090200 (replicate 68 0) (put 0x40090300 (replicate 17 0) (put 0x40090400 (replicate 512 0) ∅)))).
Definition bus_modern : VirtioBus ideal_dev := ideal_bus (slot 2) 2 1024 4 true.
Example boot_reads :
  match (r1 <- @boot_block_read _ bus_modern statics 1 3 1 sample_buf ;; r2 <- @boot_block_read _ bus_modern statics 1 9 1 sample_buf ;; ret (r1, r2))
    (mkCpu 0 0) (mkBs (mkVm small_ram (mkDev ∅ 0 false sample_disk)) off_blk) with
  | Ret (r, _, s) => (r, get sample_buf 512 (vm_mem (bs_vm s)), b_last_used (g_blk s), b_mmio (g_blk s))
  | _ => (false, false, None, 0, 0)
  end = (true, false, Some (replicate 512 10), 2, slot 2).
Proof. vm_compute. reflexivity. Qed.

(** A device that insists on a feature: the driver gives up on it, and the
    status register holds FAILED. *)
Definition bus_strict : VirtioBus ideal_dev := ideal_bus (slot 2) 2 1024 4 false.
Example boot_refused :
  match @boot_block_read _ bus_strict statics 1 3 1 sample_buf (mkCpu 0 0) (mkBs (mkVm small_ram (mkDev ∅ 0 false sample_disk)) off_blk) with
  | Ret (r, _, s) => (r, b_ready (g_blk s), reg (id_regs (vm_dev (bs_vm s))) VIRTIO_MMIO_STATUS)
  | _ => (true, true, 0)
  end = (false, false, 0x8B).
Proof. vm_compute. reflexivity. Qed.

Lemma boot_block_read_witness :
  wp (boot_block_read statics 5 2 1 sample_buf) (λ r c' s', r = true ∧ get sample_buf 512 (vm_mem (bs_vm s')) = Some (replicate 512 9)) (mkCpu 0 0) machine.
Proof.
  eapply wp_mono; [apply (boot_block_read_spec statics (slot 2) 1 1024 4 1 2 5 2 1 sample_buf (mkCpu 0 0) machine);
    [exact machine_inv|exact sample_buffer|lia|lia|lia|lia]|].
  cbv beta. intros r c' s' (_ & _ & _ & _ & Hr). exact Hr.
Defined.

Lemma boot_driver_implements_disk_witness :
  wp (boot_block_read statics 5 2 1 sample_buf) (λ r c' s', ∃ new, get sample_buf 512 (vm_mem (bs_vm s')) = Some new ∧
    @Loader.boot_block_read (disk_dev sample_disk) 2 (replicate 512 0) = (r, new)) (mkCpu 0 0) machine.
Proof.
  eapply wp_mono; [apply (boot_driver_implements_disk statics (slot 2) 1 1024 4 1 2 5 2 sample_buf (replicate 512 0) (mkCpu 0 0) machine);
    [exact machine_inv|exact sample_buffer|lia|lia|vm_compute; reflexivity]|].
  cbv beta. intros r c' s' (_ & _ & new & Hg & Hr & _). by exists new.
Defined.

(** A legacy queue of two entries, as the driver sets it up: the third
    descriptor lies over the available ring, so the request is not one, and the
    driver waits forever. *)
Definition bus_small : VirtioBus ideal_dev := ideal_bus (slot 2) 1 2 4 true.
Definition two_entries : boot_state ideal_dev :=
  mkBs (mkVm (put 0x40100000 (replicate 64 0) (put 0x40101000 (replicate 22 0) small_ram))
    (mkDev (list_to_map [(VIRTIO_MMIO_QUEUE_NUM, 2); (VIRTIO_MMIO_QUEUE_ALIGN, 4096); (VIRTIO_MMIO_GUEST_PAGE_SIZE, 4096); (VIRTIO_MMIO_QUEUE_PFN, 0x40100); (VIRTIO_MMIO_STATUS, 15)])
      0 false sample_disk))
    (mkBlk (slot 2) 1 2 0x40100000 0x40100020 0x40101000 0 4 true).
Example small_queue_hangs :
  match @exchange _ bus_small (slot 2) (blk_queue (g_blk two_entries)) VIRTIO_BLK_T_IN 0 512 VIRTQ_DESC_F_WRITE
      (g_req statics) sample_buf (g_status statics) 0 50 (mkCpu 0 0) (bs_vm two_entries) with
  | Ret (r, _, _) => r
  | _ => Some 0
  end = None.
Proof. vm_compute. reflexivity. Qed.
End Machine.
