(* ===== verification/HeapPages.v ===== *)
(** * Pages borrowed from the heap

    [kheap_alloc_pages] and [kheap_free_pages] as the drivers use them: runs of
    pages that belong to nobody else, seen as byte ranges of physical memory. *)

From S2P Require Import Prelude Irq Addr Platform Pmm KHeap Virtio VirtioQueue.

(** The page manager under the heap. *)
Definition heap_at (s : kheap_state) (st : pmm_state) : Prop := g_pmm (kh_pmm s) = Some st ∧ pmm_wf st ∧ pressure_ok st (kh_pmm s).
(** The heap's words and free lists did not move. *)
Definition pages_only (s s' : kheap_state) : Prop := kh_mem s' = kh_mem s ∧ g_freelist s' = g_freelist s.
#[global] Instance pages_only_preorder : PreOrder pages_only.
Proof. split; [done|]. intros x y z [? ?] [? ?]. split; congruence. Qed.

Lemma heap_at_unique s st st' : heap_at s st → heap_at s st' → st' = st.
Proof. intros [? _] [? _]. congruence. Qed.

Lemma heap_abs_at s h : kh_abs s h → ∃ st, heap_at s st.
Proof. intros (st & bp & fl & sm & bg & R & _). exists st. apply R. Qed.

(** While borrowed pages are out, and after they came back, the heap is what it
    was. *)
Lemma heap_pages_frame s s' st st' h : kh_abs s h → heap_at s st → heap_at s' st' → same_window st st' → free_set st' ⊆ free_set st →
  pages_only s s' → kh_abs s' h.
Proof.
  intros (st0 & bp & fl & sm & bg & R & Hh) Hs Hs' Hw Hsub [Em Ef]. assert (st0 = st) as -> by (eapply heap_at_unique; [exact Hs|apply R]).
  exists st', bp, fl, sm, bg. split; [|done]. eapply (kh_frame s s' st st'); try done; [set_solver|]. intros a _. by rewrite Em.
Qed.

(** Page runs inside the window. *)
Definition in_window (st : pmm_state) (i n : Z) : Prop := 0 ≤ i ∧ 0 < n ∧ i + n ≤ total_pages st.

(** Why a run is refused: every free one straddles the search hint. *)
Definition no_run (st : pmm_state) (n : Z) : Prop := ∀ k, in_window st k n → run k n ⊆ free_set st → k < next_hint st < k + n.

Lemma no_page st : no_run st 1 → free_set st = ∅.
Proof.
  intros Hno. apply set_eq. intros x. split; [|set_solver]. intros Hx. pose proof Hx as [Hx' _]%elem_of_free_bits. specialize (Hno x).
  exfalso. destruct Hno; [unfold in_window; lia| |lia]. intros y. rewrite elem_of_run. intros Hy. by replace y with x by lia.
Qed.

Lemma take_pages n c s st : heap_at s st → irq_depth c = 0 → 1 ≤ n < 2 ^ 32 →
  wp (kheap_alloc_pages n) (λ r c' s', c' = c ∧ pages_only s s' ∧ ∃ st', heap_at s' st' ∧ same_window st st' ∧
    match r with
    | Some v => ∃ i, v = va st i ∧ in_window st i n ∧ run i n ⊆ free_set st ∧ free_set st' = free_set st ∖ run i n
    | None => st' = st ∧ no_run st n
    end) c s.
Proof.
  intros (Hg & Hwf & Hp) Hd Hn. unfold kheap_alloc_pages. wp_step. apply wp_assert_thread; [done|]. destruct (Z.eqb_spec n 0) as [|_]; [lia|].
  wp_steps. cbn [lget kh_pmm_lens]. eapply wp_mono; [apply (alloc_pages_correct n c (kh_pmm s) st); (done || lia)|]. cbv beta.
  intros r c' g' [-> (st' & Hg' & Hwf' & Hp' & Hw & Hpost)]. unfold count. destruct r as [pa|]; wp_steps; (split; [done|]); (split; [done|]); exists st'; (split; [done|]); (split; [done|]).
  - destruct Hpost as (i & -> & Hi & Hin & Hrun & Hfree). exists i. split_and!; try done. split_and!; lia.
  - destruct Hpost as [-> Hno]. split; [done|]. intros k (Hk & _ & Hkn) Hr. by apply Hno.
Qed.

Lemma page_pa_window st i : pmm_shape st → 0 ≤ i < total_pages st → CAPAZ_RAM_BASE ≤ page_pa st i ∧ page_pa st i + PAGE_SIZE ≤ WIN_END.
Proof.
  intros Hsh Hi. destruct (shape_bounds st Hsh) as (Hb & Hl & Ht & Eq). rewrite WIN_END_eq. unfold CAPAZ_RAM_BASE, page_pa, PAGE_SIZE. lia.
Qed.
Lemma va_phys st i : pmm_shape st → 0 ≤ i < total_pages st → hh_virt_to_phys (va st i) = page_pa st i.
Proof. intros Hsh Hi. destruct (page_pa_window st i Hsh Hi) as [H1 H2]. apply phys_virt_roundtrip. unfold PAGE_SIZE in *. lia. Qed.
Lemma va_nonnull st i : pmm_shape st → 0 ≤ i < total_pages st → va st i ≠ 0.
Proof. intros Hsh Hi. destruct (page_va_facts st i Hsh Hi) as (_ & Hb & _). unfold va. cbv zeta in *. lia. Qed.

Lemma give_pages i n c s st : heap_at s st → irq_depth c = 0 → in_window st i n → (∀ j, j ∈ run i n → ¬ in_metadata st (page_pa st j)) →
  wp (kheap_free_pages (va st i) n) (λ _ c' s', c' = c ∧ pages_only s s' ∧ ∃ st', heap_at s' st' ∧ same_window st st' ∧
    free_set st' = free_set st ∪ run i n) c s.
Proof.
  intros (Hg & Hwf & Hp) Hd (Hi & Hn & Hin) Hm. pose proof (proj1 Hwf) as Hsh. unfold kheap_free_pages. wp_step. apply wp_assert_thread; [done|].
  destruct (Z.eqb_spec (va st i) 0) as [E|_]; [by apply va_nonnull in E; [|done|lia]|]. destruct (Z.eqb_spec n 0) as [|_]; [lia|]. cbn [orb].
  rewrite va_phys by (done || lia). assert (align_down_4k (page_pa st i) = page_pa st i) as ->.
  { pose proof (sh_base st Hsh) as Hal. destruct (page_pa_window st i Hsh ltac:(lia)) as [Hlo Hhi]. rewrite WIN_END_eq in Hhi. unfold align_down_4k.
    change (PAGE_SIZE - 1) with (2 ^ 12 - 1). unfold page_pa, CAPAZ_RAM_BASE, PAGE_SIZE in *. rewrite u64_land_not by lia. change (2 ^ 12) with 4096. page_arith. }
  destruct (page_pa_window st i Hsh ltac:(lia)) as [Hlo _]. unfold CAPAZ_RAM_BASE in Hlo.
  eapply wp_mono; [apply (free_pages_correct (Z.to_nat n) (page_pa st i) 0 i c s st); try done; rewrite ?Z2Nat.id by lia; (done || lia)|].
  cbv beta. intros _ c' s' (-> & g' & st' & -> & Hpm & Hw & Hf). rewrite Z2Nat.id in Hf by lia. split; [done|]. split; [done|]. by exists st'.
Qed.

(** ** Bytes of free pages *)

Definition free_bytes (st : pmm_state) (x : Z) : Prop := ∃ i, i ∈ free_set st ∧ page_pa st i ≤ x < page_pa st i + PAGE_SIZE.
(** A range that no free page meets. *)
Definition clear_of (st : pmm_state) (a n : Z) : Prop := ∀ x, a ≤ x < a + n → ¬ free_bytes st x.
(** Free pages are memory. *)
Definition free_mapped (st : pmm_state) (m : bytes) : Prop := ∀ x, free_bytes st x → is_Some (m !! x).

Lemma free_bytes_sub st st' x : same_window st st' → free_set st' ⊆ free_set st → free_bytes st' x → free_bytes st x.
Proof. intros Hw Hs (i & Hi & Hx). exists i. rewrite (same_window_pa st st') in Hx by done. split; [set_solver|done]. Qed.

Lemma clear_of_sub st st' a n : same_window st st' → free_set st' ⊆ free_set st → clear_of st a n → clear_of st' a n.
Proof. intros Hw Hs Hc x Hx Hf. eapply Hc; [exact Hx|]. by eapply free_bytes_sub. Qed.

Lemma run_bytes st i n x : in_window st i n → page_pa st i ≤ x < page_pa st i + PAGE_SIZE * n → ∃ j, j ∈ run i n ∧ page_pa st j ≤ x < page_pa st j + PAGE_SIZE.
Proof.
  intros (Hi & Hn & Ht) Hx. unfold page_pa, PAGE_SIZE in *. exists ((x - base_pa st) / 4096).
  pose proof (Z.div_mod (x - base_pa st) 4096 ltac:(lia)). pose proof (Z.mod_pos_bound (x - base_pa st) 4096 ltac:(lia)). rewrite elem_of_run. nia.
Qed.

(** A run of free pages is memory, and apart from every range clear of them. *)
Lemma run_mapped st i n m : in_window st i n → run i n ⊆ free_set st → free_mapped st m → mapped (page_pa st i) (PAGE_SIZE * n) m.
Proof. intros Hw Hr Hm x Hx. destruct (run_bytes st i n x Hw Hx) as (j & Hj & Hxj). apply Hm. exists j. split; [by apply Hr|done]. Qed.

Lemma sep_points a n b k : 0 < n → 0 < k → (∀ x, a ≤ x < a + n → ¬ (b ≤ x < b + k)) → sep a n b k.
Proof. intros Hn Hk Hx. specialize (Hx (Z.max a b)). unfold sep. lia. Qed.

Lemma run_sep st i n a k l : in_window st i n → run i n ⊆ free_set st → clear_of st a k → 0 < k → 0 < l ≤ PAGE_SIZE * n → sep (page_pa st i) l a k.
Proof.
  intros Hw Hr Hc Hk Hl. apply sep_points; [lia|done|]. intros x Hx Hxa. destruct (run_bytes st i n x Hw ltac:(lia)) as (j & Hj & Hxj).
  apply (Hc x Hxa). exists j. split; [by apply Hr|done].
Qed.

(** After it was taken, no free page meets it. *)
Lemma run_taken st st' i n : same_window st st' → pmm_shape st → in_window st i n → free_set st' = free_set st ∖ run i n →
  run i n ⊆ free_set st → clear_of st' (page_pa st i) (PAGE_SIZE * n).
Proof.
  intros Hw Hsh Hin Hf Hr x Hx (j & Hj & Hxj). rewrite (same_window_pa st st') in Hxj by done. rewrite Hf in Hj. apply elem_of_difference in Hj as [Hj Hnj].
  destruct (run_bytes st i n x Hin Hx) as (k & Hk & Hxk). apply Hnj. assert (j = k) as ->; [|done]. unfold page_pa, PAGE_SIZE in *. lia.
Qed.
