(* ===== verification/BlkDriver.v ===== *)
(** * The kernel's block driver (Kern/Kernel/dev/virtio_blk.c, HAL/hal_block.c)

    Takes its queue from the page allocator, reads and writes sectors by
    polling with a bound.  Memory is reached through the direct map: an access
    to the virtual address [v] is one to the physical address
    [hh_virt_to_phys v], which is also what the descriptors hold.  Caches are
    coherent: the cache maintenance of the code has no effect here. *)

From S2P Require Import Prelude Irq Addr Platform Pmm KHeap Virtio VirtioQueue VirtioXfer.

(** [struct virtio_blk_dev]; the request and the status byte inside it are in
    memory. *)
Record virtio_blk_dev := mkVb {
  k_base : Z; k_mmio : Z; k_queue_size : Z; k_desc : Z; k_avail : Z; k_used : Z;
  k_last_used : Z; k_capacity_sectors : Z; k_sector_size : Z; k_ready : bool;
}.

(** The device machine and [g_blk]; with the heap, for the set-up. *)
Record drv_state (D : Type) := mkDrv { dr_vm : vmach D; dr_blk : virtio_blk_dev }.
Arguments mkDrv {D}.
Arguments dr_vm {D}.
Arguments dr_blk {D}.
Record drv_heap (D : Type) := mkDh { dh_heap : kheap_state; dh_drv : drv_state D }.
Arguments mkDh {D}.
Arguments dh_heap {D}.
Arguments dh_drv {D}.

Section driver.
(** Where [g_blk.req] and [g_blk.status] are. *)
Context {D : Type} {BUS : VirtioBus D} (req_va status_va : Z).

Definition drv_vm {X} (m : M (vmach D) X) : M (drv_state D) X := zoom (mkLens dr_vm (λ v s, mkDrv v (dr_blk s))) m.
Definition dh_lens : lens (drv_heap D) (drv_state D) := mkLens dh_drv (λ d s, mkDh (dh_heap s) d).
Definition dh_kheap {X} (m : M kheap_state X) : M (drv_heap D) X := zoom (mkLens dh_heap (λ h s, mkDh h (dh_drv s))) m.
Definition dh_vm {X} (m : M (vmach D) X) : M (drv_heap D) X := zoom dh_lens (drv_vm m).

(** ** Set-up *)

(** The virtual address of the registers, and back. *)
Definition mmio_ptr (base : Z) : Z := u64 (CAPAZ_HH_BASE + base).
Definition bus_addr (mmio : Z) : Z := u64 (mmio - CAPAZ_HH_BASE).
Definition kread (mmio off : Z) : M (vmach D) Z := mmio_read (bus_addr mmio) off.
Definition kwrite (mmio off val : Z) : M (vmach D) unit := mmio_write (bus_addr mmio) off val.
(** [memset(p, 0, n)] *)
Definition zero_mem (p n : Z) : M (vmach D) unit := put_bytes (hh_virt_to_phys p) (replicate (Z.to_nat n) 0).

Definition VIRTIO_PAGE_SIZE : Z := 0x1000.
Definition probe_features (mmio version : Z) : M (vmach D) bool :=
  kwrite mmio VIRTIO_MMIO_STATUS 0 ;;;
  kwrite mmio VIRTIO_MMIO_STATUS VIRTIO_STATUS_ACKNOWLEDGE ;;;
  kwrite mmio VIRTIO_MMIO_STATUS (Z.lor VIRTIO_STATUS_ACKNOWLEDGE VIRTIO_STATUS_DRIVER) ;;;
  negotiate_features (bus_addr mmio) version.

(** Three pages; all three are asked for before the results are looked at. *)
Definition probe_modern (mmio : Z) : M (drv_heap D) (option (Z * Z * Z)) :=
  d <- dh_kheap (kheap_alloc_pages 1) ;;
  a <- dh_kheap (kheap_alloc_pages 1) ;;
  u <- dh_kheap (kheap_alloc_pages 1) ;;
  match d, a, u with
  | Some desc, Some avail, Some used =>
    dh_vm (zero_mem desc VIRTIO_PAGE_SIZE ;;; zero_mem avail VIRTIO_PAGE_SIZE ;;; zero_mem used VIRTIO_PAGE_SIZE ;;;
           set_queue_regs (bus_addr mmio) (hh_virt_to_phys desc) (hh_virt_to_phys avail) (hh_virt_to_phys used)) ;;;
    ret (Some (desc, avail, used))
  | _, _, _ => ret None
  end.

Definition probe_legacy (mmio qsize : Z) : M (drv_heap D) (option (Z * Z * Z)) :=
  dh_vm (kwrite mmio VIRTIO_MMIO_GUEST_PAGE_SIZE VIRTIO_PAGE_SIZE) ;;;
  q <- dh_kheap (kheap_alloc_pages 2) ;;
  match q with
  | None => ret None
  | Some queue =>
    let desc_bytes := u32 (qsize * 16) in
    let used_off := Z.land (u32 (desc_bytes + sizeof_virtq_avail + (VIRTIO_PAGE_SIZE - 1))) (u32 (Z.lnot (VIRTIO_PAGE_SIZE - 1))) in
    dh_vm (zero_mem queue (2 * VIRTIO_PAGE_SIZE) ;;;
           kwrite mmio VIRTIO_MMIO_QUEUE_ALIGN VIRTIO_PAGE_SIZE ;;;
           kwrite mmio VIRTIO_MMIO_QUEUE_PFN (u32 (Z.shiftr (hh_virt_to_phys queue) 12))) ;;;
    ret (Some (queue, u64 (queue + desc_bytes), u64 (queue + used_off)))
  end.

Definition virtio_blk_probe (base : Z) : M (drv_heap D) bool :=
  let mmio := mmio_ptr base in
  magic <- dh_vm (kread mmio VIRTIO_MMIO_MAGIC_VALUE) ;;
  version <- dh_vm (kread mmio VIRTIO_MMIO_VERSION) ;;
  devid <- dh_vm (kread mmio VIRTIO_MMIO_DEVICE_ID) ;;
  if negb (magic =? VIRTIO_MMIO_MAGIC) then ret false
  else if negb (version =? 1) && negb (version =? 2) then ret false
  else if negb (devid =? VIRTIO_DEVICE_BLOCK) then ret false
  else
    ok <- dh_vm (probe_features mmio version) ;;
    if negb ok then ret false
    else
      qmax <- dh_vm (kwrite mmio VIRTIO_MMIO_QUEUE_SEL 0 ;;; kread mmio VIRTIO_MMIO_QUEUE_NUM_MAX) ;;
      if qmax =? 0 then ret false
      else
        let qsize := if qmax <? VIRTQ_SIZE then qmax else VIRTQ_SIZE in
        dh_vm (kwrite mmio VIRTIO_MMIO_QUEUE_NUM qsize) ;;;
        q <- (if version =? 2 then probe_modern mmio else probe_legacy mmio qsize) ;;
        match q with
        | None => ret false
        | Some (desc, avail, used) =>
          dh_vm (kwrite mmio VIRTIO_MMIO_STATUS
            (Z.lor (Z.lor (Z.lor VIRTIO_STATUS_ACKNOWLEDGE VIRTIO_STATUS_DRIVER) VIRTIO_STATUS_FEATURES_OK) VIRTIO_STATUS_DRIVER_OK)) ;;;
          cap_lo <- dh_vm (kread mmio VIRTIO_MMIO_CONFIG) ;;
          cap_hi <- dh_vm (kread mmio (VIRTIO_MMIO_CONFIG + 4)) ;;
          modify (λ s, mkDh (dh_heap s) (mkDrv (dr_vm (dh_drv s))
            (mkVb base mmio qsize desc avail used 0 (Z.lor (Z.shiftl cap_hi 32) cap_lo) 512 true))) ;;;
          ret true
        end.

Fixpoint probe_all (l : list dtb_range) : M (drv_heap D) bool :=
  match l with
  | [] => ret false
  | r :: l => ok <- virtio_blk_probe (Platform.base r) ;; if ok : bool then ret true else probe_all l
  end.

(** [found], [ranges]: what [dtb_get_virtio_mmio_ranges] returned, at most 64. *)
Definition virtio_blk_init (found : bool) (ranges : list dtb_range) : M (drv_heap D) bool :=
  b <- gets (λ s, dr_blk (dh_drv s)) ;;
  if k_ready b then ret true
  else
    probe_all (if negb found || bool_decide (ranges = [])
               then (λ i, mkRange (0x0A000000 + 0x200 * i) 0x200) <$> seqZ 0 32 else ranges).

Definition virtio_blk_ready : M (drv_state D) bool := gets (λ s, k_ready (dr_blk s)).
Definition virtio_blk_sector_size : M (drv_state D) Z := gets (λ s, k_sector_size (dr_blk s)).
Definition virtio_blk_capacity_sectors : M (drv_state D) Z := gets (λ s, k_capacity_sectors (dr_blk s)).

(** ** Requests *)

(** The queue in physical memory. *)
Definition dev_queue (b : virtio_blk_dev) : virtq :=
  mkVq (k_queue_size b) (hh_virt_to_phys (k_desc b)) (hh_virt_to_phys (k_avail b)) (hh_virt_to_phys (k_used b)).
Definition set_last_used (idx : Z) (b : virtio_blk_dev) : virtio_blk_dev :=
  mkVb (k_base b) (k_mmio b) (k_queue_size b) (k_desc b) (k_avail b) (k_used b) idx (k_capacity_sectors b) (k_sector_size b) (k_ready b).

(** The condition of the wait is evaluated 2000001 times before the timeout. *)
Definition SPIN_LIMIT : Z := 2000000.

(** [virtio_blk_read] and [virtio_blk_write] differ in the type of the request
    and in the direction of the data descriptor. *)
Definition virtio_blk_io (ty buf_flags lba count buf buf_len : Z) : M (drv_state D) bool :=
  b <- gets dr_blk ;;
  if negb (k_ready b) || (buf =? 0) || (count =? 0) then ret false
  else
    let total := u64 (count * k_sector_size b) in
    if buf_len <? total then ret false
    else
      r <- drv_vm (exchange (bus_addr (k_mmio b)) (dev_queue b) ty lba total buf_flags
                     (hh_virt_to_phys req_va) (hh_virt_to_phys buf) (hh_virt_to_phys status_va) (k_last_used b) (Z.to_nat (SPIN_LIMIT + 1))) ;;
      match r with
      | None => ret false
      | Some idx =>
        modify (λ s, mkDrv (dr_vm s) (set_last_used idx b)) ;;;
        st <- drv_vm (poll_field (hh_virt_to_phys status_va) 1) ;;
        ret (st =? 0)
      end.
Definition virtio_blk_read (lba count buf buf_len : Z) : M (drv_state D) bool :=
  virtio_blk_io VIRTIO_BLK_T_IN VIRTQ_DESC_F_WRITE lba count buf buf_len.
Definition virtio_blk_write (lba count buf buf_len : Z) : M (drv_state D) bool :=
  virtio_blk_io VIRTIO_BLK_T_OUT 0 lba count buf buf_len.

(** ** hal_block.c *)

Definition hal_block_init (found : bool) (ranges : list dtb_range) : M (drv_heap D) bool := virtio_blk_init found ranges.
Definition hal_block_ready : M (drv_state D) bool := virtio_blk_ready.
Definition hal_block_sector_size : M (drv_state D) Z := virtio_blk_sector_size.
Definition hal_block_capacity_sectors : M (drv_state D) Z := virtio_blk_capacity_sectors.

Definition hal_block_io (io : Z → Z → Z → Z → M (drv_state D) bool) (lba buf blocks : Z) : M (drv_state D) bool :=
  ok <- virtio_blk_ready ;;
  if negb ok || (buf =? 0) || (blocks =? 0) then ret false
  else
    sector_size <- virtio_blk_sector_size ;;
    if sector_size =? 0 then ret false else io lba (u32 blocks) buf (u64 (sector_size * blocks)).
Definition hal_block_read (lba buf blocks : Z) : M (drv_state D) bool := hal_block_io virtio_blk_read lba buf blocks.
Definition hal_block_write (lba buf blocks : Z) : M (drv_state D) bool := hal_block_io virtio_blk_write lba buf blocks.
End driver.
