(* ===== verification/BlkSpec.v ===== *)
(** * What the kernel's block driver does

    For every device that behaves as documented and answers within the bound
    of the wait: setting it up, reading and writing sectors.  For every device
    whatever: a request ends. *)

From S2P Require Import Prelude Irq Addr Platform Pmm KHeap Virtio VirtioQueue VirtioXfer BlkDriver.

(** ** Requests *)

Section requests.
Context {D : Type} {BUS : VirtioBus D} (req_va status_va : Z).
Context (base version qmax cap : Z) (latency : nat) {VB : VirtioBlk base version qmax cap latency}.
Implicit Types (c : cpu_state) (b : virtio_blk_dev).

Abbreviation req_pa := (hh_virt_to_phys req_va).
Abbreviation st_pa := (hh_virt_to_phys status_va).

(** The driver is ready and agrees with the device. *)
Record drv_ready (s : drv_state D) : Prop := {
  dd_ready : k_ready (dr_blk s) = true;
  dd_mmio : bus_addr (k_mmio (dr_blk s)) = base;
  dd_sector : k_sector_size (dr_blk s) = 512;
  dd_linked : linked base version qmax cap latency (dev_queue (dr_blk s)) req_pa st_pa (vm_dev (dr_vm s)) (vm_mem (dr_vm s));
  dd_last : k_last_used (dr_blk s) = vb_done (vm_dev (dr_vm s));
}.

(** What the driver's structures are; they change only when it is set up. *)
Definition same_driver b b' : Prop := b' = set_last_used (k_last_used b') b.

(** The virtual buffer [buf] of [n] bytes may be given to the driver. *)
Record drv_buffer b (buf n : Z) (m : bytes) : Prop := {
  db_nonnull : buf ≠ 0;
  db_buffer : buffer (dev_queue b) req_pa st_pa (hh_virt_to_phys buf) n m;
}.

(** Bytes outside what driver and device use for requests. *)
Definition outside_queue b (x : Z) : Prop :=
  ¬ driver_writes (dev_queue b) req_pa st_pa x ∧ ¬ (q_used (dev_queue b) ≤ x < q_used (dev_queue b) + 4 + 8 * q_num (dev_queue b)).

Definition mem_of (s : drv_state D) : bytes := vm_mem (dr_vm s).
Definition disk_of (s : drv_state D) : Z → option (list Z) := vb_disk (vm_dev (dr_vm s)).

(** The calls of hal_block.c on a driver that is ready. *)
Lemma hal_io_unfold ty bf lba buf blocks c s Q : drv_ready s → buf ≠ 0 → 0 < blocks → 512 * blocks < 2 ^ 32 →
  wp (exchange base (dev_queue (dr_blk s)) ty lba (512 * blocks) bf req_pa (hh_virt_to_phys buf) st_pa (vb_done (vm_dev (dr_vm s))) (Z.to_nat (SPIN_LIMIT + 1)))
    (λ r c' v, match r with
      | Some idx => wp (poll_field st_pa 1) (λ st c2 v2, Q (st =? 0) c2 (mkDrv v2 (set_last_used idx (dr_blk s)))) c' v
      | None => Q false c' (mkDrv v (dr_blk s))
      end) c (dr_vm s) →
  wp (hal_block_io (virtio_blk_io req_va status_va ty bf) lba buf blocks) Q c s.
Proof.
  intros [Hr Em Es Hlk El] Hb H0 Hn Hx. unfold hal_block_io, virtio_blk_ready, virtio_blk_sector_size. wp_steps. rewrite Hr. cbn [negb orb].
  destruct (Z.eqb_spec buf 0) as [|_]; [done|]. destruct (Z.eqb_spec blocks 0) as [|_]; [lia|]. cbn [orb]. wp_steps. rewrite Es.
  change (512 =? 0) with false. cbv iota.
  unfold virtio_blk_io. wp_steps. rewrite Hr. cbn [negb orb]. rewrite u32_small by lia. rewrite u64_small by lia.
  destruct (Z.eqb_spec buf 0) as [|_]; [done|]. destruct (Z.eqb_spec blocks 0) as [|_]; [lia|]. cbn [orb].
  rewrite Es. rewrite u64_small by lia. replace (blocks * 512) with (512 * blocks) by lia. rewrite Z.ltb_irrefl. unfold drv_vm. wp_steps. cbn [lget].
  rewrite Em, El. eapply wp_mono; [exact Hx|]. cbv beta. intros [idx|] c' v Hpost; [|by wp_steps]. wp_steps. exact Hpost.
Qed.

Lemma drv_ready_again s v : drv_ready s → linked base version qmax cap latency (dev_queue (dr_blk s)) req_pa st_pa (vm_dev v) (vm_mem v) →
  drv_ready (mkDrv v (set_last_used (vb_done (vm_dev v)) (dr_blk s))).
Proof. intros [Hr Em Es Hlk El] Hlk'. by split. Qed.

(** The status byte, looked at after the index. *)
Lemma poll_status s v stv Q c : drv_ready s → linked base version qmax cap latency (dev_queue (dr_blk s)) req_pa st_pa (vm_dev v) (vm_mem v) →
  field (vm_mem v) st_pa 1 = Some stv →
  (∀ v', vm_mem v' = vm_mem v → (∀ i, vb_disk (vm_dev v') i = vb_disk (vm_dev v) i) →
     drv_ready (mkDrv v' (set_last_used (vb_done (vm_dev v)) (dr_blk s))) → Q stv c v') → wp (poll_field st_pa 1) Q c v.
Proof.
  intros Hs Hlk Hst HQ. apply (wp_poll_linked base version qmax cap latency _ _ _ _ _ stv _ _ _ Hlk Hst). intros v' Em Hlk' Ed Ek.
  apply HQ; [done|done|]. rewrite <- Ed. by apply drv_ready_again.
Qed.

Lemma hal_read_correct lba buf blocks c s :
  drv_ready s → drv_buffer (dr_blk s) buf (512 * blocks) (mem_of s) → 0 < blocks → 512 * blocks < 2 ^ 32 → 0 ≤ lba < 2 ^ 64 →
  (latency ≤ Z.to_nat (SPIN_LIMIT + 1))%nat →
  wp (hal_block_read req_va status_va lba buf blocks) (λ r c' s', c' = c ∧ drv_ready s' ∧ same_driver (dr_blk s) (dr_blk s') ∧
    (∀ i, disk_of s' i = disk_of s i) ∧ (∀ a n, mapped a n (mem_of s) → mapped a n (mem_of s')) ∧
    match sectors (disk_of s) lba blocks with
    | Some data => r = true ∧ get (hh_virt_to_phys buf) (Z.to_nat (512 * blocks)) (mem_of s') = Some data ∧
        ∀ x, ¬ (hh_virt_to_phys buf ≤ x < hh_virt_to_phys buf + 512 * blocks) → outside_queue (dr_blk s) x → mem_of s' !! x = mem_of s !! x
    | None => r = false ∧ ∀ x, outside_queue (dr_blk s) x → mem_of s' !! x = mem_of s !! x
    end) c s.
Proof.
  intros Hs [Hb Hbuf] H0 Hn Hl Hp. apply hal_io_unfold; [done..|]. change VIRTQ_DESC_F_WRITE with 2.
  eapply wp_mono; [apply (exchange_in base version qmax cap latency); [apply Hs|done..]|]. cbv beta.
  intros r c' v (-> & -> & Hlk & Hdk & Hmk & Hres). fold (disk_of s) in Hdk, Hres. fold (mem_of s) in Hmk, Hres.
  destruct (sectors (disk_of s) lba blocks) as [data|].
  - destruct Hres as (Hst & Hdata & Hfr). apply (poll_status s v 0); [done..|]. intros v' Em Ek Hrd. unfold mem_of, disk_of in *. cbn [dr_vm dr_blk]. rewrite Em.
    split_and!; try done; [intros i; by rewrite Ek|]. intros x Hx [Hw Hu]. by apply Hfr.
  - destruct Hres as (Hst & Hfr). apply (poll_status s v 1); [done..|]. intros v' Em Ek Hrd. unfold mem_of, disk_of in *. cbn [dr_vm dr_blk]. rewrite Em.
    split_and!; try done; [intros i; by rewrite Ek|]. intros x [Hw Hu]. by apply Hfr.
Qed.

Lemma hal_write_correct lba buf blocks data c s :
  drv_ready s → drv_buffer (dr_blk s) buf (512 * blocks) (mem_of s) → 0 < blocks → 512 * blocks < 2 ^ 32 → 0 ≤ lba < 2 ^ 64 →
  (latency ≤ Z.to_nat (SPIN_LIMIT + 1))%nat → get (hh_virt_to_phys buf) (Z.to_nat (512 * blocks)) (mem_of s) = Some data →
  wp (hal_block_write req_va status_va lba buf blocks) (λ r c' s', c' = c ∧ drv_ready s' ∧ same_driver (dr_blk s) (dr_blk s') ∧
    (∀ a n, mapped a n (mem_of s) → mapped a n (mem_of s')) ∧ (∀ x, outside_queue (dr_blk s) x → mem_of s' !! x = mem_of s !! x) ∧
    match sectors (disk_of s) lba blocks with
    | Some _ => r = true ∧ ∀ i, disk_of s' i = write_sectors (disk_of s) lba data i
    | None => r = false ∧ ∀ i, disk_of s' i = disk_of s i
    end) c s.
Proof.
  intros Hs [Hb Hbuf] H0 Hn Hl Hp Hdata. apply hal_io_unfold; [done..|].
  eapply wp_mono; [apply (exchange_out base version qmax cap latency _ _ _ _ _ _ data); [apply Hs|done..]|]. cbv beta.
  intros r c' v (-> & -> & Hlk & Hmk & Hun & Hres). fold (disk_of s) in Hres.
  destruct (sectors (disk_of s) lba blocks) as [old|]; destruct Hres as [Hst Hdk];
    (apply (poll_status s v _ _ _ Hs Hlk Hst); intros v' Em Ek Hrd; unfold mem_of, disk_of in *; cbn [dr_vm dr_blk]; rewrite Em;
     split_and!; try done; [intros x [Hw Hu]; by apply Hun|intros i; by rewrite Ek]).
Qed.
End requests.

(** ** Sectors written and read back *)

Lemma sectors_written dk lba n data : 0 ≤ n → Z.of_nat (length data) = 512 * n → sectors (write_sectors dk lba data) lba n = Some data.
Proof.
  intros Hn Hl. unfold sectors. assert (mapM (write_sectors dk lba data) (seqZ lba n) = Some ((λ i, take 512 (drop (Z.to_nat (512 * (i - lba))) data)) <$> seqZ lba n)) as ->.
  { apply mapM_Some, Forall2_fmap_r, Forall_Forall2_diag, Forall_forall. intros i [Hi]%elem_of_seqZ. unfold write_sectors. rewrite decide_True; [done|].
    rewrite Hl, Z.mul_comm, Z.div_mul by lia. lia. }
  cbn. f_equal. revert lba data Hl. pattern n. apply natlike_ind; [| |done].
  - intros lba data Hl. rewrite seqZ_nil by lia. cbn. symmetry. apply nil_length_inv. lia.
  - intros k Hk IH lba data Hl. rewrite seqZ_cons by lia. rewrite Z.pred_succ. cbn [fmap list_fmap concat]. rewrite Z.sub_diag, drop_0.
    transitivity (take 512 data ++ drop 512 data); [|apply take_drop]. f_equal. rewrite <- (IH (Z.succ lba) (drop 512 data)) by (rewrite length_drop; lia).
    f_equal. apply list_fmap_ext. intros j i Hi. apply lookup_seqZ in Hi as [-> _]. rewrite drop_drop. do 2 f_equal. lia.
Qed.

Lemma sectors_elsewhere dk lba data i k : (i + k ≤ lba ∨ lba + Z.of_nat (length data) / 512 ≤ i) → sectors (write_sectors dk lba data) i k = sectors dk i k.
Proof.
  intros Hs. unfold sectors. f_equal. apply Forall_mapM_ext, Forall_forall. intros j [Hj]%elem_of_seqZ. unfold write_sectors. rewrite decide_False by lia. done.
Qed.

Section roundtrip.
Context {D : Type} {BUS : VirtioBus D} (req_va status_va : Z).
Context (base version qmax cap : Z) (latency : nat) {VB : VirtioBlk base version qmax cap latency}.

(** A buffer stays one for the same driver. *)
Lemma drv_buffer_kept b b' buf n (m m' : bytes) : same_driver b b' → (∀ a k, mapped a k m → mapped a k m') →
  drv_buffer req_va status_va b buf n m → drv_buffer req_va status_va b' buf n m'.
Proof. intros Eb Hm [Hn [B1 B2 B3 B4 B5 B6 B7]]. rewrite Eb. split; [done|]. split; try done. by apply Hm. Qed.

End roundtrip.

(** ** Every request ends *)

Section returns.
Context {D : Type} {BUS : VirtioBus D} (req_va status_va : Z).
Context (Hwork : ∀ (d : D) m a n, mapped a n m → mapped a n (dev_work d m).2).
Implicit Types (c : cpu_state).

Lemma steps_mapped n a k (s : vmach D) : mapped a k (vm_mem s) → mapped a k (vm_mem (after_steps n s)).
Proof.
  intros Hm. unfold after_steps, work. cbn [vm_mem]. induction n as [|n IH]; [done|]. by apply Hwork.
Qed.
Lemma mapped_field a n m : mapped a (Z.of_nat n) m → is_Some (field m a n).
Proof. intros (l & Hl & _)%mapped_get. unfold field. rewrite Hl. by eexists. Qed.

Lemma wp_put_mapped a n v Q c (s : vmach D) : mapped a (Z.of_nat n) (vm_mem s) →
  (∀ s' : vmach D, vm_dev s' = vm_dev s → (∀ b k, mapped b k (vm_mem s) → mapped b k (vm_mem s')) → Q tt c s') → wp (put_field a n v) Q c s.
Proof. intros Hm HQ. apply wp_put_field; [done|]. apply HQ; [done|]. intros b k Hb. by apply mapped_put. Qed.

(** The range is inside one that was mapped at the start. *)
Ltac keep_mapped Hm :=
  repeat match goal with Hk : ∀ b k, _ → mapped b k (vm_mem ?x) |- mapped _ _ (vm_mem ?x) => apply Hk end; eapply mapped_sub; [exact Hm|lia|lia].

Lemma put_desc_returns p i a l f n Q c (s : vmach D) : mapped (p + 16 * i) 16 (vm_mem s) →
  (∀ s' : vmach D, vm_dev s' = vm_dev s → (∀ b k, mapped b k (vm_mem s) → mapped b k (vm_mem s')) → Q tt c s') → wp (put_desc p i a l f n) Q c s.
Proof.
  intros Hm HQ. unfold put_desc. cbv zeta.
  do 3 (wp_step; apply wp_put_mapped; [keep_mapped Hm|intros ? ? ?]). apply wp_put_mapped; [keep_mapped Hm|]. intros ? ? ?. apply HQ; [congruence|eauto].
Qed.

(** Writing a request does not fault where there is memory for it. *)
Lemma queue_request_returns q ty lba total bf req buf st c (s : vmach D) : 0 < q_num q → areas_mapped q req st (vm_mem s) →
  wp (queue_request q ty lba total bf req buf st) (λ _ c' s', c' = c ∧ vm_dev s' = vm_dev s ∧ ∀ b k, mapped b k (vm_mem s) → mapped b k (vm_mem s')) c s.
Proof.
  intros Hn (Md & Ma & Mu & Mr & Ms). unfold queue_request.
  do 3 (wp_step; apply wp_put_mapped; [keep_mapped Mr|intros ? ? ?]). wp_step. apply wp_put_mapped; [keep_mapped Ms|intros ? ? ?].
  do 3 (wp_step; apply put_desc_returns; [keep_mapped Md|intros ? ? ?]). wp_step.
  assert (mapped (q_avail q + 2) 2 (vm_mem s'5)) as Hi by keep_mapped Ma. destruct (mapped_field _ 2 _ Hi) as [idx Hx].
  eapply wp_get_field; [exact Hx|]. pose proof (Z.mod_pos_bound idx (q_num q) Hn).
  wp_step. apply wp_put_mapped; [keep_mapped Ma|intros ? ? ?]. apply wp_put_mapped; [keep_mapped Ma|intros ? ? ?].
  split; [done|]. split; [congruence|]. eauto 15.
Qed.

(** Whatever the device does: what an exchange sees of the used index. *)
Lemma exchange_ends base q ty lba total bf req buf st last polls c (s : vmach D) : 0 < q_num q → areas_mapped q req st (vm_mem s) →
  ∃ v, queue_request q ty lba total bf req buf st c s = Ret (tt, c, v) ∧ (∀ b k, mapped b k (vm_mem s) → mapped b k (vm_mem v)) ∧
  let s1 := mkVm (vm_mem v) (reg_write (vm_dev s) base VIRTIO_MMIO_QUEUE_NOTIFY 0) in
  let seen n := field (vm_mem (after_steps n s1)) (q_used q + 2) 2 in
  wp (exchange base q ty lba total bf req buf st last polls) (λ r c' s', c' = c ∧ ∃ k, (k ≤ polls)%nat ∧ (∀ j, (0 < j < k)%nat → seen j = Some last) ∧
    match r with
    | Some idx => (0 < k)%nat ∧ seen k ≠ Some last ∧ seen (S k) = Some idx ∧ s' = after_steps (S k) s1
    | None => k = polls ∧ ((0 < k)%nat → seen k = Some last) ∧ s' = after_steps k s1
    end) c s.
Proof.
  intros Hn Ha. pose proof (queue_request_returns q ty lba total bf req buf st c s Hn Ha) as Hq. unfold wp in Hq.
  destruct (queue_request q ty lba total bf req buf st c s) as [[[[] c'] v]| |] eqn:Eq; [|done|done]. destruct Hq as (-> & Ed & Hm).
  exists v. split; [done|]. split; [done|]. intros s1 seen.
  assert (∀ j, mapped (q_used q + 2) 2 (vm_mem (after_steps j s1))) as Hmp.
  { intros j. apply steps_mapped. cbn [s1 vm_mem]. apply Hm. destruct Ha as (_ & _ & Mu & _). eapply mapped_sub; [exact Mu|lia|lia]. }
  unfold exchange. wp_step. unfold wp at 1. rewrite Eq. unfold mmio_write. wp_steps. rewrite Ed. change (u32 0) with 0. fold s1.
  eapply wp_mono; [apply wait_used_ends; intros j; by apply (mapped_field _ 2)|]. cbv beta. intros [|] c' s' (-> & k & Hk & -> & Hold & Hr).
  - destruct (mapped_field _ 2 _ (Hmp (S k))) as [idx Hidx]. assert (after_steps 1 (after_steps k s1) = after_steps (S k) s1) as E1 by done.
    wp_step. eapply wp_poll_field; [rewrite E1; exact Hidx|]. wp_steps. split; [done|]. exists k. split_and!; try done; apply Hr.
  - wp_steps. split; [done|]. exists k. split_and!; try done; apply Hr.
Qed.
End returns.
