(* ===== verification/BlkSetup.v ===== *)
(** * Bringing up the kernel's block driver

    [virtio_blk_init] takes the queue's pages from the heap and leaves driver
    and device in agreement on them. *)

From S2P Require Import Prelude Irq Addr Platform Pmm KHeap Virtio VirtioQueue VirtioXfer HeapPages BlkDriver BlkSpec.

(** What a queue made of fresh pages is: [st] and [st'] are the page manager
    before and after, [m] the memory and [r] the registers after. *)
Record queue_built (version : Z) (st st' : pmm_state) (q : virtq) (m : bytes) (r : gmap Z Z) : Prop := {
  qb_num : 3 ≤ q_num q ≤ 8;
  qb_live : ∀ v, Z.testbit v 2 = true → live_queue version (<[VIRTIO_MMIO_STATUS := v]> r) = Some q;
  qb_avail : field m (q_avail q + 2) 2 = Some 0;
  qb_used : field m (q_used q + 2) 2 = Some 0;
  qb_sep : sep (q_desc q) 48 (q_avail q) (4 + 2 * q_num q) ∧ sep (q_desc q) 48 (q_used q) (4 + 8 * q_num q) ∧
    sep (q_avail q) (4 + 2 * q_num q) (q_used q) (4 + 8 * q_num q);
  qb_fresh : ∀ x, q_desc q ≤ x < q_desc q + 48 ∨ q_avail q ≤ x < q_avail q + (4 + 2 * q_num q) ∨ q_used q ≤ x < q_used q + (4 + 8 * q_num q) →
    free_bytes st x ∧ ¬ free_bytes st' x;
}.

(** Three pages, zeroed. *)
Lemma modern_built i j k version qsize st st' m m' r : same_window st st' → 3 ≤ qsize ≤ 8 → i ≠ j → i ≠ k → j ≠ k →
  (i ∈ free_set st) → (j ∈ free_set st) → (k ∈ free_set st) → (∀ x, x ∈ free_set st' → x ≠ i ∧ x ≠ j ∧ x ≠ k) →
  (∀ v, Z.testbit v 2 = true → live_queue version (<[VIRTIO_MMIO_STATUS := v]> r) = Some (mkVq qsize (page_pa st i) (page_pa st j) (page_pa st k))) →
  m' = put (page_pa st k) (replicate (Z.to_nat VIRTIO_PAGE_SIZE) 0) (put (page_pa st j) (replicate (Z.to_nat VIRTIO_PAGE_SIZE) 0) m) →
  queue_built version st st' (mkVq qsize (page_pa st i) (page_pa st j) (page_pa st k)) m' r.
Proof.
  intros W Hq Nij Nik Njk Mi Mj Mk Hgone Hlive ->. assert (∀ x y, x ≠ y → sep (page_pa st x) 4096 (page_pa st y) 4096) as Hsep.
  { intros x y Hxy. unfold sep, page_pa, PAGE_SIZE. lia. }
  pose proof (Hsep i j Nij) as Sij. pose proof (Hsep i k Nik) as Sik. pose proof (Hsep j k Njk) as Sjk. clear Hsep. unfold sep in Sij, Sik, Sjk.
  unfold VIRTIO_PAGE_SIZE. split; cbn [q_num q_desc q_avail q_used]; [done|done| | | |].
  - rewrite field_put_list by (rewrite length_replicate; lia). apply field_zeros; lia.
  - apply field_zeros; lia.
  - unfold sep. lia.
  - intros x Hx. assert (∃ y, (y = i ∨ y = j ∨ y = k) ∧ page_pa st y ≤ x < page_pa st y + 4096) as (y & Hy & Hxy).
    { destruct Hx as [Hx|[Hx|Hx]]; [exists i|exists j|exists k]; (split; [tauto|lia]). }
    split; [exists y; split; [by destruct Hy as [->|[->| ->]]|exact Hxy]|]. intros (z & Hz & Hzx). rewrite (same_window_pa st st') in Hzx by done.
    destruct (Hgone z Hz). assert (z = y); [|lia]. unfold page_pa, PAGE_SIZE in *. lia.
Qed.

(** Two pages in a row, zeroed. *)
Lemma legacy_built i qsize version st st' m m' r : same_window st st' → pmm_shape st → 3 ≤ qsize ≤ 8 → in_window st i 2 → run i 2 ⊆ free_set st →
  free_set st' = free_set st ∖ run i 2 →
  (∀ v, Z.testbit v 2 = true → live_queue version (<[VIRTIO_MMIO_STATUS := v]> r) = Some (mkVq qsize (page_pa st i) (page_pa st i + 16 * qsize) (page_pa st i + 4096))) →
  m' = put (page_pa st i) (replicate (Z.to_nat (2 * VIRTIO_PAGE_SIZE)) 0) m →
  queue_built version st st' (mkVq qsize (page_pa st i) (page_pa st i + 16 * qsize) (page_pa st i + 4096)) m' r.
Proof.
  intros W Hsh Hq Hi Hr Hf Hlive ->. unfold VIRTIO_PAGE_SIZE. split; cbn [q_num q_desc q_avail q_used]; [done|done| | | |].
  - apply field_zeros; lia.
  - apply field_zeros; lia.
  - unfold sep. lia.
  - intros x Hx. assert (page_pa st i ≤ x < page_pa st i + PAGE_SIZE * 2) as Hx2 by (unfold PAGE_SIZE; lia). split.
    + destruct (run_bytes st i 2 x Hi Hx2) as (j & Hj & Hxj). exists j. split; [by apply Hr|done].
    + by apply (run_taken st st' i 2).
Qed.

Section setup.
Context {D : Type} {BUS : VirtioBus D} (req_va status_va : Z).
Context (base version qmax cap : Z) (latency : nat) {VB : VirtioBlk base version qmax cap latency}.
Implicit Types (c : cpu_state).

Abbreviation mem s := (vm_mem (dr_vm (dh_drv s))).
Abbreviation dev s := (vm_dev (dr_vm (dh_drv s))).
Ltac set_reg := apply (wp_mmio_set base version qmax cap latency); [solve [by left | by right]|]; cbn [vm_mem vm_dev]; intros ? ? ? ?.
Ltac views := cbn [lget lset dh_lens dh_heap dh_drv dr_vm dr_blk vm_mem vm_dev].

Lemma bus_mmio : 0 ≤ base < 2 ^ 64 → bus_addr (mmio_ptr base) = base.
Proof. intros Hb. unfold bus_addr, mmio_ptr, u64. rewrite Zminus_mod_idemp_l. replace (CAPAZ_HH_BASE + base - CAPAZ_HH_BASE) with base by lia. by apply Z.mod_small. Qed.

Lemma wp_zero_mem p n Q c (s : vmach D) : 0 ≤ n → mapped (hh_virt_to_phys p) n (vm_mem s) →
  Q tt c (mkVm (put (hh_virt_to_phys p) (replicate (Z.to_nat n) 0) (vm_mem s)) (vm_dev s)) → wp (zero_mem p n) Q c s.
Proof.
  intros Hn Hm HQ. unfold zero_mem, put_bytes. wp_steps. rewrite length_replicate.
  destruct (mapped_get (hh_virt_to_phys p) (Z.to_nat n) (vm_mem s)) as (l & -> & _); [by rewrite Z2Nat.id|]. by wp_steps.
Qed.

(** What the queue's set-up changes besides: pages, memory of free pages,
    registers. *)
Definition setup_frame (st : pmm_state) (s s' : drv_heap D) : Prop :=
  pages_only (dh_heap s) (dh_heap s') ∧ dr_blk (dh_drv s') = dr_blk (dh_drv s) ∧ vb_done (dev s') = vb_done (dev s) ∧
  (∀ i, vb_disk (dev s') i = vb_disk (dev s) i) ∧ (∀ x, ¬ free_bytes st x → mem s' !! x = mem s !! x) ∧
  (∀ a k, mapped a k (mem s) → mapped a k (mem s')).

(** There was no memory for the queue. *)
Definition pages_short (st : pmm_state) : Prop := if version =? 2 then card (free_set st) < 3 else no_run st 2.

Definition setup_post (qsize : Z) (st : pmm_state) (s : drv_heap D) (r : option (Z * Z * Z)) (s' : drv_heap D) : Prop :=
  setup_frame st s s' ∧ ∃ st', heap_at (dh_heap s') st' ∧ same_window st st' ∧ free_set st' ⊆ free_set st ∧
  match r with
  | Some (d, a, u) => queue_built version st st' (mkVq qsize (hh_virt_to_phys d) (hh_virt_to_phys a) (hh_virt_to_phys u)) (mem s') (vb_regs (dev s'))
  | None => pages_short st
  end.

Lemma wp_take_pages n c (s : drv_heap D) st Q : heap_at (dh_heap s) st → irq_depth c = 0 → 1 ≤ n < 2 ^ 32 →
  (∀ r h', pages_only (dh_heap s) h' → (∃ st', heap_at h' st' ∧ same_window st st' ∧
    match r with
    | Some v => ∃ i, v = va st i ∧ in_window st i n ∧ run i n ⊆ free_set st ∧ free_set st' = free_set st ∖ run i n
    | None => st' = st ∧ no_run st n
    end) → Q r c (mkDh h' (dh_drv s))) → wp (dh_kheap (kheap_alloc_pages n)) Q c s.
Proof.
  intros Hs Hd Hn HQ. unfold dh_kheap. wp_step. views. eapply wp_mono; [by apply (take_pages n c (dh_heap s) st)|]. cbv beta.
  intros r c' h' (-> & Hp & Hx). by apply HQ.
Qed.

Lemma wp_dh_vm {X} (m : M (vmach D) X) Q c s :
  wp m (λ a c' v, Q a c' (mkDh (dh_heap s) (mkDrv v (dr_blk (dh_drv s))))) c (dr_vm (dh_drv s)) → wp (dh_vm m) Q c s.
Proof. intros Hm. unfold dh_vm, drv_vm. do 2 wp_step. exact Hm. Qed.

(** Three pages taken one after the other are three different free pages. *)
Definition three_pages (st st' : pmm_state) (d a u : option Z) : Prop :=
  match d, a, u with
  | Some d, Some a, Some u => ∃ i j k, d = va st i ∧ a = va st j ∧ u = va st k ∧ (i ∈ free_set st) ∧ (j ∈ free_set st) ∧ (k ∈ free_set st) ∧
      0 ≤ i < total_pages st ∧ 0 ≤ j < total_pages st ∧ 0 ≤ k < total_pages st ∧ i ≠ j ∧ i ≠ k ∧ j ≠ k ∧
      ∀ x, x ∈ free_set st' → x ≠ i ∧ x ≠ j ∧ x ≠ k
  | _, _, _ => card (free_set st) < 3
  end.

Lemma wp_take_three {X} (f : option Z → option Z → option Z → M (drv_heap D) X) c s st Q : heap_at (dh_heap s) st → irq_depth c = 0 →
  (∀ d a u h' st', pages_only (dh_heap s) h' → heap_at h' st' → same_window st st' → free_set st' ⊆ free_set st → three_pages st st' d a u →
     wp (f d a u) Q c (mkDh h' (dh_drv s))) →
  wp (d <- dh_kheap (kheap_alloc_pages 1) ;; a <- dh_kheap (kheap_alloc_pages 1) ;; u <- dh_kheap (kheap_alloc_pages 1) ;; f d a u) Q c s.
Proof.
  intros Hst Hd HQ. wp_step. apply (wp_take_pages 1 c s st); [done|done|lia|]. intros r1 h1 P1 (st1 & A1 & W1 & F1).
  wp_step. apply (wp_take_pages 1 c _ st1); [done|done|lia|]. intros r2 h2 P2 (st2 & A2 & W2 & F2).
  wp_step. apply (wp_take_pages 1 c _ st2); [done|done|lia|]. intros r3 h3 P3 (st3 & A3 & W3 & F3). cbn [dh_heap dh_drv] in *.
  assert (same_window st st2) as W12 by (by transitivity st1).
  apply (HQ r1 r2 r3 h3 st3); [etrans; [exact P1|]; by etrans|done|by transitivity st2| |].
  - assert (free_set st1 ⊆ free_set st) by (destruct r1; [destruct F1 as (? & _ & _ & _ & ->)|destruct F1 as [-> _]]; set_solver).
    assert (free_set st2 ⊆ free_set st1) by (destruct r2; [destruct F2 as (? & _ & _ & _ & ->)|destruct F2 as [-> _]]; set_solver).
    destruct r3; [destruct F3 as (? & _ & _ & _ & ->)|destruct F3 as [-> _]]; set_solver.
  - assert (∀ st0 st0' i, run i 1 ⊆ free_set st0 → free_set st0' = free_set st0 ∖ run i 1 → card (free_set st0) = card (free_set st0') + 1) as Hcard.
    { intros st0 st0' i Hr ->. rewrite card_difference, card_run by (done || lia). lia. }
    unfold three_pages. destruct r1 as [d|]; [|destruct F1 as [_ E%no_page]; rewrite E, card_empty; lia].
    destruct F1 as (i & -> & I1 & R1 & F1). pose proof (Hcard st st1 i R1 F1). destruct r2 as [a|]; [|destruct F2 as [_ E%no_page]; rewrite E, card_empty in *; lia].
    destruct F2 as (j & -> & I2 & R2 & F2). pose proof (Hcard st1 st2 j R2 F2). destruct r3 as [u|]; [|destruct F3 as [_ E%no_page]; rewrite E, card_empty in *; lia].
    destruct F3 as (k & -> & I3 & R3 & F3). unfold in_window in *.
    pose proof W1 as (_ & _ & T1 & _). pose proof W12 as (_ & _ & T2 & _). specialize (R1 i ltac:(apply elem_of_run; lia)).
    specialize (R2 j ltac:(apply elem_of_run; lia)). specialize (R3 k ltac:(apply elem_of_run; lia)).
    rewrite F1, elem_of_difference, elem_of_run in R2. rewrite F2, F1, !elem_of_difference, !elem_of_run in R3.
    exists i, j, k. unfold va. rewrite (same_window_pa st st1), (same_window_pa st st2) by done. split_and!; try done; try lia; try tauto.
    intros x. rewrite F3, F2, F1, !elem_of_difference, !elem_of_run. lia.
Qed.

Lemma probe_modern_correct mmio qsize c s st : bus_addr mmio = base → version = 2 → heap_at (dh_heap s) st → irq_depth c = 0 → free_mapped st (mem s) →
  3 ≤ qsize ≤ 8 → reg (vb_regs (dev s)) VIRTIO_MMIO_QUEUE_NUM = qsize →
  wp (probe_modern mmio) (λ r c' s', c' = c ∧ setup_post qsize st s r s') c s.
Proof.
  intros Emm Hv Hst Hd Hfm Hq Hnum. unfold probe_modern. rewrite Emm. apply (wp_take_three _ c s st); [done|done|]. intros d a u h3 st3 P A W S T3.
  assert (pages_short st → setup_post qsize st s None (mkDh h3 (dh_drv s))) as Hnone by (intros Hs; split; [by split_and!|by exists st3]).
  assert ((version =? 2) = true) as Ev by (by apply Z.eqb_eq). unfold pages_short in Hnone. rewrite Ev in Hnone.
  destruct d as [d|]; [|wp_steps; by auto]. destruct a as [a|]; [|wp_steps; by auto]. destruct u as [u|]; [|wp_steps; by auto]. clear Hnone.
  destruct T3 as (i & j & k & -> & -> & -> & Mi & Mj & Mk & Ii & Ij & Ik & Nij & Nik & Njk & Hgone). pose proof Hst as (_ & (Hsh & _) & _).
  assert (∀ x, x ∈ free_set st → mapped (page_pa st x) VIRTIO_PAGE_SIZE (mem s)) as Hmp by (intros x Hx y Hy; apply Hfm; by exists x).
  rewrite !va_phys by done. wp_step. apply wp_dh_vm. views.
  wp_step. apply wp_zero_mem; [done|rewrite va_phys by done; by apply Hmp|]. rewrite va_phys by done. views.
  wp_step. apply wp_zero_mem; [done|rewrite va_phys by done; by apply mapped_put, Hmp|]. rewrite va_phys by done. views.
  wp_step. apply wp_zero_mem; [done|rewrite va_phys by done; by do 2 apply mapped_put; apply Hmp|]. rewrite va_phys by done. views.
  destruct (page_pa_window st i Hsh Ii) as [Bi Bi'], (page_pa_window st j Hsh Ij) as [Bj Bj'], (page_pa_window st k Hsh Ik) as [Bk Bk'].
  rewrite WIN_END_eq in Bi', Bj', Bk'. unfold CAPAZ_RAM_BASE, PAGE_SIZE in Bi, Bj, Bk, Bi', Bj', Bk'.
  eapply wp_mono; [apply (set_queue_regs_correct base version qmax cap latency); (done || lia)|]. cbv beta. views.
  intros _ c' v (-> & Em & Ed & Ek & El). wp_steps. split; [done|]. split.
  - split_and!; try done; views; rewrite Em.
    + intros x Hx. rewrite !lookup_put, !length_replicate. unfold VIRTIO_PAGE_SIZE.
      rewrite !decide_False; [done|..]; intros Hin; apply Hx; [exists i|exists j|exists k]; (split; [done|unfold PAGE_SIZE; lia]).
    + intros x n Hx. by repeat apply mapped_put.
  - exists st3. split; [done|]. split; [done|]. split; [done|]. views. rewrite !va_phys by done.
    eapply (modern_built i j k); [done|done|done|done|done|done|done|done|done| |exact Em]. intros b Hb. rewrite El by done. by rewrite Hnum.
Qed.

Lemma probe_legacy_correct mmio qsize c s st : bus_addr mmio = base → version = 1 → heap_at (dh_heap s) st → irq_depth c = 0 → free_mapped st (mem s) →
  3 ≤ qsize ≤ 8 → reg (vb_regs (dev s)) VIRTIO_MMIO_QUEUE_NUM = qsize →
  wp (probe_legacy mmio qsize) (λ r c' s', c' = c ∧ setup_post qsize st s r s') c s.
Proof.
  intros Emm Hv Hst Hd Hfm Hq Hnum. unfold probe_legacy, kwrite. rewrite Emm. wp_step. apply wp_dh_vm. set_reg. wp_step. views.
  apply (wp_take_pages 2 c _ st); [done|done|lia|]. cbn [dh_heap dh_drv]. intros [v|] h1 P1 (st1 & A1 & W1 & F1); last first.
  { wp_steps. split; [done|]. split; [by split_and!|]. destruct F1 as [-> Hno]. exists st. split_and!; try done.
    unfold pages_short. assert ((version =? 2) = false) as -> by (apply Z.eqb_neq; lia). done. }
  destruct F1 as (i & -> & I1 & R1 & F1). pose proof Hst as (_ & (Hsh & _) & _). pose proof I1 as (Hi & _ & Hi').
  assert (free_set st1 ⊆ free_set st) as S1 by (rewrite F1; set_solver).
  destruct (page_pa_window st i Hsh ltac:(lia)) as [B B']. rewrite WIN_END_eq in B'. unfold CAPAZ_RAM_BASE, PAGE_SIZE in B, B'.
  destruct (legacy_used_off qsize Hq) as (E1 & E2 & _). change (VIRTIO_PAGE_SIZE - 1) with 4095. rewrite E2, E1. wp_step. apply wp_dh_vm. views.
  pose proof (run_mapped st i 2 _ I1 R1 Hfm) as Hmp. wp_step. apply wp_zero_mem; [done|rewrite va_phys by (done || lia); exact Hmp|].
  rewrite va_phys by (done || lia). wp_step. set_reg. set_reg. wp_steps. split; [done|]. split.
  - split; [done|]. split; [done|]. cbn [dh_heap dh_drv dr_vm vm_dev vm_mem]. split; [congruence|]. split; [intros n; congruence|]. split; [|intros a n Ha; by apply mapped_put].
    intros x Hx. rewrite lookup_put, length_replicate, decide_False; [done|]. intros Hin. apply Hx.
    destruct (run_bytes st i 2 x I1) as (j & Hj & Hxj); [unfold VIRTIO_PAGE_SIZE, PAGE_SIZE in *; lia|]. exists j. split; [by apply R1|done].
  - exists st1. split; [done|]. split; [done|]. split; [done|]. cbn [dh_drv dr_vm vm_dev vm_mem].
    destruct (page_va_facts st i Hsh ltac:(lia)) as (Hal & Hb & Ev). fold (va st i) in Hal, Hb, Ev. cbv zeta in *. pose proof (sh_base st Hsh) as Hpb.
    rewrite !(u64_small (va st i + _)) by (unfold PAGE_SIZE in *; lia).
    assert (∀ k, 0 ≤ k < 2 * 4096 → hh_virt_to_phys (va st i + k) = page_pa st i + k) as Eph.
    { intros k Hk. rewrite Ev. replace (CAPAZ_HH_BASE + page_pa st i + k) with (phys_to_hh_virt (page_pa st i + k)).
      - apply phys_virt_roundtrip. destruct (page_pa_window st (i + 1) Hsh ltac:(lia)) as [C C']. rewrite WIN_END_eq in *. unfold page_pa, CAPAZ_RAM_BASE, PAGE_SIZE in *. lia.
      - rewrite phys_to_hh_virt_eq; [lia|]. destruct (page_pa_window st (i + 1) Hsh ltac:(lia)) as [C C']. rewrite WIN_END_eq in *. unfold page_pa, CAPAZ_RAM_BASE, PAGE_SIZE in *. lia. }
    rewrite !Eph by lia. rewrite va_phys by (done || lia).
    eapply (legacy_built i qsize); [done|done|done|done|done|done| |reflexivity]. intros b Hb'. rewrite <- Hnum.
    repeat match goal with E : vb_regs _ = <[_ := _]> _ |- _ => rewrite E; clear E end. rewrite (u32_small (u32 _)) by apply u32_range. unfold VIRTIO_PAGE_SIZE.
    apply legacy_live; [done|by rewrite Hnum| |lia|done]. unfold page_pa. page_arith.
Qed.

(** Statics and free pages as the set-up needs them. *)
Record drv_env (st : pmm_state) (s : drv_heap D) : Prop := {
  de_heap : heap_at (dh_heap s) st;
  de_free : free_mapped st (mem s);
  de_req : mapped (hh_virt_to_phys req_va) 16 (mem s) ∧ clear_of st (hh_virt_to_phys req_va) 16 ∧ 0 ≤ hh_virt_to_phys req_va < 2 ^ 64;
  de_status : mapped (hh_virt_to_phys status_va) 1 (mem s) ∧ clear_of st (hh_virt_to_phys status_va) 1 ∧ 0 ≤ hh_virt_to_phys status_va < 2 ^ 64;
  de_sep : sep (hh_virt_to_phys req_va) 16 (hh_virt_to_phys status_va) 1;
  de_disk : ∀ i b, vb_disk (dev s) i = Some b → length b = 512%nat;
}.

(** No free page meets what driver and device share. *)
Definition queue_clear (st : pmm_state) (b : virtio_blk_dev) : Prop :=
  let q := dev_queue b in
  clear_of st (q_desc q) 48 ∧ clear_of st (q_avail q) (4 + 2 * q_num q) ∧ clear_of st (q_used q) (4 + 8 * q_num q) ∧
  clear_of st (hh_virt_to_phys req_va) 16 ∧ clear_of st (hh_virt_to_phys status_va) 1.

(** What the set-up comes to.  It fails for want of pages, or because the
    device refuses a driver without features or has no queue 0; then neither
    heap nor memory is touched. *)
Definition init_post (st : pmm_state) (s : drv_heap D) (r : bool) (s' : drv_heap D) : Prop :=
  pages_only (dh_heap s) (dh_heap s') ∧ (∀ i, vb_disk (dev s') i = vb_disk (dev s) i) ∧
  (∀ x, ¬ free_bytes st x → mem s' !! x = mem s !! x) ∧ (∀ a k, mapped a k (mem s) → mapped a k (mem s')) ∧
  ∃ st', heap_at (dh_heap s') st' ∧ same_window st st' ∧ free_set st' ⊆ free_set st ∧
  if r then drv_ready req_va status_va base version qmax cap latency (dh_drv s') ∧ queue_clear st' (dr_blk (dh_drv s')) ∧ k_capacity_sectors (dr_blk (dh_drv s')) = cap ∧
    vb_accepts = true ∧ qmax ≠ 0
  else dr_blk (dh_drv s') = dr_blk (dh_drv s) ∧
    (pages_short st ∨ (vb_accepts = false ∨ qmax = 0) ∧ dh_heap s' = dh_heap s ∧ mem s' = mem s).

(** A fresh queue and the statics are the areas of a driver. *)
Lemma built_areas st st' q s s' : drv_env st s → (∀ a k, mapped a k (mem s) → mapped a k (mem s')) → same_window st st' → free_set st' ⊆ free_set st →
  queue_built version st st' q (mem s') (vb_regs (dev s')) →
  areas q (hh_virt_to_phys req_va) (hh_virt_to_phys status_va) ∧ areas_mapped q (hh_virt_to_phys req_va) (hh_virt_to_phys status_va) (mem s') ∧
  clear_of st' (q_desc q) 48 ∧ clear_of st' (q_avail q) (4 + 2 * q_num q) ∧ clear_of st' (q_used q) (4 + 8 * q_num q).
Proof.
  intros [_ Hfm (Mr & Cr & _) (Ms & Cs & _) Hrs _] Hmk W S [Hn _ _ _ (S1 & S2 & S3) Hfr].
  assert (∀ a k b l, 0 < k → 0 < l → (∀ x, a ≤ x < a + k → free_bytes st x) → clear_of st b l → sep a k b l) as Hsep.
  { intros a k b l Hk Hl Ha Hb. apply sep_points; [done|done|]. intros x Hx Hxb. by apply (Hb x Hxb), Ha. }
  assert (∀ a k, (∀ x, a ≤ x < a + k → free_bytes st x) → mapped a k (mem s')) as Hmp by (intros a k Ha; apply Hmk; intros x Hx; by apply Hfm, Ha).
  split; [split; try done; apply Hsep; try done; try lia; intros x Hx; apply Hfr; tauto|].
  split; [unfold areas_mapped; split_and!; try (by apply Hmk); apply Hmp; intros x Hx; apply Hfr; tauto|].
  split_and!; intros x Hx; apply Hfr; tauto.
Qed.

Lemma blk_probe_correct c s st : version = 1 ∨ version = 2 → qmax = 0 ∨ 3 ≤ qmax → 0 ≤ base < 2 ^ 64 → 0 ≤ cap < 2 ^ 64 → drv_env st s → irq_depth c = 0 →
  wp (virtio_blk_probe base) (λ r c' s', c' = c ∧ init_post st s r s') c s.
Proof.
  intros Hv Hqm Hbase Hcap Env Hd. pose proof Env as [Hst Hfm _ _ _ Hlen]. unfold virtio_blk_probe, kread, kwrite. cbv zeta. rewrite (bus_mmio Hbase).
  destruct (vb_constants (dev s)) as (C1 & C2 & C3 & _). do 3 (wp_step; apply wp_dh_vm, wp_mmio_get; views). rewrite C1, C2, C3, !Z.eqb_refl. cbn [negb].
  assert (negb (version =? 1) && negb (version =? 2) = false) as -> by (clear -Hv; destruct Hv as [E|E]; rewrite E; done).
  wp_step. apply wp_dh_vm. unfold probe_features, kwrite. rewrite (bus_mmio Hbase). views. wp_step. apply (wp_mmio_reset base version qmax cap latency). intros d0 E0 K0.
  do 2 (wp_step; set_reg). eapply wp_mono; [by apply (negotiate_features_correct base version qmax cap latency)|]. cbv beta. views.
  intros r c' v1 (-> & -> & Em1 & Ed1 & Ek1).
  assert (∀ v, vm_mem v = mem s → (∀ i, vb_disk (vm_dev v) i = vb_disk (dev s) i) → vb_accepts = false ∨ qmax = 0 →
    init_post st s false (mkDh (dh_heap s) (mkDrv v (dr_blk (dh_drv s))))) as Hfail.
  { intros v Em Ek Hwhy. split_and!; views; try done; [intros x _; by rewrite Em|intros a k; by rewrite Em|].
    exists st. split_and!; try done. views. right. by split_and!. }
  destruct vb_accepts eqn:Eacc; cbn [negb]; last first.
  { wp_steps. split; [done|]. apply Hfail; [done| |by left]. intros i. views. rewrite Ek1. congruence. }
  wp_step. apply wp_dh_vm. views. wp_step. set_reg. apply wp_mmio_get. views.
  match goal with |- context [reg_read ?d base VIRTIO_MMIO_QUEUE_NUM_MAX] => destruct (vb_constants d) as (_ & _ & _ & -> & _) end.
  destruct (Z.eqb_spec qmax 0) as [Hq0|Hq0].
  { wp_steps. split; [done|]. apply Hfail; [done| |by right]. intros i. views. congruence. }
  assert (3 ≤ qmax) as Hq3 by lia. clear Hfail. set (qsize := if qmax <? VIRTQ_SIZE then qmax else VIRTQ_SIZE).
  assert (3 ≤ qsize ≤ 8) as Hqs by (unfold qsize, VIRTQ_SIZE; destruct (Z.ltb_spec qmax 8); lia). clearbody qsize.
  wp_step. apply wp_dh_vm. views. set_reg. wp_step.
  match goal with |- wp _ _ _ (mkDh _ (mkDrv (mkVm _ ?d) _)) => set (d2 := d) in * end. set (s2 := mkDh _ _).
  assert (reg (vb_regs (dev s2)) VIRTIO_MMIO_QUEUE_NUM = qsize) as Hnum.
  { unfold s2, reg. views. match goal with E : vb_regs d2 = _ |- _ => rewrite E end. rewrite lookup_insert_eq. cbn. apply u32_small. lia. }
  assert (vb_done d2 = 0 ∧ ∀ i, vb_disk d2 i = vb_disk (dev s) i) as [D2 K2] by (split; [congruence|intros i; congruence]).
  assert (mem s2 = mem s) as Em2 by (by unfold s2; views).
  apply wp_mono with (λ r c' s', c' = c ∧ setup_post qsize st s2 r s').
  { destruct Hv as [Hv|Hv].
    - assert ((version =? 2) = false) as -> by (apply Z.eqb_neq; lia). apply probe_legacy_correct; try done; [by apply bus_mmio|by rewrite Em2].
    - assert ((version =? 2) = true) as -> by (by apply Z.eqb_eq). apply probe_modern_correct; try done; [by apply bus_mmio|by rewrite Em2]. }
  intros r c' s3 (-> & (P3 & B3 & D3 & K3 & F3 & M3) & st3 & A3 & W3 & S3 & Q3). change (dev s2) with d2 in D3, K3. rewrite Em2 in F3, M3.
  assert (∀ i, vb_disk (dev s3) i = vb_disk (dev s) i) as K30 by (intros i; by rewrite K3).
  destruct r as [[[d a] u]|]; [|wp_steps; split; [done|]; split_and!; try done; exists st3; split_and!; try done; by left].
  wp_step. apply wp_dh_vm. apply (wp_mmio_set base version qmax cap latency); [by right|]. cbn [vm_mem vm_dev]. intros d4 R4 D4 K4.
  do 2 (wp_step; apply wp_dh_vm, wp_mmio_get; views). destruct (vb_constants d4) as (_ & _ & _ & _ & -> & ->). wp_steps. split; [done|].
  destruct (built_areas st st3 _ s s3 Env M3 W3 S3 Q3) as (Har & Hmp & Cd & Ca & Cu). destruct Q3 as [_ Hlive Hav Hus _ _].
  split_and!; views; [done|intros i; by rewrite K4|done|done|]. exists st3. split; [done|]. split; [done|]. split; [done|]. split; [|split; [|split]].
  - split; cbn [dr_blk dr_vm k_ready k_mmio k_sector_size k_last_used vm_dev vm_mem]; [done|by apply bus_mmio|done| |congruence].
    assert (vb_done d4 = 0) as D40 by congruence.
    split; cbn [q_num q_desc q_avail q_used] in *; rewrite ?D40; [rewrite R4; by apply Hlive|done|done|done|done|lia|intros i b; rewrite K4, K30; apply Hlen|].
    split; [apply (de_req _ _ Env)|apply (de_status _ _ Env)].
  - split_and!; try done; (eapply clear_of_sub; [exact W3|exact S3|]); [apply (de_req _ _ Env)|apply (de_status _ _ Env)].
  - cbn [k_capacity_sectors dr_blk]. rewrite lor_shiftl_low by first [lia|apply Z.mod_pos_bound; lia]. rewrite Z.mul_comm. symmetry. apply Z.div_mod. lia.
  - done.
Qed.

Lemma blk_probe_absent b c s : 0 ≤ b < 2 ^ 64 → no_block D b → wp (virtio_blk_probe b) (λ r c' s', r = false ∧ c' = c ∧ s' = s) c s.
Proof.
  intros Hb Hno. assert (bus_addr (mmio_ptr b) = b) as E.
  { unfold bus_addr, mmio_ptr, u64. rewrite Zminus_mod_idemp_l. replace (CAPAZ_HH_BASE + b - CAPAZ_HH_BASE) with b by lia. by apply Z.mod_small. }
  unfold virtio_blk_probe, kread, kwrite, mmio_read. cbv zeta. rewrite E. do 3 (wp_step; apply wp_dh_vm; wp_step; views). destruct s as [h [v k]]. views.
  destruct (Z.eqb_spec (reg_read (vm_dev v) b VIRTIO_MMIO_MAGIC_VALUE) VIRTIO_MMIO_MAGIC) as [Em|Em]; cbn [negb]; [|by wp_steps].
  destruct (_ && _); [by wp_steps|].
  destruct (Z.eqb_spec (reg_read (vm_dev v) b VIRTIO_MMIO_DEVICE_ID) VIRTIO_DEVICE_BLOCK) as [Ed|Ed]; cbn [negb]; [|by wp_steps].
  by destruct (Hno (vm_dev v)).
Qed.

Lemma probe_all_absent l c s : Forall (λ r, 0 ≤ Platform.base r < 2 ^ 64 ∧ no_block D (Platform.base r)) l → wp (probe_all l) (λ r c' s', r = false ∧ c' = c ∧ s' = s) c s.
Proof.
  induction 1 as [|r l [Hb Hno] _ IH]; cbn [probe_all]; [by wp_steps|]. wp_step. eapply wp_mono; [by apply blk_probe_absent|]. cbv beta.
  intros x c' s' (-> & -> & ->). exact IH.
Qed.

Lemma probe_all_correct l1 r l2 c s st : Forall (λ r, 0 ≤ Platform.base r < 2 ^ 64 ∧ no_block D (Platform.base r)) l1 →
  Forall (λ r, 0 ≤ Platform.base r < 2 ^ 64 ∧ no_block D (Platform.base r)) l2 → Platform.base r = base →
  version = 1 ∨ version = 2 → qmax = 0 ∨ 3 ≤ qmax → 0 ≤ base < 2 ^ 64 → 0 ≤ cap < 2 ^ 64 → drv_env st s → irq_depth c = 0 →
  wp (probe_all (l1 ++ r :: l2)) (λ r c' s', c' = c ∧ init_post st s r s') c s.
Proof.
  intros H1 H2 Hr Hv Hqm Hb Hcap Env Hd. induction H1 as [|x l1 [Hx Hno] _ IH]; cbn [app probe_all]; wp_step.
  - rewrite Hr. eapply wp_mono; [by apply blk_probe_correct|]. cbv beta. intros [|] c' s' [-> Hpost]; [by wp_steps|].
    eapply wp_mono; [by apply probe_all_absent|]. cbv beta. intros y c' s2 (-> & -> & ->). done.
  - eapply wp_mono; [by apply blk_probe_absent|]. cbv beta. intros y c' s' (-> & -> & ->). exact IH.
Qed.
End setup.
