(* ===== verification/BlkDisk.v ===== *)
(** * The block driver's theorems, and a machine that runs it

    Set-up from the device tree's ranges, writing and reading back, and that
    every request ends; a device that works at once shows the hypotheses hold
    and runs the code. *)

From S2P Require Import Prelude Irq Addr Platform Pmm KHeap Virtio VirtioQueue VirtioXfer HeapPages BlkDriver BlkSpec BlkSetup BootDisk.

Section theorems.
Context {D : Type} {BUS : VirtioBus D} (req_va status_va : Z).
Context (base version qmax cap : Z) (latency : nat) {VB : VirtioBlk base version qmax cap latency}.

(** C26: For a block device of version 1 or 2 whose queue 0 is missing or can
    hold at least three entries, hal_block_init finds it among the ranges of
    the device tree, and either leaves driver and device in agreement on a
    queue made of fresh pages that no later allocation meets, with the
    capacity the device reports, or fails and leaves the driver not ready, for
    one of three reasons: the page manager could not give the pages, the
    device refuses a driver that accepts no feature, or it has no queue 0 (in
    the last two neither heap nor memory changes); the heap and all other
    memory are unchanged. *)
Theorem block_init_spec l1 r l2 h c s st :
  drv_env req_va status_va base version qmax cap latency st s → kh_abs (dh_heap s) h → irq_depth c = 0 → k_ready (dr_blk (dh_drv s)) = false →
  Forall (λ r, 0 ≤ Platform.base r < 2 ^ 64 ∧ no_block D (Platform.base r)) (l1 ++ l2) → Platform.base r = base →
  version = 1 ∨ version = 2 → qmax = 0 ∨ 3 ≤ qmax → 0 ≤ base < 2 ^ 64 → 0 ≤ cap < 2 ^ 64 →
  wp (hal_block_init true (l1 ++ r :: l2)) (λ ok c' s', c' = c ∧ kh_abs (dh_heap s') h ∧ init_post req_va status_va base version qmax cap latency st s ok s') c s.
Proof.
  intros Env Ha Hd Hr Hno Eb Hv Hq Hb Hc. apply Forall_app in Hno as [H1 H2]. unfold hal_block_init, virtio_blk_init. wp_steps. rewrite Hr. cbn [negb orb].
  rewrite bool_decide_false by (by destruct l1). eapply wp_mono; [by apply (probe_all_correct req_va status_va base version qmax cap latency l1 r l2 c s st)|].
  cbv beta. intros ok c' s' [-> Hpost]. split; [done|]. split; [|done]. destruct Hpost as (Hp & _ & _ & _ & st' & Hst & Hw & Hsub & _).
  eapply (heap_pages_frame (dh_heap s) _ st st'); try done. apply Env.
Qed.

(** C25: On a driver that agrees with a device behaving as documented (it
    serves the request of a live queue once it is notified, within 2000001
    polls, and is idle when it has none), writing n sectors (512 n below 2^32)
    from a buffer and reading them back into another one succeeds and delivers
    the same bytes; the sectors hold the data, no other sector changes, no
    memory outside the destination and the queue changes, and driver and
    device still agree. *)
Theorem block_write_read_roundtrip lba n src dst data old c s :
  drv_ready req_va status_va base version qmax cap latency s →
  drv_buffer req_va status_va (dr_blk s) src (512 * n) (mem_of s) → drv_buffer req_va status_va (dr_blk s) dst (512 * n) (mem_of s) →
  0 < n → 512 * n < 2 ^ 32 → 0 ≤ lba < 2 ^ 64 → (latency ≤ Z.to_nat (SPIN_LIMIT + 1))%nat →
  get (hh_virt_to_phys src) (Z.to_nat (512 * n)) (mem_of s) = Some data → sectors (vb_disk (vm_dev (dr_vm s))) lba n = Some old →
  wp (w <- hal_block_write req_va status_va lba src n ;; r <- hal_block_read req_va status_va lba dst n ;; ret (w, r))
    (λ r c' s', c' = c ∧ r = (true, true) ∧ drv_ready req_va status_va base version qmax cap latency s' ∧
      get (hh_virt_to_phys dst) (Z.to_nat (512 * n)) (mem_of s') = Some data ∧
      (∀ i, lba ≤ i < lba + n → vb_disk (vm_dev (dr_vm s')) i = Some (take 512 (drop (Z.to_nat (512 * (i - lba))) data))) ∧
      (∀ i, ¬ (lba ≤ i < lba + n) → vb_disk (vm_dev (dr_vm s')) i = vb_disk (vm_dev (dr_vm s)) i) ∧
      ∀ x, ¬ (hh_virt_to_phys dst ≤ x < hh_virt_to_phys dst + 512 * n) → outside_queue req_va status_va (dr_blk s) x → mem_of s' !! x = mem_of s !! x) c s.
Proof.
  intros Hs Bs Bd Hn Hn' Hl Hp Hdata Hold. assert (Z.of_nat (length data) = 512 * n) as Hlen by (apply get_some in Hdata as [? _]; lia).
  wp_step. eapply wp_mono; [by apply (hal_write_correct req_va status_va base version qmax cap latency lba src n data)|]. cbv beta. unfold disk_of. rewrite Hold.
  intros r c' s1 (-> & Hs1 & Eb & Hmk & Hun & -> & Hdk). wp_step.
  eapply wp_mono; [apply (hal_read_correct req_va status_va base version qmax cap latency); try done; by eapply drv_buffer_kept|]. cbv beta. unfold disk_of.
  rewrite (sectors_ext (write_sectors (vb_disk (vm_dev (dr_vm s))) lba data)), sectors_written by (done || lia).
  intros r c' s2 (-> & Hs2 & Eb2 & Hdk2 & Hmk2 & -> & Hg & Hun2). wp_steps.
  assert (Z.of_nat (length data) / 512 = n) as Ediv by (rewrite Hlen, Z.mul_comm; by apply Z.div_mul).
  split_and!; try done.
  - intros i Hi. rewrite Hdk2, Hdk. unfold write_sectors. by rewrite decide_True by lia.
  - intros i Hi. rewrite Hdk2, Hdk. unfold write_sectors. by rewrite decide_False by lia.
  - intros x Hx Ho. rewrite Hun2 by (done || by rewrite Eb). by apply Hun.
Qed.
End theorems.

Section returns.
Context {D : Type} {BUS : VirtioBus D} (req_va status_va : Z).

(** The guards of hal_block.c and of the driver. *)
Definition io_refused (b : virtio_blk_dev) (buf blocks : Z) : bool :=
  negb (k_ready b) || (buf =? 0) || (blocks =? 0) || (k_sector_size b =? 0) ||
  (u32 blocks =? 0) || (u64 (k_sector_size b * blocks) <? u64 (u32 blocks * k_sector_size b)).

(** The machine once the request is written and the device notified. *)
Definition request_sent (ty bf lba buf blocks : Z) (c : cpu_state) (s : drv_state D) (v1 : vmach D) : Prop :=
  let b := dr_blk s in
  ∃ v, queue_request (dev_queue b) ty lba (u64 (u32 blocks * k_sector_size b)) bf
         (hh_virt_to_phys req_va) (hh_virt_to_phys buf) (hh_virt_to_phys status_va) c (dr_vm s) = Ret (tt, c, v) ∧
    v1 = mkVm (vm_mem v) (reg_write (vm_dev (dr_vm s)) (bus_addr (k_mmio b)) VIRTIO_MMIO_QUEUE_NOTIFY 0).

(** C28: Whatever the device does to memory (without unmapping it): a read or
    a write through hal_block either is refused by a guard (no ready device,
    buffer or count; a size that wraps) and changes nothing, or writes the
    request, notifies the device and looks at the used index at most 2000001
    times. If all the looks show the old index the call fails and the driver
    record is as before; otherwise it stops at the first look that shows
    another one, takes the index of the next look as last_used, and returns
    whether the status byte then is 0. *)
Theorem block_request_ends ty bf lba buf blocks c s :
  (∀ (d : D) m a n, mapped a n m → mapped a n (dev_work d m).2) →
  0 < k_queue_size (dr_blk s) →
  areas_mapped (dev_queue (dr_blk s)) (hh_virt_to_phys req_va) (hh_virt_to_phys status_va) (vm_mem (dr_vm s)) →
  wp (hal_block_io (virtio_blk_io req_va status_va ty bf) lba buf blocks)
    (λ r c' s', c' = c ∧
       if io_refused (dr_blk s) buf blocks then r = false ∧ s' = s
       else ∃ v k, request_sent ty bf lba buf blocks c s v ∧ 1 ≤ Z.of_nat k ≤ 2000001 ∧
         let seen n := field (vm_mem (after_steps n v)) (q_used (dev_queue (dr_blk s)) + 2) 2 in
         let last := k_last_used (dr_blk s) in
         (∀ j, (0 < j < k)%nat → seen j = Some last) ∧
         ((seen k = Some last ∧ Z.of_nat k = 2000001 ∧ r = false ∧ s' = mkDrv (after_steps k v) (dr_blk s)) ∨
          (seen k ≠ Some last ∧ ∃ idx st, seen (S k) = Some idx ∧
             field (vm_mem (after_steps (S (S k)) v)) (hh_virt_to_phys status_va) 1 = Some st ∧ r = (st =? 0) ∧
             s' = mkDrv (after_steps (S (S k)) v) (set_last_used idx (dr_blk s))))) c s.
Proof.
  intros Hwork Hq Ha. unfold io_refused, hal_block_io, virtio_blk_ready, virtio_blk_sector_size. wp_steps.
  destruct (negb (k_ready (dr_blk s)) || (buf =? 0) || (blocks =? 0)) eqn:E1; [by wp_steps|]. wp_steps.
  destruct (k_sector_size (dr_blk s) =? 0) eqn:E2; [by wp_steps|]. unfold virtio_blk_io. wp_steps. cbn [orb].
  apply orb_false_iff in E1 as [E1 _]. rewrite E1. cbn [orb]. destruct (u32 blocks =? 0) eqn:E3; [by wp_steps|]. cbn [orb].
  destruct (_ <? _); [by wp_steps|]. unfold drv_vm. wp_steps. cbn [lget].
  match goal with |- wp (exchange ?b ?q ?ty ?lba ?t ?bf ?req ?buf ?st ?last ?polls) _ _ ?v =>
    destruct (exchange_ends Hwork b q ty lba t bf req buf st last polls c v Hq Ha) as (v0 & Hv0 & Hm0 & Hex) end.
  cbv zeta in Hex. set (v1 := mkVm _ _) in Hex. eapply wp_mono; [exact Hex|]. cbv beta. intros r c' v2 (-> & k & Hk & Hold & Hr).
  assert (request_sent ty bf lba buf blocks c s v1) as Hsent by (by exists v0). destruct r as [idx|].
  - destruct Hr as (Hk0 & Hne & Hidx & ->). wp_steps. cbn [lget lset dr_vm dr_blk].
    assert (is_Some (field (vm_mem (after_steps (S (S k)) v1)) (hh_virt_to_phys status_va) 1)) as [st Hst].
    { apply mapped_field, steps_mapped; [done|]. by apply Hm0, Ha. }
    assert (after_steps 1 (after_steps (S k) v1) = after_steps (S (S k)) v1) as E by done.
    eapply wp_poll_field; [rewrite E; exact Hst|]. wp_steps. cbn [lset dr_vm dr_blk]. split; [done|]. exists v1, k. split; [done|]. split; [unfold SPIN_LIMIT in Hk; lia|].
    split; [done|]. right. split; [done|]. by exists idx, st.
  - destruct Hr as (-> & Hlast & ->). wp_steps. cbn [lset dr_vm dr_blk]. split; [done|]. exists v1, (Z.to_nat (SPIN_LIMIT + 1)). split; [done|].
    split; [unfold SPIN_LIMIT; lia|]. split; [done|]. left. split; [apply Hlast; unfold SPIN_LIMIT; lia|]. split; [unfold SPIN_LIMIT; lia|]. done.
Qed.
End returns.

(** ** A concrete machine *)

Module Machine.

(** Statics in the kernel image, five free pages, a buffer below them. *)
Definition req_va : Z := 0xFFFF800040090300.
Definition status_va : Z := 0xFFFF800040090310.
Definition src_va : Z := 0xFFFF800040090400.
Definition dst_va : Z := 0xFFFF800040090800.
Definition zeros (a n : Z) (m : bytes) : bytes := put a (replicate (Z.to_nat n) 0) m.
Definition ram : bytes :=
  zeros 0x40500000 20480 (zeros 0x40090300 16 (zeros 0x40090310 1 (put 0x40090400 (replicate (Z.to_nat 512) 5) (zeros 0x40090800 512 ∅)))).
Definition slot (i : Z) : Z := 0x0A000000 + 0x200 * i.
Definition sample_disk (i : Z) : option (list Z) := if (0 <=? i) && (i <? 4) then Some (replicate 512 (i + 7)) else None.
Definition no_blk : virtio_blk_dev := mkVb 0 0 0 0 0 0 0 0 0 false.
Definition machine : drv_heap ideal_dev := mkDh sample_heap (mkDrv (mkVm ram (mkDev ∅ 0 false sample_disk)) no_blk).
#[local] Instance bus2 : VirtioBus ideal_dev := ideal_bus (slot 2) 2 1024 4 true.
#[local] Instance blk2 : VirtioBlk (slot 2) 2 1024 4 1 := ideal_blk (slot 2) 2 1024 4 true.

Lemma zeros_mapped a n m : mapped a n (zeros a n m).
Proof. apply Machine.mapped_zeros. Qed.

Lemma statics_phys : hh_virt_to_phys req_va = 0x40090300 ∧ hh_virt_to_phys status_va = 0x40090310 ∧
  hh_virt_to_phys src_va = 0x40090400 ∧ hh_virt_to_phys dst_va = 0x40090800.
Proof. done. Qed.

Lemma below_pages a n : 0 ≤ a → a + n ≤ 0x40500000 → clear_of five_pages a n.
Proof. intros Ha Hn x Hx (i & [Hi _]%elem_of_free_bits & Hxi). unfold page_pa, five_pages, PAGE_SIZE in *. cbn in *. lia. Qed.

Lemma ram_free : free_mapped five_pages ram.
Proof.
  intros x (i & [Hi _]%elem_of_free_bits & Hx). unfold page_pa, five_pages, PAGE_SIZE in Hx, Hi. cbn in Hx, Hi. apply (zeros_mapped 0x40500000 20480). lia.
Qed.

Lemma machine_env : drv_env req_va status_va (slot 2) 2 1024 4 1 five_pages machine.
Proof.
  destruct statics_phys as (E1 & E2 & _). split; rewrite ?E1, ?E2.
  - split; [done|]. split; [apply five_pages_wf|apply five_pressure].
  - exact ram_free.
  - split_and!; [apply mapped_put, zeros_mapped|by apply below_pages|lia|lia].
  - split_and!; [do 2 apply mapped_put; apply zeros_mapped|by apply below_pages|lia|lia].
  - unfold sep. lia.
  - intros i b. change (vb_disk (vm_dev (dr_vm (dh_drv machine))) i) with (sample_disk i). unfold sample_disk. intros E. destruct (_ && _); [|done].
    assert (replicate 512 (i + 7) = b) as <- by congruence. apply length_replicate.
Qed.

Definition mmio_ranges : list dtb_range := (λ i, mkRange (slot i) 0x200) <$> [0; 1; 2; 3].

Lemma other_slots i : 0 ≤ i < 32 → i ≠ 2 → 0 ≤ slot i < 2 ^ 64 ∧ no_block ideal_dev (slot i).
Proof.
  intros Hi Hne. split; [unfold slot; lia|]. intros d. left. cbn. unfold ideal_read. destruct (Z.eqb_spec (slot i) (slot 2)) as [E|E]; [unfold slot in E; lia|done].
Qed.

Lemma heap_abs : kh_abs sample_heap ∅.
Proof. exact (proj2 (kheap_init_correct thread_cpu sample_heap five_pages eq_refl five_pages_wf five_pressure)). Qed.

Lemma block_init_witness :
  wp (hal_block_init true mmio_ranges) (λ ok c' s', c' = thread_cpu ∧ kh_abs (dh_heap s') ∅ ∧
    init_post req_va status_va (slot 2) 2 1024 4 1 five_pages machine ok s') thread_cpu machine.
Proof.
  apply (block_init_spec req_va status_va (slot 2) 2 1024 4 1 [mkRange (slot 0) 0x200; mkRange (slot 1) 0x200] (mkRange (slot 2) 0x200) [mkRange (slot 3) 0x200]
    ∅ thread_cpu machine five_pages);
    [exact machine_env|exact heap_abs|done|done|repeat (apply Forall_cons_2; [by apply other_slots|]); apply Forall_nil_2|done|by right|lia|unfold slot; lia|lia].
Defined.

(** Evaluated: the third slot is set up with three pages, a sector is written
    and read back, one past the end is refused. *)
Definition session : M (drv_heap ideal_dev) (bool * bool * bool) :=
  b <- zoom dh_lens (hal_block_write req_va status_va 3 src_va 1) ;;
  d <- zoom dh_lens (hal_block_read req_va status_va 3 dst_va 1) ;;
  e <- zoom dh_lens (hal_block_read req_va status_va 4 dst_va 1) ;;
  ret (b, d, e).

Lemma session_evaluated :
  match hal_block_init true mmio_ranges thread_cpu machine with
  | Ret (ok, c, s) => (ok, dev_queue (dr_blk (dh_drv s)), k_queue_size (dr_blk (dh_drv s)),
      match session c s with
      | Ret (r, _, s) => (r, get 0x40090800 512 (vm_mem (dr_vm (dh_drv s))), k_last_used (dr_blk (dh_drv s)), k_capacity_sectors (dr_blk (dh_drv s)))
      | _ => (false, false, false, None, 0, 0)
      end)
  | _ => (false, mkVq 0 0 0 0, 0, (false, false, false, None, 0, 0))
  end = (true, mkVq 8 0x40500000 0x40501000 0x40502000, 8, (true, true, false, Some (replicate 512 5), 3, 4)).
Proof. vm_compute. reflexivity. Qed.

(** The result of a run that is known to return [true]. *)
Definition state_after {S} (m : M S bool) (c : cpu_state) (s : S) : S := match m c s with Ret (_, _, s') => s' | _ => s end.
Lemma state_after_post {S} (m : M S bool) Q c s : wp m Q c s → match m c s with Ret (ok, _, _) => ok | _ => false end = true → ∃ c', Q true c' (state_after m c s).
Proof. unfold wp, state_after. destruct (m c s) as [[[ok c'] s']| |]; [|done|done]. intros HQ ->. by exists c'. Qed.

Definition after_init : drv_heap ideal_dev := state_after (hal_block_init true mmio_ranges) thread_cpu machine.

Lemma init_evaluated : match hal_block_init true mmio_ranges thread_cpu machine with Ret (ok, _, _) => ok | _ => false end = true ∧
  dev_queue (dr_blk (dh_drv after_init)) = mkVq 8 0x40500000 0x40501000 0x40502000 ∧ k_queue_size (dr_blk (dh_drv after_init)) = 8.
Proof.
  unfold after_init, state_after. pose proof session_evaluated as E. revert E. destruct (hal_block_init true mmio_ranges thread_cpu machine) as [[[ok c] s]| |].
  - generalize (session c s). intros o E. exact (conj (f_equal (λ x, x.1.1.1) E) (conj (f_equal (λ x, x.1.1.2) E) (f_equal (λ x, x.1.2) E))).
  - intros E. discriminate (f_equal (λ x, x.1.1.1) E).
  - intros E. discriminate (f_equal (λ x, x.1.1.1) E).
Qed.

Lemma init_wp : wp (hal_block_init true mmio_ranges) (λ r c' s', c' = thread_cpu ∧ init_post req_va status_va (slot 2) 2 1024 4 1 five_pages machine r s') thread_cpu machine.
Proof.
  unfold hal_block_init, virtio_blk_init. wp_steps. change (k_ready (dr_blk (dh_drv machine))) with false. cbv iota.
  apply (probe_all_correct req_va status_va (slot 2) 2 1024 4 1 [mkRange (slot 0) 0x200; mkRange (slot 1) 0x200] (mkRange (slot 2) 0x200) [mkRange (slot 3) 0x200]
    thread_cpu machine five_pages);
    [repeat (apply Forall_cons_2; [by apply other_slots|]); apply Forall_nil_2..|done|by right|lia|unfold slot; lia|lia|exact machine_env|done].
Qed.

Lemma after_init_post : init_post req_va status_va (slot 2) 2 1024 4 1 five_pages machine true after_init.
Proof. destruct (state_after_post _ _ _ _ init_wp (proj1 init_evaluated)) as (c' & _ & Hpost). exact Hpost. Qed.

Lemma after_init_buffer v a n : hh_virt_to_phys v = a → 0x40090400 ≤ a → 0 < n → a + n ≤ 0x40100000 → mapped a n ram →
  drv_buffer req_va status_va (dr_blk (dh_drv after_init)) v n (mem_of (dh_drv after_init)).
Proof.
  intros Ev Ha Hn Ht Hm. destruct after_init_post as (_ & _ & _ & Hmk & _). split; [intros ->; by vm_compute in Ev; subst a|].
  rewrite Ev, (proj1 (proj2 init_evaluated)). destruct statics_phys as (-> & -> & _). split; cbn [q_num q_desc q_avail q_used]; [by apply Hmk|lia|unfold sep; lia..].
Qed.

Lemma block_roundtrip_witness :
  wp (w <- hal_block_write req_va status_va 3 src_va 1 ;; r <- hal_block_read req_va status_va 3 dst_va 1 ;; ret (w, r))
    (λ r c' s', r = (true, true) ∧ get 0x40090800 512 (mem_of s') = Some (replicate (Z.to_nat 512) 5)) thread_cpu (dh_drv after_init).
Proof.
  destruct after_init_post as (_ & Hdk & Hmem & _ & st' & _ & _ & _ & Hrd & _).
  eapply wp_mono; [apply (block_write_read_roundtrip req_va status_va (slot 2) 2 1024 4 1 3 1 src_va dst_va (replicate (Z.to_nat 512) 5) (replicate (Z.to_nat 512) 10) thread_cpu (dh_drv after_init))|].
  - exact Hrd.
  - apply (after_init_buffer src_va 0x40090400); [done|lia|lia|lia|]. do 3 apply mapped_put. intros x Hx. rewrite lookup_put, length_replicate, decide_True by lia.
    apply lookup_lt_is_Some_2. rewrite length_replicate. lia.
  - apply (after_init_buffer dst_va 0x40090800); [done|lia|lia|lia|]. do 4 apply mapped_put. apply zeros_mapped.
  - lia.
  - lia.
  - lia.
  - unfold SPIN_LIMIT. lia.
  - transitivity (get 0x40090400 512 (mem_of (dh_drv machine))); [|vm_compute; reflexivity]. apply get_ext. intros x Hx. unfold mem_of. apply Hmem.
    intros (i & [Hi _]%elem_of_free_bits & Hxi). unfold page_pa, five_pages, PAGE_SIZE in Hxi, Hi. cbn in Hxi, Hi. lia.
  - rewrite (sectors_ext sample_disk) by exact Hdk. vm_compute. reflexivity.
  - cbv beta. intros r c' s' (_ & -> & _ & Hg & _). split; [done|]. exact Hg.
Defined.

Lemma block_request_ends_witness :
  wp (hal_block_io (virtio_blk_io req_va status_va 0 2) 3 dst_va 1) (λ r c' s', c' = thread_cpu) thread_cpu (dh_drv after_init).
Proof.
  destruct after_init_post as (_ & _ & _ & Hmk & st' & _ & _ & _ & Hrd & _).
  eapply wp_mono; [apply (block_request_ends req_va status_va 0 2 3 dst_va 1 thread_cpu (dh_drv after_init))|].
  - intros d m a n Hm. cbn. unfold ideal_work. repeat case_match; try done. unfold served in *. repeat case_match; simplify_eq; by repeat apply mapped_put.
  - rewrite (proj2 (proj2 init_evaluated)). lia.
  - apply Hrd.
  - by intros r c' s' [-> _].
Defined.
End Machine.
