(* ===== verification/Mem.v ===== *)
(** * Memory routines (Kern/Kernel/mm/mem.c)

    The byte loops the compiler and the kernel call, over bytes of memory:
    [memcpy] and [memmove] against the assignment of a whole range, overlaps
    included, and [memcmp] against the lexicographic comparison. *)

From S2P Require Import Prelude Virtio VirtioQueue.

Definition load_byte (a : Z) : M bytes Z := m <- get_st ;; load (m !! a).
Definition store_byte (a v : Z) : M bytes unit := m <- get_st ;; _ <- load (m !! a) ;; put_st (<[a := v]> m).

Fixpoint memset_loop (p v i : Z) (n : nat) : M bytes unit :=
  match n with O => ret tt | S n => store_byte (p + i) v ;;; memset_loop p v (i + 1) n end.
Definition memset (dst c n : Z) : M bytes Z := memset_loop dst (u8 c) 0 (Z.to_nat n) ;;; ret dst.

(** [d[i] = s[i]] for [i], [i+1], ... *)
Fixpoint copy_up (d s i : Z) (n : nat) : M bytes unit :=
  match n with O => ret tt | S n => b <- load_byte (s + i) ;; store_byte (d + i) b ;;; copy_up d s (i + 1) n end.
Definition memcpy (dst src n : Z) : M bytes Z := copy_up dst src 0 (Z.to_nat n) ;;; ret dst.

(** [d[i-1] = s[i-1]] for [i = n] down to 1. *)
Fixpoint copy_down (d s : Z) (n : nat) : M bytes unit :=
  match n with
  | O => ret tt
  | S k => b <- load_byte (s + Z.of_nat k) ;; store_byte (d + Z.of_nat k) b ;;; copy_down d s k
  end.
Definition memmove (dst src n : Z) : M bytes Z :=
  if (dst =? src) || (n =? 0) then ret dst
  else if dst <? src then copy_up dst src 0 (Z.to_nat n) ;;; ret dst
  else copy_down dst src (Z.to_nat n) ;;; ret dst.

Fixpoint memcmp_loop (a b i : Z) (n : nat) : M bytes Z :=
  match n with
  | O => ret 0
  | S n => x <- load_byte (a + i) ;; y <- load_byte (b + i) ;; if negb (x =? y) then ret (x - y) else memcmp_loop a b (i + 1) n
  end.
Definition memcmp (a b n : Z) : M bytes Z := memcmp_loop a b 0 (Z.to_nat n).

Section proofs.
Implicit Types (m : bytes) (c : cpu_state).

Lemma wp_load_byte a v Q c m : m !! a = Some v → Q v c m → wp (load_byte a) Q c m.
Proof. intros E HQ. unfold load_byte. wp_steps. rewrite E. by wp_steps. Qed.
Lemma wp_store_byte a v Q c m : is_Some (m !! a) → Q tt c (<[a := v]> m) → wp (store_byte a v) Q c m.
Proof. intros [x E] HQ. unfold store_byte. wp_steps. rewrite E. by wp_steps. Qed.

(** One more byte at the end of an assigned range. *)
Lemma put_snoc d l b m : put d (l ++ [b]) m = <[d + Z.of_nat (length l) := b]> (put d l m).
Proof.
  apply map_eq. intros x. rewrite lookup_put, length_app. cbn [length]. destruct (decide (x = d + Z.of_nat (length l))) as [->|Hne].
  - rewrite lookup_insert_eq, decide_True by lia. rewrite lookup_app_r by lia. by replace (Z.to_nat _ - length l)%nat with 0%nat by lia.
  - rewrite lookup_insert_ne by done. rewrite lookup_put. repeat case_decide; try lia; [|done]. by rewrite lookup_app_l by lia.
Qed.

Lemma memset_loop_correct p v n : ∀ k m c, mapped p (Z.of_nat (k + n)) m →
  wp (memset_loop p v (Z.of_nat k) n) (λ _ c' m', c' = c ∧ m' = put p (replicate (k + n) v) m) c (put p (replicate k v) m).
Proof.
  induction n as [|n IH]; intros k m c Hm; cbn [memset_loop]; [wp_steps; by rewrite Nat.add_0_r|]. wp_step.
  apply wp_store_byte; [apply mapped_put with (a := p) (n := Z.of_nat (k + S n)); [done|lia]|].
  pose proof (put_snoc p (replicate k v) v m) as E. rewrite length_replicate in E. rewrite <- E. rewrite <- replicate_S_end.
  replace (Z.of_nat k + 1) with (Z.of_nat (S k)) by lia. replace (k + S n)%nat with (S k + n)%nat in * by lia. by apply IH.
Qed.

Lemma take_snoc (l : list Z) k b : l !! k = Some b → take (S k) l = take k l ++ [b].
Proof. apply take_S_r. Qed.

(** Upwards: right when the destination does not start inside the source. *)
Lemma copy_up_correct d s data n : ∀ k m c, length data = (k + n)%nat → get s (k + n) m = Some data → mapped d (Z.of_nat (k + n)) m →
  d ≤ s ∨ s + Z.of_nat (k + n) ≤ d →
  wp (copy_up d s (Z.of_nat k) n) (λ _ c' m', c' = c ∧ m' = put d data m) c (put d (take k data) m).
Proof.
  induction n as [|n IH]; intros k m c Hl Hg Hm Hs; cbn [copy_up]; [wp_steps; rewrite take_ge by lia; done|].
  pose proof (proj2 (proj1 (get_some _ _ _ _) Hg) k ltac:(lia)) as Hk. destruct (lookup_lt_is_Some_2 data k ltac:(lia)) as [b Hb]. rewrite Hb in Hk.
  wp_step. apply (wp_load_byte _ b). { rewrite lookup_put, length_take, decide_False by lia. done. }
  wp_step. apply wp_store_byte; [apply mapped_put with (a := d) (n := Z.of_nat (k + S n)); [done|lia]|].
  pose proof (put_snoc d (take k data) b m) as E. rewrite length_take_le, <- take_snoc in E by (done || lia). rewrite <- E.
  replace (Z.of_nat k + 1) with (Z.of_nat (S k)) by lia. replace (k + S n)%nat with (S k + n)%nat in * by lia. by apply IH.
Qed.

(** Downwards: right when the source does not start inside the destination. *)
Lemma copy_down_correct d s data n : ∀ m c, (n ≤ length data)%nat → get s (length data) m = Some data → mapped d (Z.of_nat (length data)) m → s < d →
  wp (copy_down d s n) (λ _ c' m', c' = c ∧ m' = put d data m) c (put (d + Z.of_nat n) (drop n data) m).
Proof.
  induction n as [|k IH]; intros m c Hn Hg Hm Hs; cbn [copy_down]; [wp_steps; by rewrite Z.add_0_r, drop_0|].
  pose proof (proj2 (proj1 (get_some _ _ _ _) Hg) k ltac:(lia)) as Hk. destruct (lookup_lt_is_Some_2 data k ltac:(lia)) as [b Hb]. rewrite Hb in Hk.
  wp_step. apply (wp_load_byte _ b). { rewrite lookup_put, decide_False by lia. done. }
  wp_step. apply wp_store_byte; [apply mapped_put with (a := d) (n := Z.of_nat (length data)); [done|lia]|].
  pose proof (drop_S data b k Hb) as E. specialize (IH m c ltac:(lia) Hg Hm Hs). rewrite E in IH. cbn [put] in IH.
  replace (d + Z.of_nat k + 1) with (d + Z.of_nat (S k)) in IH by lia. exact IH.
Qed.

Lemma put_self d data m : get d (length data) m = Some data → put d data m = m.
Proof.
  intros Hg. apply map_eq. intros x. rewrite lookup_put. case_decide as Hx; [|done]. apply get_some in Hg as [_ Hg].
  rewrite <- (Hg (Z.to_nat (x - d))) by lia. f_equal. lia.
Qed.

Lemma memcpy_correct dst src n data c m : 0 ≤ n → get src (Z.to_nat n) m = Some data → mapped dst n m → dst ≤ src ∨ src + n ≤ dst →
  wp (memcpy dst src n) (λ r c' m', c' = c ∧ r = dst ∧ m' = put dst data m) c m.
Proof.
  intros Hn Hg Hm Hs. pose proof (proj1 (proj1 (get_some _ _ _ _) Hg)) as Hl. unfold memcpy. wp_step.
  eapply wp_mono; [apply (copy_up_correct dst src data (Z.to_nat n) 0 m c); try done; cbn [Nat.add]; rewrite ?Z2Nat.id by lia; done|].
  cbv beta. intros _ c' m' [-> ->]. by wp_steps.
Qed.

(** x *)
(** C32: memmove copies n bytes from src to dst whatever the overlap of the
    two ranges: afterwards dst holds what src held before, and no byte outside
    dst has changed. *)
Theorem memmove_spec dst src n data c m : 0 ≤ n → get src (Z.to_nat n) m = Some data → mapped dst n m →
  wp (memmove dst src n) (λ r c' m', c' = c ∧ r = dst ∧ m' = put dst data m) c m.
Proof.
  intros Hn Hg Hm. pose proof (proj1 (proj1 (get_some _ _ _ _) Hg)) as Hl. unfold memmove.
  destruct (Z.eqb_spec dst src) as [->|Hne]; cbn [orb]; [wp_steps; split_and!; try done; symmetry; apply put_self; by rewrite Hl|].
  destruct (Z.eqb_spec n 0) as [->|Hn0]; [wp_steps; split_and!; try done; by destruct data|].
  destruct (Z.ltb_spec dst src) as [Hlt|Hge].
  - eapply wp_mono; [apply (memcpy_correct dst src n data c m); try done; lia|]. done.
  - wp_step. replace m with (put (dst + Z.of_nat (Z.to_nat n)) (drop (Z.to_nat n) data) m) at 1 by (by rewrite drop_ge by lia).
    eapply wp_mono; [apply (copy_down_correct dst src data (Z.to_nat n) m c); [lia|by rewrite Hl|rewrite Hl; by rewrite Z2Nat.id|lia]|].
    cbv beta. intros _ c' m' [-> ->]. by wp_steps.
Qed.

Lemma memset_correct dst v n c m : 0 ≤ n → mapped dst n m → wp (memset dst v n) (λ r c' m', c' = c ∧ r = dst ∧ m' = put dst (replicate (Z.to_nat n) (u8 v)) m) c m.
Proof.
  intros Hn Hm. unfold memset. wp_step. eapply wp_mono; [apply (memset_loop_correct dst (u8 v) (Z.to_nat n) 0 m c); cbn [Nat.add]; by rewrite Z2Nat.id|].
  cbv beta. intros _ c' m' [-> ->]. by wp_steps.
Qed.

(** The comparison a caller relies on: the difference of the first bytes that
    differ, 0 when none does. *)
Fixpoint first_difference (l l' : list Z) : Z :=
  match l, l' with x :: l, y :: l' => if decide (x = y) then first_difference l l' else x - y | _, _ => 0 end.

Lemma memcmp_correct a b n l l' c m : get a (Z.to_nat n) m = Some l → get b (Z.to_nat n) m = Some l' →
  wp (memcmp a b n) (λ r c' m', c' = c ∧ m' = m ∧ r = first_difference l l' ∧ (r = 0 ↔ l = l')) c m.
Proof.
  unfold memcmp. rewrite !get_some. intros [Hl Ha] [Hl' Hb].
  assert (∀ k j, (k + j)%nat = Z.to_nat n → wp (memcmp_loop a b (Z.of_nat k) j) (λ r c' m', c' = c ∧ m' = m ∧ r = first_difference (drop k l) (drop k l')) c m) as Hloop.
  { intros k j. revert k. induction j as [|j IH]; intros k Hk; cbn [memcmp_loop]; [wp_steps; by rewrite drop_ge by lia|].
    destruct (lookup_lt_is_Some_2 l k ltac:(lia)) as [x Hx], (lookup_lt_is_Some_2 l' k ltac:(lia)) as [y Hy].
    specialize (Ha k ltac:(lia)). specialize (Hb k ltac:(lia)). rewrite Hx in Ha. rewrite Hy in Hb. wp_step. apply (wp_load_byte _ x); [done|].
    wp_step. apply (wp_load_byte _ y); [done|]. rewrite (drop_S l x k Hx), (drop_S l' y k Hy). cbn [first_difference].
    destruct (Z.eqb_spec x y) as [->|Hne]; cbn [negb]; [rewrite decide_True by done|rewrite decide_False by done; by wp_steps].
    replace (Z.of_nat k + 1) with (Z.of_nat (S k)) by lia. apply IH. lia. }
  eapply wp_mono; [apply (Hloop 0%nat (Z.to_nat n)); lia|]. cbv beta. rewrite !drop_0. intros r c' m' (-> & -> & ->). split_and!; try done.
  clear Ha Hb Hloop. assert (length l = length l') as E by lia. clear Hl Hl'. revert l' E. induction l as [|x l IH]; intros [|y l'] E; try done.
  cbn [first_difference]. injection E as E. case_decide as Hxy; [subst y; rewrite IH by done; split; [by intros ->|by intros [= ->]]|].
  split; [lia|]. by intros [= ? _].
Qed.
End proofs.

(** A range moved over itself by one byte, in both directions. *)
Example memmove_overlaps :
  match (memmove 11 10 4 ;;; memmove 20 21 3) (mkCpu 0 0) (put 10 [1; 2; 3; 4; 0] (put 20 [9; 5; 6; 7] ∅)) with
  | Ret (_, _, m) => (get 10 5 m, get 20 4 m)
  | _ => (None, None)
  end = (Some [1; 1; 2; 3; 4], Some [5; 6; 7; 7]).
Proof. vm_compute. reflexivity. Qed.

Lemma memmove_witness :
  wp (memmove 11 10 4) (λ r c' m', get 11 4 m' = Some [1; 2; 3; 4]) (mkCpu 0 0) (put 10 [1; 2; 3; 4; 0] ∅).
Proof.
  eapply wp_mono; [apply (memmove_spec 11 10 4 [1; 2; 3; 4]); [lia|done|]|].
  - intros x Hx. apply (elem_of_dom (D := gset Z)). replace x with (11 + (x - 11)) by lia. assert (x - 11 = 0 ∨ x - 11 = 1 ∨ x - 11 = 2 ∨ x - 11 = 3) as Hc by lia.
    destruct Hc as [->|[->|[->| ->]]]; by vm_compute.
  - cbv beta. intros r c' m' (_ & _ & ->). exact (get_put_same 11 [1; 2; 3; 4] _).
Defined.
