(* ===== verification/CoreBlock.v ===== *)
(** * The block calls of the services (Kern/Kernel/api/core_kernel_api.c)

    Reads and writes of any number of sectors through bounce pages of the heap,
    with the I/O ceiling of the task, the intent of the running thread and the
    throttling of background transfers.  Memory that callers and device share
    is the byte memory of the driver, reached through the direct map. *)

From S2P Require Import Prelude Irq Addr Platform Pmm KHeap ObjHeap Cap Task Sched Ipc CoreApi Virtio Mem BlkDriver.

Definition KS_IO_INTENT_LATENCY : Z := 1.
Definition KS_IO_INTENT_THROUGHPUT : Z := 2.
Definition KS_IO_INTENT_BACKGROUND : Z := 3.

(** The services' state and the block driver. *)
Record cb_state (H D : Type) := mkCb { cb_core : core_state H; cb_drv : drv_state D }.
Arguments mkCb {H D}.
Arguments cb_core {H D}.
Arguments cb_drv {H D}.

Definition cka_sched_intent_from_io (io_intent : Z) : Z :=
  intent_code (if io_intent =? KS_IO_INTENT_LATENCY then LATENCY
    else if io_intent =? KS_IO_INTENT_THROUGHPUT then THROUGHPUT
    else if io_intent =? KS_IO_INTENT_BACKGROUND then BACKGROUND else INTERACTIVE).

Section ops.
Context {H : Type} {OH : ObjHeap H} {D : Type} {BUS : VirtioBus D} (req_va status_va : Z).
Abbreviation CB := (M (cb_state H D)).
(** What the other threads do from the switch [yield] made until this thread
    runs again, and the stack pointer [yield] saves. *)
Context (elsewhere : resume → CB unit) (sp : Z).

Definition core_lens : lens (cb_state H D) (core_state H) := mkLens cb_core (λ x s, mkCb x (cb_drv s)).
Definition drv_lens : lens (cb_state H D) (drv_state D) := mkLens cb_drv (λ x s, mkCb (cb_core s) x).
Definition on_core {A} (m : M (core_state H) A) : CB A := zoom core_lens m.
Definition on_drv {A} (m : M (drv_state D) A) : CB A := zoom drv_lens m.
Definition heap_call {A} (m : M kheap_state A) : CB A := on_core (on_heap m).
Definition sched_call {A} (m : M sched_state A) : CB A := on_core (on_sched m).

(** [memcpy] on virtual addresses. *)
Definition vm_bytes : lens (vmach D) bytes := mkLens vm_mem (λ m s, mkVm m (vm_dev s)).
Definition copy_virtual (dst src n : Z) : CB unit :=
  on_drv (drv_vm (zoom vm_bytes (memcpy (hh_virt_to_phys dst) (hh_virt_to_phys src) n))) ;;; ret tt.

(** [inl]: a status; [inr]: sector size and capacity. *)
Definition cka_block_get_info (out : bool) : CB (Z + Z * Z) :=
  if negb out then ret (inl KS_STATUS_INVALID_ARG)
  else
    ok <- on_drv hal_block_ready ;;
    if negb ok then ret (inl KS_STATUS_NOT_SUPPORTED)
    else a <- on_drv hal_block_sector_size ;; b <- on_drv hal_block_capacity_sectors ;; ret (inr (a, b)).

(** One turn of the loop, up to the throttling: [Some st] leaves it with
    status [st]. *)
Definition read_chunk (lba buf sector_size chunk offset : Z) : CB (option Z) :=
  let chunk_bytes := u64 (chunk * sector_size) in
  let pages := u64 (chunk_bytes + 0xFFF) / 0x1000 in
  tmp <- heap_call (kheap_alloc_pages (u32 pages)) ;;
  match tmp with
  | None => ret (Some KS_STATUS_OUT_OF_MEMORY)
  | Some tmp =>
    ok <- on_drv (hal_block_read req_va status_va (u64 (lba + offset)) tmp chunk) ;;
    if negb ok then heap_call (kheap_free_pages tmp (u32 pages)) ;;; ret (Some KS_STATUS_INTERNAL)
    else
      copy_virtual (u64 (buf + u64 (offset * sector_size))) tmp chunk_bytes ;;;
      heap_call (kheap_free_pages tmp (u32 pages)) ;;;
      ret None
  end.

Definition write_chunk (lba buf sector_size chunk offset : Z) : CB (option Z) :=
  let chunk_bytes := u64 (chunk * sector_size) in
  let pages := u64 (chunk_bytes + 0xFFF) / 0x1000 in
  tmp <- heap_call (kheap_alloc_pages (u32 pages)) ;;
  match tmp with
  | None => ret (Some KS_STATUS_OUT_OF_MEMORY)
  | Some tmp =>
    copy_virtual tmp (u64 (buf + u64 (offset * sector_size))) chunk_bytes ;;;
    ok <- on_drv (hal_block_write req_va status_va (u64 (lba + offset)) tmp chunk) ;;
    if negb ok then heap_call (kheap_free_pages tmp (u32 pages)) ;;; ret (Some KS_STATUS_INTERNAL)
    else heap_call (kheap_free_pages tmp (u32 pages)) ;;; ret None
  end.

(** [n] calls of [yield], with what runs in between. *)
Fixpoint throttle_yields (n : nat) : CB unit :=
  match n with O => ret tt | S n => r <- sched_call (yield sp) ;; elsewhere r ;;; throttle_yields n end.
Definition THROTTLE_YIELDS : nat := Z.to_nat 2000.

(** [while (remaining > 0)]; every turn takes at least one sector. *)
Fixpoint block_loop (chunk_op : Z → Z → CB (option Z)) (intent max_chunk remaining offset : Z) (fuel : nat) : CB Z :=
  match fuel with
  | O => fault
  | S fuel =>
    if negb (0 <? remaining) then ret KS_STATUS_OK
    else
      let chunk := if max_chunk <? remaining then max_chunk else remaining in
      r <- chunk_op chunk offset ;;
      match r with
      | Some st => ret st
      | None =>
        when (intent =? KS_IO_INTENT_BACKGROUND) (throttle_yields THROTTLE_YIELDS) ;;;
        block_loop chunk_op intent max_chunk (remaining - chunk) (u32 (offset + chunk)) fuel
      end
  end.

(** [cka_block_read_intent] and [cka_block_write_intent] differ in the body of
    the loop and in the direction that is charged. *)
Definition block_transfer (is_write : bool) (lba count buf buf_len intent : Z) : CB Z :=
  if (buf =? 0) || (count =? 0) then ret KS_STATUS_INVALID_ARG
  else
    ready <- on_drv hal_block_ready ;;
    if negb ready then ret KS_STATUS_NOT_SUPPORTED
    else
      sector_size <- on_drv hal_block_sector_size ;;
      let need := u64 (count * sector_size) in
      if buf_len <? need then ret KS_STATUS_INVALID_ARG
      else
        task <- on_core cka_current_task ;;
        ok <- (if task =? 0 then ret true
               else now <- sched_call sched_ticks_now ;; on_core (task_call task (λ t, task_allow_io t need is_write now))) ;;
        if negb ok then ret KS_STATUS_BUSY
        else
          cur <- sched_call sched_current ;;
          old_intent <- (if cur =? 0 then ret (intent_code INTERACTIVE) else t <- sched_call (get_thread cur) ;; ret (th_intent t)) ;;
          when (negb (cur =? 0)) (sched_call (sched_set_thread_intent cur (cka_sched_intent_from_io intent))) ;;;
          let max_chunk := if intent =? KS_IO_INTENT_THROUGHPUT then 8 else if intent =? KS_IO_INTENT_BACKGROUND then 1 else count in
          status <- block_loop ((if is_write then write_chunk else read_chunk) lba buf sector_size) intent max_chunk count 0 (S (Z.to_nat count)) ;;
          when ((status =? KS_STATUS_OK) && negb (task =? 0))
            (now <- sched_call sched_ticks_now ;;
             on_core (task_update task (λ t, task_account_io t need is_write (cka_sched_intent_from_io intent) now))) ;;;
          when (negb (cur =? 0)) (sched_call (sched_set_thread_intent cur old_intent)) ;;;
          ret status.

Definition cka_block_read_intent (lba count buf buf_len intent : Z) : CB Z := block_transfer false lba count buf buf_len intent.
Definition cka_block_read (lba count buf buf_len : Z) : CB Z := cka_block_read_intent lba count buf buf_len KS_IO_INTENT_LATENCY.
Definition cka_block_write_intent (lba count buf buf_len intent : Z) : CB Z := block_transfer true lba count buf buf_len intent.
Definition cka_block_write (lba count buf buf_len : Z) : CB Z := cka_block_write_intent lba count buf buf_len KS_IO_INTENT_LATENCY.
End ops.
