(* ===== verification/CoreBlockSpec.v ===== *)
(** * The transfer loops of the block calls

    A transfer of any size arrives whole, through bounce pages that are back in
    the page manager afterwards, and its errors are told apart.  The calls
    around the loops are in CoreBlockCalls.v. *)

From S2P Require Import Prelude Irq Addr Platform Pmm KHeap ObjHeap Cap Task Sched Ipc CoreApi CoreCalls Virtio VirtioQueue VirtioXfer Mem HeapPages.
From S2P Require Import BlkDriver BlkSpec BlkSetup CoreBlock.

(** ** Ranges of sectors *)

Lemma sectors_app dk a n k x y : 0 ≤ n → 0 ≤ k → sectors dk a n = Some x → sectors dk (a + n) k = Some y → sectors dk a (n + k) = Some (x ++ y).
Proof.
  unfold sectors. intros Hn Hk. destruct (mapM dk (seqZ a n)) as [l|] eqn:E1; [|done]. destruct (mapM dk (seqZ (a + n) k)) as [l'|] eqn:E2; [|done].
  intros [= <-] [= <-]. rewrite seqZ_app by done. apply mapM_Some in E1, E2. rewrite (proj2 (mapM_Some dk (seqZ a n ++ seqZ (a + n) k) (l ++ l'))) by (by apply Forall2_app).
  cbn. by rewrite concat_app.
Qed.

Lemma sectors_part dk a n b k : a ≤ b → 0 ≤ k → b + k ≤ a + n → sectors dk b k = None → sectors dk a n = None.
Proof.
  unfold sectors. intros Ha Hk Hn. rewrite !fmap_None, !eq_None_not_Some. intros Hno Hs. apply Hno. rewrite mapM_is_Some in *. rewrite Forall_forall in *.
  intros i Hi. apply Hs. rewrite elem_of_seqZ in *. lia.
Qed.

(** Writing two adjacent ranges is writing their concatenation. *)
Lemma write_sectors_app dk a n x y i : Z.of_nat (length x) = 512 * n → Z.of_nat (length y) mod 512 = 0 → 0 ≤ n →
  write_sectors (write_sectors dk a x) (a + n) y i = write_sectors dk a (x ++ y) i.
Proof.
  intros Hx Hy Hn. unfold write_sectors. rewrite length_app, Nat2Z.inj_add, Hx. replace (512 * n) with (n * 512) by lia. rewrite Z.div_mul by lia.
  rewrite Z.div_add_l by lia. set (k := Z.of_nat (length y) / 512). assert (Z.of_nat (length y) = 512 * k) as Ek by (pose proof (Z.div_mod (Z.of_nat (length y)) 512); lia).
  repeat case_decide; try lia; [| |done].
  - rewrite drop_app_ge by lia. do 3 f_equal. lia.
  - rewrite drop_app_le by lia. rewrite take_app_le; [done|]. rewrite length_drop. lia.
Qed.

Section transfers.
Context {H : Type} {OH : ObjHeap H} {D : Type} {BUS : VirtioBus D} (req_va status_va : Z).
Context (base version qmax cap : Z) (latency : nat) {VB : VirtioBlk base version qmax cap latency}.
Context (Hlat : (latency ≤ Z.to_nat (SPIN_LIMIT + 1))%nat).
Implicit Types (c : cpu_state) (s : cb_state H D).

Abbreviation heap_of s := (co_heap (cb_core s)).
Abbreviation bytes_of s := (mem_of (cb_drv s)).
Abbreviation blk_of s := (dr_blk (cb_drv s)).
Abbreviation sectors_of s := (disk_of base version qmax cap latency (cb_drv s)).

(** Heap, page manager [st] and driver as a transfer finds and leaves them. *)
Record io_ok (st : pmm_state) (h : gmap Z Z) s : Prop := {
  io_heap : heap_at (heap_of s) st;
  io_abs : kh_abs (heap_of s) h;
  io_drv : drv_ready req_va status_va base version qmax cap latency (cb_drv s);
  io_clear : queue_clear req_va status_va st (blk_of s);
  io_free : free_mapped st (bytes_of s);
}.

(** The caller's buffer: in the direct map, apart from queue and free pages. *)
Record user_buffer (st : pmm_state) (b : virtio_blk_dev) (buf n : Z) (m : bytes) : Prop := {
  ub_drv : drv_buffer req_va status_va b buf n m;
  ub_clear : clear_of st (hh_virt_to_phys buf) n;
  ub_phys : ∀ k, 0 ≤ k < n → hh_virt_to_phys (buf + k) = hh_virt_to_phys buf + k;
  ub_range : 0 ≤ buf ∧ buf + n ≤ 2 ^ 64;
}.

(** What moves: the bytes of [P], of the queue and of free pages; the heap's
    page manager; the disk. *)
Record io_frame (P : Z → Prop) (st : pmm_state) s s' : Prop := {
  fr_blk : same_driver (blk_of s) (blk_of s');
  fr_mapped : ∀ a n, mapped a n (bytes_of s) → mapped a n (bytes_of s');
  fr_bytes : ∀ x, ¬ P x → outside_queue req_va status_va (blk_of s) x → ¬ free_bytes st x → bytes_of s' !! x = bytes_of s !! x;
  fr_sched : sched_of (cb_core s') = sched_of (cb_core s);
}.

Lemma free_bytes_same st st' x : same_window st st' → free_set st' = free_set st → free_bytes st x ↔ free_bytes st' x.
Proof. intros W E. unfold free_bytes. split; intros (i & Hi & Hx); exists i; (rewrite (same_window_pa st st') in * by done); by rewrite E in *. Qed.

Lemma queue_clear_same st st' b b' : same_window st st' → free_set st' ⊆ free_set st → same_driver b b' → queue_clear req_va status_va st b → queue_clear req_va status_va st' b'.
Proof.
  intros W E Eb (C1 & C2 & C3 & C4 & C5). rewrite Eb. unfold queue_clear. split_and!; by eapply clear_of_sub.
Qed.

(** A run of free pages is a buffer for the driver. *)
Lemma bounce_buffer st h s i p n : io_ok st h s → in_window st i p → run i p ⊆ free_set st → 0 < n ≤ PAGE_SIZE * p →
  drv_buffer req_va status_va (blk_of s) (va st i) n (bytes_of s) ∧ hh_virt_to_phys (va st i) = page_pa st i.
Proof.
  intros [Hst _ Hrd (C1 & C2 & C3 & C4 & C5) Hfm] Hi Hr Hn. pose proof Hst as (_ & (Hsh & _) & _). pose proof Hi as (Hi0 & Hp & Hit).
  assert (hh_virt_to_phys (va st i) = page_pa st i) as E by (apply va_phys; [done|lia]). split; [|done].
  pose proof (ar_num _ _ _ (lk_areas _ _ _ _ _ _ _ _ _ _ (dd_linked _ _ _ _ _ _ _ _ Hrd))) as Hq. destruct (page_pa_window st i Hsh ltac:(lia)) as [B B'].
  rewrite WIN_END_eq in B'. unfold CAPAZ_RAM_BASE, PAGE_SIZE in B, B'. split; [apply va_nonnull; [done|lia]|]. rewrite E.
  split; try lia; [|by apply (run_sep st i p); (done || lia)..]. apply (mapped_sub _ _ _ _ _ (run_mapped st i p _ Hi Hr Hfm)); lia.
Qed.

(** Taking and giving back bounce pages. *)
Lemma wp_take_bounce p c s st Q : heap_at (heap_of s) st → irq_depth c = 0 → 1 ≤ p < 2 ^ 32 →
  (∀ r s' st', heap_at (heap_of s') st' → pages_only (heap_of s) (heap_of s') → same_window st st' → cb_drv s' = cb_drv s → sched_of (cb_core s') = sched_of (cb_core s) →
    match r with
    | Some v => ∃ i, v = va st i ∧ in_window st i p ∧ run i p ⊆ free_set st ∧ free_set st' = free_set st ∖ run i p
    | None => st' = st ∧ no_run st p
    end → Q r c s') → wp (heap_call (kheap_alloc_pages p)) Q c s.
Proof.
  intros Hs Hd Hp HQ. unfold heap_call, on_core, on_heap. wp_steps. cbn [lget lset core_lens kheap_lens]. eapply wp_mono; [by apply (take_pages p c (heap_of s) st)|].
  cbv beta. intros r c' hp (-> & Hpo & st' & Hst' & Hw & Hr). by apply (HQ r _ st').
Qed.

Lemma wp_give_bounce i p c s st st1 Q : heap_at (heap_of s) st1 → irq_depth c = 0 → same_window st st1 → pmm_wf st → in_window st i p → run i p ⊆ free_set st →
  free_set st1 = free_set st ∖ run i p →
  (∀ s' st', heap_at (heap_of s') st' → pages_only (heap_of s) (heap_of s') → same_window st st' → free_set st' = free_set st → cb_drv s' = cb_drv s →
    sched_of (cb_core s') = sched_of (cb_core s) → Q tt c s') → wp (heap_call (kheap_free_pages (va st i) p)) Q c s.
Proof.
  intros Hs Hd W [Hsh Hmeta] Hi Hr Hf HQ. unfold heap_call, on_core, on_heap. wp_steps. cbn [lget lset core_lens kheap_lens].
  pose proof W as (_ & _ & Et & Em & Emp). assert (∀ j, page_pa st1 j = page_pa st j) as Epa by (intros; by apply same_window_pa).
  replace (va st i) with (va st1 i) by (unfold va; by rewrite Epa). eapply wp_mono; [apply (give_pages i p c (heap_of s) st1); try done|].
  - unfold in_window. by rewrite Et.
  - intros j Hj. rewrite Epa. unfold in_metadata. rewrite Em, Emp. by apply Hmeta, Hr.
  - cbv beta. intros [] c' hp (-> & Hpo & st' & Hst' & Hw & Hf'). apply (HQ _ st'); try done; [by transitivity st1|]. rewrite Hf', Hf.
    apply set_eq. intros x. rewrite elem_of_union, elem_of_difference. destruct (decide (x ∈ run i p)); [|tauto]. split; [by intros _; apply Hr|tauto].
Qed.

(** The pages of a chunk of [n] sectors. *)
Definition chunk_pages (n : Z) : Z := (512 * n + 4095) / 4096.
Lemma chunk_pages_eq n : 0 < n → 512 * n < 2 ^ 32 → u64 (n * 512) = 512 * n ∧ u32 (u64 (u64 (n * 512) + 0xFFF) / 0x1000) = chunk_pages n ∧
  1 ≤ chunk_pages n < 2 ^ 32 ∧ 512 * n ≤ PAGE_SIZE * chunk_pages n.
Proof.
  intros Hn Hm. rewrite (u64_small (n * 512)) by lia. replace (n * 512) with (512 * n) by lia. rewrite u64_small by lia. unfold chunk_pages, PAGE_SIZE.
  change 0xFFF with 4095. change 0x1000 with 4096. pose proof (Z.div_mod (512 * n + 4095) 4096 ltac:(lia)). pose proof (Z.mod_pos_bound (512 * n + 4095) 4096 ltac:(lia)).
  rewrite u32_small by lia. split_and!; (done || lia).
Qed.

(** After a turn: everything as before but the bytes of [P] and the disk. *)
Definition turn_ok (P : Z → Prop) (st : pmm_state) (h : gmap Z Z) s s' : Prop :=
  io_frame P st s s' ∧ ∃ st', io_ok st' h s' ∧ same_window st st' ∧ free_set st' = free_set st.

Lemma turn_done P st st' h s s' : io_ok st h s → heap_at (heap_of s') st' → pages_only (heap_of s) (heap_of s') → same_window st st' → free_set st' = free_set st →
  drv_ready req_va status_va base version qmax cap latency (cb_drv s') → io_frame P st s s' → turn_ok P st h s s'.
Proof.
  intros [Hst Ha Hrd Hcl Hfm] Hst' Hpo W Hf Hrd' Hfr. split; [done|]. exists st'. split; [|done]. split; try done.
  - eapply (heap_pages_frame (heap_of s)); try done. by rewrite Hf.
  - eapply queue_clear_same; [exact W|by rewrite Hf|apply Hfr|done].
  - intros x Hx. apply (free_bytes_same st st') in Hx; [|done..]. destruct (fr_mapped _ _ _ _ Hfr x 1 ltac:(intros y Hy; replace y with x by lia; by apply Hfm) x ltac:(lia)) as [b Hb]. by exists b.
Qed.

(** Bytes written apart from the rings leave driver and device in agreement. *)
Definition off_rings (b : virtio_blk_dev) (a n : Z) : Prop :=
  let q := dev_queue b in sep a n (q_avail q) (4 + 2 * q_num q) ∧ sep a n (q_used q) (4 + 8 * q_num q).

Lemma drv_ready_put (d : drv_state D) a l : drv_ready req_va status_va base version qmax cap latency d → off_rings (dr_blk d) a (Z.of_nat (length l)) →
  drv_ready req_va status_va base version qmax cap latency (mkDrv (mkVm (put a l (mem_of d)) (vm_dev (dr_vm d))) (dr_blk d)).
Proof.
  intros [Hr Em Es [L1 L2 (M1 & M2 & M3 & M4 & M5) L4 L5 L6 L7 L8] El] [S1 S2]. pose proof (ar_num _ _ _ L2) as Hq. unfold sep in *. split; try done. split; try done.
  - unfold areas_mapped. split_and!; by apply mapped_put.
  - cbn [dr_blk dr_vm vm_mem vm_dev]. rewrite field_put_list by lia. exact L4.
  - cbn [dr_blk dr_vm vm_mem vm_dev]. rewrite field_put_list by lia. exact L5.
Qed.

Lemma wp_copy_virtual dst src n data Q c s : 0 ≤ n → get (hh_virt_to_phys src) (Z.to_nat n) (bytes_of s) = Some data → mapped (hh_virt_to_phys dst) n (bytes_of s) →
  sep (hh_virt_to_phys dst) n (hh_virt_to_phys src) n → drv_ready req_va status_va base version qmax cap latency (cb_drv s) → off_rings (blk_of s) (hh_virt_to_phys dst) n →
  (∀ d', drv_ready req_va status_va base version qmax cap latency d' → dr_blk d' = blk_of s → mem_of d' = put (hh_virt_to_phys dst) data (bytes_of s) →
    (∀ i, disk_of base version qmax cap latency d' i = sectors_of s i) → Q tt c (mkCb (cb_core s) d')) → wp (copy_virtual dst src n) Q c s.
Proof.
  intros Hn Hg Hm Hs Hrd Ho HQ. pose proof (proj1 (proj1 (get_some _ _ _ _) Hg)) as Hl. unfold copy_virtual, on_drv, drv_vm. do 4 wp_step. cbn [lget lset drv_lens vm_bytes].
  eapply wp_mono; [apply (memcpy_correct _ _ n data); [done|exact Hg|exact Hm|unfold sep in Hs; lia]|]. cbv beta. intros _ c' m (-> & _ & ->). wp_steps.
  apply HQ; try done. apply drv_ready_put; [done|]. rewrite Hl, Z2Nat.id by done. exact Ho.
Qed.

Abbreviation in_range a n x := (a ≤ x < a + n).

(** The part of a caller's buffer that a chunk fills. *)
Lemma user_part st b buf count n o (m : bytes) : user_buffer st b buf (512 * count) m → 0 ≤ o → 0 < n → o + n ≤ count →
  hh_virt_to_phys (buf + 512 * o) = hh_virt_to_phys buf + 512 * o ∧ mapped (hh_virt_to_phys buf + 512 * o) (512 * n) m ∧
  clear_of st (hh_virt_to_phys buf + 512 * o) (512 * n) ∧ off_rings b (hh_virt_to_phys buf + 512 * o) (512 * n).
Proof.
  intros [[Hnn [B1 B2 B3 B4 B5 B6 B7]] Hbc Hbp Hbr] Ho Hn Hon. split_and!; [by apply Hbp; lia|apply (mapped_sub _ _ _ _ _ B1); lia|intros x Hx; apply Hbc; lia|].
  unfold off_rings, sep in *. lia.
Qed.

Lemma read_chunk_correct st h lba buf count n o c s : io_ok st h s → irq_depth c = 0 → user_buffer st (blk_of s) buf (512 * count) (bytes_of s) →
  0 ≤ o → 0 < n → o + n ≤ count → 512 * count < 2 ^ 32 → 0 ≤ lba → lba + count ≤ 2 ^ 64 →
  wp (read_chunk req_va status_va lba buf 512 n o) (λ r c' s', c' = c ∧ turn_ok (λ x, in_range (hh_virt_to_phys buf + 512 * o) (512 * n) x) st h s s' ∧
    (∀ i, sectors_of s' i = sectors_of s i) ∧
    match r with
    | None => ∃ data, sectors (sectors_of s) (lba + o) n = Some data ∧ get (hh_virt_to_phys buf + 512 * o) (Z.to_nat (512 * n)) (bytes_of s') = Some data
    | Some e => (e = KS_STATUS_INTERNAL ∧ sectors (sectors_of s) (lba + o) n = None) ∨ (e = KS_STATUS_OUT_OF_MEMORY ∧ no_run st (chunk_pages n))
    end) c s.
Proof.
  intros I Hd Hub Ho Hn Hon Hc Hl Hlc. pose proof I as [Hst Ha Hrd Hcl Hfm]. pose proof Hst as (_ & Hwf & _).
  destruct (chunk_pages_eq n Hn ltac:(lia)) as (E1 & E2 & Hp & Hcp). unfold read_chunk. rewrite E2, E1.
  wp_step. apply (wp_take_bounce (chunk_pages n) c s st); [done|done|done|]. intros r s1 st1 A1 P1 W1 D1 S1 F1. destruct r as [tmp|]; last first.
  { wp_steps. destruct F1 as [-> Hno]. split; [done|]. rewrite D1. split; [|split; [done|by right]].
    apply (turn_done _ st st); try done; [by rewrite D1|]. split; rewrite ?D1; try done. by destruct (blk_of s). }
  destruct F1 as (i & -> & Hi & Hr & Hf). destruct (bounce_buffer st h s i (chunk_pages n) (512 * n) I Hi Hr ltac:(lia)) as [Hbb Epa].
  rewrite (u64_small (lba + o)) by lia. wp_step. unfold on_drv at 1. wp_step. cbn [lget lset drv_lens]. rewrite D1.
  eapply wp_mono; [apply (hal_read_correct req_va status_va base version qmax cap latency); (done || lia)|]. cbv beta.
  intros ok c' d (-> & Hrd2 & Eb2 & Hdk2 & Hmk2 & Hres). rewrite Epa in Hres.
  assert (∀ x, in_range (page_pa st i) (512 * n) x → free_bytes st x) as Hfree.
  { intros x Hx. destruct (run_bytes st i (chunk_pages n) x Hi ltac:(lia)) as (j & Hj & Hxj). exists j. split; [by apply Hr|done]. }
  destruct (sectors (sectors_of s) (lba + o) n) as [data|] eqn:Es; last first.
  { destruct Hres as [-> Hfr]. cbn [negb]. wp_step. apply (wp_give_bounce i (chunk_pages n) c _ st st1); try done. intros s2 st2 A2 P2 W2 F2 D2 S2. wp_steps.
    cbn [cb_drv cb_core lset drv_lens] in *. split; [done|]. rewrite D2. split; [|split; [done|by left]].
    apply (turn_done _ st st2); try done; [by transitivity (heap_of s1)|by rewrite D2|]. split; rewrite ?D2; try done; [|congruence]. intros x _ Hq _. by apply Hfr. }
  destruct Hres as (-> & Hg & Hfr). cbn [negb]. destruct (user_part st (blk_of s) buf count n o _ Hub Ho Hn Hon) as (Ed & Hmd & Hcd & Hod).
  rewrite (u64_small (o * 512)) by lia. pose proof (ub_range _ _ _ _ _ Hub) as Hbr. rewrite (u64_small (buf + o * 512)) by lia.
  replace (o * 512) with (512 * o) by lia. set (dst := hh_virt_to_phys buf + 512 * o) in *.
  assert (sep (page_pa st i) (512 * n) dst (512 * n)) as Hsep by (apply (run_sep st i (chunk_pages n)); (done || lia)).
  wp_step. apply (wp_copy_virtual _ _ _ data); rewrite ?Ed, ?Epa; cbn [cb_drv cb_core lset drv_lens]; try done; [lia|by apply Hmk2|unfold sep in *; lia|by rewrite Eb2|].
  intros d' Hrd' Eb' Em' Hdk'. wp_step. apply (wp_give_bounce i (chunk_pages n) c _ st st1); try done. intros s2 st2 A2 P2 W2 F2 D2 S2. wp_steps.
  cbn [cb_drv cb_core lset drv_lens] in *. pose proof (proj1 (proj1 (get_some _ _ _ _) Hg)) as Hdl. split; [done|]. rewrite D2. split; [|split].
  - apply (turn_done _ st st2); try done; [by transitivity (heap_of s1)|by rewrite D2|]. split; rewrite ?D2, ?Em'; [by rewrite Eb'|intros a k Hak; by apply mapped_put, Hmk2| |congruence].
    intros x Hx Hq Hfx. rewrite lookup_put, decide_False by lia. apply Hfr; [|done]. intros Hin. by apply Hfx, Hfree.
  - intros j. by rewrite Hdk'.
  - exists data. split; [done|]. rewrite Em'. rewrite <- Hdl. apply get_put_same.
Qed.

Lemma write_chunk_correct st h lba buf count n o data c s : io_ok st h s → irq_depth c = 0 → user_buffer st (blk_of s) buf (512 * count) (bytes_of s) →
  0 ≤ o → 0 < n → o + n ≤ count → 512 * count < 2 ^ 32 → 0 ≤ lba → lba + count ≤ 2 ^ 64 →
  get (hh_virt_to_phys buf + 512 * o) (Z.to_nat (512 * n)) (bytes_of s) = Some data →
  wp (write_chunk req_va status_va lba buf 512 n o) (λ r c' s', c' = c ∧ turn_ok (λ _, False) st h s s' ∧
    match r with
    | None => is_Some (sectors (sectors_of s) (lba + o) n) ∧ ∀ i, sectors_of s' i = write_sectors (sectors_of s) (lba + o) data i
    | Some e => ((e = KS_STATUS_INTERNAL ∧ sectors (sectors_of s) (lba + o) n = None) ∨ (e = KS_STATUS_OUT_OF_MEMORY ∧ no_run st (chunk_pages n))) ∧
        ∀ i, sectors_of s' i = sectors_of s i
    end) c s.
Proof.
  intros I Hd Hub Ho Hn Hon Hc Hl Hlc Hg. pose proof I as [Hst Ha Hrd Hcl Hfm]. pose proof Hst as (_ & Hwf & _).
  destruct (chunk_pages_eq n Hn ltac:(lia)) as (E1 & E2 & Hp & Hcp). unfold write_chunk. rewrite E2, E1.
  wp_step. apply (wp_take_bounce (chunk_pages n) c s st); [done|done|done|]. intros r s1 st1 A1 P1 W1 D1 S1 F1. destruct r as [tmp|]; last first.
  { wp_steps. destruct F1 as [-> Hno]. split; [done|]. rewrite D1. split; [|split; [by right|done]].
    apply (turn_done _ st st); try done; [by rewrite D1|]. split; rewrite ?D1; try done. by destruct (blk_of s). }
  destruct F1 as (i & -> & Hi & Hr & Hf). destruct (bounce_buffer st h s i (chunk_pages n) (512 * n) I Hi Hr ltac:(lia)) as [Hbb Epa].
  assert (∀ x, in_range (page_pa st i) (512 * n) x → free_bytes st x) as Hfree.
  { intros x Hx. destruct (run_bytes st i (chunk_pages n) x Hi ltac:(lia)) as (j & Hj & Hxj). exists j. split; [by apply Hr|done]. }
  destruct (user_part st (blk_of s) buf count n o _ Hub Ho Hn Hon) as (Ed & Hmd & Hcd & _). pose proof (proj1 (proj1 (get_some _ _ _ _) Hg)) as Hdl.
  rewrite (u64_small (o * 512)) by lia. pose proof (ub_range _ _ _ _ _ Hub) as Hbr. rewrite (u64_small (buf + o * 512)), (u64_small (lba + o)) by lia.
  replace (o * 512) with (512 * o) by lia. set (src := hh_virt_to_phys buf + 512 * o) in *.
  assert (sep (page_pa st i) (512 * n) src (512 * n)) as Hsep by (apply (run_sep st i (chunk_pages n)); (done || lia)).
  pose proof (db_buffer _ _ _ _ _ _ Hbb) as Bb. rewrite Epa in Bb.
  wp_step. apply (wp_copy_virtual _ _ _ data); rewrite ?Ed, ?Epa, ?D1; try done; [lia|apply Bb|by split; apply Bb|].
  intros d' Hrd' Eb' Em' Hdk'. wp_step. unfold on_drv at 1. wp_step. cbn [lget lset drv_lens cb_drv].
  eapply wp_mono; [apply (hal_write_correct req_va status_va base version qmax cap latency _ _ _ data); try done|].
  { rewrite Eb', Em'. eapply drv_buffer_kept; [|intros a k Hak; by apply mapped_put|exact Hbb]. by destruct (blk_of s). }
  { lia. } { lia. } { rewrite Epa, Em'. rewrite <- Hdl. apply get_put_same. }
  cbv beta. intros ok c' d (-> & Hrd2 & Eb2 & Hmk2 & Hfr & Hres). rewrite Eb' in Eb2.
  rewrite (sectors_ext (sectors_of s)) in Hres by exact Hdk'.
  assert (∀ s2 st2, heap_at (heap_of s2) st2 → pages_only (heap_of s1) (heap_of s2) → same_window st st2 → free_set st2 = free_set st → cb_drv s2 = d →
    sched_of (cb_core s2) = sched_of (cb_core s1) → turn_ok (λ _, False) st h s s2) as Hturn.
  { intros s2 st2 A2 P2 W2 F2 D2 S2. apply (turn_done _ st st2); try done; [by transitivity (heap_of s1)|by rewrite D2|].
    split; rewrite ?D2; [done|intros a k Hak; apply Hmk2; rewrite Em'; by apply mapped_put| |congruence].
    intros x _ Hq Hfx. rewrite Hfr by (rewrite Eb'; done). rewrite Em', lookup_put, decide_False; [done|]. intros Hin. apply Hfx, Hfree. lia. }
  destruct (sectors (sectors_of s) (lba + o) n) as [old|]; destruct Hres as [-> Hdk]; cbn [negb];
    (wp_step; apply (wp_give_bounce i (chunk_pages n) c _ st st1); try done; intros s2 st2 A2 P2 W2 F2 D2 S2; wp_steps; cbn [cb_drv cb_core lset drv_lens] in *;
     split; [done|]; split; [by apply (Hturn s2 st2)|]; rewrite D2).
  - split; [done|]. intros j. rewrite Hdk. unfold write_sectors. by rewrite Hdk'.
  - split; [by left|]. intros j. by rewrite Hdk.
Qed.

(** ** The loop *)

Lemma turn_refl P st h s : io_ok st h s → turn_ok P st h s s.
Proof. intros I. split; [|by exists st]. split; try done. by destruct (blk_of s). Qed.

Lemma turn_mono (P P' : Z → Prop) st h s s' : (∀ x, P x → P' x) → turn_ok P st h s s' → turn_ok P' st h s s'.
Proof. intros HP [[F1 F2 F3 F4] Hst]. split; [|done]. split; try done. intros x Hx. apply F3. auto. Qed.

Lemma turn_trans P st st1 h s s1 s2 : io_frame P st s s1 → same_window st st1 → free_set st1 = free_set st → turn_ok P st1 h s1 s2 → turn_ok P st h s s2.
Proof.
  intros [F1 F2 F3 F4] W E [[G1 G2 G3 G4] (st2 & I2 & W2 & E2)]. split; [|exists st2; split_and!; [done|by transitivity st1|congruence]].
  split; [by unfold same_driver in *; rewrite G1, F1|intros a n Ha; by apply G2, F2| |congruence].
  intros x Hx Hq Hf. rewrite G3; [by apply F3|done| |].
  - unfold outside_queue in *. rewrite F1. exact Hq.
  - by rewrite <- free_bytes_same.
Qed.

Section loop.
Context (elsewhere : resume → M (cb_state H D) unit) (sp : Z).

(** A transfer whose turns lead from [P 0] to [P count]. *)
Lemma block_loop_rule (op : Z → Z → M (cb_state H D) (option Z)) (P : Z → cb_state H D → Prop) (E : Z → cb_state H D → Prop) intent mx count c :
  intent ≠ KS_IO_INTENT_BACKGROUND → 1 ≤ mx → count < 2 ^ 32 →
  (∀ o n s, 0 ≤ o → 0 < n → o + n ≤ count → P o s → wp (op n o) (λ r c' s', c' = c ∧ match r with None => P (o + n) s' | Some e => e ≠ KS_STATUS_OK ∧ E e s' end) c s) →
  ∀ fuel remaining o s, 0 ≤ remaining → 0 ≤ o → remaining + o = count → (Z.to_nat remaining < fuel)%nat → P o s →
  wp (block_loop elsewhere sp op intent mx remaining o fuel)
    (λ st c' s', c' = c ∧ ((st = KS_STATUS_OK ∧ P count s') ∨ (st ≠ KS_STATUS_OK ∧ E st s'))) c s.
Proof.
  intros Hint Hmx Hcount Hop. induction fuel as [|fuel IH]; intros remaining o s Hr Ho Hc Hf HP; [lia|]. cbn [block_loop].
  destruct (Z.ltb_spec 0 remaining) as [Hr0|Hr0]; cbn [negb].
  - set (n := if mx <? remaining then mx else remaining). assert (0 < n ≤ remaining) as Hn by (unfold n; destruct (Z.ltb_spec mx remaining); lia).
    wp_step. eapply wp_mono; [apply Hop; (done || lia)|]. cbv beta. intros [e|] c' s' [-> Hs']; [wp_steps; tauto|].
    wp_step. destruct (Z.eqb_spec intent KS_IO_INTENT_BACKGROUND) as [|_]; [done|]. wp_step. rewrite u32_small by lia. apply IH; (done || lia).
  - wp_steps. split; [done|]. left. split; [done|]. by replace count with o by lia.
Qed.
End loop.

(** The reason of a failure. *)
Definition io_failure (st : pmm_state) (dk : Z → option (list Z)) (lba count e : Z) : Prop :=
  (e = KS_STATUS_INTERNAL ∧ sectors dk lba count = None) ∨
  (e = KS_STATUS_OUT_OF_MEMORY ∧ ∃ st' n, same_window st st' ∧ free_set st' = free_set st ∧ 0 < n ≤ count ∧ no_run st' (chunk_pages n)).

Lemma failure_part st st1 dk lba count o n e : same_window st st1 → free_set st1 = free_set st → 0 ≤ o → 0 < n → o + n ≤ count →
  (e = KS_STATUS_INTERNAL ∧ sectors dk (lba + o) n = None) ∨ (e = KS_STATUS_OUT_OF_MEMORY ∧ no_run st1 (chunk_pages n)) →
  e ≠ KS_STATUS_OK ∧ io_failure st dk lba count e.
Proof.
  intros W Ef Ho Hn Hon [[-> Hs]|[-> Hno]]; (split; [done|]).
  - left. split; [done|]. eapply (sectors_part _ _ _ (lba + o) n); [lia..|done].
  - right. split; [done|]. exists st1, n. split_and!; (done || lia).
Qed.

(** A buffer of the caller stays one. *)
Lemma user_buffer_kept P st st1 b buf n s s1 : io_frame P st s s1 → same_window st st1 → free_set st1 = free_set st → b = blk_of s →
  user_buffer st b buf n (bytes_of s) → user_buffer st1 (blk_of s1) buf n (bytes_of s1).
Proof.
  intros [F1 F2 F3 F4] W E -> [U1 U2 U3 U4]. split; try done; [by eapply drv_buffer_kept|]. eapply clear_of_sub; [exact W|by rewrite E|done].
Qed.

Lemma buffer_outside st h s buf n x : io_ok st h s → user_buffer st (blk_of s) buf n (bytes_of s) → in_range (hh_virt_to_phys buf) n x →
  outside_queue req_va status_va (blk_of s) x.
Proof.
  intros I [[_ [B1 B2 B3 B4 B5 B6 B7]] _ _ _] Hx. unfold outside_queue, driver_writes, sep in *. split; lia.
Qed.

Lemma get_split a n k (m : bytes) l : 0 ≤ n → 0 ≤ k → get a (Z.to_nat (n + k)) m = Some l →
  get a (Z.to_nat n) m = Some (take (Z.to_nat n) l) ∧ get (a + n) (Z.to_nat k) m = Some (drop (Z.to_nat n) l).
Proof.
  intros Hn Hk. rewrite !get_some. intros [Hl Hg]. rewrite length_take, length_drop. split; (split; [lia|]); intros i Hi.
  - rewrite lookup_take_lt by lia. apply Hg. lia.
  - rewrite lookup_drop. rewrite <- Hg by lia. f_equal. lia.
Qed.

Section whole.
Context (elsewhere : resume → M (cb_state H D) unit) (sp : Z).

Lemma read_loop_correct st h lba buf count intent mx c s : io_ok st h s → irq_depth c = 0 → user_buffer st (blk_of s) buf (512 * count) (bytes_of s) →
  0 < count → 512 * count < 2 ^ 32 → 0 ≤ lba → lba + count ≤ 2 ^ 64 → intent ≠ KS_IO_INTENT_BACKGROUND → 1 ≤ mx →
  wp (block_loop elsewhere sp (read_chunk req_va status_va lba buf 512) intent mx count 0 (S (Z.to_nat count)))
    (λ e c' s', c' = c ∧ turn_ok (λ x, in_range (hh_virt_to_phys buf) (512 * count) x) st h s s' ∧ (∀ i, sectors_of s' i = sectors_of s i) ∧
      ((e = KS_STATUS_OK ∧ ∃ data, sectors (sectors_of s) lba count = Some data ∧ get (hh_virt_to_phys buf) (Z.to_nat (512 * count)) (bytes_of s') = Some data) ∨
       (e ≠ KS_STATUS_OK ∧ io_failure st (sectors_of s) lba count e))) c s.
Proof.
  intros I Hd Hub H0 Hc Hl Hlc Hint Hmx. set (pa := hh_virt_to_phys buf) in *.
  set (P := λ o s', turn_ok (λ x, in_range pa (512 * count) x) st h s s' ∧ (∀ i, sectors_of s' i = sectors_of s i) ∧
    ∃ data, sectors (sectors_of s) lba o = Some data ∧ get pa (Z.to_nat (512 * o)) (bytes_of s') = Some data).
  set (E := λ e s', turn_ok (λ x, in_range pa (512 * count) x) st h s s' ∧ (∀ i, sectors_of s' i = sectors_of s i) ∧ io_failure st (sectors_of s) lba count e).
  eapply wp_mono; [apply (block_loop_rule elsewhere sp _ P E intent mx count c); try done; try lia|].
  - intros o n s1 Ho Hn Hon ([F1 (st1 & I1 & W1 & E1)] & Hdk1 & pre & Hpre & Hgpre).
    eapply wp_mono; [apply (read_chunk_correct st1 h lba buf count n o c s1); try done; by eapply user_buffer_kept|]. cbv beta. fold pa.
    intros r c' s2 (-> & T2 & Hdk2 & Hr). split; [done|]. rewrite (sectors_ext (sectors_of s)) in Hr by exact Hdk1.
    assert (turn_ok (λ x, in_range pa (512 * count) x) st h s s2) as T.
    { eapply turn_trans; [exact F1|exact W1|exact E1|]. eapply turn_mono; [|exact T2]. intros x Hx. cbv beta in *. lia. }
    assert (∀ i, sectors_of s2 i = sectors_of s i) as Hdk by (intros i; by rewrite Hdk2).
    destruct r as [e|]; [destruct (failure_part st st1 (sectors_of s) lba count o n e W1 E1 Ho Hn Hon Hr) as [He Hf]; by split|].
    destruct Hr as (data & Hs & Hg). split; [done|]. split; [done|]. exists (pre ++ data). split; [apply sectors_app; (done || lia)|].
    replace (Z.to_nat (512 * (o + n))) with (Z.to_nat (512 * o) + Z.to_nat (512 * n))%nat by lia. apply get_app; [|by rewrite Z2Nat.id by lia].
    rewrite <- Hgpre. apply get_ext. intros x Hx. destruct T2 as [F2 _]. apply (fr_bytes _ _ _ _ F2).
    + lia.
    + rewrite (proj1 (conj (fr_blk _ _ _ _ F1) I)). apply (buffer_outside st h s buf (512 * count)); [done|done|fold pa; lia].
    + rewrite <- (free_bytes_same st st1) by done. apply (ub_clear _ _ _ _ _ Hub). fold pa. lia.
  - split_and!; [by apply turn_refl|done|]. exists []. split; [unfold sectors; by rewrite seqZ_nil by lia|done].
  - cbv beta. intros e c' s' [-> [(-> & T & Hdk & data & Hs & Hg)|(He & T & Hdk & Hf)]]; (split; [done|]); (split; [done|]); (split; [done|]); [left|right]; eauto.
Qed.

Lemma write_loop_correct st h lba buf count intent mx data c s : io_ok st h s → irq_depth c = 0 → user_buffer st (blk_of s) buf (512 * count) (bytes_of s) →
  0 < count → 512 * count < 2 ^ 32 → 0 ≤ lba → lba + count ≤ 2 ^ 64 → intent ≠ KS_IO_INTENT_BACKGROUND → 1 ≤ mx →
  get (hh_virt_to_phys buf) (Z.to_nat (512 * count)) (bytes_of s) = Some data →
  wp (block_loop elsewhere sp (write_chunk req_va status_va lba buf 512) intent mx count 0 (S (Z.to_nat count)))
    (λ e c' s', c' = c ∧ turn_ok (λ _, False) st h s s' ∧
      ((e = KS_STATUS_OK ∧ is_Some (sectors (sectors_of s) lba count) ∧ ∀ i, sectors_of s' i = write_sectors (sectors_of s) lba data i) ∨
       (e ≠ KS_STATUS_OK ∧ io_failure st (sectors_of s) lba count e ∧
        ∃ k, 0 ≤ k < count ∧ ∀ i, sectors_of s' i = write_sectors (sectors_of s) lba (take (Z.to_nat (512 * k)) data) i))) c s.
Proof.
  intros I Hd Hub H0 Hc Hl Hlc Hint Hmx Hdata. set (pa := hh_virt_to_phys buf) in *. pose proof (proj1 (proj1 (get_some _ _ _ _) Hdata)) as Hdl.
  set (P := λ o s', turn_ok (λ _, False) st h s s' ∧ is_Some (sectors (sectors_of s) lba o) ∧
    ∀ i, sectors_of s' i = write_sectors (sectors_of s) lba (take (Z.to_nat (512 * o)) data) i).
  set (E := λ e s', turn_ok (λ _, False) st h s s' ∧ io_failure st (sectors_of s) lba count e ∧
    ∃ k, 0 ≤ k < count ∧ ∀ i, sectors_of s' i = write_sectors (sectors_of s) lba (take (Z.to_nat (512 * k)) data) i).
  eapply wp_mono; [apply (block_loop_rule elsewhere sp _ P E intent mx count c); try done; try lia|].
  - intros o n s1 Ho Hn Hon ([F1 (st1 & I1 & W1 & E1)] & [pre Hpre] & Hdk1). set (x := take (Z.to_nat (512 * o)) data) in *.
    set (y := take (Z.to_nat (512 * n)) (drop (Z.to_nat (512 * o)) data)).
    assert (get (pa + 512 * o) (Z.to_nat (512 * n)) (bytes_of s1) = Some y) as Hy.
    { assert (get pa (Z.to_nat (512 * o + (512 * n + 512 * (count - o - n)))) (bytes_of s1) = Some data) as Hall.
      { replace (512 * o + (512 * n + 512 * (count - o - n))) with (512 * count) by lia. rewrite <- Hdata. apply get_ext. intros z Hz.
        apply (fr_bytes _ _ _ _ F1); [tauto|by apply (buffer_outside st h s buf (512 * count)); [..|fold pa; lia]|apply (ub_clear _ _ _ _ _ Hub); fold pa; lia]. }
      apply get_split in Hall as [_ Hall]; [|lia|lia]. by apply get_split in Hall as [Hall _]; [|lia|lia]. }
    eapply wp_mono; [apply (write_chunk_correct st1 h lba buf count n o y c s1); try done; by eapply user_buffer_kept|]. cbv beta.
    intros r c' s2 (-> & T2 & Hr). split; [done|]. assert (turn_ok (λ _, False) st h s s2) as T by (by eapply turn_trans).
    assert (sectors (sectors_of s1) (lba + o) n = sectors (sectors_of s) (lba + o) n) as Esec.
    { rewrite (sectors_ext (write_sectors (sectors_of s) lba x)) by exact Hdk1. apply sectors_elsewhere. right. unfold x. rewrite length_take_le by lia.
      rewrite Z2Nat.id by lia. replace (512 * o) with (o * 512) by lia. rewrite Z.div_mul by lia. lia. }
    rewrite Esec in Hr. destruct r as [e|].
    + destruct Hr as [Hr Hdk2]. destruct (failure_part st st1 (sectors_of s) lba count o n e W1 E1 Ho Hn Hon Hr) as [He Hf]. split; [done|]. split; [done|]. split; [done|].
      exists o. split; [lia|]. intros i. by rewrite Hdk2.
    + destruct Hr as [[z Hz] Hdk2]. split; [done|]. split; [by exists (pre ++ z); apply sectors_app; (done || lia)|]. intros i. rewrite Hdk2.
      transitivity (write_sectors (write_sectors (sectors_of s) lba x) (lba + o) y i); [unfold write_sectors at 1 2; by rewrite Hdk1|].
      assert (Z.of_nat (length x) = 512 * o) as Lx by (unfold x; rewrite length_take_le; lia).
      assert (Z.of_nat (length y) = n * 512) as Ly by (unfold y; rewrite length_take_le; [lia|rewrite length_drop; lia]).
      rewrite write_sectors_app; [|done|rewrite Ly; by apply Z.mod_mul|done]. unfold x, y. rewrite take_take_drop. do 2 f_equal. lia.
  - split_and!; [by apply turn_refl|unfold sectors; by rewrite seqZ_nil by lia|]. intros i. change (Z.to_nat (512 * 0)) with 0%nat. rewrite take_0. unfold write_sectors. cbn [length]. change (Z.of_nat 0 / 512) with 0. by rewrite decide_False by lia.
  - cbv beta. intros e c' s' [-> [(-> & T & Hs & Hdk)|(He & T & Hf)]]; (split; [done|]); (split; [done|]); [left|right; by split].
    split; [done|]. split; [done|]. intros i. rewrite Hdk. by rewrite take_ge by lia.
Qed.
End whole.
End transfers.
