(* ===== verification/CoreBlockCalls.v ===== *)
(** * What the block calls of the services do

    The whole calls around the transfer loops: the ceiling of the task is
    asked, the sectors move, the task is charged, and of the scheduler nothing
    but the record of the task has changed: the thread has its intent back. *)

From S2P Require Import Prelude Irq Addr Platform Pmm KHeap ObjHeap Cap Task Sched Ipc CoreApi CoreCalls Virtio VirtioQueue VirtioXfer Mem HeapPages.
From S2P Require Import BlkDriver BlkSpec BlkSetup BootDisk BlkDisk CoreBlock CoreBlockSpec.

Section calls.
Context {H : Type} {OH : ObjHeap H} {D : Type} {BUS : VirtioBus D} (req_va status_va : Z).
Context (base version qmax cap : Z) (latency : nat) {VB : VirtioBlk base version qmax cap latency}.
Context (elsewhere : resume → M (cb_state H D) unit) (sp : Z).
Implicit Types (c : cpu_state) (s : cb_state H D).

Abbreviation heap_of s := (co_heap (cb_core s)).
Abbreviation bytes_of s := (mem_of (cb_drv s)).
Abbreviation blk_of s := (dr_blk (cb_drv s)).
Abbreviation sched_of s := (CoreApi.sched_of (cb_core s)).
Abbreviation sectors_of s := (disk_of base version qmax cap latency (cb_drv s)).

(** Another state of the scheduler and its tasks under the same driver. *)
Definition with_sched (ss : sched_state) s : cb_state H D := mkCb (put_sched ss (cb_core s)) (cb_drv s).

Lemma wp_sched_call {A} (m : M sched_state A) Q c s : wp m (λ a c' ss, Q a c' (with_sched ss s)) c (sched_of s) → wp (sched_call m) Q c s.
Proof. intros Hm. unfold sched_call, on_core. wp_step. apply wp_on_sched. exact Hm. Qed.

Lemma with_sched_id s : with_sched (sched_of s) s = s.
Proof. unfold with_sched. rewrite put_sched_id. by destruct s. Qed.

(** The scheduler with another record for a thread, for a task. *)
Definition put_thread_at (p : Z) (t : thread) (ss : sched_state) : sched_state := set_threads (<[p := t]> (threads ss)) ss.
Definition put_task_at (p : Z) (k : task) (ss : sched_state) : sched_state := set_tasks (<[p := k]> (tasks ss)) ss.

(** Setting the intent of the running thread, charging its task and setting
    the intent back changes the record of the task. *)
Lemma intent_restored cur t t' tk k1 k2 (ss : sched_state) : threads ss !! cur = Some t →
  put_thread_at cur t (put_task_at tk k2 (put_thread_at cur t' (put_task_at tk k1 ss))) = put_task_at tk k2 ss.
Proof.
  intros Ht. unfold put_thread_at, put_task_at, set_threads, set_tasks. cbn [threads tasks bootstrap s_current s_ready_tail s_sched_ticks s_stats s_pick_cursor need_resched preempt_count].
  by rewrite !insert_insert_eq, insert_id.
Qed.

Lemma wp_set_intent cur t raw Q c s : cur ≠ 0 → threads (sched_of s) !! cur = Some t → state t = RUNNING → cpu_wf c →
  (∀ s', cb_drv s' = cb_drv s → heap_of s' = heap_of s → sched_of s' = put_thread_at cur (with_intent (intent_code (sched_intent_sanitize raw)) t) (sched_of s) → Q tt c s') →
  wp (sched_call (sched_set_thread_intent cur raw)) Q c s.
Proof.
  intros Hc Eth Hst Hwf HQ. apply wp_sched_call. eapply wp_mono; [by apply (set_intent_running cur t raw)|]. cbv beta. intros [] c' ss [-> ->]. by apply HQ.
Qed.

(** From the loop's specification to the call's. *)
Lemma wp_transfer w lba count buf buf_len intent cur t tk k ok k1 Q c s :
  drv_ready req_va status_va base version qmax cap latency (cb_drv s) → runs_for (cb_core s) cur t tk k → cpu_wf c → intent_code (sched_intent_sanitize (th_intent t)) = th_intent t →
  buf ≠ 0 → 0 < count → 512 * count < 2 ^ 32 → 512 * count ≤ buf_len →
  task_allow_io (Some k) (512 * count) w (s_sched_ticks (sched_of s)) = (ok, Some k1) →
  (ok = false → ∀ s', cb_drv s' = cb_drv s → heap_of s' = heap_of s → sched_of s' = put_task_at tk k1 (sched_of s) → Q KS_STATUS_BUSY c s') →
  (ok = true → ∀ s1 mx, cb_drv s1 = cb_drv s → heap_of s1 = heap_of s → 1 ≤ mx →
     wp (block_loop elsewhere sp ((if w then write_chunk req_va status_va else read_chunk req_va status_va) lba buf 512) intent mx count 0 (S (Z.to_nat count)))
       (λ e c' s2, c' = c ∧ sched_of s2 = sched_of s1 ∧
          ∀ s3 k2, cb_drv s3 = cb_drv s2 → heap_of s3 = heap_of s2 → sched_of s3 = put_task_at tk k2 (sched_of s) →
            (if decide (e = KS_STATUS_OK) then task_account_io (Some k1) (512 * count) w (cka_sched_intent_from_io intent) (s_sched_ticks (sched_of s)) = Some k2 else k2 = k1) →
            Q e c s3) c s1) →
  wp (block_transfer req_va status_va elsewhere sp w lba count buf buf_len intent) Q c s.
Proof.
  intros Hrd Hr Hwf Hti Hb Hc Hc' Hbl Hal Hbusy Hloop. pose proof Hr as (Hcur & Htk & Ec & Eth & Et & Hk & Hst). unfold block_transfer.
  destruct (Z.eqb_spec buf 0) as [|_]; [done|]. destruct (Z.eqb_spec count 0) as [|_]; [lia|]. cbn [orb].
  unfold on_drv, hal_block_ready, hal_block_sector_size, virtio_blk_ready, virtio_blk_sector_size. wp_steps. cbn [lget lset drv_lens]. rewrite (dd_ready _ _ _ _ _ _ _ _ Hrd). cbn [negb].
  wp_steps. cbn [lget lset drv_lens cb_drv cb_core]. rewrite (dd_sector _ _ _ _ _ _ _ _ Hrd). rewrite (u64_small (count * 512)) by lia. replace (count * 512) with (512 * count) by lia.
  destruct (Z.ltb_spec buf_len (512 * count)) as [|_]; [lia|]. wp_step. replace (mkCb (cb_core s) (cb_drv s)) with s by (by destruct s).
  unfold on_core at 1. wp_step. cbn [lget core_lens]. apply (wp_current_task cur t); [done|done|done|]. rewrite Et. replace (lset core_lens (cb_core s) s) with s by (by destruct s).
  destruct (Z.eqb_spec tk 0) as [|_]; [done|]. wp_step. wp_step. apply wp_sched_call. unfold sched_ticks_now. wp_step. rewrite with_sched_id. unfold on_core at 1. wp_step. cbn [lget core_lens].
  eapply wp_task_call; [done|exact Hk|exact Hal|]. set (s0 := lset core_lens _ s). assert (sched_of s0 = put_task_at tk k1 (sched_of s)) as S0 by reflexivity.
  destruct ok; cbn [negb]; [|wp_steps; by apply Hbusy]. specialize (Hloop eq_refl). clear Hbusy. wp_step. apply wp_sched_call. unfold sched_current. wp_step. rewrite with_sched_id.
  replace (s_current (sched_of s0)) with cur by (by rewrite S0). assert (threads (sched_of s0) !! cur = Some t) as Eth0 by (by rewrite S0).
  wp_step. destruct (Z.eqb_spec cur 0) as [|_]; [done|]. wp_step. apply wp_sched_call. unfold get_thread. wp_steps. rewrite Eth0. wp_steps. rewrite with_sched_id. cbn [negb].
  apply (wp_set_intent cur t); [done|done|done|done|]. intros s1 D1 Hh1 S1. rewrite S0 in S1. set (ti := with_intent _ t) in *.
  wp_step. eapply wp_mono; [apply (Hloop s1); [done|done|unfold KS_IO_INTENT_THROUGHPUT, KS_IO_INTENT_BACKGROUND; repeat case_match; lia]|]. cbv beta.
  intros e c' s2 (-> & S2 & HQ). rewrite S1 in S2.
  assert (∀ s3 k2, cb_drv s3 = cb_drv s2 → heap_of s3 = heap_of s2 → sched_of s3 = put_task_at tk k2 (sched_of s2) →
    (∀ s4, cb_drv s4 = cb_drv s2 → heap_of s4 = heap_of s2 → sched_of s4 = put_task_at tk k2 (sched_of s) → Q e c s4) →
    wp (when true (sched_call (sched_set_thread_intent cur (th_intent t))) ;;; ret e) Q c s3) as Hend.
  { intros s3 k2 D3 H3 S3 HQ3. rewrite S2 in S3. wp_steps. apply (wp_set_intent cur ti); [done|rewrite S3; apply lookup_insert_eq|done|done|]. intros s4 D4 H4 S4. wp_steps.
    apply HQ3; [by rewrite D4|by rewrite H4|]. rewrite S4, Hti. replace (with_intent (th_intent t) ti) with t by (unfold ti; by destruct t). rewrite S3. by apply intent_restored. }
  wp_step. cbn [negb]. destruct (Z.eqb_spec e KS_STATUS_OK) as [He|He]; cbn [andb]; wp_step.
  - wp_step. apply wp_sched_call. unfold sched_ticks_now. wp_step. rewrite with_sched_id. unfold on_core, task_update. wp_step. cbn [lget core_lens].
    eapply wp_task_call; [done|rewrite S2; apply lookup_insert_eq|reflexivity|]. eapply Hend; [reflexivity|reflexivity|reflexivity|].
    intros s4 D4 H4 S4. eapply HQ; [done|done|exact S4|]. rewrite decide_True by done. by rewrite S2.
  - apply (Hend s2 k1); [reflexivity|reflexivity| |].
    + rewrite S2. unfold put_thread_at, put_task_at, set_threads, set_tasks. cbn. by rewrite insert_insert_eq.
    + intros s4 D4 H4 S4. apply (HQ s4 k1); try done. by rewrite decide_False.
Qed.

(** ** The contract of the two calls *)

Abbreviation in_range a n x := (a ≤ x < a + n).

(** Afterwards driver, heap and page manager are as the call found them, and
    so is memory but the bytes of [P], the queue's and those of free pages. *)
Record io_kept (P : Z → Prop) (st : pmm_state) (h : gmap Z Z) s s' : Prop := {
  kp_blk : same_driver (blk_of s) (blk_of s');
  kp_bytes : ∀ x, ¬ P x → outside_queue req_va status_va (blk_of s) x → ¬ free_bytes st x → bytes_of s' !! x = bytes_of s !! x;
  kp_state : ∃ st', io_ok req_va status_va base version qmax cap latency st' h s' ∧ same_window st st' ∧ free_set st' = free_set st;
}.

Lemma io_ok_parts st h s s' : cb_drv s' = cb_drv s → heap_of s' = heap_of s → io_ok req_va status_va base version qmax cap latency st h s →
  io_ok req_va status_va base version qmax cap latency st h s'.
Proof. intros Ed Eh [I1 I2 I3 I4 I5]. split; by rewrite ?Ed, ?Eh. Qed.

Lemma kept_parts P st h s s1 s2 s3 : cb_drv s1 = cb_drv s → cb_drv s3 = cb_drv s2 → heap_of s3 = heap_of s2 →
  turn_ok req_va status_va base version qmax cap latency P st h s1 s2 → io_kept P st h s s3.
Proof.
  intros D1 D3 H3 [[F1 _ F3 _] (st' & I & W & E)]. rewrite D1 in F1, F3. split; rewrite ?D3; [done|done|]. exists st'. split; [|done]. by eapply (io_ok_parts _ _ s2).
Qed.

Lemma kept_refl P st h s s' : io_ok req_va status_va base version qmax cap latency st h s → cb_drv s' = cb_drv s → heap_of s' = heap_of s → io_kept P st h s s'.
Proof. intros I Ed Eh. split; rewrite ?Ed; [by destruct (blk_of s)|done|]. exists st. split; [by eapply (io_ok_parts _ _ s)|done]. Qed.

(** What the task is charged: nothing unless the transfer succeeds. *)
Definition charged (w : bool) (n intent now e : Z) (k1 k2 : task) : Prop :=
  if decide (e = KS_STATUS_OK) then task_account_io (Some k1) n w (cka_sched_intent_from_io intent) now = Some k2 else k2 = k1.

Section spec.
Context (st : pmm_state) (h : gmap Z Z) (lba count buf buf_len intent : Z).
Context (cur : Z) (t : thread) (tk : Z) (k : task) (c : cpu_state) (s : cb_state H D).
Context (Hlat : (latency ≤ Z.to_nat (SPIN_LIMIT + 1))%nat) (I : io_ok req_va status_va base version qmax cap latency st h s).
Context (Hub : user_buffer req_va status_va st (blk_of s) buf (512 * count) (bytes_of s)) (Hlen : 512 * count ≤ buf_len).
Context (Hr : runs_for (cb_core s) cur t tk k) (Hti : intent_code (sched_intent_sanitize (th_intent t)) = th_intent t) (Hwf : cpu_wf c) (Hd : irq_depth c = 0).
Context (H0 : 0 < count) (Hc : 512 * count < 2 ^ 32) (Hl : 0 ≤ lba) (Hlc : lba + count ≤ 2 ^ 64) (Hint : intent ≠ KS_IO_INTENT_BACKGROUND).
Context (ok : bool) (k1 : task).


End spec.
End calls.

(** ** On a concrete machine *)

Module CallMachine.
Import BlkDisk.Machine.
#[local] Existing Instance bus2.
#[local] Existing Instance blk2.

(** The machine after the set up of the driver, a thread of task [k] running. *)
Definition runner : thread := mkThread 1 0x103D00 0x5000 0x100000 16384 0x104000 0 0x103D00 0x103D00 0 0 0 0 0 0 RUNNING.
Definition running (k : task) : sched_state :=
  mkSched (<[0x1000 := runner]> ∅) (<[0x5000 := k]> ∅) 0x800 0x1000 (λ _, 0) 42 (mkSchedStats 0 0 0 0 (λ _, 0)) 0 0 0.
Definition cb (k : task) : cb_state ideal_heap ideal_dev :=
  mkCb (put_sched (running k) (mkCore ipc_start (dh_heap after_init) 0x10 0 (contract_table []) [])) (dh_drv after_init).
(** No thread runs in between. *)
Definition alone (r : resume) : M (cb_state ideal_heap ideal_dev) unit := ret tt.

Lemma cb_runs k : runs_for (cb_core (cb k)) 0x1000 runner 0x5000 k.
Proof. split_and!; done. Qed.

Lemma cb_ok k : ∃ st, io_ok req_va status_va (slot 2) 2 1024 4 1 st ∅ (cb k) ∧ same_window five_pages st ∧ free_set st ⊆ free_set five_pages.
Proof.
  destruct after_init_post as (Hpo & _ & Hmem & Hmk & st' & Hst & W & Hsub & Hrd & Hqc & _). exists st'. split; [|by split]. split.
  - exact Hst.
  - apply (heap_pages_frame (dh_heap machine) _ five_pages st'); [exact heap_abs|apply machine_env|exact Hst|exact W|exact Hsub|exact Hpo].
  - exact Hrd.
  - exact Hqc.
  - intros x Hx. assert (mapped x 1 ram) as Hm.
    { intros y Hy. replace y with x by lia. apply ram_free. by eapply free_bytes_sub. }
    apply (Hmk x 1 Hm x). lia.
Qed.

Lemma direct_map a k : 0x40000000 ≤ a → a + 512 ≤ 0x40100000 → 0 ≤ k < 512 → hh_virt_to_phys (a + 0xFFFF800000000000 + k) = a + k.
Proof.
  intros Ha Hb Hk. unfold hh_virt_to_phys. change CAPAZ_HH_RAM_BASE with 0xFFFF800040000000. change CAPAZ_RAM_BASE with 0x40000000.
  destruct (Z.leb_spec 0xFFFF800040000000 (a + 0xFFFF800000000000 + k)) as [_|]; [|lia]. rewrite !u64_small by (rewrite ?u64_small; lia). lia.
Qed.

Lemma cb_buffer k st a : same_window five_pages st → free_set st ⊆ free_set five_pages → 0x40090400 ≤ a → a + 512 ≤ 0x40100000 → mapped a 512 ram →
  user_buffer req_va status_va st (dr_blk (cb_drv (cb k))) (a + 0xFFFF800000000000) (512 * 1) (mem_of (cb_drv (cb k))).
Proof.
  intros W Hsub Ha Ht Hm. assert (hh_virt_to_phys (a + 0xFFFF800000000000) = a) as Ev.
  { replace (a + 0xFFFF800000000000) with (a + 0xFFFF800000000000 + 0) by lia. rewrite direct_map; lia. }
  split; rewrite ?Ev.
  - apply (after_init_buffer _ a); [exact Ev|exact Ha|lia|lia|exact Hm].
  - eapply clear_of_sub; [exact W|exact Hsub|]. apply below_pages; lia.
  - intros j Hj. apply direct_map; lia.
  - lia.
Qed.

Lemma no_sector_missing i k data dk e st : sectors dk i k = Some data → io_failure st dk i k e → e = KS_STATUS_OUT_OF_MEMORY.
Proof. intros Hs [[_ Hn]|[-> _]]; [by rewrite Hs in Hn|done]. Qed.



(** Evaluated on a driver set up beside the free pages: a background read
    yields 2000 times after its sector; the task may read 1000 bytes a window,
    so the second read is refused; the limit on writes is below a sector. *)
Definition set_up : drv_state ideal_dev :=
  mkDrv (mkVm (zeros 0x40600000 128 (zeros 0x40601000 22 (zeros 0x40602000 70 (zeros 0x40090300 17 (zeros 0x40090800 512 (zeros 0x40500000 512 ∅))))))
    (mkDev (list_to_map [(VIRTIO_MMIO_QUEUE_NUM, 8); (VIRTIO_MMIO_QUEUE_DESC_LOW, 0x40600000); (VIRTIO_MMIO_QUEUE_AVAIL_LOW, 0x40601000);
      (VIRTIO_MMIO_QUEUE_USED_LOW, 0x40602000); (VIRTIO_MMIO_QUEUE_READY, 1); (VIRTIO_MMIO_STATUS, 15)]) 0 false sample_disk))
    (mkVb (slot 2) 0xFFFF80000A000400 8 0xFFFF800040600000 0xFFFF800040601000 0xFFFF800040602000 0 4 512 true).
Definition background : M (cb_state ideal_heap ideal_dev) (list Z) :=
  a <- cka_block_read_intent req_va status_va alone 0 2 1 dst_va 512 KS_IO_INTENT_BACKGROUND ;;
  b <- cka_block_read req_va status_va alone 0 2 1 dst_va 512 ;;
  d <- cka_block_write req_va status_va alone 0 2 1 dst_va 512 ;;
  e <- cka_block_read req_va status_va alone 0 2 1 dst_va 511 ;;
  ret [a; b; d; e].
Example background_run :
  match background thread_cpu (mkCb (put_sched (running limited_task) (mkCore ipc_start sample_heap 0x10 0 (contract_table []) [])) set_up) with
  | Ret (r, _, s) => (r, get 0x40090800 512 (mem_of (cb_drv s)), th_intent <$> threads (CoreApi.sched_of (cb_core s)) !! 0x1000)
  | _ => ([], None, None)
  end = ([KS_STATUS_OK; KS_STATUS_BUSY; KS_STATUS_BUSY; KS_STATUS_INVALID_ARG], Some (replicate 512 9), Some 0).
Proof. vm_compute. reflexivity. Qed.
End CallMachine.
