(* ===== verification/Timer.v ===== *)
(** * The timer (Kern/HAL/timer_generic.c, Kern/HAL/hal_timer.c)

    Clock source and clock event over the virtual timer of the CPU.  The
    registers are part of the state; the counter moves between calls, not
    within one.  [tickless] is the build option [CONFIG_TICKLESS], on by
    default. *)

From S2P Require Import Prelude Irq.

Inductive event_mode := EVENT_MODE_OFF | EVENT_MODE_PERIODIC | EVENT_MODE_ONESHOT.
#[global] Instance event_mode_eq_dec : EqDecision event_mode.
Proof. solve_decision. Defined.

(** The static variables and the registers CNTFRQ, CNTVCT, CNTV_CVAL and
    CNTV_CTL. *)
Record timer := mkTimer {
  s_ticks : Z; s_mode : event_mode; s_period_ticks : Z; s_next_deadline : Z; s_tick_period_ticks : Z; s_tickless_periodic : bool;
  cntfrq : Z; cntvct : Z; cntv_cval : Z; cntv_ctl : Z;
}.
Abbreviation TM := (M timer).

Definition TIMER_PPI_IRQ : Z := 27.

Definition set_mode (m : event_mode) (tickless : bool) : TM unit :=
  modify (λ t, mkTimer (s_ticks t) m (s_period_ticks t) (s_next_deadline t) (s_tick_period_ticks t) tickless (cntfrq t) (cntvct t) (cntv_cval t) (cntv_ctl t)).
Definition set_deadline (d : Z) : TM unit :=
  modify (λ t, mkTimer (s_ticks t) (s_mode t) (s_period_ticks t) d (s_tick_period_ticks t) (s_tickless_periodic t) (cntfrq t) (cntvct t) (cntv_cval t) (cntv_ctl t)).
Definition set_period (p : Z) : TM unit :=
  modify (λ t, mkTimer (s_ticks t) (s_mode t) p (s_next_deadline t) (s_tick_period_ticks t) (s_tickless_periodic t) (cntfrq t) (cntvct t) (cntv_cval t) (cntv_ctl t)).
Definition set_tick_period (p : Z) : TM unit :=
  modify (λ t, mkTimer (s_ticks t) (s_mode t) (s_period_ticks t) (s_next_deadline t) p (s_tickless_periodic t) (cntfrq t) (cntvct t) (cntv_cval t) (cntv_ctl t)).
Definition count_tick : TM unit :=
  modify (λ t, mkTimer (u64 (s_ticks t + 1)) (s_mode t) (s_period_ticks t) (s_next_deadline t) (s_tick_period_ticks t) (s_tickless_periodic t)
    (cntfrq t) (cntvct t) (cntv_cval t) (cntv_ctl t)).

Definition write_cntv_cval (v : Z) : TM unit :=
  modify (λ t, mkTimer (s_ticks t) (s_mode t) (s_period_ticks t) (s_next_deadline t) (s_tick_period_ticks t) (s_tickless_periodic t) (cntfrq t) (cntvct t) v (cntv_ctl t)).
Definition write_cntv_ctl (v : Z) : TM unit :=
  modify (λ t, mkTimer (s_ticks t) (s_mode t) (s_period_ticks t) (s_next_deadline t) (s_tick_period_ticks t) (s_tickless_periodic t) (cntfrq t) (cntvct t) (cntv_cval t)
    (Z.land v 0xFFFFFFFF)).

Definition time_now : TM Z := gets cntvct.
Definition hz_to_period_ticks (hz : Z) : TM Z := if hz =? 0 then ret 0 else f <- gets cntfrq ;; ret (f / hz).

Definition event_arm_periodic (hz : Z) : TM unit :=
  period <- hz_to_period_ticks hz ;;
  if period =? 0 then set_mode EVENT_MODE_OFF false ;;; write_cntv_ctl 0
  else
    set_period period ;;;
    set_mode EVENT_MODE_PERIODIC false ;;;
    now <- time_now ;;
    p <- gets s_period_ticks ;;
    set_deadline (u64 (now + p)) ;;;
    d <- gets s_next_deadline ;;
    write_cntv_cval d ;;;
    write_cntv_ctl 0x1.

Definition event_arm_oneshot (absolute_deadline : Z) : TM unit :=
  b <- gets s_tickless_periodic ;;
  set_mode EVENT_MODE_ONESHOT b ;;;
  write_cntv_cval absolute_deadline ;;;
  write_cntv_ctl 0x1.

Definition event_disable : TM unit := set_mode EVENT_MODE_OFF false ;;; write_cntv_ctl 0x0.

Definition event_handle_irq : TM unit :=
  count_tick ;;;
  t <- get_st ;;
  if bool_decide (s_mode t = EVENT_MODE_PERIODIC) then
    now <- time_now ;;
    (if s_next_deadline t <=? now then set_deadline (u64 (now + s_period_ticks t)) else set_deadline (u64 (s_next_deadline t + s_period_ticks t))) ;;;
    d <- gets s_next_deadline ;;
    write_cntv_cval d
  else if bool_decide (s_mode t = EVENT_MODE_ONESHOT) && s_tickless_periodic t && negb (s_tick_period_ticks t =? 0) then
    now <- time_now ;;
    set_deadline (u64 (now + s_tick_period_ticks t)) ;;;
    d <- gets s_next_deadline ;;
    write_cntv_cval d
  else set_mode EVENT_MODE_OFF false ;;; write_cntv_ctl 0x0.

(** Steps that keep the record of the state small. *)
Ltac timer_steps := repeat (wp_step; cbn [s_ticks s_mode s_period_ticks s_next_deadline s_tick_period_ticks s_tickless_periodic cntfrq cntvct cntv_cval cntv_ctl]).

Section build.
Context (tickless : bool).

Definition timer_init_hz (hz : Z) : TM unit :=
  p <- hz_to_period_ticks hz ;;
  set_tick_period p ;;;
  if p =? 0 then event_disable
  else if tickless then
    set_mode EVENT_MODE_ONESHOT true ;;;
    now <- time_now ;;
    set_deadline (u64 (now + p)) ;;;
    d <- gets s_next_deadline ;;
    write_cntv_cval d ;;;
    write_cntv_ctl 0x1
  else
    m <- gets s_mode ;;
    set_mode m false ;;;
    event_arm_periodic hz.
Definition timer_handle_irq : TM unit := event_handle_irq.
Definition timer_ticks_read : TM Z := gets s_ticks.

Definition hal_time_now : TM Z := time_now.
Definition hal_timer_init_hz (hz : Z) : TM unit := timer_init_hz hz.
Definition hal_timer_handle_irq : TM unit := timer_handle_irq.
Definition hal_timer_ticks_read : TM Z := timer_ticks_read.
Definition hal_timer_irq : Z := TIMER_PPI_IRQ.

(** ** The machine around the driver *)

(** The timer asserts its interrupt when it is enabled, not masked, and the
    counter has reached the compare value. *)
Definition asserted (t : timer) : bool := Z.testbit (cntv_ctl t) 0 && negb (Z.testbit (cntv_ctl t) 1) && (cntv_cval t <=? cntvct t).

Definition pass (dt : Z) (t : timer) : timer :=
  mkTimer (s_ticks t) (s_mode t) (s_period_ticks t) (s_next_deadline t) (s_tick_period_ticks t) (s_tickless_periodic t) (cntfrq t) (cntvct t + dt) (cntv_cval t) (cntv_ctl t).

(** A run with [n] interrupts: time passes, and an interrupt that is asserted
    is taken, at most [late] after its deadline.  The counter stays a period
    away from its wrap-around. *)
Inductive timer_run (period late : Z) (c : cpu_state) (t0 : timer) : nat → timer → Prop :=
| run_none : timer_run period late c t0 0 t0
| run_pass n t dt : timer_run period late c t0 n t → 0 ≤ dt → cntvct t + dt ≤ cntv_cval t + late → cntvct t + dt + period < 2 ^ 64 →
    timer_run period late c t0 n (pass dt t)
| run_irq n t t' : timer_run period late c t0 n t → asserted t = true → hal_timer_handle_irq c t = Ret (tt, c, t') → timer_run period late c t0 (S n) t'.

(** The timer keeps ticks coming: [last] is when it was last set. *)
Record ticking (period last : Z) (t : timer) : Prop := {
  tk_cval : cntv_cval t = last + period;
  tk_next : s_next_deadline t = cntv_cval t;
  tk_on : cntv_ctl t = 1;
  tk_mode : if tickless then s_mode t = EVENT_MODE_ONESHOT ∧ s_tickless_periodic t = true ∧ s_tick_period_ticks t = period
            else s_mode t = EVENT_MODE_PERIODIC ∧ s_period_ticks t = period;
}.

Lemma init_ticking hz c t : 0 < hz ≤ cntfrq t → 0 ≤ cntvct t → cntvct t + cntfrq t / hz < 2 ^ 64 →
  wp (hal_timer_init_hz hz) (λ _ c' t', c' = c ∧ ticking (cntfrq t / hz) (cntvct t) t' ∧ cntvct t' = cntvct t ∧ s_ticks t' = s_ticks t) c t.
Proof.
  intros Hhz H0 Hw. assert (0 < cntfrq t / hz) as Hp by (apply Z.div_str_pos; lia). unfold hal_timer_init_hz, timer_init_hz, hz_to_period_ticks, set_tick_period.
  destruct (Z.eqb_spec hz 0) as [|Hn]; [lia|]. timer_steps. destruct (Z.eqb_spec (cntfrq t / hz) 0) as [|_]; [lia|]. destruct tickless eqn:Et.
  - unfold set_mode, time_now, set_deadline, write_cntv_cval, write_cntv_ctl. timer_steps. cbn [cntvct]. rewrite u64_small by lia. split; [done|]. split; [|done].
    split; try done. by rewrite Et.
  - unfold set_mode, event_arm_periodic, hz_to_period_ticks. destruct (Z.eqb_spec hz 0) as [|_]; [lia|]. timer_steps. cbn [cntfrq]. destruct (Z.eqb_spec (cntfrq t / hz) 0) as [|_]; [lia|].
    unfold set_period, set_mode, time_now, set_deadline, write_cntv_cval, write_cntv_ctl. timer_steps. cbn [cntvct s_period_ticks]. rewrite u64_small by lia. split; [done|]. split; [|done].
    split; try done. by rewrite Et.
Qed.

Lemma irq_ticking period last c t : ticking period last t → 0 < period → 0 ≤ cntvct t → cntvct t + period < 2 ^ 64 → asserted t = true →
  wp hal_timer_handle_irq (λ _ c' t', c' = c ∧ ticking period (cntvct t) t' ∧ cntvct t' = cntvct t ∧ s_ticks t' = u64 (s_ticks t + 1)) c t.
Proof.
  intros [T1 T2 T3 T4] Hp H0 Hw Ha. unfold asserted in Ha. rewrite !andb_true_iff, Z.leb_le in Ha. destruct Ha as [_ Ha].
  unfold hal_timer_handle_irq, timer_handle_irq, event_handle_irq, count_tick. timer_steps. cbn [s_mode s_next_deadline s_period_ticks s_tickless_periodic s_tick_period_ticks].
  destruct tickless eqn:Et.
  - destruct T4 as (-> & -> & ->). rewrite bool_decide_false by done. rewrite bool_decide_true by done. destruct (Z.eqb_spec period 0) as [|_]; [lia|]. cbn [andb negb].
    unfold time_now, set_deadline, write_cntv_cval. timer_steps. cbn [cntvct]. rewrite (u64_small (cntvct t + period)) by lia. split; [done|]. split; [|done]. split; try done. by rewrite Et.
  - destruct T4 as (-> & ->). rewrite bool_decide_true by done. unfold time_now. timer_steps. cbn [cntvct]. rewrite T2. destruct (Z.leb_spec (cntv_cval t) (cntvct t)) as [_|]; [|lia].
    unfold set_deadline, write_cntv_cval. timer_steps. cbn [cntvct]. rewrite (u64_small (cntvct t + period)) by lia. split; [done|]. split; [|done]. split; try done. by rewrite Et.
Qed.

Lemma run_inv period late c t0 n t : 0 < period → 0 ≤ late → 0 ≤ cntvct t0 → cntvct t0 + period < 2 ^ 64 → ticking period (cntvct t0) t0 → timer_run period late c t0 n t →
  ∃ last, ticking period last t ∧ Z.of_nat n * period ≤ last - cntvct t0 ≤ Z.of_nat n * (period + late) ∧ last ≤ cntvct t ≤ last + period + late ∧
    cntvct t + period < 2 ^ 64 ∧ u64 (s_ticks t) = u64 (s_ticks t0 + Z.of_nat n).
Proof.
  intros Hp Hl H0 Hw T0. induction 1 as [|n t dt _ (last & T & Hn & Hnow & Hb & Ht) Hdt Hlate Hb'|n t t' _ (last & T & Hn & Hnow & Hb & Ht) Ha Hirq].
  - exists (cntvct t0). split_and!; try done; try lia. f_equal. lia.
  - exists last. split; [by destruct T; split|]. rewrite (tk_cval _ _ _ T) in Hlate. cbn [cntvct pass s_ticks]. split_and!; (done || lia).
  - pose proof (irq_ticking period last c t T Hp ltac:(lia) Hb Ha) as Hwp. unfold wp in Hwp. rewrite Hirq in Hwp. destruct Hwp as (_ & T' & En & Es).
    exists (cntvct t). rewrite En, Es. unfold asserted in Ha. rewrite !andb_true_iff, Z.leb_le, (tk_cval _ _ _ T) in Ha. split_and!; try done; try lia.
    rewrite Nat2Z.inj_succ. unfold u64 in *. rewrite Zmod_mod, <- Zplus_mod_idemp_l, Ht, Zplus_mod_idemp_l. f_equal. lia.
Qed.

(** C33: Once hal_timer_init_hz has set the timer up, with or without
    CONFIG_TICKLESS, along every run in which asserted interrupts are taken at
    most a given latency late, the tick count is the number of interrupts, n
    interrupts take at least n periods and at most n+1 periods and latencies,
    the timer asserts its next interrupt within a period, and the handler
    always returns. *)
Theorem timer_ticks_at_rate hz late c t t0 n t' :
  let period := cntfrq t / hz in
  0 < hz ≤ cntfrq t → 0 ≤ cntvct t → cntvct t + period < 2 ^ 64 → 0 ≤ late →
  hal_timer_init_hz hz c t = Ret (tt, c, t0) → timer_run period late c t0 n t' →
  let elapsed := cntvct t' - cntvct t in
  u64 (s_ticks t') = u64 (s_ticks t + Z.of_nat n) ∧
  Z.of_nat n * period ≤ elapsed ≤ Z.of_nat (S n) * (period + late) ∧
  (∃ dt, 0 ≤ dt ≤ period ∧ asserted (pass dt t') = true) ∧
  wp hal_timer_handle_irq (λ _ c' _, c' = c) c t'.
Proof.
  intros period Hhz H0 Hw Hl Hi Hrun. assert (0 < period) as Hp by (apply Z.div_str_pos; lia). pose proof (init_ticking hz c t Hhz H0 Hw) as Hwp. unfold wp in Hwp. rewrite Hi in Hwp.
  destruct Hwp as (_ & T0 & En & Es). fold period in T0. rewrite <- En in *. destruct (run_inv period late c t0 n t' Hp Hl ltac:(lia) ltac:(lia) T0 Hrun) as (last & T & Hn & Hnow & Hb & Ht).
  rewrite Es in Ht. cbv zeta. split; [done|]. split; [lia|]. pose proof (tk_cval _ _ _ T) as Ec. split.
  - exists (Z.max 0 (last + period - cntvct t')). split; [lia|]. unfold asserted. cbn [cntv_ctl cntv_cval cntvct pass]. rewrite (tk_on _ _ _ T), Ec. cbn [Z.testbit andb negb]. apply Z.leb_le. lia.
  - unfold hal_timer_handle_irq, timer_handle_irq, event_handle_irq, count_tick, set_mode, time_now, set_deadline, write_cntv_cval, write_cntv_ctl. timer_steps.
    repeat case_match; timer_steps; try done; repeat case_match; timer_steps; done.
Qed.
End build.

(** A one-shot event fires once: its interrupt counts a tick and switches the
    timer off. *)
Lemma oneshot_fires_once d c t :
  wp (event_disable ;;; event_arm_oneshot d) (λ _ c' t1, c' = c ∧
    ∀ dt, asserted (pass dt t1) = bool_decide (d ≤ cntvct t + dt) ∧
    wp event_handle_irq (λ _ c'' t2, c'' = c ∧ s_ticks t2 = u64 (s_ticks t + 1) ∧ ∀ dt', asserted (pass dt' t2) = false) c (pass dt t1)) c t.
Proof.
  unfold event_disable, event_arm_oneshot, set_mode, write_cntv_ctl, write_cntv_cval. timer_steps. split; [done|]. intros dt. split.
  - unfold asserted. cbn [cntv_ctl cntv_cval cntvct pass]. change (Z.land 1 0xFFFFFFFF) with 1. cbn [Z.testbit andb negb]. destruct (Z.leb_spec d (cntvct t + dt)); [rewrite bool_decide_true by lia|rewrite bool_decide_false by lia]; reflexivity.
  - unfold event_handle_irq, count_tick, set_mode, write_cntv_ctl. timer_steps. cbn [s_mode pass s_tickless_periodic s_tick_period_ticks]. rewrite bool_decide_false by done.
    rewrite andb_false_r. cbn [andb]. timer_steps. split; [done|]. split; [done|]. intros dt'. done.
Qed.

(** ** A concrete run *)

Definition off_timer : timer := mkTimer 0 EVENT_MODE_OFF 0 0 0 false 62500000 1000 0 0.
Definition timer_cpu : cpu_state := mkCpu 0 0.
Definition after (m : TM unit) (t : timer) : timer := match m timer_cpu t with Ret (_, _, t') => t' | _ => t end.
Definition started : timer := after (hal_timer_init_hz true 100) off_timer.

(** An interrupt 70 counts after the first deadline, and some time. *)
Definition one_tick : timer := pass 5 (after hal_timer_handle_irq (pass 625070 started)).

Lemma timer_ticks_at_rate_witness : s_ticks one_tick = 1 ∧ 625000 ≤ cntvct one_tick - 1000 ≤ 2 * 625100 ∧
  ∃ dt, 0 ≤ dt ≤ 625000 ∧ asserted (pass dt one_tick) = true.
Proof.
  pose proof (timer_ticks_at_rate true 100 100 timer_cpu off_timer started 1 one_tick) as Hrate. cbv zeta in Hrate.
  destruct Hrate as (_ & He & Hdt & _); [cbn; lia|cbn; lia|vm_compute; reflexivity|lia|vm_compute; reflexivity| |].
  - apply run_pass; [|lia|vm_compute; discriminate|vm_compute; reflexivity].
    apply (run_irq _ _ _ _ 0 (pass 625070 started)); [|vm_compute; reflexivity|vm_compute; reflexivity].
    apply run_pass; [apply run_none|lia|vm_compute; discriminate|vm_compute; reflexivity].
  - split; [vm_compute; reflexivity|]. split; [exact He|exact Hdt].
Defined.
