(* ===== verification/Kmain.v ===== *)
(** * The serial port's driver loop (Kern/Kernel/kmain.c)

    [uart_driver_pump] serves the command endpoint of the serial port: text to
    write, questions about the protocol, requests for handles, and it forwards
    received bytes to the event endpoint.  The port is two lists, the bytes
    sent and the bytes that wait to be read.  Addresses and handles the code
    finds in [g_kernel_task] are parameters, and so are the bytes a fresh
    [ks_ipc_msg_t] on the stack happens to hold. *)

From S2P Require Import Prelude Irq ObjHeap Cap Task Sched Ipc CoreApi Virtio.

(** uart_proto.h and intent_proto.h *)
Definition UART_TAG_WRITE : Z := 1.
Definition UART_TAG_RX_EVENT : Z := 2.
Definition UART_TAG_QUERY_INTENTS : Z := 3.
Definition UART_TAG_OPEN_CONTRACT : Z := 4.
Definition UART_CONTRACT_CMD : Z := 1.
Definition UART_CONTRACT_EVT : Z := 2.
Definition KS_INTENT_DIR_CALL : Z := 1.
Definition KS_INTENT_DIR_EVENT : Z := 2.

(** [ks_intent_desc_t], as its bytes. *)
Definition ks_intent_desc (intent_id direction max_len schema_id rights : Z) : list Z :=
  le 4 intent_id ++ le 4 direction ++ le 4 max_len ++ le 4 schema_id ++ le 4 rights.
Definition k_uart_intents : list (list Z) :=
  [ks_intent_desc UART_TAG_WRITE KS_INTENT_DIR_CALL KS_IPC_MSG_MAX 0 CAP_R_SEND;
   ks_intent_desc UART_TAG_RX_EVENT KS_INTENT_DIR_EVENT KS_IPC_MSG_MAX 0 CAP_R_RECV;
   ks_intent_desc UART_TAG_QUERY_INTENTS KS_INTENT_DIR_CALL 0 0 CAP_R_SEND].

Record pump_state (H : Type) := mkPump { pu_ipc : ipc_state H; pu_out : list Z; pu_in : list Z }.
Arguments mkPump {H}.
Arguments pu_ipc {H}.
Arguments pu_out {H}.
Arguments pu_in {H}.

(** [memcpy] into the data of a message, inside the array. *)
Definition splice (off : nat) (b l : list Z) : list Z := take off l ++ b ++ drop (off + length b) l.

Section ops.
Context {H : Type} {OH : ObjHeap H}.
(** [&g_kernel_cap_table] and the two handles of [g_kernel_task]. *)
Context (caps cmd_cap evt_cap : Z).
(** What the stack holds where [resp] and [evt] are. *)
Context (junk : ks_ipc_msg).
Abbreviation PM := (M (pump_state H)).

Definition pump_ipc : lens (pump_state H) (ipc_state H) := mkLens pu_ipc (λ x s, mkPump x (pu_out s) (pu_in s)).
Definition on_ipc {A} (m : M (ipc_state H) A) : PM A := zoom pump_ipc m.

(** [uart_write] of serial/uart.h *)
Definition uart_write (data : list Z) (len : Z) : PM unit :=
  l <- load (if len <=? Z.of_nat (length data) then Some (take (Z.to_nat len) data) else None) ;;
  modify (λ s, mkPump (pu_ipc s) (pu_out s ++ l) (pu_in s)).

(** [hal_uart_getc_nonblock] *)
Definition hal_uart_getc_nonblock : PM (option Z) :=
  s <- get_st ;;
  match pu_in s with
  | [] => ret None
  | ch :: l => put_st (mkPump (pu_ipc s) (pu_out s) l) ;;; ret (Some ch)
  end.

Definition query_intents : PM unit :=
  let max_count := Z.of_nat (length k_uart_intents) in
  let header_size := 4 in
  let max_fit := if header_size <? KS_IPC_MSG_MAX then (KS_IPC_MSG_MAX - header_size) / 20 else 0 in
  let count := if max_fit <? max_count then max_fit else max_count in
  let d := splice 0 (le 4 count) (ks_data junk) in
  let d := if 0 <? count then splice 4 (concat (take (Z.to_nat count) k_uart_intents)) d else d in
  on_ipc (ipc_send_cap caps evt_cap (Some (mkKsMsg UART_TAG_QUERY_INTENTS (u32 (header_size + count * 20)) d))) ;;;
  ret tt.

Definition open_contract (data : list Z) (len : Z) : PM unit :=
  if 8 <=? len then
    let kind := unle (take 4 data) in
    let rights := unle (take 4 (drop 4 data)) in
    let src := if kind =? UART_CONTRACT_CMD then cmd_cap else if kind =? UART_CONTRACT_EVT then evt_cap else CAP_HANDLE_INVALID in
    r <- (if negb (src =? CAP_HANDLE_INVALID) then
            c <- on_ipc (zoom cap_lens (cap_dup caps src caps rights true)) ;;
            ret match c with
                | inr h => (KS_STATUS_OK, h)
                | inl CAP_ERR_DENIED => (KS_STATUS_NO_RIGHTS, CAP_HANDLE_INVALID)
                | inl CAP_ERR_NO_MEM => (KS_STATUS_OUT_OF_MEMORY, CAP_HANDLE_INVALID)
                | inl _ => (KS_STATUS_INVALID_ARG, CAP_HANDLE_INVALID)
                end
          else ret (KS_STATUS_INVALID_ARG, CAP_HANDLE_INVALID)) ;;
    let '(resp_status, new_cap) := r in
    let d := splice 8 (le 8 new_cap) (splice 4 (le 4 0) (splice 0 (le 4 (u32 resp_status)) (ks_data junk))) in
    on_ipc (ipc_send_cap caps evt_cap (Some (mkKsMsg UART_TAG_OPEN_CONTRACT 16 d))) ;;;
    ret tt
  else ret tt.

(** One command. *)
Definition serve (msg : ks_ipc_msg) : PM unit :=
  if (ks_tag msg =? UART_TAG_WRITE) && (0 <? ks_len msg) then uart_write (ks_data msg) (ks_len msg)
  else if ks_tag msg =? UART_TAG_QUERY_INTENTS then query_intents
  else if ks_tag msg =? UART_TAG_OPEN_CONTRACT then open_contract (ks_data msg) (ks_len msg)
  else ret tt.

(** The loop over the commands ends at the first receive that is not OK. *)
Fixpoint command_loop (msg : ks_ipc_msg) (fuel : nat) : PM unit :=
  match fuel with
  | O => fault
  | S fuel =>
    r <- on_ipc (ipc_try_recv_cap caps cmd_cap (Some msg)) ;;
    match r with
    | (KS_IPC_OK, Some msg) => serve msg ;;; command_loop msg fuel
    | _ => ret tt
    end
  end.

Fixpoint rx_loop (fuel : nat) : PM unit :=
  match fuel with
  | O => fault
  | S fuel =>
    r <- hal_uart_getc_nonblock ;;
    match r with
    | None => ret tt
    | Some ch =>
      on_ipc (ipc_send_cap caps evt_cap (Some (mkKsMsg UART_TAG_RX_EVENT 1 (splice 0 [u8 ch] (ks_data junk))))) ;;;
      rx_loop fuel
    end
  end.

Definition uart_driver_pump (msg : ks_ipc_msg) (fuel : nat) : PM unit :=
  command_loop msg fuel ;;;
  n <- gets (λ s, length (pu_in s)) ;;
  rx_loop (S n).
End ops.

(** ** What the pump does *)

Lemma length_splice n off b l : (off + length b ≤ n)%nat → length l = n → length (splice off b l) = n.
Proof. intros Hb Hl. unfold splice. rewrite !length_app, length_take, length_drop. lia. Qed.

(** The commands that are answered, and the text of one. *)
Definition asks (p : payload) : bool := (p.1 =? UART_TAG_QUERY_INTENTS) || (p.1 =? UART_TAG_OPEN_CONTRACT) && (8 <=? Z.of_nat (length p.2)).
Definition text (p : payload) : list Z := if p.1 =? UART_TAG_WRITE then p.2 else [].
(** The messages received bytes become. *)
Definition rx_events (l : list Z) : list payload := (λ ch, (UART_TAG_RX_EVENT, [u8 ch])) <$> l.

Section spec.
Context {H : Type} {OH : ObjHeap H} (caps cmd_cap evt_cap : Z) (junk : ks_ipc_msg).
(** The two handles of the kernel: rights and endpoints. *)
Context (rc ec re ee : Z).
Context (Hcmd : 0 ≤ cmd_cap < 2 ^ 64) (Hevt : 0 ≤ evt_cap < 2 ^ 64) (Hrc : cap_rights_has rc CAP_R_RECV = true) (Hre : cap_rights_has re CAP_R_SEND = true).
Context (Hec : ec ≠ 0) (Hee : ee ≠ 0) (Hne : ec ≠ ee) (Hjunk : length (ks_data junk) = 128%nat).
Implicit Types (c : cpu_state) (s : ipc_state H) (box : Z → list payload).

Definition wired s : Prop :=
  is_Some (tables (ip_cap s) !! caps) ∧ cap_view (ip_cap s) caps cmd_cap = Some (CAP_TYPE_ENDPOINT, rc, ec) ∧
  cap_view (ip_cap s) caps evt_cap = Some (CAP_TYPE_ENDPOINT, re, ee) ∧ snd <$> registered s ee = Some false.

(** Handles stay what they are, and a new one is in the kernel's table and
    names one of the two endpoints with no right the kernel does not have. *)
Definition grown s s' : Prop :=
  ∀ t h, 0 ≤ h < 2 ^ 64 → cap_view (ip_cap s') t h = cap_view (ip_cap s) t h ∨
    cap_view (ip_cap s) t h = None ∧ t = caps ∧ ∃ r e mask, (r, e) ∈ [(rc, ec); (re, ee)] ∧ cap_view (ip_cap s') t h = Some (CAP_TYPE_ENDPOINT, Z.land r mask, e).

#[local] Instance grown_preorder : PreOrder grown.
Proof.
  split; [by intros s t h _; left|]. intros s1 s2 s3 G1 G2 t h Hh. destruct (G1 t h Hh) as [E1|(N1 & Et & r & e & mask & Hin & E1)].
  - destruct (G2 t h Hh) as [E2|(N2 & Et2 & r2 & e2 & m2 & Hin2 & E2)]; [left; congruence|]. right. split; [congruence|]. split; [done|]. by exists r2, e2, m2.
  - destruct (G2 t h Hh) as [E2|(N2 & _)]; [|congruence]. right. split; [done|]. split; [done|]. exists r, e, mask. split; [done|congruence].
Qed.

Lemma grown_view s s' t h v : grown s s' → 0 ≤ h < 2 ^ 64 → cap_view (ip_cap s) t h = Some v → cap_view (ip_cap s') t h = Some v.
Proof. intros G Hh E. destruct (G t h Hh) as [->|[N _]]; [done|congruence]. Qed.

Lemma grown_views_same s s' : view_same (ip_cap s) (ip_cap s') → grown s s'.
Proof. intros V t h Hh. left. by apply V. Qed.

(** What a request for a handle, of a kind and with a mask of rights, gets:
    status [st] and handle [h]. *)
Definition asked_kind (p : payload) : Z := unle (take 4 p.2).
Definition asked_rights (p : payload) : Z := unle (take 4 (drop 4 p.2)).
Definition of_kind (kind r e : Z) : Prop := kind = UART_CONTRACT_CMD ∧ r = rc ∧ e = ec ∨ kind = UART_CONTRACT_EVT ∧ r = re ∧ e = ee.
Definition granted s (p : payload) (st h : Z) : Prop :=
  if decide (st = KS_STATUS_OK) then
    ∃ r e, of_kind (asked_kind p) r e ∧ 0 < h < 2 ^ 64 ∧ cap_view (ip_cap s) caps h = Some (CAP_TYPE_ENDPOINT, Z.land r (asked_rights p), e)
  else h = CAP_HANDLE_INVALID.

(** The answer to a command, read in the state [s'] it leads to. *)
Definition answers s' (p r : payload) : Prop :=
  if p.1 =? UART_TAG_QUERY_INTENTS then r = (UART_TAG_QUERY_INTENTS, le 4 3 ++ concat k_uart_intents)
  else ∃ st h, r = (UART_TAG_OPEN_CONTRACT, le 4 (u32 st) ++ le 4 0 ++ le 8 h) ∧ granted s' p st h.

Lemma answers_mono s s' p r : grown s s' → answers s p r → answers s' p r.
Proof.
  intros G. unfold answers, granted. destruct (p.1 =? UART_TAG_QUERY_INTENTS); [done|]. intros (st & h & E & Hst). exists st, h. split; [done|].
  destruct (decide (st = KS_STATUS_OK)) as [_|_]; [|done]. destruct Hst as (r0 & e & Hk & Hh & Hv). exists r0, e. split; [done|]. split; [done|].
  eapply grown_view; [done|lia|done].
Qed.

(** After handling the commands [ps]: the answers are at the event endpoint,
    the text is on the port. *)
Record served (ps : list payload) (box : Z → list payload) (s : pump_state H) (box' : Z → list payload) (s' : pump_state H) : Prop := {
  sv_ok : ipc_ok (pu_ipc s') box';
  sv_wired : wired (pu_ipc s');
  sv_grown : grown (pu_ipc s) (pu_ipc s');
  sv_replies : ∃ replies, Forall2 (answers (pu_ipc s')) (filter asks ps) replies ∧ box' ee = box ee ++ replies;
  sv_others : ∀ e, e ≠ ec → e ≠ ee → box' e = box e;
  sv_out : pu_out s' = pu_out s ++ concat (text <$> ps);
  sv_in : pu_in s' = pu_in s;
}.

Lemma inv_caps s lv ql box rq X k lv' : ipc_inv s lv ql box rq X → cap_inv k lv' → lv' CEndpoint = lv CEndpoint → lv' CIpcMsg = lv CIpcMsg →
  (∀ t h r e, 0 ≤ h < 2 ^ 64 → cap_view k t h = Some (CAP_TYPE_ENDPOINT, r, e) → e ≠ 0 → is_Some (endpoints s !! e)) →
  ipc_inv (lset cap_lens k s) lv' ql box rq X.
Proof. intros I Hk E1 E2 Hv. pose proof I as []. split; cbn; try done; [by rewrite E1|by rewrite E2]. Qed.

Lemma wired_kept s s' : caps_kept s s' → snd <$> registered s' ee = Some false → wired s → wired s' ∧ grown s s'.
Proof.
  intros K Hr (W1 & W2 & W3 & _). split; [|apply grown_views_same; intros t h _; by apply caps_kept_view]. unfold wired. rewrite !(caps_kept_view s s') by done.
  destruct K as [-> _]. by split_and!.
Qed.

(** A message to the event endpoint arrives. *)
Lemma send_event_correct m c (s : pump_state H) box : ipc_ok (pu_ipc s) box → wired (pu_ipc s) → cpu_wf c → irq_depth c = 0 → ks_msg_ok m → ks_len m ≤ KS_IPC_MSG_MAX →
  wpe (on_ipc (ipc_send_cap caps evt_cap (Some m))) (λ _ c' (s' : pump_state H), c' = c ∧ wired (pu_ipc s') ∧ grown (pu_ipc s) (pu_ipc s') ∧ pu_out s' = pu_out s ∧ pu_in s' = pu_in s ∧
    ∃ box', ipc_ok (pu_ipc s') box' ∧ box' ee = box ee ++ [sent m] ∧ ∀ e, e ≠ ee → box' e = box e) (λ x, x = "ipc_msg_alloc: OOM") c s.
Proof.
  intros (lv & ql & rq & I) W Hwf Hd Hm Hl. pose proof W as ([tbl Ht] & _ & Wv & Wr). unfold on_ipc. apply wpe_zoom. cbn [lget pump_ipc].
  eapply wpe_mono; [by eapply (send_correct caps tbl evt_cap m)|]. cbv beta. intros st c' s' (-> & K & Hpost). split; [done|]. cbn [lset pump_ipc pu_ipc pu_out pu_in].
  unfold access in Hpost. rewrite Wv, Hre in Hpost. cbn [negb] in Hpost. rewrite bool_decide_true in Hpost by done. destruct (Z.eqb_spec ee 0) as [|_]; [done|]. cbn [negb orb] in Hpost.
  destruct Hpost as (ep & He & Hpost). unfold registered in Wr. rewrite He in Wr. cbn in Wr. assert (closed ep = false) as Ec by congruence. rewrite Ec in Hpost.
  destruct Hpost as (_ & lv' & ql' & rq' & I' & Hr & _). destruct (wired_kept (pu_ipc s) s' K) as [W' G']; [by rewrite Hr|done|].
  split; [done|]. split; [done|]. split; [done|]. split; [done|]. eexists. split; [by exists lv', ql', rq'|]. split; [by rewrite on_eq|]. intros e Hne'. by rewrite on_ne.
Qed.

Lemma served_refl box (s : pump_state H) p : ipc_ok (pu_ipc s) box → wired (pu_ipc s) → asks p = false → text p = [] → served [p] box s box s.
Proof.
  intros Hok W Ha Ht. split; try done; [|cbn; by rewrite Ht, !app_nil_r]. exists []. rewrite filter_cons_False by (rewrite Ha; tauto). split; [constructor|by rewrite app_nil_r].
Qed.

(** An answer that was sent. *)
Lemma served_answer p m box box' (s s1 s' : pump_state H) : asks p = true → text p = [] → wired (pu_ipc s') → grown (pu_ipc s) (pu_ipc s1) → grown (pu_ipc s1) (pu_ipc s') →
  pu_out s1 = pu_out s → pu_in s1 = pu_in s → pu_out s' = pu_out s1 → pu_in s' = pu_in s1 → ipc_ok (pu_ipc s') box' → box' ee = box ee ++ [sent m] →
  (∀ e, e ≠ ee → box' e = box e) → answers (pu_ipc s1) p (sent m) → served [p] box s box' s'.
Proof.
  intros Ha Ht W G1 G2 O1 N1 O2 N2 Hok Hb Ho An. split; try done; [by transitivity (pu_ipc s1)| |intros e _; apply Ho|cbn; rewrite Ht, !app_nil_r; congruence|congruence].
  exists [sent m]. split; [|done]. rewrite filter_cons_True by (by rewrite Ha). repeat constructor. by eapply answers_mono.
Qed.

Lemma query_correct p c (s : pump_state H) box : ipc_ok (pu_ipc s) box → wired (pu_ipc s) → cpu_wf c → irq_depth c = 0 → p.1 = UART_TAG_QUERY_INTENTS →
  wpe (query_intents caps evt_cap junk) (λ _ c' (s' : pump_state H), c' = c ∧ ∃ box', served [p] box s box' s' ∧ box' ec = box ec) (λ x, x = "ipc_msg_alloc: OOM") c s.
Proof.
  intros Hok W Hwf Hd Hp. unfold query_intents. change (Z.of_nat (length k_uart_intents)) with 3. change KS_IPC_MSG_MAX with 128. cbn [Z.ltb Z.compare Pos.compare Pos.compare_cont].
  change ((128 - 4) / 20) with 6. cbn [Z.ltb Z.compare Pos.compare Pos.compare_cont]. change (u32 (4 + 3 * 20)) with 64. change (concat (take (Z.to_nat 3) k_uart_intents)) with (concat k_uart_intents).
  set (d := splice 4 (concat k_uart_intents) (splice 0 (le 4 3) (ks_data junk))).
  assert (length (concat k_uart_intents) = 60%nat) as Lk by reflexivity. assert (length d = 128%nat) as Ld by (unfold d; repeat (apply length_splice; [rewrite ?Lk, ?length_le; lia|]); done).
  set (m := mkKsMsg UART_TAG_QUERY_INTENTS 64 d). assert (sent m = (UART_TAG_QUERY_INTENTS, le 4 3 ++ concat k_uart_intents)) as Es by reflexivity.
  apply wpe_bind. eapply wpe_mono; [apply (send_event_correct m c s box Hok W Hwf Hd); [split; [cbn; lia|done]|cbn; unfold KS_IPC_MSG_MAX; lia]|]. cbv beta.
  intros _ c' s' (-> & W' & G' & O' & N' & box' & Hok' & Hb & Ho). apply wpe_wp. wp_steps. split; [done|]. exists box'. split; [|by apply Ho].
  apply (served_answer p m box box' s s s'); try done; [by unfold asks; rewrite Hp|by unfold text; rewrite Hp|]. unfold answers. rewrite Hp. exact Es.
Qed.

(** Duplicating one of the two handles. *)
Lemma dup_handle_correct src r e mask c (s : pump_state H) box : ipc_ok (pu_ipc s) box → wired (pu_ipc s) → irq_depth c = 0 → (r, e) ∈ [(rc, ec); (re, ee)] →
  cap_view (ip_cap (pu_ipc s)) caps src = Some (CAP_TYPE_ENDPOINT, r, e) →
  wp (on_ipc (zoom cap_lens (cap_dup caps src caps mask true))) (λ a c' (s' : pump_state H), c' = c ∧ ipc_ok (pu_ipc s') box ∧ wired (pu_ipc s') ∧
    grown (pu_ipc s) (pu_ipc s') ∧ pu_out s' = pu_out s ∧ pu_in s' = pu_in s ∧
    ∀ h, a = inr h → 0 < h < 2 ^ 64 ∧ cap_view (ip_cap (pu_ipc s')) caps h = Some (CAP_TYPE_ENDPOINT, Z.land r mask, e)) c s.
Proof.
  intros (lv & ql & rq & I) W Hd Hre' Hsrc. pose proof W as ([tbl Ht] & Wc & We & Wr). unfold on_ipc. do 2 apply wp_zoom. cbn [lget lset pump_ipc].
  eapply wp_mono; [eapply (dup_correct caps tbl src caps tbl mask c (ip_cap (pu_ipc s)) lv); [apply I|done|done|done]|]. cbv beta.
  intros a c' k (-> & Hpost). split; [done|]. cbn [pu_ipc pu_out pu_in]. unfold derive_post in Hpost. rewrite Hsrc in Hpost.
  assert (ipc_ok (pu_ipc s) box) as Hok by (by exists lv, ql, rq).
  destruct (cap_rights_has r CAP_R_DUP); last first.
  { destruct Hpost as [-> ->]. replace (lset cap_lens (ip_cap (pu_ipc s)) (pu_ipc s)) with (pu_ipc s) by (by destruct (pu_ipc s)).
    split; [done|]. split; [done|]. split; [reflexivity|]. split; [done|]. split; [done|]. by intros h [=]. }
  destruct Hpost as (lv' & Hstep & Hpost). set (s' := lset cap_lens k (pu_ipc s)). assert (ip_cap s' = k) as Ek by reflexivity.
  assert (grown (pu_ipc s) s') as G.
  { destruct a as [st|h]; [apply grown_views_same, Hpost|]. destruct Hpost as (Hh & Hno & Hup). intros t h' Hh'. rewrite Ek, (Hup t h' Hh').
    destruct (decide (t = caps ∧ h' = h)) as [[-> ->]|_]; [|by left]. right. split; [done|]. split; [done|]. by exists r, e, mask. }
  assert (wired s') as W'.
  { split_and!; [by apply (cs_dom _ _ _ _ _ Hstep); eexists|by eapply grown_view|by eapply grown_view|exact Wr]. }
  split; [|split; [done|]; split; [done|]; split; [done|]; split; [done|]].
  - exists lv', ql, rq. apply (inv_caps _ lv); [done|apply Hstep|by apply Hstep|by apply Hstep|]. intros t h r' e' Hh Hv He'.
    destruct (G t h Hh) as [E|(_ & _ & r0 & e0 & m0 & Hin & E)]; rewrite Ek, Hv in E; [by eapply (ii_view _ _ _ _ _ _ I t h r')|].
    assert (e' = e0) as -> by congruence. rewrite list_elem_of_In in Hin. destruct Hin as [Hin|[Hin|[]]]; injection Hin as <- <-.
    + by eapply (ii_view _ _ _ _ _ _ I caps cmd_cap rc).
    + by eapply (ii_view _ _ _ _ _ _ I caps evt_cap re).
  - intros h ->. destruct Hpost as (Hh & _ & Hup). split; [done|]. rewrite Ek, Hup by lia. by rewrite decide_True.
Qed.

(** The reply to a request for a handle. *)
Lemma open_reply_correct p st h c (s s1 : pump_state H) box : p.1 = UART_TAG_OPEN_CONTRACT → asks p = true → ipc_ok (pu_ipc s1) box → wired (pu_ipc s1) →
  cpu_wf c → irq_depth c = 0 → grown (pu_ipc s) (pu_ipc s1) → pu_out s1 = pu_out s → pu_in s1 = pu_in s →
  granted (pu_ipc s1) p st h →
  wpe (on_ipc (ipc_send_cap caps evt_cap (Some (mkKsMsg UART_TAG_OPEN_CONTRACT 16
         (splice 8 (le 8 h) (splice 4 (le 4 0) (splice 0 (le 4 (u32 st)) (ks_data junk))))))) ;;; ret tt)
    (λ _ c' (s' : pump_state H), c' = c ∧ ∃ box', served [p] box s box' s' ∧ box' ec = box ec) (λ x, x = "ipc_msg_alloc: OOM") c s1.
Proof.
  intros Hp Ha Hok W Hwf Hd G O N Hst. set (m := mkKsMsg _ _ _). assert (sent m = (UART_TAG_OPEN_CONTRACT, le 4 (u32 st) ++ le 4 0 ++ le 8 h)) as Es by reflexivity.
  apply wpe_bind. eapply wpe_mono; [apply (send_event_correct m c s1 box Hok W Hwf Hd); [|cbn; unfold KS_IPC_MSG_MAX; lia]|].
  { split; [cbn; lia|]. cbn [ks_data m]. repeat (apply length_splice; [rewrite length_le; lia|]). done. }
  cbv beta. intros _ c' s' (-> & W' & G' & O' & N' & box' & Hok' & Hb & Ho). apply wpe_wp. wp_steps. split; [done|]. exists box'. split; [|by apply Ho].
  apply (served_answer p m box box' s s1 s'); try done; [by unfold text; rewrite Hp|]. unfold answers. rewrite Hp. rewrite Es. by exists st, h.
Qed.

Lemma open_dup_correct p src r e c (s : pump_state H) box : ipc_ok (pu_ipc s) box → wired (pu_ipc s) → irq_depth c = 0 → of_kind (asked_kind p) r e →
  cap_view (ip_cap (pu_ipc s)) caps src = Some (CAP_TYPE_ENDPOINT, r, e) →
  wp (a <- on_ipc (zoom cap_lens (cap_dup caps src caps (asked_rights p) true)) ;;
      ret match a with
          | inr h => (KS_STATUS_OK, h)
          | inl CAP_ERR_DENIED => (KS_STATUS_NO_RIGHTS, CAP_HANDLE_INVALID)
          | inl CAP_ERR_NO_MEM => (KS_STATUS_OUT_OF_MEMORY, CAP_HANDLE_INVALID)
          | inl _ => (KS_STATUS_INVALID_ARG, CAP_HANDLE_INVALID)
          end)
    (λ a c' (s1 : pump_state H), c' = c ∧ ipc_ok (pu_ipc s1) box ∧ wired (pu_ipc s1) ∧ grown (pu_ipc s) (pu_ipc s1) ∧ pu_out s1 = pu_out s ∧ pu_in s1 = pu_in s ∧
      granted (pu_ipc s1) p a.1 a.2) c s.
Proof.
  intros Hok W Hd Hk Hv. wp_step. eapply wp_mono; [apply (dup_handle_correct src r e (asked_rights p) c s box); try done|].
  { destruct Hk as [(_ & -> & ->)|(_ & -> & ->)]; set_solver. }
  cbv beta. intros a c' s1 (-> & Hok1 & W1 & G1 & O1 & N1 & Hnew). wp_steps. split_and!; try done. unfold granted. destruct a as [st|h].
  - by destruct st.
  - destruct (Hnew h eq_refl) as [Hh Hv1]. cbn [fst snd]. rewrite decide_True by done. by exists r, e.
Qed.

Lemma open_correct p data c (s : pump_state H) box : p.1 = UART_TAG_OPEN_CONTRACT → ipc_ok (pu_ipc s) box → wired (pu_ipc s) → cpu_wf c → irq_depth c = 0 →
  wpe (open_contract caps cmd_cap evt_cap junk (p.2 ++ data) (Z.of_nat (length p.2)))
    (λ _ c' (s' : pump_state H), c' = c ∧ ∃ box', served [p] box s box' s' ∧ box' ec = box ec) (λ x, x = "ipc_msg_alloc: OOM") c s.
Proof.
  intros Hp Hok W Hwf Hd. pose proof W as (_ & Wc & We & _). assert (asks p = (8 <=? Z.of_nat (length p.2))) as Ha by (unfold asks; by rewrite Hp).
  assert (text p = []) as Ht by (unfold text; by rewrite Hp). unfold open_contract. destruct (Z.leb_spec 8 (Z.of_nat (length p.2))) as [Hl|Hl]; last first.
  { apply wpe_wp. wp_steps. split; [done|]. exists box. split; [by apply served_refl|done]. }
  rewrite (take_app_le p.2 data 4), (drop_app_le p.2 data 4), (take_app_le (drop 4 p.2) data 4) by (rewrite ?length_drop; lia).
  fold (asked_kind p) (asked_rights p). apply wpe_bind.
  assert (granted (pu_ipc s) p KS_STATUS_INVALID_ARG CAP_HANDLE_INVALID) as Hno by (unfold granted; by rewrite decide_False).
  eapply wpe_mono; [apply wpe_wp; instantiate (1 := λ a c' (s1 : pump_state H), c' = c ∧ ipc_ok (pu_ipc s1) box ∧ wired (pu_ipc s1) ∧ grown (pu_ipc s) (pu_ipc s1) ∧
    pu_out s1 = pu_out s ∧ pu_in s1 = pu_in s ∧ granted (pu_ipc s1) p a.1 a.2)|].
  - destruct (Z.eqb_spec (asked_kind p) UART_CONTRACT_CMD) as [Ek|_]; [|destruct (Z.eqb_spec (asked_kind p) UART_CONTRACT_EVT) as [Ek|_]].
    + destruct (Z.eqb_spec cmd_cap CAP_HANDLE_INVALID) as [_|_]; cbn [negb]; [by wp_steps|]. apply (open_dup_correct p cmd_cap rc ec); try done. by left.
    + destruct (Z.eqb_spec evt_cap CAP_HANDLE_INVALID) as [_|_]; cbn [negb]; [by wp_steps|]. apply (open_dup_correct p evt_cap re ee); try done. by right.
    + rewrite Z.eqb_refl. cbn [negb]. by wp_steps.
  - cbv beta. intros [st h] c' s1 (-> & Hok1 & W1 & G1 & O1 & N1 & Hg). by apply open_reply_correct.
Qed.

Lemma serve_correct p msg c (s : pump_state H) box : ipc_ok (pu_ipc s) box → wired (pu_ipc s) → cpu_wf c → irq_depth c = 0 →
  wpe (serve caps cmd_cap evt_cap junk (received p msg)) (λ _ c' (s' : pump_state H), c' = c ∧ ∃ box', served [p] box s box' s' ∧ box' ec = box ec)
    (λ x, x = "ipc_msg_alloc: OOM") c s.
Proof.
  intros Hok W Hwf Hd. unfold serve, received. cbn [ks_tag ks_len ks_data]. destruct (Z.eqb_spec p.1 UART_TAG_WRITE) as [Ew|Ew].
  - assert (asks p = false) as Ha by (unfold asks; by rewrite Ew). assert (text p = p.2) as Ht by (unfold text; by rewrite Ew).
    destruct (Z.ltb_spec 0 (Z.of_nat (length p.2))) as [Hl|Hl]; cbn [andb].
    + unfold uart_write. rewrite length_app. destruct (Z.leb_spec (Z.of_nat (length p.2)) (Z.of_nat (length p.2 + length (drop (length p.2) (ks_data msg))))) as [_|]; [|lia].
      apply wpe_wp. wp_steps. rewrite Nat2Z.id, take_app_length. split; [done|]. exists box. split; [|done]. split; try done; [|cbn; by rewrite Ht, app_nil_r].
      exists []. rewrite filter_cons_False by (rewrite Ha; tauto). split; [constructor|by rewrite app_nil_r].
    + rewrite Ew. cbn. split; [done|]. exists box. split; [|done]. apply served_refl; try done. rewrite Ht. by destruct p.2; [|cbn in Hl; lia].
  - cbn [andb]. destruct (Z.eqb_spec p.1 UART_TAG_QUERY_INTENTS) as [Eq|Eq]; [by apply query_correct|].
    destruct (Z.eqb_spec p.1 UART_TAG_OPEN_CONTRACT) as [Eo|Eo]; [by apply open_correct|]. apply wpe_wp. wp_steps. split; [done|]. exists box. split; [|done].
    apply served_refl; try done.
    + unfold asks. by destruct (Z.eqb_spec p.1 UART_TAG_QUERY_INTENTS), (Z.eqb_spec p.1 UART_TAG_OPEN_CONTRACT).
    + unfold text. by destruct (Z.eqb_spec p.1 UART_TAG_WRITE).
Qed.

(** A message that was received leaves a buffer for the next one. *)
Lemma payload_fits s box e p ps : ipc_ok s box → box e = p :: ps → (length p.2 ≤ 128)%nat.
Proof.
  intros (lv & ql & rq & I) Eb. destruct (endpoints s !! e) as [ep|] eqn:He; [|destruct (ii_none _ _ _ _ _ _ I e He); congruence].
  pose proof (qr_carries _ _ _ _ (ii_queue _ _ _ _ _ _ I e ep He)) as Hc. rewrite Eb in Hc. inversion Hc as [|m ? ? ? Hm]; subst.
  destruct Hm as (v & Hv & <- & [Hl Hdl]). cbn. rewrite length_take. unfold KS_IPC_MSG_MAX in Hl. lia.
Qed.

Lemma received_buffer p msg : (length p.2 ≤ 128)%nat → buffer_ok msg → buffer_ok (received p msg).
Proof. unfold buffer_ok, received. cbn. intros Hp Hm. rewrite length_app, length_drop. lia. Qed.

(** A command taken from the endpoint, what it leads to, and the rest. *)
Lemma served_cons p ps box box1 box2 box3 (s s1 s2 s3 : pump_state H) : grown (pu_ipc s) (pu_ipc s1) → pu_out s1 = pu_out s → pu_in s1 = pu_in s →
  (∀ e, e ≠ ec → box1 e = box e) → served [p] box1 s1 box2 s2 → served ps box2 s2 box3 s3 → served (p :: ps) box s box3 s3.
Proof.
  intros G O N B [S1 S2 S3 (r1 & A1 & E1) S5 S6 S7] [T1 T2 T3 (r2 & A2 & E2) T5 T6 T7]. split; try done.
  - transitivity (pu_ipc s1); [done|]. by transitivity (pu_ipc s2).
  - exists (r1 ++ r2). split; [|rewrite E2, E1, (B ee) by done; by rewrite app_assoc]. change (p :: ps) with ([p] ++ ps). rewrite filter_app. apply Forall2_app; [|done].
    eapply Forall2_impl; [exact A1|]. intros x y. by apply answers_mono.
  - intros e H1 H2. rewrite T5, S5 by done. by apply B.
  - rewrite T6, S6, O. cbn. by rewrite app_nil_r, app_assoc.
  - congruence.
Qed.

Lemma command_loop_correct fuel msg c (s : pump_state H) box : ipc_ok (pu_ipc s) box → wired (pu_ipc s) → cpu_wf c → irq_depth c = 0 → buffer_ok msg → (length (box ec) < fuel)%nat →
  wpe (command_loop caps cmd_cap evt_cap junk msg fuel) (λ _ c' (s' : pump_state H), c' = c ∧ ∃ box', served (box ec) box s box' s' ∧ box' ec = [])
    (λ x, x = "ipc_msg_alloc: OOM") c s.
Proof.
  revert msg s box. induction fuel as [|fuel IH]; intros msg s box Hok W Hwf Hd Hm Hf; [lia|]. cbn [command_loop]. pose proof Hok as (lv & ql & rq & I). pose proof W as ([tbl Ht] & Wc & _ & Wr).
  wpe_step. unfold on_ipc. wp_step. cbn [lget lset pump_ipc]. eapply wp_mono; [by eapply (try_recv_correct caps tbl cmd_cap msg c (pu_ipc s))|]. cbv beta.
  intros a c' s1 (-> & K & Hpost). unfold access in Hpost. rewrite Wc, Hrc in Hpost. cbn [negb] in Hpost. rewrite bool_decide_true in Hpost by done.
  destruct (Z.eqb_spec ec 0) as [|_]; [done|]. cbn [negb orb] in Hpost. destruct Hpost as (ep & He & Hpost). destruct (box ec) as [|p ps] eqn:Eb.
  - destruct Hpost as [-> ->]. replace (mkPump (pu_ipc s) (pu_out s) (pu_in s)) with s by (by destruct s). apply wpe_wp.
    assert (served [] box s box s) as S0 by (split; try done; [exists []; split; [constructor|by rewrite app_nil_r]|by rewrite app_nil_r]).
    destruct (closed ep); wp_steps; (split; [done|]; by exists box).
  - destruct Hpost as (o & -> & _ & -> & _ & Hreg & lv1 & ql1 & I1). destruct (wired_kept (pu_ipc s) s1 K) as [W1 G1]; [by rewrite Hreg|done|].
    pose proof (payload_fits _ _ _ _ _ Hok Eb) as Hp. apply wpe_bind. eapply wpe_mono; [apply (serve_correct p msg c (mkPump s1 (pu_out s) (pu_in s)) (on ec ps box)); [by exists lv1, ql1, rq|done..]|].
    cbv beta. intros [] c' s2 (-> & box2 & S2 & E2). rewrite on_eq in E2. eapply wpe_mono.
    { apply (IH (received p msg) s2 box2); [apply S2|apply S2|done|done|by apply received_buffer|rewrite E2; cbn in Hf; lia]. }
    cbv beta. intros [] c' s3 (-> & box3 & S3 & E3). split; [done|]. exists box3. split; [|done]. rewrite E2 in S3.
    eapply (served_cons p ps box (on ec ps box) box2 box3 s (mkPump s1 (pu_out s) (pu_in s)) s2 s3); try done. intros e Hn. by rewrite on_ne.
Qed.

Lemma rx_loop_correct l c (s : pump_state H) box : pu_in s = l → ipc_ok (pu_ipc s) box → wired (pu_ipc s) → cpu_wf c → irq_depth c = 0 →
  wpe (rx_loop caps evt_cap junk (S (length l))) (λ _ c' (s' : pump_state H), c' = c ∧ pu_in s' = [] ∧ pu_out s' = pu_out s ∧ grown (pu_ipc s) (pu_ipc s') ∧
    ∃ box', ipc_ok (pu_ipc s') box' ∧ box' ee = box ee ++ rx_events l ∧ ∀ e, e ≠ ee → box' e = box e) (λ x, x = "ipc_msg_alloc: OOM") c s.
Proof.
  revert s box. induction l as [|ch l IH]; intros s box El Hok W Hwf Hd; cbn [length rx_loop]; wpe_step; unfold hal_uart_getc_nonblock; wp_steps; rewrite El; wp_steps.
  - apply wpe_wp. wp_steps. split; [done|]. split; [done|]. split; [done|]. split; [reflexivity|]. exists box. cbn. by rewrite app_nil_r.
  - apply wpe_bind. set (m := mkKsMsg _ _ _). eapply wpe_mono; [apply (send_event_correct m c (mkPump (pu_ipc s) (pu_out s) l) box Hok W Hwf Hd); [|cbn; unfold KS_IPC_MSG_MAX; lia]|].
    { split; [cbn; lia|]. apply length_splice; [cbn; lia|done]. }
    cbv beta. intros _ c' s1 (-> & W1 & G1 & O1 & N1 & box1 & Hok1 & Hb1 & Ho1). cbn [pu_ipc pu_out pu_in] in *.
    eapply wpe_mono; [by apply (IH s1 box1)|]. cbv beta. intros [] c' s2 (-> & E2 & O2 & G2 & box2 & Hok2 & Hb2 & Ho2).
    split; [done|]. split; [done|]. split; [congruence|]. split; [by transitivity (pu_ipc s1)|]. exists box2. split; [done|]. split.
    + rewrite Hb2, Hb1. change (sent m) with (UART_TAG_RX_EVENT, [u8 ch]). cbn [rx_events fmap list_fmap]. by rewrite <- app_assoc.
    + intros e Hn. by rewrite Ho2, Ho1.
Qed.

(** C34: uart_driver_pump serves every command that waits, in order: the text
    of the writes and nothing else reaches the serial port, each question and
    each request for a handle gets its answer at the event endpoint, followed
    by one event per received byte, and no other endpoint changes. A handle
    that is handed out names the endpoint asked for with the rights asked for
    that the kernel has, and no other handle changes. The only panic is out of
    memory. *)
Theorem uart_driver_pump_spec msg fuel c (s : pump_state H) box : ipc_ok (pu_ipc s) box → wired (pu_ipc s) → cpu_wf c → irq_depth c = 0 → buffer_ok msg →
  (length (box ec) < fuel)%nat →
  wpe (uart_driver_pump caps cmd_cap evt_cap junk msg fuel) (λ _ c' (s' : pump_state H), c' = c ∧
    pu_out s' = pu_out s ++ concat (text <$> box ec) ∧ pu_in s' = [] ∧ grown (pu_ipc s) (pu_ipc s') ∧
    ∃ box' replies, ipc_ok (pu_ipc s') box' ∧ box' ec = [] ∧ box' ee = box ee ++ replies ++ rx_events (pu_in s) ∧
      Forall2 (answers (pu_ipc s')) (filter asks (box ec)) replies ∧ ∀ e, e ≠ ec → e ≠ ee → box' e = box e)
    (λ x, x = "ipc_msg_alloc: OOM") c s.
Proof.
  intros Hok W Hwf Hd Hm Hf. unfold uart_driver_pump. apply wpe_bind. eapply wpe_mono; [by apply (command_loop_correct fuel msg c s box)|]. cbv beta.
  intros [] c' s1 (-> & box1 & [S1 S2 S3 (rs & A1 & E1) S5 S6 S7] & E0). wpe_step. wp_steps. eapply wpe_mono; [by apply (rx_loop_correct (pu_in s1) c s1 box1)|]. cbv beta.
  intros [] c' s2 (-> & I2 & O2 & G2 & box2 & Hok2 & Hb2 & Ho2). split; [done|]. split; [congruence|]. split; [done|]. split; [by transitivity (pu_ipc s1)|].
  exists box2, rs. split; [done|]. split; [by rewrite Ho2|]. split; [rewrite Hb2, E1, S7; by rewrite app_assoc|]. split.
  - eapply Forall2_impl; [exact A1|]. intros x y. by apply answers_mono.
  - intros e H1 H2. rewrite Ho2 by done. by apply S5.
Qed.
End spec.

(** A send that succeeded. *)
Lemma sent_ok {H : Type} {OH : ObjHeap H} t h e m c (s s' : ipc_state H) box : ipc_ok s box → is_Some (tables (ip_cap s) !! t) → access s t h CAP_R_SEND = inr e →
  cpu_wf c → irq_depth c = 0 → 0 ≤ h < 2 ^ 64 → ks_msg_ok m → ks_len m ≤ KS_IPC_MSG_MAX → ipc_send_cap t h (Some m) c s = Ret (KS_IPC_OK, c, s') →
  ipc_ok s' (on e (box e ++ [sent m]) box).
Proof.
  intros (lv & ql & rq & I) [tbl Ht] Ea Hwf Hd Hh Hm Hl Hs. pose proof (send_correct t tbl h m c s lv ql box rq I Hwf Hd Ht Hh Hm Hl) as Hw.
  eapply wpe_elim in Hw; [|exact Hs]. destruct Hw as (_ & _ & Hw). rewrite Ea in Hw. destruct Hw as (ep & _ & Hw). destruct (closed ep); [by destruct Hw|].
  destruct Hw as (_ & lv' & ql' & rq' & I' & _). by exists lv', ql', rq'.
Qed.

(** ** A concrete port *)

Module Port.
Definition port_rights : Z := Z.lor send_recv CAP_R_DUP.
Definition junk : ks_ipc_msg := mkKsMsg 0 0 (replicate 128 0xAA).

(** A command endpoint and an event endpoint. *)
Definition state_of {A} (m : M (ipc_state ideal_heap) A) (s : ipc_state ideal_heap) : ipc_state ideal_heap :=
  match m thread_cpu s with Ret (_, _, s') => s' | _ => s end.
Definition one : ipc_state ideal_heap := state_of (endpoint_create_cap 0x10 port_rights true) ipc_start.
Definition two : ipc_state ideal_heap := state_of (endpoint_create_cap 0x10 port_rights true) one.
Definition cmd : Z := cap_handle_make 1 255.
Definition evt : Z := cap_handle_make 1 254.
Definition cmd_ep : Z := 0x1000.

Lemma one_eq : endpoint_create_cap 0x10 port_rights true thread_cpu ipc_start = Ret (inr cmd, thread_cpu, one).
Proof. vm_compute. reflexivity. Qed.
Lemma two_eq : endpoint_create_cap 0x10 port_rights true thread_cpu one = Ret (inr evt, thread_cpu, two).
Proof. vm_compute. reflexivity. Qed.

Definition evt_ep : Z := 0x1080.

Lemma two_ok : ipc_ok two (λ _, []).
Proof.
  pose proof (create_cap_correct 0x10 init_table port_rights thread_cpu _ _ _ _ _ ipc_start_inv eq_refl eq_refl) as H1. eapply wpe_elim in H1; [|exact one_eq].
  destruct H1 as (_ & _ & lv1 & I1). assert (is_Some (tables (ip_cap one) !! 0x10)) as [tbl Ht] by (vm_compute; by eexists).
  pose proof (create_cap_correct 0x10 tbl port_rights thread_cpu _ _ _ _ _ I1 eq_refl Ht) as H2. eapply wpe_elim in H2; [|exact two_eq].
  destruct H2 as (_ & _ & lv2 & I2). by eexists _, _, _.
Qed.

(** A request for a handle to the event endpoint with the right to send. *)
Definition request : ks_ipc_msg := mkKsMsg UART_TAG_OPEN_CONTRACT 8 (le 4 UART_CONTRACT_EVT ++ le 4 CAP_R_SEND ++ replicate 120 0).
Definition three : ipc_state ideal_heap := state_of (ipc_send_cap 0x10 cmd (Some request)) two.
Lemma three_eq : ipc_send_cap 0x10 cmd (Some request) thread_cpu two = Ret (KS_IPC_OK, thread_cpu, three).
Proof. vm_compute. reflexivity. Qed.

Lemma three_ok : ipc_ok three (on cmd_ep [sent request] (λ _, [])).
Proof.
  apply (sent_ok 0x10 cmd cmd_ep request thread_cpu two three (λ _, [])); [exact two_ok|vm_compute; by eexists|vm_compute; reflexivity|done|reflexivity|done| | |exact three_eq].
  - split; [cbn; lia|reflexivity].
  - cbn. unfold KS_IPC_MSG_MAX. lia.
Qed.

Lemma three_wired : wired 0x10 cmd evt 12328 cmd_ep 12328 evt_ep three.
Proof.
  split; [vm_compute; by eexists|]. split; [vm_compute; reflexivity|]. split; vm_compute; reflexivity.
Qed.

Lemma uart_driver_pump_witness :
  wpe (uart_driver_pump 0x10 cmd evt junk junk 2) (λ _ c' s', pu_out s' = [] ∧ pu_in s' = [] ∧
    ∃ box', ipc_ok (pu_ipc s') box' ∧ box' cmd_ep = [] ∧ ∃ r, box' evt_ep = [r; (UART_TAG_RX_EVENT, [65])])
    (λ x, x = "ipc_msg_alloc: OOM") thread_cpu (mkPump three [] [65]).
Proof.
  eapply wpe_mono; [apply (uart_driver_pump_spec 0x10 cmd evt junk 12328 cmd_ep 12328 evt_ep) with (box := on cmd_ep [sent request] (λ _, []))|].
  - vm_compute. split; [discriminate|reflexivity].
  - vm_compute. split; [discriminate|reflexivity].
  - reflexivity.
  - reflexivity.
  - discriminate.
  - discriminate.
  - discriminate.
  - reflexivity.
  - exact three_ok.
  - exact three_wired.
  - done.
  - reflexivity.
  - reflexivity.
  - rewrite on_eq. cbn. lia.
  - cbv beta. intros [] c' s' (_ & Ho & Hi & _ & box' & rs & Hok & Hc & He & Ha & _). split; [exact Ho|]. split; [exact Hi|]. exists box'. split; [exact Hok|]. split; [exact Hc|].
    rewrite He. apply Forall2_length in Ha. destruct rs as [|r [|]]; [discriminate Ha| |discriminate Ha]. by exists r.
Defined.

(** Evaluated: text and a question, and a byte that arrives; a request. *)
Definition read_event : M (pump_state ideal_heap) (option (Z * list Z)) :=
  a <- zoom pump_ipc (ipc_try_recv_cap 0x10 evt (Some junk)) ;;
  ret (option_map (λ m, (ks_tag m, take 16 (take (Z.to_nat (ks_len m)) (ks_data m)))) a.2).
Definition session : M (pump_state ideal_heap) (list (option (Z * list Z))) :=
  zoom pump_ipc (ipc_send_cap 0x10 cmd (Some (mkKsMsg UART_TAG_WRITE 2 ([72; 105] ++ replicate 126 0)))) ;;;
  zoom pump_ipc (ipc_send_cap 0x10 cmd (Some (mkKsMsg UART_TAG_QUERY_INTENTS 0 (replicate 128 0)))) ;;;
  uart_driver_pump 0x10 cmd evt junk junk 3 ;;;
  a <- read_event ;;
  b <- read_event ;;
  ret [a; b].
Example pump_run :
  match session thread_cpu (mkPump two [] [65]) with
  | Ret (l, _, s) => (l, pu_out s)
  | _ => ([], [])
  end = ([Some (3, le 4 3 ++ le 4 1 ++ le 4 1 ++ le 4 128); Some (2, [65])], [72; 105]).
Proof. vm_compute. reflexivity. Qed.
Example request_run :
  match (uart_driver_pump 0x10 cmd evt junk junk 2 ;;; read_event) thread_cpu (mkPump three [] []) with
  | Ret (a, _, s) => (a, cap_view (ip_cap (pu_ipc s)) 0x10 (cap_handle_make 1 253))
  | _ => (None, None)
  end = (Some (4, le 4 0 ++ le 4 0 ++ le 8 (cap_handle_make 1 253)), Some (CAP_TYPE_ENDPOINT, CAP_R_SEND, evt_ep)).
Proof. vm_compute. reflexivity. Qed.
End Port.
