(* ===== verification/Seed.v ===== *)
(** * The capabilities the core starts with (Kern/Kernel/kmain.c)

    The first part of [core_thread_entry]: the kernel's capability table and
    task, the endpoints of the serial port and of the kernel log, and the
    handles to them.  What follows in the code is the core's
    ([core_boot_attach], [core_main]) and the loop around the serial port's
    driver and the deferred work. *)

From S2P Require Import Prelude Irq ObjHeap Cap Task Sched Ipc KHeap CoreApi CoreCalls Virtio Kmain.

(** The handles of [g_kernel_task], one field changed. *)
Definition put_self (h : Z) (d : task_seed) := mkSeed h (console_ep_cap d) (uart_cmd_ep_cap d) (uart_evt_ep_cap d) (kernel_log_send_cap d) (kernel_log_recv_cap d).
Definition put_cmd (h : Z) (d : task_seed) := mkSeed (self_cap d) (console_ep_cap d) h (uart_evt_ep_cap d) (kernel_log_send_cap d) (kernel_log_recv_cap d).
Definition put_evt (h : Z) (d : task_seed) := mkSeed (self_cap d) (console_ep_cap d) (uart_cmd_ep_cap d) h (kernel_log_send_cap d) (kernel_log_recv_cap d).
Definition put_log_send (h : Z) (d : task_seed) := mkSeed (self_cap d) (console_ep_cap d) (uart_cmd_ep_cap d) (uart_evt_ep_cap d) h (kernel_log_recv_cap d).
Definition put_log_recv (h : Z) (d : task_seed) := mkSeed (self_cap d) (console_ep_cap d) (uart_cmd_ep_cap d) (uart_evt_ep_cap d) (kernel_log_send_cap d) h.
Definition put_console (d : task_seed) := mkSeed (self_cap d) (uart_cmd_ep_cap d) (uart_cmd_ep_cap d) (uart_evt_ep_cap d) (kernel_log_send_cap d) (kernel_log_recv_cap d).
Definition with_seed (f : task_seed → task_seed) (k : task) : task :=
  mkTask (id k) (Task.caps k) (f (seed k)) (default_intent k) (limits k) (window k) (totals k) (throttle k).

Definition rights_task : Z := Z.lor CAP_R_DUP CAP_R_DROP.
Definition rights_uart : Z := Z.lor (Z.lor (Z.lor CAP_R_SEND CAP_R_RECV) CAP_R_DUP) CAP_R_DROP.
Definition rights_log_send : Z := Z.lor (Z.lor CAP_R_SEND CAP_R_DUP) CAP_R_DROP.
Definition rights_log_recv : Z := Z.lor CAP_R_RECV CAP_R_DROP.

Section ops.
Context {H : Type} {OH : ObjHeap H}.
(** [&g_kernel_cap_table] and [&g_kernel_task]. *)
Context (ktable ktask : Z).
Abbreviation CM := (M (core_state H)).

(** [cap_create] on the kernel's table, a panic when it fails. *)
Definition create_or_panic (ty : cap_type) (rts ob : Z) (msg : string) : CM Z :=
  r <- on_caps (cap_create ktable ty rts ob true) ;;
  match r with inr h => ret h | inl _ => panic msg end.
Definition endpoint_or_panic (msg : string) : CM Z :=
  r <- zoom ipc_lens (endpoint_create true) ;;
  match r with inr e => if e =? 0 then panic msg else ret e | inl _ => panic msg end.
(** A handle stored in [g_kernel_task]. *)
Definition set_seed (f : task_seed → task_seed) : CM unit := task_update ktask (option_map (with_seed f)).

Definition TASK_FAILED : string := "kmain: cap_create(CAP_TYPE_TASK) failed".
Definition ENDPOINT_FAILED : string := "kmain: cap_create(CAP_TYPE_ENDPOINT) failed".

Definition core_thread_seed : CM unit :=
  on_caps (cap_table_init ktable) ;;;
  on_sched (modify (λ s, set_tasks (<[ktask := task_init ktable]> (tasks s)) s)) ;;;
  cka_attach_core_caps ktable ;;;
  self <- create_or_panic CAP_TYPE_TASK rights_task ktask TASK_FAILED ;;
  set_seed (put_self self) ;;;
  uart_cmd_ep <- endpoint_or_panic "kmain: endpoint_create(uart_cmd) failed" ;;
  uart_evt_ep <- endpoint_or_panic "kmain: endpoint_create(uart_evt) failed" ;;
  kernel_log_ep <- endpoint_or_panic "kmain: endpoint_create(kernel_log) failed" ;;
  cmd <- create_or_panic CAP_TYPE_ENDPOINT rights_uart uart_cmd_ep ENDPOINT_FAILED ;;
  set_seed (put_cmd cmd) ;;;
  evt <- create_or_panic CAP_TYPE_ENDPOINT rights_uart uart_evt_ep ENDPOINT_FAILED ;;
  set_seed (put_evt evt) ;;;
  log_send <- create_or_panic CAP_TYPE_ENDPOINT rights_log_send kernel_log_ep ENDPOINT_FAILED ;;
  set_seed (put_log_send log_send) ;;;
  log_recv <- create_or_panic CAP_TYPE_ENDPOINT rights_log_recv kernel_log_ep ENDPOINT_FAILED ;;
  set_seed (put_log_recv log_recv) ;;;
  cka_attach_kernel_log_ep log_send ;;;
  set_seed put_console.
End ops.

(** ** What the table holds afterwards *)

Section spec.
Context {H : Type} {OH : ObjHeap H} (ktable ktask : Z) (box : Z → list payload) (s0 : core_state H).
Implicit Types (c : cpu_state) (s : core_state H) (V : gmap Z cap) (eps : list Z) (k : task).

(** The kernel's table denotes exactly [V]; [eps] are open endpoints; other
    tables are as in [s0]; the kernel's task is [k]. *)
Record seed_inv V eps k s : Prop := {
  si_ok : ipc_ok (co_ipc s) box;
  si_table : is_Some (tables (ip_cap (co_ipc s)) !! ktable);
  si_view : ∀ h, 0 ≤ h < 2 ^ 64 → cap_view (ip_cap (co_ipc s)) ktable h = V !! h;
  si_others : ∀ t h, t ≠ ktable → 0 ≤ h < 2 ^ 64 → cap_view (ip_cap (co_ipc s)) t h = cap_view (ip_cap (co_ipc s0)) t h;
  si_eps : ∀ e, e ∈ eps → snd <$> registered (co_ipc s) e = Some false;
  si_task : tasks (sched_of s) !! ktask = Some k;
  si_core : g_core_caps s = ktable;
}.

(** The panics of the code and of the allocator of endpoints. *)
Definition seed_panic (x : string) : Prop :=
  x ∈ [TASK_FAILED; ENDPOINT_FAILED; "endpoint_alloc: OOM"; "kmain: endpoint_create(uart_cmd) failed";
       "kmain: endpoint_create(uart_evt) failed"; "kmain: endpoint_create(kernel_log) failed"]%string.

Lemma seed_create ty rts ob msg V eps k Q c s : seed_inv V eps k s → irq_depth c = 0 → (ty = CAP_TYPE_ENDPOINT → ob ∈ eps) → seed_panic msg →
  (∀ h s', 0 < h < 2 ^ 64 → V !! h = None → seed_inv (<[h := (ty, rts, ob)]> V) eps k s' → Q h c s') →
  wpe (create_or_panic ktable ty rts ob msg) Q seed_panic c s.
Proof.
  intros [(lv & ql & rq & I) [tbl Ht] Hv Ho He Hk Hc] Hd Hob Hmsg HQ. unfold create_or_panic, on_caps. apply wpe_bind, wpe_wp. do 2 apply wp_zoom. cbn [lget lset ipc_lens].
  unfold cap_create. destruct (Z.eqb_spec ktable 0) as [E0|_]; [rewrite E0, (ci_null _ _ (ii_cap _ _ _ _ _ _ I)) in Ht; done|]. cbn [orb negb].
  eapply wp_mono; [by eapply (insert_correct ktable tbl ty rts ob c (ip_cap (co_ipc s)) lv); [apply I|..]|]. cbv beta. intros r c' kc (-> & lv' & Hstep & Hpost).
  destruct r as [st|h]; [by apply wpe_panic|]. destruct Hpost as (Hh & Hno & Hup). apply wpe_wp. wp_steps. rewrite Hv in Hno by lia. apply HQ; try done.
  assert (∀ t h', 0 ≤ h' < 2 ^ 64 → cap_view kc t h' = if decide (t = ktable ∧ h' = h) then Some (ty, rts, ob) else cap_view (ip_cap (co_ipc s)) t h') as Hup' by exact Hup.
  split; cbn [co_ipc].
  - exists lv', ql, rq. apply (inv_caps _ lv); [done|apply Hstep|by apply Hstep|by apply Hstep|]. intros t h' r e Hh' Hv' Hne. rewrite Hup' in Hv' by done.
    destruct (decide (t = ktable ∧ h' = h)) as [_|_]; [|by eapply (ii_view _ _ _ _ _ _ I t h' r)]. injection Hv' as -> <- <-. specialize (He _ (Hob eq_refl)).
    unfold registered in He. by destruct (endpoints (co_ipc s) !! ob).
  - by apply (cs_dom _ _ _ _ _ Hstep); eexists.
  - intros h' Hh'. change (cap_view kc ktable h' = <[h := (ty, rts, ob)]> V !! h'). rewrite Hup' by done. destruct (decide (h' = h)) as [->|Hn].
    + by rewrite decide_True, lookup_insert_eq.
    + rewrite decide_False by tauto. rewrite lookup_insert_ne by done. by apply Hv.
  - intros t h' Hn Hh'. change (cap_view kc t h' = cap_view (ip_cap (co_ipc s0)) t h'). rewrite Hup' by done. rewrite decide_False by tauto. by apply Ho.
  - exact He.
  - exact Hk.
  - exact Hc.
Qed.

Lemma seed_endpoint msg V eps k Q c s : seed_inv V eps k s → irq_depth c = 0 → seed_panic msg →
  (∀ e s', e ≠ 0 → e ∉ eps → seed_inv V (e :: eps) k s' → Q e c s') →
  wpe (endpoint_or_panic msg) Q seed_panic c s.
Proof.
  intros [(lv & ql & rq & I) Ht Hv Ho He Hk Hc] Hd Hmsg HQ. unfold endpoint_or_panic, endpoint_create. apply wpe_bind, wpe_zoom. cbn [lget lset ipc_lens negb].
  apply wpe_bind. pose proof (ep_alloc_correct c (co_ipc s) lv ql box rq I Hd) as Hall. unfold wpe in *. destruct (endpoint_alloc c (co_ipc s)) as [[[e c'] s1]|m|]; [| |done].
  - destruct Hall as (-> & He0 & Hnew & h' & -> & lv' & I'). destruct (Z.eqb_spec e 0) as [|_]; [done|]. cbn [bind ret]. destruct (Z.eqb_spec e 0) as [|_]; [done|]. cbn [ret].
    assert (e ∉ eps) as Hfresh by (intros Hin; specialize (He e Hin); unfold registered in He; by rewrite Hnew in He).
    apply HQ; try done. split; cbn [co_ipc].
    + by exists lv', ql, rq.
    + exact Ht.
    + exact Hv.
    + exact Ho.
    + intros e' [->|Hin]%elem_of_cons; unfold registered; cbn [endpoints with_eps]; [by rewrite lookup_insert_eq|].
      rewrite lookup_insert_ne by (intros ->; done). by apply He.
    + exact Hk.
    + exact Hc.
  - rewrite Hall. unfold seed_panic. set_solver.
Qed.

Lemma seed_field f V eps k Q c s : seed_inv V eps k s → ktask ≠ 0 →
  (∀ s', seed_inv V eps (with_seed f k) s' → g_kernel_log_ep s' = g_kernel_log_ep s → Q tt c s') →
  wp (set_seed ktask f) Q c s.
Proof.
  intros [(lv & ql & rq & I) Ht Hv Ho He Hk Hc] Hn HQ. unfold set_seed, task_update. eapply wp_task_call; [done|exact Hk|reflexivity|]. apply HQ; try done. split; try done.
  - exists lv, ql, rq. apply (inv_sched _ _ _ _ rq); [exact I| |done|apply I|done]. destruct (ii_sched _ _ _ _ _ _ I) as [[] ? ? ? ?]. split; done.
  - apply lookup_insert_eq.
Qed.

Lemma seed_start {A} (K : M (core_state H) A) Q E c : ipc_ok (co_ipc s0) box → tables (ip_cap (co_ipc s0)) !! ktable = None → ktable ≠ 0 →
  (∀ s, seed_inv ∅ [] (task_init ktable) s → wpe K Q E c s) →
  wpe (on_caps (cap_table_init ktable) ;;; on_sched (modify (λ ss, set_tasks (<[ktask := task_init ktable]> (tasks ss)) ss)) ;;; cka_attach_core_caps ktable ;;; K) Q E c s0.
Proof.
  intros (lv & ql & rq & I) Ht Hn HQ. unfold on_caps at 1. wpe_step. do 2 apply wp_zoom. cbn [lget lset ipc_lens].
  eapply wp_mono; [eapply (wp_conj _ _ (λ _ _ (k : cap_state H), is_Some (tables k !! ktable))); [apply (table_init_correct ktable c (ip_cap (co_ipc s0)) lv); [apply I|done|done]|]|].
  { unfold cap_table_init, set_table. destruct (Z.eqb_spec ktable 0) as [|_]; [done|]. wp_steps. cbn [tables]. rewrite lookup_insert_eq. by eexists. }
  cbv beta. intros [] c' k [(-> & Hk & Hv & Ho) Htbl]. wpe_step. apply wp_on_sched. wp_step. unfold cka_attach_core_caps. wpe_step. wp_step. apply HQ.
  assert (ipc_inv (lset cap_lens k (co_ipc s0)) lv ql box rq ∅) as I1.
  { apply (inv_caps _ lv); [done|done|done|done|]. intros t h r e Hh Hv' He. destruct (decide (t = ktable)) as [->|Hne]; [by rewrite Hv in Hv'|].
    rewrite Ho in Hv' by done. by eapply (ii_view _ _ _ _ _ _ I t h r). }
  split; try done.
  - exists lv, ql, rq. apply (inv_sched (lset cap_lens k (co_ipc s0)) _ _ _ rq); [exact I1| |done|apply I|done]. destruct (ii_sched _ _ _ _ _ _ I) as [[] ? ? ? ?]. split; done.
  - intros t h Hne Hh. exact (Ho t h Hne).
  - by intros e ?%elem_of_nil.
  - apply lookup_insert_eq.
Qed.

(** A handle that is made and stored. *)
Lemma seed_handle {A} ty rts ob msg f (K : Z → M (core_state H) A) V eps k Q c s : seed_inv V eps k s → ktask ≠ 0 → irq_depth c = 0 → (ty = CAP_TYPE_ENDPOINT → ob ∈ eps) → seed_panic msg →
  (∀ h s', V !! h = None → 0 < h < 2 ^ 64 → seed_inv (<[h := (ty, rts, ob)]> V) eps (with_seed (f h) k) s' → wpe (K h) Q seed_panic c s') →
  wpe (h <- create_or_panic ktable ty rts ob msg ;; set_seed ktask (f h) ;;; K h) Q seed_panic c s.
Proof.
  intros S Hk Hd Hob Hmsg HQ. apply wpe_bind. eapply seed_create; [exact S|done|done|done|]. intros h s' Hh Hno S'. wpe_step. eapply seed_field; [exact S'|done|].
  intros s2 S2 _. by apply HQ.
Qed.
Ltac seed_step := unfold seed_panic; set_solver.

(** C35: The set-up in core_thread_entry either panics with one of its
    messages or leaves the table of the kernel with exactly five handles, to
    the task, the two endpoints of the serial port and the log endpoint, each
    with the rights the code names, on three distinct open endpoints; the task
    and the services hold them, other tables and queued messages are
    untouched, and what the driver loop of the serial port relies on holds. *)
Theorem core_thread_seed_spec c : ipc_ok (co_ipc s0) box → tables (ip_cap (co_ipc s0)) !! ktable = None → ktable ≠ 0 → ktask ≠ 0 → irq_depth c = 0 →
  wpe (core_thread_seed ktable ktask) (λ _ c' s, c' = c ∧ ∃ self cmd evt log_send log_recv uart_cmd uart_evt kernel_log,
    NoDup [log_recv; log_send; evt; cmd; self] ∧ NoDup [kernel_log; uart_evt; uart_cmd] ∧
    seed_inv (list_to_map [(log_recv, (CAP_TYPE_ENDPOINT, rights_log_recv, kernel_log)); (log_send, (CAP_TYPE_ENDPOINT, rights_log_send, kernel_log));
        (evt, (CAP_TYPE_ENDPOINT, rights_uart, uart_evt)); (cmd, (CAP_TYPE_ENDPOINT, rights_uart, uart_cmd)); (self, (CAP_TYPE_TASK, rights_task, ktask))])
      [kernel_log; uart_evt; uart_cmd] (with_seed (λ _, mkSeed self cmd cmd evt log_send log_recv) (task_init ktable)) s ∧
    g_core_caps s = ktable ∧ g_kernel_log_ep s = log_send ∧
    wired ktable cmd evt rights_uart uart_cmd rights_uart uart_evt (co_ipc s)) seed_panic c s0.
Proof.
  intros Hok Ht Hkt Hks Hd. unfold core_thread_seed. apply seed_start; [done|done|done|]. intros s1 S1.
  eapply seed_handle; [exact S1|done|done|done|seed_step|]. intros self s2 N1 R1 S2. clear s1 S1.
  apply wpe_bind. eapply seed_endpoint; [exact S2|done|seed_step|]. intros e1 s3 E1 _ S3. clear s2 S2.
  apply wpe_bind. eapply seed_endpoint; [exact S3|done|seed_step|]. intros e2 s4 E2 F2 S4. clear s3 S3.
  apply wpe_bind. eapply seed_endpoint; [exact S4|done|seed_step|]. intros e3 s5 E3 F3 S5. clear s4 S4.
  eapply seed_handle; [exact S5|done|done|set_solver|seed_step|]. intros cmd s6 N2 R2 S6. clear s5 S5.
  eapply seed_handle; [exact S6|done|done|set_solver|seed_step|]. intros evt s7 N3 R3 S7. clear s6 S6.
  eapply seed_handle; [exact S7|done|done|set_solver|seed_step|]. intros ls s8 N4 R4 S8. clear s7 S7.
  eapply seed_handle; [exact S8|done|done|set_solver|seed_step|]. intros lr s9 N5 R5 S9. clear s8 S8.
  wpe_step. unfold cka_attach_kernel_log_ep. wp_step. apply wpe_wp. eapply seed_field; [destruct S9; split; done|done|]. intros s S L. split; [done|].
  exists self, cmd, evt, ls, lr, e1, e2, e3.
  apply lookup_insert_None in N2 as [_ ?]. apply lookup_insert_None in N3 as [[_ ?]%lookup_insert_None ?].
  apply lookup_insert_None in N4 as [[[_ ?]%lookup_insert_None ?]%lookup_insert_None ?].
  apply lookup_insert_None in N5 as [[[[_ ?]%lookup_insert_None ?]%lookup_insert_None ?]%lookup_insert_None ?].
  split; [|split; [|split; [exact S|split; [apply S|split; [exact L|]]]]].
  - repeat (apply NoDup_cons; split; [set_solver|]). constructor.
  - repeat (apply NoDup_cons; split; [set_solver|]). constructor.
  - split; [apply S|]. split; [|split; [|apply (si_eps _ _ _ _ S); set_solver]]; rewrite (si_view _ _ _ _ S) by lia.
    + rewrite !lookup_insert_ne by congruence. by rewrite lookup_insert_eq.
    + rewrite !lookup_insert_ne by congruence. by rewrite lookup_insert_eq.
Qed.
End spec.

(** ** On a concrete machine *)

Module Start.
Definition boot : core_state ideal_heap := mkCore ipc_start KHeap.sample_heap 0 0 (contract_table []) [].
Definition ktable : Z := 0x20.
Definition ktask : Z := 0x6000.

Lemma core_thread_seed_witness :
  wpe (core_thread_seed ktable ktask) (λ _ c' s, c' = thread_cpu ∧ ∃ cmd evt e1 e2, e1 ≠ e2 ∧ wired ktable cmd evt rights_uart e1 rights_uart e2 (co_ipc s))
    seed_panic thread_cpu boot.
Proof.
  eapply wpe_mono; [apply (core_thread_seed_spec ktable ktask (λ _, []) boot thread_cpu)|].
  - eexists _, _, _. exact ipc_start_inv.
  - reflexivity.
  - discriminate.
  - discriminate.
  - reflexivity.
  - cbv beta. intros [] c' s (-> & self & cmd & evt & ls & lr & e1 & e2 & e3 & _ & Hn & _ & _ & _ & Hw). split; [reflexivity|]. exists cmd, evt, e1, e2. split; [|exact Hw].
    intros ->. apply NoDup_cons in Hn as [_ [Hn _]%NoDup_cons]. apply Hn. left.
Defined.

(** Evaluated: the handles and what they denote. *)
Example seed_run :
  match core_thread_seed ktable ktask thread_cpu boot with
  | Ret (_, _, s) => (seed <$> tasks (sched_of s) !! ktask, cap_view (ip_cap (co_ipc s)) ktable (g_kernel_log_ep s), cap_view (ip_cap (co_ipc s)) ktable (cap_handle_make 1 251))
  | _ => (None, None, None)
  end = (Some (mkSeed (cap_handle_make 1 255) (cap_handle_make 1 254) (cap_handle_make 1 254) (cap_handle_make 1 253) (cap_handle_make 1 252) (cap_handle_make 1 251)),
         Some (CAP_TYPE_ENDPOINT, rights_log_send, 0x10C0), Some (CAP_TYPE_ENDPOINT, rights_log_recv, 0x10C0)).
Proof. vm_compute. reflexivity. Qed.
End Start.
